(* ===== verification/_CoqProject ===== *)
-Q . S2P
Prelude.v
Serialization.v
ErrorCodes.v
Chunks.v
Protocol.v
ProtocolProps.v
LogEntries.v
LogParser.v
LogParserProps.v
LogReplay.v
LogHistory.v
LogManager.v
LogManagerProps.v
Reporting.v
ByteSource.v
SourceQueue.v
SourceQueueProps.v
Explore.v
History.v
Transfer.v
Wakeup.v
Socket.v
SendBlock.v
ThreadsController.v
FileSystem.v
FileCreator.v
FileCreatorProps.v
StateMonad.v
Transitions.v
FileWriter.v
ReceiverThread.v
ReceiverMachine.v
ReceiveBlock.v
EndToEnd.v
ReceiverExamples.v
SenderThread.v
SenderMachine.v
SenderRefines.v
Uri.v
UriProps.v
UriExamples.v
Throttler.v
ResourceController.v
ResourceControllerProps.v
Encryption.v
WdtSocket.v
SocketIo.v
SocketStream.v
SocketWriter.v
SocketReader.v
SocketClose.v
SocketExamples.v
AwdtText.v
AwdtHub.v
AwdtPush.v
AwdtTextProps.v
AwdtHubProps.v
AwdtPushProps.v
AwdtPhone.v
AwdtUrlProps.v
AwdtSession.v
AwdtExamples.v
Counters.v
CountersProps.v
PerfStats.v
Lifecycle.v
LifecycleLog.v
LifecycleProps.v
LifecycleResume.v
LifecycleExamples.v
Connections.v
ConnectionsProps.v
Wdt.v
WdtProps.v
SenderLife.v
SenderLifeProps.v
Progress.v
Options.v
Jni.v
