(* ===== verification/Prelude.v ===== *)
(** * A verification of WDT, the transfer library under [src/]

    WDT copies files from a sender to a receiver over several TCP connections,
    one per thread.  The sender discovers the files of a directory
    ([util/DirectorySourceQueue.cpp]), cuts them into blocks, and its threads
    take blocks from the queue and send them ([SenderThread.cpp]); what a thread
    has sent and what was acknowledged is in its transfer history
    ([util/ThreadTransferHistory.cpp]), from which lost blocks go back to the
    queue.  A receiver thread is a state machine ([ReceiverThread.cpp]) that
    reads commands, writes blocks to files ([util/FileWriter.cpp],
    [util/FileCreator.cpp]) and, for resumption, logs them
    ([util/TransferLogManager.cpp]).  The messages are those of [Protocol.cpp] on
    the integers of [util/SerializationUtil.cpp]; the threads of one side meet in
    [util/ThreadsController.cpp]; the verdict is computed in [Reporting.cpp].
    The two sides learn of each other by a URL ([WdtTransferRequest.cpp]);
    connections are made in [util/ClientSocket.cpp] and [util/ServerSocket.cpp]
    and encrypted in [util/WdtSocket.cpp]; [Throttler.cpp] limits the rates, and
    [WdtResourceController.cpp] and [Wdt.cpp] keep the objects of a process.  The
    program [desktop/awdt.cpp] moves files between phones and computers with the
    library.

    ** Conventions

    - Integers are [Z]; a width is written where the code can wrap or truncate
      ([wrapU], [wrapS], the ranges [inU] and [inS]).  Bytes are [Z] and buffers
      [list Z] with explicit offsets; strings are lists of bytes.  Doubles are
      rationals with an argument [rnd] that rounds every result; theorems on
      rates are for exact arithmetic and say so.
    - A failed [WDT_CHECK], an uncaught exception or an access outside of a
      container is [None]; theorems say that it does not occur, or when it does.
    - State is passed explicitly; the threads, the file writer and their helpers
      are in the state and failure monad of [StateMonad] with its weakest
      preconditions: [wp] is total (the program returns), [wlp] is partial and
      only used where the statement is about returned states.
    - Code outside of [src/] is a parameter.  System calls, sockets, OpenSSL and
      folly are classes with laws that state their documented behaviour ([Host],
      [Disk], [FileSystem], [Socket], [ServerSocket], [ClientSocket], [Crc32c],
      [Folly], [Openssl], [SocketOs], [Crypto], [AwdtOs], [Net]), and every class
      has an instance that the examples run on.  Components use each other
      through such classes too ([TransferLog], [SessionLog], [Others], [Peers],
      [SenderPeers], [CounterLike]).
    - Threads are step relations: a step is what the code does between taking a
      lock and releasing it, or between two waits.

    ** Files

    - [Prelude]: lists, integers, options, record update, tactics.
    - [Serialization]: [util/SerializationUtil.*]; what it means for an
      encoder and a decoder to fit.
    - [ErrorCodes], [Chunks], [Protocol], [ProtocolProps]: [ErrorCodes.*] and
      [Protocol.*]; round trips, buffer bounds, safety of decoders on arbitrary
      bytes, and the chunks of resumption.
    - [LogEntries], [LogParser], [LogParserProps], [LogReplay], [LogHistory],
      [LogManager], [LogManagerProps]: [util/TransferLogManager.*]; the entries,
      the parser, what it reports for the log of a transfer, a torn last entry,
      the writer thread under faults, and resumption after a crash.
    - [Reporting]: statistics and reports of [Reporting.*].
    - [ByteSource], [SourceQueue], [SourceQueueProps], [Explore]:
      [util/FileByteSource.*] and [util/DirectorySourceQueue.*]; reading a block,
      the queue with its priorities, and the walk of a directory, which is
      compared with a recursive definition over an abstract tree.
    - [History], [Transfer], [Wakeup]: [util/ThreadTransferHistory.*] and the
      sender as a whole ([Sender::finish], the end of
      [SenderThread::sendBlocks]), as a transition system; the invariant that
      every byte is in exactly one place, and the condition variable of the
      queue.
    - [Socket], [SendBlock]: the interface of a connection and
      [SenderThread::sendOneByteSource].
    - [ThreadsController]: [util/ThreadsController.*]; the barrier.
    - [FileSystem], [FileCreator], [FileCreatorProps], [StateMonad],
      [FileWriter]: system calls on files, [util/FileCreator.*] and
      [util/FileWriter.*]; paths stay inside the root, files are allocated by one
      thread, writes end at the right offset.
    - [Transitions]: state machines whose handlers are in the monad.
    - [ReceiverThread], [ReceiverMachine]: every handler of
      [ReceiverThread.cpp] and the operations of [Receiver.cpp] they call; the
      transitions of the machine and the error code in each state.
    - [ReceiveBlock], [EndToEnd], [ReceiverExamples]: what the handlers do with
      the bytes of a block; the composition with the sender; runs on concrete
      connections and the errors found.
    - [SenderThread], [SenderMachine], [SenderRefines]: every handler of
      [SenderThread.cpp]; the transitions, and that the handlers perform steps of
      [Transfer].
    - [Uri], [UriProps], [UriExamples]: [WdtTransferRequest.cpp] with the URL and
      the encryption parameters in it.
    - [Throttler]: [Throttler.cpp]; the average rate and the token bucket.
    - [ResourceController], [ResourceControllerProps]:
      [WdtResourceController.cpp]; counts and quotas under every interleaving.
    - [Encryption], [WdtSocket], [SocketIo], [SocketStream], [SocketWriter],
      [SocketReader], [SocketClose], [SocketExamples]: [util/EncryptionUtils.*]
      and [util/WdtSocket.*]; reads and writes with timeouts, the encrypted
      stream with its tags and changes of the initialization vector, and how a
      connection ends.
    - [Connections], [ConnectionsProps]: [util/ServerSocket.*] and
      [util/ClientSocket.*]; listening, accepting and connecting.
    - [Lifecycle], [LifecycleLog], [LifecycleProps], [LifecycleResume],
      [LifecycleExamples]: [WdtBase.*], [WdtThread.*] and the life of a
      [Receiver] from its request to the destructor, with the transfer log.
    - [SenderLife], [SenderLifeProps]: the life of a [Sender], on the transition system of [Transfer].
    - [Wdt], [WdtProps]: [Wdt.*]; sending and receiving through
      the resource controller, and the instances of the applications.
    - [Options], [Progress]: [WdtOptions::modifyOptions]; the loops that measure
      the throughput, and the bar on the terminal.
    - [Counters], [CountersProps], [PerfStats]: [util/Stats.*] and the statistics of system calls in [Reporting.*].
    - [AwdtText], [AwdtHub], [AwdtPush], [AwdtPhone], [AwdtTextProps],
      [AwdtHubProps], [AwdtPushProps], [AwdtUrlProps], [AwdtSession],
      [AwdtExamples]: [desktop/awdt.cpp]; text and numbers, the hub with its page,
      pushing files in both directions, and the session with the keys.

    ** Theorems

    - From end to end ([EndToEnd.end_to_end], [SendBlock.send_block],
      [ReceiveBlock.receive_block]): the bytes of a file sent over a connection
      are the bytes written at the other end.
    - The sender ([Transfer], [Wakeup], [SourceQueueProps], [SenderMachine],
      [SenderRefines], [SenderLifeProps]): no byte is lost or sent twice as far
      as the books show, the threads keep these books, the report of a sender is
      to be trusted, no wakeup is lost.
    - Discovery ([Explore]): exactly the files of the tree, and termination.
    - The receiver ([ReceiverMachine], [FileCreatorProps], [ThreadsController],
      [LifecycleProps], [LifecycleResume]): transitions, paths, allocation,
      barriers; a receiver that was initialised is ready, and runs forever if it
      is told to.
    - Resumption ([Chunks], [LogHistory], [LogManagerProps], [LogParserProps],
      [LogReplay], [LifecycleResume.transfer_resumes]): what is reported as
      received was received, and the next receiver starts with it.
    - Connections ([ConnectionsProps], [SocketIo], [SocketWriter],
      [SocketReader], [SocketClose]): no descriptor is lost, every address is
      served, and what is read from an encrypted connection is a beginning of
      what was written.
    - Messages and URLs ([ProtocolProps], [Serialization], [LogEntries],
      [UriProps]): round trips, bounds and safety.
    - Resources ([Throttler], [ResourceControllerProps], [WdtProps]): rates,
      counts, quotas, and that sending leaves nothing behind.
    - The desktop program ([AwdtSession], [AwdtPushProps], [AwdtHubProps]): both
      sides get the same request and key, files that were received are not lost
      or overwritten, and the page of the hub is what it shows.
    - Measurements ([CountersProps], [PerfStats], [Progress]): histograms,
      percentiles and throughputs are those of the values recorded.
    - Errors ([ReceiverExamples], [LogParserProps], [LogManager],
      [LifecycleExamples], [WdtProps], [SenderLifeProps] and the examples of other
      files): inputs on which the program aborts, rejects what it should
      accept or leaves something behind.

    ** Fuel

    Loops whose end depends on the environment take fuel, and the theorems state
    how much is enough: reads and writes of a block at most one round per byte
    and one per interrupted system call ([enough_fuel]); the walk of a directory
    a bound given by the size of the tree ([Explore.explore_terminates]); a URL
    and the throttler a round per byte; reads and writes of a socket the bytes
    and the patience of its timeouts; a line of the desktop protocol its greatest
    length, 8193; a free name for a file that was received the number of files
    and one; JSON its length; listening twice the addresses; polls the time that
    is left.  A wait for another thread is bounded by a hypothesis that it ends
    ([wait_ends]), and [FileCreatorProps.allocation_coordinated] shows that the
    thread waited for will notify.

    ** Not modelled

    The command line and its flags ([wdtCmdLine.cpp], [util/WdtFlags.*]), the
    bridge to Java and the test and benchmark programs: they call the library,
    and the flags are made by macros.  Abort checkers and signals: what they
    answer is the environment's.  Log messages and numbers that are only printed.
    Memory: buffers are allocated, and the alignment for direct reads is there.
    Of the desktop program, opening sockets and the loops that accept.  The
    clock appears as an argument or as the environment's answer whether something
    is due. *)
From Stdlib Require Export ZArith Lia.
From stdpp Require Export base numbers list list_numbers gmap sets strings sorting.

#[global] Open Scope Z_scope.

Declare Scope wdt_scope.
Delimit Scope wdt_scope with wdt.
#[global] Open Scope wdt_scope.

(** ** Machine integers *)

(** [wrapU w z] is the value of [z] converted to an unsigned [w]-bit type,
    [wrapS w z] to a signed [w]-bit (two's complement) type. *)
Definition wrapU (w z : Z) : Z := z mod 2 ^ w.
Definition wrapS (w z : Z) : Z := (z + 2 ^ (w - 1)) mod 2 ^ w - 2 ^ (w - 1).

Definition inU (w z : Z) : Prop := 0 <= z < 2 ^ w.
Definition inS (w z : Z) : Prop := - 2 ^ (w - 1) <= z < 2 ^ (w - 1).

Definition INT16_MAX : Z := 32767.
Definition INT32_MAX : Z := 2147483647.
Definition INT32_MIN : Z := -2147483648.
Definition INT64_MAX : Z := 9223372036854775807.

(** [sizeof T] for the integer types the code serialises. *)
Definition sizeof_int16 : Z := 2.
Definition sizeof_int32 : Z := 4.
Definition sizeof_int64 : Z := 8.

(** [char] is a signed 8-bit type on the platforms the program is built
    for; a buffer cell holds the unsigned view of it. *)
Definition schar (b : Z) : Z := wrapS 8 b.
Definition is_byte (b : Z) : Prop := 0 <= b < 256.

Lemma wrapU_small w z : inU w z -> wrapU w z = z.
Proof. intros ?. by apply Z.mod_small. Qed.

Lemma wrapU_range w z : 0 <= w -> inU w (wrapU w z).
Proof. intros ?. apply Z.mod_pos_bound, Z.pow_pos_nonneg; lia. Qed.

Lemma wrapS_small w z : 0 < w -> inS w z -> wrapS w z = z.
Proof.
  intros Hw [Hl Hu]. unfold wrapS.
  assert (2 ^ w = 2 * 2 ^ (w - 1)) as E.
  { rewrite <- Z.pow_succ_r by lia. f_equal. lia. }
  rewrite Z.mod_small; lia.
Qed.

Lemma wrapS_wrapU w z : 0 < w -> inS w z -> wrapS w (wrapU w z) = z.
Proof.
  intros Hw Hz. unfold wrapS, wrapU.
  rewrite Zplus_mod_idemp_l. by apply wrapS_small.
Qed.

Lemma wrapS_range w z : 0 < w -> inS w (wrapS w z).
Proof.
  intros Hw. unfold inS, wrapS.
  assert (2 ^ w = 2 * 2 ^ (w - 1)) as E.
  { rewrite <- Z.pow_succ_r by lia. f_equal. lia. }
  pose proof (Z.mod_pos_bound (z + 2 ^ (w - 1)) (2 ^ w)).
  assert (0 < 2 ^ w) by (apply Z.pow_pos_nonneg; lia). lia.
Qed.

(** ** Stuck executions

    [None] is an execution that does not return: a failed [WDT_CHECK]
    (glog's [CHECK], which aborts the process) or a step outside the
    behaviour the language defines (a pointer range whose end is before
    its start, a read past a buffer).  Theorems state that it does not
    occur. *)
Notation "'let*' pat ':=' c1 'in' c2" :=
  (match c1 with Some pat => c2 | None => None end)
  (at level 10, pat pattern, c2 at level 200) : wdt_scope.
Notation "'check' b ';;' c" := (if b then c else None)
  (at level 10, b at level 99, c at level 200) : wdt_scope.

(** ** Record update

    [r <| f := v |>] is [r] with field [f] set to [v].  A record declares its
    eta-expansion as an instance of [Settable]; the update of a field is found
    by abstracting that field in it. *)
Class Settable (R : Type) := eta_record : R -> R.
Class FieldUpdate {R T : Type} (f : R -> T) := update_field : T -> R -> R.
Ltac field_update :=
  match goal with
  | |- @FieldUpdate ?R ?T ?f =>
      let i := constr:(_ : Settable R) in
      let e := eval hnf in i in
      match eval pattern f in e with
      | ?body _ => exact (fun (v : T) (r : R) => body (fun _ : R => v) r)
      end
  end.
#[global] Hint Extern 0 (FieldUpdate _) => field_update : typeclass_instances.
Notation "r <| f := v |>" := (update_field (f := f) v r)
  (at level 12, f at level 99, v at level 200, left associativity) : wdt_scope.

(** ** Tactics *)

Create HintDb wdt.

(** Case analysis on every test and match of a goal, keeping equations. *)
Ltac case_goal :=
  match goal with
  | |- context [match ?x with _ => _ end] =>
      lazymatch x with
      | context [match _ with _ => _ end] => fail
      | _ => destruct x eqn:?
      end
  end.
Ltac case_hyp H :=
  match type of H with
  | context [match ?x with _ => _ end] =>
      lazymatch x with
      | context [match _ with _ => _ end] => fail
      | _ => destruct x eqn:?
      end
  end.
Ltac bool_to_prop :=
  rewrite ?andb_true_iff, ?orb_true_iff, ?andb_false_iff, ?orb_false_iff,
    ?negb_true_iff, ?negb_false_iff, ?Z.eqb_eq, ?Z.eqb_neq, ?Z.leb_le, ?Z.leb_gt,
    ?Z.ltb_lt, ?Z.ltb_ge, ?bool_decide_eq_true, ?bool_decide_eq_false in *.
Ltac zbool := repeat (case_goal; bool_to_prop); try lia.

(** Decides closed arithmetic side conditions by evaluation. *)
Ltac eval_side :=
  vm_compute; repeat match goal with |- _ /\ _ => split end; solve [congruence | done].

(** ** Lists *)

(** [Zlen l] is the [size()] of a container, as an [int64_t]. *)
Abbreviation Zlen l := (Z.of_nat (length l)).

Lemma Zlen_app {A} (l k : list A) : Zlen (l ++ k) = Zlen l + Zlen k.
Proof. rewrite length_app. lia. Qed.

Lemma Zlen_cons {A} (x : A) l : Zlen (x :: l) = 1 + Zlen l.
Proof. simpl. lia. Qed.

Lemma Zlen_nil {A} : Zlen (@nil A) = 0.
Proof. done. Qed.

Create Rewrite HintDb zlen.
#[global] Hint Rewrite @Zlen_app @Zlen_cons @Zlen_nil : zlen.
Ltac zlen := autorewrite with zlen in *; try lia.

(** The bytes of a buffer in [[i, j)]. *)
Definition slice {A} (i j : Z) (l : list A) : list A :=
  take (Z.to_nat (j - i)) (drop (Z.to_nat i) l).

Lemma list_inserts_app_split {A} (pre mid post bs : list A) :
  length mid = length bs ->
  list_inserts (length pre) bs (pre ++ mid ++ post) = pre ++ bs ++ post.
Proof.
  intros E. rewrite <- (Nat.add_0_r (length pre)).
  rewrite list_inserts_app_r, list_inserts_0_r; done.
Qed.

Lemma list_inserts_split {A} (i : nat) (bs l : list A) :
  (i + length bs <= length l)%nat ->
  list_inserts i bs l = take i l ++ bs ++ drop (i + length bs) l.
Proof.
  intros Hlen.
  rewrite <- (take_drop i l) at 1.
  rewrite <- (take_drop (length bs) (drop i l)) at 1.
  rewrite drop_drop.
  rewrite <- (length_take_le l i) at 1 by lia.
  rewrite list_inserts_app_split; [done|].
  rewrite length_take_le; [done|]. rewrite length_drop. lia.
Qed.

(** Reading back what was written at an offset, whatever follows it. *)
Lemma drop_list_inserts {A} (i : nat) (bs l : list A) :
  (i + length bs <= length l)%nat ->
  drop i (list_inserts i bs l) = bs ++ drop (i + length bs) l.
Proof.
  intros Hlen. rewrite list_inserts_split by done.
  rewrite drop_app_le, drop_ge; [done|..]; rewrite length_take_le; lia.
Qed.

(** ** Sums *)

Definition Zsum (l : list Z) : Z := foldr Z.add 0 l.

Lemma Zsum_app l k : Zsum (l ++ k) = Zsum l + Zsum k.
Proof. unfold Zsum. induction l; simpl; lia. Qed.

Lemma Zsum_permutation l k : l ≡ₚ k -> Zsum l = Zsum k.
Proof. unfold Zsum. induction 1; simpl; lia. Qed.

(** ** Bytes *)

(** A decidable property of bytes holds when it holds of all 256. *)
Lemma byte_forall (P : Z -> bool) :
  forallb P (Z.of_nat <$> seq 0 256) = true -> forall b, is_byte b -> P b = true.
Proof.
  intros HP b Hb. unfold is_byte in Hb. rewrite forallb_forall in HP. apply HP.
  apply list_elem_of_In, list_elem_of_fmap. exists (Z.to_nat b). split; [lia|].
  apply elem_of_seq. lia.
Qed.

Lemma is_byte_wrapU z : is_byte (wrapU 8 z).
Proof. apply (wrapU_range 8 z). lia. Qed.

Lemma land_7f_range v : 0 <= Z.land v 0x7f < 128.
Proof. change 0x7f with (Z.ones 7). rewrite Z.land_ones by lia. apply Z.mod_pos_bound. lia. Qed.
