(* ===== verification/Serialization.v ===== *)
(** Variable-length and fixed-length integers and strings on a byte buffer:
    [util/SerializationUtil.h] and [util/SerializationUtil.cpp].

    A buffer [char* dest] is the list of its bytes, an offset into it a [Z].
    The encoders take the buffer, its size and the offset, and return the
    flag the C++ function returns, the buffer and the moved offset; [None] is
    a failed [WDT_CHECK].  A [folly::ByteRange] is the list of the bytes
    between its two pointers, so [size], [empty], [front], [pop_front] and
    [advance] are the list operations; a decoder returns the flag, what it
    stored in its out-parameter ([None]: it was not written) and the advanced
    range.  [folly::loadUnaligned], [folly::storeUnaligned] and
    [folly::Endian::little] are the parameters of the class [Host]. *)
From S2P Require Import Prelude.

(** ** The host's byte order *)

(** What the code uses of folly's [lang/Bits.h], for signed integers of
    [n] bytes.  [Endian_little] converts between the host's order and little
    endian, in both directions; [storeUnaligned] and [loadUnaligned] move an
    integer in host order to and from memory. *)
Class Host := {
  storeUnaligned : Z -> Z -> list Z;
  loadUnaligned : Z -> list Z -> Z;
  Endian_little : Z -> Z -> Z;
  storeUnaligned_length n v : 0 < n -> Zlen (storeUnaligned n v) = n;
  loadUnaligned_store n v rest : 0 < n -> inS (8 * n) v ->
    loadUnaligned n (storeUnaligned n v ++ rest) = v;
  storeUnaligned_little n v : 0 < n -> inS (8 * n) v ->
    storeUnaligned n (Endian_little n v) = Z_to_little_endian n 8 v;
  loadUnaligned_little n bs : 0 < n -> n <= Zlen bs ->
    Forall is_byte (take (Z.to_nat n) bs) ->
    Endian_little n (loadUnaligned n bs) =
    wrapS (8 * n) (little_endian_to_Z 8 (take (Z.to_nat n) bs))
}.

(** ** Zig-zag and variable-length integers *)

Definition encodeZigZag (val : Z) : Z :=
  let uval := wrapU 64 val in
  Z.lxor (wrapU 64 (Z.shiftl uval 1)) (wrapU 64 (Z.shiftr val 63)).

Definition decodeZigZag (val : Z) : Z :=
  wrapS 64 (Z.lxor (Z.shiftr val 1) (wrapU 64 (- Z.land val 1))).

(** The [std::string] version.  [left] is the number of iterations the test
    [++count < 9] still allows. *)
Fixpoint encodeVarU64_string_loop (left : nat) (buffer : list Z) (count v : Z)
    : list Z * Z :=
  let count := count + 1 in
  match left with
  | S left' =>
      if 128 <=? v then
        encodeVarU64_string_loop left' (buffer ++ [Z.lor 0x80 (Z.land v 0x7f)])
          count (Z.shiftr v 7)
      else (buffer ++ [wrapU 8 v], count)
  | O => (buffer ++ [wrapU 8 v], count)
  end.
Definition encodeVarU64_string (buffer : list Z) (v : Z) : list Z * Z :=
  encodeVarU64_string_loop 8 buffer 0 v.

Definition encodeVarI64_string (buffer : list Z) (i64 : Z) : list Z * Z :=
  encodeVarU64_string buffer (encodeZigZag i64).

(** The buffer version: [p] and [end_] are the pointers, as indices of [data]. *)
Fixpoint encodeVarU64_loop (left : nat) (data : list Z) (p end_ count v : Z)
    : bool * list Z * Z * Z * Z :=
  let count := count + 1 in
  match left with
  | S left' =>
      if 128 <=? v then
        if end_ <=? p then (false, data, p, count, v)
        else encodeVarU64_loop left'
               (<[Z.to_nat p := Z.lor 0x80 (Z.land v 0x7f)]> data)
               (p + 1) end_ count (Z.shiftr v 7)
      else (true, data, p, count, v)
  | O => (true, data, p, count, v)
  end.
Definition encodeVarU64 (data : list Z) (datasz pos v : Z)
    : bool * list Z * Z :=
  if pos <? 0 then (false, data, pos) else
  let '(ok, data, p, count, v) := encodeVarU64_loop 8 data pos datasz 0 v in
  if negb ok then (false, data, pos) else
  if datasz <=? p then (false, data, pos) else
  (true, <[Z.to_nat p := wrapU 8 v]> data, pos + count).

Definition encodeVarI64 (data : list Z) (datalen pos sv : Z)
    : bool * list Z * Z :=
  encodeVarU64 data datalen pos (encodeZigZag sv).

(** [WDT_CHECK_GE(v, 0)] first. *)
Definition encodeVarI64C (data : list Z) (datasz pos v : Z)
    : option (bool * list Z * Z) :=
  check 0 <=? v ;;
  Some (encodeVarU64 data datasz pos (wrapU 64 v)).

(** Reading [*p]: the bytes of the range are the whole buffer, and the code
    tests [p >= end] before each read. *)
Fixpoint decodeVarU64_loop (left : nat) (data : list Z) (datalen p val shift : Z)
    : option (bool * Z * Z * Z) :=
  let* b := data !! Z.to_nat p in
  match left with
  | S left' =>
      if negb (Z.land (schar b) 0x80 =? 0) then
        let val := Z.lor val (wrapU 64 (Z.shiftl (Z.land (schar b) 0x7f) shift)) in
        let shift := shift + 7 in
        let p := p + 1 in
        if datalen <=? p then Some (false, p, val, shift)
        else decodeVarU64_loop left' data datalen p val shift
      else Some (true, p, val, shift)
  | O => Some (true, p, val, shift)
  end.
Definition decodeVarU64 (data : list Z) (datalen pos : Z)
    : option (bool * option Z * Z) :=
  if pos <? 0 then Some (false, None, pos) else
  if datalen <=? pos then Some (false, None, pos) else
  let* (ok, p, val, shift) := decodeVarU64_loop 8 data datalen pos 0 0 in
  if negb ok then Some (false, None, pos) else
  let* b := data !! Z.to_nat p in
  Some (true,
        Some (Z.lor val (wrapU 64 (Z.shiftl (wrapU 64 (schar b)) shift))),
        p + 1).

Definition decodeVarI64 (data : list Z) (datalen pos : Z)
    : option (bool * option Z * Z) :=
  let* (ok, v, pos) := decodeVarU64 data datalen pos in
  Some (ok, if ok then decodeZigZag <$> v else None, pos).

(** ** Byte ranges *)

Definition ByteRange : Type := list Z.
Definition decoder (A : Type) : Type := ByteRange -> option (bool * option A * ByteRange).

Definition makeByteRange_string (str : list Z) : ByteRange := str.

(** [[dest + off, dest + sz)].  The range is only defined for [off <= sz] and
    within the buffer. *)
Definition makeByteRange (dest : list Z) (sz off : Z) : option ByteRange :=
  check (0 <=? off) && (0 <=? sz) && (off <=? sz) && (sz <=? Zlen dest) ;;
  Some (slice off sz dest).

(** Both ranges end at the same address, so the distance of their starts is
    the difference of their sizes. *)
Definition offset (newRange oldRange : ByteRange) : Z :=
  Zlen oldRange - Zlen newRange.

Definition decodeInt64 : decoder Z := fun br =>
  let* (ret, res, pos) := decodeVarI64 br (Zlen br) 0 in
  if negb ret then Some (false, None, br) else
  check 1 <=? pos ;;
  Some (true, res, drop (Z.to_nat pos) br).

Definition decodeInt32 : decoder Z := fun br =>
  let obr := br in
  let* (ok, res64, br) := decodeInt64 br in
  if negb ok then Some (false, None, br) else
  let* res64 := res64 in
  if (INT32_MAX <? res64) || (res64 <? INT32_MIN) then Some (false, None, obr)
  else Some (true, Some (wrapS 32 res64), br).

Definition decodeUInt64 : decoder Z := fun br =>
  let* (ret, res, pos) := decodeVarU64 br (Zlen br) 0 in
  if negb ret then Some (false, None, br) else
  check 1 <=? pos ;;
  Some (true, res, drop (Z.to_nat pos) br).

Definition decodeInt64C : decoder Z := fun br =>
  let* (ret, ures, br) := decodeUInt64 br in
  if negb ret then Some (false, None, br) else
  let* ures := ures in
  if INT64_MAX <? ures then Some (false, None, br)
  else Some (true, Some (wrapS 64 ures), br).

Definition decodeInt32C : decoder Z := fun br =>
  let obr := br in
  let* (ok, res64, br) := decodeInt64C br in
  if negb ok then Some (false, None, br) else
  let* res64 := res64 in
  if (INT32_MAX <? res64) || (res64 <? 0) then Some (false, None, obr)
  else Some (true, Some (wrapS 32 res64), br).

Section fixed_length.
Context `{Host}.

(** The template, for a type of [n] bytes.  The out-parameter is written
    before the sign test. *)
Definition decodeIntFixedLength (n : Z) : decoder Z := fun br =>
  if Zlen br <? n then Some (false, None, br) else
  let res := loadUnaligned n br in
  let res := Endian_little n res in
  let br := drop (Z.to_nat n) br in
  if res <? 0 then Some (false, Some res, br)
  else Some (true, Some res, br).

Definition decodeInt16FixedLength : decoder Z := decodeIntFixedLength sizeof_int16.
Definition decodeInt32FixedLength : decoder Z := decodeIntFixedLength sizeof_int32.
Definition decodeInt64FixedLength : decoder Z := decodeIntFixedLength sizeof_int64.

Definition encodeIntFixedLength (n : Z) (dest : list Z) (sz off val : Z)
    : bool * list Z * Z :=
  if sz <? off + n then (false, dest, off) else
  (true, list_inserts (Z.to_nat off) (storeUnaligned n (Endian_little n val)) dest,
   off + n).

Definition encodeInt16FixedLength := encodeIntFixedLength sizeof_int16.
Definition encodeInt32FixedLength := encodeIntFixedLength sizeof_int32.
Definition encodeInt64FixedLength := encodeIntFixedLength sizeof_int64.
End fixed_length.

(** ** Strings *)

Definition encodeString (dest : list Z) (sz off : Z) (str : list Z)
    : bool * list Z * Z :=
  let '(ok, dest, off) := encodeVarU64 dest sz off (Zlen str) in
  if negb ok then (false, dest, off) else
  let strLen := Zlen str in
  if sz <? off + strLen then (false, dest, off) else
  (true, list_inserts (Z.to_nat off) str dest, off + strLen).

Definition decodeString : decoder (list Z) := fun br =>
  let* (ok, strLen, br) := decodeUInt64 br in
  if negb ok then Some (false, None, br) else
  let* strLen := strLen in
  if Zlen br <? strLen then Some (false, None, br) else
  Some (true, Some (take (Z.to_nat strLen) br), drop (Z.to_nat strLen) br).

(** ** The bytes of an encoding, and what it means to write and read them *)

Fixpoint varbytes (left : nat) (v : Z) : list Z :=
  match left with
  | S left' =>
      if 128 <=? v then Z.lor 0x80 (Z.land v 0x7f) :: varbytes left' (Z.shiftr v 7)
      else [wrapU 8 v]
  | O => [wrapU 8 v]
  end.
(** The bytes of the variable-length encoding of an unsigned value. *)
Definition varU64 (v : Z) : list Z := varbytes 8 v.
#[global] Arguments varU64 : simpl never.
(** A string is its length followed by its bytes. *)
Definition stringBytes (s : list Z) : list Z := varU64 (Zlen s) ++ s.
(** A fixed-length integer is in little-endian order on every host. *)
Definition fixedBytes (n v : Z) : list Z := Z_to_little_endian n 8 v.

Definition encoder : Type := list Z -> Z -> option (bool * list Z * Z).

(** What an encoder of [bs] leaves: when there is room, exactly [bs] at the
    offset, which moves past it; otherwise the flag is false and nothing
    outside [[off, sz)] was touched. *)
Inductive enc_result (sz : Z) (bs dest : list Z) (off : Z)
  : bool -> list Z -> Z -> Prop :=
| enc_fits :
    off + Zlen bs <= sz ->
    enc_result sz bs dest off true
      (list_inserts (Z.to_nat off) bs dest) (off + Zlen bs)
| enc_full dest' off' :
    sz < off + Zlen bs ->
    off <= off' <= sz ->
    length dest' = length dest ->
    (forall i, (i < Z.to_nat off)%nat \/ (Z.to_nat sz <= i)%nat ->
      dest' !! i = dest !! i) ->
    enc_result sz bs dest off false dest' off'.

Definition Encodes (sz : Z) (e : encoder) (bs : list Z) : Prop :=
  forall dest off, 0 <= off <= sz -> sz <= Zlen dest ->
  exists ok dest' off',
    e dest off = Some (ok, dest', off') /\ enc_result sz bs dest off ok dest' off'.

(** A decoder that reads back [v] from [bs], whatever follows. *)
Definition Decodes {A} (d : decoder A) (bs : list Z) (v : A) : Prop :=
  forall rest, d (bs ++ rest) = Some (true, Some v, rest).

(** A decoder that, on arbitrary bytes, returns, never advances past the end
    of its range, and stores a value whenever it reports success. *)
Definition Safe {A} (d : decoder A) : Prop :=
  forall br, exists ok v br', d br = Some (ok, v, br') /\ br' `suffix_of` br /\
    (ok = true -> is_Some v).

(** A decoder that consumes at least one byte whenever it succeeds, so a loop
    of them ends. *)
Definition Strict {A} (d : decoder A) : Prop :=
  forall br v br', d br = Some (true, v, br') -> (length br' < length br)%nat.

(** ** Variable-length integers: writing *)

Lemma encodeVarU64_string_loop_eq left buffer count v :
  encodeVarU64_string_loop left buffer count v =
  (buffer ++ varbytes left v, count + Zlen (varbytes left v)).
Proof.
  revert buffer count v. induction left as [|left IH]; intros; simpl.
  - f_equal. 
  - destruct (128 <=? v); [|done].
    rewrite IH, <- app_assoc. f_equal. zlen.
Qed.

Lemma length_varbytes left v : (1 <= length (varbytes left v) <= S left)%nat.
Proof.
  revert v. induction left as [|left IH]; intros v; simpl; [lia|].
  case_goal; simpl; [|lia]. specialize (IH (Z.shiftr v 7)). lia.
Qed.

Lemma Zlen_varU64 v : 1 <= Zlen (varU64 v) <= 9.
Proof. unfold varU64. pose proof (length_varbytes 8 v). lia. Qed.

(** [k] groups of seven bits hold any value below [2 ^ (7 * k)]. *)
Lemma length_varbytes_le left v k : 0 <= v < 2 ^ (7 * Z.of_nat k) -> (1 <= k)%nat ->
  (length (varbytes left v) <= k)%nat.
Proof.
  revert v k. induction left as [|left IH]; intros v k Hv Hk; simpl; [lia|].
  destruct (128 <=? v) eqn:E; bool_to_prop; simpl; [|lia].
  destruct k as [|[|k]]; [lia|simpl in Hv; lia|].
  enough (length (varbytes left (Z.shiftr v 7)) <= S k)%nat by lia. apply IH; [|lia].
  rewrite Z.shiftr_div_pow2 by lia. split; [apply Z.div_pos; lia|].
  apply Z.div_lt_upper_bound; [lia|]. rewrite <- Z.pow_add_r by lia.
  replace (7 + 7 * Z.of_nat (S k)) with (7 * Z.of_nat (S (S k))) by lia. lia.
Qed.

Lemma Zlen_varU64_le v k : 0 <= v < 2 ^ (7 * k) -> 1 <= k -> Zlen (varU64 v) <= k.
Proof.
  intros Hv Hk. pose proof (length_varbytes_le 8 v (Z.to_nat k)) as H.
  rewrite Z2Nat.id in H by lia. unfold varU64. specialize (H Hv). lia.
Qed.

Lemma encodeVarU64_loop_spec pos sz left data p count v :
  0 <= p <= sz -> sz <= Zlen data ->
  let '(ok, data', p', count', v') := encodeVarU64_loop left data p sz count v in
  let bs := varbytes left v in
  let r := if negb ok then (false, data', pos) else
           if sz <=? p' then (false, data', pos) else
           (true, <[Z.to_nat p' := wrapU 8 v']> data', pos + count') in
  (p + Zlen bs <= sz ->
     r = (true, list_inserts (Z.to_nat p) bs data, pos + count + Zlen bs)) /\
  (sz < p + Zlen bs ->
     r.1.1 = false /\ r.2 = pos /\ length r.1.2 = length data /\
     forall i, (i < Z.to_nat p)%nat \/ (Z.to_nat sz <= i)%nat ->
       r.1.2 !! i = data !! i).
Proof.
  revert data p count v. induction left as [|left IH]; intros data p count v Hp Hsz; simpl.
  - destruct (sz <=? p) eqn:E; bool_to_prop; simpl; split; intros; try lia; try done.
    f_equal. lia.
  - destruct (128 <=? v) eqn:Ev; simpl.
    2:{ destruct (sz <=? p) eqn:E; bool_to_prop; simpl; split; intros; try lia; try done.
        f_equal. lia. }
    destruct (sz <=? p) eqn:E; bool_to_prop; simpl.
    { split; [|done]. pose proof (length_varbytes left (Z.shiftr v 7)). lia. }
    set (b := Z.lor 128 (Z.land v 127)). set (v1 := Z.shiftr v 7).
    specialize (IH (<[Z.to_nat p:=b]> data) (p + 1) (count + 1) v1).
    destruct (encodeVarU64_loop left _ _ _ _ _) as [[[[ok d'] p'] c'] v'].
    rewrite length_insert in IH. specialize (IH ltac:(lia) Hsz).
    simpl in IH. destruct IH as [IH1 IH2].
    replace (Z.to_nat (p + 1)) with (S (Z.to_nat p)) in * by lia.
    split; intros Hlen.
    + rewrite IH1 by lia. f_equal; [|lia]. f_equal.
      rewrite list_insert_inserts_lt by lia. done.
    + destruct IH2 as (? & ? & ? & Hi); [lia|]. repeat split; try done.
      intros i Hor. rewrite Hi by lia. apply list_lookup_insert_ne. lia.
Qed.

Lemma encodeVarU64_encodes sz v :
  Encodes sz (fun dest off => Some (encodeVarU64 dest sz off v)) (varU64 v).
Proof.
  intros dest off Hoff Hsz. unfold encodeVarU64.
  replace (off <? 0) with false by (symmetry; bool_to_prop; lia).
  pose proof (encodeVarU64_loop_spec off sz 8 dest off 0 v Hoff Hsz) as Hl.
  destruct (encodeVarU64_loop 8 dest off sz 0 v) as [[[[ok d'] p'] c'] v'].
  fold (varU64 v) in Hl. simpl in Hl.
  set (r := if negb ok then _ else _) in *. destruct r as [[ok1 d1] o1] eqn:Er.
  exists ok1, d1, o1. split; [done|].
  destruct Hl as [H1 H2]. destruct (Z.le_gt_cases (off + Zlen (varU64 v)) sz) as [Hle|Hgt].
  - specialize (H1 Hle). rewrite Z.add_0_r in H1. simplify_eq. by constructor.
  - destruct (H2 Hgt) as (? & ? & ? & ?). simpl in *. subst.
    constructor; auto. lia.
Qed.

Lemma encodeVarI64C_encodes sz v :
  0 <= v <= INT64_MAX ->
  Encodes sz (fun dest off => encodeVarI64C dest sz off v) (varU64 v).
Proof.
  intros Hv dest off Hoff Hsz. unfold encodeVarI64C.
  replace (0 <=? v) with true by (symmetry; bool_to_prop; lia).
  rewrite wrapU_small by (unfold inU, INT64_MAX in *; lia).
  by apply encodeVarU64_encodes.
Qed.

Lemma encodeVarI64_encodes sz v :
  Encodes sz (fun dest off => Some (encodeVarI64 dest sz off v)) (varU64 (encodeZigZag v)).
Proof. apply encodeVarU64_encodes. Qed.

(** ** Variable-length integers: reading back *)

Lemma lor_land_shiftr_7 v s : 0 <= v -> 0 <= s ->
  Z.lor (Z.shiftl (Z.land v 127) s) (Z.shiftl (Z.shiftr v 7) (s + 7)) = Z.shiftl v s.
Proof.
  intros Hv Hs. rewrite (Z.add_comm s 7), <- Z.shiftl_shiftl, <- Z.shiftl_lor by lia.
  f_equal. apply Z.bits_inj'. intros n Hn. change 127 with (Z.ones 7).
  rewrite Z.lor_spec, Z.land_spec, Z.shiftl_spec by lia.
  destruct (Z.lt_ge_cases n 7).
  - rewrite Z.ones_spec_low, (Z.testbit_neg_r _ (n - 7)) by lia.
    by rewrite andb_true_r, orb_false_r.
  - rewrite Z.ones_spec_high, Z.shiftr_spec, andb_false_r by lia. simpl. f_equal. lia.
Qed.

(** A byte with the continuation bit set, seen as a signed [char]. *)
Lemma schar_cont_byte v :
  (Z.land (schar (Z.lor 0x80 (Z.land v 0x7f))) 0x80 =? 0) = false /\
  Z.land (schar (Z.lor 0x80 (Z.land v 0x7f))) 0x7f = Z.land v 0x7f /\
  is_byte (Z.lor 0x80 (Z.land v 0x7f)).
Proof.
  pose proof (land_7f_range v) as Hw. set (w := Z.land v 0x7f) in *.
  clearbody w.
  pose proof (byte_forall (fun w => negb (w <? 128) ||
    (negb (Z.land (schar (Z.lor 0x80 w)) 0x80 =? 0)
    && (Z.land (schar (Z.lor 0x80 w)) 0x7f =? w)
    && (0 <=? Z.lor 0x80 w) && (Z.lor 0x80 w <? 256))) eq_refl w) as HP.
  unfold is_byte in *. specialize (HP ltac:(lia)). cbv beta in HP.
  bool_to_prop. intuition lia.
Qed.

(** A byte without it. *)
Lemma schar_last_byte v : 0 <= v < 128 ->
  (Z.land (schar (wrapU 8 v)) 0x80 =? 0) = true /\ wrapU 8 v = v /\ schar v = v.
Proof.
  intros Hv. pose proof (byte_forall (fun v => negb (v <? 128) ||
    ((Z.land (schar (wrapU 8 v)) 0x80 =? 0)
    && (wrapU 8 v =? v) && (schar v =? v))) eq_refl v) as HP.
  unfold is_byte in *. specialize (HP ltac:(lia)). cbv beta in HP.
  bool_to_prop. intuition lia.
Qed.

(** The ninth byte carries eight bits; the sign extension of the cast to
    [uint64_t] is shifted out. *)
Lemma ninth_byte v : 0 <= v < 256 ->
  wrapU 64 (Z.shiftl (wrapU 64 (schar (wrapU 8 v))) 56) = Z.shiftl v 56.
Proof.
  intros Hv. apply Z.eqb_eq.
  exact (byte_forall (fun v =>
    wrapU 64 (Z.shiftl (wrapU 64 (schar (wrapU 8 v))) 56) =? Z.shiftl v 56) eq_refl v Hv).
Qed.

Lemma shiftl_inU v s : 0 <= s <= 64 -> 0 <= v < 2 ^ (64 - s) -> inU 64 (Z.shiftl v s).
Proof.
  intros Hs Hv. unfold inU. rewrite Z.shiftl_mul_pow2 by lia.
  assert (2 ^ 64 = 2 ^ (64 - s) * 2 ^ s) as -> by (rewrite <- Z.pow_add_r by lia; f_equal; lia).
  assert (0 < 2 ^ s) by (apply Z.pow_pos_nonneg; lia). nia.
Qed.

(** The decoding loop on an encoding: [val] holds the low bits already read. *)
Lemma decodeVarU64_loop_varbytes left pre v rest val :
  0 <= v < 2 ^ (8 + 7 * Z.of_nat left) -> (left <= 8)%nat ->
  let data := pre ++ varbytes left v ++ rest in
  let shift := 7 * (8 - Z.of_nat left) in
  exists p' val' shift' b,
    decodeVarU64_loop left data (Zlen data) (Zlen pre) val shift =
      Some (true, p', val', shift') /\
    p' = Zlen pre + Zlen (varbytes left v) - 1 /\
    data !! Z.to_nat p' = Some b /\
    Z.lor val' (wrapU 64 (Z.shiftl (wrapU 64 (schar b)) shift')) =
      Z.lor val (Z.shiftl v shift).
Proof.
  revert pre v val. induction left as [|left IH]; intros pre v val Hv Hleft data shift.
  - assert (data !! Z.to_nat (Zlen pre) = Some (wrapU 8 v)) as Hl.
    { unfold data. rewrite Nat2Z.id. by apply list_lookup_middle. }
    exists (Zlen pre), val, shift, (wrapU 8 v).
    simpl. rewrite Hl. repeat split; try done; [lia|].
    change shift with 56. f_equal. apply ninth_byte. simpl in Hv. lia.
  - assert (shift <= 49) as Hs by lia. assert (0 <= shift) as Hs0 by lia.
    unfold data. simpl varbytes. destruct (128 <=? v) eqn:Ev; bool_to_prop.
    + destruct (schar_cont_byte v) as (Hc & H7 & _).
      set (b := Z.lor 128 (Z.land v 127)) in *. set (v1 := Z.shiftr v 7).
      assert (0 <= v1 < 2 ^ (8 + 7 * Z.of_nat left)) as Hv1.
      { unfold v1. rewrite Z.shiftr_div_pow2 by lia. split; [apply Z.div_pos; lia|].
        apply Z.div_lt_upper_bound; [lia|]. rewrite <- Z.pow_add_r by lia.
        replace (7 + (8 + 7 * Z.of_nat left)) with (8 + 7 * Z.of_nat (S left)) by lia. lia. }
      set (val1 := Z.lor val (wrapU 64 (Z.shiftl (Z.land v 127) shift))).
      destruct (IH (pre ++ [b]) v1 val1 Hv1 ltac:(lia)) as (p' & val' & sh' & b' & E1 & E2 & E3 & E4).
      rewrite <- !app_assoc in E1, E3. simpl app in E1, E3.
      exists p', val', sh', b'. repeat split.
      * cbn [decodeVarU64_loop]. rewrite Nat2Z.id.
        simpl app. rewrite list_lookup_middle by done. rewrite Hc, H7. simpl negb. cbv iota.
        pose proof (length_varbytes left v1).
        match goal with |- context [?a <=? ?c] => replace (a <=? c) with false by (symmetry; bool_to_prop; zlen) end.
        fold val1. replace (shift + 7) with (7 * (8 - Z.of_nat left)) by lia.
        replace (Zlen pre + 1) with (Zlen (pre ++ [b])) by zlen. done.
      * rewrite E2. zlen.
      * simpl app. done.
      * rewrite E4. unfold val1. rewrite wrapU_small.
        2:{ apply shiftl_inU; [lia|]. pose proof (land_7f_range v). split; [lia|].
            apply Z.lt_le_trans with (2 ^ 7); [lia|]. apply Z.pow_le_mono_r; lia. }
        rewrite <- Z.lor_assoc. f_equal.
        replace (7 * (8 - Z.of_nat left)) with (shift + 7) by lia.
        apply lor_land_shiftr_7; lia.
    + destruct (schar_last_byte v ltac:(lia)) as (H1 & H2 & H3).
      exists (Zlen pre), val, shift, (wrapU 8 v).
      assert ((pre ++ [wrapU 8 v] ++ rest) !! Z.to_nat (Zlen pre) = Some (wrapU 8 v)) as Hl.
      { rewrite Nat2Z.id. by apply list_lookup_middle. }
      cbn [decodeVarU64_loop]. rewrite Hl, H1. repeat split; try done; [zlen|].
      rewrite H2, H3, (wrapU_small 64 v) by (unfold inU; lia).
      f_equal. apply wrapU_small, shiftl_inU; [lia|].
      split; [lia|]. apply Z.lt_le_trans with (2 ^ 7); [lia|]. apply Z.pow_le_mono_r; lia.
Qed.

Lemma decodeVarU64_varU64 v rest : inU 64 v ->
  decodeVarU64 (varU64 v ++ rest) (Zlen (varU64 v ++ rest)) 0 =
  Some (true, Some v, Zlen (varU64 v)).
Proof.
  intros Hv. unfold decodeVarU64. pose proof (Zlen_varU64 v).
  replace (Zlen (varU64 v ++ rest) <=? 0) with false by (symmetry; bool_to_prop; zlen).
  destruct (decodeVarU64_loop_varbytes 8 [] v rest 0) as (p' & val' & sh' & b & E1 & E2 & E3 & E4);
    [done|lia|].
  change (7 * (8 - Z.of_nat 8)) with 0 in *. change (Zlen (@nil Z)) with 0 in *.
  change ([] ++ varbytes 8 v ++ rest) with (varU64 v ++ rest) in *. fold (varU64 v) in *.
  change (0 <? 0) with false. cbv iota. rewrite E1. simpl negb. cbv iota. rewrite E3, E4.
  rewrite Z.lor_0_l, Z.shiftl_0_r. do 3 f_equal. rewrite E2. zlen.
Qed.

Lemma decodeUInt64_decodes v : inU 64 v -> Decodes decodeUInt64 (varU64 v) v.
Proof.
  intros Hv rest. unfold decodeUInt64. rewrite decodeVarU64_varU64 by done. simpl negb.
  pose proof (Zlen_varU64 v).
  replace (1 <=? _) with true by (symmetry; bool_to_prop; lia).
  rewrite Nat2Z.id, drop_app_length. done.
Qed.

Lemma decodeInt64C_decodes v : 0 <= v <= INT64_MAX -> Decodes decodeInt64C (varU64 v) v.
Proof.
  intros Hv rest. unfold decodeInt64C, INT64_MAX in *.
  rewrite decodeUInt64_decodes by (unfold inU; lia). simpl negb.
  replace (_ <? v) with false by (symmetry; bool_to_prop; lia).
  by rewrite wrapS_small by (unfold inS; lia).
Qed.

Lemma decodeInt32C_decodes v : 0 <= v <= INT32_MAX -> Decodes decodeInt32C (varU64 v) v.
Proof.
  intros Hv rest. unfold decodeInt32C, INT32_MAX in *.
  rewrite decodeInt64C_decodes by (unfold INT64_MAX; lia). simpl negb.
  replace (_ || _) with false by (symmetry; bool_to_prop; lia).
  by rewrite wrapS_small by (unfold inS; lia).
Qed.

(** ** Zig-zag *)

Lemma lxor_ones n x : 0 <= n -> 0 <= x < 2 ^ n -> Z.lxor x (Z.ones n) = Z.ones n - x.
Proof.
  intros Hn Hx.
  assert (forall i, n <= i -> Z.testbit x i = false) as Hhi.
  { intros i Hi. destruct (Z.eq_dec x 0) as [->|]; [apply Z.bits_0|].
    apply Z.bits_above_log2; [lia|]. apply Z.lt_le_trans with n; [|done].
    apply Z.log2_lt_pow2; lia. }
  rewrite Z.sub_nocarry_ldiff.
  - apply Z.bits_inj'. intros i Hi. rewrite Z.lxor_spec, Z.ldiff_spec.
    destruct (Z.lt_ge_cases i n).
    + rewrite Z.ones_spec_low by lia. by destruct (Z.testbit x i).
    + rewrite Z.ones_spec_high, Hhi by lia. done.
  - apply Z.bits_inj'. intros i Hi. rewrite Z.ldiff_spec, Z.bits_0.
    destruct (Z.lt_ge_cases i n).
    + rewrite Z.ones_spec_low by lia. apply andb_false_r.
    + by rewrite Hhi by lia.
Qed.

Lemma encodeZigZag_eq v : inS 64 v ->
  encodeZigZag v = if 0 <=? v then 2 * v else - 2 * v - 1.
Proof.
  intros [Hl Hu]. change (2 ^ (64 - 1)) with (2 ^ 63) in *. unfold encodeZigZag, wrapU.
  rewrite !Z.shiftl_mul_pow2, !Z.shiftr_div_pow2 by lia.
  destruct (0 <=? v) eqn:E; bool_to_prop.
  - rewrite (Z.div_small v), (Z.mod_small v), Z.lxor_0_r by lia. rewrite Z.mod_small; lia.
  - replace (v / 2 ^ 63) with (-1) by (apply Z.div_unique with (v + 2 ^ 63); lia).
    replace (v mod 2 ^ 64) with (v + 2 ^ 64) by (apply Z.mod_unique with (-1); lia).
    replace ((v + 2 ^ 64) * 2 ^ 1 mod 2 ^ 64) with (2 * v + 2 ^ 64)
      by (apply Z.mod_unique with 1; lia).
    change (-1 mod 2 ^ 64) with (Z.ones 64). rewrite lxor_ones by lia.
    change (Z.ones 64) with (2 ^ 64 - 1). lia.
Qed.

Lemma decodeZigZag_encodeZigZag v : inS 64 v -> decodeZigZag (encodeZigZag v) = v.
Proof.
  intros Hv. rewrite encodeZigZag_eq by done. destruct Hv as [Hl Hu].
  change (2 ^ (64 - 1)) with (2 ^ 63) in *. unfold decodeZigZag.
  assert (forall x, Z.land x 1 = x mod 2) as Hland by (intros x; exact (Z.land_ones x 1 ltac:(lia))).
  rewrite Z.shiftr_div_pow2, Hland by lia. change (2 ^ 1) with 2. destruct (0 <=? v) eqn:E; bool_to_prop.
  - replace (2 * v / 2) with v by (apply Z.div_unique with 0; lia).
    replace (2 * v mod 2) with 0 by (apply Z.mod_unique with v; lia).
    change (wrapU 64 (- 0)) with 0. rewrite Z.lxor_0_r. apply wrapS_small; unfold inS; lia.
  - replace ((- 2 * v - 1) / 2) with (- v - 1) by (apply Z.div_unique with 1; lia).
    replace ((- 2 * v - 1) mod 2) with 1 by (apply Z.mod_unique with (- v - 1); lia).
    change (wrapU 64 (- (1))) with (Z.ones 64). rewrite lxor_ones by lia.
    change (Z.ones 64) with (2 ^ 64 - 1).
    replace (2 ^ 64 - 1 - (- v - 1)) with (wrapU 64 v).
    + apply wrapS_wrapU; unfold inS; lia.
    + unfold wrapU. symmetry. apply Z.mod_unique with (-1); lia.
Qed.

Lemma encodeZigZag_range v : inS 64 v -> inU 64 (encodeZigZag v).
Proof.
  intros Hv. rewrite encodeZigZag_eq by done. unfold inS, inU in *. destruct (0 <=? v) eqn:E;
  bool_to_prop; lia.
Qed.

Lemma decodeInt64_decodes v : inS 64 v -> Decodes decodeInt64 (varU64 (encodeZigZag v)) v.
Proof.
  intros Hv rest. unfold decodeInt64, decodeVarI64.
  rewrite decodeVarU64_varU64 by (by apply encodeZigZag_range). simpl negb.
  pose proof (Zlen_varU64 (encodeZigZag v)).
  replace (1 <=? _) with true by (symmetry; bool_to_prop; lia).
  rewrite Nat2Z.id, drop_app_length. cbn [fmap option_fmap option_map].
  by rewrite decodeZigZag_encodeZigZag.
Qed.

Lemma decodeInt32_decodes v : inS 32 v -> Decodes decodeInt32 (varU64 (encodeZigZag v)) v.
Proof.
  intros Hv rest. unfold decodeInt32, INT32_MAX, INT32_MIN, inS in *.
  rewrite decodeInt64_decodes by (unfold inS; lia). simpl negb.
  replace (_ || _) with false by (symmetry; bool_to_prop; lia).
  by rewrite wrapS_small by (unfold inS; lia).
Qed.

(** ** Strings and fixed-length integers *)

Lemma encodeString_encodes sz s :
  Encodes sz (fun dest off => Some (encodeString dest sz off s)) (stringBytes s).
Proof.
  intros dest off Hoff Hsz. unfold encodeString, stringBytes.
  destruct (encodeVarU64_encodes sz (Zlen s) dest off Hoff Hsz) as (ok & d & o & E & R).
  injection E as E. rewrite E. pose proof (Zlen_varU64 (Zlen s)).
  destruct R as [Hfit | d o Hfull Ho Hd Hi]; simpl negb; cbv iota.
  - destruct (sz <? _) eqn:Es; bool_to_prop.
    + do 3 eexists. split; [done|]. constructor; zlen; [by rewrite length_inserts|].
      intros i Hi. destruct Hi; [rewrite list_lookup_inserts_lt | rewrite list_lookup_inserts_ge]; auto; zlen.
    + do 3 eexists. split; [done|].
      replace (off + _ + Zlen s) with (off + Zlen (varU64 (Zlen s) ++ s)) by zlen.
      replace (list_inserts _ s _) with (list_inserts (Z.to_nat off) (varU64 (Zlen s) ++ s) dest).
      { constructor. zlen. }
      rewrite list_inserts_app_l. f_equal. lia.
  - do 3 eexists. split; [done|]. constructor; auto. zlen.
Qed.

Lemma decodeString_decodes s : Zlen s < 2 ^ 64 -> Decodes decodeString (stringBytes s) s.
Proof.
  intros Hs rest. unfold decodeString, stringBytes. rewrite <- app_assoc.
  rewrite decodeUInt64_decodes by (unfold inU; lia). simpl negb.
  replace (_ <? _) with false by (symmetry; bool_to_prop; zlen).
  by rewrite Nat2Z.id, take_app_length, drop_app_length.
Qed.

Section fixed_length_facts.
Context `{Host}.

Lemma Zlen_fixedBytes n v : 0 <= n -> Zlen (fixedBytes n v) = n.
Proof. intros. by apply length_Z_to_little_endian. Qed.

Lemma encodeIntFixedLength_encodes sz n v : 0 < n -> inS (8 * n) v ->
  Encodes sz (fun dest off => Some (encodeIntFixedLength n dest sz off v)) (fixedBytes n v).
Proof.
  intros Hn Hv dest off Hoff Hsz. unfold encodeIntFixedLength.
  pose proof (Zlen_fixedBytes n v ltac:(lia)).
  rewrite storeUnaligned_little by done.
  destruct (sz <? off + n) eqn:E; bool_to_prop; do 3 eexists; (split; [done|]).
  - constructor; auto; lia.
  - fold (fixedBytes n v). replace (off + n) with (off + Zlen (fixedBytes n v)) by lia.
    constructor. lia.
Qed.

Lemma decodeIntFixedLength_decodes n v : 0 < n -> 0 <= v -> inS (8 * n) v ->
  Decodes (decodeIntFixedLength n) (fixedBytes n v) v.
Proof.
  intros Hn Hv Hr rest. unfold decodeIntFixedLength.
  pose proof (Zlen_fixedBytes n v ltac:(lia)) as Hl.
  replace (_ <? n) with false by (symmetry; bool_to_prop; zlen).
  assert (Z.to_nat n = length (fixedBytes n v)) as En by lia.
  rewrite loadUnaligned_little; [| done | zlen |].
  2:{ rewrite En, take_app_length.
      apply (Forall_impl _ _ _ (Z_to_little_endian_bound n 8 v ltac:(lia) ltac:(lia))). done. }
  rewrite En, take_app_length, drop_app_length. unfold fixedBytes.
  rewrite little_endian_to_Z_to_little_endian, (Z.mul_comm n 8) by lia.
  fold (wrapU (8 * n) v). rewrite wrapS_wrapU by (auto; lia).
  by replace (v <? 0) with false by (symmetry; bool_to_prop; lia).
Qed.
End fixed_length_facts.

(** ** Safety on arbitrary bytes *)

Lemma decodeVarU64_loop_safe left data p val shift :
  0 <= p < Zlen data ->
  exists ok p' val' shift',
    decodeVarU64_loop left data (Zlen data) p val shift = Some (ok, p', val', shift') /\
    p <= p' /\ (ok = true -> p' < Zlen data).
Proof.
  revert p val shift. induction left as [|left IH]; intros p val shift Hp; cbn [decodeVarU64_loop];
    (destruct (lookup_lt_is_Some_2 data (Z.to_nat p)) as [b ->]; [lia|]).
  - do 4 eexists. split; [done|]. lia.
  - case_goal; [|do 4 eexists; split; [done|]; lia].
    destruct (Zlen data <=? p + 1) eqn:E; bool_to_prop.
    + do 4 eexists. split; [done|]. split; [lia|done].
    + edestruct (IH (p + 1)) as (ok & p' & v' & s' & -> & ? & ?); [lia|].
      do 4 eexists. split; [done|]. split; [lia|done].
Qed.

Lemma decodeVarU64_safe data :
  exists ok v pos, decodeVarU64 data (Zlen data) 0 = Some (ok, v, pos) /\
    (ok = true -> is_Some v /\ 1 <= pos <= Zlen data).
Proof.
  unfold decodeVarU64. simpl Z.ltb. cbv iota. destruct (Zlen data <=? 0) eqn:E; bool_to_prop.
  { do 3 eexists. split; [done|]. done. }
  destruct (decodeVarU64_loop_safe 8 data 0 0 0) as (ok & p & v & s & -> & Hp & Hok); [lia|].
  destruct ok; simpl negb; cbv iota.
  - specialize (Hok eq_refl). destruct (lookup_lt_is_Some_2 data (Z.to_nat p)) as [b ->]; [lia|].
    do 3 eexists. split; [done|]. intros _. split; [eauto|lia].
  - do 3 eexists. split; [done|]. done.
Qed.

Lemma suffix_drop' {A} n (l : list A) : drop n l `suffix_of` l.
Proof. apply suffix_drop. Qed.

#[export] Hint Resolve suffix_drop' suffix_nil : wdt.
#[export] Hint Extern 1 (suffix _ _) => reflexivity : wdt.

(** Unfolds a decoder built on one known to be safe. *)
Ltac safe_step H :=
  let ok := fresh "ok" in let v := fresh "v" in let br' := fresh "br'" in
  let Hs := fresh "Hsuf" in let Hv := fresh "Hval" in
  destruct H as (ok & v & br' & -> & Hs & Hv);
  destruct ok; simpl negb; cbv iota;
  [ destruct (Hv eq_refl) as [? ->]; clear Hv
  | try (do 3 eexists; split; [reflexivity|]; split; [assumption|done]) ].
Ltac safe_done := do 3 eexists; (split; [reflexivity|]); split; [eauto with wdt | try done; by eauto].

Lemma decodeUInt64_Safe : Safe decodeUInt64.
Proof.
  intros br. unfold decodeUInt64.
  destruct (decodeVarU64_safe br) as (ok & v & pos & -> & Hok).
  destruct ok; simpl negb; cbv iota; [|safe_done].
  destruct (Hok eq_refl) as [[x ->] Hpos].
  replace (1 <=? pos) with true by (symmetry; bool_to_prop; lia). safe_done.
Qed.

Lemma decodeInt64_Safe : Safe decodeInt64.
Proof.
  intros br. unfold decodeInt64, decodeVarI64.
  destruct (decodeVarU64_safe br) as (ok & v & pos & -> & Hok).
  destruct ok; simpl negb; cbv iota; [|safe_done].
  destruct (Hok eq_refl) as [[x ->] Hpos].
  replace (1 <=? pos) with true by (symmetry; bool_to_prop; lia). safe_done.
Qed.

Lemma decodeInt64C_Safe : Safe decodeInt64C.
Proof.
  intros br. unfold decodeInt64C. safe_step (decodeUInt64_Safe br). case_goal; safe_done.
Qed.

Lemma decodeInt32_Safe : Safe decodeInt32.
Proof.
  intros br. unfold decodeInt32. safe_step (decodeInt64_Safe br). case_goal; safe_done.
Qed.

Lemma decodeInt32C_Safe : Safe decodeInt32C.
Proof.
  intros br. unfold decodeInt32C. safe_step (decodeInt64C_Safe br). case_goal; safe_done.
Qed.

Lemma decodeIntFixedLength_Safe `{Host} n : Safe (decodeIntFixedLength n).
Proof. intros br. unfold decodeIntFixedLength. repeat case_goal; safe_done. Qed.

Lemma decodeString_Safe : Safe decodeString.
Proof.
  intros br. unfold decodeString. safe_step (decodeUInt64_Safe br).
  case_goal; do 3 eexists; (split; [reflexivity|]); split; eauto.
  - done.
  - etrans; [apply suffix_drop'|done].
Qed.

#[export] Hint Resolve decodeUInt64_Safe decodeInt64_Safe decodeInt64C_Safe decodeInt32_Safe
  decodeInt32C_Safe decodeIntFixedLength_Safe decodeString_Safe : wdt.

(** ** Progress *)

Lemma decodeUInt64_Strict : Strict decodeUInt64.
Proof.
  intros br v br'. unfold decodeUInt64.
  destruct (decodeVarU64_safe br) as (ok & w & pos & -> & Hok).
  destruct ok; simpl negb; cbv iota; [|done].
  destruct (Hok eq_refl) as [_ Hpos].
  replace (1 <=? pos) with true by (symmetry; bool_to_prop; lia).
  intros [= _ <-]. rewrite length_drop. lia.
Qed.

(** A decoder that succeeds only after [decodeUInt64] did, on what it left. *)
Ltac strict_step :=
  match goal with
  | |- context [decodeUInt64 ?br] =>
      let E := fresh "E" in destruct (decodeUInt64 br) as [[[[] ?] ?]|] eqn:E; try done;
      apply decodeUInt64_Strict in E; simpl negb; cbv iota
  end.

Lemma decodeInt64C_Strict : Strict decodeInt64C.
Proof.
  intros br v br'. unfold decodeInt64C. strict_step.
  repeat case_goal; try done. by intros [= _ <-].
Qed.

Lemma decodeInt32C_Strict : Strict decodeInt32C.
Proof.
  intros br v br'. unfold decodeInt32C.
  destruct (decodeInt64C br) as [[[[] ?] ?]|] eqn:E; try done. apply decodeInt64C_Strict in E.
  simpl negb; cbv iota. repeat case_goal; try done. by intros [= _ <-].
Qed.

Lemma decodeString_Strict : Strict decodeString.
Proof.
  intros br v br'. unfold decodeString. strict_step.
  repeat case_goal; try done. intros [= _ <-]. rewrite length_drop. lia.
Qed.

#[export] Hint Resolve decodeUInt64_Strict decodeInt64C_Strict decodeInt32C_Strict
  decodeString_Strict : wdt.

(** ** Hosts *)

Lemma Z_to_little_endian_mod n v : 0 <= n ->
  Z_to_little_endian n 8 (v mod 2 ^ (n * 8)) = Z_to_little_endian n 8 v.
Proof.
  intros Hn. rewrite <- little_endian_to_Z_to_little_endian by lia.
  apply Z_to_little_endian_to_Z; [|lia|].
  - pose proof (length_Z_to_little_endian n 8 v ltac:(lia)). lia.
  - apply Z_to_little_endian_bound; lia.
Qed.

Lemma Z_to_little_endian_wrapS n v : 0 < n ->
  Z_to_little_endian n 8 (wrapS (8 * n) v) = Z_to_little_endian n 8 v.
Proof.
  intros Hn. rewrite <- (Z_to_little_endian_mod n (wrapS _ _)), <- (Z_to_little_endian_mod n v) by lia.
  f_equal. unfold wrapS. rewrite (Z.mul_comm 8 n), Zminus_mod_idemp_l. f_equal. lia.
Qed.

Lemma little_endian_bytes n bs : 0 <= n -> Zlen bs = n -> Forall is_byte bs ->
  Z_to_little_endian n 8 (little_endian_to_Z 8 bs) = bs.
Proof. intros Hn Hl Hb. apply Z_to_little_endian_to_Z; [lia|lia|done]. Qed.

Lemma wrapS_little_endian n v : 0 < n -> inS (8 * n) v ->
  wrapS (8 * n) (little_endian_to_Z 8 (Z_to_little_endian n 8 v)) = v.
Proof.
  intros Hn Hv. rewrite little_endian_to_Z_to_little_endian by lia. rewrite (Z.mul_comm n 8).
  apply wrapS_wrapU; [lia|done].
Qed.

Lemma take_Z_to_little_endian n v rest : 0 < n ->
  take (Z.to_nat n) (Z_to_little_endian n 8 v ++ rest) = Z_to_little_endian n 8 v.
Proof.
  intros Hn. pose proof (length_Z_to_little_endian n 8 v ltac:(lia)).
  replace (Z.to_nat n) with (length (Z_to_little_endian n 8 v)) by lia. apply take_app_length.
Qed.

#[local] Obligation Tactic := cbv beta.

(** A little-endian and a big-endian host. *)
#[program] Definition littleHost : Host := {|
  storeUnaligned n v := Z_to_little_endian n 8 v;
  loadUnaligned n bs := wrapS (8 * n) (little_endian_to_Z 8 (take (Z.to_nat n) bs));
  Endian_little n v := v
|}.
Next Obligation. intros n v Hn. apply length_Z_to_little_endian; lia. Qed.
Next Obligation.
  intros n v rest Hn Hv. rewrite take_Z_to_little_endian by done. by apply wrapS_little_endian.
Qed.
Next Obligation. done. Qed.
Next Obligation. done. Qed.

#[program] Definition bigHost : Host := {|
  storeUnaligned n v := reverse (Z_to_little_endian n 8 v);
  loadUnaligned n bs :=
    wrapS (8 * n) (little_endian_to_Z 8 (reverse (take (Z.to_nat n) bs)));
  Endian_little n v :=
    wrapS (8 * n) (little_endian_to_Z 8 (reverse (Z_to_little_endian n 8 v)))
|}.
Next Obligation.
  intros n v Hn. rewrite length_reverse. apply length_Z_to_little_endian; lia.
Qed.
Next Obligation.
  intros n v rest Hn Hv. pose proof (length_Z_to_little_endian n 8 v ltac:(lia)).
  replace (Z.to_nat n) with (length (reverse (Z_to_little_endian n 8 v)))
    by (rewrite length_reverse; lia).
  rewrite take_app_length, reverse_involutive. by apply wrapS_little_endian.
Qed.
Next Obligation.
  intros n v Hn Hv. rewrite Z_to_little_endian_wrapS by done.
  rewrite little_endian_bytes, reverse_involutive; [done|lia|..].
  - rewrite length_reverse. apply length_Z_to_little_endian; lia.
  - rewrite Forall_reverse. apply (Z_to_little_endian_bound n 8 v); lia.
Qed.
Next Obligation.
  intros n bs Hn Hl Hb. rewrite Z_to_little_endian_wrapS by done.
  rewrite little_endian_bytes, reverse_involutive; [done|lia|..].
  - rewrite length_reverse, length_take. lia.
  - by rewrite Forall_reverse.
Qed.

(** ** Properties *)

(** A variable-length integer is 1 to 9 bytes, at most [k] of them
    below [2 ^ (7 * k)].  The two encoders, into a string and into a buffer
    with room, produce the same bytes, and the decoder returns the value and
    leaves what follows them. *)
Theorem varint_roundtrip v dest sz pos buffer rest :
  inU 64 v -> 0 <= pos -> pos + Zlen (varU64 v) <= sz -> sz <= Zlen dest ->
  encodeVarU64_string buffer v = (buffer ++ varU64 v, Zlen (varU64 v)) /\
  encodeVarU64 dest sz pos v =
    (true, list_inserts (Z.to_nat pos) (varU64 v) dest, pos + Zlen (varU64 v)) /\
  decodeUInt64 (varU64 v ++ rest) = Some (true, Some v, rest) /\
  1 <= Zlen (varU64 v) <= 9 /\
  (forall k, 1 <= k -> v < 2 ^ (7 * k) -> Zlen (varU64 v) <= k).
Proof.
  intros Hv Hp Hs Hd. split_and!.
  - unfold encodeVarU64_string. by rewrite encodeVarU64_string_loop_eq.
  - destruct (encodeVarU64_encodes sz v dest pos ltac:(lia) Hd) as (ok & d & o & E & R).
    injection E as E. rewrite E. by destruct R as [|? ? Hfull]; [|lia].
  - by apply decodeUInt64_decodes.
  - apply Zlen_varU64.
  - apply Zlen_varU64.
  - intros k Hk Hlt. apply Zlen_varU64_le; [|done]. unfold inU in Hv. lia.
Qed.

Lemma varint_roundtrip_witness :
  decodeUInt64 (varU64 300 ++ [5]) = Some (true, Some 300, [5]).
Proof. apply (varint_roundtrip 300 (replicate 4 0) 4 0 []); eval_side. Defined.

(** Zig-zag is a bijection between the signed and the unsigned
    64-bit integers that sends small magnitudes to small values, so any
    64-bit [v] is read back from [encodeVarI64], in one byte when [v] is
    between -64 and 63. *)
Theorem zigzag_roundtrip v rest :
  inS 64 v ->
  encodeZigZag v = (if 0 <=? v then 2 * v else - 2 * v - 1) /\
  inU 64 (encodeZigZag v) /\ decodeZigZag (encodeZigZag v) = v /\
  encodeVarI64_string [] v = (varU64 (encodeZigZag v), Zlen (varU64 (encodeZigZag v))) /\
  decodeInt64 (varU64 (encodeZigZag v) ++ rest) = Some (true, Some v, rest) /\
  (-64 <= v < 64 -> Zlen (varU64 (encodeZigZag v)) = 1).
Proof.
  intros Hv. split_and!.
  - by apply encodeZigZag_eq.
  - by apply encodeZigZag_range.
  - by apply decodeZigZag_encodeZigZag.
  - unfold encodeVarI64_string, encodeVarU64_string. by rewrite encodeVarU64_string_loop_eq.
  - by apply decodeInt64_decodes.
  - intros Hs. pose proof (Zlen_varU64 (encodeZigZag v)).
    enough (Zlen (varU64 (encodeZigZag v)) <= 1) by lia. apply Zlen_varU64_le; [|lia].
    rewrite encodeZigZag_eq by done. zbool.
Qed.

Lemma zigzag_roundtrip_witness :
  decodeInt64 (varU64 (encodeZigZag (-3)) ++ [5]) = Some (true, Some (-3), [5]).
Proof. apply (zigzag_roundtrip (-3)). eval_side. Defined.

(** Sequencing of encoders and decoders.

    [Protocol.cpp] and [TransferLogManager.cpp] build every message from the
    functions of [Serialization] with [&&]: an encoder stops at the first one
    that does not fit, a decoder at the first one that fails, keeping the
    fields stored so far.  This file has those combinators and the lemmas that
    compose the specifications of the parts. *)
(** ** Encoders *)

(** [e1 && e2] *)
Definition enc_and (e1 e2 : encoder) : encoder := fun dest off =>
  let* (ok, dest, off) := e1 dest off in
  if ok then e2 dest off else Some (false, dest, off).
Infix "&&@" := enc_and (at level 41, right associativity) : wdt_scope.

Definition enc_true : encoder := fun dest off => Some (true, dest, off).

(** [if (off >= max) return false; dest[off++] = c;] *)
Definition enc_byte (max c : Z) : encoder := fun dest off =>
  if max <=? off then Some (false, dest, off)
  else Some (true, <[Z.to_nat off := c]> dest, off + 1).

(** A range-based [for] that stops at the first failure. *)
Fixpoint enc_list {A} (e : A -> encoder) (l : list A) : encoder :=
  match l with
  | [] => enc_true
  | x :: l => e x &&@ enc_list e l
  end.

Lemma enc_and_encodes sz e1 e2 bs1 bs2 :
  Encodes sz e1 bs1 -> Encodes sz e2 bs2 -> Encodes sz (e1 &&@ e2) (bs1 ++ bs2).
Proof.
  intros H1 H2 dest off Hoff Hsz. unfold enc_and.
  destruct (H1 dest off Hoff Hsz) as (ok & d & o & -> & R).
  destruct R as [Hfit | d o Hfull Ho Hd Hi].
  2:{ do 3 eexists. split; [done|]. constructor; auto. zlen. }
  destruct (H2 (list_inserts (Z.to_nat off) bs1 dest) (off + Zlen bs1))
    as (ok2 & d2 & o2 & -> & R2); [lia|by rewrite length_inserts|].
  do 3 eexists. split; [done|]. destruct R2 as [Hfit2 | d2 o2 Hfull2 Ho2 Hd2 Hi2].
  - rewrite <- Z.add_assoc, <- Zlen_app.
    replace (list_inserts _ bs2 _) with (list_inserts (Z.to_nat off) (bs1 ++ bs2) dest).
    { constructor. zlen. }
    rewrite list_inserts_app_l. f_equal. lia.
  - constructor; zlen; [by rewrite Hd2, length_inserts|].
    intros i Hi. rewrite Hi2 by zlen.
    destruct Hi; [apply list_lookup_inserts_lt | apply list_lookup_inserts_ge]; zlen.
Qed.

Lemma enc_true_encodes sz : Encodes sz enc_true [].
Proof.
  intros dest off Hoff Hsz. do 3 eexists. split; [done|].
  pose proof (enc_fits sz [] dest off ltac:(zlen)) as HF.
  rewrite Zlen_nil, Z.add_0_r in HF. exact HF.
Qed.

Lemma enc_byte_encodes sz c : Encodes sz (enc_byte sz c) [c].
Proof.
  intros dest off Hoff Hsz. unfold enc_byte.
  destruct (sz <=? off) eqn:E; bool_to_prop; do 3 eexists; (split; [done|]).
  - constructor; auto; zlen.
  - apply (enc_fits sz [c] dest off). zlen.
Qed.

Lemma enc_list_encodes {A} sz (e : A -> encoder) (f : A -> list Z) l :
  Forall (fun x => Encodes sz (e x) (f x)) l -> Encodes sz (enc_list e l) (concat (f <$> l)).
Proof.
  induction 1; simpl; [apply enc_true_encodes|]. by apply enc_and_encodes.
Qed.

Lemma enc_ite_encodes sz (b : bool) e1 e2 bs1 bs2 :
  (b = true -> Encodes sz e1 bs1) -> (b = false -> Encodes sz e2 bs2) ->
  Encodes sz (if b then e1 else e2) (if b then bs1 else bs2).
Proof. destruct b; auto. Qed.

(** ** Decoders of records *)

Definition record_decoder (S : Type) : Type :=
  S -> ByteRange -> option (bool * S * ByteRange).

(** Decode into a field: [set] stores the value when the decoder wrote it. *)
Definition dec_field {S A} (d : decoder A) (set : A -> S -> S) : record_decoder S :=
  fun s br =>
    let* (ok, v, br) := d br in
    Some (ok, match v with Some v => set v s | None => s end, br).

Definition dec_and {S} (d1 d2 : record_decoder S) : record_decoder S := fun s br =>
  let* (ok, s, br) := d1 s br in
  if ok then d2 s br else Some (false, s, br).
Infix "&&:" := dec_and (at level 41, right associativity) : wdt_scope.

Definition dec_true {S} : record_decoder S := fun s br => Some (true, s, br).

(** [if (br.empty()) return false; flags = br.front(); ...; br.pop_front();] *)
Definition dec_byte : decoder Z := fun br =>
  match br with
  | [] => Some (false, None, br)
  | b :: br => Some (true, Some b, br)
  end.

(** The frame of the message decoders: a range over [[off, max)], the decoding,
    and [off += offset(br, obr)]. *)
Definition run_decoder {S} (d : record_decoder S) (src : list Z) (off max : Z) (s : S)
    : option (bool * S * Z) :=
  let* br := makeByteRange src max off in
  let obr := br in
  let* (ok, s, br) := d s br in
  Some (ok, s, off + offset br obr).

(** [d] reads [bs] and changes the record by [f]. *)
Definition Reads {S} (d : record_decoder S) (bs : list Z) (f : S -> S) : Prop :=
  forall s rest, d s (bs ++ rest) = Some (true, f s, rest).

Definition SafeR {S} (d : record_decoder S) : Prop :=
  forall s br, exists ok s' br', d s br = Some (ok, s', br') /\ br' `suffix_of` br.

Lemma dec_field_reads {S A} (d : decoder A) (set : A -> S -> S) bs v :
  Decodes d bs v -> Reads (dec_field d set) bs (set v).
Proof. intros H s rest. unfold dec_field. by rewrite H. Qed.

Lemma dec_and_reads {S} (d1 d2 : record_decoder S) bs1 bs2 f1 f2 :
  Reads d1 bs1 f1 -> Reads d2 bs2 f2 -> Reads (d1 &&: d2) (bs1 ++ bs2) (f2 ∘ f1).
Proof. intros H1 H2 s rest. unfold dec_and. by rewrite <- app_assoc, H1, H2. Qed.

Lemma dec_true_reads {S} : Reads (@dec_true S) [] id.
Proof. done. Qed.

Lemma dec_byte_decodes c : Decodes dec_byte [c] c.
Proof. done. Qed.

Lemma dec_byte_Safe : Safe dec_byte.
Proof.
  intros [|b br]; do 3 eexists; (split; [done|]); (split; [|done || eauto]).
  - done.
  - by exists [b].
Qed.

Lemma dec_field_SafeR {S A} (d : decoder A) (set : A -> S -> S) : Safe d -> SafeR (dec_field d set).
Proof.
  intros H s br. unfold dec_field. destruct (H br) as (ok & v & br' & -> & Hs & _). eauto.
Qed.

Lemma dec_and_SafeR {S} (d1 d2 : record_decoder S) : SafeR d1 -> SafeR d2 -> SafeR (d1 &&: d2).
Proof.
  intros H1 H2 s br. unfold dec_and. destruct (H1 s br) as (ok & s' & br' & -> & Hs).
  destruct ok; [|eauto]. destruct (H2 s' br') as (ok2 & s2 & br2 & -> & Hs2).
  do 3 eexists. split; [done|]. by etrans.
Qed.

Lemma dec_true_SafeR {S} : SafeR (@dec_true S).
Proof. intros s br. do 3 eexists. by split. Qed.

Lemma dec_ite_SafeR {S} (b : bool) (d1 d2 : record_decoder S) :
  SafeR d1 -> SafeR d2 -> SafeR (if b then d1 else d2).
Proof. by destruct b. Qed.

(** Progress of a sequence whose first part makes progress. *)
Definition StrictR {S} (d : record_decoder S) : Prop :=
  forall s br s' br', d s br = Some (true, s', br') -> (length br' < length br)%nat.

Lemma dec_field_StrictR {S A} (d : decoder A) (set : A -> S -> S) :
  Strict d -> StrictR (dec_field d set).
Proof.
  intros H s br s' br'. unfold dec_field. destruct (d br) as [[[ok v] b]|] eqn:E; [|done].
  intros [= -> _ ->]. eauto.
Qed.

Lemma dec_and_StrictR {S} (d1 d2 : record_decoder S) :
  StrictR d1 -> SafeR d2 -> StrictR (d1 &&: d2).
Proof.
  intros H1 H2 s br s' br'. unfold dec_and.
  destruct (d1 s br) as [[[[] s1] b1]|] eqn:E; try done. apply H1 in E.
  destruct (H2 s1 b1) as (ok & s2 & b2 & -> & Hs%suffix_length). intros [= _ _ <-]. lia.
Qed.

#[export] Hint Resolve dec_field_StrictR dec_and_StrictR : wdt.
#[export] Hint Resolve enc_and_encodes enc_true_encodes enc_byte_encodes enc_list_encodes
  encodeVarU64_encodes encodeVarI64_encodes encodeString_encodes : wdt.
#[export] Hint Resolve dec_byte_Safe dec_field_SafeR dec_and_SafeR dec_true_SafeR dec_ite_SafeR : wdt.

(** ** Messages in buffers *)

Lemma slice_list_inserts (off max : Z) (bs dest : list Z) :
  0 <= off -> off + Zlen bs <= max -> max <= Zlen dest ->
  exists rest, slice off max (list_inserts (Z.to_nat off) bs dest) = bs ++ rest /\
    Zlen rest = max - off - Zlen bs.
Proof.
  intros Ho Hb Hm. unfold slice. rewrite drop_list_inserts by lia.
  rewrite take_app_ge by lia. eexists. split; [done|]. rewrite length_take, length_drop. lia.
Qed.

(** What was written in a buffer is read back from it, also when more was
    written after it. *)
Lemma run_decoder_written_more {S} (d : record_decoder S) bs more f dest off max (s : S) :
  Reads d bs f -> 0 <= off -> off + Zlen (bs ++ more) <= max <= Zlen dest ->
  run_decoder d (list_inserts (Z.to_nat off) (bs ++ more) dest) off max s =
    Some (true, f s, off + Zlen bs).
Proof.
  intros Hd Ho Hmax. unfold run_decoder, makeByteRange. rewrite length_inserts.
  replace (_ && _ && _ && _) with true by (symmetry; bool_to_prop; lia).
  destruct (slice_list_inserts off max (bs ++ more) dest) as (rest & -> & Hrest); [lia..|].
  rewrite <- app_assoc, Hd. do 2 f_equal. unfold offset. zlen.
Qed.

Lemma run_decoder_written {S} (d : record_decoder S) bs f dest off max (s : S) :
  Reads d bs f -> 0 <= off -> off + Zlen bs <= max <= Zlen dest ->
  run_decoder d (list_inserts (Z.to_nat off) bs dest) off max s = Some (true, f s, off + Zlen bs).
Proof.
  intros Hd Ho Hmax. pose proof (run_decoder_written_more d bs [] f dest off max s Hd Ho) as H.
  rewrite app_nil_r in H. auto.
Qed.

(** An encoder that has room writes its bytes. *)
Lemma Encodes_fits sz e bs dest off :
  Encodes sz e bs -> 0 <= off -> off + Zlen bs <= sz -> sz <= Zlen dest ->
  e dest off = Some (true, list_inserts (Z.to_nat off) bs dest, off + Zlen bs).
Proof.
  intros He Ho Hsz Hd. destruct (He dest off ltac:(lia) Hd) as (ok & dest' & off' & E & R).
  by destruct R as [Hfit | ? ? Hfull]; [|lia].
Qed.

(** What was encoded in a buffer is read back from it, and the offset ends
    where the encoder left it. *)
Lemma run_decoder_encoded {S} (d : record_decoder S) sz e bs f dest off max (s : S) :
  Encodes sz e bs -> Reads d bs f ->
  0 <= off -> off + Zlen bs <= sz -> sz <= Zlen dest -> off + Zlen bs <= max <= Zlen dest ->
  exists dest', e dest off = Some (true, dest', off + Zlen bs) /\
    length dest' = length dest /\
    run_decoder d dest' off max s = Some (true, f s, off + Zlen bs).
Proof.
  intros He Hd Ho Hsz Hd1 Hmax. eexists. split; [by eapply Encodes_fits|].
  rewrite length_inserts. split; [done|]. by apply run_decoder_written.
Qed.

(** An encoder never touches a byte outside its part of the buffer, room or
    not. *)
Definition within (sz : Z) (e : encoder) : Prop :=
  forall dest off, 0 <= off <= sz -> sz <= Zlen dest ->
  exists ok dest' off', e dest off = Some (ok, dest', off') /\ off <= off' <= sz /\
    length dest' = length dest /\
    (forall i, (i < Z.to_nat off)%nat \/ (Z.to_nat sz <= i)%nat -> dest' !! i = dest !! i).

Lemma Encodes_within sz e bs : Encodes sz e bs -> within sz e.
Proof.
  intros He dest off Ho Hs. destruct (He dest off Ho Hs) as (ok & dest' & off' & E & R).
  do 3 eexists. split; [exact E|]. destruct R as [Hfit|]; [|done].
  rewrite length_inserts. split_and!; [lia..|done|].
  intros i [?|?]; [apply list_lookup_inserts_lt | apply list_lookup_inserts_ge]; lia.
Qed.

(** On any buffer the decoder returns and leaves the offset within bounds. *)
Lemma run_decoder_SafeR {S} (d : record_decoder S) src off max s :
  SafeR d -> 0 <= off <= max -> max <= Zlen src ->
  exists ok s' off', run_decoder d src off max s = Some (ok, s', off') /\ off <= off' <= max.
Proof.
  intros Hd Ho Hm. unfold run_decoder, makeByteRange.
  replace (_ && _ && _ && _) with true by (symmetry; bool_to_prop; lia).
  destruct (Hd s (slice off max src)) as (ok & s' & br' & -> & Hs).
  do 3 eexists. split; [done|]. unfold offset, slice in *.
  apply suffix_length in Hs. rewrite length_take, length_drop in *. lia.
Qed.
