(* ===== verification/ErrorCodes.v ===== *)
(** The error codes of [ErrorCodes.h] and the functions of [ErrorCodes.cpp]. *)
From S2P Require Import Prelude.

(** In the order of the [ERRORS] macro: the value of a code is its position. *)
Inductive ErrorCode :=
  | OK | ERROR | ABORT | CONN_ERROR | CONN_ERROR_RETRYABLE | SOCKET_READ_ERROR
  | SOCKET_WRITE_ERROR | BYTE_SOURCE_READ_ERROR | FILE_WRITE_ERROR
  | MEMORY_ALLOCATION_ERROR | PROTOCOL_ERROR | VERSION_MISMATCH | ID_MISMATCH
  | CHECKSUM_MISMATCH | RESOURCE_NOT_FOUND | ABORTED_BY_APPLICATION
  | VERSION_INCOMPATIBLE | NOT_FOUND | QUOTA_EXCEEDED | FEWER_PORTS
  | URI_PARSE_ERROR | INCONSISTENT_DIRECTORY | INVALID_LOG | INVALID_CHECKPOINT
  | NO_PROGRESS | TRANSFER_LOG_ACQUIRE_ERROR | WDT_TIMEOUT | UNEXPECTED_CMD_ERROR
  | ENCRYPTION_ERROR | ALREADY_EXISTS | GLOBAL_CHECKPOINT_ABORT | INVALID_REQUEST
  | SENDER_START_TIMED_OUT | AUTH_ERROR.

#[global] Instance ErrorCode_eq_dec : EqDecision ErrorCode.
Proof. solve_decision. Defined.

Definition allErrors : list ErrorCode :=
  [OK; ERROR; ABORT; CONN_ERROR; CONN_ERROR_RETRYABLE; SOCKET_READ_ERROR;
   SOCKET_WRITE_ERROR; BYTE_SOURCE_READ_ERROR; FILE_WRITE_ERROR;
   MEMORY_ALLOCATION_ERROR; PROTOCOL_ERROR; VERSION_MISMATCH; ID_MISMATCH;
   CHECKSUM_MISMATCH; RESOURCE_NOT_FOUND; ABORTED_BY_APPLICATION;
   VERSION_INCOMPATIBLE; NOT_FOUND; QUOTA_EXCEEDED; FEWER_PORTS;
   URI_PARSE_ERROR; INCONSISTENT_DIRECTORY; INVALID_LOG; INVALID_CHECKPOINT;
   NO_PROGRESS; TRANSFER_LOG_ACQUIRE_ERROR; WDT_TIMEOUT; UNEXPECTED_CMD_ERROR;
   ENCRYPTION_ERROR; ALREADY_EXISTS; GLOBAL_CHECKPOINT_ABORT; INVALID_REQUEST;
   SENDER_START_TIMED_OUT; AUTH_ERROR].

(** The integer value of an enumerator. *)
Definition ErrorCode_value (code : ErrorCode) : Z :=
  match list_find (fun c => c = code) allErrors with
  | Some (i, _) => Z.of_nat i
  | None => 0
  end.

(** The cast of a byte to the enumeration; a value without an enumerator is
    not modelled. *)
Definition ErrorCode_of_byte (c : Z) : option ErrorCode :=
  if c <? 0 then None else allErrors !! Z.to_nat c.

Definition kErrorToStr : list string :=
  ["OK"; "ERROR"; "ABORT"; "CONN_ERROR"; "CONN_ERROR_RETRYABLE"; "SOCKET_READ_ERROR";
   "SOCKET_WRITE_ERROR"; "BYTE_SOURCE_READ_ERROR"; "FILE_WRITE_ERROR";
   "MEMORY_ALLOCATION_ERROR"; "PROTOCOL_ERROR"; "VERSION_MISMATCH"; "ID_MISMATCH";
   "CHECKSUM_MISMATCH"; "RESOURCE_NOT_FOUND"; "ABORTED_BY_APPLICATION";
   "VERSION_INCOMPATIBLE"; "NOT_FOUND"; "QUOTA_EXCEEDED"; "FEWER_PORTS";
   "URI_PARSE_ERROR"; "INCONSISTENT_DIRECTORY"; "INVALID_LOG"; "INVALID_CHECKPOINT";
   "NO_PROGRESS"; "TRANSFER_LOG_ACQUIRE_ERROR"; "WDT_TIMEOUT"; "UNEXPECTED_CMD_ERROR";
   "ENCRYPTION_ERROR"; "ALREADY_EXISTS"; "GLOBAL_CHECKPOINT_ABORT"; "INVALID_REQUEST";
   "SENDER_START_TIMED_OUT"; "AUTH_ERROR"].

(** [to_string] stands for [folly::to<std::string>] on the code's value.  A
    code received from the peer may be any byte, so the argument is the value. *)
Definition errorCodeToStr (to_string : Z -> string) (code : Z) : string :=
  let numErrorCodes := Zlen kErrorToStr in
  if code <? numErrorCodes then default (to_string code) (kErrorToStr !! Z.to_nat code)
  else to_string code.

Definition getMoreInterestingError (err1 err2 : ErrorCode) : ErrorCode :=
  if ErrorCode_value err1 <? ErrorCode_value err2 then err2 else err1.

Lemma ErrorCode_value_inj e1 e2 : ErrorCode_value e1 = ErrorCode_value e2 -> e1 = e2.
Proof. destruct e1, e2; vm_compute; congruence. Qed.

Lemma getMoreInterestingError_value e1 e2 :
  ErrorCode_value (getMoreInterestingError e1 e2) =
  Z.max (ErrorCode_value e1) (ErrorCode_value e2).
Proof. unfold getMoreInterestingError. zbool. Qed.

Lemma ErrorCode_value_nonneg e : 0 <= ErrorCode_value e <= 33.
Proof. destruct e; vm_compute; split; discriminate. Qed.
