(* ===== verification/Chunks.v ===== *)
(** Intervals of a file and the chunk list of a file: [Interval] and
    [FileChunksInfo] of [Protocol.h] and [Protocol.cpp]. *)
From S2P Require Import Prelude.

(** ** Interval *)

Record Interval := mkInterval { start_ : Z; end_ : Z }.

#[global] Instance Interval_eq_dec : EqDecision Interval.
Proof. solve_decision. Defined.

(** The constructor with its [WDT_CHECK]. *)
Definition Interval_make (start e : Z) : option Interval :=
  check start <=? e ;; Some (mkInterval start e).

Definition size (c : Interval) : Z := end_ c - start_ c.

(** [operator<] and the non-strict order it induces. *)
Definition Interval_lt (a b : Interval) : bool := start_ a <? start_ b.
Definition Interval_le (a b : Interval) : Prop := start_ a <= start_ b.

#[global] Instance Interval_le_dec : RelDecision Interval_le.
Proof. intros a b. unfold Interval_le. apply _. Defined.
#[global] Instance Interval_le_total : Total Interval_le.
Proof. intros a b. unfold Interval_le. lia. Qed.
#[global] Instance Interval_le_trans : Transitive Interval_le.
Proof. intros a b c. unfold Interval_le. lia. Qed.

(** ** FileChunksInfo *)

Record FileChunksInfo := mkFileChunksInfo {
  seqId_ : Z;
  fileName_ : list Z;
  fileSize_ : Z;
  chunks_ : list Interval
}.

#[global] Instance FileChunksInfo_eq_dec : EqDecision FileChunksInfo.
Proof. solve_decision. Defined.

(** [FileChunksInfo()] and [FileChunksInfo(seqId, fileName, fileSize)] *)
Definition FileChunksInfo_default : FileChunksInfo := mkFileChunksInfo 0 [] 0 [].
Definition FileChunksInfo_make (seqId : Z) (fileName : list Z) (fileSize : Z) : FileChunksInfo :=
  mkFileChunksInfo seqId fileName fileSize [].

Definition with_chunks (f : FileChunksInfo) (cs : list Interval) : FileChunksInfo :=
  mkFileChunksInfo (seqId_ f) (fileName_ f) (fileSize_ f) cs.

Definition getTotalChunkSize (f : FileChunksInfo) : Z :=
  foldl (fun total c => total + size c) 0 (chunks_ f).

Definition addChunk (c : Interval) (f : FileChunksInfo) : FileChunksInfo :=
  with_chunks f (chunks_ f ++ [c]).

(** The loop of [mergeChunks]; [merged] is [mergedChunks]. *)
Fixpoint mergeChunks_loop (merged : list Interval) (curChunk : Interval)
    (rest : list Interval) : list Interval :=
  match rest with
  | [] => merged ++ [curChunk]
  | c :: rest =>
      if end_ curChunk <? start_ c then mergeChunks_loop (merged ++ [curChunk]) c rest
      else mergeChunks_loop merged
             (mkInterval (start_ curChunk) (Z.max (end_ curChunk) (end_ c))) rest
  end.

(** The chunks after [std::sort]; the order [sort] leaves between chunks with
    equal starts does not matter ([mergeSorted_order_irrelevant] below). *)
Definition mergeSorted (sorted : list Interval) : list Interval :=
  match sorted with
  | [] => []
  | c :: rest => mergeChunks_loop [] c rest
  end.

Definition mergeChunks (f : FileChunksInfo) : FileChunksInfo :=
  if bool_decide (chunks_ f = []) then f
  else with_chunks f (mergeSorted (merge_sort Interval_le (chunks_ f))).

(** [emplace_back(curStart, chunk.start_)] runs the [Interval] constructor,
    whose check the guard implies. *)
Fixpoint getRemainingChunks_loop (curStart : Z) (chunks : list Interval)
    : list Interval * Z :=
  match chunks with
  | [] => ([], curStart)
  | c :: rest =>
      let '(out, final) := getRemainingChunks_loop (end_ c) rest in
      (if curStart <? start_ c then mkInterval curStart (start_ c) :: out else out, final)
  end.
Definition getRemainingChunks (f : FileChunksInfo) (curFileSize : Z) : list Interval :=
  let '(out, curStart) := getRemainingChunks_loop 0 (chunks_ f) in
  if curStart <? curFileSize then out ++ [mkInterval curStart curFileSize] else out.

(** ** Specification: the bytes a chunk list covers *)

Definition covers (cs : list Interval) (x : Z) : Prop :=
  Exists (fun c => start_ c <= x < end_ c) cs.
(** The same at half-byte positions, boundaries included: [2 * x + 1] is the
    middle of byte [x] and [2 * x] the boundary before it, so that a chunk of
    size zero and the gap between two adjacent chunks are visible. *)
Definition touches (cs : list Interval) (y : Z) : Prop :=
  Exists (fun c => 2 * start_ c <= y <= 2 * end_ c) cs.
Definition wf_interval (c : Interval) : Prop := start_ c <= end_ c.

(** Strictly separated: in increasing order with a gap between neighbours. *)
Fixpoint separated (lo : Z) (cs : list Interval) : Prop :=
  match cs with
  | [] => True
  | c :: cs => lo < start_ c /\ start_ c <= end_ c /\ separated (end_ c) cs
  end.

Lemma covers_nil x : covers [] x <-> False.
Proof. apply Exists_nil. Qed.
Lemma covers_cons c cs x : covers (c :: cs) x <-> start_ c <= x < end_ c \/ covers cs x.
Proof. apply Exists_cons. Qed.
Lemma covers_app l k x : covers (l ++ k) x <-> covers l x \/ covers k x.
Proof. apply Exists_app. Qed.
Lemma touches_nil x : touches [] x <-> False.
Proof. apply Exists_nil. Qed.
Lemma touches_cons c cs x :
  touches (c :: cs) x <-> 2 * start_ c <= x <= 2 * end_ c \/ touches cs x.
Proof. apply Exists_cons. Qed.
Lemma touches_app l k x : touches (l ++ k) x <-> touches l x \/ touches k x.
Proof. apply Exists_app. Qed.
Create Rewrite HintDb covers.
#[global] Hint Rewrite covers_nil covers_cons covers_app
  touches_nil touches_cons touches_app : covers.

Lemma covers_touches cs x : covers cs x <-> touches cs (2 * x + 1).
Proof.
  induction cs as [|c cs IH]; autorewrite with covers; [done|]. rewrite IH. intuition lia.
Qed.

Lemma touches_permutation l k x : l ≡ₚ k -> touches l x <-> touches k x.
Proof. unfold touches. by intros ->. Qed.

Lemma separated_weaken lo lo' cs : lo' <= lo -> separated lo cs -> separated lo' cs.
Proof. destruct cs; simpl; [done|]. intuition lia. Qed.

Lemma separated_touches lo cs x : separated lo cs -> touches cs x -> 2 * lo + 1 < x.
Proof.
  revert lo. induction cs as [|c cs IH]; intros lo; simpl; autorewrite with covers; [done|].
  intros (? & ? & Hs) [?|Hc]; [lia|]. specialize (IH _ Hs Hc). lia.
Qed.

(** *** Merging *)

Lemma mergeChunks_loop_app merged cur rest :
  mergeChunks_loop merged cur rest = merged ++ mergeChunks_loop [] cur rest.
Proof.
  revert merged cur. induction rest as [|c rest IH]; intros merged cur; simpl; [done|].
  destruct (end_ cur <? start_ c); [|apply IH].
  rewrite IH, (IH [cur]), <- app_assoc. done.
Qed.

Lemma mergeChunks_loop_spec cur rest :
  wf_interval cur -> Forall wf_interval rest ->
  Forall (fun c => start_ cur <= start_ c) rest -> StronglySorted Interval_le rest ->
  separated (start_ cur - 1) (mergeChunks_loop [] cur rest) /\
  forall x, touches (mergeChunks_loop [] cur rest) x <-> touches (cur :: rest) x.
Proof.
  revert cur. induction rest as [|c rest IH]; intros cur Hwf Hwfs Hle Hsort; simpl.
  { unfold wf_interval in *. split; [simpl; lia|done]. }
  inversion_clear Hwfs as [|? ? Hwc Hwr]. inversion_clear Hle as [|? ? Hc Hr].
  inversion_clear Hsort as [|? ? Hss Hall]. unfold wf_interval in *.
  destruct (end_ cur <? start_ c) eqn:E; bool_to_prop.
  - rewrite mergeChunks_loop_app. destruct (IH c Hwc Hwr Hall Hss) as [Hsep Hcov]. split.
    + simpl. split_and!; [lia..|]. apply (separated_weaken (start_ c - 1)); [lia|done].
    + intros x. autorewrite with covers. rewrite Hcov. autorewrite with covers. tauto.
  - set (cur' := mkInterval (start_ cur) (Z.max (end_ cur) (end_ c))).
    destruct (IH cur') as [Hsep Hcov]; try done; [simpl; lia|].
    split; [done|]. intros x. rewrite Hcov. autorewrite with covers. simpl. split; [|intuition lia].
    intros [?|?]; [|tauto]. destruct (Z.le_gt_cases x (2 * end_ cur)); [left; lia|right; left; lia].
Qed.

Lemma mergeSorted_spec cs :
  Forall wf_interval cs -> StronglySorted Interval_le cs ->
  (exists lo, separated lo (mergeSorted cs)) /\
  forall x, touches (mergeSorted cs) x <-> touches cs x.
Proof.
  destruct cs as [|c cs]; simpl; intros Hwf Hs; [split; [by exists 0|done]|].
  inversion_clear Hwf. inversion_clear Hs.
  destruct (mergeChunks_loop_spec c cs) as [? ?]; eauto.
Qed.

(** A separated list is determined by the positions it touches. *)
Lemma separated_unique lo cs ds :
  separated lo cs -> separated lo ds -> (forall x, touches cs x <-> touches ds x) -> cs = ds.
Proof.
  revert lo ds. induction cs as [|c cs IH]; intros lo [|d ds] Hc Hd Heq; [done|..].
  - exfalso. destruct Hd as (? & ? & ?). specialize (Heq (2 * start_ d)).
    autorewrite with covers in Heq. apply Heq. left. lia.
  - exfalso. destruct Hc as (? & ? & ?). specialize (Heq (2 * start_ c)).
    autorewrite with covers in Heq. apply Heq. left. lia.
  - destruct Hc as (Hc1 & Hc2 & Hc3), Hd as (Hd1 & Hd2 & Hd3).
    assert (forall x, (2 * start_ c <= x <= 2 * end_ c \/ touches cs x) <->
      (2 * start_ d <= x <= 2 * end_ d \/ touches ds x)) as Heq'.
    { intros x. specialize (Heq x). by autorewrite with covers in Heq. }
    clear Heq.
    assert (forall x, touches cs x -> 2 * end_ c + 1 < x) as Hlo
      by (intros; eapply separated_touches; eauto).
    assert (forall x, touches ds x -> 2 * end_ d + 1 < x) as Hlo'
      by (intros; eapply separated_touches; eauto).
    assert (start_ c = start_ d) as Es.
    { destruct (proj1 (Heq' (2 * start_ c)) ltac:(left; lia)) as [?|H1%Hlo'];
      destruct (proj2 (Heq' (2 * start_ d)) ltac:(left; lia)) as [?|H2%Hlo]; lia. }
    assert (end_ c = end_ d) as Ee.
    { destruct (Z.lt_trichotomy (end_ c) (end_ d)) as [Hlt|[?|Hlt]]; [|done|].
      - destruct (proj2 (Heq' (2 * end_ c + 1)) ltac:(left; lia)) as [?|H1%Hlo]; lia.
      - destruct (proj1 (Heq' (2 * end_ d + 1)) ltac:(left; lia)) as [?|H1%Hlo']; lia. }
    f_equal; [destruct c, d; simpl in *; congruence|].
    apply (IH (end_ c)); auto; [by rewrite Ee|].
    intros x. specialize (Heq' x). split; intros Hx.
    + destruct (proj1 Heq' ltac:(by right)) as [?|?]; [|done]. apply Hlo in Hx. lia.
    + destruct (proj2 Heq' ltac:(by right)) as [?|?]; [|done]. apply Hlo' in Hx. lia.
Qed.

(** Whatever order a sort leaves between chunks with equal starts, the merged
    list is the same. *)
Lemma mergeSorted_order_irrelevant cs ds :
  Forall wf_interval cs -> cs ≡ₚ ds ->
  StronglySorted Interval_le cs -> StronglySorted Interval_le ds ->
  mergeSorted cs = mergeSorted ds.
Proof.
  intros Hwf Hp Hc Hd.
  assert (Forall wf_interval ds) as Hwf' by (by rewrite <- Hp).
  destruct (mergeSorted_spec cs Hwf Hc) as ((lo1 & S1) & C1).
  destruct (mergeSorted_spec ds Hwf' Hd) as ((lo2 & S2) & C2).
  apply (separated_unique (Z.min lo1 lo2)).
  - apply (separated_weaken lo1); [lia|done].
  - apply (separated_weaken lo2); [lia|done].
  - intros x. rewrite C1, C2. by apply touches_permutation.
Qed.

Lemma merge_sort_spec cs :
  StronglySorted Interval_le (merge_sort Interval_le cs) /\ merge_sort Interval_le cs ≡ₚ cs.
Proof. split; [apply (StronglySorted_merge_sort _) | apply (merge_sort_Permutation _)]. Qed.

Lemma mergeChunks_spec f :
  Forall wf_interval (chunks_ f) ->
  (exists lo, separated lo (chunks_ (mergeChunks f))) /\
  (forall x, touches (chunks_ (mergeChunks f)) x <-> touches (chunks_ f) x).
Proof.
  intros Hwf. unfold mergeChunks. case_bool_decide as E.
  { rewrite E. split; [by exists 0|done]. }
  destruct (merge_sort_spec (chunks_ f)) as [Hs Hp]. simpl.
  destruct (mergeSorted_spec (merge_sort Interval_le (chunks_ f))) as [Hsep Ht]; [by rewrite Hp|done|].
  split; [done|]. intros x. rewrite Ht. by apply touches_permutation.
Qed.

(** *** Remaining chunks *)

(** In increasing order, each chunk starting at or after the end of the one
    before. *)
Fixpoint ordered (lo : Z) (cs : list Interval) : Prop :=
  match cs with
  | [] => True
  | c :: cs => lo <= start_ c /\ start_ c <= end_ c /\ ordered (end_ c) cs
  end.
(** Where the last chunk ends. *)
Fixpoint last_end (lo : Z) (cs : list Interval) : Z :=
  match cs with
  | [] => lo
  | c :: cs => last_end (end_ c) cs
  end.
Definition sizes (cs : list Interval) : Z := Zsum (size <$> cs).

Lemma sizes_app l k : sizes (l ++ k) = sizes l + sizes k.
Proof. unfold sizes. by rewrite fmap_app, Zsum_app. Qed.

Lemma sizes_cons c cs : sizes (c :: cs) = (end_ c - start_ c) + sizes cs.
Proof. done. Qed.

Lemma separated_ordered lo cs : separated lo cs -> ordered (lo + 1) cs.
Proof.
  revert lo. induction cs as [|c cs IH]; intros lo; simpl; [done|].
  intros (? & ? & Hs). split_and!; [lia..|].
  destruct cs as [|d cs]; [done|]. destruct (IH _ Hs) as (? & ? & ?). simpl. split_and!; [lia..|done].
Qed.

Lemma ordered_covers lo cs x : ordered lo cs -> covers cs x -> lo <= x < last_end lo cs.
Proof.
  revert lo. induction cs as [|c cs IH]; intros lo; simpl; autorewrite with covers; [done|].
  intros (? & ? & Hs) [?|Hc].
  - clear IH. split; [lia|]. assert (end_ c <= last_end (end_ c) cs); [|lia].
    clear -Hs. revert Hs. generalize (end_ c). induction cs as [|d cs IH]; simpl; [lia|].
    intros z (? & ? & H). specialize (IH _ H). lia.
  - specialize (IH _ Hs Hc). lia.
Qed.

Lemma last_end_ge lo cs : ordered lo cs -> lo <= last_end lo cs.
Proof.
  revert lo. induction cs as [|d cs IH]; simpl; [lia|].
  intros z (? & ? & H). specialize (IH _ H). lia.
Qed.

Lemma getRemainingChunks_loop_spec cur cs :
  ordered cur cs ->
  let '(out, final) := getRemainingChunks_loop cur cs in
  final = last_end cur cs /\
  sizes out + sizes cs = final - cur /\
  Forall (fun c => start_ c < end_ c) out /\
  (forall x, covers out x <-> cur <= x < final /\ ~ covers cs x).
Proof.
  revert cur. induction cs as [|c cs IH]; intros cur; simpl.
  { intros _. unfold sizes. simpl. split_and!; auto; [lia|].
    intros x. autorewrite with covers. lia. }
  intros (Hlo & Hse & Hord). specialize (IH _ Hord).
  destruct (getRemainingChunks_loop (end_ c) cs) as [out final].
  destruct IH as (-> & Hsz & Hne & Hcov).
  pose proof (last_end_ge _ _ Hord) as Hge.
  assert (forall x, covers cs x -> end_ c <= x) as Hcs.
  { intros x Hx. eapply ordered_covers in Hx; [|done]. lia. }
  destruct (cur <? start_ c) eqn:E; bool_to_prop; cbn [last_end]; split_and!; auto.
  - rewrite !sizes_cons. simpl. lia.
  - intros x. autorewrite with covers. rewrite Hcov. simpl. split.
    + intros [?|[? ?]]; (split; [lia|]); (intros [?|Hx]; [lia|]); [|done]. apply Hcs in Hx. lia.
    + intros [? Hx]. destruct (Z.lt_ge_cases x (start_ c)); [by left; lia|]. right.
      split; [|tauto]. assert (~ start_ c <= x < end_ c) by tauto. lia.
  - rewrite sizes_cons. lia.
  - intros x. autorewrite with covers. rewrite Hcov. split.
    + intros [? ?]. split; [lia|]. intros [?|Hx]; [lia|done].
    + intros [? Hx]. split; [|tauto]. assert (~ start_ c <= x < end_ c) by tauto. lia.
Qed.

Lemma getRemainingChunks_spec f curFileSize :
  ordered 0 (chunks_ f) -> last_end 0 (chunks_ f) <= curFileSize ->
  sizes (getRemainingChunks f curFileSize) + sizes (chunks_ f) = curFileSize /\
  Forall (fun c => start_ c < end_ c) (getRemainingChunks f curFileSize) /\
  (forall x, covers (getRemainingChunks f curFileSize) x <->
     0 <= x < curFileSize /\ ~ covers (chunks_ f) x).
Proof.
  intros Hord Hend. unfold getRemainingChunks.
  pose proof (getRemainingChunks_loop_spec 0 (chunks_ f) Hord) as Hspec.
  pose proof (last_end_ge _ _ Hord). pose proof (fun x => ordered_covers 0 (chunks_ f) x Hord) as Hb.
  destruct (getRemainingChunks_loop 0 (chunks_ f)) as [out final].
  destruct Hspec as (-> & Hsz & Hne & Hcov).
  destruct (_ <? curFileSize) eqn:E; bool_to_prop.
  - split_and!.
    + rewrite sizes_app, sizes_cons. unfold sizes at 2. simpl. lia.
    + rewrite Forall_app. split; [done|]. constructor; [simpl; lia|done].
    + intros x. autorewrite with covers. rewrite Hcov. simpl. split.
      * intros [[? ?]|[?|[]]]; (split; [lia|]); [done|]. intros Hx. apply Hb in Hx. lia.
      * intros [? ?]. destruct (Z.lt_ge_cases x (last_end 0 (chunks_ f))); [by left; split; [lia|]|].
        right. left. lia.
  - split_and!; [lia|done|]. intros x. rewrite Hcov. split; intros [? ?]; (split; [lia|done]).
Qed.

Lemma getTotalChunkSize_sizes f : getTotalChunkSize f = sizes (chunks_ f).
Proof.
  unfold getTotalChunkSize, sizes.
  assert (forall cs acc, foldl (fun total c => total + size c) acc cs = acc + Zsum (size <$> cs)) as H.
  { induction cs as [|c cs IH]; intros acc; [simpl; lia|]. cbn [foldl]. rewrite IH.
    change (Zsum (size <$> c :: cs)) with (size c + Zsum (size <$> cs)). lia. }
  rewrite H. lia.
Qed.

Lemma separated_from lo lo' cs :
  separated lo cs -> (forall x, touches cs x -> 2 * lo' < x) -> separated lo' cs.
Proof.
  destruct cs as [|c cs]; simpl; [done|]. intros (? & ? & ?) Ht.
  specialize (Ht (2 * start_ c)). autorewrite with covers in Ht.
  assert (2 * lo' < 2 * start_ c) by (apply Ht; left; lia). split_and!; [lia..|done].
Qed.

Lemma last_end_le lo cs n :
  ordered lo cs -> lo <= n -> (forall x, touches cs x -> x <= 2 * n) -> last_end lo cs <= n.
Proof.
  revert lo. induction cs as [|c cs IH]; intros lo; simpl; [done|].
  intros (? & ? & Ho) Hlo Ht. apply IH; [done|..].
  - specialize (Ht (2 * end_ c)). autorewrite with covers in Ht. lia.
  - intros x Hx. apply Ht. autorewrite with covers. by right.
Qed.

Lemma mergeChunks_fields f :
  seqId_ (mergeChunks f) = seqId_ f /\ fileName_ (mergeChunks f) = fileName_ f /\
  fileSize_ (mergeChunks f) = fileSize_ f.
Proof. unfold mergeChunks. by case_bool_decide. Qed.

(** ** Properties *)

(** A file with overlapping and unordered chunks. *)
Definition ex_file : FileChunksInfo :=
  mkFileChunksInfo 1 [102] 100 [mkInterval 40 60; mkInterval 0 10; mkInterval 5 20].

(** Merging a chunk list keeps exactly the bytes it
    covers, leaves it in increasing order with a gap between any two
    neighbours, touches nothing else of the record, and a second merge changes
    nothing. *)
Theorem mergeChunks_correct f :
  Forall wf_interval (chunks_ f) ->
  (forall x, covers (chunks_ (mergeChunks f)) x <-> covers (chunks_ f) x) /\
  (exists lo, separated lo (chunks_ (mergeChunks f))) /\
  seqId_ (mergeChunks f) = seqId_ f /\ fileName_ (mergeChunks f) = fileName_ f /\
  fileSize_ (mergeChunks f) = fileSize_ f /\
  mergeChunks (mergeChunks f) = mergeChunks f.
Proof.
  intros Hwf. destruct (mergeChunks_spec f Hwf) as ((lo & Hsep) & Ht). split_and!; eauto.
  - intros x. by rewrite !covers_touches, Ht.
  - apply mergeChunks_fields.
  - apply mergeChunks_fields.
  - apply mergeChunks_fields.
  - assert (Forall wf_interval (chunks_ (mergeChunks f))) as Hwf'.
    { clear Ht. revert lo Hsep. generalize (chunks_ (mergeChunks f)).
      induction l as [|c l IH]; intros lo; simpl; [done|]. intros (? & ? & ?). eauto. }
    destruct (mergeChunks_spec (mergeChunks f) Hwf') as ((lo2 & Hsep2) & Ht2).
    assert (chunks_ (mergeChunks (mergeChunks f)) = chunks_ (mergeChunks f)) as E.
    { apply (separated_unique (Z.min lo lo2)); [| |done];
        eapply separated_weaken; eauto; lia. }
    unfold mergeChunks at 1. case_bool_decide; [done|].
    unfold mergeChunks at 1 in E. rewrite bool_decide_eq_false_2 in E by done. simpl in E.
    rewrite E. by destruct (mergeChunks f).
Qed.

Lemma mergeChunks_correct_witness :
  mergeChunks (mergeChunks ex_file) = mergeChunks ex_file.
Proof. apply (mergeChunks_correct ex_file). repeat constructor; vm_compute; congruence. Defined.

(** C36: For a file of [n] bytes whose received chunks lie in
    it, the remaining chunks of the merged list are exactly the bytes not
    received: together they add up to [n], none of them is empty, and a byte of
    the file is in one of them iff no chunk covers it. *)
Theorem resumption_partition f n :
  Forall wf_interval (chunks_ f) -> Forall (fun c => 0 <= start_ c /\ end_ c <= n) (chunks_ f) ->
  0 <= n ->
  getTotalChunkSize (mergeChunks f) + sizes (getRemainingChunks (mergeChunks f) n) = n /\
  Forall (fun c => start_ c < end_ c) (getRemainingChunks (mergeChunks f) n) /\
  (forall x, covers (getRemainingChunks (mergeChunks f) n) x <->
     0 <= x < n /\ ~ covers (chunks_ f) x).
Proof.
  intros Hwf Hin Hn. destruct (mergeChunks_spec f Hwf) as ((lo & Hsep) & Ht).
  assert (forall x, touches (chunks_ f) x -> 0 <= x <= 2 * n) as Hb.
  { intros x (c & Hc & ?)%Exists_exists. rewrite Forall_forall in Hin.
    specialize (Hin c Hc). lia. }
  assert (ordered 0 (chunks_ (mergeChunks f))) as Hord.
  { apply (separated_ordered (-1)), (separated_from lo); [done|].
    intros x Hx%Ht%Hb. lia. }
  destruct (getRemainingChunks_spec (mergeChunks f) n Hord) as (Hs & Hne & Hc).
  { apply last_end_le; [done|lia|]. intros x Hx%Ht%Hb. lia. }
  split_and!; [rewrite getTotalChunkSize_sizes; lia|done|].
  intros x. rewrite Hc, !covers_touches. by rewrite (Ht (2 * x + 1)).
Qed.

Lemma resumption_partition_witness :
  getTotalChunkSize (mergeChunks ex_file) + sizes (getRemainingChunks (mergeChunks ex_file) 100)
    = 100.
Proof.
  apply (resumption_partition ex_file 100); [..|lia];
    repeat constructor; vm_compute; congruence.
Defined.
