(* ===== verification/Protocol.v ===== *)
(** The wire protocol: the data and the message codecs of [Protocol.h] and
    [Protocol.cpp].

    Each [encodeX]/[decodeX] keeps the C++ argument order: the buffer, the
    offset (returned moved), the limit [max], the message.  A decoder takes the
    current value of its out-parameter and returns the one it leaves, so a
    failed decoding shows the fields stored before the failure.  A decoder
    that returns before [off += offset(br, obr)] leaves the offset where it
    was: its body answers with the range it was given. *)
From S2P Require Import Prelude Serialization ErrorCodes Chunks.

(** ** Versions *)

(** [WDT_PROTOCOL_VERSION], which the build sets to the minor version 32. *)
Definition protocol_version : Z := 32.

Definition RECEIVER_PROGRESS_REPORT_VERSION : Z := 11.
Definition CHECKSUM_VERSION : Z := 12.
Definition DOWNLOAD_RESUMPTION_VERSION : Z := 13.
Definition SETTINGS_FLAG_VERSION : Z := 12.
Definition HEADER_FLAG_AND_PREV_SEQ_ID_VERSION : Z := 13.
Definition CHECKPOINT_OFFSET_VERSION : Z := 16.
Definition CHECKPOINT_SEQ_ID_VERSION : Z := 21.
Definition ENCRYPTION_V1_VERSION : Z := 23.
Definition INCREMENTAL_TAG_VERIFICATION_VERSION : Z := 25.
Definition DELETE_CMD_VERSION : Z := 26.
Definition VARINT_CHANGE : Z := 27.
Definition HEART_BEAT_VERSION : Z := 29.
Definition PERIODIC_ENCRYPTION_IV_CHANGE_VERSION : Z := 30.

Definition negotiateProtocol (requestedProtocolVersion curProtocolVersion : Z) : Z :=
  if requestedProtocolVersion <? 10 then 0
  else Z.min curProtocolVersion requestedProtocolVersion.

(** ** Limits ([PATH_MAX] is 4096, an AES block 16 bytes) *)

Definition PATH_MAX : Z := 4096.
Definition kAESBlockSize : Z := 16.
Definition kMaxTransferIdLength : Z := 1024.
Definition kMaxHeader : Z := 1 + 2 + PATH_MAX + 4 * 10 + 1 + 10.
Definition kMinBufLength : Z := 256.
Definition kMaxDone : Z := 2 + 2 * 10.
Definition kMaxSize : Z := 1 + 10.
Definition kMaxSettings : Z := 1 + 3 * 10 + kMaxTransferIdLength + 1.
Definition kMaxFooter : Z := 1 + 10.
Definition kChunksCmdLen : Z := 2 * sizeof_int64.
Definition kMaxChunkEncodeLen : Z := 20.
Definition kAbortLength : Z := sizeof_int32 + 1 + sizeof_int64.
Definition kMaxVersion : Z := 10.
Definition kEncryptionCmdLen : Z := 1 + 1 + 1 + kAESBlockSize + sizeof_int32.

(** ** Messages *)

Record Checkpoint := mkCheckpoint {
  port : Z;
  numBlocks : Z;
  lastBlockSeqId : Z;
  lastBlockOffset : Z;
  lastBlockReceivedBytes : Z;
  hasSeqId : bool
}.
#[global] Instance Checkpoint_eq_dec : EqDecision Checkpoint.
Proof. solve_decision. Defined.

Definition Checkpoint_default : Checkpoint := mkCheckpoint 0 0 0 0 0 false.
Definition Checkpoint_make (p : Z) : Checkpoint := mkCheckpoint p 0 0 0 0 false.

Definition hasPartialBlockInfo (c : Checkpoint) : bool :=
  hasSeqId c && (0 <=? lastBlockSeqId c) && (0 <? lastBlockReceivedBytes c).
Definition resetLastBlockDetails (c : Checkpoint) : Checkpoint :=
  mkCheckpoint (port c) (numBlocks c) 0 0 0 (hasSeqId c).
Definition setLastBlockDetails (seqId off receivedBytes : Z) (c : Checkpoint) : Checkpoint :=
  mkCheckpoint (port c) (numBlocks c) seqId off receivedBytes (hasSeqId c).
Definition incrNumBlocks (c : Checkpoint) : Checkpoint :=
  mkCheckpoint (port c) (numBlocks c + 1) (lastBlockSeqId c) (lastBlockOffset c)
    (lastBlockReceivedBytes c) (hasSeqId c).

Definition set_port (v : Z) (c : Checkpoint) : Checkpoint :=
  mkCheckpoint v (numBlocks c) (lastBlockSeqId c) (lastBlockOffset c)
    (lastBlockReceivedBytes c) (hasSeqId c).
Definition set_numBlocks (v : Z) (c : Checkpoint) : Checkpoint :=
  mkCheckpoint (port c) v (lastBlockSeqId c) (lastBlockOffset c)
    (lastBlockReceivedBytes c) (hasSeqId c).
Definition set_lastBlockSeqId (v : Z) (c : Checkpoint) : Checkpoint :=
  mkCheckpoint (port c) (numBlocks c) v (lastBlockOffset c)
    (lastBlockReceivedBytes c) (hasSeqId c).
Definition set_lastBlockOffset (v : Z) (c : Checkpoint) : Checkpoint :=
  mkCheckpoint (port c) (numBlocks c) (lastBlockSeqId c) v
    (lastBlockReceivedBytes c) (hasSeqId c).
Definition set_lastBlockReceivedBytes (v : Z) (c : Checkpoint) : Checkpoint :=
  mkCheckpoint (port c) (numBlocks c) (lastBlockSeqId c) (lastBlockOffset c) v (hasSeqId c).
Definition set_hasSeqId (v : bool) (c : Checkpoint) : Checkpoint :=
  mkCheckpoint (port c) (numBlocks c) (lastBlockSeqId c) (lastBlockOffset c)
    (lastBlockReceivedBytes c) v.

(** A header carries three bits of status, so the receiver's enum variable can
    hold a value no enumerator names. *)
Inductive FileAllocationStatus :=
  | NOT_EXISTS | EXISTS_CORRECT_SIZE | EXISTS_TOO_LARGE | EXISTS_TOO_SMALL
  | TO_BE_DELETED | UNNAMED_STATUS (v : Z).
#[global] Instance FileAllocationStatus_eq_dec : EqDecision FileAllocationStatus.
Proof. solve_decision. Defined.

Definition status_value (s : FileAllocationStatus) : Z :=
  match s with
  | NOT_EXISTS => 0 | EXISTS_CORRECT_SIZE => 1 | EXISTS_TOO_LARGE => 2
  | EXISTS_TOO_SMALL => 3 | TO_BE_DELETED => 4 | UNNAMED_STATUS v => v
  end.
Definition status_of_value (v : Z) : FileAllocationStatus :=
  if v =? 0 then NOT_EXISTS else if v =? 1 then EXISTS_CORRECT_SIZE
  else if v =? 2 then EXISTS_TOO_LARGE else if v =? 3 then EXISTS_TOO_SMALL
  else if v =? 4 then TO_BE_DELETED else UNNAMED_STATUS v.

Record BlockDetails := mkBlockDetails {
  fileName : list Z;
  seqId : Z;
  fileSize : Z;
  blockOffset : Z;
  dataSize : Z;
  allocationStatus : FileAllocationStatus;
  prevSeqId : Z
}.
Definition BlockDetails_default : BlockDetails := mkBlockDetails [] 0 0 0 0 NOT_EXISTS 0.

Definition bd_set_fileName v b := mkBlockDetails v (seqId b) (fileSize b) (blockOffset b)
  (dataSize b) (allocationStatus b) (prevSeqId b).
Definition bd_set_seqId v b := mkBlockDetails (fileName b) v (fileSize b) (blockOffset b)
  (dataSize b) (allocationStatus b) (prevSeqId b).
Definition bd_set_fileSize v b := mkBlockDetails (fileName b) (seqId b) v (blockOffset b)
  (dataSize b) (allocationStatus b) (prevSeqId b).
Definition bd_set_offset v b := mkBlockDetails (fileName b) (seqId b) (fileSize b) v
  (dataSize b) (allocationStatus b) (prevSeqId b).
Definition bd_set_dataSize v b := mkBlockDetails (fileName b) (seqId b) (fileSize b)
  (blockOffset b) v (allocationStatus b) (prevSeqId b).
Definition bd_set_status v b := mkBlockDetails (fileName b) (seqId b) (fileSize b)
  (blockOffset b) (dataSize b) v (prevSeqId b).
Definition bd_set_prevSeqId v b := mkBlockDetails (fileName b) (seqId b) (fileSize b)
  (blockOffset b) (dataSize b) (allocationStatus b) v.

Record Settings := mkSettings {
  readTimeoutMillis : Z;
  writeTimeoutMillis : Z;
  transferId : list Z;
  enableChecksum : bool;
  sendFileChunks : bool;
  blockModeDisabled : bool;
  enableHeartBeat : bool
}.
Definition st_set_readTimeout v s := mkSettings v (writeTimeoutMillis s) (transferId s)
  (enableChecksum s) (sendFileChunks s) (blockModeDisabled s) (enableHeartBeat s).
Definition st_set_writeTimeout v s := mkSettings (readTimeoutMillis s) v (transferId s)
  (enableChecksum s) (sendFileChunks s) (blockModeDisabled s) (enableHeartBeat s).
Definition st_set_transferId v s := mkSettings (readTimeoutMillis s) (writeTimeoutMillis s) v
  (enableChecksum s) (sendFileChunks s) (blockModeDisabled s) (enableHeartBeat s).
(** The four flags from the bits of the flag byte. *)
Definition st_set_flags (flags : Z) s :=
  mkSettings (readTimeoutMillis s) (writeTimeoutMillis s) (transferId s)
    (negb (Z.land flags 1 =? 0)) (negb (Z.land flags (Z.shiftl 1 1) =? 0))
    (negb (Z.land flags (Z.shiftl 1 2) =? 0)) (negb (Z.land flags (Z.shiftl 1 3) =? 0)).

(** The out-parameters of [decodeAbort], [decodeDone], [decodeChunksCmd] and
    [decodeEncryptionSettings]. *)
Record AbortCmd := mkAbortCmd { ab_protocolVersion : Z; ab_errCode : Z; ab_checkpoint : Z }.
Record DoneCmd := mkDoneCmd { done_numBlocks : Z; done_bytesSent : Z }.
Record ChunksCmd := mkChunksCmd { ck_bufSize : Z; ck_numFiles : Z }.
Record EncryptionSettings :=
  mkEncryptionSettings { es_type : Z; es_iv : list Z; es_tagInterval : Z }.

(** ** Encoders *)

(** The primitive encoders with their arguments in the order of a chain. *)
Definition encStr (max : Z) (s : list Z) : encoder := fun dest off =>
  Some (encodeString dest max off s).
Definition encI64C (max v : Z) : encoder := fun dest off => encodeVarI64C dest max off v.
Definition encU64 (max v : Z) : encoder := fun dest off => Some (encodeVarU64 dest max off v).
Definition encFixed `{Host} (n max v : Z) : encoder := fun dest off =>
  Some (encodeIntFixedLength n dest max off v).

Definition getMaxLocalCheckpointLength (protocolVersion : Z) : Z :=
  let length := 10 in
  let length := length + 2 * 10 in
  let length := if CHECKPOINT_OFFSET_VERSION <=? protocolVersion then length + 10 else length in
  if CHECKPOINT_SEQ_ID_VERSION <=? protocolVersion then length + 2 * 10 else length.

Definition hasPrevSeqId (s : FileAllocationStatus) : bool :=
  (status_value s =? status_value EXISTS_TOO_SMALL) ||
  (status_value s =? status_value EXISTS_TOO_LARGE).

Definition encodeHeader (senderProtocolVersion : Z) (dest : list Z) (off max : Z)
    (b : BlockDetails) : option (bool * list Z * Z) :=
  check 0 <=? max ;;
  (encStr max (fileName b) &&@ encI64C max (seqId b) &&@ encI64C max (dataSize b) &&@
   encI64C max (blockOffset b) &&@ encI64C max (fileSize b) &&@
   (if HEADER_FLAG_AND_PREV_SEQ_ID_VERSION <=? senderProtocolVersion then
      enc_byte max (status_value (allocationStatus b)) &&@
      (if hasPrevSeqId (allocationStatus b) then encI64C max (prevSeqId b) else enc_true)
    else enc_true)) dest off.

Definition encodeCheckpoint (protocolVersion max : Z) (c : Checkpoint) : encoder :=
  encI64C max (port c) &&@ encI64C max (numBlocks c) &&@
  (if CHECKPOINT_OFFSET_VERSION <=? protocolVersion then
     encI64C max (lastBlockReceivedBytes c) else enc_true) &&@
  (if CHECKPOINT_SEQ_ID_VERSION <=? protocolVersion then
     encI64C max (lastBlockSeqId c) &&@ encI64C max (lastBlockOffset c) else enc_true).
Definition encodeCheckpoints (protocolVersion : Z) (dest : list Z) (off max : Z)
    (checkpoints : list Checkpoint) : option (bool * list Z * Z) :=
  check 0 <=? max ;;
  (encU64 max (Zlen checkpoints) &&@
   enc_list (encodeCheckpoint protocolVersion max) checkpoints) dest off.

Definition encodeDone (protocolVersion : Z) (dest : list Z) (off max : Z) (d : DoneCmd)
    : option (bool * list Z * Z) :=
  (encI64C max (done_numBlocks d) &&@
   (if CHECKPOINT_OFFSET_VERSION <=? protocolVersion then encI64C max (done_bytesSent d)
    else enc_true)) dest off.

Definition encodeSize (dest : list Z) (off max totalNumBytes : Z) : option (bool * list Z * Z) :=
  encodeVarI64C dest max off totalNumBytes.

Definition encodeChunkInfo (max : Z) (c : Interval) : encoder :=
  encI64C max (start_ c) &&@ encI64C max (end_ c).

Definition encodeFileChunksInfo (dest : list Z) (off max : Z) (f : FileChunksInfo)
    : option (bool * list Z * Z) :=
  (encI64C max (seqId_ f) &&@ encStr max (fileName_ f) &&@ encI64C max (fileSize_ f) &&@
   encI64C max (Zlen (chunks_ f)) &&@ enc_list (encodeChunkInfo max) (chunks_ f)) dest off.

Definition maxEncodeLen (f : FileChunksInfo) : Z :=
  10 + 2 + Zlen (fileName_ f) + 10 + 10 + Zlen (chunks_ f) * kMaxChunkEncodeLen.

(** The loop from [startIndex] on; [oldOffset] is the offset at entry.  A file
    whose bound exceeds the buffer is skipped, the first that does not fit in
    what is left ends the loop. *)
Fixpoint encodeFileChunksInfoList_loop (oldOffset bufSize : Z) (l : list FileChunksInfo)
    (dest : list Z) (off numEncoded : Z) : option (Z * list Z * Z) :=
  match l with
  | [] => Some (numEncoded, dest, off)
  | f :: l =>
      let maxLength := maxEncodeLen f in
      if bufSize <? maxLength + oldOffset then
        encodeFileChunksInfoList_loop oldOffset bufSize l dest off numEncoded
      else if bufSize <=? maxLength + off then Some (numEncoded, dest, off)
      else
        let* (_, dest, off) := encodeFileChunksInfo dest off bufSize f in
        encodeFileChunksInfoList_loop oldOffset bufSize l dest off (numEncoded + 1)
  end.
Definition encodeFileChunksInfoList (dest : list Z) (off bufSize startIndex : Z)
    (l : list FileChunksInfo) : option (Z * list Z * Z) :=
  encodeFileChunksInfoList_loop off bufSize (drop (Z.to_nat startIndex) l) dest off 0.

Definition settingsFlags (s : Settings) : Z :=
  let flags := 0 in
  let flags := if enableChecksum s then Z.lor flags 1 else flags in
  let flags := if sendFileChunks s then Z.lor flags (Z.shiftl 1 1) else flags in
  let flags := if blockModeDisabled s then Z.lor flags (Z.shiftl 1 2) else flags in
  if enableHeartBeat s then Z.lor flags (Z.shiftl 1 3) else flags.

Definition encodeSettings (senderProtocolVersion : Z) (dest : list Z) (off max : Z)
    (s : Settings) : option (bool * list Z * Z) :=
  (encI64C max senderProtocolVersion &&@ encI64C max (readTimeoutMillis s) &&@
   encI64C max (writeTimeoutMillis s) &&@ encStr max (transferId s) &&@
   (if SETTINGS_FLAG_VERSION <=? senderProtocolVersion then enc_byte max (settingsFlags s)
    else enc_true)) dest off.

Definition encodeFooter (dest : list Z) (off max checksum : Z) : bool * list Z * Z :=
  encodeVarI64 dest max off checksum.

(** ** Decoders *)

Definition header_fields : record_decoder BlockDetails :=
  dec_field decodeString bd_set_fileName &&: dec_field decodeInt64C bd_set_seqId &&:
  dec_field decodeInt64C bd_set_dataSize &&: dec_field decodeInt64C bd_set_offset &&:
  dec_field decodeInt64C bd_set_fileSize.
Definition header_body (receiverProtocolVersion : Z) : record_decoder BlockDetails :=
  fun b obr =>
    let* (ok, b, br) := header_fields b obr in
    if ok && (HEADER_FLAG_AND_PREV_SEQ_ID_VERSION <=? receiverProtocolVersion) then
      match br with
      | [] => Some (false, b, obr)
      | flags :: br =>
          let b := bd_set_status (status_of_value (Z.land flags 7)) b in
          if hasPrevSeqId (allocationStatus b) then dec_field decodeInt64C bd_set_prevSeqId b br
          else Some (true, b, br)
      end
    else Some (ok, b, br).
Definition decodeHeader (receiverProtocolVersion : Z) (src : list Z) (off max : Z)
    (b : BlockDetails) : option (bool * BlockDetails * Z) :=
  run_decoder (header_body receiverProtocolVersion) src off max b.

(** The sequence id of a checkpoint: before 1.27 minus one took ten bytes,
    nine of them 0xff and one 0x01. *)
Definition checkpoint_seqId (protocolVersion : Z) : record_decoder Checkpoint := fun c br =>
  let* (ok, uv, br) := decodeUInt64 br in
  let uv := default 0 uv in
  let c := set_lastBlockSeqId (wrapS 64 uv) c in
  let '(ok, c, br) :=
    if ok && (protocolVersion <? VARINT_CHANGE) then
      if uv =? 0xffffffffffffffff then
        match br with
        | [] => (ok, c, br)
        | front :: br' => (front =? 1, set_lastBlockSeqId (-1) c, br')
        end
      else (ok, c, br)
    else (ok, c, br) in
  Some (ok, c, br).
Definition decodeCheckpoint (protocolVersion : Z) : record_decoder Checkpoint :=
  dec_field decodeInt32C set_port &&: dec_field decodeInt64C set_numBlocks &&:
  (if CHECKPOINT_OFFSET_VERSION <=? protocolVersion then
     dec_field decodeInt64C set_lastBlockReceivedBytes else dec_true) &&:
  (if CHECKPOINT_SEQ_ID_VERSION <=? protocolVersion then fun c br =>
     let* (ok, c, br) := (checkpoint_seqId protocolVersion &&:
                          dec_field decodeInt64C set_lastBlockOffset) c br in
     Some (ok, set_hasSeqId true c, br)
   else dec_true).

(** The loop over a count the peer sent: an iteration that succeeds consumes
    bytes, so more iterations than bytes cannot succeed. *)
Fixpoint decodeCheckpoints_loop (fuel : nat) (protocolVersion i len : Z)
    (checkpoints : list Checkpoint) (br : ByteRange)
    : option (bool * list Checkpoint * ByteRange) :=
  if i <? len then
    match fuel with
    | O => None
    | S fuel =>
        let* (ok, c, br) := decodeCheckpoint protocolVersion Checkpoint_default br in
        if ok then
          decodeCheckpoints_loop fuel protocolVersion (i + 1) len (checkpoints ++ [c]) br
        else Some (false, checkpoints, br)
    end
  else Some (true, checkpoints, br).
Definition checkpoints_body (protocolVersion : Z) : record_decoder (list Checkpoint) :=
  fun checkpoints br =>
    let* (ok, len, br) := decodeUInt64 br in
    if negb ok then Some (false, checkpoints, br) else
    let* len := len in
    decodeCheckpoints_loop (S (length br)) protocolVersion 0 len checkpoints br.
Definition decodeCheckpoints (protocolVersion : Z) (src : list Z) (off max : Z)
    (checkpoints : list Checkpoint) : option (bool * list Checkpoint * Z) :=
  run_decoder (checkpoints_body protocolVersion) src off max checkpoints.

Definition done_body (protocolVersion : Z) : record_decoder DoneCmd :=
  dec_field decodeInt64C (fun v d => mkDoneCmd v (done_bytesSent d)) &&:
  (if CHECKPOINT_OFFSET_VERSION <=? protocolVersion then
     dec_field decodeInt64C (fun v d => mkDoneCmd (done_numBlocks d) v) else dec_true).
Definition decodeDone (protocolVersion : Z) (src : list Z) (off max : Z) (d : DoneCmd)
    : option (bool * DoneCmd * Z) :=
  run_decoder (done_body protocolVersion) src off max d.

Definition decodeSize (src : list Z) (off max totalNumBytes : Z) : option (bool * Z * Z) :=
  run_decoder (dec_field decodeInt64C (fun v _ => v)) src off max totalNumBytes.

Definition decodeChunkInfo : record_decoder Interval :=
  dec_field decodeInt64C (fun v c => mkInterval v (end_ c)) &&:
  dec_field decodeInt64C (fun v c => mkInterval (start_ c) v).

Fixpoint decodeChunks_loop (fuel : nat) (i numChunks : Z) (f : FileChunksInfo) (br : ByteRange)
    : option (bool * FileChunksInfo * ByteRange) :=
  if i <? numChunks then
    match fuel with
    | O => None
    | S fuel =>
        let* (ok, c, br) := decodeChunkInfo (mkInterval 0 0) br in
        if ok then decodeChunks_loop fuel (i + 1) numChunks (addChunk c f) br
        else Some (false, f, br)
    end
  else Some (true, f, br).
(** The four fields are decoded into local variables, stored together. *)
Definition decodeFileChunksInfo : record_decoder FileChunksInfo := fun f br =>
  let* (ok, v, br) :=
    (dec_field decodeInt64C (fun v '(_, n, s, k) => (v, n, s, k)) &&:
     dec_field decodeString (fun v '(q, _, s, k) => (q, v, s, k)) &&:
     dec_field decodeInt64C (fun v '(q, n, _, k) => (q, n, v, k)) &&:
     dec_field decodeInt64C (fun v '(q, n, s, _) => (q, n, s, v))) (0, [], 0, 0) br in
  if negb ok then Some (false, f, br) else
  let '(q, n, s, numChunks) := v in
  let f := mkFileChunksInfo q n s (chunks_ f) in
  if numChunks <? 0 then Some (false, f, br) else
  decodeChunks_loop (S (length br)) 0 numChunks f br.

Fixpoint decodeFileChunksInfoList_loop (fuel : nat) (l : list FileChunksInfo) (br : ByteRange)
    : option (bool * list FileChunksInfo * ByteRange) :=
  match br with
  | [] => Some (true, l, br)
  | _ =>
      match fuel with
      | O => None
      | S fuel =>
          let* (ok, f, br) := decodeFileChunksInfo FileChunksInfo_default br in
          if ok then decodeFileChunksInfoList_loop fuel (l ++ [f]) br
          else Some (false, l, br)
      end
  end.
Definition fileChunksInfoList_body : record_decoder (list FileChunksInfo) := fun l obr =>
  let* (ok, l, br) := decodeFileChunksInfoList_loop (length obr) l obr in
  if ok then Some (true, l, br) else Some (false, l, obr).
Definition decodeFileChunksInfoList (src : list Z) (off dataSize : Z) (l : list FileChunksInfo)
    : option (bool * list FileChunksInfo * Z) :=
  run_decoder fileChunksInfoList_body src off dataSize l.

Definition decodeVersion (src : list Z) (off max senderProtocolVersion : Z)
    : option (bool * Z * Z) :=
  run_decoder (dec_field decodeInt32C (fun v _ => v)) src off max senderProtocolVersion.

Definition settings_body (protocolVersion : Z) : record_decoder Settings := fun s obr =>
  let* (ok, s, br) :=
    (dec_field decodeInt32C st_set_readTimeout &&: dec_field decodeInt32C st_set_writeTimeout &&:
     dec_field decodeString st_set_transferId) s obr in
  if ok && (SETTINGS_FLAG_VERSION <=? protocolVersion) then
    match br with
    | [] => Some (false, s, obr)
    | flags :: br => Some (true, st_set_flags flags s, br)
    end
  else Some (ok, s, br).
Definition decodeSettings (protocolVersion : Z) (src : list Z) (off max : Z) (s : Settings)
    : option (bool * Settings * Z) :=
  let s := mkSettings (readTimeoutMillis s) (writeTimeoutMillis s) (transferId s) false false
             (blockModeDisabled s) (enableHeartBeat s) in
  if off <? 0 then Some (false, s, off) else
  if max <=? off then Some (false, s, off) else
  run_decoder (settings_body protocolVersion) src off max s.

Definition decodeFooter (src : list Z) (off max checksum : Z) : option (bool * Z * Z) :=
  run_decoder (dec_field decodeInt32 (fun v _ => v)) src off max checksum.

Section fixed.
Context `{Host}.

Definition encodeAbort (dest : list Z) (off max : Z) (a : AbortCmd)
    : option (bool * list Z * Z) :=
  if max <? off + kAbortLength then Some (false, dest, off) else
  let '(ok, dest, off) := encodeInt32FixedLength dest max off (ab_protocolVersion a) in
  if negb ok then Some (false, dest, off) else
  let dest := <[Z.to_nat off := wrapU 8 (ab_errCode a)]> dest in
  let off := off + 1 in
  Some (encodeInt64FixedLength dest max off (ab_checkpoint a)).

(** [br.front()] after a successful four-byte read of at least thirteen. *)
Definition abort_body : record_decoder AbortCmd := fun a obr =>
  let* (ok, a, br) := dec_field decodeInt32FixedLength
    (fun v a => mkAbortCmd v (ab_errCode a) (ab_checkpoint a)) a obr in
  if negb ok then Some (false, a, obr) else
  match br with
  | [] => None
  | front :: br =>
      let a := mkAbortCmd (ab_protocolVersion a) front (ab_checkpoint a) in
      dec_field decodeInt64FixedLength
        (fun v a => mkAbortCmd (ab_protocolVersion a) (ab_errCode a) v) a br
  end.
Definition decodeAbort (src : list Z) (off max : Z) (a : AbortCmd)
    : option (bool * AbortCmd * Z) :=
  if max <? off + kAbortLength then Some (false, a, off) else
  run_decoder abort_body src off max a.

Definition encodeChunksCmd (dest : list Z) (off max : Z) (c : ChunksCmd)
    : option (bool * list Z * Z) :=
  (encFixed sizeof_int64 max (ck_bufSize c) &&@ encFixed sizeof_int64 max (ck_numFiles c))
    dest off.
Definition chunksCmd_body : record_decoder ChunksCmd :=
  dec_field decodeInt64FixedLength (fun v c => mkChunksCmd v (ck_numFiles c)) &&:
  dec_field decodeInt64FixedLength (fun v c => mkChunksCmd (ck_bufSize c) v).
Definition decodeChunksCmd (src : list Z) (off max : Z) (c : ChunksCmd)
    : option (bool * ChunksCmd * Z) :=
  run_decoder chunksCmd_body src off max c.

Definition encodeEncryptionSettings (dest : list Z) (off max : Z) (e : EncryptionSettings)
    : option (bool * list Z * Z) :=
  (encI64C max (es_type e) &&@ encStr max (es_iv e) &&@
   encFixed sizeof_int32 max (es_tagInterval e)) dest off.
(** The type is decoded into a local and stored on success only, cast to an
    enum of 32 bits. *)
Definition encryption_body : record_decoder EncryptionSettings := fun e br =>
  let* (ok, w, br) :=
    (dec_field decodeInt64C (fun v '(_, e) => (v, e)) &&:
     dec_field decodeString
       (fun v '(t, e) => (t, mkEncryptionSettings (es_type e) v (es_tagInterval e))) &&:
     dec_field decodeInt32FixedLength
       (fun v '(t, e) => (t, mkEncryptionSettings (es_type e) (es_iv e) v))) (0, e) br in
  let '(v, e) := w in
  Some (ok, if ok then mkEncryptionSettings (wrapU 32 v) (es_iv e) (es_tagInterval e) else e, br).
Definition decodeEncryptionSettings (src : list Z) (off max : Z) (e : EncryptionSettings)
    : option (bool * EncryptionSettings * Z) :=
  run_decoder encryption_body src off max e.
End fixed.

(** ** Properties *)

(** Version negotiation.  A requested version before 10 is refused;
    otherwise the result is the older of the two, whichever side computes it;
    and when the receiver answers with the version it negotiated, the sender
    that negotiates again with it settles on that same version. *)
Theorem negotiation_agrees sender receiver :
  10 <= sender -> 10 <= receiver ->
  negotiateProtocol sender receiver = Z.min sender receiver /\
  negotiateProtocol sender receiver = negotiateProtocol receiver sender /\
  negotiateProtocol (negotiateProtocol sender receiver) sender =
    negotiateProtocol sender receiver /\
  (forall old, old < 10 -> negotiateProtocol old receiver = 0).
Proof.
  intros Hs Hr. unfold negotiateProtocol.
  assert (forall x, 10 <= x -> (x <? 10) = false) as E by (intros; bool_to_prop; lia).
  rewrite !E by lia. split_and!; [lia..|]. intros old Ho.
  by replace (old <? 10) with true by (symmetry; bool_to_prop; lia).
Qed.

Lemma negotiation_agrees_witness : negotiateProtocol 32 27 = 27.
Proof. apply (negotiation_agrees 32 27); lia. Defined.
