(* ===== verification/ProtocolProps.v ===== *)
(** Correctness of the wire protocol.

    The bytes every message of [Protocol] stands for, that the encoders write
    exactly those bytes, that the decoders read them back on every host, that
    the decoders return on arbitrary input without leaving their buffer, and
    that the buffer sizes of [Protocol.h] are large enough. *)
From S2P Require Import Prelude Serialization ErrorCodes Chunks Protocol.

(** ** The bytes of each message *)

Definition nonneg64 (v : Z) : Prop := 0 <= v <= INT64_MAX.
Definition nonneg32 (v : Z) : Prop := 0 <= v <= INT32_MAX.

Definition headerBytes (v : Z) (b : BlockDetails) : list Z :=
  stringBytes (fileName b) ++ varU64 (seqId b) ++ varU64 (dataSize b) ++
  varU64 (blockOffset b) ++ varU64 (fileSize b) ++
  (if HEADER_FLAG_AND_PREV_SEQ_ID_VERSION <=? v then
     [status_value (allocationStatus b)] ++
     (if hasPrevSeqId (allocationStatus b) then varU64 (prevSeqId b) else [])
   else []).
Definition checkpointBytes (v : Z) (c : Checkpoint) : list Z :=
  varU64 (port c) ++ varU64 (numBlocks c) ++
  (if CHECKPOINT_OFFSET_VERSION <=? v then varU64 (lastBlockReceivedBytes c) else []) ++
  (if CHECKPOINT_SEQ_ID_VERSION <=? v then
     varU64 (lastBlockSeqId c) ++ varU64 (lastBlockOffset c) else []).
Definition checkpointsBytes (v : Z) (cs : list Checkpoint) : list Z :=
  varU64 (Zlen cs) ++ concat (checkpointBytes v <$> cs).
Definition doneBytes (v : Z) (d : DoneCmd) : list Z :=
  varU64 (done_numBlocks d) ++
  (if CHECKPOINT_OFFSET_VERSION <=? v then varU64 (done_bytesSent d) else []).
Definition chunkBytes (c : Interval) : list Z := varU64 (start_ c) ++ varU64 (end_ c).
Definition fileChunksBytes (f : FileChunksInfo) : list Z :=
  varU64 (seqId_ f) ++ stringBytes (fileName_ f) ++ varU64 (fileSize_ f) ++
  varU64 (Zlen (chunks_ f)) ++ concat (chunkBytes <$> chunks_ f).
Definition settingsBytes (v : Z) (s : Settings) : list Z :=
  varU64 (readTimeoutMillis s) ++ varU64 (writeTimeoutMillis s) ++ stringBytes (transferId s) ++
  (if SETTINGS_FLAG_VERSION <=? v then [settingsFlags s] else []).
Definition abortBytes (a : AbortCmd) : list Z :=
  fixedBytes sizeof_int32 (ab_protocolVersion a) ++ [ab_errCode a] ++
  fixedBytes sizeof_int64 (ab_checkpoint a).
Definition chunksCmdBytes (c : ChunksCmd) : list Z :=
  fixedBytes sizeof_int64 (ck_bufSize c) ++ fixedBytes sizeof_int64 (ck_numFiles c).
Definition encryptionBytes (e : EncryptionSettings) : list Z :=
  varU64 (es_type e) ++ stringBytes (es_iv e) ++ fixedBytes sizeof_int32 (es_tagInterval e).

(** The values a message can carry. *)
Definition wf_status (s : FileAllocationStatus) : Prop := 0 <= status_value s <= 4.
Definition wf_block (b : BlockDetails) : Prop :=
  Zlen (fileName b) <= INT64_MAX /\ nonneg64 (seqId b) /\ nonneg64 (dataSize b) /\
  nonneg64 (blockOffset b) /\ nonneg64 (fileSize b) /\ nonneg64 (prevSeqId b) /\
  exists n, allocationStatus b = status_of_value n /\ 0 <= n <= 4.
Definition wf_checkpoint (c : Checkpoint) : Prop :=
  nonneg32 (port c) /\ nonneg64 (numBlocks c) /\ nonneg64 (lastBlockSeqId c) /\
  nonneg64 (lastBlockOffset c) /\ nonneg64 (lastBlockReceivedBytes c).
Definition wf_chunk (c : Interval) : Prop := nonneg64 (start_ c) /\ nonneg64 (end_ c).
Definition wf_fileChunks (f : FileChunksInfo) : Prop :=
  nonneg64 (seqId_ f) /\ Zlen (fileName_ f) <= INT64_MAX /\ nonneg64 (fileSize_ f) /\
  Zlen (chunks_ f) <= INT64_MAX /\ Forall wf_chunk (chunks_ f).
Definition wf_settings (s : Settings) : Prop :=
  nonneg32 (readTimeoutMillis s) /\ nonneg32 (writeTimeoutMillis s) /\
  Zlen (transferId s) <= INT64_MAX.
Definition wf_encryption (e : EncryptionSettings) : Prop :=
  nonneg32 (es_type e) /\ Zlen (es_iv e) <= INT64_MAX /\ nonneg32 (es_tagInterval e).

(** What the receiver of a message has, given the value its variable had. *)
Definition received_block (v : Z) (b b0 : BlockDetails) : BlockDetails :=
  mkBlockDetails (fileName b) (seqId b) (fileSize b) (blockOffset b) (dataSize b)
    (if HEADER_FLAG_AND_PREV_SEQ_ID_VERSION <=? v then allocationStatus b
     else allocationStatus b0)
    (if (HEADER_FLAG_AND_PREV_SEQ_ID_VERSION <=? v) && hasPrevSeqId (allocationStatus b)
     then prevSeqId b else prevSeqId b0).
Definition received_checkpoint (v : Z) (c : Checkpoint) : Checkpoint :=
  mkCheckpoint (port c) (numBlocks c)
    (if CHECKPOINT_SEQ_ID_VERSION <=? v then lastBlockSeqId c else 0)
    (if CHECKPOINT_SEQ_ID_VERSION <=? v then lastBlockOffset c else 0)
    (if CHECKPOINT_OFFSET_VERSION <=? v then lastBlockReceivedBytes c else 0)
    (CHECKPOINT_SEQ_ID_VERSION <=? v).
Definition received_settings (v : Z) (s s0 : Settings) : Settings :=
  if SETTINGS_FLAG_VERSION <=? v then s
  else mkSettings (readTimeoutMillis s) (writeTimeoutMillis s) (transferId s) false false
         (blockModeDisabled s0) (enableHeartBeat s0).

(** ** Encoders write those bytes *)

Lemma encStr_encodes sz s : Encodes sz (encStr sz s) (stringBytes s).
Proof. apply encodeString_encodes. Qed.
Lemma encI64C_encodes sz v : nonneg64 v -> Encodes sz (encI64C sz v) (varU64 v).
Proof. apply encodeVarI64C_encodes. Qed.
Lemma encU64_encodes sz v : Encodes sz (encU64 sz v) (varU64 v).
Proof. apply encodeVarU64_encodes. Qed.
Lemma encFixed_encodes `{Host} sz n v : 0 < n -> inS (8 * n) v ->
  Encodes sz (encFixed n sz v) (fixedBytes n v).
Proof. apply encodeIntFixedLength_encodes. Qed.

Ltac encodes :=
  repeat first
    [ apply enc_and_encodes | apply enc_ite_encodes; intros _ | apply encStr_encodes
    | apply encI64C_encodes | apply encU64_encodes | apply encFixed_encodes
    | apply enc_byte_encodes | apply enc_true_encodes | apply enc_list_encodes ].

Lemma encodes_check sz e bs : 0 <= sz -> Encodes sz e bs ->
  Encodes sz (fun dest off => check 0 <=? sz ;; e dest off) bs.
Proof.
  intros H He dest off. replace (0 <=? sz) with true by (symmetry; bool_to_prop; lia). apply He.
Qed.

Lemma encodeHeader_encodes v sz b : 0 <= sz -> wf_block b ->
  Encodes sz (fun dest off => encodeHeader v dest off sz b) (headerBytes v b).
Proof.
  intros Hsz (? & ? & ? & ? & ? & ? & ?). unfold encodeHeader, headerBytes.
  apply encodes_check; [done|]. encodes; done.
Qed.

Lemma encodeCheckpoint_encodes v sz c : wf_checkpoint c ->
  Encodes sz (encodeCheckpoint v sz c) (checkpointBytes v c).
Proof.
  intros ([? ?] & ? & ? & ? & ?). unfold encodeCheckpoint, checkpointBytes, INT32_MAX in *.
  encodes; try done. unfold nonneg64, INT64_MAX. lia.
Qed.

Lemma encodeCheckpoints_encodes v sz cs : 0 <= sz -> Forall wf_checkpoint cs ->
  Encodes sz (fun dest off => encodeCheckpoints v dest off sz cs) (checkpointsBytes v cs).
Proof.
  intros Hsz Hcs. apply encodes_check; [done|]. encodes.
  eapply Forall_impl; [done|]. intros c. apply encodeCheckpoint_encodes.
Qed.

Lemma encodeDone_encodes v sz d : nonneg64 (done_numBlocks d) -> nonneg64 (done_bytesSent d) ->
  Encodes sz (fun dest off => encodeDone v dest off sz d) (doneBytes v d).
Proof. intros. unfold encodeDone, doneBytes. encodes; done. Qed.

Lemma encodeFileChunksInfo_encodes sz f : wf_fileChunks f ->
  Encodes sz (fun dest off => encodeFileChunksInfo dest off sz f) (fileChunksBytes f).
Proof.
  intros (? & ? & ? & ? & Hc). unfold encodeFileChunksInfo, fileChunksBytes.
  encodes; try done; [split; [lia|done]|].
  eapply Forall_impl; [done|]. intros c [? ?]. unfold encodeChunkInfo, chunkBytes. by encodes.
Qed.

Lemma encodeSettings_encodes v sz s : nonneg32 v -> wf_settings s ->
  Encodes sz (fun dest off => encodeSettings v dest off sz s) (varU64 v ++ settingsBytes v s).
Proof.
  intros [? ?] ([? ?] & [? ?] & ?). unfold encodeSettings, settingsBytes, INT32_MAX in *.
  encodes; unfold nonneg64, INT64_MAX; lia.
Qed.

(** ** Decoders read them back *)

Ltac reads_field := apply dec_field_reads.
(** Runs a sequence of field decoders on the bytes of its fields. *)
Ltac reads :=
  unfold dec_and, dec_field, dec_true; rewrite <- ?app_assoc, ?app_nil_r;
  repeat first
    [ rewrite decodeInt64C_decodes by (done || unfold INT64_MAX in *; lia)
    | rewrite decodeInt32C_decodes by (done || unfold INT32_MAX in *; lia)
    | rewrite decodeInt32_decodes by (done || lia)
    | rewrite decodeString_decodes by (unfold INT64_MAX in *; lia) ];
  try reflexivity.

Lemma header_fields_reads b :
  wf_block b ->
  Reads header_fields
    (stringBytes (fileName b) ++ varU64 (seqId b) ++ varU64 (dataSize b) ++
     varU64 (blockOffset b) ++ varU64 (fileSize b))
    (fun b0 => mkBlockDetails (fileName b) (seqId b) (fileSize b) (blockOffset b) (dataSize b)
       (allocationStatus b0) (prevSeqId b0)).
Proof.
  intros (Hn & ? & ? & ? & ? & ? & ?) s rest.
  apply (dec_and_reads _ _ _ _ (bd_set_fileName (fileName b))
    (bd_set_fileSize (fileSize b) ∘ bd_set_offset (blockOffset b) ∘
     bd_set_dataSize (dataSize b) ∘ bd_set_seqId (seqId b))).
  - reads_field. apply decodeString_decodes. unfold INT64_MAX in Hn. lia.
  - repeat apply dec_and_reads; reads_field; by apply decodeInt64C_decodes.
Qed.

Lemma status_of_value_flags n : 0 <= n <= 4 ->
  status_of_value (Z.land (status_value (status_of_value n)) 7) = status_of_value n.
Proof.
  intros Hn.
  assert (n = 0 \/ n = 1 \/ n = 2 \/ n = 3 \/ n = 4) as Hc by lia.
  by decompose [or] Hc; subst.
Qed.

Lemma header_body_reads v b : wf_block b ->
  Reads (header_body v) (headerBytes v b) (received_block v b).
Proof.
  intros Hwf s rest. pose proof (header_fields_reads b Hwf) as Hf.
  destruct Hwf as (_ & _ & _ & _ & _ & Hp & n & Hst & Hn).
  unfold header_body, headerBytes, received_block.
  set (tl := if HEADER_FLAG_AND_PREV_SEQ_ID_VERSION <=? v then _ else _).
  replace ((_ ++ _) ++ rest) with
    ((stringBytes (fileName b) ++ varU64 (seqId b) ++ varU64 (dataSize b) ++
      varU64 (blockOffset b) ++ varU64 (fileSize b)) ++ tl ++ rest) by (by rewrite <- !app_assoc).
  rewrite Hf. unfold tl. destruct (HEADER_FLAG_AND_PREV_SEQ_ID_VERSION <=? v); [|done].
  simpl. rewrite Hst, status_of_value_flags by done.
  destruct (hasPrevSeqId (status_of_value n)) eqn:Eh; [|done].
  unfold dec_field. rewrite decodeInt64C_decodes by done. done.
Qed.

Lemma checkpoint_seqId_reads v n : nonneg64 n ->
  Reads (checkpoint_seqId v) (varU64 n) (set_lastBlockSeqId n).
Proof.
  intros [? ?] s rest. unfold checkpoint_seqId, INT64_MAX in *.
  rewrite decodeUInt64_decodes by (unfold inU; lia). cbn [default].
  unfold id. rewrite wrapS_small by (unfold inS; lia).
  replace (n =? 0xffffffffffffffff) with false by (symmetry; bool_to_prop; lia).
  by destruct (true && (v <? VARINT_CHANGE)).
Qed.

Lemma decodeCheckpoint_reads v c : wf_checkpoint c ->
  forall rest, decodeCheckpoint v Checkpoint_default (checkpointBytes v c ++ rest) =
    Some (true, received_checkpoint v c, rest).
Proof.
  intros (? & ? & ? & ? & ?) rest. unfold decodeCheckpoint, checkpointBytes.
  set (f1 := if CHECKPOINT_OFFSET_VERSION <=? v then set_lastBlockReceivedBytes (lastBlockReceivedBytes c) else id).
  set (f2 := if CHECKPOINT_SEQ_ID_VERSION <=? v then
     set_hasSeqId true ∘ set_lastBlockOffset (lastBlockOffset c) ∘ set_lastBlockSeqId (lastBlockSeqId c) else id).
  replace (received_checkpoint v c) with
    ((f2 ∘ f1 ∘ set_numBlocks (numBlocks c) ∘ set_port (port c)) Checkpoint_default).
  2:{ unfold f1, f2, received_checkpoint, CHECKPOINT_OFFSET_VERSION, CHECKPOINT_SEQ_ID_VERSION.
      destruct (16 <=? v), (21 <=? v); done. }
  apply (dec_and_reads _ _ _ _ (set_port (port c)) (f2 ∘ f1 ∘ set_numBlocks (numBlocks c)));
    [reads_field; by apply decodeInt32C_decodes|].
  apply dec_and_reads; [reads_field; by apply decodeInt64C_decodes|].
  apply dec_and_reads; unfold f1, f2.
  - destruct (_ <=? v); [reads_field; by apply decodeInt64C_decodes|done].
  - destruct (CHECKPOINT_SEQ_ID_VERSION <=? v); [|done]. intros s rest'.
    erewrite (dec_and_reads _ _ _ _ (set_lastBlockSeqId (lastBlockSeqId c))
      (set_lastBlockOffset (lastBlockOffset c))); [done|by apply checkpoint_seqId_reads|].
    reads_field. by apply decodeInt64C_decodes.
Qed.

(** ** Loops over counts from the wire *)

Lemma checkpoint_seqId_SafeR v : SafeR (checkpoint_seqId v).
Proof.
  intros c br. unfold checkpoint_seqId.
  destruct (decodeUInt64_Safe br) as (ok & uv & br' & -> & Hs & _).
  assert (forall x, x :: tail br' = br' -> tail br' `suffix_of` br) as Ht.
  { intros x E. etrans; [|exact Hs]. rewrite <- E at 2. by exists [x]. }
  repeat case_goal; simplify_eq; do 3 eexists; (split; [done|]); try done; by eapply Ht.
Qed.

Lemma decodeCheckpoint_tail_SafeR v :
  SafeR (fun c br =>
     let* (ok, c, br) := (checkpoint_seqId v &&: dec_field decodeInt64C set_lastBlockOffset) c br in
     Some (ok, set_hasSeqId true c, br)).
Proof.
  intros c br.
  destruct (dec_and_SafeR _ _ (checkpoint_seqId_SafeR v)
    (dec_field_SafeR decodeInt64C set_lastBlockOffset decodeInt64C_Safe) c br)
    as (ok & c' & br' & -> & ?). eauto.
Qed.

Lemma decodeCheckpoint_SafeR v : SafeR (decodeCheckpoint v).
Proof.
  unfold decodeCheckpoint. pose proof (decodeCheckpoint_tail_SafeR v). auto 20 with wdt.
Qed.

Lemma decodeCheckpoint_StrictR v : StrictR (decodeCheckpoint v).
Proof.
  unfold decodeCheckpoint. pose proof (decodeCheckpoint_tail_SafeR v). auto 20 with wdt.
Qed.

(** More iterations than bytes cannot all succeed: the fuel is enough. *)
Lemma decodeCheckpoints_loop_safe fuel v i len cs br : (length br < fuel)%nat ->
  exists ok cs' br', decodeCheckpoints_loop fuel v i len cs br = Some (ok, cs', br') /\
    br' `suffix_of` br.
Proof.
  revert i cs br. induction fuel as [|fuel IH]; intros i cs br Hf; [lia|]. cbn [decodeCheckpoints_loop].
  case_goal; [|do 3 eexists; by split].
  destruct (decodeCheckpoint_SafeR v Checkpoint_default br) as (ok & c & br' & E & Hs).
  rewrite E. destruct ok; [|do 3 eexists; by split].
  apply decodeCheckpoint_StrictR in E.
  destruct (IH (i + 1) (cs ++ [c]) br' ltac:(lia)) as (ok' & cs' & br2 & -> & Hs2).
  do 3 eexists. split; [done|]. by etrans.
Qed.

Lemma checkpoints_body_SafeR v : SafeR (checkpoints_body v).
Proof.
  intros cs br. unfold checkpoints_body.
  destruct (decodeUInt64_Safe br) as (ok & len & br' & -> & Hs & Hv).
  destruct ok; simpl negb; cbv iota; [|eauto]. destruct (Hv eq_refl) as [n ->].
  destruct (decodeCheckpoints_loop_safe (S (length br')) v 0 n cs br' ltac:(lia))
    as (ok & cs' & br2 & -> & Hs2). do 3 eexists. split; [done|]. by etrans.
Qed.

Lemma decodeChunkInfo_SafeR : SafeR decodeChunkInfo.
Proof. unfold decodeChunkInfo. auto 20 with wdt. Qed.
Lemma decodeChunkInfo_StrictR : StrictR decodeChunkInfo.
Proof. unfold decodeChunkInfo. auto 20 with wdt. Qed.

Lemma decodeChunks_loop_safe fuel i n f br : (length br < fuel)%nat ->
  exists ok f' br', decodeChunks_loop fuel i n f br = Some (ok, f', br') /\ br' `suffix_of` br.
Proof.
  revert i f br. induction fuel as [|fuel IH]; intros i f br Hf; [lia|]. cbn [decodeChunks_loop].
  case_goal; [|do 3 eexists; by split].
  destruct (decodeChunkInfo_SafeR (mkInterval 0 0) br) as (ok & c & br' & E & Hs).
  rewrite E. destruct ok; [|do 3 eexists; by split].
  apply decodeChunkInfo_StrictR in E.
  destruct (IH (i + 1) (addChunk c f) br' ltac:(lia)) as (ok' & cs' & br2 & -> & Hs2).
  do 3 eexists. split; [done|]. by etrans.
Qed.

(** Everything a record of chunks needs: it returns, stays in its range, and
    consumes bytes when it succeeds. *)
Lemma decodeFileChunksInfo_safe f br :
  exists ok f' br', decodeFileChunksInfo f br = Some (ok, f', br') /\ br' `suffix_of` br /\
    (ok = true -> (length br' < length br)%nat).
Proof.
  unfold decodeFileChunksInfo.
  set (d := dec_and _ _).
  assert (SafeR d) as Hd by (unfold d; auto 20 with wdt).
  assert (StrictR d) as Hd' by (unfold d; auto 20 with wdt).
  destruct (Hd (0, [], 0, 0) br) as (ok & v & br' & E & Hs). rewrite E.
  destruct ok; simpl negb; cbv iota; [|do 3 eexists; by split_and!].
  apply Hd' in E. destruct v as [[[q n] s] k]. case_goal; [do 3 eexists; by split_and!|].
  destruct (decodeChunks_loop_safe (S (length br')) 0 k (mkFileChunksInfo q n s (chunks_ f)) br'
    ltac:(lia)) as (ok & f' & br2 & -> & Hs2).
  do 3 eexists. split_and!; [done|by etrans|]. apply suffix_length in Hs2. lia.
Qed.

Lemma decodeFileChunksInfoList_loop_safe fuel l br : (length br <= fuel)%nat ->
  exists ok l' br', decodeFileChunksInfoList_loop fuel l br = Some (ok, l', br') /\
    br' `suffix_of` br.
Proof.
  revert l br. induction fuel as [|fuel IH]; intros l [|b br] Hf; simpl in Hf;
    try lia; cbn [decodeFileChunksInfoList_loop]; try (do 3 eexists; by split).
  destruct (decodeFileChunksInfo_safe FileChunksInfo_default (b :: br))
    as (ok & f & br' & -> & Hs & Hlt).
  destruct ok; [|do 3 eexists; by split]. specialize (Hlt eq_refl). simpl in Hlt.
  destruct (IH (l ++ [f]) br' ltac:(lia)) as (ok' & l' & br2 & -> & Hs2).
  do 3 eexists. split; [done|]. by etrans.
Qed.

(** ** Every decoder is safe on arbitrary bytes *)

Lemma fileChunksInfoList_body_SafeR : SafeR fileChunksInfoList_body.
Proof.
  intros l br. unfold fileChunksInfoList_body.
  destruct (decodeFileChunksInfoList_loop_safe (length br) l br ltac:(lia))
    as (ok & l' & br' & -> & Hs). destruct ok; do 3 eexists; by split.
Qed.

Lemma header_fields_SafeR : SafeR header_fields.
Proof. unfold header_fields. auto 20 with wdt. Qed.

Lemma header_body_SafeR v : SafeR (header_body v).
Proof.
  intros b br. unfold header_body.
  destruct (header_fields_SafeR b br) as (ok & b' & br' & -> & Hs).
  destruct (_ && _); [|eauto]. destruct br' as [|flags br']; [do 3 eexists; by split|].
  assert (br' `suffix_of` br) as Hs' by (etrans; [by exists [flags]|done]).
  destruct (hasPrevSeqId _); [|eauto].
  destruct (dec_field_SafeR decodeInt64C bd_set_prevSeqId decodeInt64C_Safe
    (bd_set_status (status_of_value (Z.land flags 7)) b') br') as (ok2 & b2 & br2 & -> & Hs2).
  do 3 eexists. split; [done|]. by etrans.
Qed.

Lemma done_body_SafeR v : SafeR (done_body v).
Proof. unfold done_body. auto 20 with wdt. Qed.

Lemma settings_body_SafeR v : SafeR (settings_body v).
Proof.
  intros s br. unfold settings_body. set (d := dec_and _ _).
  assert (SafeR d) as Hd by (unfold d; auto 20 with wdt).
  destruct (Hd s br) as (ok & s' & br' & -> & Hs).
  destruct (_ && _); [|eauto]. destruct br' as [|flags br']; do 3 eexists; (split; [done|]); [done|].
  etrans; [by exists [flags]|done].
Qed.

Section fixed_safe.
Context `{Host}.

Lemma chunksCmd_body_SafeR : SafeR chunksCmd_body.
Proof.
  unfold chunksCmd_body, decodeInt64FixedLength.
  auto 20 using decodeIntFixedLength_Safe with wdt.
Qed.

Lemma encryption_body_SafeR : SafeR encryption_body.
Proof.
  intros e br. unfold encryption_body, decodeInt32FixedLength. set (d := dec_and _ _).
  assert (SafeR d) as Hd by (unfold d; auto 20 using decodeIntFixedLength_Safe with wdt).
  destruct (Hd (0, e) br) as (ok & [v e'] & br' & -> & Hs). do 3 eexists. by split.
Qed.

(** [br.front()] is a byte of the range: the guard left thirteen of them. *)
Lemma decodeAbort_safe src off max a : 0 <= off <= max -> max <= Zlen src ->
  exists ok a' off', decodeAbort src off max a = Some (ok, a', off') /\ off <= off' <= max.
Proof.
  intros Ho Hm. unfold decodeAbort, kAbortLength, sizeof_int32, sizeof_int64.
  destruct (max <? _) eqn:E; bool_to_prop; [do 3 eexists; (split; [done|]); lia|].
  unfold run_decoder, makeByteRange.
  replace (_ && _ && _ && _) with true by (symmetry; bool_to_prop; lia).
  set (br := slice off max src).
  assert (Zlen br = max - off) as Hl by (unfold br, slice; rewrite length_take, length_drop; lia).
  unfold abort_body, dec_field.
  unfold decodeInt32FixedLength, decodeInt64FixedLength, decodeIntFixedLength at 1.
  unfold sizeof_int32, sizeof_int64. replace (Zlen br <? 4) with false by (symmetry; bool_to_prop; lia).
  assert (4 < length br)%nat as Hl' by lia.
  destruct (_ <? 0); simpl negb; cbv iota.
  { do 3 eexists. split; [done|]. unfold offset. lia. }
  destruct (drop (Z.to_nat 4) br) as [|front br2] eqn:Ed.
  { apply (f_equal length) in Ed. rewrite length_drop in Ed. simpl in Ed. lia. }
  apply (f_equal length) in Ed. rewrite length_drop in Ed. simpl in Ed.
  destruct (decodeIntFixedLength_Safe 8 br2) as (ok & v & br3 & -> & Hs%suffix_length & _).
  do 3 eexists. split; [done|]. unfold offset. lia.
Qed.
End fixed_safe.

(** ** Reading back the other messages *)

Lemma length_checkpointBytes v c : (1 <= length (checkpointBytes v c))%nat.
Proof. unfold checkpointBytes. pose proof (Zlen_varU64 (port c)). rewrite length_app. lia. Qed.

Lemma length_concat_ge {A B} (f : A -> list B) l :
  (forall x, (1 <= length (f x))%nat) -> (length l <= length (concat (f <$> l)))%nat.
Proof.
  intros Hf. induction l as [|x l IH]; [done|].
  rewrite fmap_cons. cbn [concat length]. rewrite length_app. specialize (Hf x). lia.
Qed.

Lemma decodeCheckpoints_loop_reads v cs : Forall wf_checkpoint cs ->
  forall fuel i acc rest, (length cs <= fuel)%nat ->
  decodeCheckpoints_loop fuel v i (i + Zlen cs) acc (concat (checkpointBytes v <$> cs) ++ rest) =
    Some (true, acc ++ (received_checkpoint v <$> cs), rest).
Proof.
  induction 1 as [|c cs Hc Hcs IH]; intros fuel i acc rest Hf; simpl in Hf.
  - destruct fuel; simpl; replace (_ <? _) with false by (symmetry; bool_to_prop; lia);
      by rewrite app_nil_r.
  - destruct fuel as [|fuel]; [lia|]. cbn [decodeCheckpoints_loop].
    rewrite Zlen_cons. replace (_ <? _) with true by (symmetry; bool_to_prop; lia).
    rewrite !fmap_cons. cbn [concat]. rewrite <- app_assoc, decodeCheckpoint_reads by done.
    replace (i + (1 + Zlen cs)) with (i + 1 + Zlen cs) by lia.
    rewrite IH by lia. by rewrite <- app_assoc.
Qed.

Lemma checkpoints_body_reads v cs : Forall wf_checkpoint cs -> Zlen cs <= INT64_MAX ->
  Reads (checkpoints_body v) (checkpointsBytes v cs)
    (fun acc => acc ++ (received_checkpoint v <$> cs)).
Proof.
  intros Hcs Hl acc rest. unfold checkpoints_body, checkpointsBytes, INT64_MAX in *.
  rewrite <- app_assoc, decodeUInt64_decodes by (unfold inU; lia). simpl negb. cbv iota.
  apply (decodeCheckpoints_loop_reads v cs Hcs _ 0).
  pose proof (length_concat_ge (checkpointBytes v) cs (length_checkpointBytes v)).
  rewrite length_app. lia.
Qed.

Lemma done_body_reads v d : nonneg64 (done_numBlocks d) -> nonneg64 (done_bytesSent d) ->
  Reads (done_body v) (doneBytes v d)
    (fun d0 => mkDoneCmd (done_numBlocks d)
       (if CHECKPOINT_OFFSET_VERSION <=? v then done_bytesSent d else done_bytesSent d0)).
Proof.
  intros ? ? s rest. unfold done_body, doneBytes.
  destruct (_ <=? v); reads.
Qed.

Lemma length_chunkBytes c : (1 <= length (chunkBytes c))%nat.
Proof. unfold chunkBytes. pose proof (Zlen_varU64 (start_ c)). rewrite length_app. lia. Qed.

Lemma decodeChunks_loop_reads cs : Forall wf_chunk cs ->
  forall fuel i f rest, (length cs <= fuel)%nat ->
  decodeChunks_loop fuel i (i + Zlen cs) f (concat (chunkBytes <$> cs) ++ rest) =
    Some (true, with_chunks f (chunks_ f ++ cs), rest).
Proof.
  induction 1 as [|c cs Hc Hcs IH]; intros fuel i f rest Hf; simpl in Hf.
  - destruct fuel; simpl; replace (_ <? _) with false by (symmetry; bool_to_prop; lia);
      rewrite app_nil_r; by destruct f.
  - destruct fuel as [|fuel]; [lia|]. cbn [decodeChunks_loop].
    rewrite Zlen_cons. replace (_ <? _) with true by (symmetry; bool_to_prop; lia).
    rewrite !fmap_cons. cbn [concat]. rewrite <- app_assoc.
    destruct Hc as [? ?]. unfold chunkBytes at 1.
    unfold decodeChunkInfo. reads.
    replace (i + (1 + Zlen cs)) with (i + 1 + Zlen cs) by lia.
    rewrite IH by lia. simpl. destruct c, f. by rewrite <- app_assoc.
Qed.

Lemma decodeFileChunksInfo_reads f : wf_fileChunks f ->
  forall rest, decodeFileChunksInfo FileChunksInfo_default (fileChunksBytes f ++ rest) =
    Some (true, f, rest).
Proof.
  intros (? & Hn & ? & Hl & Hc) rest. unfold decodeFileChunksInfo, fileChunksBytes.
  set (d := dec_and _ _). unfold INT64_MAX in *.
  assert (Reads d (varU64 (seqId_ f) ++ stringBytes (fileName_ f) ++ varU64 (fileSize_ f) ++
    varU64 (Zlen (chunks_ f))) (fun _ => (seqId_ f, fileName_ f, fileSize_ f, Zlen (chunks_ f)))) as Hd.
  { intros [[[q n] s] k] r. unfold d. reads. }
  set (tl := concat _). replace ((_ ++ _) ++ rest) with
    ((varU64 (seqId_ f) ++ stringBytes (fileName_ f) ++ varU64 (fileSize_ f) ++
      varU64 (Zlen (chunks_ f))) ++ tl ++ rest) by (by rewrite <- !app_assoc).
  rewrite Hd. simpl negb. cbv iota.
  replace (Zlen (chunks_ f) <? 0) with false by (symmetry; bool_to_prop; lia).
  rewrite (decodeChunks_loop_reads (chunks_ f) Hc _ 0); [by destruct f|].
  pose proof (length_concat_ge chunkBytes (chunks_ f) length_chunkBytes).
  rewrite length_app. unfold tl. lia.
Qed.

Lemma decodeFileChunksInfoList_loop_reads fs : Forall wf_fileChunks fs ->
  forall fuel acc, (length (concat (fileChunksBytes <$> fs)) <= fuel)%nat ->
  decodeFileChunksInfoList_loop fuel acc (concat (fileChunksBytes <$> fs)) =
    Some (true, acc ++ fs, []).
Proof.
  induction 1 as [|f fs Hf Hfs IH]; intros fuel acc Hl.
  { destruct fuel; simpl; by rewrite app_nil_r. }
  rewrite fmap_cons in *. cbn [concat] in *. rewrite length_app in Hl.
  assert (1 <= length (fileChunksBytes f))%nat as Hp.
  { unfold fileChunksBytes. rewrite length_app. pose proof (Zlen_varU64 (seqId_ f)). lia. }
  destruct fuel as [|fuel]; [lia|]. pose proof (decodeFileChunksInfo_reads f Hf) as Hr.
  cbn [decodeFileChunksInfoList_loop].
  destruct (fileChunksBytes f ++ _) as [|b br] eqn:E.
  { apply (f_equal length) in E. rewrite length_app in E. simpl in E. lia. }
  rewrite <- E, Hr, IH by lia. by rewrite <- app_assoc.
Qed.

Lemma st_set_flags_settingsFlags s s0 :
  readTimeoutMillis s0 = readTimeoutMillis s -> writeTimeoutMillis s0 = writeTimeoutMillis s ->
  transferId s0 = transferId s -> st_set_flags (settingsFlags s) s0 = s.
Proof. destruct s as [? ? ? [] [] [] []], s0; simpl; intros -> -> ->; done. Qed.

Lemma settings_body_reads v s : wf_settings s ->
  Reads (settings_body v) (settingsBytes v s)
    (fun s0 => if SETTINGS_FLAG_VERSION <=? v then s else
       mkSettings (readTimeoutMillis s) (writeTimeoutMillis s) (transferId s)
         (enableChecksum s0) (sendFileChunks s0) (blockModeDisabled s0) (enableHeartBeat s0)).
Proof.
  intros (? & ? & ?) s0 rest. unfold settings_body, settingsBytes.
  destruct (SETTINGS_FLAG_VERSION <=? v); reads. simpl.
  by rewrite st_set_flags_settingsFlags.
Qed.

Section fixed_reads.
Context `{Host}.

Lemma decodeInt32FixedLength_decodes v : nonneg32 v ->
  Decodes decodeInt32FixedLength (fixedBytes sizeof_int32 v) v.
Proof.
  intros [? ?]. apply decodeIntFixedLength_decodes; unfold inS, sizeof_int32, INT32_MAX in *; lia.
Qed.
Lemma decodeInt64FixedLength_decodes v : nonneg64 v ->
  Decodes decodeInt64FixedLength (fixedBytes sizeof_int64 v) v.
Proof.
  intros [? ?]. apply decodeIntFixedLength_decodes; unfold inS, sizeof_int64, INT64_MAX in *; lia.
Qed.

Lemma abort_body_reads a : nonneg32 (ab_protocolVersion a) -> is_byte (ab_errCode a) ->
  nonneg64 (ab_checkpoint a) ->
  Reads abort_body (abortBytes a) (fun _ => a).
Proof.
  intros ? ? ? a0 rest. unfold abort_body, abortBytes, dec_field.
  rewrite <- !app_assoc, decodeInt32FixedLength_decodes by done. cbn [negb app].
  rewrite decodeInt64FixedLength_decodes by done. by destruct a.
Qed.

Lemma chunksCmd_body_reads c : nonneg64 (ck_bufSize c) -> nonneg64 (ck_numFiles c) ->
  Reads chunksCmd_body (chunksCmdBytes c) (fun _ => c).
Proof.
  intros ? ? c0 rest. unfold chunksCmd_body, chunksCmdBytes, dec_and, dec_field.
  rewrite <- !app_assoc, !decodeInt64FixedLength_decodes by done. by destruct c.
Qed.

Lemma encryption_body_reads e : wf_encryption e ->
  Reads encryption_body (encryptionBytes e) (fun _ => e).
Proof.
  intros ([? ?] & ? & ?) e0 rest. unfold encryption_body, encryptionBytes, INT32_MAX in *. reads.
  rewrite decodeInt32FixedLength_decodes by done. simpl.
  rewrite wrapU_small by (unfold inU; lia). by destruct e.
Qed.

Lemma encodeChunksCmd_encodes sz c : nonneg64 (ck_bufSize c) -> nonneg64 (ck_numFiles c) ->
  Encodes sz (fun dest off => encodeChunksCmd dest off sz c) (chunksCmdBytes c).
Proof.
  intros [? ?] [? ?]. unfold encodeChunksCmd, chunksCmdBytes, INT64_MAX in *.
  encodes; unfold inS, sizeof_int64; lia.
Qed.

Lemma encodeEncryptionSettings_encodes sz e : wf_encryption e ->
  Encodes sz (fun dest off => encodeEncryptionSettings dest off sz e) (encryptionBytes e).
Proof.
  intros ([? ?] & ? & [? ?]). unfold encodeEncryptionSettings, encryptionBytes, INT32_MAX in *.
  encodes; try done; unfold nonneg64, INT64_MAX, inS, sizeof_int32; lia.
Qed.

(** The guard of [encodeAbort] covers the three writes after it. *)
Lemma encodeAbort_encodes sz a : inS 32 (ab_protocolVersion a) -> is_byte (ab_errCode a) ->
  inS 64 (ab_checkpoint a) ->
  Encodes sz (fun dest off => encodeAbort dest off sz a) (abortBytes a).
Proof.
  intros ? Hb ? dest off Ho Hs. unfold encodeAbort, abortBytes.
  pose proof (Zlen_fixedBytes sizeof_int32 (ab_protocolVersion a) ltac:(done)) as H4.
  pose proof (Zlen_fixedBytes sizeof_int64 (ab_checkpoint a) ltac:(done)) as H8.
  unfold kAbortLength, sizeof_int32, sizeof_int64 in *.
  destruct (sz <? _) eqn:E; bool_to_prop.
  { do 3 eexists. split; [done|]. constructor; auto; zlen. }
  rewrite wrapU_small by done.
  pose proof (enc_and_encodes sz _ _ _ _ (encFixed_encodes sz 4 (ab_protocolVersion a)
    ltac:(lia) ltac:(done)) (enc_and_encodes sz _ _ _ _ (enc_byte_encodes sz (ab_errCode a))
    (encFixed_encodes sz 8 (ab_checkpoint a) ltac:(lia) ltac:(done)))) as He.
  destruct (He dest off Ho Hs) as (ok & d & o & E' & R). exists ok, d, o. split; [|exact R].
  destruct R as [|? ? Hfull]; [|exfalso; zlen].
  rewrite <- E'. unfold enc_and, enc_byte, encFixed, encodeInt32FixedLength,
    encodeInt64FixedLength, encodeIntFixedLength, sizeof_int32, sizeof_int64.
  replace (sz <? off + 4) with false by (symmetry; bool_to_prop; lia). simpl negb. cbv iota.
  by replace (sz <=? off + 4) with false by (symmetry; bool_to_prop; lia).
Qed.
End fixed_reads.

(** ** Sizes *)

(** A string whose length is below [2 ^ 14] has a length field of two bytes. *)
Lemma Zlen_stringBytes_le s : Zlen s < 2 ^ 14 -> Zlen (stringBytes s) <= 2 + Zlen s.
Proof.
  intros Hs. unfold stringBytes. rewrite Zlen_app.
  pose proof (Zlen_varU64_le (Zlen s) 2 ltac:(lia) ltac:(lia)). lia.
Qed.

Ltac var_sizes :=
  repeat match goal with
  | |- context [varU64 ?v] => lazymatch goal with
      | _ : 1 <= Zlen (varU64 v) <= 9 |- _ => fail
      | _ => pose proof (Zlen_varU64 v) end
  end.

Lemma Zlen_headerBytes v b : Zlen (fileName b) <= PATH_MAX ->
  Zlen (headerBytes v b) <= kMaxHeader - 4.
Proof.
  unfold PATH_MAX. intros Hn. pose proof (Zlen_stringBytes_le (fileName b) ltac:(lia)).
  unfold headerBytes, kMaxHeader, PATH_MAX.
  destruct (_ <=? v), (hasPrevSeqId (allocationStatus b)); rewrite ?Zlen_app; var_sizes; simpl; lia.
Qed.

Lemma Zlen_checkpointBytes v c :
  Zlen (checkpointBytes v c) + 10 <= getMaxLocalCheckpointLength v.
Proof.
  unfold checkpointBytes, getMaxLocalCheckpointLength, CHECKPOINT_OFFSET_VERSION,
    CHECKPOINT_SEQ_ID_VERSION.
  destruct (16 <=? v), (21 <=? v); rewrite ?Zlen_app; var_sizes; simpl; lia.
Qed.

Lemma Zlen_fileChunksBytes f : Zlen (fileName_ f) <= PATH_MAX ->
  Zlen (fileChunksBytes f) <= maxEncodeLen f.
Proof.
  unfold PATH_MAX. intros Hn. pose proof (Zlen_stringBytes_le (fileName_ f) ltac:(lia)).
  unfold fileChunksBytes, maxEncodeLen, kMaxChunkEncodeLen.
  assert (forall cs, Zlen (concat (chunkBytes <$> cs)) <= Zlen cs * 20) as Hc.
  { induction cs as [|c cs IH]; [done|]. rewrite fmap_cons. cbn [concat].
    rewrite Zlen_app, Zlen_cons. unfold chunkBytes at 1. rewrite Zlen_app. var_sizes. lia. }
  specialize (Hc (chunks_ f)). rewrite !Zlen_app. var_sizes. lia.
Qed.

(** ** Batches of file chunks *)

Lemma sublist_Forall {A} (P : A -> Prop) l k : sublist l k -> Forall P k -> Forall P l.
Proof. induction 1; inversion 1; subst; auto. Qed.

Definition fileChunksListBytes (fs : list FileChunksInfo) : list Z :=
  concat (fileChunksBytes <$> fs).

Lemma encodeFileChunksInfoList_loop_spec old sz l : Forall wf_fileChunks l ->
  Forall (fun f => Zlen (fileName_ f) <= PATH_MAX) l ->
  forall dest off n, 0 <= off <= sz -> sz <= Zlen dest ->
  exists sel,
    encodeFileChunksInfoList_loop old sz l dest off n =
      Some (n + Zlen sel, list_inserts (Z.to_nat off) (fileChunksListBytes sel) dest,
            off + Zlen (fileChunksListBytes sel)) /\
    sublist sel l /\ off + Zlen (fileChunksListBytes sel) <= sz /\
    (Forall (fun f => maxEncodeLen f + old <= sz) l -> sel = take (length sel) l).
Proof.
  intros Hwf Hn. induction Hwf as [|f l Hf Hl IH]; inversion Hn; subst; intros dest off n Ho Hs;
    cbn [encodeFileChunksInfoList_loop].
  { exists []. simpl. rewrite !Z.add_0_r. by split_and!; [..|constructor|lia|]. }
  destruct (sz <? maxEncodeLen f + old) eqn:E1; bool_to_prop.
  { destruct (IH ltac:(done) dest off n Ho Hs) as (sel & -> & Hsub & Hfit & _).
    exists sel. split_and!; [done|by apply sublist_cons|done|].
    intros Hall. inversion Hall; subst. lia. }
  destruct (sz <=? maxEncodeLen f + off) eqn:E2; bool_to_prop.
  { exists []. simpl. rewrite !Z.add_0_r. split_and!; [done|apply sublist_nil_l|lia|done]. }
  pose proof (Zlen_fileChunksBytes f ltac:(done)) as Hle.
  rewrite (Encodes_fits sz _ _ dest off (encodeFileChunksInfo_encodes sz f Hf)) by lia.
  destruct (IH ltac:(done) (list_inserts (Z.to_nat off) (fileChunksBytes f) dest)
    (off + Zlen (fileChunksBytes f)) (n + 1)) as (sel & -> & Hsub & Hfit & Hpre);
    [lia|by rewrite length_inserts|].
  exists (f :: sel). unfold fileChunksListBytes in *. rewrite fmap_cons. cbn [concat].
  rewrite list_inserts_app_l, Zlen_app, Zlen_cons. split_and!.
  - replace (Z.to_nat (off + _)) with (Z.to_nat off + length (fileChunksBytes f))%nat by lia.
    by rewrite !Z.add_assoc, (Nat.add_comm (length _)).
  - by apply sublist_skip.
  - lia.
  - intros Hall. inversion Hall; subst. simpl. f_equal. auto.
Qed.

(** Concrete messages. *)
Definition ex_block : BlockDetails := mkBlockDetails [97; 47; 98] 300 70000 16384 4096 EXISTS_TOO_SMALL 12.
Definition ex_checkpoint : Checkpoint := mkCheckpoint 22356 17 300 16384 1000 true.
Definition ex_settings : Settings := mkSettings 5000 6000 [116; 49] true false true true.
Definition ex_chunks : FileChunksInfo := mkFileChunksInfo 3 [97; 47; 98] 70000 [mkInterval 0 4096].
Definition ex_abort : AbortCmd := mkAbortCmd 32 6 17.
Definition ex_encryption : EncryptionSettings := mkEncryptionSettings 1 (replicate 16 7) 4096.
Definition ex_buffer : list Z := replicate 200 0.

Lemma ex_block_wf : wf_block ex_block.
Proof.
  unfold wf_block, nonneg64, INT64_MAX. split_and!; [eval_side..|exists 3]. split; [done|lia].
Qed.
Lemma ex_checkpoint_wf : wf_checkpoint ex_checkpoint.
Proof. eval_side. Qed.
Lemma ex_settings_wf : wf_settings ex_settings.
Proof. eval_side. Qed.
Lemma ex_chunks_wf : wf_fileChunks ex_chunks.
Proof.
  unfold wf_fileChunks, nonneg64, INT64_MAX. split_and!; [eval_side..|].
  constructor; [eval_side|constructor].
Qed.
Lemma ex_encryption_wf : wf_encryption ex_encryption.
Proof. eval_side. Qed.
#[local] Hint Resolve ex_block_wf ex_checkpoint_wf ex_settings_wf ex_chunks_wf ex_encryption_wf : core.

(** ** Properties *)

(** C37: A block header written by [encodeHeader] is read back by
    [decodeHeader] at the same protocol version: the sender's name, sequence
    id, sizes and offset, and from version 13 on the allocation status and,
    for a file whose size changes, the previous sequence id.  Reader and
    writer agree on where the header ends. *)
Theorem header_roundtrip v b b0 dest off max max' :
  wf_block b -> 0 <= off -> off + Zlen (headerBytes v b) <= max -> max <= Zlen dest ->
  off + Zlen (headerBytes v b) <= max' <= Zlen dest ->
  exists dest' off', encodeHeader v dest off max b = Some (true, dest', off') /\
    decodeHeader v dest' off max' b0 = Some (true, received_block v b b0, off').
Proof.
  intros Hb Ho Hm Hd Hm'.
  destruct (run_decoder_encoded _ _ _ _ _ dest off max' b0
    (encodeHeader_encodes v max b ltac:(lia) Hb) (header_body_reads v b Hb))
    as (dest' & E & _ & D); eauto.
Qed.

Lemma header_roundtrip_witness : exists dest' off',
  encodeHeader 32 ex_buffer 3 200 ex_block = Some (true, dest', off') /\
  decodeHeader 32 dest' 3 180 BlockDetails_default =
    Some (true, received_block 32 ex_block BlockDetails_default, off').
Proof. apply (header_roundtrip 32 ex_block); [auto|eval_side..]. Defined.

(** Checkpoints survive the wire at the version both sides
    use: the decoder appends one checkpoint per encoded one, with the fields
    of that version and [hasSeqId] set from version 21 on. *)
Theorem checkpoints_roundtrip v cs acc dest off max max' :
  Forall wf_checkpoint cs -> Zlen cs <= INT64_MAX -> 0 <= off ->
  off + Zlen (checkpointsBytes v cs) <= max -> max <= Zlen dest ->
  off + Zlen (checkpointsBytes v cs) <= max' <= Zlen dest ->
  exists dest' off', encodeCheckpoints v dest off max cs = Some (true, dest', off') /\
    decodeCheckpoints v dest' off max' acc =
      Some (true, acc ++ (received_checkpoint v <$> cs), off').
Proof.
  intros Hc Hl Ho Hm Hd Hm'.
  destruct (run_decoder_encoded _ _ _ _ _ dest off max' acc
    (encodeCheckpoints_encodes v max cs ltac:(lia) Hc) (checkpoints_body_reads v cs Hc Hl))
    as (dest' & E & _ & D); eauto.
Qed.

Lemma checkpoints_roundtrip_witness : exists dest' off',
  encodeCheckpoints 32 ex_buffer 1 200 [ex_checkpoint] = Some (true, dest', off') /\
  decodeCheckpoints 32 dest' 1 200 [] = Some (true, [] ++ [ex_checkpoint], off').
Proof. apply (checkpoints_roundtrip 32 [ex_checkpoint]); [auto|eval_side..]. Defined.

(** The settings exchange: the receiver first reads the sender's
    version, then the settings at that version from where the version ended,
    and has the sender's settings; before the flag version it has the
    timeouts and the transfer id, checksums and chunks off. *)
Theorem settings_roundtrip v s s0 v0 dest off max max' :
  nonneg32 v -> wf_settings s -> 0 <= off ->
  off + Zlen (varU64 v ++ settingsBytes v s) <= max -> max <= Zlen dest ->
  off + Zlen (varU64 v ++ settingsBytes v s) <= max' <= Zlen dest ->
  exists dest' off1 off2, encodeSettings v dest off max s = Some (true, dest', off2) /\
    decodeVersion dest' off max' v0 = Some (true, v, off1) /\
    decodeSettings v dest' off1 max' s0 = Some (true, received_settings v s s0, off2).
Proof.
  intros Hv Hs Ho Hm Hd Hm'. rewrite Zlen_app in *.
  pose proof (Zlen_varU64 (readTimeoutMillis s)).
  assert (1 <= Zlen (settingsBytes v s)) by (unfold settingsBytes; rewrite Zlen_app; lia).
  eexists _, (off + Zlen (varU64 v)), _.
  rewrite (Encodes_fits _ _ _ _ _ (encodeSettings_encodes v max s Hv Hs)) by zlen.
  split_and!; [done|..].
  - apply (run_decoder_written_more _ _ _ (fun _ => v)); [|lia|by rewrite Zlen_app].
    apply (dec_field_reads _ (fun v _ => v)), decodeInt32C_decodes, Hv.
  - unfold decodeSettings.
    replace (_ <? 0) with false by (symmetry; bool_to_prop; lia).
    replace (max' <=? _) with false by (symmetry; bool_to_prop; lia).
    rewrite list_inserts_app_l.
    replace (length (varU64 v) + Z.to_nat off)%nat with (Z.to_nat (off + Zlen (varU64 v))) by lia.
    rewrite (run_decoder_written _ _ _ _ _ _ _ (settings_body_reads v s Hs))
      by (rewrite ?length_inserts; lia).
    unfold received_settings. rewrite Zlen_app, Z.add_assoc. by destruct (_ <=? v).
Qed.

Lemma settings_roundtrip_witness : exists dest' off1 off2,
  encodeSettings 32 ex_buffer 1 200 ex_settings = Some (true, dest', off2) /\
  decodeVersion dest' 1 200 0 = Some (true, 32, off1) /\
  decodeSettings 32 dest' off1 200 (mkSettings 0 0 [] false false false false) =
    Some (true, ex_settings, off2).
Proof.
  apply (settings_roundtrip 32 ex_settings (mkSettings 0 0 [] false false false false));
    [eval_side|auto|eval_side..].
Defined.

(** A batch of file chunks: what [encodeFileChunksInfoList] put in
    the buffer is, in order, a selection of the list from [startIndex] on, as
    many entries as it reports; it stays in the buffer, and
    [decodeFileChunksInfoList] reads back exactly that selection.  When no
    entry is too large for the buffer, the selection is the prefix the caller
    skips with [startIndex + numEncoded]. *)
Theorem fileChunksInfoList_roundtrip l start acc dest off sz :
  Forall wf_fileChunks l -> Forall (fun f => Zlen (fileName_ f) <= PATH_MAX) l ->
  0 <= start -> 0 <= off <= sz -> sz <= Zlen dest ->
  exists dest' off' sel,
    encodeFileChunksInfoList dest off sz start l = Some (Zlen sel, dest', off') /\
    sublist sel (drop (Z.to_nat start) l) /\ off <= off' <= sz /\
    decodeFileChunksInfoList dest' off off' acc = Some (true, acc ++ sel, off') /\
    (Forall (fun f => maxEncodeLen f + off <= sz) l ->
     sel = take (length sel) (drop (Z.to_nat start) l)).
Proof.
  intros Hwf Hn Hst Ho Hs. unfold encodeFileChunksInfoList.
  destruct (encodeFileChunksInfoList_loop_spec off sz (drop (Z.to_nat start) l)
    (Forall_drop _ _ _ Hwf) (Forall_drop _ _ _ Hn) dest off 0 Ho Hs)
    as (sel & -> & Hsub & Hfit & Hpre).
  do 3 eexists. split_and!; [done|done|lia|lia| |].
  - unfold decodeFileChunksInfoList, run_decoder, makeByteRange. rewrite length_inserts.
    replace (_ && _ && _ && _) with true by (symmetry; bool_to_prop; lia).
    destruct (slice_list_inserts off (off + Zlen (fileChunksListBytes sel))
      (fileChunksListBytes sel) dest) as (rest & -> & Hr); [lia..|].
    assert (rest = []) as -> by (apply nil_length_inv; lia). rewrite app_nil_r.
    unfold fileChunksInfoList_body, fileChunksListBytes.
    rewrite decodeFileChunksInfoList_loop_reads; [|by eapply sublist_Forall, Forall_drop|done].
    do 2 f_equal. unfold offset. simpl. lia.
  - intros Hall. by apply Hpre, Forall_drop.
Qed.

Lemma fileChunksInfoList_roundtrip_witness : exists dest' off' sel,
  encodeFileChunksInfoList ex_buffer 0 200 0 [ex_chunks] = Some (Zlen sel, dest', off') /\
  sublist sel (drop (Z.to_nat 0) [ex_chunks]) /\ 0 <= off' <= 200 /\
  decodeFileChunksInfoList dest' 0 off' [] = Some (true, [] ++ sel, off') /\
  (Forall (fun f => maxEncodeLen f + 0 <= 200) [ex_chunks] ->
   sel = take (length sel) (drop (Z.to_nat 0) [ex_chunks])).
Proof.
  apply (fileChunksInfoList_roundtrip [ex_chunks] 0 []);
    [auto|constructor; [eval_side|constructor]|eval_side..].
Defined.

(** The fixed-layout messages do not depend on the byte order of
    either host: an abort, a chunks command or encryption settings written on
    one host are read back unchanged on any other. *)
Theorem fixed_messages_cross_host (h1 h2 : Host) a c e dest off max a0 c0 e0 :
  nonneg32 (ab_protocolVersion a) -> is_byte (ab_errCode a) -> nonneg64 (ab_checkpoint a) ->
  nonneg64 (ck_bufSize c) -> nonneg64 (ck_numFiles c) -> wf_encryption e ->
  0 <= off -> off + kAbortLength <= max -> off + kChunksCmdLen <= max ->
  off + Zlen (encryptionBytes e) <= max -> max <= Zlen dest ->
  (exists d, @encodeAbort h1 dest off max a = Some (true, d, off + kAbortLength) /\
     @decodeAbort h2 d off max a0 = Some (true, a, off + kAbortLength)) /\
  (exists d, @encodeChunksCmd h1 dest off max c = Some (true, d, off + kChunksCmdLen) /\
     @decodeChunksCmd h2 d off max c0 = Some (true, c, off + kChunksCmdLen)) /\
  (exists d o, @encodeEncryptionSettings h1 dest off max e = Some (true, d, o) /\
     @decodeEncryptionSettings h2 d off max e0 = Some (true, e, o)).
Proof.
  intros Ha1 Ha2 Ha3 Hc1 Hc2 He Ho Hma Hmc Hme Hd.
  assert (Zlen (abortBytes a) = kAbortLength) as La.
  { unfold abortBytes. rewrite !Zlen_app. rewrite !Zlen_fixedBytes by done. done. }
  assert (Zlen (chunksCmdBytes c) = kChunksCmdLen) as Lc.
  { unfold chunksCmdBytes. rewrite !Zlen_app. rewrite !Zlen_fixedBytes by done. done. }
  split_and!.
  - destruct (run_decoder_encoded _ max _ _ _ dest off max a0
      (@encodeAbort_encodes h1 max a ltac:(unfold nonneg32, INT32_MAX, inS in *; lia) Ha2
        ltac:(unfold nonneg64, INT64_MAX, inS in *; lia))
      (@abort_body_reads h2 a Ha1 Ha2 Ha3)) as (d & E & _ & D); [lia..|].
    rewrite La in *. eexists. split; [exact E|]. unfold decodeAbort.
    by replace (max <? _) with false by (symmetry; bool_to_prop; lia).
  - destruct (run_decoder_encoded _ max _ _ _ dest off max c0
      (@encodeChunksCmd_encodes h1 max c Hc1 Hc2) (@chunksCmd_body_reads h2 c Hc1 Hc2))
      as (d & E & _ & D); [lia..|]. rewrite Lc in *. eauto.
  - destruct (run_decoder_encoded _ max _ _ _ dest off max e0
      (@encodeEncryptionSettings_encodes h1 max e He) (@encryption_body_reads h2 e He))
      as (d & E & _ & D); [lia..|]. eauto.
Qed.

Lemma fixed_messages_cross_host_witness : exists d,
  @encodeAbort littleHost ex_buffer 1 200 ex_abort = Some (true, d, 14) /\
  @decodeAbort bigHost d 1 200 (mkAbortCmd 0 0 0) = Some (true, ex_abort, 14).
Proof.
  apply (fixed_messages_cross_host littleHost bigHost ex_abort (mkChunksCmd 1024 3) ex_encryption
    ex_buffer 1 200 (mkAbortCmd 0 0 0) (mkChunksCmd 0 0) (mkEncryptionSettings 0 [] 0));
    first [by auto | eval_side].
Defined.

(** The remaining messages: the block and byte counts of a done
    command, the total size and the checksum of a footer (any 32-bit value,
    negative ones included) are read back. *)
Theorem done_size_footer_roundtrip v d n crc dest off max d0 n0 crc0 :
  nonneg64 (done_numBlocks d) -> nonneg64 (done_bytesSent d) -> nonneg64 n -> inS 32 crc ->
  0 <= off -> off + 18 <= max -> max <= Zlen dest ->
  (exists b o, encodeDone v dest off max d = Some (true, b, o) /\
     decodeDone v b off max d0 = Some (true, mkDoneCmd (done_numBlocks d)
       (if CHECKPOINT_OFFSET_VERSION <=? v then done_bytesSent d else done_bytesSent d0), o)) /\
  (exists b o, encodeSize dest off max n = Some (true, b, o) /\
     decodeSize b off max n0 = Some (true, n, o)) /\
  (exists b o, encodeFooter dest off max crc = (true, b, o) /\
     decodeFooter b off max crc0 = Some (true, crc, o)).
Proof.
  intros Hd1 Hd2 Hn Hc Ho Hm Hd.
  assert (Zlen (doneBytes v d) <= 18).
  { unfold doneBytes. destruct (_ <=? v); rewrite Zlen_app; var_sizes; simpl; lia. }
  pose proof (Zlen_varU64 n). pose proof (Zlen_varU64 (encodeZigZag crc)).
  split_and!.
  - destruct (run_decoder_encoded _ max _ _ _ dest off max d0
      (encodeDone_encodes v max d Hd1 Hd2) (done_body_reads v d Hd1 Hd2))
      as (b & E & _ & D); [lia..|]. eauto.
  - destruct (run_decoder_encoded _ max _ _ (fun _ => n) dest off max n0
      (encodeVarI64C_encodes max n Hn) (dec_field_reads _ (fun v _ => v) _ _ (decodeInt64C_decodes n Hn)))
      as (b & E & _ & D); [lia..|]. eauto.
  - destruct (run_decoder_encoded _ max _ _ (fun _ => crc) dest off max crc0
      (encodeVarI64_encodes max crc) (dec_field_reads _ (fun v _ => v) _ _ (decodeInt32_decodes crc Hc)))
      as (b & E & _ & D); [lia..|]. injection E as E. eauto.
Qed.

Lemma done_size_footer_roundtrip_witness : exists b o,
  encodeFooter ex_buffer 1 200 (-5) = (true, b, o) /\ decodeFooter b 1 200 0 = Some (true, -5, o).
Proof.
  apply (done_size_footer_roundtrip 32 (mkDoneCmd 3 4) 70000 (-5) ex_buffer 1 200
    (mkDoneCmd 0 0) 0 0); eval_side.
Defined.

(** What a decoder guarantees on arbitrary bytes. *)
Definition decodes_safely {S} (d : list Z -> Z -> Z -> S -> option (bool * S * Z)) : Prop :=
  forall src off max s, 0 <= off <= max -> max <= Zlen src ->
  exists ok s' off', d src off max s = Some (ok, s', off') /\ off <= off' <= max.

Lemma decodes_safely_SafeR {S} (d : record_decoder S) : SafeR d -> decodes_safely (run_decoder d).
Proof. intros H src off max s. by apply run_decoder_SafeR. Qed.


(** An encoder called with [max] as its limit writes only between
    its offset and [max], also when the message does not fit. *)
Theorem encoders_stay_in_buffer (h : Host) v max b cs d n f s crc a c e :
  0 <= max -> wf_block b -> Forall wf_checkpoint cs ->
  nonneg64 (done_numBlocks d) -> nonneg64 (done_bytesSent d) -> nonneg64 n ->
  wf_fileChunks f -> nonneg32 v -> wf_settings s ->
  inS 32 (ab_protocolVersion a) -> is_byte (ab_errCode a) -> inS 64 (ab_checkpoint a) ->
  nonneg64 (ck_bufSize c) -> nonneg64 (ck_numFiles c) -> wf_encryption e ->
  within max (fun dest off => encodeHeader v dest off max b) /\
  within max (fun dest off => encodeCheckpoints v dest off max cs) /\
  within max (fun dest off => encodeDone v dest off max d) /\
  within max (fun dest off => encodeSize dest off max n) /\
  within max (fun dest off => encodeFileChunksInfo dest off max f) /\
  within max (fun dest off => encodeSettings v dest off max s) /\
  within max (fun dest off => Some (encodeFooter dest off max crc)) /\
  within max (fun dest off => encodeAbort dest off max a) /\
  within max (fun dest off => encodeChunksCmd dest off max c) /\
  within max (fun dest off => encodeEncryptionSettings dest off max e).
Proof.
  intros. split_and!; eapply Encodes_within.
  - by apply encodeHeader_encodes.
  - by apply encodeCheckpoints_encodes.
  - by apply encodeDone_encodes.
  - by apply encodeVarI64C_encodes.
  - by apply encodeFileChunksInfo_encodes.
  - by apply encodeSettings_encodes.
  - apply encodeVarI64_encodes.
  - by apply encodeAbort_encodes.
  - by apply encodeChunksCmd_encodes.
  - by apply encodeEncryptionSettings_encodes.
Qed.

Lemma encoders_stay_in_buffer_witness :
  within 100 (fun dest off => encodeHeader 32 dest off 100 ex_block).
Proof.
  apply (encoders_stay_in_buffer littleHost 32 100 ex_block [ex_checkpoint] (mkDoneCmd 3 4) 7
    ex_chunks ex_settings (-5) ex_abort (mkChunksCmd 1024 3) ex_encryption);
    first [by auto | eval_side].
Defined.

(** The buffer sizes of [Protocol.h] are enough for what the
    threads put in them, after the command byte (and, for a header, its
    two-byte length): so no encoding of a well-formed message with a path of
    at most [PATH_MAX] bytes fails for lack of room. *)
Theorem buffer_sizes_sufficient v b c d n f s e :
  Zlen (fileName b) <= PATH_MAX -> Zlen (fileName_ f) <= PATH_MAX ->
  Zlen (transferId s) <= kMaxTransferIdLength -> Zlen (es_iv e) <= kAESBlockSize ->
  nonneg32 v -> 0 <= es_type e < 128 ->
  1 + sizeof_int16 + Zlen (headerBytes v b) <= kMaxHeader /\
  Zlen (checkpointsBytes v [c]) <= getMaxLocalCheckpointLength v /\
  1 + Zlen (doneBytes v d) <= kMaxDone /\
  1 + Zlen (varU64 n) <= kMaxSize /\
  Zlen (fileChunksBytes f) <= maxEncodeLen f /\
  Zlen (varU64 v ++ settingsBytes v s) <= kMaxVersion + kMaxSettings /\
  1 + Zlen (encryptionBytes e) <= kEncryptionCmdLen.
Proof.
  intros Hb Hf Ht Hi Hv He.
  pose proof (Zlen_headerBytes v b Hb). pose proof (Zlen_fileChunksBytes f Hf).
  pose proof (Zlen_checkpointBytes v c). unfold sizeof_int16.
  split_and!; try lia.
  - unfold checkpointsBytes.
    change (concat (checkpointBytes v <$> [c])) with (checkpointBytes v c ++ []).
    rewrite app_nil_r, Zlen_app. var_sizes. lia.
  - unfold doneBytes, kMaxDone. destruct (_ <=? v); rewrite Zlen_app; var_sizes; simpl; lia.
  - unfold kMaxSize. var_sizes. lia.
  - unfold kMaxVersion, kMaxSettings, settingsBytes, kMaxTransferIdLength in *.
    pose proof (Zlen_stringBytes_le (transferId s) ltac:(lia)).
    destruct (_ <=? v); rewrite !Zlen_app; var_sizes; simpl; lia.
  - unfold encryptionBytes, kEncryptionCmdLen, kAESBlockSize, sizeof_int32 in *.
    pose proof (Zlen_varU64_le (es_type e) 1 ltac:(lia) ltac:(lia)).
    unfold stringBytes. pose proof (Zlen_varU64_le (Zlen (es_iv e)) 1 ltac:(lia) ltac:(lia)).
    rewrite !Zlen_app, Zlen_fixedBytes by done. lia.
Qed.

Lemma buffer_sizes_sufficient_witness :
  1 + sizeof_int16 + Zlen (headerBytes 32 ex_block) <= kMaxHeader.
Proof.
  apply (buffer_sizes_sufficient 32 ex_block ex_checkpoint (mkDoneCmd 3 4) 7 ex_chunks ex_settings
    ex_encryption); eval_side.
Defined.

(** The checkpoint of a version between 21 and 26 that has no block
    in progress: those versions wrote minus one as nine 0xff bytes and an
    0x01, and the decoder reads minus one, so the sender does not take it for
    a partial block. *)
Theorem legacy_checkpoint v p n r o :
  CHECKPOINT_SEQ_ID_VERSION <= v < VARINT_CHANGE ->
  nonneg32 p -> nonneg64 n -> nonneg64 r -> nonneg64 o ->
  forall rest, decodeCheckpoint v Checkpoint_default
    (varU64 p ++ varU64 n ++ varU64 r ++ (replicate 9 0xff ++ [1]) ++ varU64 o ++ rest) =
    Some (true, mkCheckpoint p n (-1) o r true, rest) /\
    hasPartialBlockInfo (mkCheckpoint p n (-1) o r true) = false.
Proof.
  intros Hv Hp Hn Hr Ho rest. split; [|done].
  unfold decodeCheckpoint, CHECKPOINT_SEQ_ID_VERSION, CHECKPOINT_OFFSET_VERSION, VARINT_CHANGE in *.
  replace (16 <=? v) with true by (symmetry; bool_to_prop; lia).
  replace (21 <=? v) with true by (symmetry; bool_to_prop; lia).
  assert (forall c, checkpoint_seqId v c ((replicate 9 0xff ++ [1]) ++ varU64 o ++ rest) =
    Some (true, set_lastBlockSeqId (-1) c, varU64 o ++ rest)) as Hseq.
  { intros c. unfold checkpoint_seqId, VARINT_CHANGE.
    change (replicate 9 0xff) with (varU64 (2 ^ 64 - 1)). rewrite <- app_assoc.
    rewrite decodeUInt64_decodes by done. cbn [default app].
    replace (v <? 27) with true by (symmetry; bool_to_prop; lia).
    done. }
  unfold dec_and, dec_field. rewrite decodeInt32C_decodes, !decodeInt64C_decodes by done.
  rewrite Hseq, decodeInt64C_decodes by done. done.
Qed.

Lemma legacy_checkpoint_witness :
  decodeCheckpoint 25 Checkpoint_default
    (varU64 22356 ++ varU64 17 ++ varU64 0 ++ (replicate 9 0xff ++ [1]) ++ varU64 0 ++ []) =
    Some (true, mkCheckpoint 22356 17 (-1) 0 0 true, []) /\
  hasPartialBlockInfo (mkCheckpoint 22356 17 (-1) 0 0 true) = false.
Proof. apply (legacy_checkpoint 25); eval_side. Defined.
