(* ===== verification/LogEntries.v ===== *)
(** The entries of the transfer log: [LogEncoderDecoder] of
    [util/TransferLogManager.h] and [.cpp].

    An entry is a two-byte size in the host's byte order, a type byte and the
    fields.  The encoders take the time stamp the clock returned, the buffer
    and its size, and return the size of the entry (-1: no room) and the
    buffer; [None] is a failed [WDT_CHECK].  The decoders take the bytes after
    the type byte and answer whether the entry was well formed, with the
    fields. *)
From S2P Require Import Prelude Serialization ErrorCodes Chunks Protocol ProtocolProps.

(** ** Constants *)

Definition WLOG_VERSION : Z := 2.
Definition kMaxEntryLength : Z := 2 + 1 + 10 + PATH_MAX + 2 * 10.

Inductive EntryType :=
  | HEADER | FILE_CREATION | BLOCK_WRITE | FILE_INVALIDATION | FILE_RESIZE
  | DIRECTORY_INVALIDATION.
#[global] Instance EntryType_eq_dec : EqDecision EntryType.
Proof. solve_decision. Defined.
Definition EntryType_value (t : EntryType) : Z :=
  match t with
  | HEADER => 0 | FILE_CREATION => 1 | BLOCK_WRITE => 2 | FILE_INVALIDATION => 3
  | FILE_RESIZE => 4 | DIRECTORY_INVALIDATION => 5
  end.

(** The fields of each entry. *)
Record LogHeader := mkLogHeader {
  lh_timestamp : Z; lh_version : Z; lh_recoveryId : list Z; lh_senderIp : list Z; lh_config : Z }.
Record FileCreation := mkFileCreation {
  fc_timestamp : Z; fc_fileName : list Z; fc_seqId : Z; fc_fileSize : Z }.
Record BlockWrite := mkBlockWrite {
  bw_timestamp : Z; bw_seqId : Z; bw_offset : Z; bw_blockSize : Z }.
Record FileResize := mkFileResize { fr_timestamp : Z; fr_seqId : Z; fr_fileSize : Z }.
Record FileInvalidation := mkFileInvalidation { fi_timestamp : Z; fi_seqId : Z }.

(** ** Encoders *)

Section encoders.
Context `{Host}.

(** The frame all entries but the header share: room for the size, the type
    byte, the fields, then the size. *)
Definition encodeEntry (type : EntryType) (fields : encoder) (dest : list Z) (max : Z)
    : option (Z * list Z) :=
  let size := sizeof_int16 in
  check size + 1 <=? max ;;
  let dest := <[Z.to_nat size := EntryType_value type]> dest in
  let size := size + 1 in
  let* (ok, dest, size) := fields dest size in
  if negb ok then Some (-1, dest) else
  let dest := list_inserts 0
    (storeUnaligned sizeof_int16 (wrapS 16 (size - sizeof_int16))) dest in
  Some (size, dest).

(** The header is written through a pointer past the size. *)
Definition encodeLogHeader (timestamp : Z) (dest : list Z) (max : Z)
    (recoveryId senderIp : list Z) (config : Z) : option (Z * list Z) :=
  let ptr := drop (Z.to_nat sizeof_int16) dest in
  let max := max - sizeof_int16 in
  let size := 0 in
  check 1 <=? max ;;
  let ptr := <[Z.to_nat size := EntryType_value HEADER]> ptr in
  let size := size + 1 in
  let* (ok, ptr, size) :=
    (encI64C max timestamp &&@ encI64C max WLOG_VERSION &&@ encStr max recoveryId &&@
     encStr max senderIp &&@ encI64C max config) ptr size in
  let dest := take (Z.to_nat sizeof_int16) dest ++ ptr in
  if negb ok then Some (-1, dest) else
  let dest := list_inserts 0 (storeUnaligned sizeof_int16 (wrapS 16 size)) dest in
  Some (size + sizeof_int16, dest).

Definition encodeFileCreationEntry (timestamp : Z) (dest : list Z) (max : Z)
    (fileName : list Z) (seqId fileSize : Z) : option (Z * list Z) :=
  encodeEntry FILE_CREATION
    (encI64C max timestamp &&@ encStr max fileName &&@ encI64C max seqId &&@
     encI64C max fileSize) dest max.

Definition encodeBlockWriteEntry (timestamp : Z) (dest : list Z) (max : Z)
    (seqId offset blockSize : Z) : option (Z * list Z) :=
  encodeEntry BLOCK_WRITE
    (encI64C max timestamp &&@ encI64C max seqId &&@ encI64C max offset &&@
     encI64C max blockSize) dest max.

Definition encodeFileResizeEntry (timestamp : Z) (dest : list Z) (max : Z)
    (seqId fileSize : Z) : option (Z * list Z) :=
  encodeEntry FILE_RESIZE
    (encI64C max timestamp &&@ encI64C max seqId &&@ encI64C max fileSize) dest max.

Definition encodeFileInvalidationEntry (timestamp : Z) (dest : list Z) (max : Z)
    (seqId : Z) : option (Z * list Z) :=
  encodeEntry FILE_INVALIDATION
    (encI64C max timestamp &&@ encI64C max seqId) dest max.

Definition encodeDirectoryInvalidationEntry (timestamp : Z) (dest : list Z) (max : Z)
    : option (Z * list Z) :=
  encodeEntry DIRECTORY_INVALIDATION (encI64C max timestamp) dest max.
End encoders.

(** ** Decoders *)

(** [makeByteRange(buf, size)], the fields, and nothing left over.  The size
    is an [int16_t]. *)
Definition decodeEntry {S} (d : record_decoder S) (buf : list Z) (size : Z) (s : S)
    : option (bool * S) :=
  let* br := makeByteRange buf (wrapS 16 size) 0 in
  let* (ok, s, br) := d s br in
  if negb ok || negb (Zlen br =? 0) then Some (false, s) else Some (true, s).

Definition logHeader_body : record_decoder LogHeader :=
  dec_field decodeInt64C (fun v h => mkLogHeader v (lh_version h) (lh_recoveryId h)
    (lh_senderIp h) (lh_config h)) &&:
  dec_field decodeInt32C (fun v h => mkLogHeader (lh_timestamp h) v (lh_recoveryId h)
    (lh_senderIp h) (lh_config h)) &&:
  dec_field decodeString (fun v h => mkLogHeader (lh_timestamp h) (lh_version h) v
    (lh_senderIp h) (lh_config h)) &&:
  dec_field decodeString (fun v h => mkLogHeader (lh_timestamp h) (lh_version h)
    (lh_recoveryId h) v (lh_config h)) &&:
  dec_field decodeInt64C (fun v h => mkLogHeader (lh_timestamp h) (lh_version h)
    (lh_recoveryId h) (lh_senderIp h) v).
Definition decodeLogHeader (buf : list Z) (size : Z) (h : LogHeader) : option (bool * LogHeader) :=
  decodeEntry logHeader_body buf size h.

Definition fileCreation_body : record_decoder FileCreation :=
  dec_field decodeInt64C (fun v e => mkFileCreation v (fc_fileName e) (fc_seqId e) (fc_fileSize e)) &&:
  dec_field decodeString (fun v e => mkFileCreation (fc_timestamp e) v (fc_seqId e) (fc_fileSize e)) &&:
  dec_field decodeInt64C (fun v e => mkFileCreation (fc_timestamp e) (fc_fileName e) v (fc_fileSize e)) &&:
  dec_field decodeInt64C (fun v e => mkFileCreation (fc_timestamp e) (fc_fileName e) (fc_seqId e) v).
Definition decodeFileCreationEntry (buf : list Z) (size : Z) (e : FileCreation)
    : option (bool * FileCreation) :=
  decodeEntry fileCreation_body buf size e.

Definition blockWrite_body : record_decoder BlockWrite :=
  dec_field decodeInt64C (fun v e => mkBlockWrite v (bw_seqId e) (bw_offset e) (bw_blockSize e)) &&:
  dec_field decodeInt64C (fun v e => mkBlockWrite (bw_timestamp e) v (bw_offset e) (bw_blockSize e)) &&:
  dec_field decodeInt64C (fun v e => mkBlockWrite (bw_timestamp e) (bw_seqId e) v (bw_blockSize e)) &&:
  dec_field decodeInt64C (fun v e => mkBlockWrite (bw_timestamp e) (bw_seqId e) (bw_offset e) v).
Definition decodeBlockWriteEntry (buf : list Z) (size : Z) (e : BlockWrite)
    : option (bool * BlockWrite) :=
  decodeEntry blockWrite_body buf size e.

Definition fileResize_body : record_decoder FileResize :=
  dec_field decodeInt64C (fun v e => mkFileResize v (fr_seqId e) (fr_fileSize e)) &&:
  dec_field decodeInt64C (fun v e => mkFileResize (fr_timestamp e) v (fr_fileSize e)) &&:
  dec_field decodeInt64C (fun v e => mkFileResize (fr_timestamp e) (fr_seqId e) v).
Definition decodeFileResizeEntry (buf : list Z) (size : Z) (e : FileResize)
    : option (bool * FileResize) :=
  decodeEntry fileResize_body buf size e.

Definition fileInvalidation_body : record_decoder FileInvalidation :=
  dec_field decodeInt64C (fun v e => mkFileInvalidation v (fi_seqId e)) &&:
  dec_field decodeInt64C (fun v e => mkFileInvalidation (fi_timestamp e) v).
Definition decodeFileInvalidationEntry (buf : list Z) (size : Z) (e : FileInvalidation)
    : option (bool * FileInvalidation) :=
  decodeEntry fileInvalidation_body buf size e.

Definition decodeDirectoryInvalidationEntry (buf : list Z) (size : Z) (timestamp : Z)
    : option (bool * Z) :=
  decodeEntry (dec_field decodeInt64C (fun v _ => v)) buf size timestamp.

(** ** The bytes of an entry *)

Inductive LogEntry :=
  | EHeader (h : LogHeader)
  | ECreation (e : FileCreation)
  | EBlock (e : BlockWrite)
  | EInvalidation (e : FileInvalidation)
  | EResize (e : FileResize)
  | EDirInvalidation (timestamp : Z).

Definition entry_type (e : LogEntry) : EntryType :=
  match e with
  | EHeader _ => HEADER | ECreation _ => FILE_CREATION | EBlock _ => BLOCK_WRITE
  | EInvalidation _ => FILE_INVALIDATION | EResize _ => FILE_RESIZE
  | EDirInvalidation _ => DIRECTORY_INVALIDATION
  end.
Definition entry_fields (e : LogEntry) : list Z :=
  match e with
  | EHeader h => varU64 (lh_timestamp h) ++ varU64 (lh_version h) ++
      stringBytes (lh_recoveryId h) ++ stringBytes (lh_senderIp h) ++ varU64 (lh_config h)
  | ECreation c => varU64 (fc_timestamp c) ++ stringBytes (fc_fileName c) ++
      varU64 (fc_seqId c) ++ varU64 (fc_fileSize c)
  | EBlock b => varU64 (bw_timestamp b) ++ varU64 (bw_seqId b) ++ varU64 (bw_offset b) ++
      varU64 (bw_blockSize b)
  | EInvalidation i => varU64 (fi_timestamp i) ++ varU64 (fi_seqId i)
  | EResize r => varU64 (fr_timestamp r) ++ varU64 (fr_seqId r) ++ varU64 (fr_fileSize r)
  | EDirInvalidation t => varU64 t
  end.
Definition entry_payload (e : LogEntry) : list Z :=
  EntryType_value (entry_type e) :: entry_fields e.
Definition entry_bytes `{Host} (e : LogEntry) : list Z :=
  storeUnaligned sizeof_int16 (Zlen (entry_payload e)) ++ entry_payload e.

(** The entries the manager writes. *)
Definition wf_entry (e : LogEntry) : Prop :=
  match e with
  | EHeader h => nonneg64 (lh_timestamp h) /\ lh_version h = WLOG_VERSION /\
      Zlen (lh_recoveryId h) + Zlen (lh_senderIp h) <= PATH_MAX /\ nonneg64 (lh_config h)
  | ECreation c => nonneg64 (fc_timestamp c) /\ Zlen (fc_fileName c) <= PATH_MAX /\
      nonneg64 (fc_seqId c) /\ nonneg64 (fc_fileSize c)
  | EBlock b => nonneg64 (bw_timestamp b) /\ nonneg64 (bw_seqId b) /\ nonneg64 (bw_offset b) /\
      nonneg64 (bw_blockSize b)
  | EInvalidation i => nonneg64 (fi_timestamp i) /\ nonneg64 (fi_seqId i)
  | EResize r => nonneg64 (fr_timestamp r) /\ nonneg64 (fr_seqId r) /\ nonneg64 (fr_fileSize r)
  | EDirInvalidation t => nonneg64 t
  end.

(** The call of [LogEncoderDecoder] that writes an entry. *)
Definition encode_entry `{Host} (e : LogEntry) (dest : list Z) (max : Z) : option (Z * list Z) :=
  match e with
  | EHeader h => encodeLogHeader (lh_timestamp h) dest max (lh_recoveryId h) (lh_senderIp h)
      (lh_config h)
  | ECreation c => encodeFileCreationEntry (fc_timestamp c) dest max (fc_fileName c) (fc_seqId c)
      (fc_fileSize c)
  | EBlock b => encodeBlockWriteEntry (bw_timestamp b) dest max (bw_seqId b) (bw_offset b)
      (bw_blockSize b)
  | EInvalidation i => encodeFileInvalidationEntry (fi_timestamp i) dest max (fi_seqId i)
  | EResize r => encodeFileResizeEntry (fr_timestamp r) dest max (fr_seqId r) (fr_fileSize r)
  | EDirInvalidation t => encodeDirectoryInvalidationEntry t dest max
  end.

(** ** Encoding *)

Lemma Zlen_entry_payload e : wf_entry e -> 2 <= Zlen (entry_payload e) <= kMaxEntryLength - 2.
Proof.
  unfold entry_payload, kMaxEntryLength, PATH_MAX. destruct e; simpl wf_entry; intros Hwf;
    cbn [entry_fields entry_type]; rewrite Zlen_cons.
  - destruct Hwf as (? & -> & ? & ?). unfold PATH_MAX, WLOG_VERSION in *.
    pose proof (Zlen_stringBytes_le (lh_recoveryId h) ltac:(lia)).
    pose proof (Zlen_stringBytes_le (lh_senderIp h) ltac:(lia)).
    pose proof (Zlen_varU64_le 2 1 ltac:(lia) ltac:(lia)). rewrite !Zlen_app. var_sizes. lia.
  - destruct Hwf as (? & ? & ? & ?). unfold PATH_MAX in *.
    pose proof (Zlen_stringBytes_le (fc_fileName e) ltac:(lia)). rewrite !Zlen_app. var_sizes. lia.
  - rewrite !Zlen_app. var_sizes. lia.
  - rewrite !Zlen_app. var_sizes. lia.
  - rewrite !Zlen_app. var_sizes. lia.
  - var_sizes. lia.
Qed.

Section encoding.
Context `{Host}.

(** The frame: what lies in the buffer up to the returned size. *)
Lemma frame_bytes (size : Z) (payload dest : list Z) :
  size = 2 + Zlen payload -> size <= Zlen dest -> size <= kMaxEntryLength ->
  take (Z.to_nat size) (list_inserts 0 (storeUnaligned sizeof_int16 (wrapS 16 (size - 2)))
    (list_inserts 2 payload dest)) =
  storeUnaligned sizeof_int16 (Zlen payload) ++ payload.
Proof.
  intros -> Hd Hm. unfold kMaxEntryLength, PATH_MAX in Hm.
  replace (2 + Zlen payload - 2) with (Zlen payload) by lia.
  rewrite wrapS_small by (unfold inS; lia).
  set (st := storeUnaligned sizeof_int16 (Zlen payload)).
  assert (length st = 2%nat) as Hst.
  { pose proof (storeUnaligned_length sizeof_int16 (Zlen payload) ltac:(done)).
    unfold st, sizeof_int16 in *. lia. }
  rewrite (list_inserts_split 0) by (rewrite length_inserts, Hst; lia).
  rewrite take_0, Hst. cbn [app plus].
  rewrite list_inserts_split by lia.
  rewrite drop_app_ge by (rewrite length_take; lia).
  rewrite length_take, (Nat.min_l 2), Nat.sub_diag, drop_0 by lia.
  rewrite app_assoc, take_app_le by (rewrite length_app; lia).
  apply take_ge. rewrite length_app. lia.
Qed.

Lemma encodeEntry_spec type fields bs dest max :
  Encodes max fields bs -> 3 + Zlen bs <= max -> max <= kMaxEntryLength -> max <= Zlen dest ->
  exists dest', encodeEntry type fields dest max = Some (3 + Zlen bs, dest') /\
    take (Z.to_nat (3 + Zlen bs)) dest' =
      storeUnaligned sizeof_int16 (1 + Zlen bs) ++ EntryType_value type :: bs.
Proof.
  intros He Hm Hk Hd. unfold encodeEntry, sizeof_int16.
  replace (2 + 1 <=? max) with true by (symmetry; bool_to_prop; lia).
  rewrite (Encodes_fits max fields bs) by (rewrite ?length_insert; done || lia).
  simpl negb. cbv iota. eexists. split; [f_equal; f_equal; lia|].
  pose proof (frame_bytes (3 + Zlen bs) (EntryType_value type :: bs) dest ltac:(zlen)
    ltac:(lia) ltac:(lia)) as F.
  unfold sizeof_int16 in *. rewrite Zlen_cons in F. rewrite <- F.
  replace (2 + 1 + Zlen bs) with (3 + Zlen bs) by lia.
  change (EntryType_value type :: bs) with ([EntryType_value type] ++ bs).
  by rewrite list_inserts_app_l.
Qed.

Lemma encodeLogHeader_spec ts r ip c dest max :
  wf_entry (EHeader (mkLogHeader ts WLOG_VERSION r ip c)) ->
  max = kMaxEntryLength -> max <= Zlen dest ->
  exists dest',
    encodeLogHeader ts dest max r ip c =
      Some (2 + Zlen (entry_payload (EHeader (mkLogHeader ts WLOG_VERSION r ip c))), dest') /\
    take (Z.to_nat (2 + Zlen (entry_payload (EHeader (mkLogHeader ts WLOG_VERSION r ip c))))) dest' =
      entry_bytes (EHeader (mkLogHeader ts WLOG_VERSION r ip c)).
Proof.
  intros Hwf -> Hd. pose proof (Zlen_entry_payload _ Hwf) as Hp.
  destruct Hwf as (Ht & _ & Hs & Hc). simpl in Ht, Hs, Hc.
  unfold encodeLogHeader. set (mx := kMaxEntryLength - sizeof_int16).
  replace (1 <=? mx) with true by done.
  assert (Encodes mx (encI64C mx ts &&@ encI64C mx WLOG_VERSION &&@ encStr mx r &&@
    encStr mx ip &&@ encI64C mx c) (entry_fields (EHeader (mkLogHeader ts WLOG_VERSION r ip c)))) as He.
  { cbn. encodes; done. }
  set (e := EHeader _) in *. unfold entry_payload in Hp. rewrite Zlen_cons in Hp.
  assert (2 <= length dest)%nat as Hd2 by (unfold kMaxEntryLength, PATH_MAX in Hd; lia).
  rewrite (Encodes_fits mx _ _ _ _ He)
    by (rewrite ?length_insert, ?length_drop; unfold mx, sizeof_int16; lia).
  simpl negb. cbv iota. eexists. split.
  { f_equal. f_equal. unfold entry_payload, sizeof_int16. rewrite Zlen_cons. lia. }
  unfold entry_bytes.
  rewrite <- (frame_bytes (2 + Zlen (entry_payload e)) (entry_payload e) dest)
    by (unfold entry_payload, kMaxEntryLength, PATH_MAX in *; rewrite ?Zlen_cons; lia).
  do 3 f_equal; [unfold entry_payload; rewrite Zlen_cons; f_equal; lia|].
  replace (list_inserts (Z.to_nat (0 + 1)) _ _)
    with (list_inserts 0 (entry_payload e) (drop 2 dest)).
  2:{ change (entry_payload e) with ([EntryType_value HEADER] ++ entry_fields e).
      by rewrite list_inserts_app_l. }
  change (Z.to_nat sizeof_int16) with 2%nat.
  pose proof (list_inserts_app_r (entry_payload e) (take 2 dest) (drop 2 dest) 0) as F.
  rewrite take_drop, length_take, Nat.min_l, Nat.add_0_r in F by lia. by rewrite F.
Qed.

(** Every entry the manager writes fits its buffer, and the first [size] bytes
    of the buffer are the entry. *)
Lemma encode_entry_spec e dest : wf_entry e -> kMaxEntryLength <= Zlen dest ->
  exists dest', encode_entry e dest kMaxEntryLength = Some (2 + Zlen (entry_payload e), dest') /\
    take (Z.to_nat (2 + Zlen (entry_payload e))) dest' = entry_bytes e.
Proof.
  intros Hwf Hd. pose proof (Zlen_entry_payload e Hwf) as Hp.
  destruct e as [[ts v r ip c]|c|b|i|r|t].
  { destruct Hwf as (? & E & Hwf). simpl in E. subst v. by apply encodeLogHeader_spec. }
  all: unfold entry_bytes, entry_payload in *; rewrite Zlen_cons in *;
    cbn [entry_type entry_fields] in *; rewrite !Z.add_assoc;
    apply encodeEntry_spec; try lia; simpl in Hwf; destruct_and?; encodes; done.
Qed.
End encoding.

(** ** Decoding *)

Definition LogHeader_empty : LogHeader := mkLogHeader 0 0 [] [] 0.
Definition FileCreation_empty : FileCreation := mkFileCreation 0 [] 0 0.
Definition BlockWrite_empty : BlockWrite := mkBlockWrite 0 0 0 0.
Definition FileResize_empty : FileResize := mkFileResize 0 0 0.
Definition FileInvalidation_empty : FileInvalidation := mkFileInvalidation 0 0.

Lemma decodeEntry_reads {S} (d : record_decoder S) bs f s :
  Reads d bs f -> Zlen bs <= kMaxEntryLength ->
  decodeEntry d bs (Zlen bs) s = Some (true, f s).
Proof.
  intros Hd Hl. unfold decodeEntry, kMaxEntryLength, PATH_MAX in *.
  rewrite wrapS_small by (unfold inS; lia). unfold makeByteRange.
  replace (_ && _ && _ && _) with true by (symmetry; bool_to_prop; lia).
  assert (slice 0 (Zlen bs) bs = bs ++ []) as ->.
  { unfold slice. rewrite drop_0, app_nil_r. apply take_ge. lia. }
  by rewrite Hd.
Qed.

(** A decoder of an entry returns on any bytes, and on success used all of
    them. *)
Lemma decodeEntry_safe {S} (d : record_decoder S) buf size s :
  SafeR d -> 0 <= size <= INT16_MAX -> size <= Zlen buf ->
  exists ok s', decodeEntry d buf size s = Some (ok, s').
Proof.
  intros Hd Hs Hl. unfold decodeEntry, INT16_MAX in *.
  rewrite wrapS_small by (unfold inS; lia). unfold makeByteRange.
  replace (_ && _ && _ && _) with true by (symmetry; bool_to_prop; lia).
  destruct (Hd s (slice 0 size buf)) as (ok & s' & br & -> & _). case_goal; eauto.
Qed.

Lemma logHeader_body_SafeR : SafeR logHeader_body.
Proof. unfold logHeader_body. auto 20 with wdt. Qed.
Lemma fileCreation_body_SafeR : SafeR fileCreation_body.
Proof. unfold fileCreation_body. auto 20 with wdt. Qed.
Lemma blockWrite_body_SafeR : SafeR blockWrite_body.
Proof. unfold blockWrite_body. auto 20 with wdt. Qed.
Lemma fileResize_body_SafeR : SafeR fileResize_body.
Proof. unfold fileResize_body. auto 20 with wdt. Qed.
Lemma fileInvalidation_body_SafeR : SafeR fileInvalidation_body.
Proof. unfold fileInvalidation_body. auto 20 with wdt. Qed.
#[export] Hint Resolve logHeader_body_SafeR fileCreation_body_SafeR blockWrite_body_SafeR
  fileResize_body_SafeR fileInvalidation_body_SafeR : wdt.

Lemma logHeader_body_reads h : wf_entry (EHeader h) ->
  Reads logHeader_body (entry_fields (EHeader h)) (fun _ => h).
Proof.
  intros (? & Hv & Hs & ?) s rest. unfold logHeader_body, PATH_MAX, WLOG_VERSION in *.
  cbn [entry_fields]. rewrite Hv. reads. destruct h; cbn in *; subst; reflexivity.
Qed.
Lemma fileCreation_body_reads e : wf_entry (ECreation e) ->
  Reads fileCreation_body (entry_fields (ECreation e)) (fun _ => e).
Proof.
  intros (? & ? & ? & ?) s rest. unfold fileCreation_body, PATH_MAX in *. cbn [entry_fields].
  reads. by destruct e.
Qed.
Lemma blockWrite_body_reads e : wf_entry (EBlock e) ->
  Reads blockWrite_body (entry_fields (EBlock e)) (fun _ => e).
Proof.
  intros (? & ? & ? & ?) s rest. unfold blockWrite_body. cbn [entry_fields].
  reads. by destruct e.
Qed.
Lemma fileResize_body_reads e : wf_entry (EResize e) ->
  Reads fileResize_body (entry_fields (EResize e)) (fun _ => e).
Proof.
  intros (? & ? & ?) s rest. unfold fileResize_body. cbn [entry_fields].
  reads. by destruct e.
Qed.
Lemma fileInvalidation_body_reads e : wf_entry (EInvalidation e) ->
  Reads fileInvalidation_body (entry_fields (EInvalidation e)) (fun _ => e).
Proof.
  intros (? & ?) s rest. unfold fileInvalidation_body. cbn [entry_fields].
  reads. by destruct e.
Qed.

(** The call of [LogEncoderDecoder] the parser makes for an entry type: the
    entry, or that it is malformed. *)
Definition decode_entry (type : EntryType) (buf : list Z) (size : Z) : option (option LogEntry) :=
  match type with
  | HEADER => let* (ok, h) := decodeLogHeader buf size LogHeader_empty in
      Some (if ok then Some (EHeader h) else None)
  | FILE_CREATION => let* (ok, e) := decodeFileCreationEntry buf size FileCreation_empty in
      Some (if ok then Some (ECreation e) else None)
  | BLOCK_WRITE => let* (ok, e) := decodeBlockWriteEntry buf size BlockWrite_empty in
      Some (if ok then Some (EBlock e) else None)
  | FILE_INVALIDATION =>
      let* (ok, e) := decodeFileInvalidationEntry buf size FileInvalidation_empty in
      Some (if ok then Some (EInvalidation e) else None)
  | FILE_RESIZE => let* (ok, e) := decodeFileResizeEntry buf size FileResize_empty in
      Some (if ok then Some (EResize e) else None)
  | DIRECTORY_INVALIDATION => let* (ok, t) := decodeDirectoryInvalidationEntry buf size 0 in
      Some (if ok then Some (EDirInvalidation t) else None)
  end.

Lemma decode_entry_fields e : wf_entry e ->
  decode_entry (entry_type e) (entry_fields e) (Zlen (entry_fields e)) = Some (Some e).
Proof.
  intros Hwf. pose proof (Zlen_entry_payload e Hwf) as Hp.
  unfold entry_payload in Hp. rewrite Zlen_cons in Hp.
  destruct e; cbn [entry_type decode_entry];
    unfold decodeLogHeader, decodeFileCreationEntry, decodeBlockWriteEntry, decodeFileResizeEntry,
      decodeFileInvalidationEntry, decodeDirectoryInvalidationEntry.
  - by rewrite (decodeEntry_reads _ _ _ _ (logHeader_body_reads h Hwf)) by lia.
  - by rewrite (decodeEntry_reads _ _ _ _ (fileCreation_body_reads e Hwf)) by lia.
  - by rewrite (decodeEntry_reads _ _ _ _ (blockWrite_body_reads e Hwf)) by lia.
  - by rewrite (decodeEntry_reads _ _ _ _ (fileInvalidation_body_reads e Hwf)) by lia.
  - by rewrite (decodeEntry_reads _ _ _ _ (fileResize_body_reads e Hwf)) by lia.
  - by rewrite (decodeEntry_reads _ _ _ _ (dec_field_reads _ (fun v _ => v) _ _
      (decodeInt64C_decodes timestamp Hwf))) by (cbn in Hp; unfold kMaxEntryLength in *; lia).
Qed.

(** ** Properties *)

(** Every entry the manager writes fits the buffer of
    [kMaxEntryLength] bytes; the bytes it appends to the log start with the
    size the parser will read on the same host, and the parser's decoder for
    the type byte returns the entry. *)
Theorem log_entry_roundtrip (h : Host) e dest :
  wf_entry e -> kMaxEntryLength <= Zlen dest ->
  exists size dest', encode_entry e dest kMaxEntryLength = Some (size, dest') /\
    size <= kMaxEntryLength /\
    take (Z.to_nat size) dest' = entry_bytes e /\
    loadUnaligned sizeof_int16 (take (Z.to_nat size) dest') = size - sizeof_int16 /\
    drop 2 (take (Z.to_nat size) dest') = EntryType_value (entry_type e) :: entry_fields e /\
    decode_entry (entry_type e) (entry_fields e) (size - 3) = Some (Some e).
Proof.
  intros Hwf Hd. destruct (encode_entry_spec e dest Hwf Hd) as (dest' & E & Ht).
  pose proof (Zlen_entry_payload e Hwf) as Hp. unfold kMaxEntryLength, PATH_MAX in *.
  do 2 eexists. split; [exact E|]. rewrite Ht. split_and!; [lia|done|..].
  - unfold entry_bytes. rewrite loadUnaligned_store by (unfold inS, sizeof_int16; lia).
    unfold sizeof_int16. lia.
  - unfold entry_bytes. pose proof (storeUnaligned_length sizeof_int16 (Zlen (entry_payload e))
      ltac:(done)) as Hl. unfold sizeof_int16 in *.
    rewrite drop_app_ge by lia.
    by replace (2 - length (storeUnaligned 2 (Zlen (entry_payload e))))%nat with 0%nat by lia.
  - rewrite <- (decode_entry_fields e Hwf). f_equal. unfold entry_payload. zlen.
Qed.

Lemma log_entry_roundtrip_witness : exists size dest',
  @encode_entry bigHost (EBlock (mkBlockWrite 1000 3 0 4096)) (replicate 4200 0) kMaxEntryLength
    = Some (size, dest') /\
  decode_entry BLOCK_WRITE (entry_fields (EBlock (mkBlockWrite 1000 3 0 4096))) (size - 3) =
    Some (Some (EBlock (mkBlockWrite 1000 3 0 4096))).
Proof.
  destruct (log_entry_roundtrip bigHost (EBlock (mkBlockWrite 1000 3 0 4096)) (replicate 4200 0))
    as (size & dest' & E & _ & _ & _ & _ & D); [eval_side|eval_side|].
  exists size, dest'. split; [exact E|exact D].
Defined.
