(* ===== verification/LogParser.v ===== *)
(** Replaying the transfer log: [LogParser] of [util/TransferLogManager.h]
    and [.cpp], over a model of the log's file descriptor.

    The system calls are functions of the descriptor's state.  [fault n] says
    how the [n]-th call made on it behaves: as asked, failing, or transferring
    fewer bytes; [now n] is what the clock shows at that point.  [stat] is the
    [stat] of a path below the root directory: the size of the file, or that it
    is not there.  The lines that [parseLog] prints in parse-only mode are left
    out. *)
From S2P Require Import Prelude Serialization ErrorCodes Chunks Protocol ProtocolProps.
From S2P Require Import LogEntries.

(** ** The descriptor *)

Record LogFile := mkLogFile { content : list Z; pos : Z; calls : nat }.

Inductive Fault := NoFault | Fails | Short (n : Z).

(** [write] at the current offset, past the end as well. *)
Definition write_at (p : Z) (bs l : list Z) : list Z :=
  take (Z.to_nat p) (l ++ replicate (Z.to_nat p - length l) 0) ++ bs ++
  drop (Z.to_nat p + length bs) l.

Section syscalls.
Context (fault : nat -> Fault).

(** The number of bytes a call for [n] of them transfers at most, -1 for an
    error. *)
Definition granted (f : LogFile) (n : Z) : Z :=
  match fault (calls f) with
  | NoFault => n
  | Fails => -1
  | Short m => Z.min m n
  end.

Definition sys_read (n : Z) (f : LogFile) : Z * list Z * LogFile :=
  let k := granted f n in
  if k <? 0 then (-1, [], mkLogFile (content f) (pos f) (S (calls f))) else
  let bs := take (Z.to_nat k) (drop (Z.to_nat (pos f)) (content f)) in
  (Zlen bs, bs, mkLogFile (content f) (pos f + Zlen bs) (S (calls f))).

(** [write(fd, buf, size)]; a negative size is out of range and fails. *)
Definition sys_write (buf : list Z) (size : Z) (f : LogFile) : Z * LogFile :=
  let k := granted f size in
  if k <? 0 then (-1, mkLogFile (content f) (pos f) (S (calls f))) else
  let bs := take (Z.to_nat k) buf in
  (Zlen bs, mkLogFile (write_at (pos f) bs (content f)) (pos f + Zlen bs) (S (calls f))).

(** The calls that only succeed or fail. *)
Definition sys_ok (f : LogFile) : bool := match fault (calls f) with NoFault => true | _ => false end.

Definition sys_fstat (f : LogFile) : option Z * LogFile :=
  (if sys_ok f then Some (Zlen (content f)) else None,
   mkLogFile (content f) (pos f) (S (calls f))).
Definition sys_ftruncate (n : Z) (f : LogFile) : bool * LogFile :=
  if sys_ok f && (0 <=? n) then
    (true, mkLogFile (take (Z.to_nat n) (content f) ++
                      replicate (Z.to_nat n - length (content f)) 0) (pos f) (S (calls f)))
  else (false, mkLogFile (content f) (pos f) (S (calls f))).
Definition sys_lseek (n : Z) (f : LogFile) : bool * LogFile :=
  if sys_ok f && (0 <=? n) then (true, mkLogFile (content f) n (S (calls f)))
  else (false, mkLogFile (content f) (pos f) (S (calls f))).
Definition sys_fsync (f : LogFile) : bool * LogFile :=
  (sys_ok f, mkLogFile (content f) (pos f) (S (calls f))).
End syscalls.

(** ** Options *)

(** What the log uses of [WdtOptions]; [HAS_POSIX_FALLOCATE] is a macro of the
    build. *)
Record LogOptions := mkLogOptions {
  has_posix_fallocate : bool;
  disable_preallocation : bool;
  resume_using_dir_tree : bool;
  enable_download_resumption : bool;
  disable_sender_verification_during_resumption : bool;
  transfer_log_write_interval_ms : Z
}.
Definition shouldPreallocateFiles (o : LogOptions) : bool :=
  if has_posix_fallocate o then negb (disable_preallocation o) else false.

(** ** The parser's state *)

Record LogParser := mkLogParser {
  headerParsed_ : bool;
  fileInfoMap_ : gmap Z FileChunksInfo;
  seqIdToSizeMap_ : gmap Z Z;
  invalidSeqIds_ : gset Z
}.
Definition LogParser_init : LogParser := mkLogParser false ∅ ∅ ∅.

(** [std::map::emplace] keeps an element already there. *)
Definition map_emplace {A} (k : Z) (v : A) (m : gmap Z A) : gmap Z A :=
  match m !! k with Some _ => m | None => <[k := v]> m end.

Definition set_headerParsed (b : bool) (p : LogParser) : LogParser :=
  mkLogParser b (fileInfoMap_ p) (seqIdToSizeMap_ p) (invalidSeqIds_ p).
Definition set_fileInfoMap (m : gmap Z FileChunksInfo) (p : LogParser) : LogParser :=
  mkLogParser (headerParsed_ p) m (seqIdToSizeMap_ p) (invalidSeqIds_ p).
Definition set_seqIdToSizeMap (m : gmap Z Z) (p : LogParser) : LogParser :=
  mkLogParser (headerParsed_ p) (fileInfoMap_ p) m (invalidSeqIds_ p).
Definition set_invalidSeqIds (s : gset Z) (p : LogParser) : LogParser :=
  mkLogParser (headerParsed_ p) (fileInfoMap_ p) (seqIdToSizeMap_ p) s.

Definition clearParsedData (p : LogParser) : LogParser :=
  mkLogParser (headerParsed_ p) ∅ ∅ ∅.

(** The order in which [std::map] and [std::set] are traversed. *)
Definition key_le {A} (x y : Z * A) : Prop := x.1 <= y.1.
#[global] Instance key_le_dec {A} : RelDecision (@key_le A).
Proof. intros x y. apply Z.le_dec. Defined.
Definition map_in_order {A} (m : gmap Z A) : list (Z * A) := merge_sort key_le (map_to_list m).
Definition set_in_order (s : gset Z) : list Z := merge_sort Z.le (elements s).

(** ** Entries *)

Section parser.
Context `{Host}.
Context (options : LogOptions) (stat : list Z -> option Z).
Context (rootDir recoveryId : list Z) (config : Z) (parseOnly : bool).

Definition processHeaderEntry (buf : list Z) (max size : Z) (senderIp : list Z) (p : LogParser)
    : option (ErrorCode * list Z * LogParser) :=
  if max <? size then Some (INVALID_LOG, senderIp, p) else
  let* (ok, h) := decodeLogHeader buf size (mkLogHeader 0 0 [] senderIp 0) in
  let senderIp := lh_senderIp h in
  if negb ok then Some (INVALID_LOG, senderIp, p) else
  if negb (lh_version h =? WLOG_VERSION) then Some (INVALID_LOG, senderIp, p) else
  if bool_decide (senderIp = []) then Some (INVALID_LOG, senderIp, p) else
  if parseOnly then Some (OK, senderIp, set_headerParsed true p) else
  if negb (bool_decide (recoveryId = lh_recoveryId h)) then
    Some (INCONSISTENT_DIRECTORY, senderIp, p) else
  if negb (config =? lh_config h) then Some (INCONSISTENT_DIRECTORY, senderIp, p) else
  Some (OK, senderIp, set_headerParsed true p).

Definition processFileCreationEntry (buf : list Z) (size : Z) (p : LogParser)
    : option (ErrorCode * LogParser) :=
  if negb (headerParsed_ p) then Some (INVALID_LOG, p) else
  let* (ok, e) := decodeFileCreationEntry buf size FileCreation_empty in
  if negb ok then Some (INVALID_LOG, p) else
  if parseOnly then Some (OK, p) else
  if resume_using_dir_tree options then Some (INVALID_LOG, p) else
  if bool_decide (is_Some (fileInfoMap_ p !! fc_seqId e)) ||
     bool_decide (fc_seqId e ∈ invalidSeqIds_ p) then Some (INVALID_LOG, p) else
  let st := stat (rootDir ++ fc_fileName e) in
  let sizeVerificationSuccess :=
    match st with
    | None => false
    | Some st_size => if shouldPreallocateFiles options then fc_fileSize e <=? st_size else true
    end in
  match st, sizeVerificationSuccess with
  | Some st_size, true =>
      let p := set_fileInfoMap (map_emplace (fc_seqId e)
        (FileChunksInfo_make (fc_seqId e) (fc_fileName e) st_size) (fileInfoMap_ p)) p in
      Some (OK, set_seqIdToSizeMap (map_emplace (fc_seqId e) (fc_fileSize e) (seqIdToSizeMap_ p)) p)
  | _, _ => Some (OK, set_invalidSeqIds ({[fc_seqId e]} ∪ invalidSeqIds_ p) p)
  end.

Definition processFileResizeEntry (buf : list Z) (size : Z) (p : LogParser)
    : option (ErrorCode * LogParser) :=
  if negb (headerParsed_ p) then Some (INVALID_LOG, p) else
  let* (ok, e) := decodeFileResizeEntry buf size FileResize_empty in
  if negb ok then Some (INVALID_LOG, p) else
  if parseOnly then Some (OK, p) else
  if resume_using_dir_tree options then Some (INVALID_LOG, p) else
  match fileInfoMap_ p !! fr_seqId e with
  | None => Some (INVALID_LOG, p)
  | Some chunksInfo =>
      let* curSize := seqIdToSizeMap_ p !! fr_seqId e in
      if fr_fileSize e <? curSize then Some (INVALID_LOG, p) else
      if shouldPreallocateFiles options && (fileSize_ chunksInfo <? fr_fileSize e) then
        Some (INVALID_LOG, p)
      else Some (OK, set_seqIdToSizeMap (<[fr_seqId e := fr_fileSize e]> (seqIdToSizeMap_ p)) p)
  end.

(** [offset + blockSize] is an [int64_t]; the [Interval] constructor checks
    that the end is not before the start. *)
Definition processBlockWriteEntry (buf : list Z) (size : Z) (p : LogParser)
    : option (ErrorCode * LogParser) :=
  if negb (headerParsed_ p) then Some (INVALID_LOG, p) else
  let* (ok, e) := decodeBlockWriteEntry buf size BlockWrite_empty in
  if negb ok then Some (INVALID_LOG, p) else
  if parseOnly then Some (OK, p) else
  if resume_using_dir_tree options then Some (INVALID_LOG, p) else
  if bool_decide (bw_seqId e ∈ invalidSeqIds_ p) then Some (OK, p) else
  match fileInfoMap_ p !! bw_seqId e with
  | None => Some (INVALID_LOG, p)
  | Some chunksInfo =>
      let end_ := wrapS 64 (bw_offset e + bw_blockSize e) in
      if fileSize_ chunksInfo <? end_ then Some (INVALID_LOG, p) else
      let* chunk := Interval_make (bw_offset e) end_ in
      Some (OK, set_fileInfoMap (<[bw_seqId e := addChunk chunk chunksInfo]> (fileInfoMap_ p)) p)
  end.

Definition processFileInvalidationEntry (buf : list Z) (size : Z) (p : LogParser)
    : option (ErrorCode * LogParser) :=
  if negb (headerParsed_ p) then Some (INVALID_LOG, p) else
  let* (ok, e) := decodeFileInvalidationEntry buf size FileInvalidation_empty in
  if negb ok then Some (INVALID_LOG, p) else
  if parseOnly then Some (OK, p) else
  if resume_using_dir_tree options then Some (INVALID_LOG, p) else
  if negb (bool_decide (is_Some (fileInfoMap_ p !! fi_seqId e))) &&
     negb (bool_decide (fi_seqId e ∈ invalidSeqIds_ p)) then Some (INVALID_LOG, p) else
  let p := set_fileInfoMap (delete (fi_seqId e) (fileInfoMap_ p)) p in
  Some (OK, set_invalidSeqIds (invalidSeqIds_ p ∖ {[fi_seqId e]}) p).

Definition processDirectoryInvalidationEntry (buf : list Z) (size : Z) (p : LogParser)
    : option (ErrorCode * LogParser) :=
  let* (ok, _) := decodeDirectoryInvalidationEntry buf size 0 in
  if negb ok then Some (INVALID_LOG, p) else
  if parseOnly then Some (OK, p) else
  Some (INCONSISTENT_DIRECTORY, set_headerParsed false p).
(** ** The parsing loop *)

Context (fault : nat -> Fault) (now : nat -> Z).

(** The local variables of [parseLog] and what it reads and changes. *)
Record ParseState := mkParseState {
  ps_file : LogFile; ps_parser : LogParser; ps_senderIp : list Z; ps_status : ErrorCode }.
Definition with_file (f : LogFile) (s : ParseState) : ParseState :=
  mkParseState f (ps_parser s) (ps_senderIp s) (ps_status s).

Definition truncateExtraBytesAtEnd (extraBytes : Z) (f : LogFile) : bool * LogFile :=
  let '(st, f) := sys_fstat fault f in
  match st with
  | None => (false, f)
  | Some fileSize =>
      let '(ok, f) := sys_ftruncate fault (fileSize - extraBytes) f in
      if negb ok then (false, f) else sys_lseek fault (fileSize - extraBytes) f
  end.

(** The buffer on the stack; only the bytes an encoder wrote are used. *)
Definition stack_buffer : list Z := replicate (Z.to_nat kMaxEntryLength) 0.

Fixpoint writeFileInvalidationEntries (seqIds : list Z) (f : LogFile) : option (bool * LogFile) :=
  match seqIds with
  | [] => Some (true, f)
  | seqId :: seqIds =>
      let* (size, buf) :=
        encodeFileInvalidationEntry (now (calls f)) stack_buffer kMaxEntryLength seqId in
      let '(written, f) := sys_write fault buf size f in
      if negb (written =? size) then Some (false, f)
      else writeFileInvalidationEntries seqIds f
  end.

(** The [switch]; [None] is the [default] case. *)
Definition processEntry (type : Z) (buf : list Z) (entryLen : Z) (senderIp : list Z)
    (p : LogParser) : option (option ErrorCode * list Z * LogParser) :=
  let keep r := let* (status, p) := r in Some (Some status, senderIp, p) in
  if type =? EntryType_value HEADER then
    let* (status, ip, p) := processHeaderEntry buf (kMaxEntryLength - 1) entryLen senderIp p in
    Some (Some status, ip, p)
  else if type =? EntryType_value FILE_CREATION then keep (processFileCreationEntry buf entryLen p)
  else if type =? EntryType_value BLOCK_WRITE then keep (processBlockWriteEntry buf entryLen p)
  else if type =? EntryType_value FILE_RESIZE then keep (processFileResizeEntry buf entryLen p)
  else if type =? EntryType_value FILE_INVALIDATION then
    keep (processFileInvalidationEntry buf entryLen p)
  else if type =? EntryType_value DIRECTORY_INVALIDATION then
    keep (processDirectoryInvalidationEntry buf entryLen p)
  else Some (None, senderIp, p).

(** How an iteration ends. *)
Inductive Control := Return (code : ErrorCode) | Break | Continue.

(** Bytes at the end that are not an entry. *)
Definition extra_bytes (extraBytes : Z) (s : ParseState) : Control * ParseState :=
  if parseOnly then (Break, s) else
  let '(ok, f) := truncateExtraBytesAtEnd extraBytes (ps_file s) in
  (if ok then Break else Return INVALID_LOG, with_file f s).

(** The entry just read: [entry] is its bytes, the type first. *)
Definition handle_entry (entry : list Z) (entrySize : Z) (s : ParseState)
    : option (Control * ParseState) :=
  let* first := head entry in
  let type := schar first in
  if bool_decide (ps_status s = INCONSISTENT_DIRECTORY) &&
     negb (type =? EntryType_value HEADER) then Some (Continue, s) else
  let entryLen := entrySize - 1 in
  let* (status, ip, p) := processEntry type (tail entry) entryLen (ps_senderIp s) (ps_parser s) in
  match status with
  | None => Some (Return INVALID_LOG, mkParseState (ps_file s) p ip (ps_status s))
  | Some status =>
      let s := mkParseState (ps_file s) p ip status in
      if bool_decide (status = INVALID_LOG) then Some (Return status, s) else
      if bool_decide (status = INCONSISTENT_DIRECTORY) then
        Some (Continue, mkParseState (ps_file s) (clearParsedData p) ip status)
      else Some (Continue, s)
  end.

Definition parse_step (s : ParseState) : option (Control * ParseState) :=
  let toRead := sizeof_int16 in
  let '(numRead, sizeBytes, f) := sys_read fault toRead (ps_file s) in
  let s := with_file f s in
  if numRead <? 0 then Some (Return INVALID_LOG, s) else
  if numRead =? 0 then Some (Break, s) else
  if negb (numRead =? toRead) then Some (extra_bytes numRead s) else
  let entrySize := loadUnaligned sizeof_int16 sizeBytes in
  if (entrySize <=? 0) || (kMaxEntryLength <? entrySize) then Some (Return INVALID_LOG, s) else
  let '(numRead, entry, f) := sys_read fault entrySize (ps_file s) in
  let s := with_file f s in
  if numRead <? 0 then Some (Return INVALID_LOG, s) else
  if negb (numRead =? entrySize) then Some (extra_bytes (numRead + sizeof_int16) s) else
  handle_entry entry entrySize s.

(** [while (true)].  An iteration that goes on has consumed an entry, so the
    length of the log bounds their number. *)
Fixpoint parse_loop (fuel : nat) (s : ParseState) : option (option ErrorCode * ParseState) :=
  match fuel with
  | O => None
  | S fuel =>
      let* (c, s) := parse_step s in
      match c with
      | Return code => Some (Some code, s)
      | Break => Some (None, s)
      | Continue => parse_loop fuel s
      end
  end.

(** The merged chunks of every file, in the order of their sequence ids. *)
Definition parsed_files (p : LogParser) : list FileChunksInfo :=
  (fun kv => mergeChunks kv.2) <$> map_in_order (fileInfoMap_ p).

(** What follows the loop. *)
Definition finishParse (s : ParseState) (fileChunksInfo : list FileChunksInfo)
    : option (ErrorCode * list Z * list FileChunksInfo * LogFile) :=
  if bool_decide (ps_status s = OK) then
    let fileChunksInfo := fileChunksInfo ++ parsed_files (ps_parser s) in
    if bool_decide (invalidSeqIds_ (ps_parser s) = ∅) then
      Some (ps_status s, ps_senderIp s, fileChunksInfo, ps_file s)
    else
      let* (ok, f) := writeFileInvalidationEntries
        (set_in_order (invalidSeqIds_ (ps_parser s))) (ps_file s) in
      Some (if ok then ps_status s else INVALID_LOG, ps_senderIp s, fileChunksInfo, f)
  else Some (ps_status s, ps_senderIp s, fileChunksInfo, ps_file s).

Definition parseLog (f : LogFile) (senderIp : list Z) (fileChunksInfo : list FileChunksInfo)
    : option (ErrorCode * list Z * list FileChunksInfo * LogFile) :=
  let* (returned, s) :=
    parse_loop (S (length (content f))) (mkParseState f LogParser_init senderIp OK) in
  match returned with
  | Some code => Some (code, ps_senderIp s, fileChunksInfo, ps_file s)
  | None => finishParse s fileChunksInfo
  end.
End parser.
