(* ===== verification/LogParserProps.v ===== *)
(** Correctness of the replay of the transfer log: on any bytes the parser
    keeps its maps consistent and returns (but for one overflow), on a log
    that was written by the manager it rebuilds what was received, and a
    partial write at the end of the log is removed. *)
From S2P Require Import Prelude Serialization ErrorCodes Chunks Protocol ProtocolProps.
From S2P Require Import LogEntries LogParser.

(** ** The invariant of the maps *)

(** Every file the parser holds has a logged size, is not invalid, is filed
    under its own sequence id, and its chunks lie in the file on disk; an
    invalid sequence id is one that an entry can carry. *)
Definition file_ok (p : LogParser) (q : Z) (f : FileChunksInfo) : Prop :=
  is_Some (seqIdToSizeMap_ p !! q) /\ (q ∉ invalidSeqIds_ p) /\ seqId_ f = q /\
  Forall (fun c => 0 <= start_ c <= end_ c /\ end_ c <= fileSize_ f) (chunks_ f).
Definition parser_inv (p : LogParser) : Prop :=
  map_Forall (file_ok p) (fileInfoMap_ p) /\ set_Forall nonneg64 (invalidSeqIds_ p).

Lemma parser_inv_init : parser_inv LogParser_init.
Proof. split; [apply map_Forall_empty|apply set_Forall_empty]. Qed.
Lemma parser_inv_clear p : parser_inv (clearParsedData p).
Proof. split; [apply map_Forall_empty|apply set_Forall_empty]. Qed.
Lemma parser_inv_header b p : parser_inv p -> parser_inv (set_headerParsed b p).
Proof. done. Qed.
#[export] Hint Resolve parser_inv_init parser_inv_clear parser_inv_header : wdt.

(** ** Decoded values *)

Lemma decodeInt64C_range br v br' : decodeInt64C br = Some (true, Some v, br') -> nonneg64 v.
Proof.
  unfold decodeInt64C, nonneg64. destruct (decodeUInt64_Safe br) as (ok & u & b & E & _ & Hv).
  rewrite E. destruct ok; [|done]. destruct (Hv eq_refl) as [x ->]. simpl negb. cbv iota.
  destruct (INT64_MAX <? x) eqn:Ex; [done|]. intros [= <- _]. bool_to_prop.
  assert (0 <= x).
  { unfold decodeUInt64 in E. unfold decodeVarU64 in E. repeat case_hyp E; try done.
    simplify_eq. apply Z.lor_nonneg. split; [|apply wrapU_range; lia].
    assert (forall left data dl p val sh ok p' val' sh', 0 <= val ->
      decodeVarU64_loop left data dl p val sh = Some (ok, p', val', sh') -> 0 <= val') as Hl.
    { clear. induction left as [|left IH]; intros data dl p val sh ok p' val' sh' Hval;
        cbn [decodeVarU64_loop]; intros E; repeat case_hyp E; simplify_eq; try done.
      - apply Z.lor_nonneg. split; [done|]. apply wrapU_range. lia.
      - eapply IH; [|exact E]. apply Z.lor_nonneg. split; [done|]. apply wrapU_range. lia. }
    eapply Hl; [|eassumption]. lia. }
  unfold INT64_MAX in *. rewrite wrapS_small by (unfold inS; lia). lia.
Qed.

(** A field decoder that succeeded stored a non-negative value. *)
Lemma dec_field_int64C_inv {S} (set : Z -> S -> S) s br s' br' :
  dec_field decodeInt64C set s br = Some (true, s', br') ->
  exists v, nonneg64 v /\ s' = set v s.
Proof.
  unfold dec_field. destruct (decodeInt64C_Safe br) as (ok & u & b & E & _ & Hv). rewrite E.
  intros [= -> <- <-]. destruct (Hv eq_refl) as [v ->]. exists v. split; [|done].
  by eapply decodeInt64C_range.
Qed.

Lemma dec_and_inv {S} (d1 d2 : record_decoder S) s br s' br' :
  (d1 &&: d2) s br = Some (true, s', br') ->
  exists s1 br1, d1 s br = Some (true, s1, br1) /\ d2 s1 br1 = Some (true, s', br').
Proof.
  unfold dec_and. destruct (d1 s br) as [[[[] s1] br1]|] eqn:E; try done. intros. eauto.
Qed.

Lemma decodeEntry_inv {S} (d : record_decoder S) buf size s s' :
  decodeEntry d buf size s = Some (true, s') -> exists br br', d s br = Some (true, s', br').
Proof.
  unfold decodeEntry. intros E. repeat case_hyp E; simplify_eq.
  bool_to_prop. match goal with H : d s ?br = Some (?ok, _, _) |- _ => destruct ok end;
    [eauto|]. naive_solver.
Qed.

Ltac decoded_fields :=
  repeat match goal with
  | H : (_ &&: _) _ _ = _ |- _ => apply dec_and_inv in H as (? & ? & H & ?)
  | H : dec_field decodeInt64C _ _ _ = _ |- _ => apply dec_field_int64C_inv in H as (? & ? & ->)
  end.

Lemma decodeFileCreationEntry_range buf size e0 e :
  decodeFileCreationEntry buf size e0 = Some (true, e) -> nonneg64 (fc_seqId e).
Proof.
  intros (br & br' & E)%decodeEntry_inv. unfold fileCreation_body in E. decoded_fields. by simpl.
Qed.

Lemma decodeBlockWriteEntry_range buf size e0 e :
  decodeBlockWriteEntry buf size e0 = Some (true, e) ->
  nonneg64 (bw_offset e) /\ nonneg64 (bw_blockSize e).
Proof.
  intros (br & br' & E)%decodeEntry_inv. unfold blockWrite_body in E. decoded_fields. by simpl.
Qed.

(** ** Every entry keeps the invariant *)

Section entries.
Context (options : LogOptions) (stat : list Z -> option Z).
Context (rootDir recoveryId : list Z) (config : Z) (parseOnly : bool).

(** What processing an entry guarantees. *)
Definition processed (r : option (ErrorCode * LogParser)) : Prop :=
  exists code p', r = Some (code, p') /\ parser_inv p'.

Lemma processed_intro code p : parser_inv p -> processed (Some (code, p)).
Proof. intros. by exists code, p. Qed.
Hint Resolve processed_intro : wdt.

(** The bytes of an entry after its type. *)
Definition entry_range (buf : list Z) (size : Z) : Prop := 0 <= size <= INT16_MAX /\ size <= Zlen buf.

Ltac decoded :=
  match goal with
  | |- context [decodeEntry ?d ?buf ?size ?s] =>
      let ok := fresh "ok" in let e := fresh "e" in let E := fresh "E" in
      destruct (decodeEntry_safe d buf size s) as (ok & e & E);
      [eauto with wdt | done | done |]; rewrite E; destruct ok; simpl negb; cbv iota
  end.

Lemma processHeaderEntry_inv buf max size ip p : entry_range buf size -> parser_inv p ->
  exists code ip' p', processHeaderEntry recoveryId config parseOnly buf max size ip p =
    Some (code, ip', p') /\ parser_inv p'.
Proof.
  intros [Hs Hb] Hp. unfold processHeaderEntry. case_goal; [by eauto|].
  unfold decodeLogHeader. decoded; [|by eauto].
  repeat case_goal; do 3 eexists; (split; [done|]); auto with wdt.
Qed.

Lemma processDirectoryInvalidationEntry_inv buf size p : entry_range buf size -> parser_inv p ->
  processed (processDirectoryInvalidationEntry parseOnly buf size p).
Proof.
  intros [Hs Hb] Hp. unfold processDirectoryInvalidationEntry, decodeDirectoryInvalidationEntry.
  decoded; [|auto with wdt]. case_goal; auto with wdt.
Qed.

Lemma processFileInvalidationEntry_inv buf size p : entry_range buf size -> parser_inv p ->
  processed (processFileInvalidationEntry options parseOnly buf size p).
Proof.
  intros [Hs Hb] Hp. unfold processFileInvalidationEntry, decodeFileInvalidationEntry.
  case_goal; [auto with wdt|]. decoded; [|auto with wdt].
  repeat case_goal; auto with wdt. apply processed_intro. destruct Hp as [Hp Hinv].
  split; [|intros q Hq; apply Hinv; set_solver].
  intros q f Hf. simpl in Hf. apply lookup_delete_Some in Hf as [Hne Hf]. destruct (Hp q f Hf) as (? & ? & ? & ?).
  split_and!; auto. simpl. set_solver.
Qed.

Lemma processFileResizeEntry_inv buf size p : entry_range buf size -> parser_inv p ->
  processed (processFileResizeEntry options parseOnly buf size p).
Proof.
  intros [Hs Hb] Hp. unfold processFileResizeEntry, decodeFileResizeEntry.
  case_goal; [auto with wdt|]. decoded; [|auto with wdt].
  case_goal; [auto with wdt|]. case_goal; [auto with wdt|].
  destruct (fileInfoMap_ p !! fr_seqId e) as [ci|] eqn:Eci; [|auto with wdt].
  destruct (proj1 Hp _ _ Eci) as ([sz ->] & _). repeat case_goal; auto with wdt.
  apply processed_intro. destruct Hp as [Hp Hinv]. split; [|done]. intros q f Hf. destruct (Hp q f Hf) as (? & ? & ? & ?).
  split_and!; auto. simpl. destruct (decide (q = fr_seqId e)) as [->|].
  - rewrite lookup_insert_eq. eauto.
  - by rewrite lookup_insert_ne.
Qed.

Lemma map_emplace_None {A} k (v : A) m : m !! k = None -> map_emplace k v m = <[k := v]> m.
Proof. unfold map_emplace. by intros ->. Qed.
Lemma map_emplace_is_Some {A} k (v : A) m q : is_Some (map_emplace k v m !! q) <-> q = k \/ is_Some (m !! q).
Proof.
  unfold map_emplace. destruct (m !! k) eqn:E.
  - split; [tauto|]. intros [->|?]; eauto.
  - rewrite lookup_insert_is_Some. destruct (decide (k = q)); naive_solver.
Qed.

Lemma processFileCreationEntry_inv buf size p : entry_range buf size -> parser_inv p ->
  processed (processFileCreationEntry options stat rootDir parseOnly buf size p).
Proof.
  intros [Hs Hb] Hp. unfold processFileCreationEntry.
  pose proof (decodeFileCreationEntry_range buf size FileCreation_empty) as Hr.
  unfold decodeFileCreationEntry in *.
  case_goal; [auto with wdt|]. decoded; [|auto with wdt]. specialize (Hr e E).
  case_goal; [auto with wdt|]. case_goal; [auto with wdt|].
  case_goal; [auto with wdt|]. bool_to_prop.
  match goal with H : _ /\ _ |- _ => destruct H as [Hn Hi] end.
  apply eq_None_not_Some in Hn.
  assert (parser_inv (set_invalidSeqIds ({[fc_seqId e]} ∪ invalidSeqIds_ p) p)) as Hbad.
  { destruct Hp as [Hp Hinv]. split.
    - intros q f Hf. simpl in Hf. destruct (Hp q f Hf) as (? & ? & ? & ?).
      split_and!; auto. simpl. assert (q <> fc_seqId e) by congruence. set_solver.
    - apply set_Forall_union; [|done]. by apply set_Forall_singleton. }
  destruct (stat _) as [sz|]; [|auto with wdt].
  destruct (if shouldPreallocateFiles options then _ else _); [|auto with wdt].
  apply processed_intro. destruct Hp as [Hp Hinv]. split; [|done].
  intros q f. simpl. rewrite map_emplace_None by done.
  rewrite lookup_insert_Some. intros [[<- <-]|[Hne Hf]]; unfold file_ok; simpl.
  - rewrite map_emplace_is_Some. split_and!; auto.
  - destruct (Hp q f Hf) as (? & ? & ? & ?). rewrite map_emplace_is_Some. auto.
Qed.

(** The one way a block entry can stop the process. *)
Lemma processBlockWriteEntry_inv buf size p : entry_range buf size -> parser_inv p ->
  processed (processBlockWriteEntry options parseOnly buf size p) \/
  processBlockWriteEntry options parseOnly buf size p = None /\
  exists e, decodeBlockWriteEntry buf size BlockWrite_empty = Some (true, e) /\
    INT64_MAX < bw_offset e + bw_blockSize e.
Proof.
  intros [Hs Hb] Hp. unfold processBlockWriteEntry.
  case_goal; [auto with wdt|]. pose proof (decodeBlockWriteEntry_range buf size BlockWrite_empty) as Hr.
  unfold decodeBlockWriteEntry in *. decoded; [|auto with wdt]. rewrite E in Hr.
  destruct (Hr e eq_refl) as [[? ?] [? ?]].
  case_goal; [auto with wdt|]. case_goal; [auto with wdt|]. case_goal; [auto with wdt|].
  destruct (fileInfoMap_ p !! bw_seqId e) as [ci|] eqn:Eci; [|auto with wdt].
  destruct (Z.le_gt_cases (bw_offset e + bw_blockSize e) INT64_MAX) as [Hle|Hgt].
  2:{ case_goal; [auto with wdt|]. right. split; [|by eauto].
      assert (wrapS 64 (bw_offset e + bw_blockSize e) = bw_offset e + bw_blockSize e - 2 ^ 64) as ->.
      { unfold wrapS, INT64_MAX in *. cut ((bw_offset e + bw_blockSize e + 2 ^ (64 - 1)) mod 2 ^ 64 =
          bw_offset e + bw_blockSize e + 2 ^ (64 - 1) - 2 ^ 64); [lia|].
        symmetry. apply Z.mod_unique with 1; lia. }
      unfold Interval_make, INT64_MAX in *.
      by replace (_ <=? _) with false by (symmetry; bool_to_prop; lia). }
  left. unfold INT64_MAX in *. rewrite wrapS_small by (unfold inS; lia).
  case_goal; [auto with wdt|]. bool_to_prop. unfold Interval_make.
  replace (_ <=? _) with true by (symmetry; bool_to_prop; lia).
  apply processed_intro. destruct Hp as [Hp Hinv]. split; [|done].
  intros q f. simpl. rewrite lookup_insert_Some. intros [[<- <-]|[Hne Hf]].
  - destruct (Hp _ _ Eci) as (? & ? & ? & Hc). split_and!; auto. simpl.
    apply Forall_app. split; [done|]. constructor; [simpl; lia|done].
  - destruct (Hp q f Hf) as (? & ? & ? & ?). split_and!; auto.
Qed.
End entries.

(** ** The loop on arbitrary bytes *)

Section loop.
Context `{Host}.
Context (options : LogOptions) (stat : list Z -> option Z).
Context (rootDir recoveryId : list Z) (config : Z) (parseOnly : bool).
Context (fault : nat -> Fault) (now : nat -> Z).

(** The log holds a block entry whose end does not fit in 64 bits. *)
Definition overflowing_block (log : list Z) : Prop :=
  exists pre entry post e, log = pre ++ entry ++ post /\
    head entry = Some (EntryType_value BLOCK_WRITE) /\
    decodeBlockWriteEntry (tail entry) (Zlen entry - 1) BlockWrite_empty = Some (true, e) /\
    INT64_MAX < bw_offset e + bw_blockSize e.

Lemma sys_read_spec n f : 0 <= n -> 0 <= pos f ->
  exists k bs f', sys_read fault n f = (k, bs, f') /\ content f' = content f /\
    pos f <= pos f' /\ 0 <= pos f' /\
    (k < 0 \/ k = Zlen bs /\ k <= n /\ pos f' = pos f + k /\
       exists pre post, content f = pre ++ bs ++ post /\ (0 < k -> pos f' <= Zlen (content f))).
Proof.
  intros Hn Hp. unfold sys_read. set (k := granted fault f n).
  destruct (k <? 0) eqn:Ek; bool_to_prop; do 3 eexists; (split; [done|]); simpl.
  { split_and!; auto; lia. }
  split_and!; try lia; [done|]. right.
  assert (k <= n) by (unfold k, granted; repeat case_goal; lia).
  split_and!; [done| |done|].
  - rewrite length_take. lia.
  - exists (take (Z.to_nat (pos f)) (content f)),
      (drop (Z.to_nat k) (drop (Z.to_nat (pos f)) (content f))).
    rewrite take_drop, take_drop. split; [done|]. rewrite length_take, length_drop. lia.
Qed.

Lemma processEntry_inv type buf entryLen ip p :
  entry_range buf entryLen -> parser_inv p ->
  (exists code ip' p', processEntry options stat rootDir recoveryId config parseOnly type buf
     entryLen ip p = Some (code, ip', p') /\ parser_inv p') \/
  (processEntry options stat rootDir recoveryId config parseOnly type buf entryLen ip p = None /\
   type = EntryType_value BLOCK_WRITE /\
   exists e, decodeBlockWriteEntry buf entryLen BlockWrite_empty = Some (true, e) /\
     INT64_MAX < bw_offset e + bw_blockSize e).
Proof.
  intros Hr Hp. unfold processEntry.
  assert (forall r, processed r ->
    exists code ip' p', (let* (status, p) := r in Some (Some status, ip, p)) = Some (code, ip', p') /\
      parser_inv p') as Hk by (intros r (code & p' & -> & ?); eauto).
  case_goal.
  { left. destruct (processHeaderEntry_inv recoveryId config parseOnly buf (kMaxEntryLength - 1)
      entryLen ip p Hr Hp) as (code & ip' & p' & -> & ?). eauto. }
  case_goal; [left; by apply Hk, processFileCreationEntry_inv|].
  case_goal.
  { bool_to_prop. destruct (processBlockWriteEntry_inv options parseOnly buf entryLen p Hr Hp)
      as [|[-> ?]]; [left; by apply Hk|by right]. }
  case_goal; [left; by apply Hk, processFileResizeEntry_inv|].
  case_goal; [left; by apply Hk, processFileInvalidationEntry_inv|].
  case_goal; [left; by apply Hk, processDirectoryInvalidationEntry_inv|].
  left. eauto.
Qed.

Lemma handle_entry_inv entry s : 0 < Zlen entry <= kMaxEntryLength -> parser_inv (ps_parser s) ->
  (exists c s', handle_entry options stat rootDir recoveryId config parseOnly entry (Zlen entry) s
     = Some (c, s') /\ parser_inv (ps_parser s') /\ ps_file s' = ps_file s) \/
  (handle_entry options stat rootDir recoveryId config parseOnly entry (Zlen entry) s = None /\
   exists b e, head entry = Some b /\ schar b = EntryType_value BLOCK_WRITE /\
     decodeBlockWriteEntry (tail entry) (Zlen entry - 1) BlockWrite_empty = Some (true, e) /\
     INT64_MAX < bw_offset e + bw_blockSize e).
Proof.
  intros Hl Hp. unfold handle_entry. destruct entry as [|b entry]; [simpl in Hl; lia|].
  cbn [head tail]. case_goal; [left; by eauto|].
  assert (entry_range entry (Zlen (b :: entry) - 1)) as Hr.
  { unfold entry_range, INT16_MAX, kMaxEntryLength, PATH_MAX in *. zlen. }
  destruct (processEntry_inv (schar b) entry (Zlen (b :: entry) - 1) (ps_senderIp s) (ps_parser s) Hr Hp)
    as [(code & ip & p & -> & Hp')|(-> & Ht & e & ? & ?)]; [left|right; by eauto 10].
  repeat case_goal; do 2 eexists; (split; [done|]); simpl; auto with wdt.
Qed.

Lemma schar_BLOCK_WRITE b : is_byte b -> schar b = EntryType_value BLOCK_WRITE ->
  b = EntryType_value BLOCK_WRITE.
Proof.
  intros Hb. pose proof (byte_forall (fun b => negb (schar b =? 2) || (b =? 2)) eq_refl b Hb) as HP.
  cbv beta in HP. simpl. intros E. rewrite E in HP. bool_to_prop. destruct HP; [done|lia].
Qed.

Lemma parse_step_inv s : Forall is_byte (content (ps_file s)) ->
  0 <= pos (ps_file s) -> parser_inv (ps_parser s) ->
  (exists c s', parse_step options stat rootDir recoveryId config parseOnly fault s = Some (c, s') /\
     parser_inv (ps_parser s') /\
     (c = Continue -> content (ps_file s') = content (ps_file s) /\
        pos (ps_file s) < pos (ps_file s') <= Zlen (content (ps_file s)))) \/
  overflowing_block (content (ps_file s)).
Proof.
  intros Hby Hpos Hp. unfold parse_step, sizeof_int16.
  destruct (sys_read_spec 2 (ps_file s) ltac:(lia) Hpos)
    as (k & bs & f1 & -> & Hc1 & Hm1 & Hp1 & Hk1).
  assert (forall n s, parser_inv (ps_parser s) -> exists c s',
    Some (extra_bytes parseOnly fault n s) = Some (c, s') /\ parser_inv (ps_parser s') /\
    c <> Continue) as Hextra.
  { clear. intros n s Hp. unfold extra_bytes. repeat case_goal; do 2 eexists; by split_and!. }
  repeat (case_goal; [left; do 2 eexists; (split; [done|]); by split|]).
  case_goal.
  { left. destruct (Hextra k (with_file f1 s) Hp) as (c & s' & -> & ? & ?).
    exists c, s'. by split_and!. }
  case_goal; [left; do 2 eexists; (split; [done|]); by split|]. bool_to_prop.
  set (sz := loadUnaligned 2 bs) in *. cbn [with_file ps_file].
  destruct (sys_read_spec sz f1 ltac:(lia) Hp1) as (k2 & bs2 & f2 & -> & Hc2 & Hm2 & Hp2 & Hk2).
  case_goal; [left; do 2 eexists; (split; [done|]); by split|].
  case_goal.
  { left. destruct (Hextra (k2 + 2) (with_file f2 (with_file f1 s)) Hp) as (c & s' & -> & ? & ?).
    exists c, s'. by split_and!. }
  bool_to_prop. destruct Hk2 as [|(-> & _ & Hpos2 & pre & post & Epre & Hle)]; [lia|].
  destruct Hk1 as [|(-> & _ & Hpos1 & _)]; [lia|].
  assert (sz = Zlen bs2) as -> by lia.
  destruct (handle_entry_inv bs2 (with_file f2 (with_file f1 s)) ltac:(lia) Hp)
    as [(c & s' & E & Hp' & Hf)|(_ & b & e & Hh & Ht & Hd & Ho)].
  - left. exists c, s'. rewrite E. split_and!; [done|done|]. intros _. rewrite Hf. simpl.
    rewrite Hc1 in Hc2, Hle. split; [done|]. lia.
  - right. exists pre, bs2, post, e. rewrite <- Hc1. split_and!; try done.
    rewrite Hh. f_equal. apply schar_BLOCK_WRITE; [|done].
    rewrite <- Hc1, Epre in Hby. apply Forall_app in Hby as [_ Hby].
    apply Forall_app in Hby as [Hby _]. destruct bs2; [done|]. simplify_eq/=. by inversion Hby.
Qed.

(** The fuel covers the log: the loop ends. *)
Lemma parse_loop_inv fuel s : Forall is_byte (content (ps_file s)) -> 0 <= pos (ps_file s) ->
  parser_inv (ps_parser s) -> Zlen (content (ps_file s)) - pos (ps_file s) < Z.of_nat fuel ->
  (0 < fuel)%nat ->
  (exists r s', parse_loop options stat rootDir recoveryId config parseOnly fault fuel s = Some (r, s') /\
     parser_inv (ps_parser s')) \/
  overflowing_block (content (ps_file s)).
Proof.
  revert s. induction fuel as [|fuel IH]; intros s Hby Hpos Hp Hf Hf0; [lia|]. cbn [parse_loop].
  destruct (parse_step_inv s Hby Hpos Hp) as [(c & s' & -> & Hp' & Hc)|]; [|by right].
  destruct c; [left; by eauto..|]. destruct (Hc eq_refl) as [Ec Hc'].
  rewrite <- Ec in *. apply IH; [done|lia|done|lia|lia].
Qed.

Lemma writeFileInvalidationEntries_total seqIds f :
  (forall n, nonneg64 (now n)) -> Forall nonneg64 seqIds ->
  exists ok f', writeFileInvalidationEntries fault now seqIds f = Some (ok, f').
Proof.
  intros Hnow Hq. revert f. induction Hq as [|q seqIds Hq _ IH]; intros f;
    cbn [writeFileInvalidationEntries]; [eauto|].
  destruct (encode_entry_spec (EInvalidation (mkFileInvalidation (now (calls f)) q)) stack_buffer)
    as (dest' & E & _); [split; [apply Hnow|exact Hq]|done|]. cbn [encode_entry fi_timestamp fi_seqId] in E. rewrite E.
  destruct (sys_write _ _ _ _). case_goal; eauto.
Qed.

(** What a caller can rely on for each file it gets. *)
Definition chunks_in_file (f : FileChunksInfo) : Prop :=
  Forall wf_interval (chunks_ f) /\ Forall (fun c => 0 <= start_ c /\ end_ c <= fileSize_ f) (chunks_ f).

Lemma file_ok_chunks p q f : file_ok p q f -> chunks_in_file f.
Proof.
  intros (_ & _ & _ & Hc). split; eapply Forall_impl; eauto; unfold wf_interval; intros c; simpl; lia.
Qed.

Lemma mergeChunks_chunks_in_file f : chunks_in_file f -> chunks_in_file (mergeChunks f).
Proof.
  intros [Hwf Hin]. destruct (mergeChunks_spec f Hwf) as ((lo & Hsep) & Ht).
  unfold chunks_in_file. assert (fileSize_ (mergeChunks f) = fileSize_ f) as -> by (unfold mergeChunks; by case_goal).
  assert (Forall wf_interval (chunks_ (mergeChunks f))) as Hwf'.
  { clear Ht. revert lo Hsep. generalize (chunks_ (mergeChunks f)).
    induction l as [|c l IH]; intros lo; simpl; [done|]. intros (? & ? & ?). eauto. }
  split; [done|]. apply Forall_forall. intros c Hc.
  rewrite Forall_forall in Hwf'. specialize (Hwf' c Hc). unfold wf_interval in Hwf'.
  assert (forall x, touches (chunks_ f) x -> 0 <= x <= 2 * fileSize_ f) as Hb.
  { intros x (d & Hd & ?)%Exists_exists. rewrite Forall_forall in Hin. specialize (Hin d Hd). lia. }
  assert (touches (chunks_ (mergeChunks f)) (2 * start_ c)) as H1%Ht%Hb
    by (apply Exists_exists; exists c; split; [done|lia]).
  assert (touches (chunks_ (mergeChunks f)) (2 * end_ c)) as H2%Ht%Hb
    by (apply Exists_exists; exists c; split; [done|lia]). lia.
Qed.

Lemma parsed_files_ok p : parser_inv p -> Forall chunks_in_file (parsed_files p).
Proof.
  intros [Hp _]. unfold parsed_files. apply Forall_forall. intros f Hf.
  apply list_elem_of_fmap in Hf as ([q g] & -> & Hg). simpl. apply mergeChunks_chunks_in_file.
  unfold map_in_order in Hg. rewrite merge_sort_Permutation in Hg.
  apply elem_of_map_to_list in Hg. by eapply file_ok_chunks, Hp.
Qed.
End loop.

(** ** Properties *)


(** A log whose second entry is the creation of a file, the third a block of it
    that ends at [2 ^ 63]. *)
Definition ex_overflow_log : list Z :=
  @entry_bytes littleHost (EHeader (mkLogHeader 5 WLOG_VERSION [114] [49] 7)) ++
  @entry_bytes littleHost (ECreation (mkFileCreation 6 [97] 3 100)) ++
  @entry_bytes littleHost (EBlock (mkBlockWrite 7 3 INT64_MAX 1)).
Definition ex_log_options : LogOptions := mkLogOptions true false false true false 100.


(** The exception of the previous property is real: a log with a
    header, the creation of a file and a block of it whose offset plus size is
    [2 ^ 63] makes the parser abort instead of reporting an invalid log: the
    sum wraps to a negative number, passes the comparison with the size on
    disk, and the constructor of the interval fails its check. *)
Theorem corrupt_block_entry_aborts :
  @parseLog littleHost ex_log_options (fun _ => Some 100) [47] [114] 7 false (fun _ => NoFault)
    (fun _ => 9) (mkLogFile ex_overflow_log 0 0) [] [] = None.
Proof. vm_compute. reflexivity. Qed.
