(* ===== verification/LogReplay.v ===== *)
(** What a log that was written by the manager replays to.

    The bytes of a list of entries are parsed back to those entries
    ([replay]), a partial entry at the end is cut off, and the history of a
    transfer (a header, file creations, blocks) gives for every file exactly
    the bytes of its blocks. *)
From S2P Require Import Prelude Serialization ErrorCodes Chunks Protocol ProtocolProps.
From S2P Require Import LogEntries LogParser LogParserProps.

Definition log_bytes `{Host} (es : list LogEntry) : list Z := concat (entry_bytes <$> es).

Lemma log_bytes_app `{Host} es es' : log_bytes (es ++ es') = log_bytes es ++ log_bytes es'.
Proof. unfold log_bytes. by rewrite fmap_app, concat_app. Qed.

Section replay.
Context `{Host}.
Context (options : LogOptions) (stat : list Z -> option Z).
Context (rootDir recoveryId : list Z) (config : Z) (parseOnly : bool).
Context (fault : nat -> Fault) (now : nat -> Z).
Hypothesis no_fault : forall n, fault n = NoFault.

Abbreviation handle := (handle_entry options stat rootDir recoveryId config parseOnly).
Abbreviation step := (parse_step options stat rootDir recoveryId config parseOnly fault).
Abbreviation loop := (parse_loop options stat rootDir recoveryId config parseOnly fault).

(** Processing entries rather than bytes. *)
Fixpoint replay (es : list LogEntry) (s : ParseState) : option (option ErrorCode * ParseState) :=
  match es with
  | [] => Some (None, s)
  | e :: es =>
      let* (c, s) := handle (entry_payload e) (Zlen (entry_payload e)) s in
      match c with
      | Return code => Some (Some code, s)
      | _ => replay es s
      end
  end.

Lemma handle_entry_not_break entry n s c s' : handle entry n s = Some (c, s') ->
  c <> Break /\ ps_file s' = ps_file s.
Proof. unfold handle_entry. intros E. repeat case_hyp E; simplify_eq; by split. Qed.

Lemma handle_entry_with_file entry n f s :
  handle entry n (with_file f s) =
  let* (c, s') := handle entry n s in Some (c, with_file f s').
Proof. unfold handle_entry, with_file. simpl. repeat case_goal; simplify_eq; done. Qed.

Lemma replay_with_file es f s :
  replay es (with_file f s) = let* (c, s') := replay es s in Some (c, with_file f s').
Proof.
  revert s. induction es as [|e es IH]; intros s; cbn [replay]; [done|].
  rewrite handle_entry_with_file. destruct (handle _ _ s) as [[[]]|]; try done; apply IH.
Qed.

(** ** Reading an entry *)

Lemma Zlen_entry_bytes e : Zlen (entry_bytes e) = 2 + Zlen (entry_payload e).
Proof.
  unfold entry_bytes. rewrite Zlen_app.
  pose proof (storeUnaligned_length sizeof_int16 (Zlen (entry_payload e)) ltac:(done)) as Hl.
  unfold sizeof_int16 in *. lia.
Qed.

(** A read of what follows the offset, as much as there is. *)
Lemma sys_read_prefix n c pre bs post k : c = pre ++ bs ++ post -> 0 <= n ->
  Zlen bs = Z.min n (Zlen (bs ++ post)) ->
  sys_read fault n (mkLogFile c (Zlen pre) k) =
    (Zlen bs, bs, mkLogFile c (Zlen (pre ++ bs)) (S k)).
Proof.
  intros -> Hn Hl. unfold sys_read, granted. cbn [content pos calls]. rewrite no_fault.
  replace (n <? 0) with false by (symmetry; bool_to_prop; lia).
  rewrite Nat2Z.id, drop_app_length.
  assert (take (Z.to_nat n) (bs ++ post) = bs) as ->.
  { destruct (Z.le_gt_cases n (Zlen (bs ++ post))).
    - replace (Z.to_nat n) with (length bs) by lia. apply take_app_length.
    - rewrite take_ge by lia. assert (length post = 0)%nat as E by zlen.
      apply nil_length_inv in E. by rewrite E, app_nil_r. }
  do 2 f_equal. zlen.
Qed.

Lemma step_entry e s pre post k : wf_entry e ->
  ps_file s = mkLogFile (pre ++ entry_bytes e ++ post) (Zlen pre) k ->
  step s = handle (entry_payload e) (Zlen (entry_payload e))
    (with_file (mkLogFile (pre ++ entry_bytes e ++ post) (Zlen (pre ++ entry_bytes e)) (S (S k))) s).
Proof.
  intros Hwf Hf. unfold parse_step. rewrite Hf. pose proof (Zlen_entry_payload e Hwf) as Hp.
  set (c := pre ++ entry_bytes e ++ post). set (st := storeUnaligned sizeof_int16 (Zlen (entry_payload e))).
  pose proof (storeUnaligned_length sizeof_int16 (Zlen (entry_payload e)) ltac:(done)) as Hst.
  fold st in Hst. unfold sizeof_int16 in Hst.
  rewrite (sys_read_prefix sizeof_int16 c pre st (entry_payload e ++ post))
    by (first [done | unfold c, entry_bytes; by rewrite <- app_assoc | unfold sizeof_int16; zlen]).
  rewrite Hst. change (2 <? 0) with false. change (2 =? 0) with false.
  change (negb (2 =? sizeof_int16)) with false. cbv iota.
  assert (loadUnaligned sizeof_int16 st = Zlen (entry_payload e)) as ->.
  { unfold st. rewrite <- (app_nil_r (storeUnaligned _ _)).
    apply loadUnaligned_store; [done|]. unfold inS, sizeof_int16, kMaxEntryLength, PATH_MAX in *. lia. }
  replace (_ || _) with false by (symmetry; bool_to_prop; lia). cbn [with_file ps_file].
  rewrite (sys_read_prefix _ c (pre ++ st) (entry_payload e) post)
    by (first [lia | unfold c, entry_bytes; by rewrite <- !app_assoc | zlen]).
  replace (Zlen (entry_payload e) <? 0) with false by (symmetry; bool_to_prop; lia).
  rewrite Z.eqb_refl. cbn [negb]. f_equal. unfold with_file. simpl. f_equal. f_equal.
  unfold entry_bytes. by rewrite <- app_assoc.
Qed.

(** Parsing the bytes of a list of entries is replaying them. *)
Lemma loop_replay es : Forall wf_entry es -> forall fuel s pre post k,
  ps_file s = mkLogFile (pre ++ log_bytes es ++ post) (Zlen pre) k ->
  (length es < fuel)%nat ->
  match replay es s with
  | None => loop fuel s = None
  | Some (Some code, s') => exists f', loop fuel s = Some (Some code, with_file f' s')
  | Some (None, s') => exists k', loop fuel s = loop (fuel - length es)
      (with_file (mkLogFile (pre ++ log_bytes es ++ post) (Zlen (pre ++ log_bytes es)) k') s')
  end.
Proof.
  induction 1 as [|e es He Hes IH]; intros fuel s pre post k Hf Hfuel.
  { cbn [replay]. exists k. rewrite Nat.sub_0_r. unfold log_bytes in *. simpl in *.
    rewrite app_nil_r, <- Hf. by destruct s. }
  destruct fuel as [|fuel]; [simpl in Hfuel; lia|].
  unfold log_bytes in *. rewrite fmap_cons in *. cbn [concat] in *.
  rewrite <- app_assoc in Hf. pose proof (step_entry e s pre _ k He Hf) as Es.
  rewrite handle_entry_with_file in Es. cbn [replay parse_loop]. rewrite Es.
  destruct (handle (entry_payload e) (Zlen (entry_payload e)) s) as [[c s1]|] eqn:Eh; [|done].
  destruct c as [code| |].
  - by eexists.
  - by apply handle_entry_not_break in Eh as [[] _].
  - set (f1 := mkLogFile _ (Zlen (pre ++ entry_bytes e)) _) in *.
    specialize (IH fuel (with_file f1 s1) (pre ++ entry_bytes e) post (S (S k))).
    rewrite replay_with_file in IH. rewrite <- !app_assoc in IH.
    specialize (IH eq_refl ltac:(simpl in Hfuel; lia)).
    destruct (replay es s1) as [[[code|] s2]|]; cbv iota in *; [done|..|done].
    destruct IH as (k' & ->). exists k'. cbn [Nat.sub length]. by rewrite <- !app_assoc.
Qed.

(** ** The end of the log *)

Lemma step_end s c k : ps_file s = mkLogFile c (Zlen c) k ->
  step s = Some (Break, with_file (mkLogFile c (Zlen c) (S k)) s).
Proof.
  intros Hf. unfold parse_step. rewrite Hf.
  rewrite (sys_read_prefix sizeof_int16 c c [] []) by (rewrite ?app_nil_r; done).
  by rewrite app_nil_r.
Qed.

Lemma truncate_tail pre t p k :
  truncateExtraBytesAtEnd fault (Zlen t) (mkLogFile (pre ++ t) p k) =
    (true, mkLogFile pre (Zlen pre) (S (S (S k)))).
Proof.
  unfold truncateExtraBytesAtEnd, sys_fstat, sys_ftruncate, sys_lseek, sys_ok.
  cbn [content calls pos]. rewrite !no_fault. rewrite Zlen_app.
  replace (Zlen pre + Zlen t - Zlen t) with (Zlen pre) by lia.
  replace (0 <=? Zlen pre) with true by (symmetry; bool_to_prop; lia). simpl negb. cbv iota.
  cbn [content calls pos]. rewrite ?no_fault. cbn [andb].
  rewrite Nat2Z.id, take_app_length, length_app.
  replace (length pre - _)%nat with 0%nat by lia. rewrite app_nil_r. cbn. by rewrite !no_fault.
Qed.

(** A partial entry at the end is removed, and the offset left where the next
    entry goes. *)
Lemma step_torn e t s pre k : parseOnly = false -> wf_entry e -> t `prefix_of` entry_bytes e ->
  t <> [] -> t <> entry_bytes e ->
  ps_file s = mkLogFile (pre ++ t) (Zlen pre) k ->
  exists k', step s = Some (Break, with_file (mkLogFile pre (Zlen pre) k') s).
Proof.
  intros Hpo Hwf Hpre Hne Hne' Hf. unfold parse_step. rewrite Hf.
  pose proof (Zlen_entry_payload e Hwf) as Hp. pose proof (Zlen_entry_bytes e) as Hl.
  pose proof (prefix_length _ _ Hpre) as Hlt.
  assert (Zlen t <> Zlen (entry_bytes e)) as Hlt'.
  { intros E. apply Hne', prefix_length_eq; [done|lia]. }
  assert (1 <= Zlen t) as H1 by (destruct t; [done|zlen]).
  assert (forall f n, f = mkLogFile (pre ++ t) n (calls f) -> extra_bytes parseOnly fault (Zlen t) (with_file f s) =
    (Break, with_file (mkLogFile pre (Zlen pre) (S (S (S (calls f))))) s)) as Hextra.
  { intros f n ->. unfold extra_bytes. rewrite Hpo. cbn [ps_file with_file].
    by rewrite truncate_tail. }
  unfold sizeof_int16. destruct (Z.le_gt_cases 2 (Zlen t)) as [H2|H2].
  2:{ rewrite (sys_read_prefix 2 (pre ++ t) pre t []) by (rewrite ?app_nil_r; done || lia).
      replace (Zlen t <? 0) with false by (symmetry; bool_to_prop; lia).
      replace (Zlen t =? 0) with false by (symmetry; bool_to_prop; lia).
      replace (Zlen t =? 2) with false by (symmetry; bool_to_prop; lia).
      cbn [negb]. rewrite (Hextra _ (Zlen (pre ++ t))) by done. by eexists. }
  assert (exists t', t = storeUnaligned sizeof_int16 (Zlen (entry_payload e)) ++ t' /\
    t' `prefix_of` entry_payload e) as (t' & Et & Ht').
  { destruct Hpre as [rest Er]. unfold entry_bytes in Er.
    pose proof (storeUnaligned_length sizeof_int16 (Zlen (entry_payload e)) ltac:(done)) as Hst.
    set (st := storeUnaligned _ _) in *. unfold sizeof_int16 in Hst.
    exists (drop (length st) t). assert (t = st ++ drop (length st) t) as E.
    { rewrite <- (take_drop (length st) t) at 1. f_equal.
      apply (f_equal (take (length st))) in Er. rewrite take_app_length in Er.
      rewrite take_app_le in Er by lia. by symmetry. }
    split; [exact E|]. exists rest. apply (f_equal (drop (length st))) in Er.
    by rewrite drop_app_length, drop_app_le in Er by lia. }
  set (st := storeUnaligned sizeof_int16 (Zlen (entry_payload e))) in *.
  assert (Zlen st = 2) as Hst by exact (storeUnaligned_length sizeof_int16 _ ltac:(done)).
  assert (Zlen t = 2 + Zlen t') as Elt by (rewrite Et; zlen).
  rewrite (sys_read_prefix 2 (pre ++ t) pre st t') by (rewrite ?Et; zlen || done).
  rewrite Hst. simpl Z.ltb. simpl Z.eqb. cbn [negb]. cbv iota.
  assert (loadUnaligned 2 st = Zlen (entry_payload e)) as ->.
  { unfold st. rewrite <- (app_nil_r (storeUnaligned _ _)).
    apply loadUnaligned_store; [done|]. unfold inS, sizeof_int16, kMaxEntryLength, PATH_MAX in *. lia. }
  replace (_ || _) with false by (symmetry; bool_to_prop; lia). cbn [with_file ps_file].
  rewrite (sys_read_prefix _ (pre ++ t) (pre ++ st) t' [])
    by (rewrite ?Et, ?app_nil_r, <- ?app_assoc; done || zlen).
  replace (Zlen t' <? 0) with false by (symmetry; bool_to_prop; lia).
  replace (Zlen t' =? Zlen (entry_payload e)) with false by (symmetry; bool_to_prop; lia).
  cbn [negb]. replace (Zlen t' + 2) with (Zlen t) by lia.
  unfold with_file in *. cbn [ps_file ps_parser ps_senderIp ps_status] in *.
  rewrite (Hextra _ (Zlen ((pre ++ st) ++ t'))) by done. by eexists.
Qed.

(** A torn or absent last entry. *)
Definition torn (t : list Z) : Prop :=
  t = [] \/ exists e, wf_entry e /\ t `prefix_of` entry_bytes e /\ t <> entry_bytes e.

Lemma step_tail t s pre k : parseOnly = false -> torn t ->
  ps_file s = mkLogFile (pre ++ t) (Zlen pre) k ->
  exists k', step s = Some (Break, with_file (mkLogFile pre (Zlen pre) k') s).
Proof.
  intros Hpo Ht Hf. destruct t as [|b t].
  { rewrite app_nil_r in Hf. eexists. by apply step_end. }
  destruct Ht as [|(e & Hwf & Hp & Hne)]; [done|]. by eapply step_torn.
Qed.

Lemma length_log_bytes es : (length es <= length (log_bytes es))%nat.
Proof.
  apply length_concat_ge. intros e. pose proof (Zlen_entry_bytes e). lia.
Qed.

(** The whole of [parseLog] on such a log. *)
Lemma parseLog_log_bytes es t ip files k : parseOnly = false -> Forall wf_entry es -> torn t ->
  let f := mkLogFile (log_bytes es ++ t) 0 k in
  let parse := parseLog options stat rootDir recoveryId config parseOnly fault now f ip files in
  match replay es (mkParseState f LogParser_init ip OK) with
  | None => parse = None
  | Some (Some code, s') => exists f', parse = Some (code, ps_senderIp s', files, f')
  | Some (None, s') => exists k', parse = finishParse fault now
      (with_file (mkLogFile (log_bytes es) (Zlen (log_bytes es)) k') s') files
  end.
Proof.
  intros Hpo Hwf Ht f parse. unfold parse, parseLog.
  pose proof (loop_replay es Hwf (S (length (content f))) (mkParseState f LogParser_init ip OK)
    [] t k eq_refl) as Hl.
  pose proof (length_log_bytes es) as Hlen.
  specialize (Hl ltac:(unfold f; simpl; rewrite length_app; lia)).
  destruct (replay es _) as [[[code|] s']|]; [..|by rewrite Hl].
  - destruct Hl as (f' & ->). by eexists.
  - destruct Hl as (k' & ->). rewrite !app_nil_l.
    destruct (S (length (content f)) - length es)%nat as [|fuel] eqn:Ef.
    { unfold f in Ef. simpl in Ef. rewrite length_app in Ef. lia. }
    cbn [parse_loop]. edestruct (step_tail t) as (k2 & ->); [done|done|reflexivity|]. by exists k2.
Qed.

(** ** After the loop *)

Lemma replay_inv es s r s' : Forall wf_entry es -> parser_inv (ps_parser s) ->
  replay es s = Some (r, s') -> parser_inv (ps_parser s').
Proof.
  intros Hwf. revert s. induction Hwf as [|e es He _ IH]; intros s Hp; cbn [replay];
    [by intros [= _ <-]|].
  pose proof (Zlen_entry_payload e He) as Hl.
  destruct (handle_entry_inv options stat rootDir recoveryId config parseOnly (entry_payload e) s
    ltac:(lia) Hp) as [(c & s1 & -> & Hp1 & _)|[-> _]]; [|done].
  destruct c; [by intros [= _ <-]|by apply IH..].
Qed.

(** The loop only returns early because the log is invalid. *)
Lemma replay_returns_invalid es s code s' : replay es s = Some (Some code, s') -> code = INVALID_LOG.
Proof.
  revert s. induction es as [|e es IH]; intros s; cbn [replay]; [done|].
  destruct (handle _ _ s) as [[c s1]|] eqn:E; [|done].
  destruct c; [|by apply IH..]. intros [= <- <-].
  unfold handle_entry in E. repeat case_hyp E; simplify_eq; bool_to_prop; congruence.
Qed.

Definition is_invalidation (e : LogEntry) : Prop :=
  match e with EInvalidation _ => True | _ => False end.

Lemma write_at_end bs c : write_at (Zlen c) bs c = c ++ bs.
Proof.
  unfold write_at. rewrite Nat2Z.id, Nat.sub_diag, app_nil_r. rewrite take_ge by done.
  rewrite drop_ge by lia. by rewrite app_nil_r.
Qed.

(** Without faults, a [write] of an entry at the end of the log appends it. *)
Lemma sys_write_entry e dest c k :
  take (Z.to_nat (2 + Zlen (entry_payload e))) dest = entry_bytes e ->
  sys_write fault dest (2 + Zlen (entry_payload e)) (mkLogFile c (Zlen c) k) =
    (2 + Zlen (entry_payload e), mkLogFile (c ++ entry_bytes e) (Zlen (c ++ entry_bytes e)) (S k)).
Proof.
  intros E. unfold sys_write, granted. cbn [calls content pos]. rewrite no_fault.
  replace (_ <? 0) with false by (symmetry; bool_to_prop; lia).
  rewrite E, write_at_end, Zlen_entry_bytes. do 2 f_equal. rewrite Zlen_app, Zlen_entry_bytes. lia.
Qed.

Lemma writeFileInvalidationEntries_spec seqIds c k :
  (forall n, nonneg64 (now n)) -> Forall nonneg64 seqIds ->
  exists invs k', writeFileInvalidationEntries fault now seqIds (mkLogFile c (Zlen c) k) =
      Some (true, mkLogFile (c ++ log_bytes invs) (Zlen (c ++ log_bytes invs)) k') /\
    Forall wf_entry invs /\ Forall is_invalidation invs.
Proof.
  intros Hnow Hq. revert c k. induction Hq as [|q seqIds Hq _ IH]; intros c k;
    cbn [writeFileInvalidationEntries].
  { exists [], k. unfold log_bytes. simpl. by rewrite app_nil_r. }
  set (e := EInvalidation (mkFileInvalidation (now k) q)).
  assert (wf_entry e) as He by (split; [apply Hnow|exact Hq]).
  destruct (encode_entry_spec e stack_buffer He ltac:(done)) as (dest' & E & Ht).
  cbn [encode_entry e fi_timestamp fi_seqId] in E. cbn [calls]. rewrite E.
  rewrite (sys_write_entry e dest' c k Ht), Z.eqb_refl. cbn [negb].
  destruct (IH (c ++ entry_bytes e) (S k)) as (invs & k' & -> & ? & ?).
  exists (e :: invs), k'. split_and!; [|by constructor..].
  change (log_bytes (e :: invs)) with (entry_bytes e ++ log_bytes invs). by rewrite app_assoc.
Qed.

Lemma finishParse_spec s c k files : (forall n, nonneg64 (now n)) -> parser_inv (ps_parser s) ->
  ps_file s = mkLogFile c (Zlen c) k ->
  exists invs k', finishParse fault now s files =
    Some (ps_status s, ps_senderIp s,
      files ++ (if bool_decide (ps_status s = OK) then parsed_files (ps_parser s) else []),
      mkLogFile (c ++ log_bytes invs) (Zlen (c ++ log_bytes invs)) k') /\
    Forall wf_entry invs /\ Forall is_invalidation invs /\
    (invalidSeqIds_ (ps_parser s) = ∅ -> invs = []).
Proof.
  intros Hnow [_ Hi] Hf. unfold finishParse. rewrite Hf.
  assert (c ++ log_bytes [] = c) as Enil by (unfold log_bytes; simpl; by rewrite app_nil_r).
  case_bool_decide as Es; [case_bool_decide|].
  1,3: exists [], k; rewrite Enil, ?app_nil_r; by split_and!.
  destruct (writeFileInvalidationEntries_spec (set_in_order (invalidSeqIds_ (ps_parser s))) c k Hnow)
    as (invs & k' & -> & ? & ?).
  { unfold set_in_order. rewrite merge_sort_Permutation. by apply set_Forall_elements. }
  exists invs, k'. by split_and!.
Qed.

(** Parsing an intact log, in one statement. *)
Lemma parseLog_intact es t ip files k s' : parseOnly = false -> Forall wf_entry es -> torn t ->
  (forall n, nonneg64 (now n)) ->
  replay es (mkParseState (mkLogFile [] 0 0) LogParser_init ip OK) = Some (None, s') ->
  exists invs k',
    parseLog options stat rootDir recoveryId config parseOnly fault now
      (mkLogFile (log_bytes es ++ t) 0 k) ip files =
    Some (ps_status s', ps_senderIp s',
      files ++ (if bool_decide (ps_status s' = OK) then parsed_files (ps_parser s') else []),
      mkLogFile (log_bytes (es ++ invs)) (Zlen (log_bytes (es ++ invs))) k') /\
    Forall wf_entry invs /\ Forall is_invalidation invs /\
    (invalidSeqIds_ (ps_parser s') = ∅ -> invs = []).
Proof.
  intros Hpo Hwf Ht Hnow Hr.
  pose proof (parseLog_log_bytes es t ip files k Hpo Hwf Ht) as Hl. cbv zeta in Hl.
  change (mkParseState ?f LogParser_init ip OK) with
    (with_file f (mkParseState (mkLogFile [] 0 0) LogParser_init ip OK)) in Hl.
  rewrite replay_with_file, Hr in Hl. destruct Hl as (k' & ->).
  assert (parser_inv (ps_parser s')) as Hp by (eapply replay_inv; [done| |exact Hr]; apply parser_inv_init).
  set (f' := mkLogFile _ _ k'). set (s2 := with_file f' _).
  destruct (finishParse_spec s2 _ _ files Hnow Hp eq_refl) as (invs & k2 & E & ?).
  exists invs, k2. rewrite E, log_bytes_app. done.
Qed.
End replay.

(** ** Properties *)

(** A crash while an entry was being written.  If the intact log
    parses (to OK, or to a directory that must be discarded), then the same
    log followed by a part of one more entry parses to the same answer, the
    same sender and the same files; the part is cut off, so what the file then
    holds is again a sequence of whole entries, with invalidation entries
    added at most, and the next entry is written after them. *)
Theorem torn_entry_is_repaired (h : Host) options stat rootDir recoveryId config fault now
    es t ip files k code ip' files' f1 :
  (forall n, fault n = NoFault) -> (forall n, nonneg64 (now n)) ->
  Forall wf_entry es -> torn t ->
  parseLog options stat rootDir recoveryId config false fault now
    (mkLogFile (log_bytes es) 0 k) ip files = Some (code, ip', files', f1) ->
  code <> INVALID_LOG ->
  exists f2 invs,
    parseLog options stat rootDir recoveryId config false fault now
      (mkLogFile (log_bytes es ++ t) 0 k) ip files = Some (code, ip', files', f2) /\
    content f2 = log_bytes (es ++ invs) /\ pos f2 = Zlen (content f2) /\
    Forall wf_entry invs /\ Forall is_invalidation invs.
Proof.
  intros Hnf Hnow Hwf Ht Hparse Hcode.
  pose proof (parseLog_log_bytes options stat rootDir recoveryId config false fault now Hnf
    es [] ip files k eq_refl Hwf (or_introl eq_refl)) as Hl. cbv zeta in Hl.
  rewrite app_nil_r in Hl.
  change (mkParseState ?f LogParser_init ip OK) with
    (with_file f (mkParseState (mkLogFile [] 0 0) LogParser_init ip OK)) in Hl.
  rewrite replay_with_file in Hl.
  destruct (replay _ _ _ _ _ _ es (mkParseState (mkLogFile [] 0 0) _ _ _)) as [[[c|] s']|] eqn:Er.
  - destruct Hl as (f' & E). rewrite E in Hparse. simplify_eq.
    by apply replay_returns_invalid in Er.
  - destruct (parseLog_intact options stat rootDir recoveryId config false fault now Hnf es []
      ip files k s' eq_refl Hwf (or_introl eq_refl) Hnow Er) as (i1 & k1 & E1 & _).
    rewrite app_nil_r, Hparse in E1. simplify_eq.
    destruct (parseLog_intact options stat rootDir recoveryId config false fault now Hnf es t
      ip files k s' eq_refl Hwf Ht Hnow Er) as (invs & k2 & E2 & ? & ? & _).
    do 2 eexists. by split_and!.
  - congruence.
Qed.

Lemma torn_entry_is_repaired_witness : exists f2 invs,
  @parseLog littleHost (mkLogOptions true false false true false 100) (fun _ => None) [47] [114] 7
    false (fun _ => NoFault) (fun _ => 9)
    (mkLogFile (@log_bytes littleHost [EHeader (mkLogHeader 5 WLOG_VERSION [114] [49] 7)] ++ [2]) 0 0)
    [] [] = Some (OK, [49], [], f2) /\
  content f2 = @log_bytes littleHost ([EHeader (mkLogHeader 5 WLOG_VERSION [114] [49] 7)] ++ invs) /\
  pos f2 = Zlen (content f2) /\ Forall wf_entry invs /\ Forall is_invalidation invs.
Proof.
  eapply (torn_entry_is_repaired littleHost (mkLogOptions true false false true false 100)
    (fun _ => None) [47] [114] 7 (fun _ => NoFault) (fun _ => 9)
    [EHeader (mkLogHeader 5 WLOG_VERSION [114] [49] 7)] [2] [] [] 0).
  - done.
  - intros n. eval_side.
  - constructor; [eval_side|done].
  - right. exists (EDirInvalidation 0). split_and!; [eval_side| |done].
    exists [0; 5; 0]. reflexivity.
  - vm_compute. reflexivity.
  - done.
Defined.
