(* ===== verification/LogHistory.v ===== *)
(** The log of a transfer: a header, then file creations and blocks.

    The abstract view of such a log is a map from sequence ids to the blocks
    logged for them ([recorded]); the theorem of this file is that parsing the
    bytes of the log gives exactly that map, merged. *)
From S2P Require Import Prelude Serialization ErrorCodes Chunks Protocol ProtocolProps.
From S2P Require Import LogEntries LogParser LogParserProps LogReplay.

Section history.
Context (stat : list Z -> option Z) (rootDir : list Z).

(** The chunk a block entry stands for. *)
Definition block_chunk (b : BlockWrite) : Interval :=
  mkInterval (bw_offset b) (bw_offset b + bw_blockSize b).

Definition record_entry (m : gmap Z FileChunksInfo) (e : LogEntry) : gmap Z FileChunksInfo :=
  match e with
  | ECreation c => <[fc_seqId c := FileChunksInfo_make (fc_seqId c) (fc_fileName c)
      (default 0 (stat (rootDir ++ fc_fileName c)))]> m
  | EBlock b => alter (addChunk (block_chunk b)) (bw_seqId b) m
  | _ => m
  end.
Definition recorded (es : list LogEntry) : gmap Z FileChunksInfo := foldl record_entry ∅ es.

(** A transfer creates a file once, on a disk that has it at full size, and
    writes blocks of files it created, within them. *)
Fixpoint valid_history (m : gmap Z FileChunksInfo) (es : list LogEntry) : Prop :=
  match es with
  | [] => True
  | e :: es =>
      match e with
      | ECreation c => m !! fc_seqId c = None /\
          exists sz, stat (rootDir ++ fc_fileName c) = Some sz /\ fc_fileSize c <= sz
      | EBlock b => exists f, m !! bw_seqId b = Some f /\
          bw_offset b + bw_blockSize b <= fileSize_ f /\
          bw_offset b + bw_blockSize b <= INT64_MAX
      | _ => False
      end /\ valid_history (record_entry m e) es
  end.

(** The chunks logged for a sequence id. *)
Definition blocks_of (q : Z) (es : list LogEntry) : list Interval :=
  omap (fun e => match e with
    | EBlock b => if bw_seqId b =? q then Some (block_chunk b) else None
    | _ => None end) es.

Lemma blocks_of_elem q es c : c ∈ blocks_of q es <->
  exists b, EBlock b ∈ es /\ bw_seqId b = q /\ c = block_chunk b.
Proof.
  unfold blocks_of. rewrite list_elem_of_omap. split.
  - intros (e & He & E). destruct e; try done. case_hyp E; [|done]. bool_to_prop. simplify_eq. eauto.
  - intros (b & Hb & <- & ->). exists (EBlock b). split; [done|]. simpl. by rewrite Z.eqb_refl.
Qed.

(** ** The recorded map *)

Lemma recorded_from es m q f : valid_history m es ->
  foldl record_entry m es !! q = Some f ->
  (exists f0, m !! q = Some f0 /\ f = with_chunks f0 (chunks_ f0 ++ blocks_of q es)) \/
  (exists c sz, ECreation c ∈ es /\ fc_seqId c = q /\ stat (rootDir ++ fc_fileName c) = Some sz /\
     f = mkFileChunksInfo q (fc_fileName c) sz (blocks_of q es)).
Proof.
  revert m. induction es as [|e es IH]; intros m Hv Hf; cbn [foldl] in Hf.
  { left. exists f. split; [done|]. rewrite app_nil_r. by destruct f. }
  destruct Hv as [He Hv].
  destruct (IH _ Hv Hf) as [(f0 & Hf0 & ->)|(c & sz & Hc & Hq & Hst & ->)].
  2:{ right. exists c, sz. split_and!; [by right|done|done|]. f_equal.
      destruct e; try done. simpl. case_goal; [|done]. bool_to_prop.
      destruct He as (g & Hg & _). exfalso.
      assert (forall es m, valid_history m es -> ECreation c ∈ es -> m !! fc_seqId c = None) as Hn.
      { clear. induction es as [|e es IH]; intros m Hv Hin; [by apply elem_of_nil in Hin|].
        destruct Hv as [He Hv]. apply elem_of_cons in Hin as [<-|Hin]; [by destruct He|].
        specialize (IH _ Hv Hin). destruct e; simpl in IH; try done.
        - apply lookup_insert_None in IH. tauto.
        - by rewrite lookup_alter_None in IH. }
      specialize (Hn _ _ Hv Hc). simpl in Hn. rewrite lookup_alter_None in Hn. congruence. }
  destruct e; try done; simpl in Hf0.
  - destruct He as [Hnone (sz & Hst & _)]. rewrite Hst in Hf0. simpl in Hf0.
    apply lookup_insert_Some in Hf0 as [[<- <-]|[? Hf0]].
    + right. exists e, sz. split_and!; [by left|done..].
    + left. eauto.
  - destruct He as (g & Hg & _). destruct (decide (bw_seqId e = q)) as [<-|Hne].
    + rewrite lookup_alter_eq, Hg in Hf0. simplify_eq/=. left. exists g. split; [done|].
      unfold with_chunks, addChunk. simpl. rewrite Z.eqb_refl, <- app_assoc. done.
    + rewrite lookup_alter_ne in Hf0 by done. left. exists f0. split; [done|]. simpl.
      by replace (bw_seqId e =? q) with false by (symmetry; bool_to_prop; lia).
Qed.

Lemma recorded_created es m c : ECreation c ∈ es \/ is_Some (m !! fc_seqId c) ->
  is_Some (foldl record_entry m es !! fc_seqId c).
Proof.
  revert m. induction es as [|e es IH]; intros m Hin; cbn [foldl].
  { destruct Hin as [Hin|]; [by apply elem_of_nil in Hin|done]. }
  apply IH. rewrite elem_of_cons in Hin. destruct Hin as [[<-|]|Hin]; [|by left|].
  - right. simpl. rewrite lookup_insert_eq. eauto.
  - right. destruct e; simpl; try done.
    + rewrite lookup_insert_is_Some'. by right.
    + destruct (decide (bw_seqId e = fc_seqId c)) as [->|].
      * rewrite lookup_alter_eq. by apply fmap_is_Some.
      * by rewrite lookup_alter_ne.
Qed.

Lemma recorded_Some es q f : valid_history ∅ es -> recorded es !! q = Some f ->
  exists c sz, ECreation c ∈ es /\ fc_seqId c = q /\ stat (rootDir ++ fc_fileName c) = Some sz /\
    f = mkFileChunksInfo q (fc_fileName c) sz (blocks_of q es).
Proof.
  intros Hv Hf. destruct (recorded_from es ∅ q f Hv Hf) as [(f0 & Hf0 & _)|?]; [|done].
  by rewrite lookup_empty in Hf0.
Qed.
End history.

(** ** Replaying a history *)

Section replay_history.
Context `{Host}.
Context (options : LogOptions) (stat : list Z -> option Z).
Context (rootDir recoveryId : list Z) (config : Z).
Hypothesis log_based : resume_using_dir_tree options = false.

Abbreviation handle := (handle_entry options stat rootDir recoveryId config false).

(** The parser in the middle of a valid transfer. *)
Definition in_transfer (m : gmap Z FileChunksInfo) (s : ParseState) : Prop :=
  ps_status s = OK /\ headerParsed_ (ps_parser s) = true /\ fileInfoMap_ (ps_parser s) = m /\
  invalidSeqIds_ (ps_parser s) = ∅.

Lemma handle_entry_type e s : ps_status s = OK -> wf_entry e ->
  handle (entry_payload e) (Zlen (entry_payload e)) s =
  let* (status, ip, p) := processEntry options stat rootDir recoveryId config false
    (EntryType_value (entry_type e)) (entry_fields e) (Zlen (entry_fields e))
    (ps_senderIp s) (ps_parser s) in
  match status with
  | None => Some (Return INVALID_LOG, mkParseState (ps_file s) p ip (ps_status s))
  | Some status =>
      let s := mkParseState (ps_file s) p ip status in
      if bool_decide (status = INVALID_LOG) then Some (Return status, s) else
      if bool_decide (status = INCONSISTENT_DIRECTORY) then
        Some (Continue, mkParseState (ps_file s) (clearParsedData p) ip status)
      else Some (Continue, s)
  end.
Proof.
  intros Hs Hwf. unfold handle_entry, entry_payload. cbn [head tail].
  assert (schar (EntryType_value (entry_type e)) = EntryType_value (entry_type e)) as ->
    by by destruct e.
  rewrite Hs, bool_decide_eq_false_2 by done. cbn [andb].
  by replace (Zlen (EntryType_value (entry_type e) :: entry_fields e) - 1)
    with (Zlen (entry_fields e)) by zlen.
Qed.

Lemma handle_header h s : wf_entry (EHeader h) -> ps_status s = OK ->
  lh_recoveryId h = recoveryId -> lh_config h = config -> lh_senderIp h <> [] ->
  handle (entry_payload (EHeader h)) (Zlen (entry_payload (EHeader h))) s =
    Some (Continue, mkParseState (ps_file s) (set_headerParsed true (ps_parser s)) (lh_senderIp h) OK).
Proof.
  intros Hwf Hs Hr Hc Hip. rewrite handle_entry_type by done. cbn [entry_type].
  unfold processEntry. rewrite Z.eqb_refl. unfold processHeaderEntry.
  pose proof (Zlen_entry_payload _ Hwf) as Hl. unfold entry_payload in Hl. rewrite Zlen_cons in Hl.
  replace (_ <? _) with false by (symmetry; bool_to_prop; lia).
  unfold decodeLogHeader. rewrite (decodeEntry_reads _ _ _ _ (logHeader_body_reads h Hwf)) by lia.
  cbn [negb]. destruct Hwf as (_ & Hv & _). rewrite Hv, Z.eqb_refl. cbn [negb].
  rewrite bool_decide_eq_false_2 by done. cbv iota.
  rewrite bool_decide_eq_true_2 by done. rewrite Hc, Z.eqb_refl. done.
Qed.

Lemma handle_creation c m s sz : wf_entry (ECreation c) -> in_transfer m s ->
  m !! fc_seqId c = None -> stat (rootDir ++ fc_fileName c) = Some sz -> fc_fileSize c <= sz ->
  exists s', handle (entry_payload (ECreation c)) (Zlen (entry_payload (ECreation c))) s =
      Some (Continue, s') /\
    in_transfer (record_entry stat rootDir m (ECreation c)) s' /\ ps_senderIp s' = ps_senderIp s.
Proof.
  intros Hwf (Hs & Hh & Hm & Hi) Hn Hst Hsz. rewrite handle_entry_type by done. cbn [entry_type].
  unfold processEntry. simpl Z.eqb. cbv iota. unfold processFileCreationEntry. rewrite Hh. cbn [negb].
  pose proof (Zlen_entry_payload _ Hwf) as Hl. unfold entry_payload in Hl. rewrite Zlen_cons in Hl.
  unfold decodeFileCreationEntry.
  rewrite (decodeEntry_reads _ _ _ _ (fileCreation_body_reads c Hwf)) by lia.
  cbn [negb]. rewrite log_based, Hm, Hi, Hn, Hst.
  rewrite bool_decide_eq_false_2 by (intros []; done). rewrite bool_decide_eq_false_2 by set_solver.
  cbn [orb]. replace (if shouldPreallocateFiles options then _ else true) with true
    by (case_goal; [symmetry; bool_to_prop; lia|done]).
  eexists. split; [done|]. split; [|done]. split_and!; simpl; try done.
  rewrite map_emplace_None by done. by rewrite Hst.
Qed.

Lemma handle_block b m s f : wf_entry (EBlock b) -> in_transfer m s ->
  m !! bw_seqId b = Some f -> bw_offset b + bw_blockSize b <= fileSize_ f ->
  bw_offset b + bw_blockSize b <= INT64_MAX ->
  exists s', handle (entry_payload (EBlock b)) (Zlen (entry_payload (EBlock b))) s =
      Some (Continue, s') /\
    in_transfer (record_entry stat rootDir m (EBlock b)) s' /\ ps_senderIp s' = ps_senderIp s.
Proof.
  intros Hwf (Hs & Hh & Hm & Hi) Hf Hsz Hmax. rewrite handle_entry_type by done. cbn [entry_type].
  unfold processEntry. simpl Z.eqb. cbv iota. unfold processBlockWriteEntry. rewrite Hh. cbn [negb].
  pose proof (Zlen_entry_payload _ Hwf) as Hl. unfold entry_payload in Hl. rewrite Zlen_cons in Hl.
  unfold decodeBlockWriteEntry.
  rewrite (decodeEntry_reads _ _ _ _ (blockWrite_body_reads b Hwf)) by lia.
  destruct Hwf as (_ & _ & [? ?] & [? ?]). unfold INT64_MAX in *.
  cbn [negb]. rewrite log_based, Hm, Hi, Hf. rewrite bool_decide_eq_false_2 by set_solver.
  rewrite wrapS_small by (unfold inS; lia).
  replace (_ <? _) with false by (symmetry; bool_to_prop; lia). unfold Interval_make.
  replace (_ <=? _) with true by (symmetry; bool_to_prop; lia).
  eexists. split; [done|]. split; [|done]. split_and!; simpl; try done.
  rewrite <- (insert_id m (bw_seqId b) f Hf) at 2. by rewrite alter_insert_eq.
Qed.

Lemma replay_history es m s : Forall wf_entry es -> valid_history stat rootDir m es ->
  in_transfer m s ->
  exists s', replay options stat rootDir recoveryId config false es s = Some (None, s') /\
    in_transfer (foldl (record_entry stat rootDir) m es) s' /\ ps_senderIp s' = ps_senderIp s.
Proof.
  intros Hwf. revert m s. induction Hwf as [|e es He _ IH]; intros m s Hv Hs; cbn [replay foldl].
  { by exists s. }
  destruct Hv as [Hve Hv].
  assert (exists s', handle (entry_payload e) (Zlen (entry_payload e)) s = Some (Continue, s') /\
    in_transfer (record_entry stat rootDir m e) s' /\ ps_senderIp s' = ps_senderIp s)
    as (s1 & -> & Hs1 & Hip).
  { destruct e; try done.
    - destruct Hve as [? (sz & ? & ?)]. by eapply handle_creation.
    - destruct Hve as (f & ? & ? & ?). by eapply handle_block. }
  destruct (IH _ _ Hv Hs1) as (s' & -> & ? & Hip'). exists s'. by rewrite Hip', Hip.
Qed.
End replay_history.

Lemma parsed_files_elem p f :
  f ∈ parsed_files p <-> exists q g, fileInfoMap_ p !! q = Some g /\ f = mergeChunks g.
Proof.
  unfold parsed_files, map_in_order. rewrite list_elem_of_fmap. split.
  - intros ([q g] & -> & Hg). rewrite merge_sort_Permutation in Hg.
    apply elem_of_map_to_list in Hg. eauto.
  - intros (q & g & Hg & ->). exists (q, g). split; [done|].
    rewrite merge_sort_Permutation. by apply elem_of_map_to_list.
Qed.

(** ** Parsing the bytes of a history *)

Lemma parse_transfer_log (h : Host) options stat rootDir hd es t ip fault now k :
  (forall n, fault n = NoFault) -> (forall n, nonneg64 (now n)) ->
  resume_using_dir_tree options = false ->
  wf_entry (EHeader hd) -> lh_senderIp hd <> [] -> Forall wf_entry es ->
  valid_history stat rootDir ∅ es -> torn t ->
  exists files k',
    parseLog options stat rootDir (lh_recoveryId hd) (lh_config hd) false fault now
      (mkLogFile (log_bytes (EHeader hd :: es) ++ t) 0 k) ip [] =
      Some (OK, lh_senderIp hd, files,
        mkLogFile (log_bytes (EHeader hd :: es)) (Zlen (log_bytes (EHeader hd :: es))) k') /\
    (forall c, ECreation c ∈ es -> exists f, f ∈ files /\ seqId_ f = fc_seqId c) /\
    (forall f, f ∈ files -> exists c sz, ECreation c ∈ es /\ seqId_ f = fc_seqId c /\
       fileName_ f = fc_fileName c /\ stat (rootDir ++ fc_fileName c) = Some sz /\ fileSize_ f = sz /\
       forall x, covers (chunks_ f) x <->
         exists b, EBlock b ∈ es /\ bw_seqId b = seqId_ f /\
           bw_offset b <= x < bw_offset b + bw_blockSize b).
Proof.
  intros Hnf Hnow Hlog Hhd Hip Hwf Hv Ht.
  set (s0 := mkParseState (mkLogFile [] 0 0) LogParser_init ip OK).
  assert (in_transfer ∅ (mkParseState (mkLogFile [] 0 0) (set_headerParsed true LogParser_init)
    (lh_senderIp hd) OK)) as Hs1 by done.
  destruct (replay_history options stat rootDir (lh_recoveryId hd) (lh_config hd) Hlog es ∅ _
    Hwf Hv Hs1) as (s' & Er & (Hst & _ & Hm & Hi) & Hip').
  assert (replay options stat rootDir (lh_recoveryId hd) (lh_config hd) false (EHeader hd :: es) s0 =
    Some (None, s')) as Er0.
  { cbn [replay]. by rewrite (handle_header options stat rootDir) by done. }
  destruct (parseLog_intact options stat rootDir (lh_recoveryId hd) (lh_config hd) false fault now
    Hnf (EHeader hd :: es) t ip [] k s' eq_refl ltac:(by constructor) Ht Hnow Er0)
    as (invs & k' & E & _ & _ & Hinv).
  rewrite (Hinv Hi), app_nil_r, Hst, Hip', bool_decide_eq_true_2 in E by done.
  exists (parsed_files (ps_parser s')), k'. split; [exact E|].
  fold (recorded stat rootDir es) in Hm.
  split.
  - intros c Hc. destruct (recorded_created stat rootDir es ∅ c (or_introl Hc)) as [g Hg].
    exists (mergeChunks g). rewrite parsed_files_elem, Hm. split; [by eauto|].
    destruct (recorded_Some stat rootDir es _ g Hv Hg) as (c' & sz & _ & Hq & _ & ->).
    by rewrite (proj1 (mergeChunks_fields _)).
  - intros f (q & g & Hg & ->)%parsed_files_elem. rewrite Hm in Hg.
    destruct (recorded_Some stat rootDir es q g Hv Hg) as (c & sz & Hc & Hq & Hsz & ->).
    destruct (mergeChunks_fields (mkFileChunksInfo q (fc_fileName c) sz (blocks_of q es))) as (-> & -> & ->).
    exists c, sz. split_and!; [done..|]. intros x. cbn [seqId_].
    assert (Forall wf_interval (blocks_of q es)) as Hwfi.
    { apply Forall_forall. intros i (b & Hb & _ & ->)%blocks_of_elem.
      rewrite Forall_forall in Hwf. destruct (Hwf _ Hb) as (_ & _ & _ & [? _]).
      unfold wf_interval. simpl. lia. }
    destruct (mergeChunks_spec (mkFileChunksInfo q (fc_fileName c) sz (blocks_of q es)) Hwfi) as [_ Hto].
    rewrite covers_touches, Hto, <- covers_touches. unfold covers. rewrite Exists_exists.
    split.
    + intros (i & (b & Hb & ? & ->)%blocks_of_elem & ?). eauto.
    + intros (b & Hb & ? & ?). exists (block_chunk b). split; [|done]. apply blocks_of_elem. eauto.
Qed.

(** ** Properties *)

(** C10: Log-based resumption is exact.  Take the log of a transfer (its
    header, the creation of files, the blocks written), possibly followed by a
    part of an entry that was being written.  Parsing it on the next start of
    the same transfer succeeds, leaves the log ready for more entries, and
    reports one record per created file; a byte of a file is in the chunks of
    its record exactly when a logged block of that file covers it. *)
Theorem log_replay_exact (h : Host) options stat rootDir hd es t ip fault now k :
  (forall n, fault n = NoFault) -> (forall n, nonneg64 (now n)) ->
  resume_using_dir_tree options = false ->
  wf_entry (EHeader hd) -> lh_senderIp hd <> [] -> Forall wf_entry es ->
  valid_history stat rootDir ∅ es -> torn t ->
  exists files k',
    parseLog options stat rootDir (lh_recoveryId hd) (lh_config hd) false fault now
      (mkLogFile (log_bytes (EHeader hd :: es) ++ t) 0 k) ip [] =
      Some (OK, lh_senderIp hd, files,
        mkLogFile (log_bytes (EHeader hd :: es)) (Zlen (log_bytes (EHeader hd :: es))) k') /\
    (forall c, ECreation c ∈ es -> exists f, f ∈ files /\ seqId_ f = fc_seqId c) /\
    (forall f, f ∈ files -> exists c sz, ECreation c ∈ es /\ seqId_ f = fc_seqId c /\
       fileName_ f = fc_fileName c /\ stat (rootDir ++ fc_fileName c) = Some sz /\ fileSize_ f = sz /\
       forall x, covers (chunks_ f) x <->
         exists b, EBlock b ∈ es /\ bw_seqId b = seqId_ f /\
           bw_offset b <= x < bw_offset b + bw_blockSize b).
Proof. apply parse_transfer_log. Qed.

(** A small transfer: one file of 100 bytes, half of it logged, and a block
    entry cut after four bytes. *)
Definition ex_header : LogHeader := mkLogHeader 5 WLOG_VERSION [114] [49] 7.
Definition ex_history : list LogEntry :=
  [ECreation (mkFileCreation 6 [97] 3 100); EBlock (mkBlockWrite 7 3 0 50)].
Definition ex_torn : list Z := take 4 (@entry_bytes littleHost (EBlock (mkBlockWrite 8 3 50 50))).
Definition ex_options : LogOptions := mkLogOptions true false false true false 100.
Definition ex_stat (path : list Z) : option Z := Some 100.

Lemma ex_torn_torn : @torn littleHost ex_torn.
Proof.
  right. exists (EBlock (mkBlockWrite 8 3 50 50)). split_and!; [eval_side|apply prefix_take|].
  intros E. apply (f_equal length) in E. by vm_compute in E.
Qed.
Lemma ex_history_wf : Forall wf_entry ex_history.
Proof. repeat constructor; try eval_side. Qed.
Lemma ex_history_valid : valid_history ex_stat [47] ∅ ex_history.
Proof.
  split; [split; [done|exists 100; split; [done|eval_side]]|]. split; [|done].
  exists (mkFileChunksInfo 3 [97] 100 []). split; [done|]. split; eval_side.
Qed.

Lemma log_replay_exact_witness : exists files k',
  @parseLog littleHost ex_options ex_stat [47] [114] 7 false (fun _ => NoFault) (fun _ => 9)
    (mkLogFile (@log_bytes littleHost (EHeader ex_header :: ex_history) ++ ex_torn) 0 0) [] [] =
    Some (OK, [49], files, mkLogFile (@log_bytes littleHost (EHeader ex_header :: ex_history))
      (Zlen (@log_bytes littleHost (EHeader ex_header :: ex_history))) k').
Proof.
  destruct (log_replay_exact littleHost ex_options ex_stat [47] ex_header ex_history ex_torn []
    (fun _ => NoFault) (fun _ => 9) 0) as (files & k' & E & _);
    [done|intros n; eval_side|done|eval_side|done|exact ex_history_wf|exact ex_history_valid|
     exact ex_torn_torn|].
  exists files, k'. exact E.
Defined.

(** A file that is invalidated and created again under the same
    sequence id, with a smaller size, cannot be resized: the old size was kept
    when the file was invalidated, so a resize that grows the new file is taken
    for one that shrinks it and the whole log is declared invalid. *)
Theorem invalidated_size_is_kept :
  exists ip files f, @parseLog littleHost ex_options ex_stat [47] [114] 7 false (fun _ => NoFault)
    (fun _ => 9) (mkLogFile (@log_bytes littleHost
      [EHeader ex_header; ECreation (mkFileCreation 6 [97] 3 100);
       EInvalidation (mkFileInvalidation 7 3); ECreation (mkFileCreation 8 [97] 3 10);
       EResize (mkFileResize 9 3 20)]) 0 0) [] [] = Some (INVALID_LOG, ip, files, f).
Proof. do 3 eexists. vm_compute. reflexivity. Qed.
