(* ===== verification/LogManager.v ===== *)
(** The owner of the transfer log: [TransferLogManager] of
    [util/TransferLogManager.h] and [.cpp].

    The manager's members are the fields of [Manager]; the log on disk and the
    renamed log are part of it, so an operation is a function from a manager to
    a manager.  [None] is a failed [WDT_CHECK], an [exit] or a [std::string]
    built from a negative size.  The writer thread is a value: what it is about
    to do, and with which batch of entries.  The mutex makes each access to
    [entries_] and [finished_] one step; [mstep] interleaves the steps of the
    writer with the operations of the receiver threads. *)
From S2P Require Import Prelude Serialization ErrorCodes Chunks Protocol ProtocolProps.
From S2P Require Import LogEntries LogParser LogParserProps LogReplay LogHistory.

(** ** State *)

(** The thread that writes entries: not started (or joined), waiting on the
    condition, about to write a batch (and to stop after it when [finished]),
    or returned but not joined. *)
Inductive WriterThread :=
  | WNone | WWaiting | WWriting (finished : bool) (entries : list (list Z)) | WDone.

Record Manager := mkManager {
  fd_ : Z;
  recoveryId_ : list Z;
  senderIp_ : list Z;
  config_ : Z;
  entries_ : list (list Z);
  finished_ : bool;
  resumptionStatus_ : ErrorCode;
  headerWritten_ : bool;
  writerThread_ : WriterThread;
  logExists : bool;
  logFile : LogFile;
  buggyLog : option (list Z)
}.

Definition set_fd (v : Z) (m : Manager) : Manager :=
    mkManager v (recoveryId_ m) (senderIp_ m) (config_ m) (entries_ m) (finished_ m)
    (resumptionStatus_ m) (headerWritten_ m) (writerThread_ m) (logExists m) (logFile m)
    (buggyLog m).
Definition set_recoveryId (v : list Z) (m : Manager) : Manager :=
    mkManager (fd_ m) v (senderIp_ m) (config_ m) (entries_ m) (finished_ m) (resumptionStatus_
    m) (headerWritten_ m) (writerThread_ m) (logExists m) (logFile m) (buggyLog m).
Definition set_senderIp (v : list Z) (m : Manager) : Manager :=
    mkManager (fd_ m) (recoveryId_ m) v (config_ m) (entries_ m) (finished_ m)
    (resumptionStatus_ m) (headerWritten_ m) (writerThread_ m) (logExists m) (logFile m)
    (buggyLog m).
Definition set_config (v : Z) (m : Manager) : Manager :=
    mkManager (fd_ m) (recoveryId_ m) (senderIp_ m) v (entries_ m) (finished_ m)
    (resumptionStatus_ m) (headerWritten_ m) (writerThread_ m) (logExists m) (logFile m)
    (buggyLog m).
Definition set_entries (v : list (list Z)) (m : Manager) : Manager :=
    mkManager (fd_ m) (recoveryId_ m) (senderIp_ m) (config_ m) v (finished_ m)
    (resumptionStatus_ m) (headerWritten_ m) (writerThread_ m) (logExists m) (logFile m)
    (buggyLog m).
Definition set_finished (v : bool) (m : Manager) : Manager :=
    mkManager (fd_ m) (recoveryId_ m) (senderIp_ m) (config_ m) (entries_ m) v
    (resumptionStatus_ m) (headerWritten_ m) (writerThread_ m) (logExists m) (logFile m)
    (buggyLog m).
Definition set_resumptionStatus (v : ErrorCode) (m : Manager) : Manager :=
    mkManager (fd_ m) (recoveryId_ m) (senderIp_ m) (config_ m) (entries_ m) (finished_ m) v
    (headerWritten_ m) (writerThread_ m) (logExists m) (logFile m) (buggyLog m).
Definition set_headerWritten (v : bool) (m : Manager) : Manager :=
    mkManager (fd_ m) (recoveryId_ m) (senderIp_ m) (config_ m) (entries_ m) (finished_ m)
    (resumptionStatus_ m) v (writerThread_ m) (logExists m) (logFile m) (buggyLog m).
Definition set_writerThread (v : WriterThread) (m : Manager) : Manager :=
    mkManager (fd_ m) (recoveryId_ m) (senderIp_ m) (config_ m) (entries_ m) (finished_ m)
    (resumptionStatus_ m) (headerWritten_ m) v (logExists m) (logFile m) (buggyLog m).
Definition set_logExists (v : bool) (m : Manager) : Manager :=
    mkManager (fd_ m) (recoveryId_ m) (senderIp_ m) (config_ m) (entries_ m) (finished_ m)
    (resumptionStatus_ m) (headerWritten_ m) (writerThread_ m) v (logFile m) (buggyLog m).
Definition set_logFile (v : LogFile) (m : Manager) : Manager :=
    mkManager (fd_ m) (recoveryId_ m) (senderIp_ m) (config_ m) (entries_ m) (finished_ m)
    (resumptionStatus_ m) (headerWritten_ m) (writerThread_ m) (logExists m) v (buggyLog m).
Definition set_buggyLog (v : option (list Z)) (m : Manager) : Manager :=
    mkManager (fd_ m) (recoveryId_ m) (senderIp_ m) (config_ m) (entries_ m) (finished_ m)
    (resumptionStatus_ m) (headerWritten_ m) (writerThread_ m) (logExists m) (logFile m) v.

Definition kWdtLogName : list Z := [46; 119; 100; 116; 46; 108; 111; 103].
Definition kWdtBuggyLogName : list Z := kWdtLogName ++ [46; 98; 117; 103].

(** The constructor's treatment of the root directory. *)
Definition normalizeRootDir (rootDir : list Z) : list Z :=
  if bool_decide (last rootDir = Some 47) then rootDir else rootDir ++ [47].

Definition Manager_init (exists_ : bool) (f : LogFile) (status : ErrorCode) (config : Z) : Manager :=
  mkManager (-1) [] [] config [] false status false WNone exists_ f None.

Section manager.
Context `{Host}.
Context (options : LogOptions) (stat : list Z -> option Z) (rootDir : list Z).
(** The outcomes of system calls and the clock, as in [LogParser];
    [sameInode n]: the [n]-th call sees the path and the descriptor refer to the
    same file. *)
Context (fault : nat -> Fault) (now : nat -> Z) (sameInode : nat -> bool).

Definition getFullPath (relPath : list Z) : option (list Z) :=
  check negb (bool_decide (rootDir = [])) ;; Some (rootDir ++ relPath).

(** One more system call that changes nothing. *)
Definition tick (m : Manager) : Manager :=
  set_logFile (mkLogFile (content (logFile m)) (pos (logFile m)) (S (calls (logFile m)))) m.
Definition call_ok (m : Manager) : bool := sys_ok fault (logFile m).

(** [open] of the log: the descriptor, or whether the error is [ENOENT]. *)
Definition sys_open (m : Manager) : option bool * Manager :=
  if call_ok m then
    if logExists m then
      (None, set_logFile (mkLogFile (content (logFile m)) 0 (S (calls (logFile m)))) m)
    else (Some true, tick m)
  else (Some false, tick m).
(** [open] with [O_CREAT | O_EXCL]. *)
Definition sys_create (m : Manager) : bool * Manager :=
  if call_ok m && negb (logExists m) then
    (true, set_logExists true (set_logFile (mkLogFile [] 0 (S (calls (logFile m)))) m))
  else (false, tick m).

Definition checkLog (m : Manager) : option (ErrorCode * Manager) :=
  if fd_ m <? 0 then Some (ERROR, m) else
  let* _ := getFullPath kWdtLogName in
  check call_ok m && logExists m ;; let m := tick m in
  check call_ok m ;;
  check sameInode (calls (logFile m)) ;; let m := tick m in
  Some (OK, m).

Definition close (m : Manager) : option Manager :=
  if fd_ m <? 0 then Some m else
  let* (_, m) := checkLog m in
  Some (set_fd (-1) (tick m)).

Definition openLog (m : Manager) : option (ErrorCode * Manager) :=
  check fd_ m <? 0 ;;
  check negb (bool_decide (rootDir = [])) ;;
  check enable_download_resumption options ;;
  let '(err, m) := sys_open m in
  let r :=
    match err with
    | None => inr (set_fd 3 m)
    | Some false => inl m
    | Some true =>
        let '(created, m) := sys_create m in
        let m := if created then tick m else m in
        let '(err, m) := sys_open m in
        match err with None => inr (set_fd 3 m) | Some _ => inl m end
    end in
  match r with
  | inl m => Some (TRANSFER_LOG_ACQUIRE_ERROR, set_fd (-1) m)
  | inr m =>
      let locked := call_ok m in
      let m := tick m in
      if negb locked then let* m := close m in Some (TRANSFER_LOG_ACQUIRE_ERROR, m)
      else Some (OK, m)
  end.

Definition startThread (m : Manager) : option (ErrorCode * Manager) :=
  if negb (resume_using_dir_tree options) then
    if negb (bool_decide (resumptionStatus_ m = OK)) then Some (resumptionStatus_ m, m) else
    check 0 <=? fd_ m ;;
    check 0 <=? transfer_log_write_interval_ms options ;;
    Some (OK, set_writerThread WWaiting m)
  else Some (OK, m).

Definition writeEntriesToDiskNoLock (entries : list (list Z)) (m : Manager) : bool * Manager :=
  let buffer := concat entries in
  if bool_decide (buffer = []) then (true, m) else
  let toWrite := Zlen buffer in
  let '(written, f) := sys_write fault buffer toWrite (logFile m) in
  (written =? toWrite, set_logFile f m).

(** The two halves of an iteration of [threadProcWriteEntriesToDisk]: under the
    lock, and the write. *)
Definition writer_take (m : Manager) : Manager :=
  set_entries [] (set_writerThread (WWriting (finished_ m) (entries_ m)) m).
Definition writer_write (finished : bool) (entries : list (list Z)) (m : Manager) : Manager :=
  let '(ok, m) := writeEntriesToDiskNoLock entries m in
  set_writerThread (if negb ok then WDone else if finished then WDone else WWaiting) m.

(** [join]: the writer runs to its end; with [finished_] set it stops after
    the iteration it begins next. *)
Definition writer_join (m : Manager) : Manager :=
  let last m := let m := writer_take m in writer_write (finished_ m)
    (match writerThread_ m with WWriting _ es => es | _ => [] end) m in
  let m :=
    match writerThread_ m with
    | WWaiting => last m
    | WWriting finished es =>
        let m := writer_write finished es m in
        match writerThread_ m with WWaiting => last m | _ => m end
    | _ => m
    end in
  set_writerThread WNone m.

Definition shutdownThread (m : Manager) : Manager :=
  match writerThread_ m with
  | WNone => m
  | _ => writer_join (set_finished true m)
  end.

Definition closeLog (m : Manager) : option Manager :=
  if fd_ m <? 0 then Some m else
  let m := if negb (resume_using_dir_tree options) then shutdownThread m else m in
  close m.

(** The destructor's check. *)
Definition destroy (m : Manager) : option unit := check fd_ m <? 0 ;; Some tt.

Definition fsyncLog (m : Manager) : option Manager :=
  check 0 <=? fd_ m ;; Some (tick m).

Definition write_log (buf : list Z) (size : Z) (m : Manager) : Z * Manager :=
  let '(written, f) := sys_write fault buf size (logFile m) in (written, set_logFile f m).

Definition invalidateDirectory (m : Manager) : option Manager :=
  if fd_ m <? 0 then Some m else
  let m := set_resumptionStatus INCONSISTENT_DIRECTORY m in
  let* (size, buf) := encodeDirectoryInvalidationEntry (now (calls (logFile m))) stack_buffer
    kMaxEntryLength in
  let '(written, m) := write_log buf size m in
  let* m := if negb (written =? size) then closeLog m else Some m in
  fsyncLog m.

Definition verifySenderIp (curSenderIp : list Z) (m : Manager) : option (bool * Manager) :=
  if fd_ m <? 0 then Some (false, m) else
  let* (verifySuccessful, m) :=
    if negb (disable_sender_verification_during_resumption options) then
      if bool_decide (senderIp_ m = []) then Some (true, m)
      else if negb (bool_decide (senderIp_ m = curSenderIp)) then
        let* m := invalidateDirectory m in Some (false, m)
      else Some (true, m)
    else Some (true, m) in
  Some (verifySuccessful, set_senderIp curSenderIp m).

Definition writeLogHeader (m : Manager) : option Manager :=
  if fd_ m <? 0 then Some m else
  let* (size, buf) := encodeLogHeader (now (calls (logFile m))) stack_buffer kMaxEntryLength
    (recoveryId_ m) (senderIp_ m) (config_ m) in
  let '(written, m) := write_log buf size m in
  if negb (written =? size) then closeLog m else
  let* m := fsyncLog m in
  Some (set_headerWritten true (set_resumptionStatus OK m)).

(** [entries_.emplace_back(buf, size)] *)
Definition emplace_entry (r : option (Z * list Z)) (m : Manager) : option Manager :=
  let* (size, buf) := r in
  check 0 <=? size ;;
  Some (set_entries (entries_ m ++ [take (Z.to_nat size) buf]) m).

Definition addFileCreationEntry (fileName : list Z) (seqId fileSize : Z) (m : Manager)
    : option Manager :=
  if (fd_ m <? 0) || negb (headerWritten_ m) then Some m else
  emplace_entry (encodeFileCreationEntry (now (calls (logFile m))) stack_buffer kMaxEntryLength
    fileName seqId fileSize) m.
Definition addBlockWriteEntry (seqId offset blockSize : Z) (m : Manager) : option Manager :=
  if (fd_ m <? 0) || negb (headerWritten_ m) then Some m else
  emplace_entry (encodeBlockWriteEntry (now (calls (logFile m))) stack_buffer kMaxEntryLength
    seqId offset blockSize) m.
Definition addFileResizeEntry (seqId fileSize : Z) (m : Manager) : option Manager :=
  if (fd_ m <? 0) || negb (headerWritten_ m) then Some m else
  emplace_entry (encodeFileResizeEntry (now (calls (logFile m))) stack_buffer kMaxEntryLength
    seqId fileSize) m.
Definition addFileInvalidationEntry (seqId : Z) (m : Manager) : option Manager :=
  if fd_ m <? 0 then Some m else
  emplace_entry (encodeFileInvalidationEntry (now (calls (logFile m))) stack_buffer kMaxEntryLength
    seqId) m.

Definition unlink (m : Manager) : option Manager :=
  check fd_ m <? 0 ;;
  let* _ := getFullPath kWdtLogName in
  Some (if call_ok m then set_logExists false (tick m) else tick m).

Definition renameBuggyLog (m : Manager) : option Manager :=
  check fd_ m <? 0 ;;
  let* _ := getFullPath kWdtLogName in
  let* _ := getFullPath kWdtBuggyLogName in
  Some (if call_ok m && logExists m then
          set_buggyLog (Some (content (logFile m))) (set_logExists false (tick m))
        else tick m).

Definition getResumptionStatus (m : Manager) : ErrorCode := resumptionStatus_ m.

Definition parseVerifyAndFix (recoveryId : list Z) (config : Z) (parseOnly : bool)
    (parsedInfo : list FileChunksInfo) (m : Manager)
    : option (ErrorCode * list FileChunksInfo * Manager) :=
  if fd_ m <? 0 then Some (INVALID_LOG, parsedInfo, m) else
  let* (status, senderIp, parsedInfo, f) :=
    parseLog options stat rootDir recoveryId config parseOnly fault now (logFile m) (senderIp_ m)
      parsedInfo in
  let m := set_resumptionStatus status (set_senderIp senderIp (set_logFile f m)) in
  let* m :=
    if bool_decide (resumptionStatus_ m = INVALID_LOG) then closeLog m
    else if bool_decide (resumptionStatus_ m = INCONSISTENT_DIRECTORY) then
      if negb parseOnly then invalidateDirectory m else Some m
    else Some m in
  Some (resumptionStatus_ m, parsedInfo, m).

Definition parseAndPrint (m : Manager) : option (bool * Manager) :=
  let* (status, _, m) := parseVerifyAndFix [] 0 true [] m in
  Some (bool_decide (status = OK), m).

Definition parseAndMatch (recoveryId : list Z) (config : Z) (fileChunksInfo : list FileChunksInfo)
    (m : Manager) : option (ErrorCode * list FileChunksInfo * Manager) :=
  let m := set_config config (set_recoveryId recoveryId m) in
  parseVerifyAndFix (recoveryId_ m) config false fileChunksInfo m.

(** The entries of the compacted log. *)
Fixpoint add_compacted (files : list FileChunksInfo) (m : Manager) : option Manager :=
  match files with
  | [] => Some m
  | f :: files =>
      let* m := addFileCreationEntry (fileName_ f) (seqId_ f) (fileSize_ f) m in
      let* m := addBlockWriteEntry (seqId_ f) 0 (fileSize_ f) m in
      add_compacted files m
  end.

(** One chunk that is the whole file. *)
Definition is_complete (f : FileChunksInfo) : bool :=
  (Zlen (chunks_ f) =? 1) && (getTotalChunkSize f =? fileSize_ f).

Definition seek_log (n : Z) (m : Manager) : bool * Manager :=
  let '(ok, f) := sys_lseek fault n (logFile m) in (ok, set_logFile f m).

Definition compactLog (m : Manager) : option Manager :=
  let* _ := getFullPath kWdtLogName in
  if fd_ m <? 0 then Some m else
  let m := shutdownThread m in
  let* m := fsyncLog m in
  let '(ok, m) := seek_log 0 m in
  if negb ok then Some m else
  let* (code, files, m) := parseAndMatch (recoveryId_ m) (config_ m) [] m in
  if negb (bool_decide (code = OK)) then Some m else
  if negb (forallb is_complete files) then Some m else
  let '(ok, f) := sys_ftruncate fault 0 (logFile m) in
  let m := set_logFile f m in
  if negb ok then Some m else
  let '(ok, m) := seek_log 0 m in
  if negb ok then Some m else
  let* m := writeLogHeader m in
  let* m := add_compacted files m in
  let entries := entries_ m in
  let m := set_entries [] m in
  Some (snd (writeEntriesToDiskNoLock entries m)).
End manager.

(** ** Properties *)

(** A write error while the directory is being invalidated stops the
    process: the log is closed and then synchronised, which checks that it is
    open. *)
Theorem invalidateDirectory_aborts_on_write_error (h : Host) options rootDir fault now sameInode m :
  (forall n, nonneg64 (now n)) -> 0 <= fd_ m -> rootDir <> [] -> logExists m = true ->
  writerThread_ m = WNone -> fault (calls (logFile m)) = Fails ->
  invalidateDirectory options rootDir fault now sameInode m = None.
Proof.
  intros Hnow Hfd Hroot Hex Hw Hfail. unfold invalidateDirectory.
  replace (fd_ m <? 0) with false by (symmetry; bool_to_prop; lia).
  destruct (encode_entry_spec (EDirInvalidation (now (calls (logFile m)))) stack_buffer
    (Hnow _) ltac:(done)) as (dest & E & _).
  cbn [encode_entry] in E. cbn [set_resumptionStatus logFile calls]. rewrite E.
  unfold write_log, sys_write, granted. cbn [set_resumptionStatus logFile]. rewrite Hfail.
  cbn [Z.ltb Z.compare]. replace (-1 =? _) with false by (symmetry; bool_to_prop; lia). cbn [negb].
  match goal with |- context [closeLog _ _ _ _ ?m'] => set (m1 := m') end.
  assert (closeLog options rootDir fault sameInode m1 = None \/
    exists m2, closeLog options rootDir fault sameInode m1 = Some m2 /\ fd_ m2 = -1) as Hc.
  { unfold closeLog, close, checkLog. unfold shutdownThread.
    replace (fd_ m1 <? 0) with false by (symmetry; apply Z.ltb_ge; exact Hfd).
    assert (writerThread_ m1 = WNone) as -> by exact Hw.
    assert ((if negb (resume_using_dir_tree options) then m1 else m1) = m1) as -> by by case_goal.
    replace (fd_ m1 <? 0) with false by (symmetry; apply Z.ltb_ge; exact Hfd).
    repeat case_goal; simplify_eq; eauto. }
  destruct Hc as [->|(m2 & -> & Hfd2)]; [done|]. unfold fsyncLog. by rewrite Hfd2.
Qed.

(** An open log that is still empty. *)
Definition ex_open_manager : Manager := set_fd 3 (Manager_init true (mkLogFile [] 0 0) OK 7).

Lemma invalidateDirectory_aborts_on_write_error_witness :
  @invalidateDirectory littleHost ex_log_options [47] (fun _ => Fails) (fun _ => 9) (fun _ => true)
    ex_open_manager = None.
Proof.
  apply (invalidateDirectory_aborts_on_write_error littleHost);
    [intros n; eval_side|eval_side|done|done|done|done].
Defined.
