(* ===== verification/LogManagerProps.v ===== *)
(** Correctness of the owner of the transfer log: at every moment, whatever the
    interleaving with the writer thread and whatever a write does, the log on
    disk is a sequence of the entries added so far followed by at most a part
    of one; closing the log puts all of them on disk; and a log found after a
    crash resumes with blocks that were logged. *)
From S2P Require Import Prelude Serialization ErrorCodes Chunks Protocol ProtocolProps.
From S2P Require Import LogEntries LogParser LogParserProps LogReplay LogHistory LogManager.

Section manager_props.
Context `{Host}.
Context (options : LogOptions) (stat : list Z -> option Z) (rootDir : list Z).
Context (fault : nat -> Fault) (now : nat -> Z) (sameInode : nat -> bool).

(** ** Steps *)

(** What a receiver thread asks for. *)
Inductive AddOp :=
  | AddFileCreation (fileName : list Z) (seqId fileSize : Z)
  | AddBlockWrite (seqId offset blockSize : Z)
  | AddFileResize (seqId fileSize : Z)
  | AddFileInvalidation (seqId : Z).

Definition run_add (op : AddOp) (m : Manager) : option Manager :=
  match op with
  | AddFileCreation n q s => addFileCreationEntry now n q s m
  | AddBlockWrite q o b => addBlockWriteEntry now q o b m
  | AddFileResize q s => addFileResizeEntry now q s m
  | AddFileInvalidation q => addFileInvalidationEntry now q m
  end.

(** The entry an operation adds at time [t]. *)
Definition op_entry (t : Z) (op : AddOp) : LogEntry :=
  match op with
  | AddFileCreation n q s => ECreation (mkFileCreation t n q s)
  | AddBlockWrite q o b => EBlock (mkBlockWrite t q o b)
  | AddFileResize q s => EResize (mkFileResize t q s)
  | AddFileInvalidation q => EInvalidation (mkFileInvalidation t q)
  end.

(** One step of one thread: the writer takes the buffered entries, the writer
    writes what it took, or a receiver thread adds an entry. *)
Inductive mstep : Manager -> list LogEntry -> Manager -> Prop :=
  | step_take m : writerThread_ m = WWaiting -> mstep m [] (writer_take m)
  | step_write m finished es : writerThread_ m = WWriting finished es ->
      mstep m [] (writer_write fault finished es m)
  | step_add m op m' : run_add op m = Some m' ->
      mstep m [op_entry (now (calls (logFile m))) op] m'.

Inductive msteps : Manager -> list LogEntry -> Manager -> Prop :=
  | msteps_refl m : msteps m [] m
  | msteps_step m1 es1 m2 es2 m3 :
      msteps m1 es1 m2 -> mstep m2 es2 m3 -> msteps m1 (es1 ++ es2) m3.

(** ** The invariant *)

(** Entries not yet handed to [write]. *)
Definition pending (m : Manager) : list Z :=
  (match writerThread_ m with WWriting _ es => concat es | _ => [] end) ++ concat (entries_ m).

Definition writer_alive (m : Manager) : Prop :=
  match writerThread_ m with WWaiting | WWriting _ _ => True | _ => False end.

Definition log_inv (base : list Z) (es : list LogEntry) (m : Manager) : Prop :=
  0 <= fd_ m /\ headerWritten_ m = true /\ Forall wf_entry es /\
  pos (logFile m) = Zlen (content (logFile m)) /\
  exists p, content (logFile m) = base ++ p /\ p `prefix_of` log_bytes es /\
    (writer_alive m -> p ++ pending m = log_bytes es).

(** An operation the threads perform: values an entry can carry. *)
Definition wf_op (op : AddOp) : Prop := forall t, nonneg64 t -> wf_entry (op_entry t op).

(** An entry that fits is appended to the buffer, nothing else changes. *)
Lemma emplace_encoded e m : wf_entry e ->
  emplace_entry (encode_entry e stack_buffer kMaxEntryLength) m =
    Some (set_entries (entries_ m ++ [entry_bytes e]) m).
Proof.
  intros Hwf. destruct (encode_entry_spec e stack_buffer Hwf ltac:(done)) as (dest' & E & Ht).
  unfold emplace_entry. rewrite E, Ht.
  by replace (0 <=? _) with true by (symmetry; bool_to_prop; lia).
Qed.

Lemma run_add_spec op m : (forall n, nonneg64 (now n)) -> wf_op op ->
  0 <= fd_ m -> headerWritten_ m = true ->
  run_add op m = Some (set_entries
    (entries_ m ++ [entry_bytes (op_entry (now (calls (logFile m))) op)]) m).
Proof.
  intros Hnow Hop Hfd Hh. specialize (Hop _ (Hnow (calls (logFile m)))).
  pose proof (emplace_encoded _ m Hop) as E.
  destruct op; cbn [run_add op_entry encode_entry] in *;
    unfold addFileCreationEntry, addBlockWriteEntry, addFileResizeEntry, addFileInvalidationEntry;
    replace (fd_ m <? 0) with false by (symmetry; bool_to_prop; lia); rewrite ?Hh; exact E.
Qed.


(** A write at the end appends a prefix of what it was given, all of it when
    the full count is returned. *)
Lemma write_entries_prefix es m : pos (logFile m) = Zlen (content (logFile m)) ->
  exists ok p k, writeEntriesToDiskNoLock fault es m =
    (ok, set_logFile (mkLogFile (content (logFile m) ++ p) (Zlen (content (logFile m) ++ p)) k) m) /\
    p `prefix_of` concat es /\ (ok = true -> p = concat es) /\
    ((forall n, fault n = NoFault) -> ok = true).
Proof.
  intros Hpos. unfold writeEntriesToDiskNoLock. destruct (logFile m) as [c p0 k0] eqn:Ef.
  cbn [pos content] in Hpos. subst p0. case_bool_decide as Eb.
  { exists true, [], k0. rewrite Eb. split_and!; [|apply prefix_nil|done..].
    cbn [content]. rewrite app_nil_r, <- Ef. by destruct m. }
  unfold sys_write, granted. cbn [content pos calls]. set (bs := concat es) in *.
  set (g := match fault k0 with NoFault => _ | Fails => _ | Short n => _ end).
  destruct (g <? 0) eqn:Eg; bool_to_prop.
  { exists false, [], (S k0). rewrite app_nil_r. split_and!; [|apply prefix_nil|done|].
    - by replace (-1 =? Zlen bs) with false by (symmetry; bool_to_prop; lia).
    - intros Hnf. unfold g in Eg. rewrite Hnf in Eg. lia. }
  exists (Zlen (take (Z.to_nat g) bs) =? Zlen bs), (take (Z.to_nat g) bs), (S k0).
  rewrite write_at_end, Zlen_app. split_and!; [done|apply prefix_take|..].
  - intros E. bool_to_prop. rewrite length_take in E. apply take_ge. lia.
  - intros Hnf. unfold g. rewrite Hnf. rewrite take_ge by lia. apply Z.eqb_refl.
Qed.

(** ** Every step keeps the invariant *)

Lemma writer_take_inv base es m : log_inv base es m -> writerThread_ m = WWaiting ->
  log_inv base es (writer_take m).
Proof.
  intros (Hfd & Hh & Hwf & Hpos & p & Hc & Hp & Hall) Hw. split_and!; try done.
  exists p. split_and!; [done..|]. intros _. unfold pending in *. simpl.
  rewrite app_nil_r. rewrite Hw in Hall. apply Hall. unfold writer_alive. by rewrite Hw.
Qed.

Lemma writer_write_inv base es m finished batch : log_inv base es m ->
  writerThread_ m = WWriting finished batch ->
  log_inv base es (writer_write fault finished batch m).
Proof.
  intros (Hfd & Hh & Hwf & Hpos & p & Hc & Hp & Hall) Hw. unfold writer_write.
  destruct (write_entries_prefix batch m Hpos) as (ok & q & k & -> & Hq & Hok & _).
  assert (p ++ concat batch ++ concat (entries_ m) = log_bytes es) as Hsum.
  { unfold pending, writer_alive in Hall. rewrite Hw in Hall. auto. }
  split_and!; try done. exists (p ++ q). cbn [logFile set_logFile set_writerThread content].
  rewrite Hc, <- app_assoc. split_and!; [done|..].
  - rewrite <- Hsum. apply prefix_app. destruct Hq as [r ->]. rewrite <- app_assoc. by eexists.
  - unfold writer_alive, pending. cbn [set_writerThread set_logFile writerThread_ entries_].
    destruct ok; cbn [negb]; [|done]. rewrite (Hok eq_refl).
    destruct finished; [done|]. intros _. by rewrite app_nil_l, <- app_assoc.
Qed.

Lemma run_add_inv base es op m m' : (forall n, nonneg64 (now n)) -> wf_op op ->
  log_inv base es m -> run_add op m = Some m' ->
  log_inv base (es ++ [op_entry (now (calls (logFile m))) op]) m'.
Proof.
  intros Hnow Hop (Hfd & Hh & Hwf & Hpos & p & Hc & Hp & Hall).
  rewrite run_add_spec by done. intros [= <-]. split_and!; try done.
  - apply Forall_app. split; [done|]. constructor; [by apply Hop|done].
  - exists p. split_and!; [done|..].
    + rewrite log_bytes_app. by apply prefix_app_r.
    + unfold writer_alive, pending in *. cbn [set_entries writerThread_ entries_]. intros Ha.
      rewrite concat_app, app_assoc, app_assoc, <- (app_assoc p), Hall, log_bytes_app by done.
      done.
Qed.

Lemma mstep_inv base es m es' m' : (forall n, nonneg64 (now n)) -> Forall wf_entry es' ->
  log_inv base es m -> mstep m es' m' -> log_inv base (es ++ es') m'.
Proof.
  intros Hnow Hes' Hm. destruct 1 as [m Hw|m fin batch Hw|m op m' Hadd].
  - rewrite app_nil_r. by apply writer_take_inv.
  - rewrite app_nil_r. by apply writer_write_inv.
  - apply run_add_inv; [done| |done|done]. intros t Ht. inversion Hes' as [|? ? He _]; subst.
    destruct op; simpl in *; destruct_and?; split_and!; done.
Qed.

Lemma msteps_inv base m es m' : (forall n, nonneg64 (now n)) -> Forall wf_entry es ->
  log_inv base [] m -> msteps m es m' -> log_inv base es m'.
Proof.
  intros Hnow Hes Hm. induction 1 as [m|m1 es1 m2 es2 m3 _ IH Hstep]; [done|].
  apply Forall_app in Hes as [? ?]. eapply mstep_inv; eauto.
Qed.

(** ** Prefixes of a log *)

Lemma prefix_log_bytes es p : Forall wf_entry es -> p `prefix_of` log_bytes es ->
  exists es1 t, p = log_bytes es1 ++ t /\ es1 `prefix_of` es /\ torn t.
Proof.
  intros Hwf. revert p. induction Hwf as [|e es He _ IH]; intros p Hp.
  { apply prefix_nil_inv in Hp as ->. exists [], []. split_and!; [done..|by left]. }
  change (log_bytes (e :: es)) with (entry_bytes e ++ log_bytes es) in Hp.
  destruct (decide (length (entry_bytes e) <= length p)%nat) as [Hl|Hl].
  - destruct Hp as [r Hr]. apply app_eq_inv in Hr as [(k & Hk & Hr)|(k & Hk & Hr)].
    + assert (k = []) as -> by (apply (f_equal length) in Hk; rewrite length_app in Hk;
        apply nil_length_inv; lia).
      rewrite app_nil_r in Hk. exists [e], []. split_and!; [|by exists es|by left].
      unfold log_bytes. simpl. by rewrite !app_nil_r.
    + destruct (IH k) as (es1 & t & -> & Hpre & Ht); [by exists r|].
      exists (e :: es1), t. split_and!; [|by apply prefix_cons|done].
      rewrite Hk. by rewrite app_assoc.
  - exists [], p. split_and!; [done|apply prefix_nil|]. right. exists e. split_and!; [done|..].
    + destruct Hp as [r Hr]. apply app_eq_inv in Hr as [(k & Hk & Hr)|(k & Hk & Hr)]; [by exists k|].
      apply (f_equal length) in Hk. rewrite length_app in Hk. lia.
    + intros ->. lia.
Qed.

Lemma valid_history_prefix m es1 es : es1 `prefix_of` es -> valid_history stat rootDir m es ->
  valid_history stat rootDir m es1.
Proof.
  intros [es2 ->]. revert m. induction es1 as [|e es1 IH]; intros m; [done|].
  intros [He Hv]. split; [done|]. by apply IH.
Qed.

(** ** Starting and stopping the writer *)

(** The log just after its header was written and the thread started. *)
Definition started (base : list Z) (m : Manager) : Prop :=
  0 <= fd_ m /\ headerWritten_ m = true /\ finished_ m = false /\ writerThread_ m = WWaiting /\
  entries_ m = [] /\ content (logFile m) = base /\ pos (logFile m) = Zlen base.

Lemma started_inv base m : started base m -> log_inv base [] m.
Proof.
  intros (Hfd & Hh & _ & Hw & He & Hc & Hp). split_and!; [done|done|done|by rewrite Hc|].
  exists []. rewrite app_nil_r. split_and!; [done|done|]. unfold pending. by rewrite Hw, He.
Qed.

(** While no write fails the thread goes on until it is told to finish. *)
Definition running (m : Manager) : Prop :=
  finished_ m = false /\
  match writerThread_ m with WWaiting => True | WWriting finished _ => finished = false | _ => False end.

Lemma msteps_running base m es m' : (forall n, fault n = NoFault) -> (forall n, nonneg64 (now n)) ->
  Forall wf_entry es -> started base m -> msteps m es m' -> running m'.
Proof.
  intros Hnf Hnow Hes Hst Hs. assert (log_inv base [] m) as Hm by by apply started_inv.
  induction Hs as [m|m1 es1 m2 es2 m3 H12 IH Hstep].
  { destruct Hst as (_ & _ & Hf & Hw & _). split; [done|]. by rewrite Hw. }
  apply Forall_app in Hes as [Hes1 Hes2]. specialize (IH Hes1 Hst Hm) as [Hf Hw].
  pose proof (msteps_inv base m1 es1 m2 Hnow Hes1 Hm H12) as (Hfd & Hh & _ & Hpos & _).
  destruct Hstep as [m Hw'|m fin batch Hw'|m op m' Hadd].
  - split; [done|]. simpl. done.
  - rewrite Hw' in Hw. subst fin. unfold writer_write.
    destruct (write_entries_prefix batch m Hpos) as (ok & q & k & -> & _ & _ & Hok).
    rewrite (Hok Hnf). split; [done|]. done.
  - rewrite run_add_spec in Hadd; try done; [by simplify_eq|].
    intros t Ht. inversion Hes2 as [|? ? He _]; subst.
    destruct op; simpl in *; destruct_and?; split_and!; done.
Qed.

Lemma writer_write_ok base es m finished batch : (forall n, fault n = NoFault) ->
  log_inv base es m -> writerThread_ m = WWriting finished batch ->
  writerThread_ (writer_write fault finished batch m) = (if finished then WDone else WWaiting) /\
  finished_ (writer_write fault finished batch m) = finished_ m /\
  content (logFile (writer_write fault finished batch m)) ++ concat (entries_ m) =
    base ++ log_bytes es /\
  entries_ (writer_write fault finished batch m) = entries_ m.
Proof.
  intros Hnf (Hfd & Hh & Hwf & Hpos & p & Hc & Hp & Hall) Hw. unfold writer_write.
  destruct (write_entries_prefix batch m Hpos) as (ok & q & k & -> & _ & Hq & Hok).
  rewrite (Hok Hnf) in *. rewrite (Hq eq_refl) in *. unfold pending, writer_alive in Hall.
  rewrite Hw in Hall. split_and!; [done|done| |done]. simpl. rewrite Hc, <- (Hall I).
  by rewrite <- !app_assoc.
Qed.

(** The last iteration of the writer puts everything on disk. *)
Lemma last_iteration base es m : (forall n, fault n = NoFault) -> log_inv base es m ->
  writerThread_ m = WWaiting -> finished_ m = true ->
  content (logFile (writer_write fault (finished_ (writer_take m))
    (match writerThread_ (writer_take m) with WWriting _ es => es | _ => [] end) (writer_take m))) =
  base ++ log_bytes es.
Proof.
  intros Hnf Hm Hw Hf. pose proof (writer_take_inv base es m Hm Hw) as Hm'.
  destruct (writer_write_ok base es (writer_take m) (finished_ m) (entries_ m) Hnf Hm' eq_refl)
    as (_ & _ & Hc & _). by rewrite app_nil_r in Hc.
Qed.

Lemma shutdownThread_flushes base es m : (forall n, fault n = NoFault) -> log_inv base es m ->
  running m -> content (logFile (shutdownThread fault m)) = base ++ log_bytes es /\
  writerThread_ (shutdownThread fault m) = WNone.
Proof.
  intros Hnf Hm [Hf Hw]. unfold shutdownThread, writer_join.
  assert (log_inv base es (set_finished true m)) as Hm1 by exact Hm.
  destruct (writerThread_ m) as [| |fin batch|] eqn:Ew; try done.
  - cbn [set_finished writerThread_]. rewrite Ew. split; [|done].
    exact (last_iteration base es (set_finished true m) Hnf Hm1 Ew eq_refl).
  - subst fin. cbn [set_finished writerThread_]. rewrite Ew.
    destruct (writer_write_ok base es (set_finished true m) false batch Hnf Hm1 Ew) as (E1 & E2 & _ & _).
    pose proof (writer_write_inv base es (set_finished true m) false batch Hm1 Ew) as Hm2.
    fold (set_finished true m). rewrite E1. split; [|done].
    exact (last_iteration base es _ Hnf Hm2 E1 E2).
Qed.
End manager_props.

(** A manager with a header in its log, to which a file and a block are added
    before the writer takes them. *)
Definition ex_manager : Manager :=
  mkManager 3 [114] [49] 7 [] false OK true WWaiting true
    (mkLogFile (@log_bytes littleHost [EHeader ex_header])
      (Zlen (@log_bytes littleHost [EHeader ex_header])) 0) None.
Definition ex_added : list LogEntry :=
  [ECreation (mkFileCreation 9 [97] 3 100); EBlock (mkBlockWrite 9 3 0 50)].
Definition ex_now (n : nat) : Z := 9.
Definition ex_manager' : Manager :=
  writer_take (set_entries [@entry_bytes littleHost (ECreation (mkFileCreation 9 [97] 3 100));
    @entry_bytes littleHost (EBlock (mkBlockWrite 9 3 0 50))] ex_manager).

Lemma ex_now_nonneg n : nonneg64 (ex_now n).
Proof. eval_side. Qed.
Lemma ex_started : started (@log_bytes littleHost [EHeader ex_header]) ex_manager.
Proof. unfold started. split_and!; eval_side. Qed.
Lemma ex_added_wf : Forall wf_entry ex_added.
Proof. repeat constructor; try eval_side. Qed.
Lemma ex_added_valid : valid_history ex_stat [47] ∅ ex_added.
Proof.
  split; [split; [done|exists 100; split; [done|eval_side]]|]. split; [|done].
  exists (mkFileChunksInfo 3 [97] 100 []). split; [done|]. split; eval_side.
Qed.
Lemma ex_msteps fault : @msteps littleHost fault ex_now ex_manager ex_added ex_manager'.
Proof.
  change ex_added with ((([] ++ [ECreation (mkFileCreation 9 [97] 3 100)]) ++
    [EBlock (mkBlockWrite 9 3 0 50)]) ++ []).
  eapply msteps_step; [|by apply step_take].
  eapply msteps_step; [eapply msteps_step; [apply msteps_refl|]|].
  - apply (@step_add littleHost fault ex_now ex_manager (AddFileCreation [97] 3 100)).
    vm_compute. reflexivity.
  - eapply (@step_add littleHost fault ex_now _ (AddBlockWrite 3 0 50)). vm_compute. reflexivity.
Qed.

(** ** Properties *)

(** Crash consistency of the log.  Start from a log whose header was
    written, let the receiver threads add entries and the writer thread take
    and write batches in any order, let any write fail or stop short: at every
    moment the file holds the old log, then the first so many of the added
    entries in the order they were added, then at most a part of the next one. *)
Theorem log_is_prefix_of_added (h : Host) fault now base m0 es m :
  (forall n, nonneg64 (now n)) -> started base m0 -> Forall wf_entry es ->
  msteps fault now m0 es m ->
  exists es1 t, content (logFile m) = base ++ log_bytes es1 ++ t /\ es1 `prefix_of` es /\ torn t.
Proof.
  intros Hnow Hst Hes Hs.
  destruct (msteps_inv fault now base m0 es m Hnow Hes (started_inv base m0 Hst) Hs)
    as (_ & _ & _ & _ & p & -> & Hp & _).
  destruct (prefix_log_bytes es p Hes Hp) as (es1 & t & -> & ? & ?). eauto.
Qed.

Lemma log_is_prefix_of_added_witness : exists es1 t,
  content (logFile ex_manager') = @log_bytes littleHost [EHeader ex_header] ++
    @log_bytes littleHost es1 ++ t /\ es1 `prefix_of` ex_added /\ @torn littleHost t.
Proof.
  apply (log_is_prefix_of_added littleHost (fun _ => Fails) ex_now _ ex_manager);
    [exact ex_now_nonneg|exact ex_started|exact ex_added_wf|apply ex_msteps].
Defined.

(** Shutting the writer down loses nothing: when no write fails,
    after [shutdownThread] the log holds every entry added before it, in
    order, and the thread is joined. *)
Theorem shutdown_writes_every_entry (h : Host) fault now base m0 es m :
  (forall n, fault n = NoFault) -> (forall n, nonneg64 (now n)) ->
  started base m0 -> Forall wf_entry es -> msteps fault now m0 es m ->
  content (logFile (shutdownThread fault m)) = base ++ log_bytes es /\
  writerThread_ (shutdownThread fault m) = WNone.
Proof.
  intros Hnf Hnow Hst Hes Hs. apply shutdownThread_flushes; [done|..].
  - exact (msteps_inv fault now base m0 es m Hnow Hes (started_inv base m0 Hst) Hs).
  - exact (msteps_running fault now base m0 es m Hnf Hnow Hes Hst Hs).
Qed.

Lemma shutdown_writes_every_entry_witness :
  content (logFile (shutdownThread (fun _ => NoFault) ex_manager')) =
    @log_bytes littleHost [EHeader ex_header] ++ @log_bytes littleHost ex_added.
Proof.
  apply (shutdown_writes_every_entry littleHost (fun _ => NoFault) ex_now _ ex_manager ex_added);
    [done|exact ex_now_nonneg|exact ex_started|exact ex_added_wf|apply ex_msteps].
Defined.

(** C9: Resumption after a crash.  Whatever part of a transfer's log
    reached the disk, parsing it on the next start succeeds, and it never
    reports a byte as received that no block entry of that file was logged
    for, nor a file that was not created. *)
Theorem crash_resumption_sound (h : Host) options stat rootDir fault now fault' now' hd m0 es m ip k :
  (forall n, nonneg64 (now n)) -> (forall n, fault' n = NoFault) -> (forall n, nonneg64 (now' n)) ->
  resume_using_dir_tree options = false ->
  wf_entry (EHeader hd) -> lh_senderIp hd <> [] ->
  started (log_bytes [EHeader hd]) m0 -> Forall wf_entry es ->
  valid_history stat rootDir ∅ es -> msteps fault now m0 es m ->
  exists files f',
    parseLog options stat rootDir (lh_recoveryId hd) (lh_config hd) false fault' now'
      (mkLogFile (content (logFile m)) 0 k) ip [] = Some (OK, lh_senderIp hd, files, f') /\
    forall f, f ∈ files ->
      (exists c, ECreation c ∈ es /\ fc_seqId c = seqId_ f /\ fc_fileName c = fileName_ f) /\
      (forall x, covers (chunks_ f) x -> exists b, EBlock b ∈ es /\ bw_seqId b = seqId_ f /\
         bw_offset b <= x < bw_offset b + bw_blockSize b).
Proof.
  intros Hnow Hnf Hnow' Hlog Hhd Hip Hst Hes Hv Hs.
  destruct (msteps_inv fault now _ m0 es m Hnow Hes (started_inv _ m0 Hst) Hs)
    as (_ & _ & _ & _ & p & -> & Hp & _).
  destruct (prefix_log_bytes es p Hes Hp) as (es1 & t & -> & Hpre & Ht).
  assert (forall e, e ∈ es1 -> e ∈ es) as Hin.
  { destruct Hpre as [es2 ->]. intros e. rewrite elem_of_app. by left. }
  rewrite app_assoc, <- log_bytes_app.
  destruct (parse_transfer_log h options stat rootDir hd es1 t ip fault' now' k Hnf Hnow' Hlog Hhd Hip
    ltac:(apply Forall_forall; rewrite Forall_forall in Hes; auto)
    (valid_history_prefix stat rootDir ∅ es1 es Hpre Hv) Ht) as (files & k' & E & _ & Hf).
  exists files. eexists. split; [exact E|]. intros f Hff.
  destruct (Hf f Hff) as (c & sz & Hc & Hq & Hn & _ & _ & Hcov). split.
  - exists c. split_and!; auto.
  - intros x (b & Hb & ?)%Hcov. eauto.
Qed.

Lemma crash_resumption_sound_witness : exists files f',
  @parseLog littleHost ex_options ex_stat [47] [114] 7 false (fun _ => NoFault) ex_now
    (mkLogFile (content (logFile ex_manager')) 0 0) [] [] = Some (OK, [49], files, f').
Proof.
  destruct (crash_resumption_sound littleHost ex_options ex_stat [47] (fun _ => Fails) ex_now
    (fun _ => NoFault) ex_now ex_header ex_manager ex_added ex_manager' [] 0)
    as (files & f' & E & _);
    [exact ex_now_nonneg|done|exact ex_now_nonneg|done|eval_side|done|exact ex_started|
     exact ex_added_wf|exact ex_added_valid|apply ex_msteps|].
  exists files, f'. exact E.
Defined.
