(* ===== verification/Reporting.v ===== *)
(** The statistics of a thread or of a source and the report of a transfer:
    [TransferStats] and [TransferReport] of [Reporting.h] and [Reporting.cpp].
    The mutex of a [TransferStats] makes each operation atomic and has no other
    effect, so it does not appear; the times and throughputs of a report are
    [double]s it only stores and are left out. *)
From S2P Require Import Prelude ErrorCodes.

(** ** TransferStats

    [encryptionType_] is the value of the enumerator; [-1] in [numBlocksSend_]
    and [totalSenderBytes_] means not known. *)
Record TransferStats := mkTransferStats {
  headerBytes_ : Z;
  dataBytes_ : Z;
  effectiveHeaderBytes_ : Z;
  effectiveDataBytes_ : Z;
  numFiles_ : Z;
  numBlocks_ : Z;
  failedAttempts_ : Z;
  numBlocksSend_ : Z;
  totalSenderBytes_ : Z;
  localErrCode_ : ErrorCode;
  remoteErrCode_ : ErrorCode;
  id_ : list Z;
  encryptionType_ : Z;
  tls_ : bool
}.

Definition with_headerBytes (v : Z) (s : TransferStats) : TransferStats :=
  mkTransferStats v (dataBytes_ s) (effectiveHeaderBytes_ s) (effectiveDataBytes_ s)
    (numFiles_ s) (numBlocks_ s) (failedAttempts_ s) (numBlocksSend_ s) (totalSenderBytes_ s)
    (localErrCode_ s) (remoteErrCode_ s) (id_ s) (encryptionType_ s) (tls_ s).
Definition with_dataBytes (v : Z) (s : TransferStats) : TransferStats :=
  mkTransferStats (headerBytes_ s) v (effectiveHeaderBytes_ s) (effectiveDataBytes_ s)
    (numFiles_ s) (numBlocks_ s) (failedAttempts_ s) (numBlocksSend_ s) (totalSenderBytes_ s)
    (localErrCode_ s) (remoteErrCode_ s) (id_ s) (encryptionType_ s) (tls_ s).
Definition with_effectiveHeaderBytes (v : Z) (s : TransferStats) : TransferStats :=
  mkTransferStats (headerBytes_ s) (dataBytes_ s) v (effectiveDataBytes_ s) (numFiles_ s)
    (numBlocks_ s) (failedAttempts_ s) (numBlocksSend_ s) (totalSenderBytes_ s) (localErrCode_
    s) (remoteErrCode_ s) (id_ s) (encryptionType_ s) (tls_ s).
Definition with_effectiveDataBytes (v : Z) (s : TransferStats) : TransferStats :=
  mkTransferStats (headerBytes_ s) (dataBytes_ s) (effectiveHeaderBytes_ s) v (numFiles_ s)
    (numBlocks_ s) (failedAttempts_ s) (numBlocksSend_ s) (totalSenderBytes_ s) (localErrCode_
    s) (remoteErrCode_ s) (id_ s) (encryptionType_ s) (tls_ s).
Definition with_numFiles (v : Z) (s : TransferStats) : TransferStats :=
  mkTransferStats (headerBytes_ s) (dataBytes_ s) (effectiveHeaderBytes_ s)
    (effectiveDataBytes_ s) v (numBlocks_ s) (failedAttempts_ s) (numBlocksSend_ s)
    (totalSenderBytes_ s) (localErrCode_ s) (remoteErrCode_ s) (id_ s) (encryptionType_ s)
    (tls_ s).
Definition with_numBlocks (v : Z) (s : TransferStats) : TransferStats :=
  mkTransferStats (headerBytes_ s) (dataBytes_ s) (effectiveHeaderBytes_ s)
    (effectiveDataBytes_ s) (numFiles_ s) v (failedAttempts_ s) (numBlocksSend_ s)
    (totalSenderBytes_ s) (localErrCode_ s) (remoteErrCode_ s) (id_ s) (encryptionType_ s)
    (tls_ s).
Definition with_failedAttempts (v : Z) (s : TransferStats) : TransferStats :=
  mkTransferStats (headerBytes_ s) (dataBytes_ s) (effectiveHeaderBytes_ s)
    (effectiveDataBytes_ s) (numFiles_ s) (numBlocks_ s) v (numBlocksSend_ s)
    (totalSenderBytes_ s) (localErrCode_ s) (remoteErrCode_ s) (id_ s) (encryptionType_ s)
    (tls_ s).
Definition with_numBlocksSend (v : Z) (s : TransferStats) : TransferStats :=
  mkTransferStats (headerBytes_ s) (dataBytes_ s) (effectiveHeaderBytes_ s)
    (effectiveDataBytes_ s) (numFiles_ s) (numBlocks_ s) (failedAttempts_ s) v
    (totalSenderBytes_ s) (localErrCode_ s) (remoteErrCode_ s) (id_ s) (encryptionType_ s)
    (tls_ s).
Definition with_totalSenderBytes (v : Z) (s : TransferStats) : TransferStats :=
  mkTransferStats (headerBytes_ s) (dataBytes_ s) (effectiveHeaderBytes_ s)
    (effectiveDataBytes_ s) (numFiles_ s) (numBlocks_ s) (failedAttempts_ s) (numBlocksSend_
    s) v (localErrCode_ s) (remoteErrCode_ s) (id_ s) (encryptionType_ s) (tls_ s).
Definition with_localErrCode (v : ErrorCode) (s : TransferStats) : TransferStats :=
  mkTransferStats (headerBytes_ s) (dataBytes_ s) (effectiveHeaderBytes_ s)
    (effectiveDataBytes_ s) (numFiles_ s) (numBlocks_ s) (failedAttempts_ s) (numBlocksSend_
    s) (totalSenderBytes_ s) v (remoteErrCode_ s) (id_ s) (encryptionType_ s) (tls_ s).
Definition with_remoteErrCode (v : ErrorCode) (s : TransferStats) : TransferStats :=
  mkTransferStats (headerBytes_ s) (dataBytes_ s) (effectiveHeaderBytes_ s)
    (effectiveDataBytes_ s) (numFiles_ s) (numBlocks_ s) (failedAttempts_ s) (numBlocksSend_
    s) (totalSenderBytes_ s) (localErrCode_ s) v (id_ s) (encryptionType_ s) (tls_ s).
Definition with_id (v : list Z) (s : TransferStats) : TransferStats :=
  mkTransferStats (headerBytes_ s) (dataBytes_ s) (effectiveHeaderBytes_ s)
    (effectiveDataBytes_ s) (numFiles_ s) (numBlocks_ s) (failedAttempts_ s) (numBlocksSend_
    s) (totalSenderBytes_ s) (localErrCode_ s) (remoteErrCode_ s) v (encryptionType_ s) (tls_
    s).
Definition with_encryptionType (v : Z) (s : TransferStats) : TransferStats :=
  mkTransferStats (headerBytes_ s) (dataBytes_ s) (effectiveHeaderBytes_ s)
    (effectiveDataBytes_ s) (numFiles_ s) (numBlocks_ s) (failedAttempts_ s) (numBlocksSend_
    s) (totalSenderBytes_ s) (localErrCode_ s) (remoteErrCode_ s) (id_ s) v (tls_ s).
Definition with_tls (v : bool) (s : TransferStats) : TransferStats :=
  mkTransferStats (headerBytes_ s) (dataBytes_ s) (effectiveHeaderBytes_ s)
    (effectiveDataBytes_ s) (numFiles_ s) (numBlocks_ s) (failedAttempts_ s) (numBlocksSend_
    s) (totalSenderBytes_ s) (localErrCode_ s) (remoteErrCode_ s) (id_ s) (encryptionType_ s)
    v.

(** [TransferStats(isLocked)] and [TransferStats(id, isLocked)] *)
Definition TransferStats_default : TransferStats :=
  mkTransferStats 0 0 0 0 0 0 0 (-1) (-1) OK OK [] 0 false.
Definition TransferStats_make (id : list Z) : TransferStats :=
  with_id id TransferStats_default.

Definition reset (s : TransferStats) : TransferStats :=
  mkTransferStats 0 0 0 0 0 0 0 (numBlocksSend_ s) (totalSenderBytes_ s) OK OK (id_ s)
    (encryptionType_ s) (tls_ s).

Definition getTotalBytes (s : TransferStats) : Z := headerBytes_ s + dataBytes_ s.
Definition getEffectiveTotalBytes (s : TransferStats) : Z :=
  effectiveHeaderBytes_ s + effectiveDataBytes_ s.
Definition getErrorCode (s : TransferStats) : ErrorCode :=
  getMoreInterestingError (localErrCode_ s) (remoteErrCode_ s).

Definition addDataBytes (count : Z) (s : TransferStats) : TransferStats :=
  with_dataBytes (dataBytes_ s + count) s.
Definition addHeaderBytes (count : Z) (s : TransferStats) : TransferStats :=
  with_headerBytes (headerBytes_ s + count) s.
Definition setNumBlocksSend (n : Z) (s : TransferStats) : TransferStats :=
  with_numBlocksSend n s.
Definition setTotalSenderBytes (n : Z) (s : TransferStats) : TransferStats :=
  with_totalSenderBytes n s.
Definition incrFailedAttempts (s : TransferStats) : TransferStats :=
  with_failedAttempts (failedAttempts_ s + 1) s.
Definition setLocalErrorCode (errCode : ErrorCode) (s : TransferStats) : TransferStats :=
  with_localErrCode errCode s.
Definition setRemoteErrorCode (errCode : ErrorCode) (s : TransferStats) : TransferStats :=
  with_remoteErrCode errCode s.
Definition setId (id : list Z) (s : TransferStats) : TransferStats := with_id id s.
Definition setNumFiles (n : Z) (s : TransferStats) : TransferStats := with_numFiles n s.
Definition incrNumBlocks (s : TransferStats) : TransferStats :=
  with_numBlocks (numBlocks_ s + 1) s.
Definition decrNumBlocks (s : TransferStats) : TransferStats :=
  with_numBlocks (numBlocks_ s - 1) s.
Definition addEffectiveBytes (headerBytes dataBytes : Z) (s : TransferStats) : TransferStats :=
  with_effectiveDataBytes (effectiveDataBytes_ s + dataBytes)
    (with_effectiveHeaderBytes (effectiveHeaderBytes_ s + headerBytes) s).
Definition subtractEffectiveBytes (headerBytes dataBytes : Z) (s : TransferStats)
    : TransferStats :=
  with_effectiveDataBytes (effectiveDataBytes_ s - dataBytes)
    (with_effectiveHeaderBytes (effectiveHeaderBytes_ s - headerBytes) s).
Definition setEncryptionType (e : Z) (s : TransferStats) : TransferStats :=
  with_encryptionType e s.
Definition setTls (tls : bool) (s : TransferStats) : TransferStats := with_tls tls s.

(** [operator+=], statement by statement. *)
Definition add_counters (s stats : TransferStats) : TransferStats :=
  mkTransferStats (headerBytes_ s + headerBytes_ stats) (dataBytes_ s + dataBytes_ stats)
    (effectiveHeaderBytes_ s + effectiveHeaderBytes_ stats)
    (effectiveDataBytes_ s + effectiveDataBytes_ stats)
    (numFiles_ s + numFiles_ stats) (numBlocks_ s + numBlocks_ stats)
    (failedAttempts_ s + failedAttempts_ stats) (numBlocksSend_ s) (totalSenderBytes_ s)
    (localErrCode_ s) (remoteErrCode_ s) (id_ s) (encryptionType_ s) (tls_ s).
Definition merge_numBlocksSend (s stats : TransferStats) : TransferStats :=
  if numBlocksSend_ s =? -1 then with_numBlocksSend (numBlocksSend_ stats) s
  else if negb (numBlocksSend_ stats =? -1) && negb (numBlocksSend_ s =? numBlocksSend_ stats)
  then with_localErrCode ERROR s
  else s.
Definition merge_totalSenderBytes (s stats : TransferStats) : TransferStats :=
  if totalSenderBytes_ s =? -1 then with_totalSenderBytes (totalSenderBytes_ stats) s
  else if negb (totalSenderBytes_ stats =? -1)
          && negb (totalSenderBytes_ s =? totalSenderBytes_ stats)
  then with_localErrCode ERROR s
  else s.
Definition merge_errors (s stats : TransferStats) : TransferStats :=
  with_remoteErrCode (getMoreInterestingError (remoteErrCode_ s) (remoteErrCode_ stats))
    (with_localErrCode (getMoreInterestingError (localErrCode_ s) (localErrCode_ stats)) s).
Definition merge_encryption (s stats : TransferStats) : TransferStats :=
  if bool_decide (localErrCode_ stats = OK) && bool_decide (remoteErrCode_ stats = OK)
  then with_tls (tls_ stats) (with_encryptionType (encryptionType_ stats) s)
  else s.
Definition addStats (s stats : TransferStats) : TransferStats :=
  let s := add_counters s stats in
  let s := merge_numBlocksSend s stats in
  let s := merge_totalSenderBytes s stats in
  let s := merge_errors s stats in
  merge_encryption s stats.

(** ** TransferReport *)

Record TransferReport := mkTransferReport {
  summary_ : TransferStats;
  transferredSourceStats_ : list TransferStats;
  failedSourceStats_ : list TransferStats;
  threadStats_ : list TransferStats;
  failedDirectories_ : list (list Z);
  totalFileSize_ : Z;
  numDiscoveredFiles_ : Z;
  previouslySentBytes_ : Z;
  fileDiscoveryFinished_ : bool
}.

Definition with_summary (s : TransferStats) (r : TransferReport) : TransferReport :=
  mkTransferReport s (transferredSourceStats_ r) (failedSourceStats_ r) (threadStats_ r)
    (failedDirectories_ r) (totalFileSize_ r) (numDiscoveredFiles_ r)
    (previouslySentBytes_ r) (fileDiscoveryFinished_ r).

Definition setErrorCode (errCode : ErrorCode) (r : TransferReport) : TransferReport :=
  with_summary (setRemoteErrorCode errCode (setLocalErrorCode errCode (summary_ r))) r.
Definition addTransferStats (stats : TransferStats) (r : TransferReport) : TransferReport :=
  with_summary (addStats (summary_ r) stats) r.

(** The error of the final report of the sender: the more interesting of the
    threads', the failed sources' and the failed directories', forgiven when
    every byte was sent and a thread ended well. *)
Definition senderErrorCode (summary : TransferStats) (failedSourceStats threadStats : list TransferStats)
    (failedDirectories : list (list Z)) (totalFileSize : Z) : ErrorCode :=
  let atLeastOneOk := existsb (fun s => bool_decide (getErrorCode s = OK)) threadStats in
  let possiblyOk := bool_decide (failedDirectories = []) && bool_decide (failedSourceStats = []) in
  let summaryErrorCode := getErrorCode summary in
  let summaryErrorCode :=
    if bool_decide (failedDirectories = []) then summaryErrorCode
    else getMoreInterestingError summaryErrorCode BYTE_SOURCE_READ_ERROR in
  let summaryErrorCode :=
    foldl (fun e s => getMoreInterestingError e (getErrorCode s)) summaryErrorCode
      failedSourceStats in
  if negb (effectiveDataBytes_ summary =? totalFileSize) then
    if bool_decide (summaryErrorCode = OK) then ERROR else summaryErrorCode
  else if negb (bool_decide (summaryErrorCode = OK)) && possiblyOk && atLeastOneOk then OK
  else summaryErrorCode.

(** The constructor the sender calls at the end of a transfer. *)
Definition TransferReport_sender (transferredSourceStats failedSourceStats threadStats
    : list TransferStats) (failedDirectories : list (list Z))
    (totalFileSize numDiscoveredFiles previouslySentBytes : Z) (fileDiscoveryFinished : bool)
    : TransferReport :=
  let summary := foldl addStats TransferStats_default threadStats in
  let r := mkTransferReport summary transferredSourceStats failedSourceStats threadStats
             failedDirectories totalFileSize numDiscoveredFiles previouslySentBytes
             fileDiscoveryFinished in
  let r := setErrorCode (senderErrorCode summary failedSourceStats threadStats
                           failedDirectories totalFileSize) r in
  let failedFilesSet := remove_dups (id_ <$> failedSourceStats) in
  let numTransferredFiles := numDiscoveredFiles - Zlen failedFilesSet in
  with_summary (setNumFiles numTransferredFiles (summary_ r)) r.

(** The constructors of the progress reports. *)
Definition TransferReport_global (globalStats : TransferStats)
    (totalFileSize numDiscoveredFiles : Z) (fileDiscoveryFinished : bool) : TransferReport :=
  mkTransferReport globalStats [] [] [] [] totalFileSize numDiscoveredFiles 0
    fileDiscoveryFinished.
Definition TransferReport_threads (threadStats : list TransferStats)
    (totalFileSize numDiscoveredFiles : Z) (fileDiscoveryFinished : bool) : TransferReport :=
  mkTransferReport (foldl addStats TransferStats_default threadStats) [] [] [] []
    totalFileSize numDiscoveredFiles 0 fileDiscoveryFinished.

(** The constructor the receiver calls. *)
Definition receiverErrorCode (s : TransferStats) : ErrorCode :=
  let numBlocksSend := numBlocksSend_ s in
  let numBytesSend := totalSenderBytes_ s in
  let summaryErrorCode := localErrCode_ s in
  if (numBlocksSend =? -1) || negb (numBlocksSend =? numBlocks_ s) then
    getMoreInterestingError summaryErrorCode ERROR
  else if negb (numBytesSend =? -1) && negb (numBytesSend =? effectiveDataBytes_ s) then
    getMoreInterestingError summaryErrorCode ERROR
  else if negb (bool_decide (summaryErrorCode = OK))
          && negb (bool_decide (summaryErrorCode = ENCRYPTION_ERROR)) then OK
  else summaryErrorCode.
Definition TransferReport_receiver (globalStats : TransferStats) : TransferReport :=
  let r := mkTransferReport globalStats [] [] [] [] 0 0 0 false in
  with_summary (setLocalErrorCode (receiverErrorCode globalStats) globalStats) r.

(** ** Summing statistics *)

Lemma getMoreInterestingError_OK e1 e2 :
  getMoreInterestingError e1 e2 = OK <-> e1 = OK /\ e2 = OK.
Proof. destruct e1, e2; vm_compute; split; intuition congruence. Qed.

(** [unset_or_eq a b]: two values of which [-1] is not known do not disagree. *)
Definition unset_or_eq (a b : Z) : Prop := a = -1 \/ b = -1 \/ a = b.

Ltac unfold_addStats :=
  unfold addStats, merge_encryption, merge_errors, merge_totalSenderBytes, merge_numBlocksSend.

(** A field that every statement of [operator+=] but the first keeps is summed. *)
Lemma foldl_addStats_sum (f : TransferStats -> Z) s l :
  (forall s t, f (addStats s t) = f s + f t) ->
  f (foldl addStats s l) = f s + Zsum (f <$> l).
Proof.
  intros Hf. revert s. induction l as [|t l IH]; intros s; [unfold Zsum; simpl; lia|].
  cbn [foldl]. rewrite IH, Hf. change (Zsum (f <$> t :: l)) with (f t + Zsum (f <$> l)). lia.
Qed.

Lemma addStats_effectiveDataBytes s t :
  effectiveDataBytes_ (addStats s t) = effectiveDataBytes_ s + effectiveDataBytes_ t.
Proof. unfold_addStats. by repeat case_match. Qed.
Lemma addStats_effectiveHeaderBytes s t :
  effectiveHeaderBytes_ (addStats s t) = effectiveHeaderBytes_ s + effectiveHeaderBytes_ t.
Proof. unfold_addStats. by repeat case_match. Qed.
Lemma addStats_numBlocks s t : numBlocks_ (addStats s t) = numBlocks_ s + numBlocks_ t.
Proof. unfold_addStats. by repeat case_match. Qed.
Lemma addStats_failedAttempts s t :
  failedAttempts_ (addStats s t) = failedAttempts_ s + failedAttempts_ t.
Proof. unfold_addStats. by repeat case_match. Qed.
Lemma addStats_numBlocksSend s t :
  numBlocksSend_ (addStats s t) =
  if numBlocksSend_ s =? -1 then numBlocksSend_ t else numBlocksSend_ s.
Proof. unfold_addStats. simpl. by repeat case_match. Qed.
Lemma addStats_totalSenderBytes s t :
  totalSenderBytes_ (addStats s t) =
  if totalSenderBytes_ s =? -1 then totalSenderBytes_ t else totalSenderBytes_ s.
Proof.
  unfold_addStats. simpl. destruct (numBlocksSend_ s =? -1); simpl;
    repeat case_match; simpl in *; congruence.
Qed.

Lemma addStats_OK s t :
  getErrorCode (addStats s t) = OK <->
  getErrorCode s = OK /\ getErrorCode t = OK
  /\ unset_or_eq (numBlocksSend_ s) (numBlocksSend_ t)
  /\ unset_or_eq (totalSenderBytes_ s) (totalSenderBytes_ t).
Proof.
  unfold getErrorCode, unset_or_eq. rewrite !getMoreInterestingError_OK.
  unfold_addStats; simpl;
    destruct (numBlocksSend_ s =? -1) eqn:E1; simpl;
    destruct (totalSenderBytes_ s =? -1) eqn:E2; simpl;
    repeat case_match; simpl; rewrite !getMoreInterestingError_OK; simpl;
    bool_to_prop; intuition (congruence || lia).
Qed.

(** No two known values in the list disagree. *)
Definition consistent (f : TransferStats -> Z) (l : list TransferStats) : Prop :=
  forall s t, s ∈ l -> t ∈ l -> unset_or_eq (f s) (f t).

Lemma consistent_fold_step f s t u l :
  f u = (if f s =? -1 then f t else f s) ->
  (unset_or_eq (f s) (f t) /\ consistent f (u :: l)) <-> consistent f (s :: t :: l).
Proof.
  intros Eu. unfold consistent, unset_or_eq. split.
  - intros [Hst H] a b Ha Hb.
    assert (forall x, x ∈ l -> f u = -1 \/ f x = -1 \/ f u = f x) as Hu.
    { intros x Hx. apply H; set_solver. }
    assert (forall x y, x ∈ l -> y ∈ l -> f x = -1 \/ f y = -1 \/ f x = f y) as Hl.
    { intros x y Hx Hy. apply H; set_solver. }
    rewrite !elem_of_cons in Ha, Hb.
    destruct (f s =? -1) eqn:Es; bool_to_prop;
      destruct Ha as [->|[->|Ha]], Hb as [->|[->|Hb]];
      repeat match goal with Hx : _ ∈ l |- _ =>
        pose proof (Hu _ Hx); revert Hx end; intros; try lia; by apply Hl.
  - intros H. split; [apply H; set_solver|]. intros a b Ha Hb.
    assert (forall c, c ∈ u :: l -> exists c', c' ∈ s :: t :: l /\ f c' = f c) as Hc.
    { intros c [->|Hc]%elem_of_cons; [rewrite Eu|exists c; split; [by do 2 right|done]].
      destruct (f s =? -1); [exists t|exists s]; split; [right; left|done|left|done]. }
    destruct (Hc a Ha) as (a' & ? & <-), (Hc b Hb) as (b' & ? & <-).
    by apply H.
Qed.

Lemma foldl_addStats_OK s l :
  getErrorCode (foldl addStats s l) = OK <->
  Forall (fun t => getErrorCode t = OK) (s :: l)
  /\ consistent numBlocksSend_ (s :: l) /\ consistent totalSenderBytes_ (s :: l).
Proof.
  revert s. induction l as [|t l IH]; intros s; simpl.
  - rewrite Forall_singleton. unfold consistent, unset_or_eq. split; [|tauto].
    intros H. split_and!; [done|..]; intros a b ->%list_elem_of_singleton ->%list_elem_of_singleton; auto.
  - rewrite IH, !Forall_cons, addStats_OK.
    rewrite <- (consistent_fold_step numBlocksSend_ s t (addStats s t) l)
      by apply addStats_numBlocksSend.
    rewrite <- (consistent_fold_step totalSenderBytes_ s t (addStats s t) l)
      by apply addStats_totalSenderBytes.
    tauto.
Qed.

Lemma consistent_default f l :
  f TransferStats_default = -1 -> consistent f (TransferStats_default :: l) <-> consistent f l.
Proof.
  intros Hf. unfold consistent. split; intros H a b Ha Hb; [apply H; set_solver|].
  apply elem_of_cons in Ha as [->|Ha]; [by left|].
  apply elem_of_cons in Hb as [->|Hb]; [by right; left|]. by apply H.
Qed.

(** ** The verdict of a transfer *)

Lemma foldl_moreInteresting_OK e l :
  foldl (fun e s => getMoreInterestingError e (getErrorCode s)) e l = OK <->
  e = OK /\ Forall (fun s => getErrorCode s = OK) l.
Proof.
  revert e. induction l as [|s l IH]; intros e; simpl.
  - rewrite Forall_nil. tauto.
  - rewrite IH, Forall_cons, getMoreInterestingError_OK. tauto.
Qed.

Lemma sender_report_verdict transferred failed threads dirs total n prev fin :
  getErrorCode (summary_ (TransferReport_sender transferred failed threads dirs total n prev fin)) = OK
  <->
  Zsum (effectiveDataBytes_ <$> threads) = total /\ dirs = []
  /\ ((Forall (fun s => getErrorCode s = OK) (threads ++ failed)
       /\ consistent numBlocksSend_ threads /\ consistent totalSenderBytes_ threads)
      \/ (failed = [] /\ Exists (fun s => getErrorCode s = OK) threads)).
Proof.
  assert (forall e, getMoreInterestingError e e = e) as Hee by (by intros []).
  unfold TransferReport_sender, setErrorCode, getErrorCode at 1. simpl. rewrite Hee.
  unfold senderErrorCode.
  rewrite (foldl_addStats_sum effectiveDataBytes_) by apply addStats_effectiveDataBytes. simpl.
  set (e := foldl _ _ failed).
  assert (e = OK <-> dirs = []
     /\ Forall (fun s => getErrorCode s = OK) (threads ++ failed)
     /\ consistent numBlocksSend_ threads /\ consistent totalSenderBytes_ threads) as He.
  { unfold e. rewrite foldl_moreInteresting_OK.
    assert (getErrorCode (foldl addStats TransferStats_default threads) = OK <->
      Forall (fun t => getErrorCode t = OK) threads
      /\ consistent numBlocksSend_ threads /\ consistent totalSenderBytes_ threads) as Hf.
    { rewrite foldl_addStats_OK, Forall_cons, !consistent_default by done. intuition done. }
    rewrite Forall_app. case_bool_decide; rewrite ?getMoreInterestingError_OK, Hf; [tauto|].
    split; [intros [[_ ?] _]; done|tauto]. }
  assert (existsb (fun s => bool_decide (getErrorCode s = OK)) threads = true <->
          Exists (fun s => getErrorCode s = OK) threads) as Hex.
  { rewrite existsb_exists, Exists_exists. setoid_rewrite bool_decide_eq_true.
    by setoid_rewrite list_elem_of_In. }
  rewrite <- Hex.
  repeat case_goal; bool_to_prop; intuition (congruence || lia).
Qed.

(** The report of the sender says OK exactly when the bytes acknowledged by
    the threads add up to the size of the files, no directory failed, and
    either nothing went wrong anywhere (every thread and every failed source
    has code OK and the threads agree on the totals of the peer) or no source
    failed and a thread ended well. *)
Theorem sender_report_ok transferred failed threads dirs total n prev fin :
  getErrorCode (summary_ (TransferReport_sender transferred failed threads dirs total n prev fin)) = OK
  <->
  Zsum (effectiveDataBytes_ <$> threads) = total /\ dirs = []
  /\ ((Forall (fun s => getErrorCode s = OK) (threads ++ failed)
       /\ consistent numBlocksSend_ threads /\ consistent totalSenderBytes_ threads)
      \/ (failed = [] /\ Exists (fun s => getErrorCode s = OK) threads)).
Proof. apply sender_report_verdict. Qed.

(** The report of the receiver says OK exactly when the sender announced the
    number of blocks, that many were received, the announced size (when there
    is one) is the number of bytes received, the peer reported no error and the
    local error is not an encryption error; any other local error is forgiven. *)
Theorem receiver_report_ok s :
  getErrorCode (summary_ (TransferReport_receiver s)) = OK <->
  numBlocksSend_ s <> -1 /\ numBlocks_ s = numBlocksSend_ s
  /\ (totalSenderBytes_ s = -1 \/ totalSenderBytes_ s = effectiveDataBytes_ s)
  /\ remoteErrCode_ s = OK /\ localErrCode_ s <> ENCRYPTION_ERROR.
Proof.
  unfold TransferReport_receiver, getErrorCode, receiverErrorCode. simpl.
  rewrite getMoreInterestingError_OK.
  repeat case_goal; bool_to_prop; rewrite ?getMoreInterestingError_OK;
    intuition (congruence || lia).
Qed.

(** A mismatch of the totals replaces the local error by [ERROR], the least
    interesting one, whatever it was. *)
Lemma mismatch_hides_error s t :
  numBlocksSend_ s <> -1 -> numBlocksSend_ t <> -1 -> numBlocksSend_ s <> numBlocksSend_ t ->
  localErrCode_ t = OK -> localErrCode_ (addStats s t) = ERROR.
Proof.
  intros H1 H2 H3 Ht. unfold_addStats. simpl.
  rewrite (proj2 (Z.eqb_neq _ _) H1), (proj2 (Z.eqb_neq _ _) H2), (proj2 (Z.eqb_neq _ _) H3).
  simpl. repeat case_match; simpl; by rewrite Ht.
Qed.
