(* ===== verification/ByteSource.v ===== *)
(** The unit of transfer, a block of a file: [SourceMetaData] of
    [ByteSource.h] and [FileByteSource] of [util/FileByteSource.cpp].

    The metadata of a file is one object that all blocks of the file point to;
    it is stored in [DirectorySourceQueue::sharedFileData_].  A source holds
    its index there, and an operation that follows the pointer takes the
    metadata found there as the argument [md]. *)
From S2P Require Import Prelude ErrorCodes Protocol Reporting.

(** ** SourceMetaData *)

Record SourceMetaData := mkSourceMetaData {
  fullPath : list Z;
  relPath : list Z;
  seqId : Z;
  size : Z;
  allocationStatus : FileAllocationStatus;
  prevSeqId : Z;
  directReads : bool;
  fd : Z;
  needToClose : bool
}.
#[global] Instance SourceMetaData_settable : Settable SourceMetaData := fun md =>
  mkSourceMetaData (fullPath md) (relPath md) (seqId md) (size md) (allocationStatus md)
    (prevSeqId md) (directReads md) (fd md) (needToClose md).
#[global] Instance SourceMetaData_eq_dec : EqDecision SourceMetaData.
Proof. solve_decision. Defined.

Definition SourceMetaData_default : SourceMetaData :=
  mkSourceMetaData [] [] 0 0 NOT_EXISTS 0 false (-1) false.

(** ** FileByteSource

    [threadCtx_] says whether the pointer is set. *)

Record FileByteSource := mkFileByteSource {
  metadata_ : nat;
  size_ : Z;
  fd_ : Z;
  offset_ : Z;
  bytesRead_ : Z;
  alignedReadNeeded_ : bool;
  threadCtx_ : bool;
  transferStats_ : TransferStats
}.
#[global] Instance FileByteSource_settable : Settable FileByteSource := fun s =>
  mkFileByteSource (metadata_ s) (size_ s) (fd_ s) (offset_ s) (bytesRead_ s)
    (alignedReadNeeded_ s) (threadCtx_ s) (transferStats_ s).

Definition FileByteSource_make (metadata : nat) (md : SourceMetaData) (size offset : Z)
    : FileByteSource :=
  mkFileByteSource metadata size (-1) offset 0 false false
    (setId (relPath md) TransferStats_default).

Definition getIdentifier (md : SourceMetaData) : list Z := relPath md.
Definition getSize (s : FileByteSource) : Z := size_ s.
Definition getOffset (s : FileByteSource) : Z := offset_ s.

Definition hasError (md : SourceMetaData) (s : FileByteSource) : bool :=
  negb (bool_decide (allocationStatus md = TO_BE_DELETED)) && (fd_ s <? 0).
Definition source_finished (md : SourceMetaData) (s : FileByteSource) : bool :=
  (bytesRead_ s =? size_ s) && negb (hasError md s).

Definition source_addTransferStats (stats : TransferStats) (s : FileByteSource)
    : FileByteSource :=
  s <| transferStats_ := addStats (transferStats_ s) stats |>.

(** The kernel: [open] of a path (with [O_DIRECT] and [O_CLOEXEC] or not)
    returns a descriptor or a negative number, [pread] the bytes read or
    [None] for an error. *)
Record Disk := mkDisk {
  open_file : list Z -> bool -> bool -> Z;
  pread : Z -> Z -> Z -> option (list Z)
}.

(** What the code reads of [WdtOptions] and of the buffer of the thread. *)
Record ReadOptions := mkReadOptions {
  close_on_exec : bool;
  buffer_size : Z
}.

Definition openForRead (d : Disk) (o : ReadOptions) (filename : list Z) (isDirectReads : bool)
    : Z := open_file d filename isDirectReads (close_on_exec o).

(** [close]: clearing the page cache and closing the descriptor have no effect
    on the source. *)
Definition source_close (s : FileByteSource) : FileByteSource :=
  s <| fd_ := -1 |> <| threadCtx_ := false |>.

Definition source_open (d : Disk) (o : ReadOptions) (md : SourceMetaData) (s : FileByteSource)
    : ErrorCode * FileByteSource :=
  if bool_decide (allocationStatus md = TO_BE_DELETED) then (OK, s)
  else
    let s := source_close (s <| bytesRead_ := 0 |>) in
    let s := s <| threadCtx_ := true |> in
    let s := if directReads md then s <| alignedReadNeeded_ := true |> else s in
    let '(errCode, s) :=
      if 0 <=? fd md then (OK, s <| fd_ := fd md |>)
      else
        let f := openForRead d o (fullPath md) (directReads md) in
        (if f <? 0 then BYTE_SOURCE_READ_ERROR else OK, s <| fd_ := f |>) in
    (errCode, s <| transferStats_ := setLocalErrorCode errCode (transferStats_ s) |>).

Definition advanceOffset (numBytes : Z) (s : FileByteSource) : FileByteSource :=
  s <| offset_ := offset_ s + numBytes |> <| size_ := size_ s - numBytes |>.

Definition kDiskBlockSize : Z := 4 * 1024.

(** The position and lengths of the next [pread]. *)
Definition offsetRemainder (s : FileByteSource) : Z :=
  if alignedReadNeeded_ s then Z.rem (offset_ s + bytesRead_ s) kDiskBlockSize else 0.
Definition logicalRead (o : ReadOptions) (s : FileByteSource) : Z :=
  Z.min (buffer_size o - offsetRemainder s) (size_ s - bytesRead_ s).
Definition physicalRead (o : ReadOptions) (s : FileByteSource) : Z :=
  if alignedReadNeeded_ s then
    Z.quot (logicalRead o s + offsetRemainder s + kDiskBlockSize - 1) kDiskBlockSize
    * kDiskBlockSize
  else logicalRead o s.
Definition seekPos (s : FileByteSource) : Z := offset_ s + bytesRead_ s - offsetRemainder s.

(** [read]: the value of [size], the bytes behind the returned pointer ([None]
    for [nullptr]) and the source.  [numRead] is an [int].  [None] as the whole
    result is the failed [WDT_CHECK]. *)
Definition read (d : Disk) (o : ReadOptions) (md : SourceMetaData) (s : FileByteSource)
    : option (Z * option (list Z) * FileByteSource) :=
  if hasError md s || source_finished md s then Some (0, None, s)
  else
    let result := pread d (fd_ s) (physicalRead o s) (seekPos s) in
    let numRead := from_option (fun data => wrapS 32 (Zlen data)) (-1) result in
    let data := default [] result in
    if numRead <? 0 then
      let s := source_close s in
      Some (0, None,
        s <| transferStats_ := setLocalErrorCode BYTE_SOURCE_READ_ERROR (transferStats_ s) |>)
    else if numRead =? 0 then Some (0, None, source_close s)
    else
      let sz := numRead - offsetRemainder s in
      check negb (logicalRead o s <? sz) || alignedReadNeeded_ s ;;
      let sz := if logicalRead o s <? sz then logicalRead o s else sz in
      Some (sz, Some (slice (offsetRemainder s) (offsetRemainder s + sz) data),
            s <| bytesRead_ := bytesRead_ s + sz |>).

(** ** Reading a block *)

(** [pread] on the descriptor [f] of a regular file with bytes [c]: what it
    returns are the bytes at the position asked for, at most as many as asked
    for and at least one when there is one; for a descriptor opened with
    [O_DIRECT] ([direct]) all of them. *)
Definition reads_file (d : Disk) (f : Z) (direct : bool) (c : list Z) : Prop :=
  forall count pos, 0 <= pos -> 0 < count ->
  exists k, pread d f count pos = Some (slice pos (pos + k) c)
    /\ 0 <= k <= count
    /\ (pos < Zlen c -> 0 < k <= Zlen c - pos)
    /\ (direct = true -> k = Z.min count (Z.max 0 (Zlen c - pos))).

(** A source that is open and has not delivered all its bytes; the buffer is a
    positive number of disk blocks. *)
Definition reading (md : SourceMetaData) (s : FileByteSource) : Prop :=
  0 <= offset_ s /\ 0 <= bytesRead_ s < size_ s /\ hasError md s = false.
Definition wf_buffer (o : ReadOptions) : Prop :=
  0 < buffer_size o < 2 ^ 31 /\ buffer_size o mod kDiskBlockSize = 0.

Lemma slice_slice {A} i j k n (l : list A) :
  0 <= i -> 0 <= j -> 0 <= k -> j + k <= n ->
  slice j (j + k) (slice i (i + n) l) = slice (i + j) (i + j + k) l.
Proof.
  intros. unfold slice. rewrite skipn_firstn_comm, take_take, drop_drop.
  f_equal; [lia|]. f_equal. lia.
Qed.

Lemma slice_app {A} i j k (l : list A) :
  0 <= i <= j -> j <= k -> slice i j l ++ slice j k l = slice i k l.
Proof.
  intros. unfold slice. replace (Z.to_nat (k - i)) with (Z.to_nat (j - i) + Z.to_nat (k - j))%nat by lia.
  rewrite <- take_take_drop, drop_drop. do 3 f_equal. lia.
Qed.

Lemma Zlen_slice {A} i n (l : list A) :
  0 <= i -> 0 <= n -> i + n <= Zlen l -> Zlen (slice i (i + n) l) = n.
Proof. intros. unfold slice. rewrite length_take, length_drop. lia. Qed.

Lemma offsetRemainder_bounds s :
  0 <= offset_ s + bytesRead_ s ->
  0 <= offsetRemainder s < kDiskBlockSize /\ offsetRemainder s <= offset_ s + bytesRead_ s
  /\ (alignedReadNeeded_ s = false -> offsetRemainder s = 0).
Proof.
  intros H. unfold offsetRemainder, kDiskBlockSize. destruct (alignedReadNeeded_ s); [|lia].
  rewrite Z.rem_mod_nonneg by lia. pose proof (Z.mod_pos_bound (offset_ s + bytesRead_ s) (4 * 1024)).
  pose proof (Z.mod_le (offset_ s + bytesRead_ s) (4 * 1024)). split_and!; [lia..|done].
Qed.

(** The physical read covers the logical one and fits the buffer. *)
Lemma physicalRead_bounds md o s :
  reading md s -> wf_buffer o ->
  0 < logicalRead o s <= size_ s - bytesRead_ s
  /\ logicalRead o s + offsetRemainder s <= physicalRead o s <= buffer_size o.
Proof.
  intros (Ho & Hb & _) [Hbuf Hmod].
  destruct (offsetRemainder_bounds s) as (Hr & _ & Hna); [lia|].
  assert (kDiskBlockSize <= buffer_size o) as Hge.
  { apply Z.mod_divide in Hmod as [k Hk]; [|done]. unfold kDiskBlockSize in *. nia. }
  assert (0 < logicalRead o s <= size_ s - bytesRead_ s
          /\ logicalRead o s <= buffer_size o - offsetRemainder s) as [Hl Hl2]
    by (unfold logicalRead; lia).
  split; [done|]. unfold physicalRead. destruct (alignedReadNeeded_ s).
  - apply Z.mod_divide in Hmod as [k Hk]; [|done].
    rewrite Z.quot_div_nonneg by (unfold kDiskBlockSize; lia).
    set (x := logicalRead o s + offsetRemainder s) in *.
    pose proof (Z_div_mod_eq_full (x + kDiskBlockSize - 1) kDiskBlockSize).
    pose proof (Z.mod_pos_bound (x + kDiskBlockSize - 1) kDiskBlockSize).
    unfold kDiskBlockSize in *. split; [lia|].
    assert ((x + 4 * 1024 - 1) / (4 * 1024) <= k); [|lia].
    apply Z.lt_succ_r, Z.div_lt_upper_bound; lia.
  - rewrite Hna by done. lia.
Qed.

Lemma seekPos_nonneg md s : reading md s -> 0 <= seekPos s.
Proof.
  intros (? & ? & _). unfold seekPos. pose proof (offsetRemainder_bounds s). lia.
Qed.

(** One [read] of a block inside its file delivers the next bytes of the
    block, at least one and never beyond its end, for buffered and for direct
    reads alike. *)
Lemma read_exact d o md s c :
  reading md s -> wf_buffer o -> reads_file d (fd_ s) (alignedReadNeeded_ s) c ->
  offset_ s + size_ s <= Zlen c ->
  exists k, 0 < k <= size_ s - bytesRead_ s
    /\ read d o md s =
       Some (k, Some (slice (offset_ s + bytesRead_ s) (offset_ s + bytesRead_ s + k) c),
             s <| bytesRead_ := bytesRead_ s + k |>).
Proof.
  intros Hs Hw Hd Hc. pose proof Hs as (Ho & Hb & He).
  destruct (physicalRead_bounds _ _ _ Hs Hw) as [Hl Hp].
  pose proof (seekPos_nonneg _ _ Hs) as Hpos.
  destruct (offsetRemainder_bounds s) as (Hr & Hr2 & Hna); [lia|].
  destruct (Hd (physicalRead o s) (seekPos s)) as (n & Hread & Hn & Hn1 & Hn2); [lia|lia|].
  assert (seekPos s < Zlen c) as Hlt by (unfold seekPos; lia).
  specialize (Hn1 Hlt).
  assert (offsetRemainder s < n) as Hgt.
  { destruct (alignedReadNeeded_ s); [|rewrite Hna by done; lia].
    rewrite Hn2 by done. unfold seekPos in *. lia. }
  destruct Hw as [Hw _].
  unfold read. unfold source_finished. rewrite He, (proj2 (Z.eqb_neq _ _)) by lia. simpl.
  rewrite Hread. simpl. rewrite Zlen_slice, wrapS_small by (unfold inS; simpl; lia).
  rewrite (proj2 (Z.ltb_ge n 0)), (proj2 (Z.eqb_neq n 0)) by lia.
  assert (forall k, 0 <= k -> offsetRemainder s + k <= n ->
    slice (offsetRemainder s) (offsetRemainder s + k) (slice (seekPos s) (seekPos s + n) c) =
    slice (offset_ s + bytesRead_ s) (offset_ s + bytesRead_ s + k) c) as Hslice.
  { intros k ??. rewrite slice_slice by lia. unfold seekPos. f_equal; lia. }
  destruct (logicalRead o s <? n - offsetRemainder s) eqn:E; bool_to_prop; simpl.
  - assert (alignedReadNeeded_ s = true) as ->.
    { destruct (alignedReadNeeded_ s) eqn:Ea; [done|].
      unfold physicalRead in *. rewrite Ea in *. rewrite Hna in * by done. lia. }
    exists (logicalRead o s). split; [lia|]. by rewrite Hslice by lia.
  - exists (n - offsetRemainder s). split; [lia|]. by rewrite Hslice by lia.
Qed.
