(* ===== verification/SourceQueue.v ===== *)
(** The queue of the sender: [DirectorySourceQueue] of
    [util/DirectorySourceQueue.cpp].  Its discovery of the files of a directory
    is in [Explore].

    The mutex makes each critical section atomic, and each critical section is
    one definition here: an operation that releases the lock in the middle
    ([getNextSource]) is split there.  [std::priority_queue] is the list of the
    queued sources, with its documented contract: [pop] removes a source that
    is not less than any other.  Between sources that compare equal the model
    takes the first. *)
From S2P Require Import Prelude ErrorCodes Protocol Chunks Reporting ByteSource.

(** ** The environment

    What the code asks the system for: the disk of [ByteSource], the abort
    checker (by the number of calls made to it), [stat] and [lstat] (the type
    of the file and its size), [realpath], the entries of a directory (and
    whether [readdir] failed after them), [std::regex_match], whether a
    descriptor handed in by the application was opened with [O_DIRECT], and the
    compile-time [WDT_SUPPORTS_ODIRECT]. *)
Inductive FileKind := S_IFREG | S_IFDIR | S_IFLNK | S_IFOTHER.
Inductive DType := DT_DIR | DT_REG | DT_LNK | DT_UNKNOWN | DT_OTHER.
#[global] Instance FileKind_eq_dec : EqDecision FileKind.
Proof. solve_decision. Defined.
#[global] Instance DType_eq_dec : EqDecision DType.
Proof. solve_decision. Defined.

Record Env := mkEnv {
  disk : Disk;
  read_options : ReadOptions;
  shouldAbort : nat -> bool;
  stat : list Z -> option (FileKind * Z);
  lstat : list Z -> option (FileKind * Z);
  realpath : list Z -> option (list Z);
  opendir : list Z -> option (list (DType * list Z) * bool);
  regex_match : list Z -> list Z -> bool;
  fcntl_direct : Z -> bool;
  supports_odirect : bool
}.

(** ** WdtFileInfo *)

Record WdtFileInfo := mkWdtFileInfo {
  fi_fileName : list Z;
  fi_fileSize : Z;
  fi_fd : Z;
  fi_directReads : bool
}.
#[global] Instance WdtFileInfo_eq_dec : EqDecision WdtFileInfo.
Proof. solve_decision. Defined.

(** The two constructors. *)
Definition WdtFileInfo_make (name : list Z) (size : Z) (doDirectReads : bool) : WdtFileInfo :=
  mkWdtFileInfo name size (-1) doDirectReads.
Definition WdtFileInfo_fd (fd size : Z) (name : list Z) : WdtFileInfo :=
  mkWdtFileInfo name size fd false.

Definition fi_set_fileSize (v : Z) (f : WdtFileInfo) : WdtFileInfo :=
  mkWdtFileInfo (fi_fileName f) v (fi_fd f) (fi_directReads f).
Definition fi_set_directReads (v : bool) (f : WdtFileInfo) : WdtFileInfo :=
  mkWdtFileInfo (fi_fileName f) (fi_fileSize f) (fi_fd f) v.

Definition verifyAndFixFlags (env : Env) (f : WdtFileInfo) : WdtFileInfo :=
  let f := if 0 <=? fi_fd f then fi_set_directReads (fcntl_direct env (fi_fd f)) f else f in
  if fi_directReads f && negb (supports_odirect env) then fi_set_directReads false f else f.

(** ** The condition variable [conditionNotEmpty_]

    The threads blocked in [wait], and those woken that have not yet taken the
    lock again. *)
Record CondVar := mkCondVar { asleep : Z; awakened : Z }.
Definition cv_wait (c : CondVar) : CondVar := mkCondVar (asleep c + 1) (awakened c).
Definition notify_one (c : CondVar) : CondVar :=
  if 0 <? asleep c then mkCondVar (asleep c - 1) (awakened c + 1) else c.
Definition notify_all (c : CondVar) : CondVar := mkCondVar 0 (awakened c + asleep c).
(** A woken thread takes the lock and goes on. *)
Definition cv_resume (c : CondVar) : CondVar := mkCondVar (asleep c) (awakened c - 1).

(** ** DirectorySourceQueue

    The generator is the list of the batches it will return; [abortChecks]
    counts the calls to the abort checker. *)
Record DirectorySourceQueue := mkDirectorySourceQueue {
  rootDir_ : list Z;
  pruneDirPattern_ : list Z;
  includePattern_ : list Z;
  excludePattern_ : list Z;
  blockSizeMbytes_ : Z;
  fileInfo_ : list WdtFileInfo;
  fileInfoGenerator_ : option (list (list WdtFileInfo));
  conditionNotEmpty_ : CondVar;
  initCalled_ : bool;
  initFinished_ : bool;
  sourceQueue_ : list FileByteSource;
  numWaiters_ : Z;
  failedSourceStats_ : list TransferStats;
  failedDirectories_ : list (list Z);
  numEntries_ : Z;
  nextSeqId_ : Z;
  numBlocks_ : Z;
  totalFileSize_ : Z;
  numBlocksDequeued_ : Z;
  followSymlinks_ : bool;
  sharedFileData_ : list SourceMetaData;
  previouslyTransferredChunks_ : gmap (list Z) FileChunksInfo;
  previouslySentBytes_ : Z;
  openFilesDuringDiscovery_ : Z;
  directReads_ : bool;
  numFilesOpened_ : Z;
  numFilesOpenedWithDirect_ : Z;
  numClientThreads_ : Z;
  exploreDirectory_ : bool;
  deleteFiles_ : bool;
  abortChecks : nat
}.
#[global] Instance DirectorySourceQueue_settable : Settable DirectorySourceQueue := fun q =>
  mkDirectorySourceQueue (rootDir_ q) (pruneDirPattern_ q) (includePattern_ q)
    (excludePattern_ q) (blockSizeMbytes_ q) (fileInfo_ q) (fileInfoGenerator_ q)
    (conditionNotEmpty_ q) (initCalled_ q) (initFinished_ q) (sourceQueue_ q) (numWaiters_ q)
    (failedSourceStats_ q) (failedDirectories_ q) (numEntries_ q) (nextSeqId_ q) (numBlocks_
    q) (totalFileSize_ q) (numBlocksDequeued_ q) (followSymlinks_ q) (sharedFileData_ q)
    (previouslyTransferredChunks_ q) (previouslySentBytes_ q) (openFilesDuringDiscovery_ q)
    (directReads_ q) (numFilesOpened_ q) (numFilesOpenedWithDirect_ q) (numClientThreads_ q)
    (exploreDirectory_ q) (deleteFiles_ q) (abortChecks q).

#[global] Instance SourceMetaData_inhabited : Inhabited SourceMetaData :=
  populate SourceMetaData_default.

(** The metadata a source points to. *)
Definition meta (q : DirectorySourceQueue) (s : FileByteSource) : SourceMetaData :=
  sharedFileData_ q !!! metadata_ s.

(** *** Setters *)

(** The constructor and [setRootDir]: the result and the queue. *)
Definition resolvePath (env : Env) (path : list Z) : list Z := default [] (realpath env path).
Definition slash : Z := 47.
Definition setRootDir (env : Env) (newRootDir : list Z) (q : DirectorySourceQueue)
    : bool * DirectorySourceQueue :=
  if bool_decide (newRootDir = []) then (false, q)
  else
    let dir := if followSymlinks_ q then resolvePath env newRootDir else newRootDir in
    if bool_decide (dir = []) then (false, q)
    else
      let dir := if bool_decide (last dir = Some slash) then dir else dir ++ [slash] in
      (true, q <| rootDir_ := dir |>).
Definition DirectorySourceQueue_default : DirectorySourceQueue :=
  mkDirectorySourceQueue [] [] [] [] 0 [] None (mkCondVar 0 0) false false [] 0 [] [] 0 1 0 0 0
    false [] ∅ 0 0 false 0 0 1 true false 0.
Definition DirectorySourceQueue_make (env : Env) (rootDir : list Z) : DirectorySourceQueue :=
  (setRootDir env rootDir DirectorySourceQueue_default).2.

Definition setBlockSizeMbytes (n : Z) (q : DirectorySourceQueue) : DirectorySourceQueue :=
  q <| blockSizeMbytes_ := n |>.
Definition setFileInfo (fileInfo : list WdtFileInfo) (q : DirectorySourceQueue)
    : DirectorySourceQueue :=
  q <| fileInfo_ := fileInfo |> <| exploreDirectory_ := false |>.
Definition setFileInfoGenerator (gen : list (list WdtFileInfo)) (q : DirectorySourceQueue)
    : DirectorySourceQueue :=
  q <| fileInfoGenerator_ := Some gen |> <| exploreDirectory_ := false |>.
Definition setFollowSymlinks (env : Env) (followSymlinks : bool) (q : DirectorySourceQueue)
    : DirectorySourceQueue :=
  let q := q <| followSymlinks_ := followSymlinks |> in
  if followSymlinks then (setRootDir env (rootDir_ q) q).2 else q.
Definition setIncludePattern (p : list Z) (q : DirectorySourceQueue) : DirectorySourceQueue :=
  q <| includePattern_ := p |>.
Definition setExcludePattern (p : list Z) (q : DirectorySourceQueue) : DirectorySourceQueue :=
  q <| excludePattern_ := p |>.
Definition setPruneDirPattern (p : list Z) (q : DirectorySourceQueue) : DirectorySourceQueue :=
  q <| pruneDirPattern_ := p |>.
Definition setNumClientThreads (n : Z) (q : DirectorySourceQueue) : DirectorySourceQueue :=
  q <| numClientThreads_ := n |>.
Definition setOpenFilesDuringDiscovery (n : Z) (q : DirectorySourceQueue)
    : DirectorySourceQueue := q <| openFilesDuringDiscovery_ := n |>.
Definition setDirectReads (b : bool) (q : DirectorySourceQueue) : DirectorySourceQueue :=
  q <| directReads_ := b |>.
Definition enableFileDeletion (q : DirectorySourceQueue) : DirectorySourceQueue :=
  q <| deleteFiles_ := true |>.

(** *** The priority queue *)

(** [operator>] of [std::string]: lexicographic on the bytes. *)
Fixpoint string_gt (a b : list Z) : bool :=
  match a, b with
  | [], _ => false
  | _ :: _, [] => true
  | x :: a, y :: b => if x =? y then string_gt a b else y <? x
  end.

(** [SourceComparator]: whether the first source is less urgent than the second. *)
Definition SourceComparator (q : DirectorySourceQueue) (source1 source2 : FileByteSource) : bool :=
  let toBeDeleted1 := bool_decide (allocationStatus (meta q source1) = TO_BE_DELETED) in
  let toBeDeleted2 := bool_decide (allocationStatus (meta q source2) = TO_BE_DELETED) in
  if negb (Bool.eqb toBeDeleted1 toBeDeleted2) then toBeDeleted2
  else
    let retryCount1 := failedAttempts_ (transferStats_ source1) in
    let retryCount2 := failedAttempts_ (transferStats_ source2) in
    if negb (retryCount1 =? retryCount2) then retryCount2 <? retryCount1
    else if negb (getSize source1 =? getSize source2) then getSize source1 <? getSize source2
    else if negb (getOffset source1 =? getOffset source2) then getOffset source2 <? getOffset source1
    else string_gt (getIdentifier (meta q source1)) (getIdentifier (meta q source2)).

(** [top] and the queue after [pop]: a greatest source and the others. *)
Fixpoint extract_max (lt : FileByteSource -> FileByteSource -> bool) (cur : FileByteSource)
    (rest : list FileByteSource) : FileByteSource * list FileByteSource :=
  match rest with
  | [] => (cur, [])
  | s :: rest =>
      if lt cur s then let '(m, others) := extract_max lt s rest in (m, cur :: others)
      else let '(m, others) := extract_max lt cur rest in (m, s :: others)
  end.
Definition pq_pop (q : DirectorySourceQueue) : option (FileByteSource * DirectorySourceQueue) :=
  match sourceQueue_ q with
  | [] => None
  | s :: rest =>
      let '(m, others) := extract_max (SourceComparator q) s rest in
      Some (m, q <| sourceQueue_ := others |>)
  end.
Definition pq_push (s : FileByteSource) (q : DirectorySourceQueue) : DirectorySourceQueue :=
  q <| sourceQueue_ := s :: sourceQueue_ q |>.

(** *** Notification *)

Definition smartNotify (addedSource : Z) (q : DirectorySourceQueue) : DirectorySourceQueue :=
  q <| conditionNotEmpty_ :=
         if numClientThreads_ q <=? addedSource then notify_all (conditionNotEmpty_ q)
         else Nat.iter (Z.to_nat addedSource) notify_one (conditionNotEmpty_ q) |>.

(** *** Returning sources *)

(** The loop of [returnToQueue]; the check comes after the push. *)
Fixpoint returnToQueue_loop (sources : list FileByteSource) (q : DirectorySourceQueue)
    : option DirectorySourceQueue :=
  match sources with
  | [] => Some q
  | source :: sources =>
      let q := pq_push source q in
      check 0 <? numBlocksDequeued_ q ;;
      returnToQueue_loop sources (q <| numBlocksDequeued_ := numBlocksDequeued_ q - 1 |>)
  end.
Definition returnToQueue (sources : list FileByteSource) (q : DirectorySourceQueue)
    : option DirectorySourceQueue :=
  let* q := returnToQueue_loop sources q in
  Some (smartNotify (Zlen sources) q).
Definition returnOneToQueue (source : FileByteSource) (q : DirectorySourceQueue)
    : option DirectorySourceQueue := returnToQueue [source] q.

(** *** Splitting a file into blocks *)

(** The [do ... while] over one chunk: the sources it pushes, in order.  Each
    round but the last takes [blockSize] bytes, so the quotient of the sizes
    bounds the rounds; with a block size that is not positive the loop would
    not end ([None]). *)
Fixpoint split_loop (fuel : nat) (i : nat) (md : SourceMetaData)
    (blockSize offset remainingBytes : Z) : option (list FileByteSource) :=
  match fuel with
  | O => None
  | S fuel =>
      let size := Z.min remainingBytes blockSize in
      let source := FileByteSource_make i md size offset in
      let remainingBytes := remainingBytes - size in
      let offset := offset + size in
      if 0 <? remainingBytes then
        let* sources := split_loop fuel i md blockSize offset remainingBytes in
        Some (source :: sources)
      else Some [source]
  end.
Definition split_chunk (i : nat) (md : SourceMetaData) (blockSize : Z) (chunk : Interval)
    : option (list FileByteSource) :=
  split_loop (S (S (Z.to_nat (Chunks.size chunk / blockSize)))) i md blockSize (start_ chunk)
    (Chunks.size chunk).
(** The [for] over the remaining chunks. *)
Fixpoint split_chunks (i : nat) (md : SourceMetaData) (blockSize : Z) (chunks : list Interval)
    : option (list FileByteSource) :=
  match chunks with
  | [] => Some []
  | chunk :: chunks =>
      let* sources := split_chunk i md blockSize chunk in
      let* rest := split_chunks i md blockSize chunks in
      Some (sources ++ rest)
  end.

(** What is left to send of a file, with the sequence ids and the allocation
    status its blocks are sent with, and the queue with the next sequence id
    and the bytes already sent. *)
Record Plan := mkPlan {
  remainingChunks : list Interval;
  plan_seqId : Z;
  plan_prevSeqId : Z;
  plan_status : FileAllocationStatus
}.
Definition plan_file (relPath : list Z) (fileSize : Z) (q : DirectorySourceQueue)
    : option (Plan * DirectorySourceQueue) :=
  match previouslyTransferredChunks_ q !! relPath with
  | None =>
      let* whole := Interval_make 0 fileSize in
      Some (mkPlan [whole] (nextSeqId_ q) 0 NOT_EXISTS,
            q <| nextSeqId_ := nextSeqId_ q + 1 |>)
  | Some info =>
      if fileSize <? fileSize_ info then
        let* whole := Interval_make 0 fileSize in
        Some (mkPlan [whole] (nextSeqId_ q) (seqId_ info) EXISTS_TOO_LARGE,
              q <| nextSeqId_ := nextSeqId_ q + 1 |>)
      else
        Some (mkPlan (getRemainingChunks info fileSize) (seqId_ info) 0
                (if fileSize_ info <? fileSize then EXISTS_TOO_SMALL else EXISTS_CORRECT_SIZE),
              q <| previouslySentBytes_ := previouslySentBytes_ q + getTotalChunkSize info |>)
  end.

(** [createIntoQueueInternal] on the metadata at index [i]. *)
Definition createIntoQueueInternal (i : nat) (q : DirectorySourceQueue)
    : option DirectorySourceQueue :=
  let md := sharedFileData_ q !!! i in
  let fileSize := ByteSource.size md in
  let blockSizeBytes := blockSizeMbytes_ q * 1024 * 1024 in
  let enableBlockTransfer := 0 <? blockSizeBytes in
  let blockSize := if enableBlockTransfer then blockSizeBytes else fileSize in
  let* (plan, q) := plan_file (relPath md) fileSize q in
  if bool_decide (remainingChunks plan = []) then Some q
  else
    let md := md <| ByteSource.seqId := plan_seqId plan |>
                 <| ByteSource.prevSeqId := plan_prevSeqId plan |>
                 <| allocationStatus := plan_status plan |> in
    let q := q <| sharedFileData_ := <[i := md]> (sharedFileData_ q) |> in
    let* sources := split_chunks i md blockSize (remainingChunks plan) in
    let q := foldl (fun q s => pq_push s q) q sources in
    let q := q <| totalFileSize_ :=
                    totalFileSize_ q + Zsum (Chunks.size <$> remainingChunks plan) |> in
    let blockCount := Zlen sources in
    let q := q <| numEntries_ := numEntries_ q + 1 |>
               <| numBlocks_ := numBlocks_ q + blockCount |> in
    Some (smartNotify blockCount q).

(** [createIntoQueue]: the file info as the code leaves it, and the queue. *)
Definition createIntoQueue (env : Env) (fullPath : list Z) (fileInfo : WdtFileInfo)
    (q : DirectorySourceQueue) : option (WdtFileInfo * DirectorySourceQueue) :=
  let fileInfo := verifyAndFixFlags env fileInfo in
  let md := mkSourceMetaData fullPath (fi_fileName fileInfo) 0 (fi_fileSize fileInfo) NOT_EXISTS 0
              (fi_directReads fileInfo) (fi_fd fileInfo) false in
  let '(md, q) :=
    if negb (openFilesDuringDiscovery_ q =? 0) && (fd md <? 0) then
      let f := openForRead (disk env) (read_options env) fullPath (directReads md) in
      (md <| fd := f |> <| needToClose := 0 <=? f |>,
       q <| numFilesOpened_ := numFilesOpened_ q + 1 |>
         <| numFilesOpenedWithDirect_ :=
              numFilesOpenedWithDirect_ q + (if directReads md then 1 else 0) |>
         <| openFilesDuringDiscovery_ := openFilesDuringDiscovery_ q - 1 |>)
    else (md, q) in
  let i := length (sharedFileData_ q) in
  let q := q <| sharedFileData_ := sharedFileData_ q ++ [md] |> in
  let* q := createIntoQueueInternal i q in
  Some (fileInfo, q).

(** *** Extra files of the receiver *)

(** One extra file; the caller counts it. *)
Definition deletionMetaData (fileName : list Z) (info : FileChunksInfo) : SourceMetaData :=
  SourceMetaData_default <| relPath := fileName |> <| ByteSource.size := 0 |>
    <| ByteSource.seqId := seqId_ info |> <| allocationStatus := TO_BE_DELETED |>.
Definition enqueueDeletion (q : DirectorySourceQueue) (file : list Z * FileChunksInfo)
    : DirectorySourceQueue :=
  let '(fileName, info) := file in
  let md := deletionMetaData fileName info in
  let i := length (sharedFileData_ q) in
  let q := q <| sharedFileData_ := sharedFileData_ q ++ [md] |> in
  pq_push (FileByteSource_make i md 0 0) q.
(** The files the receiver has that were not discovered. *)
Definition extraFiles (q : DirectorySourceQueue) : list (list Z * FileChunksInfo) :=
  let discoveredFiles := relPath <$> sharedFileData_ q in
  base.filter (fun file => file.1 ∉ discoveredFiles)
    (map_to_list (previouslyTransferredChunks_ q)).
Definition enqueueFilesToBeDeleted (q : DirectorySourceQueue) : DirectorySourceQueue :=
  if negb (deleteFiles_ q) then q
  else if negb (initFinished_ q) || bool_decide (previouslyTransferredChunks_ q = ∅) then q
  else
    let extra := extraFiles q in
    let numFilesToBeDeleted := Zlen extra in
    let q := foldl enqueueDeletion q extra in
    let q := q <| numEntries_ := numEntries_ q + numFilesToBeDeleted |>
               <| numBlocks_ := numBlocks_ q + numFilesToBeDeleted |> in
    smartNotify numFilesToBeDeleted q.

(** *** Resumption *)

Definition clearSourceQueue (q : DirectorySourceQueue) : DirectorySourceQueue :=
  q <| sourceQueue_ := [] |>.
(** [insert] keeps the entry a name already has. *)
Definition addPreviousChunks (q : DirectorySourceQueue) (info : FileChunksInfo)
    : DirectorySourceQueue :=
  let q := q <| nextSeqId_ := Z.max (nextSeqId_ q) (seqId_ info + 1) |> in
  match previouslyTransferredChunks_ q !! fileName_ info with
  | Some _ => q
  | None => q <| previouslyTransferredChunks_ :=
                   <[fileName_ info := info]> (previouslyTransferredChunks_ q) |>
  end.
Fixpoint createAllIntoQueue (indices : list nat) (q : DirectorySourceQueue)
    : option DirectorySourceQueue :=
  match indices with
  | [] => Some q
  | i :: indices => let* q := createIntoQueueInternal i q in createAllIntoQueue indices q
  end.
Definition setPreviouslyReceivedChunks (infos : list FileChunksInfo) (q : DirectorySourceQueue)
    : option DirectorySourceQueue :=
  check 0 =? numBlocksDequeued_ q ;;
  let q := q <| nextSeqId_ := 0 |> <| totalFileSize_ := 0 |> <| numEntries_ := 0 |>
             <| numBlocks_ := 0 |> in
  let q := foldl addPreviousChunks q infos in
  let q := clearSourceQueue q in
  let* q := createAllIntoQueue (seq 0 (length (sharedFileData_ q))) q in
  Some (enqueueFilesToBeDeleted q).

(** *** A fixed list of files *)

(** [enqueueFiles]: its result, the file infos as it leaves them, the queue. *)
Fixpoint enqueueFiles (env : Env) (fileInfo : list WdtFileInfo) (q : DirectorySourceQueue)
    : option (bool * list WdtFileInfo * DirectorySourceQueue) :=
  match fileInfo with
  | [] => Some (true, [], q)
  | info :: rest =>
      let aborted := shouldAbort env (abortChecks q) in
      let q := q <| abortChecks := S (abortChecks q) |> in
      if aborted then Some (false, info :: rest, q)
      else
        let fullPath := rootDir_ q ++ fi_fileName info in
        let enqueue (info : WdtFileInfo) :=
          let* (info, q) := createIntoQueue env fullPath info q in
          let* (res, rest, q) := enqueueFiles env rest q in
          Some (res, info :: rest, q) in
        if fi_fileSize info <? 0 then
          match stat env fullPath with
          | None =>
              let failed := setLocalErrorCode BYTE_SOURCE_READ_ERROR
                              (TransferStats_make (fi_fileName info)) in
              Some (false, info :: rest,
                    q <| failedSourceStats_ := failedSourceStats_ q ++ [failed] |>)
          | Some (_, st_size) => enqueue (fi_set_fileSize st_size info)
          end
        else enqueue info
  end.
(** The loop over the generator. *)
Fixpoint enqueueGenerated (env : Env) (batches : list (list WdtFileInfo))
    (q : DirectorySourceQueue) : option (bool * DirectorySourceQueue) :=
  match batches with
  | [] => Some (true, q <| fileInfoGenerator_ := Some [] |>)
  | files :: batches =>
      let* (res, files, q) := enqueueFiles env files q in
      let q := q <| fileInfo_ := fileInfo_ q ++ files |> in
      if res then enqueueGenerated env batches q
      else Some (false, q <| fileInfoGenerator_ := Some batches |>)
  end.
Definition enqueueFileInfo (env : Env) (q : DirectorySourceQueue)
    : option (bool * DirectorySourceQueue) :=
  let* (res, files, q) := enqueueFiles env (fileInfo_ q) q in
  let q := q <| fileInfo_ := files |> in
  match fileInfoGenerator_ q with
  | Some batches => if res then enqueueGenerated env batches q else Some (res, q)
  | None => Some (res, q)
  end.
(** The end of [buildQueueSynchronously]. *)
Definition finishInit (q : DirectorySourceQueue) : DirectorySourceQueue :=
  let q := enqueueFilesToBeDeleted (q <| initFinished_ := true |>) in
  if bool_decide (sourceQueue_ q = [])
  then q <| conditionNotEmpty_ := notify_all (conditionNotEmpty_ q) |> else q.

(** *** Taking a source *)

(** [getNextSource] up to the wait, and the test of the waiting loop together
    with the critical section it guards. *)
Inductive Next :=
  | Wait
  | NullSource (status : ErrorCode)
  | TryOpen (source : FileByteSource) (status : ErrorCode).
Definition getNextSource_check (q : DirectorySourceQueue) : Next * DirectorySourceQueue :=
  if bool_decide (sourceQueue_ q = []) && negb (initFinished_ q) then
    (Wait, q <| conditionNotEmpty_ := cv_wait (conditionNotEmpty_ q) |>)
  else
    let q := q <| numWaiters_ := numWaiters_ q - 1 |> in
    let status :=
      if negb (bool_decide (failedSourceStats_ q = []))
         || negb (bool_decide (failedDirectories_ q = [])) then ERROR else OK in
    match pq_pop q with
    | None => (NullSource status, q)
    | Some (source, q) =>
        let q :=
          if bool_decide (sourceQueue_ q = []) && initFinished_ q
          then q <| conditionNotEmpty_ := notify_all (conditionNotEmpty_ q) |> else q in
        (TryOpen source status, q)
    end.
Definition getNextSource_enter (q : DirectorySourceQueue) : Next * DirectorySourceQueue :=
  getNextSource_check (q <| numWaiters_ := numWaiters_ q + 1 |>).
Definition getNextSource_resume (q : DirectorySourceQueue) : Next * DirectorySourceQueue :=
  getNextSource_check (q <| conditionNotEmpty_ := cv_resume (conditionNotEmpty_ q) |>).
(** The two critical sections after [open], which runs without the lock. *)
Definition getNextSource_opened (q : DirectorySourceQueue) : DirectorySourceQueue :=
  q <| numBlocksDequeued_ := numBlocksDequeued_ q + 1 |>.
Definition getNextSource_failed (source : FileByteSource) (q : DirectorySourceQueue)
    : DirectorySourceQueue :=
  q <| failedSourceStats_ := failedSourceStats_ q ++ [transferStats_ source] |>.
Definition open_source (env : Env) (source : FileByteSource) (q : DirectorySourceQueue)
    : ErrorCode * FileByteSource :=
  source_open (disk env) (read_options env) (meta q source) source.

(** *** Reports *)

Fixpoint getFailedSourceStats_loop (fuel : nat) (q : DirectorySourceQueue)
    : DirectorySourceQueue :=
  match fuel with
  | O => q
  | S fuel =>
      match pq_pop q with
      | None => q
      | Some (source, q) =>
          getFailedSourceStats_loop fuel
            (q <| failedSourceStats_ := failedSourceStats_ q ++ [transferStats_ source] |>)
      end
  end.
Definition getFailedSourceStats (q : DirectorySourceQueue)
    : list TransferStats * DirectorySourceQueue :=
  let q := getFailedSourceStats_loop (length (sourceQueue_ q)) q in
  (failedSourceStats_ q, q).
Definition queue_finished (q : DirectorySourceQueue) : bool :=
  initFinished_ q && bool_decide (sourceQueue_ q = []).
Definition getNumBlocksAndStatus (q : DirectorySourceQueue) : Z * ErrorCode :=
  (numBlocks_ q,
   if negb (bool_decide (failedSourceStats_ q = []))
      || negb (bool_decide (failedDirectories_ q = [])) then BYTE_SOURCE_READ_ERROR else OK).
(** The test of [waitForPreviousTransfer]. *)
Definition previousTransferRunning (numActiveThreads : Z) (q : DirectorySourceQueue) : bool :=
  negb (bool_decide (sourceQueue_ q = [])) || (numWaiters_ q <? numActiveThreads).
