(* ===== verification/SourceQueueProps.v ===== *)
(** Properties of the source queue: the order in which sources leave it, the
    division of files into blocks, what a resumed transfer enqueues. *)
From S2P Require Import Prelude ErrorCodes Protocol Chunks Reporting ByteSource SourceQueue.

(** ** The order of the queue *)

Section order.
Context (q : DirectorySourceQueue).
Notation lt := (SourceComparator q).

Definition deletes (s : FileByteSource) : Z :=
  if bool_decide (allocationStatus (meta q s) = TO_BE_DELETED) then 1 else 0.
Definition retries (s : FileByteSource) : Z := failedAttempts_ (transferStats_ s).

(** [SourceComparator] is the lexicographic order on these five keys. *)
Lemma SourceComparator_spec a b :
  lt a b = true <->
  deletes a < deletes b \/ deletes a = deletes b /\
  (retries b < retries a \/ retries a = retries b /\
  (size_ a < size_ b \/ size_ a = size_ b /\
  (offset_ b < offset_ a \/ offset_ a = offset_ b /\
   string_gt (relPath (meta q a)) (relPath (meta q b)) = true))).
Proof.
  unfold SourceComparator, deletes, retries, getSize, getOffset, getIdentifier.
  do 2 case_bool_decide; simpl; repeat case_goal; bool_to_prop; intuition (congruence || lia).
Qed.

Lemma string_gt_irrefl a : string_gt a a = false.
Proof. induction a as [|x a IH]; simpl; [done|]. by rewrite Z.eqb_refl. Qed.
Lemma string_gt_trans a b c : string_gt a b = true -> string_gt b c = true -> string_gt a c = true.
Proof.
  revert b c. induction a as [|x a IH]; intros [|y b] [|z c]; simpl; try done.
  repeat case_goal; bool_to_prop; intros; try lia; eauto.
Qed.
Lemma string_gt_total a b : string_gt a b = false -> string_gt b a = false -> a = b.
Proof.
  revert b. induction a as [|x a IH]; intros [|y b]; simpl; try done.
  repeat case_goal; bool_to_prop; intros; try lia. f_equal; [lia|auto].
Qed.

Lemma SourceComparator_irrefl a : lt a a = false.
Proof.
  apply not_true_iff_false. rewrite SourceComparator_spec, string_gt_irrefl. lia.
Qed.
Lemma SourceComparator_trans a b c : lt a b = true -> lt b c = true -> lt a c = true.
Proof.
  rewrite !SourceComparator_spec. pose proof (string_gt_trans (relPath (meta q a))
    (relPath (meta q b)) (relPath (meta q c))). intuition lia.
Qed.
(** Sources neither of which is less urgent have the same keys. *)
Lemma SourceComparator_equiv a b :
  lt a b = false -> lt b a = false ->
  deletes a = deletes b /\ retries a = retries b /\ size_ a = size_ b /\ offset_ a = offset_ b
  /\ relPath (meta q a) = relPath (meta q b).
Proof.
  rewrite <- !not_true_iff_false, !SourceComparator_spec. intros H1 H2.
  assert (deletes a = deletes b) by lia. assert (retries a = retries b) by lia.
  assert (size_ a = size_ b) by lia. assert (offset_ a = offset_ b) by lia.
  split_and!; try done. apply string_gt_total; apply not_true_iff_false; intros Hs;
    [apply H1|apply H2]; rewrite Hs; lia.
Qed.
Lemma SourceComparator_negtrans a b c : lt a b = false -> lt b c = false -> lt a c = false.
Proof.
  rewrite <- !not_true_iff_false. intros Hab Hbc Hac.
  destruct (lt b a) eqn:Hba.
  - apply Hbc. by apply (SourceComparator_trans b a c).
  - apply not_true_iff_false in Hab. destruct (SourceComparator_equiv a b) as (? & ? & ? & ? & E); [done..|].
    apply Hbc. revert Hac. rewrite !SourceComparator_spec, E. intuition lia.
Qed.

(** [pop] removes one source, and one no other is more urgent than. *)
Lemma extract_max_spec cur rest :
  let '(m, others) := extract_max lt cur rest in
  m :: others ≡ₚ cur :: rest /\ Forall (fun s => lt m s = false) (cur :: rest).
Proof.
  revert cur. induction rest as [|s rest IH]; intros cur; simpl.
  - split; [done|]. constructor; [apply SourceComparator_irrefl|done].
  - destruct (lt cur s) eqn:E.
    + specialize (IH s). destruct (extract_max lt s rest) as [m others]. destruct IH as [Hp Hf].
      split; [etrans; [apply Permutation_swap|]; by rewrite Hp|].
      constructor; [|done]. apply (Forall_inv) in Hf.
      apply not_true_iff_false. intros Hm. apply not_true_iff_false in Hf. apply Hf.
      by apply (SourceComparator_trans m cur s).
    + specialize (IH cur). destruct (extract_max lt cur rest) as [m others]. destruct IH as [Hp Hf].
      split; [etrans; [apply Permutation_swap|]; rewrite Hp; apply Permutation_swap|].
      inversion_clear Hf as [|? ? Hc Hr]. constructor; [done|]. constructor; [|done].
      by apply (SourceComparator_negtrans m cur s).
Qed.
End order.

Lemma pq_pop_spec q s q' :
  pq_pop q = Some (s, q') ->
  q' = q <| sourceQueue_ := sourceQueue_ q' |>
  /\ s :: sourceQueue_ q' ≡ₚ sourceQueue_ q
  /\ Forall (fun s' => SourceComparator q s s' = false) (sourceQueue_ q).
Proof.
  unfold pq_pop. destruct (sourceQueue_ q) as [|c rest] eqn:E; [done|].
  pose proof (extract_max_spec q c rest) as H. destruct (extract_max _ c rest) as [m others].
  intros ?; simplify_eq/=. tauto.
Qed.
Lemma pq_pop_none q : pq_pop q = None <-> sourceQueue_ q = [].
Proof.
  unfold pq_pop. destruct (sourceQueue_ q); [done|]. by destruct (extract_max _ _ _).
Qed.

(** ** Counting the blocks a byte is in *)

Definition b2z (b : bool) : Z := if b then 1 else 0.
Definition in_chunk (x : Z) (c : Interval) : bool := (start_ c <=? x) && (x <? end_ c).
Definition in_source (i : nat) (x : Z) (s : FileByteSource) : bool :=
  bool_decide (metadata_ s = i) && (offset_ s <=? x) && (x <? offset_ s + size_ s).
(** In how many chunks of the list byte [x] is, and in how many of the sources
    byte [x] of the file at index [i] is. *)
Definition hits (x : Z) (cs : list Interval) : Z := Zsum ((fun c => b2z (in_chunk x c)) <$> cs).
Definition times (i : nat) (x : Z) (ss : list FileByteSource) : Z :=
  Zsum ((fun s => b2z (in_source i x s)) <$> ss).
Definition total_size (ss : list FileByteSource) : Z := Zsum (size_ <$> ss).

Lemma b2z_range b : 0 <= b2z b <= 1.
Proof. destruct b; simpl; lia. Qed.
Lemma in_chunk_spec x c : b2z (in_chunk x c) = 1 /\ start_ c <= x < end_ c
  \/ b2z (in_chunk x c) = 0 /\ ~ start_ c <= x < end_ c.
Proof.
  unfold in_chunk, b2z. destruct (_ && _) eqn:E; bool_to_prop; [left|right]; lia.
Qed.

Lemma Zsum_fmap_cons {A} (f : A -> Z) a l : Zsum (f <$> a :: l) = f a + Zsum (f <$> l).
Proof. done. Qed.
Lemma Zsum_fmap_app {A} (f : A -> Z) l k : Zsum (f <$> l ++ k) = Zsum (f <$> l) + Zsum (f <$> k).
Proof. by rewrite fmap_app, Zsum_app. Qed.
Lemma Zsum_fmap_perm {A} (f : A -> Z) l k : l ≡ₚ k -> Zsum (f <$> l) = Zsum (f <$> k).
Proof. intros H. apply Zsum_permutation. by rewrite H. Qed.

Lemma hits_cons x c cs : hits x (c :: cs) = b2z (in_chunk x c) + hits x cs.
Proof. done. Qed.
Lemma hits_nonneg x cs : 0 <= hits x cs.
Proof.
  induction cs as [|c cs IH]; [done|]. rewrite hits_cons. pose proof (b2z_range (in_chunk x c)). lia.
Qed.
Lemma covers_hits x cs : 0 < hits x cs <-> covers cs x.
Proof.
  induction cs as [|c cs IH]; [rewrite covers_nil; done|].
  rewrite hits_cons, covers_cons, <- IH. pose proof (hits_nonneg x cs).
  pose proof (in_chunk_spec x c). lia.
Qed.
Lemma hits_ordered lo x cs : ordered lo cs -> 0 <= hits x cs <= 1 /\ (x < lo -> hits x cs = 0).
Proof.
  revert lo. induction cs as [|c cs IH]; intros lo; simpl ordered; [done|].
  intros (? & ? & Ho). rewrite hits_cons. specialize (IH _ Ho).
  pose proof (in_chunk_spec x c). lia.
Qed.

(** ** Dividing a chunk into blocks *)

(** A source as [createIntoQueueInternal] makes them, with a block of at most
    [blockSize] bytes of the file of [n] bytes at index [i]. *)
Definition block_of (i : nat) (md : SourceMetaData) (blockSize : Z) (s : FileByteSource) : Prop :=
  s = FileByteSource_make i md (size_ s) (offset_ s)
  /\ 0 <= size_ s <= blockSize /\ 0 <= offset_ s /\ offset_ s + size_ s <= ByteSource.size md.

Lemma split_loop_spec fuel i md bs off rem :
  0 <= rem <= bs * Z.of_nat fuel -> (0 < fuel)%nat -> 0 <= bs -> 0 <= off ->
  off + rem <= ByteSource.size md ->
  exists ss, split_loop fuel i md bs off rem = Some ss
    /\ ss <> [] /\ Forall (block_of i md bs) ss /\ total_size ss = rem
    /\ forall x, times i x ss = b2z (in_chunk x (mkInterval off (off + rem))).
Proof.
  unfold total_size, times.
  revert off rem. induction fuel as [|fuel IH]; intros off rem Hrem Hfuel Hbs Hoff Hfit; [lia|].
  cbn [split_loop].
  assert (block_of i md bs (FileByteSource_make i md (Z.min rem bs) off)) as Hb.
  { unfold block_of. simpl. split_and!; [done|lia..]. }
  assert (forall x, b2z (in_source i x (FileByteSource_make i md (Z.min rem bs) off)) =
    b2z (in_chunk x (mkInterval off (off + Z.min rem bs)))) as Hin.
  { intros x. unfold in_source, in_chunk. simpl. by rewrite bool_decide_eq_true_2. }
  destruct (0 <? rem - Z.min rem bs) eqn:E; bool_to_prop.
  - destruct (IH (off + Z.min rem bs) (rem - Z.min rem bs)) as (ss & -> & Hne & Hss & Hsz & Hx);
      [nia|destruct fuel; nia|lia..|].
    eexists; split; [done|]. split_and!; [done|by constructor|..].
    + rewrite Zsum_fmap_cons, Hsz. simpl. lia.
    + intros x. rewrite Zsum_fmap_cons, Hx, Hin.
      pose proof (in_chunk_spec x (mkInterval off (off + Z.min rem bs))) as H1.
      pose proof (in_chunk_spec x (mkInterval off (off + rem))) as H2.
      pose proof (in_chunk_spec x (mkInterval (off + Z.min rem bs)
        (off + Z.min rem bs + (rem - Z.min rem bs)))) as H3.
      simpl in H1, H2, H3. lia.
  - eexists; split; [done|]. split_and!; [done|by constructor|..].
    + unfold Zsum. simpl. lia.
    + intros x. rewrite Zsum_fmap_cons, Hin. unfold Zsum. simpl.
      replace (Z.min rem bs) with rem by lia. lia.
Qed.

Lemma split_chunk_spec i md bs c :
  0 <= start_ c <= end_ c -> end_ c <= ByteSource.size md ->
  0 < bs \/ bs = 0 /\ Chunks.size c = 0 ->
  exists ss, split_chunk i md bs c = Some ss
    /\ ss <> [] /\ Forall (block_of i md bs) ss /\ total_size ss = Chunks.size c
    /\ forall x, times i x ss = b2z (in_chunk x c).
Proof.
  intros Hc He Hbs. unfold split_chunk.
  destruct (split_loop_spec (S (S (Z.to_nat (Chunks.size c / bs)))) i md bs (start_ c) (Chunks.size c))
    as (ss & Hss & Hne & Hf & Hsz & Hx); try lia.
  - unfold Chunks.size in *. destruct Hbs as [Hbs|[-> ->]]; [|lia].
    pose proof (Z.div_pos (end_ c - start_ c) bs).
    pose proof (Z_div_mod_eq_full (end_ c - start_ c) bs).
    pose proof (Z.mod_pos_bound (end_ c - start_ c) bs). nia.
  - unfold Chunks.size. lia.
  - exists ss. split_and!; try done. intros x. rewrite Hx. unfold Chunks.size, in_chunk. simpl.
    by replace (start_ c + (end_ c - start_ c)) with (end_ c) by lia.
Qed.

Lemma split_chunks_spec i md bs lo cs :
  0 <= lo -> ordered lo cs -> last_end lo cs <= ByteSource.size md ->
  (0 < bs \/ bs = 0 /\ Forall (fun c => Chunks.size c = 0) cs) ->
  exists ss, split_chunks i md bs cs = Some ss
    /\ (cs <> [] -> ss <> []) /\ Forall (block_of i md bs) ss /\ total_size ss = sizes cs
    /\ forall x, times i x ss = hits x cs.
Proof.
  revert lo. induction cs as [|c cs IH]; intros lo Hlo Hord Hend Hbs; simpl.
  { exists []. split_and!; try done. }
  destruct Hord as (? & ? & Hord). simpl in Hend.
  pose proof (last_end_ge _ _ Hord).
  destruct (split_chunk_spec i md bs c) as (ss & -> & Hne & Hf & Hsz & Hx); [lia..| |].
  { destruct Hbs as [?|[? Hz%Forall_inv]]; auto. }
  destruct (IH (end_ c)) as (rest & -> & _ & Hfr & Hszr & Hxr); [lia|done|done| |].
  { destruct Hbs as [?|[? Hz%Forall_inv_tail]]; auto. }
  eexists; split; [done|]. split_and!.
  - intros _. destruct ss; done.
  - by apply Forall_app.
  - unfold total_size in *. rewrite Zsum_fmap_app, Hsz, Hszr, sizes_cons. done.
  - intros x. specialize (Hx x). specialize (Hxr x). unfold times, hits in *.
    rewrite Zsum_fmap_app, Hx, Hxr. done.
Qed.

(** ** What remains of a file *)

Lemma ordered_app lo l k : ordered lo l -> ordered (last_end lo l) k -> ordered lo (l ++ k).
Proof.
  revert lo. induction l as [|c l IH]; intros lo; simpl; [done|].
  intros (? & ? & ?) ?. split_and!; auto.
Qed.
Lemma last_end_app lo l k : last_end lo (l ++ k) = last_end (last_end lo l) k.
Proof. revert lo. induction l as [|c l IH]; intros lo; simpl; auto. Qed.
Lemma ordered_weaken lo lo' cs : lo' <= lo -> ordered lo cs -> ordered lo' cs.
Proof. destruct cs; simpl; [done|]. intuition lia. Qed.

Lemma getRemainingChunks_loop_ordered cur cs :
  ordered cur cs ->
  let '(out, final) := getRemainingChunks_loop cur cs in
  ordered cur out /\ cur <= final /\ last_end cur out <= final.
Proof.
  revert cur. induction cs as [|c cs IH]; intros cur; simpl; [lia|].
  intros (? & ? & Ho). specialize (IH _ Ho).
  destruct (getRemainingChunks_loop (end_ c) cs) as [out final]. destruct IH as (IH1 & IH2 & IH3).
  destruct (cur <? start_ c) eqn:E; bool_to_prop; simpl.
  - split_and!; [lia|lia| |lia|].
    + by apply (ordered_weaken (end_ c)).
    + destruct out as [|d out]; simpl in *; lia.
  - split_and!; [|lia|].
    + by apply (ordered_weaken (end_ c)); [lia|].
    + destruct out as [|d out]; simpl in *; lia.
Qed.

Lemma getRemainingChunks_ordered f n :
  ordered 0 (chunks_ f) -> last_end 0 (chunks_ f) <= n ->
  ordered 0 (getRemainingChunks f n) /\ last_end 0 (getRemainingChunks f n) <= n.
Proof.
  intros Hord Hn. unfold getRemainingChunks.
  pose proof (getRemainingChunks_loop_ordered 0 (chunks_ f) Hord) as H.
  pose proof (getRemainingChunks_loop_spec 0 (chunks_ f) Hord) as Hs.
  destruct (getRemainingChunks_loop 0 (chunks_ f)) as [out final].
  destruct H as (H1 & H2 & H3), Hs as (-> & _).
  destruct (_ <? n) eqn:E; bool_to_prop; [|split; [done|lia]].
  rewrite last_end_app. split; [|simpl; lia]. apply ordered_app; [done|]. simpl. lia.
Qed.

(** The chunks the receiver reported are merged and inside the file it has. *)
Definition wf_info (info : FileChunksInfo) : Prop :=
  ordered 0 (chunks_ info) /\ last_end 0 (chunks_ info) <= fileSize_ info.
Definition wf_previous (q : DirectorySourceQueue) : Prop :=
  map_Forall (fun _ => wf_info) (previouslyTransferredChunks_ q).

(** Byte [x] of the file has not been received, or the file of the receiver is
    too large to be continued. *)
Definition missing (q : DirectorySourceQueue) (md : SourceMetaData) (x : Z) : bool :=
  (0 <=? x) && (x <? ByteSource.size md) &&
  match previouslyTransferredChunks_ q !! relPath md with
  | None => true
  | Some info => (ByteSource.size md <? fileSize_ info) || (hits x (chunks_ info) =? 0)
  end.

Lemma hits_whole x n : hits x [mkInterval 0 n] = b2z ((0 <=? x) && (x <? n)).
Proof. rewrite hits_cons. unfold hits, Zsum, in_chunk. simpl. lia. Qed.

Lemma plan_file_spec q md :
  wf_previous q -> 0 <= ByteSource.size md ->
  exists plan nextSeqId sentBytes,
    plan_file (relPath md) (ByteSource.size md) q =
      Some (plan, q <| nextSeqId_ := nextSeqId |> <| previouslySentBytes_ := sentBytes |>)
    /\ ordered 0 (remainingChunks plan) /\ last_end 0 (remainingChunks plan) <= ByteSource.size md
    /\ forall x, hits x (remainingChunks plan) = b2z (missing q md x).
Proof.
  intros Hwf Hsz. unfold plan_file, missing, Interval_make.
  rewrite (proj2 (Z.leb_le 0 (ByteSource.size md)) Hsz).
  assert (ordered 0 [mkInterval 0 (ByteSource.size md)]
    /\ last_end 0 [mkInterval 0 (ByteSource.size md)] <= ByteSource.size md) by (simpl; lia).
  destruct (previouslyTransferredChunks_ q !! relPath md) as [info|] eqn:E.
  - destruct (ByteSource.size md <? fileSize_ info) eqn:El.
    + exists (mkPlan [mkInterval 0 (ByteSource.size md)] (nextSeqId_ q) (seqId_ info) EXISTS_TOO_LARGE),
        (nextSeqId_ q + 1), (previouslySentBytes_ q).
      destruct q. split_and!; [done|tauto..|]. intros x. cbn [remainingChunks]. rewrite hits_whole. simpl.
      by rewrite andb_true_r.
    + destruct (Hwf _ _ E) as [Ho He]. bool_to_prop.
      destruct (getRemainingChunks_ordered info (ByteSource.size md)) as [Ho' He']; [done|lia|].
      destruct (getRemainingChunks_spec info (ByteSource.size md)) as (_ & _ & Hc); [done|lia|].
      eexists _, (nextSeqId_ q), _. split_and!; [by destruct q|done..|].
      intros x. simpl. specialize (Hc x). rewrite <- !covers_hits in Hc.
      pose proof (hits_ordered 0 x _ Ho) as H1. pose proof (hits_ordered 0 x _ Ho') as H2.
      unfold b2z. destruct (_ && _) eqn:Eb; bool_to_prop; lia.
  - exists (mkPlan [mkInterval 0 (ByteSource.size md)] (nextSeqId_ q) 0 NOT_EXISTS),
      (nextSeqId_ q + 1), (previouslySentBytes_ q).
    destruct q. split_and!; [done|tauto..|]. intros x. cbn [remainingChunks]. rewrite hits_whole. simpl.
    by rewrite andb_true_r.
Qed.

(** ** Enqueuing a file *)

(** What identifies a file of the queue: its name and its size. *)
Definition file_key (md : SourceMetaData) : list Z * Z := (relPath md, ByteSource.size md).
Definition keys (q : DirectorySourceQueue) : list (list Z * Z) := file_key <$> sharedFileData_ q.
(** A source is a block of a file of the queue. *)
Definition in_file (ks : list (list Z * Z)) (s : FileByteSource) : Prop :=
  exists k, ks !! metadata_ s = Some k /\ 0 <= size_ s /\ 0 <= offset_ s /\ offset_ s + size_ s <= k.2.
(** What enqueuing does not touch. *)
Definition frame (q : DirectorySourceQueue) :=
  (previouslyTransferredChunks_ q, numBlocksDequeued_ q, initCalled_ q, initFinished_ q,
   deleteFiles_ q, failedSourceStats_ q, failedDirectories_ q, numClientThreads_ q,
   numWaiters_ q, blockSizeMbytes_ q).
(** The counters, less what is in the queue. *)
Definition blocks_elsewhere (q : DirectorySourceQueue) : Z := numBlocks_ q - Zlen (sourceQueue_ q).
Definition bytes_elsewhere (q : DirectorySourceQueue) : Z :=
  totalFileSize_ q - total_size (sourceQueue_ q).

Lemma foldl_pq_push q ss :
  foldl (fun q s => pq_push s q) q ss = q <| sourceQueue_ := reverse ss ++ sourceQueue_ q |>.
Proof.
  revert q. induction ss as [|s ss IH]; intros q; simpl; [by destruct q|].
  rewrite IH, reverse_cons, <- app_assoc. done.
Qed.

Lemma ordered_empty lo cs :
  ordered lo cs -> last_end lo cs <= lo -> Forall (fun c => Chunks.size c = 0) cs.
Proof.
  revert lo. induction cs as [|c cs IH]; intros lo; simpl; [done|].
  intros (? & ? & Ho) ?. pose proof (last_end_ge _ _ Ho). constructor; [unfold Chunks.size; lia|].
  apply (IH (end_ c)); [done|lia].
Qed.

Lemma times_app i x l k : times i x (l ++ k) = times i x l + times i x k.
Proof. apply Zsum_fmap_app. Qed.
Lemma times_perm i x l k : l ≡ₚ k -> times i x l = times i x k.
Proof. apply Zsum_fmap_perm. Qed.
Lemma total_size_app l k : total_size (l ++ k) = total_size l + total_size k.
Proof. apply Zsum_fmap_app. Qed.
Lemma total_size_perm l k : l ≡ₚ k -> total_size l = total_size k.
Proof. apply Zsum_fmap_perm. Qed.
Lemma times_other i j x ss : i <> j -> Forall (fun s => metadata_ s = j) ss -> times i x ss = 0.
Proof.
  intros Hij. unfold times. induction 1 as [|s ss Hs _ IH]; [done|].
  rewrite Zsum_fmap_cons, IH. unfold in_source. rewrite bool_decide_eq_false_2 by congruence. done.
Qed.

Lemma keys_insert q i md md' :
  sharedFileData_ q !! i = Some md -> file_key md' = file_key md ->
  file_key <$> <[i := md']> (sharedFileData_ q) = keys q.
Proof.
  intros Hi Hk. rewrite list_fmap_insert, Hk. apply list_insert_id. unfold keys.
  by rewrite list_lookup_fmap, Hi.
Qed.

Lemma createIntoQueueInternal_spec q i md :
  wf_previous q -> sharedFileData_ q !! i = Some md -> 0 <= ByteSource.size md ->
  exists q' ss, createIntoQueueInternal i q = Some q'
    /\ frame q' = frame q /\ keys q' = keys q
    /\ blocks_elsewhere q' = blocks_elsewhere q /\ bytes_elsewhere q' = bytes_elsewhere q
    /\ sourceQueue_ q' = reverse ss ++ sourceQueue_ q
    /\ Forall (fun s => metadata_ s = i /\ in_file (keys q) s
         /\ (0 < blockSizeMbytes_ q -> size_ s <= blockSizeMbytes_ q * 1024 * 1024)) ss
    /\ forall x, times i x ss = b2z (missing q md x).
Proof.
  intros Hwf Hi Hsz. unfold createIntoQueueInternal.
  rewrite (list_lookup_total_correct _ _ _ Hi).
  destruct (plan_file_spec q md Hwf Hsz) as (plan & a & b & -> & Hord & Hend & Hhits).
  case_bool_decide as Ep.
  { exists (q <| nextSeqId_ := a |> <| previouslySentBytes_ := b |>), [].
    split_and!; try done. intros x. by rewrite <- Hhits, Ep. }
  set (md' := md <| ByteSource.seqId := _ |> <| ByteSource.prevSeqId := _ |>
    <| allocationStatus := _ |>).
  set (bs := if 0 <? _ then _ else _).
  destruct (split_chunks_spec i md' bs 0 (remainingChunks plan)) as (ss & -> & Hne & Hf & Htot & Hx).
  { done. } { done. } { done. }
  { unfold bs. destruct (0 <? _) eqn:E; bool_to_prop; [by left|].
    destruct (Z.eq_dec (ByteSource.size md) 0) as [E0|]; [right|left; lia].
    split; [lia|]. apply (ordered_empty 0); [done|lia]. }
  eexists _, ss. split; [reflexivity|]. rewrite foldl_pq_push. split_and!.
  - done.
  - unfold keys. simpl. by apply (keys_insert q i md).
  - unfold blocks_elsewhere. simpl. rewrite length_app, length_reverse. lia.
  - unfold bytes_elsewhere. simpl. rewrite total_size_app, (total_size_perm _ ss) by apply reverse_Permutation.
    rewrite Htot. unfold sizes. lia.
  - done.
  - eapply Forall_impl; [exact Hf|]. intros s (Es & Hs & Ho & Hfit).
    assert (metadata_ s = i) as Em by (by rewrite Es). split; [done|]. split.
    + exists (file_key md). unfold keys. rewrite Em, list_lookup_fmap, Hi. simpl in *.
      split_and!; [done|lia..].
    + intros Hb. unfold bs in Hs. rewrite (proj2 (Z.ltb_lt 0 _)) in Hs by lia. lia.
  - intros x. by rewrite Hx, Hhits.
Qed.

Lemma frame_previous q q' :
  frame q' = frame q -> previouslyTransferredChunks_ q' = previouslyTransferredChunks_ q.
Proof. by injection 1. Qed.
Lemma missing_ext q q' md md' x :
  frame q' = frame q -> file_key md' = file_key md -> missing q' md' x = missing q md x.
Proof. unfold missing. by intros ->%frame_previous [= -> ->]. Qed.
Lemma wf_previous_ext q q' : frame q' = frame q -> wf_previous q -> wf_previous q'.
Proof. unfold wf_previous. by intros ->%frame_previous. Qed.
Lemma keys_lookup q i md : sharedFileData_ q !! i = Some md -> keys q !! i = Some (file_key md).
Proof. intros H. unfold keys. by rewrite list_lookup_fmap, H. Qed.
Lemma keys_lookup_inv q i k :
  keys q !! i = Some k -> exists md, sharedFileData_ q !! i = Some md /\ file_key md = k.
Proof. unfold keys. rewrite list_lookup_fmap_Some. intros (md & ? & ?). eauto. Qed.

(** Every file has a size that is not negative. *)
Definition wf_keys (ks : list (list Z * Z)) : Prop := Forall (fun k => 0 <= k.2) ks.

Lemma createAllIntoQueue_spec q is_ :
  wf_previous q -> wf_keys (keys q) -> NoDup is_ -> Forall (fun i => i < length (keys q))%nat is_ ->
  exists q' ss, createAllIntoQueue is_ q = Some q'
    /\ frame q' = frame q /\ keys q' = keys q
    /\ blocks_elsewhere q' = blocks_elsewhere q /\ bytes_elsewhere q' = bytes_elsewhere q
    /\ sourceQueue_ q' = ss ++ sourceQueue_ q
    /\ Forall (fun s => metadata_ s ∈ is_ /\ in_file (keys q) s) ss
    /\ forall i md x, sharedFileData_ q !! i = Some md ->
         times i x ss = if bool_decide (i ∈ is_) then b2z (missing q md x) else 0.
Proof.
  revert q. induction is_ as [|i is_ IH]; intros q Hwf Hk Hnd Hlt; simpl.
  { exists q, []. split_and!; done. }
  inversion_clear Hnd as [|? ? Hni Hnd']. inversion_clear Hlt as [|? ? Hi Hlt'].
  destruct (lookup_lt_is_Some_2 (keys q) i Hi) as [k Hki].
  destruct (keys_lookup_inv _ _ _ Hki) as (md & Hmd & <-).
  assert (0 <= ByteSource.size md) as Hsz by apply (Forall_lookup_1 _ _ _ _ Hk Hki).
  destruct (createIntoQueueInternal_spec q i md Hwf Hmd Hsz)
    as (q1 & ss1 & -> & Hfr & Hks & Hbe & Hye & Hq & Hf & Hx).
  destruct (IH q1) as (q2 & ss2 & -> & Hfr2 & Hks2 & Hbe2 & Hye2 & Hq2 & Hf2 & Hx2).
  { by apply (wf_previous_ext q). } { by rewrite Hks. } { done. } { by rewrite Hks. }
  exists q2, (ss2 ++ reverse ss1). split_and!; [done|congruence..| | |].
  - by rewrite Hq2, Hq, app_assoc.
  - apply Forall_app. split.
    + eapply Forall_impl; [exact Hf2|]. intros s [? ?]. rewrite Hks in *. split; [by right|done].
    + apply Forall_reverse. eapply Forall_impl; [exact Hf|]. intros s (-> & ? & _). split; [by left|done].
  - intros j md' x Hj. rewrite times_app, (times_perm j x (reverse ss1) ss1) by apply reverse_Permutation.
    assert (keys q1 !! j = Some (file_key md')) as Hj1 by (rewrite Hks; by apply keys_lookup).
    apply keys_lookup_inv in Hj1 as (md1 & Hj1 & Hkey). rewrite (Hx2 j md1 x Hj1).
    rewrite (missing_ext q q1 md' md1) by done.
    destruct (decide (j = i)) as [->|Hne].
    + rewrite bool_decide_eq_false_2 by done. rewrite bool_decide_eq_true_2 by set_solver.
      rewrite Hx. simplify_eq. lia.
    + rewrite (times_other j i) by (done || (eapply Forall_impl; [exact Hf|]; by intros ? [])).
      replace (bool_decide (j ∈ i :: is_)) with (bool_decide (j ∈ is_)); [lia|].
      apply bool_decide_ext. set_solver.
Qed.

(** ** Files to be deleted *)

Lemma foldl_enqueueDeletion q files :
  exists mds ss, foldl enqueueDeletion q files
      = q <| sharedFileData_ := sharedFileData_ q ++ mds |> <| sourceQueue_ := ss ++ sourceQueue_ q |>
    /\ relPath <$> mds = files.*1 /\ length ss = length files
    /\ Forall (fun md => ByteSource.size md = 0 /\ allocationStatus md = TO_BE_DELETED) mds
    /\ Forall (fun s => size_ s = 0 /\ offset_ s = 0
         /\ (length (sharedFileData_ q) <= metadata_ s < length (sharedFileData_ q ++ mds))%nat) ss.
Proof.
  revert q. induction files as [|[name info] files IH]; intros q; simpl.
  { exists [], []. rewrite app_nil_r. destruct q. split_and!; done. }
  destruct (IH (enqueueDeletion q (name, info))) as (mds & ss & E & Hn & Hl & Hm & Hs).
  simpl in E, Hs. rewrite E.
  exists (deletionMetaData name info :: mds),
    (ss ++ [FileByteSource_make (length (sharedFileData_ q)) (deletionMetaData name info) 0 0]).
  split_and!.
  - rewrite <- !app_assoc. done.
  - by rewrite !fmap_cons, Hn.
  - rewrite length_app. simpl. lia.
  - by constructor.
  - apply Forall_app. split.
    + eapply Forall_impl; [exact Hs|]. simpl. rewrite <- app_assoc, !length_app. simpl.
      intros s' (? & ? & ?). split_and!; try done; lia.
    + apply Forall_singleton. simpl. rewrite length_app. simpl. split_and!; [done..|lia|lia].
Qed.

Lemma times_empty i x ss : Forall (fun s => size_ s = 0) ss -> times i x ss = 0.
Proof.
  unfold times. induction 1 as [|s ss Hs _ IH]; [done|]. rewrite Zsum_fmap_cons, IH.
  unfold b2z, in_source. destruct (_ && _) eqn:E; bool_to_prop; lia.
Qed.
Lemma total_size_empty ss : Forall (fun s => size_ s = 0) ss -> total_size ss = 0.
Proof.
  unfold total_size. induction 1 as [|s ss Hs _ IH]; [done|]. rewrite Zsum_fmap_cons, IH. lia.
Qed.

Lemma enqueueFilesToBeDeleted_spec q :
  exists mds ss, frame (enqueueFilesToBeDeleted q) = frame q
    /\ sharedFileData_ (enqueueFilesToBeDeleted q) = sharedFileData_ q ++ mds
    /\ sourceQueue_ (enqueueFilesToBeDeleted q) = ss ++ sourceQueue_ q
    /\ blocks_elsewhere (enqueueFilesToBeDeleted q) = blocks_elsewhere q
    /\ bytes_elsewhere (enqueueFilesToBeDeleted q) = bytes_elsewhere q
    /\ Forall (fun s => size_ s = 0
         /\ in_file (keys (enqueueFilesToBeDeleted q)) s
         /\ (length (sharedFileData_ q) <= metadata_ s)%nat) ss
    /\ (deleteFiles_ q = true -> initFinished_ q = true ->
        relPath <$> mds = (extraFiles q).*1)
    /\ Forall (fun md => ByteSource.size md = 0 /\ allocationStatus md = TO_BE_DELETED) mds.
Proof.
  unfold enqueueFilesToBeDeleted.
  destruct (deleteFiles_ q) eqn:Ed; simpl.
  2:{ exists [], []. rewrite app_nil_r. split_and!; done. }
  destruct (negb (initFinished_ q) || _) eqn:Ei.
  { exists [], []. rewrite app_nil_r. split_and!; try done. intros _ Hi. rewrite Hi in Ei.
    simpl in Ei. bool_to_prop. unfold extraFiles. rewrite Ei, map_to_list_empty. done. }
  destruct (foldl_enqueueDeletion q (extraFiles q)) as (mds & ss & -> & Hn & Hl & Hm & Hs).
  assert (Forall (fun s => size_ s = 0) ss) as Hz by (eapply Forall_impl; [exact Hs|]; by intros ? []).
  exists mds, ss. split_and!; try done.
  - unfold blocks_elsewhere. simpl. rewrite length_app, Hl. lia.
  - unfold bytes_elsewhere. simpl. rewrite total_size_app, (total_size_empty ss) by done. lia.
  - eapply Forall_impl; [exact Hs|]. intros s (Hsz & Ho & Hlo & Hhi). split_and!; [done| |done].
    unfold in_file, keys. simpl.
    destruct (lookup_lt_is_Some_2 (sharedFileData_ q ++ mds) (metadata_ s)) as [md Hmd]; [done|].
    exists (file_key md). rewrite list_lookup_fmap, Hmd. split_and!; [done|lia|lia|].
    rewrite lookup_app_r in Hmd by done. apply (Forall_lookup_1 _ _ _ _ Hm) in Hmd as [E _].
    simpl. rewrite E. lia.
Qed.

(** ** New sources *)

(** Never sent: the statistics are the initial ones. *)
Definition untouched (s : FileByteSource) : Prop :=
  exists id, transferStats_ s = setId id TransferStats_default.
Definition to_delete (q : DirectorySourceQueue) (i : nat) : Prop :=
  allocationStatus (sharedFileData_ q !!! i) = TO_BE_DELETED.
(** A block of a file to be deleted is empty. *)
Definition deletes_nothing (q : DirectorySourceQueue) (s : FileByteSource) : Prop :=
  to_delete q (metadata_ s) -> size_ s = 0.

Lemma split_loop_untouched fuel i md bs off rem ss :
  split_loop fuel i md bs off rem = Some ss -> Forall (fun s => metadata_ s = i /\ untouched s) ss.
Proof.
  revert off rem ss. induction fuel as [|fuel IH]; intros off rem ss; cbn [split_loop]; [done|].
  assert (forall n o, metadata_ (FileByteSource_make i md n o) = i
    /\ untouched (FileByteSource_make i md n o)) as Hu by (by split; [|eexists]).
  intros H. repeat case_hyp H; simplify_eq; constructor; eauto.
Qed.
Lemma split_chunks_untouched i md bs cs ss :
  split_chunks i md bs cs = Some ss -> Forall (fun s => metadata_ s = i /\ untouched s) ss.
Proof.
  revert ss. induction cs as [|c cs IH]; intros ss H; simpl in H; repeat case_hyp H; simplify_eq; [done|].
  apply Forall_app. split; [|by apply IH]. by eapply split_loop_untouched.
Qed.

Lemma plan_file_status q path n plan q' :
  plan_file path n q = Some (plan, q') ->
  plan_status plan <> TO_BE_DELETED /\ sharedFileData_ q' = sharedFileData_ q
  /\ sourceQueue_ q' = sourceQueue_ q.
Proof.
  unfold plan_file. intros H. repeat case_hyp H; simplify_eq/=; split_and!; done.
Qed.

Lemma createIntoQueueInternal_new q i q' :
  createIntoQueueInternal i q = Some q' -> (i < length (sharedFileData_ q))%nat ->
  exists ss, sourceQueue_ q' = ss ++ sourceQueue_ q
    /\ Forall (fun s => metadata_ s = i /\ untouched s /\ ~ to_delete q' i) ss
    /\ forall j, to_delete q' j -> to_delete q j.
Proof.
  unfold createIntoQueueInternal. intros H Hi.
  destruct (plan_file _ _ q) as [[plan q1]|] eqn:Ep; [|done].
  apply plan_file_status in Ep as (Hst & Hsh & Hq).
  case_bool_decide. { simplify_eq. exists []. unfold to_delete. by rewrite Hsh, Hq. }
  destruct (split_chunks _ _ _ _) as [ss|] eqn:Es; [|done]. simplify_eq.
  apply split_chunks_untouched in Es. rewrite foldl_pq_push. unfold to_delete. simpl.
  rewrite Hsh in *. exists (reverse ss). split_and!.
  - by rewrite Hq.
  - apply Forall_reverse. eapply Forall_impl; [exact Es|]. intros s [? ?]. split_and!; try done.
    by rewrite list_lookup_total_insert_eq by done.
  - intros j. destruct (decide (i = j)) as [<-|Hne].
    + by rewrite list_lookup_total_insert_eq by done.
    + by rewrite list_lookup_total_insert_ne by done.
Qed.

Lemma createAllIntoQueue_new q is_ q' :
  createAllIntoQueue is_ q = Some q' -> Forall (fun i => i < length (sharedFileData_ q))%nat is_ ->
  exists ss, sourceQueue_ q' = ss ++ sourceQueue_ q
    /\ Forall (fun s => untouched s /\ ~ to_delete q' (metadata_ s) /\ metadata_ s ∈ is_) ss
    /\ (forall j, to_delete q' j -> to_delete q j)
    /\ length (sharedFileData_ q') = length (sharedFileData_ q).
Proof.
  revert q. induction is_ as [|i is_ IH]; intros q H Hf; simpl in H.
  { simplify_eq. by exists []. }
  inversion_clear Hf as [|? ? Hi Hf'].
  destruct (createIntoQueueInternal i q) as [q1|] eqn:E; [|done].
  assert (length (sharedFileData_ q1) = length (sharedFileData_ q)) as Hl.
  { clear -E. unfold createIntoQueueInternal in E. repeat case_hyp E; simplify_eq/=;
    match goal with Hp : plan_file _ _ _ = Some _ |- _ => apply plan_file_status in Hp as (_ & Hsh & _) end;
    rewrite ?foldl_pq_push; simpl; rewrite ?length_insert; congruence. }
  destruct (createIntoQueueInternal_new _ _ _ E Hi) as (ss1 & Hq1 & Hf1 & Hm1).
  destruct (IH q1 H) as (ss2 & Hq2 & Hf2 & Hm2 & Hl2); [by rewrite Hl|].
  exists (ss2 ++ ss1). split_and!; [by rewrite Hq2, Hq1, app_assoc| |auto|lia].
  apply Forall_app. split; (eapply Forall_impl; [eassumption|]).
  - intros s (? & ? & ?). split_and!; try done. by right.
  - intros s (-> & ? & ?). split_and!; [done|auto|by left].
Qed.

Lemma enqueueFilesToBeDeleted_new q :
  exists mds ss, sourceQueue_ (enqueueFilesToBeDeleted q) = ss ++ sourceQueue_ q
    /\ sharedFileData_ (enqueueFilesToBeDeleted q) = sharedFileData_ q ++ mds
    /\ Forall (fun s => untouched s /\ size_ s = 0) ss.
Proof.
  unfold enqueueFilesToBeDeleted. repeat case_match; try (exists [], []; by rewrite app_nil_r).
  assert (forall files q, exists mds ss, sourceQueue_ (foldl enqueueDeletion q files) = ss ++ sourceQueue_ q
    /\ sharedFileData_ (foldl enqueueDeletion q files) = sharedFileData_ q ++ mds
    /\ Forall (fun s => untouched s /\ size_ s = 0) ss) as Hd.
  { clear. induction files as [|[name info] files IH]; intros q; [exists [], []; by rewrite app_nil_r|].
    cbn [foldl]. destruct (IH (enqueueDeletion q (name, info))) as (mds & ss & -> & -> & Hf).
    exists (deletionMetaData name info :: mds),
      (ss ++ [FileByteSource_make (length (sharedFileData_ q)) (deletionMetaData name info) 0 0]).
    simpl. rewrite <- !app_assoc. split_and!; [done..|]. apply Forall_app. split; [done|].
    apply Forall_singleton. by split; [eexists|]. }
  apply (Hd (extraFiles q)).
Qed.

(** What enqueuing one more file does, whatever the queue has been through;
    [n] is the index of the file. *)
Definition enqueued (q q' : DirectorySourceQueue) (k : list Z * Z) : Prop :=
  let n := length (sharedFileData_ q) in
  frame q' = frame q /\ keys q' = keys q ++ [k] /\ bytes_elsewhere q' = bytes_elsewhere q
  /\ blocks_elsewhere q' = blocks_elsewhere q
  /\ (forall j, (j < n)%nat -> to_delete q' j -> to_delete q j)
  /\ exists ss, sourceQueue_ q' = ss ++ sourceQueue_ q
     /\ Forall (fun s => metadata_ s = n /\ in_file (keys q') s /\ untouched s
          /\ ~ to_delete q' (metadata_ s)) ss
     /\ forall md x, file_key md = k -> times n x ss = b2z (missing q md x).

Lemma createIntoQueueInternal_enqueued q q1 md :
  wf_previous q -> 0 <= ByteSource.size md ->
  sharedFileData_ q1 = sharedFileData_ q ++ [md] -> frame q1 = frame q ->
  sourceQueue_ q1 = sourceQueue_ q -> totalFileSize_ q1 = totalFileSize_ q ->
  numBlocks_ q1 = numBlocks_ q ->
  exists q', createIntoQueueInternal (length (sharedFileData_ q)) q1 = Some q'
    /\ enqueued q q' (file_key md).
Proof.
  intros Hp Hsz Hsh Hfr Hq Ht Hn. set (n := length (sharedFileData_ q)).
  assert (sharedFileData_ q1 !! n = Some md) as Hlk.
  { rewrite Hsh. unfold n. by rewrite lookup_app_r, Nat.sub_diag by lia. }
  destruct (createIntoQueueInternal_spec q1 n md)
    as (q' & ss & E & Hf1 & Hk1 & Hb1 & Hy1 & Hq1 & Hs1 & Hx1); [by apply (wf_previous_ext q)|done..|].
  destruct (createIntoQueueInternal_new _ _ _ E) as (ss' & Hq2 & Hs2 & Hm2).
  { by apply lookup_lt_Some in Hlk. }
  assert (ss' = reverse ss) as -> by (rewrite Hq1 in Hq2; by apply app_inv_tail in Hq2).
  assert (keys q1 = keys q ++ [file_key md]) as Hk by (unfold keys; by rewrite Hsh, fmap_app).
  exists q'. split; [done|]. unfold enqueued. fold n. split_and!; [congruence..| | | |].
  - rewrite Hy1. unfold bytes_elsewhere. by rewrite Hq, Ht.
  - rewrite Hb1. unfold blocks_elsewhere. by rewrite Hq, Hn.
  - intros j Hj H%Hm2. unfold to_delete in *. rewrite Hsh in H.
    by rewrite lookup_total_app_l in H by done.
  - exists (reverse ss). split; [by rewrite Hq1, Hq|]. split.
    + rewrite Forall_forall in Hs1, Hs2 |- *. intros s Hs. destruct (Hs2 s Hs) as (Hm & ? & ?).
      destruct (Hs1 s) as (_ & Hin & _); [by apply elem_of_reverse|].
      rewrite Hk1. split_and!; try done. by rewrite Hm.
    + intros md' x Hkey. rewrite (times_perm _ _ (reverse ss) ss) by apply reverse_Permutation.
      by rewrite Hx1, (missing_ext q q1 md' md).
Qed.

Lemma verifyAndFixFlags_key env info :
  fi_fileName (verifyAndFixFlags env info) = fi_fileName info
  /\ fi_fileSize (verifyAndFixFlags env info) = fi_fileSize info.
Proof. unfold verifyAndFixFlags. by repeat case_match. Qed.

Lemma createIntoQueue_enqueued env path info q :
  wf_previous q -> 0 <= fi_fileSize info ->
  exists info' q', createIntoQueue env path info q = Some (info', q')
    /\ enqueued q q' (fi_fileName info, fi_fileSize info).
Proof.
  intros Hp Hsz. unfold createIntoQueue. destruct (verifyAndFixFlags_key env info) as [En Es].
  rewrite <- En, <- Es in *. clear En Es.
  destruct (negb _ && _);
    match goal with |- context [createIntoQueueInternal _ ?q1] =>
      match goal with |- context [sharedFileData_ _ ++ [?md]] =>
        destruct (createIntoQueueInternal_enqueued q q1 md) as (q' & E & Hq'); try done
      end
    end; simpl in *; rewrite E; eauto.
Qed.

(** ** The queue holds exactly what is to be sent

    Each byte of each file that the receiver does not have is in exactly one
    queued block and no other byte is in any; the totals announced to the
    receiver are the number and the size of the queued blocks.  This is the
    state before any block is taken. *)
Definition complete (q : DirectorySourceQueue) : Prop :=
  wf_previous q /\ wf_keys (keys q) /\ Forall (in_file (keys q)) (sourceQueue_ q)
  /\ numBlocks_ q = Zlen (sourceQueue_ q) /\ totalFileSize_ q = total_size (sourceQueue_ q)
  /\ forall i md x, sharedFileData_ q !! i = Some md ->
       times i x (sourceQueue_ q) = b2z (missing q md x).

Lemma in_file_app ks ks' s : in_file ks s -> in_file (ks ++ ks') s.
Proof. intros (k & Hk & ?). exists k. split; [by apply lookup_app_l_Some|done]. Qed.
Lemma times_fresh ks i x ss : Forall (in_file ks) ss -> (length ks <= i)%nat -> times i x ss = 0.
Proof.
  intros Hf Hi. unfold times. induction Hf as [|s ss (k & Hk & _) _ IH]; [done|].
  rewrite Zsum_fmap_cons, IH. apply lookup_lt_Some in Hk.
  unfold in_source. rewrite bool_decide_eq_false_2 by lia. done.
Qed.
Lemma missing_empty q md x : ByteSource.size md = 0 -> missing q md x = false.
Proof. intros H. unfold missing. rewrite H. apply andb_false_iff. left. zbool. Qed.

Lemma complete_delete q : complete q -> complete (enqueueFilesToBeDeleted q).
Proof.
  intros (Hp & Hk & Hf & Hn & Ht & Hx).
  destruct (enqueueFilesToBeDeleted_spec q)
    as (mds & ss & Hfr & Hsh & Hq & Hb & Hy & Hs & _ & Hm).
  assert (keys (enqueueFilesToBeDeleted q) = keys q ++ (file_key <$> mds)) as Hks
    by (unfold keys; by rewrite Hsh, fmap_app).
  assert (Forall (fun s => size_ s = 0) ss) as Hz by (eapply Forall_impl; [exact Hs|]; by intros ? []).
  unfold complete, blocks_elsewhere, bytes_elsewhere in *. split_and!.
  - by apply (wf_previous_ext q).
  - rewrite Hks. apply Forall_app. split; [done|]. apply Forall_fmap.
    eapply Forall_impl; [exact Hm|]. intros md [E _]. simpl. lia.
  - rewrite Hq. apply Forall_app. split; [eapply Forall_impl; [exact Hs|]; by intros ? (? & ? & ?)|].
    rewrite Hks. eapply Forall_impl; [exact Hf|]. intros s. apply in_file_app.
  - lia.
  - lia.
  - intros i md x Hi. rewrite Hq, times_app, (times_empty i x ss) by done.
    rewrite Hsh in Hi. apply lookup_app_Some in Hi as [Hi|[Hlen Hi]].
    + by rewrite (Hx _ _ _ Hi), (missing_ext q (enqueueFilesToBeDeleted q) md md) by done.
    + apply (Forall_lookup_1 _ _ _ _ Hm) in Hi as [E _]. rewrite missing_empty by done.
      rewrite (times_fresh (keys q)); [done..|]. unfold keys. by rewrite length_fmap.
Qed.

Lemma addPreviousChunks_foldl q infos :
  wf_previous q -> Forall wf_info infos ->
  exists m n, foldl addPreviousChunks q infos
      = q <| previouslyTransferredChunks_ := m |> <| nextSeqId_ := n |>
    /\ map_Forall (fun _ => wf_info) m.
Proof.
  revert q. induction infos as [|info infos IH]; intros q Hwf Hf; simpl.
  { exists (previouslyTransferredChunks_ q), (nextSeqId_ q). by destruct q. }
  inversion_clear Hf as [|? ? Hi Hf'].
  destruct (IH (addPreviousChunks q info)) as (m & n & -> & Hm); [|done|].
  { unfold addPreviousChunks, wf_previous. destruct (_ !! _); [done|].
    simpl. by apply map_Forall_insert_2. }
  exists m, n. split; [|done]. unfold addPreviousChunks. by destruct (_ !! _).
Qed.

Lemma setPreviouslyReceivedChunks_complete infos q :
  numBlocksDequeued_ q = 0 -> wf_previous q -> wf_keys (keys q) -> Forall wf_info infos ->
  exists q', setPreviouslyReceivedChunks infos q = Some q' /\ complete q'
    /\ (exists mds, keys q' = keys q ++ mds)
    /\ failedSourceStats_ q' = failedSourceStats_ q /\ numBlocksDequeued_ q' = 0.
Proof.
  intros Hd Hp Hk Hi. unfold setPreviouslyReceivedChunks. rewrite Hd, Z.eqb_refl.
  edestruct (addPreviousChunks_foldl (q <| nextSeqId_ := 0 |> <| totalFileSize_ := 0 |>
    <| numEntries_ := 0 |> <| numBlocks_ := 0 |>) infos) as (m & n & -> & Hm); [done..|].
  match goal with |- context [clearSourceQueue ?q0] => set (q1 := clearSourceQueue q0) end.
  destruct (createAllIntoQueue_spec q1 (seq 0 (length (sharedFileData_ q1))))
    as (q2 & ss & -> & Hfr & Hks & Hb & Hy & Hq & Hf & Hx).
  { done. } { done. } { apply NoDup_seq. }
  { apply Forall_seq. unfold keys. rewrite length_fmap. lia. }
  eexists; split; [done|]. rewrite app_nil_r in Hq. simpl in Hq. subst ss.
  destruct (enqueueFilesToBeDeleted_spec q2) as (mds & _ & Hfr2 & Hsh & _). split_and!.
  - apply complete_delete. unfold complete, blocks_elsewhere, bytes_elsewhere in *.
    simpl in Hb, Hy. change (total_size []) with 0 in Hy. split_and!.
    + by apply (wf_previous_ext q1).
    + by rewrite Hks.
    + rewrite Hks. eapply Forall_impl; [exact Hf|]. by intros ? [].
    + lia.
    + lia.
    + intros i md x Hmd. apply keys_lookup in Hmd. rewrite Hks in Hmd.
      apply keys_lookup_inv in Hmd as (md1 & Hmd1 & Hkey).
      rewrite (Hx i md1 x Hmd1), (missing_ext q1 q2 md1 md) by done.
      rewrite bool_decide_eq_true_2; [done|]. apply elem_of_seq.
      apply lookup_lt_Some in Hmd1. simpl in *. lia.
  - exists (file_key <$> mds). unfold keys at 1. rewrite Hsh, fmap_app.
    change (file_key <$> sharedFileData_ q2) with (keys q2). by rewrite Hks.
  - rewrite Hfr in Hfr2. by injection Hfr2.
  - rewrite Hfr in Hfr2. injection Hfr2 as _ -> _. done.
Qed.

(** ** Discovery keeps the queue complete *)

Lemma complete_enqueued q q' k :
  complete q -> enqueued q q' k -> 0 <= k.2 -> complete q'.
Proof.
  intros (Hp & Hk & Hf & Hn & Ht & Hx) (Hfr & Hks & Hy & Hb & _ & ss & Hq & Hs & Hx') Hsz.
  assert (length (keys q) = length (sharedFileData_ q)) as Hlen by (unfold keys; by rewrite length_fmap).
  unfold complete, blocks_elsewhere, bytes_elsewhere in *. split_and!; [| | |lia|lia|].
  - by apply (wf_previous_ext q).
  - rewrite Hks. apply Forall_app. split; [done|]. by constructor.
  - rewrite Hq, Forall_app. split; [eapply Forall_impl; [exact Hs|]; by intros ? (? & ? & ?)|].
    rewrite Hks. eapply Forall_impl; [exact Hf|]. intros s. apply in_file_app.
  - intros i md x Hi. rewrite Hq, times_app. apply keys_lookup in Hi. rewrite Hks in Hi.
    rewrite (missing_ext q q' md md) by done.
    apply lookup_app_Some in Hi as [Hi|[Hge Hi]].
    + apply keys_lookup_inv in Hi as (md0 & Hi & Hkey).
      rewrite (Hx _ _ _ Hi), (missing_ext q q md md0) by done. apply lookup_lt_Some in Hi.
      rewrite (times_other i (length (sharedFileData_ q))); [lia|lia|].
      eapply Forall_impl; [exact Hs|]. by intros ? [].
    + apply list_lookup_singleton_Some in Hi as [Hi0 Hkey].
      assert (i = length (sharedFileData_ q)) as -> by lia.
      rewrite (Hx' md x) by done. rewrite (times_fresh (keys q)) by (done || lia). lia.
Qed.

(** [stat] does not report a negative size. *)
Definition sane_stat (env : Env) : Prop :=
  forall path k n, stat env path = Some (k, n) -> 0 <= n.

(** The files [enqueueFiles] went through, with the sizes it used; [n] of
    them, all when it succeeds. *)
Definition file_size (env : Env) (root : list Z) (info : WdtFileInfo) : Z :=
  if fi_fileSize info <? 0 then from_option snd 0 (stat env (root ++ fi_fileName info))
  else fi_fileSize info.

Lemma createIntoQueue_rootDir env path info q info' q' :
  createIntoQueue env path info q = Some (info', q') -> rootDir_ q' = rootDir_ q.
Proof.
  unfold createIntoQueue, createIntoQueueInternal, plan_file.
  intros H. repeat case_hyp H; simplify_eq/=; rewrite ?foldl_pq_push; done.
Qed.

Lemma enqueueFiles_complete env infos q :
  complete q -> sane_stat env ->
  exists res infos' q' n, enqueueFiles env infos q = Some (res, infos', q')
    /\ complete q' /\ length infos' = length infos /\ rootDir_ q' = rootDir_ q
    /\ keys q' = keys q ++ ((fun i => (fi_fileName i, file_size env (rootDir_ q) i)) <$> take n infos)
    /\ (res = true -> n = length infos).
Proof.
  intros Hc Hst. revert q Hc. induction infos as [|info infos IH]; intros q Hc; simpl.
  { exists true, [], q, 0%nat. by rewrite app_nil_r. }
  set (q0 := q <| abortChecks := S (abortChecks q) |>).
  destruct (shouldAbort env (abortChecks q)).
  { exists false, (info :: infos), q0, 0%nat. rewrite app_nil_r. split_and!; done. }
  assert (forall info', fi_fileName info' = fi_fileName info ->
      fi_fileSize info' = file_size env (rootDir_ q) info -> 0 <= fi_fileSize info' ->
      exists res infos' q' n,
        (let* (info, q) := createIntoQueue env (rootDir_ q0 ++ fi_fileName info) info' q0 in
         let* (res, rest, q) := enqueueFiles env infos q in Some (res, info :: rest, q))
        = Some (res, infos', q')
        /\ complete q' /\ length infos' = S (length infos) /\ rootDir_ q' = rootDir_ q
        /\ keys q' = keys q ++ ((fun i => (fi_fileName i, file_size env (rootDir_ q) i))
                                  <$> take n (info :: infos))
        /\ (res = true -> n = S (length infos))) as Hgo.
  { intros info' En Es Hsz.
    destruct (createIntoQueue_enqueued env (rootDir_ q0 ++ fi_fileName info) info' q0)
      as (i1 & q1 & E & Hen); [apply Hc|done|]. rewrite E.
    assert (complete q1) as Hc1 by (by apply (complete_enqueued q0 q1) in Hen).
    destruct Hen as (_ & Hk1 & _).
    apply createIntoQueue_rootDir in E. simpl in E.
    destruct (IH q1 Hc1) as (res & infos' & q2 & n & -> & Hc2 & Hl & Hr & Hk2 & Hn).
    exists res, (i1 :: infos'), q2, (S n). split_and!; [done|done|simpl; lia|congruence| |].
    - rewrite Hk2, Hk1, E, En, Es, <- app_assoc. done.
    - intros Hres. rewrite (Hn Hres). done. }
  unfold file_size in Hgo. destruct (fi_fileSize info <? 0) eqn:Eneg.
  - change (rootDir_ q0) with (rootDir_ q) in *.
    destruct (stat env (rootDir_ q ++ fi_fileName info)) as [[k n]|] eqn:Est.
    + apply Hgo; [done..|]. simpl. eauto.
    + eexists false, _, _, 0%nat. rewrite app_nil_r. split_and!; done.
  - bool_to_prop. by apply Hgo.
Qed.


Lemma setPreviouslyReceivedChunks_new infos q q' :
  setPreviouslyReceivedChunks infos q = Some q' ->
  Forall (fun s => untouched s /\ deletes_nothing q' s) (sourceQueue_ q').
Proof.
  unfold setPreviouslyReceivedChunks. intros H. repeat case_hyp H; simplify_eq.
  match goal with Hc : createAllIntoQueue _ ?q1 = Some ?q2 |- _ =>
    rename q2 into qc; destruct (createAllIntoQueue_new _ _ _ Hc) as (ss & Hq & Hf & _ & Hl) end.
  { apply Forall_seq. lia. }
  destruct (enqueueFilesToBeDeleted_new qc) as (mds & dd & Hq2 & Hsh & Hd).
  simpl in Hq. rewrite app_nil_r in Hq. rewrite Hq2, Hq. apply Forall_app. split.
  - eapply Forall_impl; [exact Hd|]. intros s [? ?]. split; [done|by intros _].
  - eapply Forall_impl; [exact Hf|]. intros s (? & Hn & Hin%elem_of_seq). split; [done|].
    intros Hdel. unfold to_delete in *. rewrite Hsh in Hdel.
    by rewrite lookup_total_app_l in Hdel by lia.
Qed.

(** ** Taking a source *)

(** The most urgent source is taken.  [getNextSource] takes a source out of
    the queue and leaves the others; none of those is more urgent: sources to be
    deleted come first, then those with fewer failed attempts, then the larger
    ones, then the smaller offsets, then the smaller names, and two sources that
    agree on all five are the only ties. *)
Theorem most_urgent_first q s st q' :
  getNextSource_check q = (TryOpen s st, q') ->
  s :: sourceQueue_ q' ≡ₚ sourceQueue_ q
  /\ Forall (fun t =>
       deletes q t < deletes q s \/ deletes q t = deletes q s /\
       (retries s < retries t \/ retries t = retries s /\
       (size_ t < size_ s \/ size_ t = size_ s /\
       (offset_ s < offset_ t \/ offset_ t = offset_ s /\
       (string_gt (relPath (meta q t)) (relPath (meta q s)) = true
        \/ relPath (meta q t) = relPath (meta q s)))))) (sourceQueue_ q').
Proof.
  unfold getNextSource_check. intros H. case_hyp H; [done|].
  destruct (pq_pop _) as [[s1 q1]|] eqn:E; [|done].
  destruct (pq_pop_spec _ _ _ E) as (E1 & Hp & Hf).
  assert (s1 = s /\ sourceQueue_ q' = sourceQueue_ q1) as [-> ->] by (by repeat case_hyp H; simplify_eq).
  simpl in Hp, Hf. split; [done|]. rewrite <- Hp, Forall_cons in Hf. destruct Hf as [_ Hf].
  eapply Forall_impl; [exact Hf|]. intros t Ht. change (SourceComparator q s t = false) in Ht.
  destruct (SourceComparator q t s) eqn:Ets.
  - apply SourceComparator_spec in Ets. intuition.
  - destruct (SourceComparator_equiv q _ _ Ht Ets) as (? & ? & ? & ? & ?). repeat (right; split; [done|]).
    by right.
Qed.

(** Two files, the second of which failed once. *)
Definition ex_queue : DirectorySourceQueue := Eval vm_compute in
  DirectorySourceQueue_default
    <| sharedFileData_ := [SourceMetaData_default <| relPath := [97] |> <| ByteSource.size := 5 |>;
                           SourceMetaData_default <| relPath := [98] |> <| ByteSource.size := 9 |>] |>
    <| sourceQueue_ := [FileByteSource_make 1 SourceMetaData_default 9 0
                          <| transferStats_ := incrFailedAttempts TransferStats_default |>;
                        FileByteSource_make 0 SourceMetaData_default 5 0] |>
    <| numWaiters_ := 1 |>.
Lemma most_urgent_first_witness :
  exists s st q', getNextSource_check ex_queue = (TryOpen s st, q') /\ size_ s = 5
    /\ s :: sourceQueue_ q' ≡ₚ sourceQueue_ ex_queue.
Proof.
  eexists _, _, _. split; [vm_compute; reflexivity|]. split; [reflexivity|].
  eapply (most_urgent_first ex_queue). vm_compute. reflexivity.
Defined.
