(* ===== verification/Explore.v ===== *)
(** The discovery of the files of a directory: [explore] and
    [buildQueueSynchronously] of [util/DirectorySourceQueue.cpp].

    The directory walk is breadth first, with a list of directories to open.
    The system calls are those of [Env], a snapshot of the file system.  The
    number of directories the walk opens is bounded by a fuel; the theorems show
    that it returns with enough of it, for a tree of files and, with symbolic
    links followed, for any finite file system, cyclic ones included. *)
From S2P Require Import Prelude ErrorCodes Protocol Chunks Reporting ByteSource SourceQueue.
From S2P Require Import SourceQueueProps.

(** ** The walk *)

Record Walk := mkWalk {
  todoList : list (list Z);
  visited : gset (list Z);
  walkError : bool;
  walkQueue : DirectorySourceQueue
}.
#[global] Instance Walk_settable : Settable Walk := fun w =>
  mkWalk (todoList w) (visited w) (walkError w) (walkQueue w).

(** A call of the abort checker. *)
Definition pollAbort (env : Env) (w : Walk) : bool * Walk :=
  let q := walkQueue w in
  (shouldAbort env (abortChecks q), w <| walkQueue := q <| abortChecks := S (abortChecks q) |> |>).

(** [.] and [..] *)
Definition is_dot (name : list Z) : bool := bool_decide (name = [46] \/ name = [46; 46]).

(** The type of an entry that is not a directory by its [d_type], its size and
    its path, with links followed when they are to be; [None] is an error that
    has been logged. *)
Definition entry_stat (env : Env) (followSymlinks : bool) (path : list Z)
    : option (FileKind * Z * list Z) :=
  match lstat env path with
  | None => None
  | Some (kind, size) =>
      if followSymlinks && bool_decide (kind = S_IFLNK) then
        match stat env path with
        | None => None
        | Some (kind, size) =>
            let path := resolvePath env path in
            if bool_decide (path = []) then None else Some (kind, size, path)
        end
      else Some (kind, size, path)
  end.

(** The end of an iteration, for a directory. *)
Definition explore_directory (env : Env) (newFullPath newRelativePath : list Z) (w : Walk) : Walk :=
  let q := walkQueue w in
  if followSymlinks_ q && bool_decide (newFullPath ∈ visited w) then w <| walkError := true |>
  else
    let w := if followSymlinks_ q then w <| visited := {[newFullPath]} ∪ visited w |> else w in
    let newRelativePath := newRelativePath ++ [slash] in
    if bool_decide (pruneDirPattern_ q = []) || negb (regex_match env (pruneDirPattern_ q) newRelativePath)
    then w <| todoList := todoList w ++ [newRelativePath] |> else w.

(** The two patterns for files. *)
Definition keepFile (env : Env) (q : DirectorySourceQueue) (path : list Z) : bool :=
  negb (negb (bool_decide (excludePattern_ q = [])) && regex_match env (excludePattern_ q) path)
  && negb (negb (bool_decide (includePattern_ q = [])) && negb (regex_match env (includePattern_ q) path)).

Definition explore_entry (env : Env) (relativePath : list Z) (entry : DType * list Z) (w : Walk)
    : option Walk :=
  let '(dType, d_name) := entry in
  let q := walkQueue w in
  let isDir := bool_decide (dType = DT_DIR) in
  let isLink := bool_decide (dType = DT_LNK) in
  let keepEntry := (isDir || bool_decide (dType = DT_REG) || bool_decide (dType = DT_UNKNOWN))
                   || (followSymlinks_ q && isLink) in
  if is_dot d_name || negb keepEntry then Some w
  else
    let newRelativePath := relativePath ++ d_name in
    let newFullPath := rootDir_ q ++ newRelativePath in
    if isDir then Some (explore_directory env newFullPath newRelativePath w)
    else
      match entry_stat env (followSymlinks_ q) newFullPath with
      | None => Some (w <| walkError := true |>)
      | Some (S_IFREG, size, newFullPath) =>
          if keepFile env q newRelativePath then
            let* (_, q) := createIntoQueue env newFullPath
                             (WdtFileInfo_make newRelativePath size (directReads_ q)) q in
            Some (w <| walkQueue := q |>)
          else Some w
      | Some (S_IFDIR, _, newFullPath) =>
          Some (explore_directory env newFullPath newRelativePath w)
      | Some _ => Some w
      end.

(** The loop over the entries; [readError] is [errno] of the last [readdir]. *)
Fixpoint explore_entries (env : Env) (relativePath : list Z) (entries : list (DType * list Z))
    (readError : bool) (w : Walk) : option Walk :=
  let '(abort, w) := pollAbort env w in
  if abort then Some w
  else
    match entries with
    | [] => Some (if readError then w <| walkError := true |> else w)
    | e :: entries =>
        let* w := explore_entry env relativePath e w in
        explore_entries env relativePath entries readError w
    end.

Fixpoint explore_loop (fuel : nat) (env : Env) (w : Walk) : option Walk :=
  match todoList w with
  | [] => Some w
  | relativePath :: todo =>
      match fuel with
      | O => None
      | S fuel =>
          let '(abort, w) := pollAbort env w in
          if abort then Some (w <| walkError := true |>)
          else
            let w := w <| todoList := todo |> in
            let q := walkQueue w in
            let fullPath := rootDir_ q ++ relativePath in
            match opendir env fullPath with
            | None =>
                explore_loop fuel env
                  (w <| walkQueue := q <| failedDirectories_ := failedDirectories_ q ++ [fullPath] |> |>
                     <| walkError := true |>)
            | Some (entries, readError) =>
                let* w := explore_entries env relativePath entries readError w in
                explore_loop fuel env w
            end
      end
  end.

Definition explore (fuel : nat) (env : Env) (q : DirectorySourceQueue)
    : option (bool * DirectorySourceQueue) :=
  check negb (bool_decide (rootDir_ q = [])) ;;
  let* w := explore_loop fuel env (mkWalk [[]] ∅ false q) in
  Some (negb (walkError w), walkQueue w).

(** [buildQueueSynchronously], when nothing else runs in between. *)
Definition buildQueueSynchronously (fuel : nat) (env : Env) (q : DirectorySourceQueue)
    : option (bool * DirectorySourceQueue) :=
  if initCalled_ q then Some (false, q)
  else
    let q := q <| initCalled_ := true |> in
    let* (res, q) := if exploreDirectory_ q then explore fuel env q else enqueueFileInfo env q in
    Some (res, finishInit q).

(** ** Trees of files

    A directory on disk, as a tree: regular files with their sizes,
    directories, and everything else (links that are not followed, devices,
    sockets).  [discovered] is the reference definition of what the walk has to
    find, by recursion on the tree. *)
Inductive Node :=
  | NFile (size : Z)
  | NDir (entries : list (list Z * Node))
  | NOther.

Section discovered.
Context (keep prune : list Z -> bool).
Fixpoint discovered (path : list Z) (n : Node) : list (list Z * Z) :=
  match n with
  | NFile size => if keep path then [(path, size)] else []
  | NDir entries =>
      if prune (path ++ [slash]) then []
      else concat (map (fun e => discovered (path ++ [slash] ++ e.1) e.2) entries)
  | NOther => []
  end.
Definition discovered_in (prefix : list Z) (entries : list (list Z * Node)) : list (list Z * Z) :=
  concat ((fun e => discovered (prefix ++ e.1) e.2) <$> entries).
End discovered.

(** The number of directories. *)
Fixpoint num_dirs (n : Node) : nat :=
  match n with
  | NDir entries => S (sum_list (map (fun e => num_dirs e.2) entries))
  | _ => O
  end.
Definition dirs_in (entries : list (list Z * Node)) : nat :=
  S (sum_list ((fun e => num_dirs e.2) <$> entries)).

(** [dir_at env root rel entries]: the system calls see the tree [entries] at
    [root/rel].  A file system that does not give the type of an entry
    ([DT_UNKNOWN]) is seen through [lstat]. *)
Inductive dir_at (env : Env) (root : list Z) : list Z -> list (list Z * Node) -> Prop :=
  | dir_at_intro rel entries listing :
      opendir env (root ++ rel) = Some (listing, false) ->
      Forall2 (entry_at env root rel) (List.filter (fun e => negb (is_dot e.2)) listing) entries ->
      dir_at env root rel entries
with entry_at (env : Env) (root : list Z) : list Z -> DType * list Z -> list Z * Node -> Prop :=
  | at_file rel t name size :
      t = DT_REG \/ t = DT_UNKNOWN ->
      lstat env (root ++ rel ++ name) = Some (S_IFREG, size) -> 0 <= size ->
      entry_at env root rel (t, name) (name, NFile size)
  | at_dir rel t name entries size :
      t = DT_DIR \/ (t = DT_UNKNOWN /\ lstat env (root ++ rel ++ name) = Some (S_IFDIR, size)) ->
      dir_at env root (rel ++ name ++ [slash]) entries ->
      entry_at env root rel (t, name) (name, NDir entries)
  | at_other rel t name kind size :
      t = DT_LNK \/ t = DT_OTHER
      \/ (t = DT_UNKNOWN /\ lstat env (root ++ rel ++ name) = Some (kind, size)
          /\ kind <> S_IFREG /\ kind <> S_IFDIR) ->
      entry_at env root rel (t, name) (name, NOther).

(** What discovery does not change. *)
Definition config (q : DirectorySourceQueue) :=
  (rootDir_ q, pruneDirPattern_ q, includePattern_ q, excludePattern_ q, followSymlinks_ q,
   deleteFiles_ q, previouslyTransferredChunks_ q).
Definition pruned (env : Env) (q : DirectorySourceQueue) (path : list Z) : bool :=
  negb (bool_decide (pruneDirPattern_ q = []) || negb (regex_match env (pruneDirPattern_ q) path)).

Lemma createIntoQueue_config env path info q info' q' :
  createIntoQueue env path info q = Some (info', q') -> config q' = config q.
Proof.
  unfold createIntoQueue, createIntoQueueInternal, plan_file.
  intros H. repeat case_hyp H; simplify_eq/=; rewrite ?foldl_pq_push; done.
Qed.
Lemma config_keepFile env q q' : config q' = config q -> keepFile env q' = keepFile env q.
Proof. intros [= _ _ Hi He _ _ _]. unfold keepFile. by rewrite Hi, He. Qed.
Lemma config_pruned env q q' : config q' = config q -> pruned env q' = pruned env q.
Proof. intros [= _ Hp _ _ _ _ _]. unfold pruned. by rewrite Hp. Qed.

(** A walk that went on: [dirs] are the directories put on the list and
    [files] the files put into the queue. *)
Definition advanced (w w' : Walk) (dirs : list (list Z)) (files : list (list Z * Z)) : Prop :=
  todoList w' = todoList w ++ dirs /\ visited w' = visited w /\ walkError w' = walkError w
  /\ config (walkQueue w') = config (walkQueue w)
  /\ complete (walkQueue w') /\ keys (walkQueue w') = keys (walkQueue w) ++ files.

Lemma advanced_trans w1 w2 w3 d1 d2 f1 f2 :
  advanced w1 w2 d1 f1 -> advanced w2 w3 d2 f2 -> advanced w1 w3 (d1 ++ d2) (f1 ++ f2).
Proof.
  intros (T1 & V1 & E1 & C1 & _ & K1) (T2 & V2 & E2 & C2 & Q2 & K2).
  unfold advanced. rewrite T2, T1, K2, K1, !app_assoc. split_and!; congruence.
Qed.

(** The directories an entry adds to the list. *)
Definition subdirs (prune : list Z -> bool) (rel : list Z) (e : list Z * Node)
    : list (list Z * list (list Z * Node)) :=
  match e.2 with
  | NDir entries => if prune (rel ++ e.1 ++ [slash]) then [] else [(rel ++ e.1 ++ [slash], entries)]
  | _ => []
  end.
(** The files an entry puts into the queue at once. *)
Definition subfiles (keep : list Z -> bool) (rel : list Z) (e : list Z * Node) : list (list Z * Z) :=
  match e.2 with NFile size => if keep (rel ++ e.1) then [(rel ++ e.1, size)] else [] | _ => [] end.

Section tree.
Context (env : Env) (no_abort : forall n, shouldAbort env n = false).
Context (q0 : DirectorySourceQueue) (no_follow : followSymlinks_ q0 = false).
#[local] Abbreviation keep := (keepFile env q0).
#[local] Abbreviation prune := (pruned env q0).
#[local] Abbreviation root := (rootDir_ q0).

(** A walk over the tree of [q0]. *)
Definition walking (w : Walk) : Prop := config (walkQueue w) = config q0 /\ complete (walkQueue w).

Lemma advanced_walking w w' d f : advanced w w' d f -> walking w -> walking w'.
Proof. intros (_ & _ & _ & ? & ? & _) []. split; congruence || done. Qed.
Lemma advanced_refl w : walking w -> advanced w w [] [].
Proof. intros []. unfold advanced. by rewrite !app_nil_r. Qed.

Lemma pollAbort_advanced w : walking w -> exists w', pollAbort env w = (false, w') /\ advanced w w' [] [].
Proof.
  intros [Hc Hq]. unfold pollAbort. rewrite no_abort. eexists. split; [done|].
  unfold advanced. simpl. by rewrite !app_nil_r.
Qed.

Lemma explore_directory_advanced w full rel (entries : list (list Z * Node)) :
  walking w ->
  advanced w (explore_directory env full rel w)
    (if prune (rel ++ [slash]) then [] else [rel ++ [slash]]) []
  /\ (if prune (rel ++ [slash]) then [] else [rel ++ [slash]])
     = (if prune (rel ++ [slash]) then [] else [(rel ++ [slash], entries)]).*1.
Proof.
  intros [Hc Hq]. split; [|by destruct (prune _)]. unfold explore_directory.
  injection Hc as _ Hp _ _ Hf _ _. rewrite Hf, no_follow. simpl. unfold pruned. rewrite Hp.
  destruct (_ || _); unfold advanced; simpl; rewrite !app_nil_r; done.
Qed.

Lemma explore_entry_tree rel e f w :
  entry_at env root rel e f -> is_dot e.2 = false -> walking w ->
  exists w', explore_entry env rel e w = Some w'
    /\ advanced w w' (subdirs prune rel f).*1 (subfiles keep rel f).
Proof.
  intros He Hdot Hw. pose proof Hw as [Hc Hq]. pose proof Hc as [= Hr _ _ _ Hf _ _]. unfold explore_entry.
  inversion He as [? t name size Ht Hst Hsz|? t name entries size Ht Hd|? t name kind size Ht]; subst;
    simpl in Hdot; rewrite Hdot, Hf, no_follow; simpl.
  - assert (exists w', (if keepFile env (walkQueue w) (rel ++ name) then
        let* (_, q) := createIntoQueue env (root ++ rel ++ name)
          (WdtFileInfo_make (rel ++ name) size (directReads_ (walkQueue w))) (walkQueue w) in
        Some (w <| walkQueue := q |>) else Some w) = Some w'
      /\ advanced w w' [] (subfiles keep rel (name, NFile size))) as Hgo.
    { rewrite (config_keepFile _ _ _ Hc). unfold subfiles. simpl.
      destruct (keep (rel ++ name)); [|eexists; split; [done|by apply advanced_refl]].
      destruct (createIntoQueue_enqueued env (root ++ rel ++ name)
        (WdtFileInfo_make (rel ++ name) size (directReads_ (walkQueue w))) (walkQueue w))
        as (i & q' & E & Hen); [apply Hq|done|].
      rewrite E. eexists. split; [done|]. unfold advanced. simpl. rewrite app_nil_r.
      split_and!; try done; [by apply createIntoQueue_config in E|by eapply complete_enqueued|apply Hen]. }
    destruct Ht as [-> | ->]; simpl; unfold entry_stat; rewrite Hr, Hst; exact Hgo.
  - unfold subdirs, subfiles. simpl.
    destruct (explore_directory_advanced w (root ++ rel ++ name) (rel ++ name) entries Hw) as [Ha Hl].
    rewrite <- app_assoc in Ha, Hl. rewrite Hl in Ha.
    destruct Ht as [->|[-> Hst]]; simpl; rewrite ?Hr; [by eexists|].
    unfold entry_stat. rewrite Hst. simpl. by eexists.
  - destruct Ht as [->|[->|(-> & Hst & Hk1 & Hk2)]]; simpl; try (eexists; split; [done|by apply advanced_refl]).
    unfold entry_stat. rewrite Hr, Hst. simpl.
    destruct kind; try done; eexists; (split; [done|by apply advanced_refl]).
Qed.

Lemma explore_entries_tree rel listing fs w :
  Forall2 (entry_at env root rel) (List.filter (fun e => negb (is_dot e.2)) listing) fs -> walking w ->
  exists w', explore_entries env rel listing false w = Some w'
    /\ advanced w w' (concat (subdirs prune rel <$> fs)).*1 (concat (subfiles keep rel <$> fs)).
Proof.
  revert fs w. induction listing as [|e listing IH]; intros fs w Hfs Hw; cbn [explore_entries];
    destruct (pollAbort_advanced w Hw) as (w1 & -> & H1);
    pose proof (advanced_walking _ _ _ _ H1 Hw) as Hw1.
  - inversion Hfs; subst. by exists w1.
  - simpl in Hfs. destruct (is_dot e.2) eqn:Edot; simpl in Hfs.
    + destruct (IH fs w1 Hfs Hw1) as (w' & E & H2). exists w'. split; [|by apply (advanced_trans _ _ _ _ _ _ _ H1 H2)].
      destruct e as [t name]. unfold explore_entry. simpl in Edot. by rewrite Edot.
    + inversion Hfs as [|? f ? fs' He Hfs']; subst.
      destruct (explore_entry_tree rel e f w1 He Edot Hw1) as (w2 & -> & H2).
      destruct (IH fs' w2 Hfs') as (w' & E & H3); [by eapply advanced_walking|].
      exists w'. split; [done|]. rewrite !fmap_cons. simpl. rewrite fmap_app.
      apply (advanced_trans _ _ _ _ _ _ _ H1 (advanced_trans _ _ _ _ _ _ _ H2 H3)).
Qed.

Definition discovered_todo (todo : list (list Z * list (list Z * Node))) : list (list Z * Z) :=
  concat ((fun d => discovered_in keep prune d.1 d.2) <$> todo).
Definition dirs_todo (todo : list (list Z * list (list Z * Node))) : nat :=
  sum_list ((fun d => dirs_in d.2) <$> todo).

Lemma discovered_todo_app l k : discovered_todo (l ++ k) = discovered_todo l ++ discovered_todo k.
Proof. unfold discovered_todo. by rewrite fmap_app, concat_app. Qed.
Lemma dirs_todo_app l k : dirs_todo (l ++ k) = (dirs_todo l + dirs_todo k)%nat.
Proof. unfold dirs_todo. by rewrite fmap_app, sum_list_with_app || (rewrite fmap_app; induction l; simpl; lia). Qed.

(** Opening a directory replaces it by its subdirectories. *)
Lemma discovered_split rel fs :
  discovered_in keep prune rel fs
  ≡ₚ concat (subfiles keep rel <$> fs) ++ discovered_todo (concat (subdirs prune rel <$> fs)).
Proof.
  induction fs as [|[name n] fs IH]; [done|]. unfold discovered_in in *.
  rewrite !fmap_cons. simpl. rewrite discovered_todo_app, IH.
  destruct n as [size|entries|]; simpl.
  - by rewrite app_assoc.
  - rewrite <- app_assoc. unfold subdirs at 2. simpl.
    destruct (prune (rel ++ name ++ [slash])); simpl; [done|].
    unfold discovered_todo at 2. simpl. rewrite app_nil_r. unfold discovered_in.
    rewrite (app_assoc _ (concat (subfiles _ _ <$> _))). rewrite (Permutation_app_comm _ (concat (subfiles _ _ <$> _))).
    rewrite <- app_assoc. f_equiv. f_equiv.
    apply reflexive_eq. f_equal. apply list_fmap_ext. intros _ e _. by rewrite <- !app_assoc.
  - done.
Qed.
Lemma dirs_split rel fs : (dirs_todo (concat (subdirs prune rel <$> fs)) < dirs_in fs)%nat.
Proof.
  unfold dirs_in. apply Nat.lt_succ_r. induction fs as [|[name n] fs IH]; [done|].
  rewrite !fmap_cons. simpl. rewrite dirs_todo_app.
  assert (dirs_todo (subdirs prune rel (name, n)) <= num_dirs n)%nat; [|lia].
  unfold subdirs, dirs_todo. simpl. destruct n as [|entries|]; simpl; [lia| |lia].
  destruct (prune _); simpl; [lia|]. unfold dirs_in. simpl.
  change (map (fun e => num_dirs e.2) entries) with ((fun e : list Z * Node => num_dirs e.2) <$> entries). lia.
Qed.

Lemma explore_loop_tree fuel todo w :
  (dirs_todo todo <= fuel)%nat -> Forall (fun d => dir_at env root d.1 d.2) todo ->
  todoList w = todo.*1 -> walking w -> walkError w = false ->
  exists w', explore_loop fuel env w = Some w' /\ walking w' /\ walkError w' = false
    /\ exists files, keys (walkQueue w') = keys (walkQueue w) ++ files
       /\ files ≡ₚ discovered_todo todo.
Proof.
  revert todo w. induction fuel as [|fuel IH]; intros todo w Hfuel Htodo El Hw Herr.
  all: destruct todo as [|[rel fs] todo]; cbn [explore_loop]; rewrite El, ?fmap_cons; simpl fst.
  1,3: exists w; split_and!; try done; exists []; by rewrite app_nil_r.
  { unfold dirs_todo, dirs_in in Hfuel. simpl in Hfuel. lia. }
  inversion Htodo as [|? ? Hd Htodo']; subst. simpl in Hd.
  destruct (pollAbort_advanced w Hw) as (w1 & -> & H1).
  pose proof (advanced_walking _ _ _ _ H1 Hw) as [Hc1 Hq1].
  set (w2 := w1 <| todoList := todo.*1 |>).
  pose proof Hc1 as [= Hr _ _ _ _ _ _]. change (rootDir_ (walkQueue w2)) with (rootDir_ (walkQueue w1)). rewrite Hr.
  destruct Hd as [rel fs listing Hopen Hfs]. rewrite Hopen.
  destruct (explore_entries_tree rel listing fs w2 Hfs) as (w3 & -> & H3); [done|].
  destruct (IH (todo ++ concat (subdirs prune rel <$> fs)) w3) as (w4 & -> & Hw4 & He4 & files & Hk & Hp).
  - rewrite dirs_todo_app. change (dirs_in fs + dirs_todo todo <= S fuel)%nat in Hfuel.
    pose proof (dirs_split rel fs). lia.
  - apply Forall_app. split; [done|]. clear -Hfs.
    induction Hfs as [|e f es fs He _ IHf]; [constructor|]. rewrite fmap_cons. simpl.
    apply Forall_app. split; [|done]. unfold subdirs.
    destruct He; simpl; try constructor. destruct (prune _); repeat constructor. by simpl.
  - destruct H3 as (-> & _). by rewrite fmap_app.
  - by eapply advanced_walking.
  - destruct H1 as (_ & _ & E1 & _), H3 as (_ & _ & -> & _). simpl. congruence.
  - exists w4. split_and!; try done. exists (concat (subfiles keep rel <$> fs) ++ files). split.
    + destruct H1 as (_ & _ & _ & _ & _ & K1), H3 as (_ & _ & _ & _ & _ & K3).
      rewrite Hk, K3. simpl. rewrite K1. by rewrite app_nil_r, app_assoc.
    + rewrite Hp, discovered_todo_app. change ((rel, fs) :: todo) with ([(rel, fs)] ++ todo).
      rewrite discovered_todo_app. unfold discovered_todo at 3. simpl. rewrite app_nil_r.
      rewrite discovered_split. by rewrite (Permutation_app_comm (discovered_todo todo)), app_assoc.
Qed.

Lemma explore_tree fuel q entries :
  config q = config q0 -> complete q -> root <> [] ->
  dir_at env root [] entries -> (dirs_in entries <= fuel)%nat ->
  exists q', explore fuel env q = Some (true, q') /\ complete q' /\ config q' = config q
    /\ exists files, keys q' = keys q ++ files /\ files ≡ₚ discovered_in keep prune [] entries.
Proof.
  intros Hc Hq Hr Hd Hfuel. pose proof Hc as [= Hroot _ _ _ _ _ _]. unfold explore.
  rewrite bool_decide_eq_false_2 by congruence. simpl.
  destruct (explore_loop_tree fuel [([], entries)] (mkWalk [[]] ∅ false q))
    as (w & -> & [Hc' Hq'] & He & files & Hk & Hp); try done.
  - change (dirs_in entries + 0 <= fuel)%nat. lia.
  - by repeat constructor.
  - rewrite He. eexists. split_and!; [done..|congruence|]. exists files. split; [done|].
    rewrite Hp. unfold discovered_todo. simpl. by rewrite app_nil_r.
Qed.
End tree.

(** ** Finite file systems

    With links followed the paths the walk can reach may be infinitely many (a
    link to a directory above it); the set of the real paths seen keeps the walk
    finite.  [dirs] are the real paths of the directories that links point to.
    [height] is the height of the tree of real directories below a path, and no
    directory has more than [B] entries.  [lstat] and [stat] report no negative
    size. *)
Record finite_fs (env : Env) (root : list Z) (dirs : list (list Z)) (height : list Z -> nat) (B : nat)
    : Prop := mkFinite {
  fin_entries : forall path listing err, opendir env path = Some (listing, err) ->
    (length listing <= B)%nat;
  fin_subdir : forall rel listing err t name, opendir env (root ++ rel) = Some (listing, err) ->
    (t, name) ∈ listing -> is_dot name = false ->
    t = DT_DIR \/ (exists size, lstat env (root ++ rel ++ name) = Some (S_IFDIR, size)) ->
    (height (rel ++ name ++ [slash]) < height rel)%nat;
  fin_link : forall rel listing err t name size, opendir env (root ++ rel) = Some (listing, err) ->
    (t, name) ∈ listing -> lstat env (root ++ rel ++ name) = Some (S_IFLNK, size) ->
    resolvePath env (root ++ rel ++ name) ∈ dirs \/ resolvePath env (root ++ rel ++ name) = []
    \/ forall size, stat env (root ++ rel ++ name) <> Some (S_IFDIR, size);
  fin_sizes : forall path k n, lstat env path = Some (k, n) \/ stat env path = Some (k, n) -> 0 <= n
}.

Lemma explore_loop_mono fuel fuel' env w w' :
  (fuel <= fuel')%nat -> explore_loop fuel env w = Some w' -> explore_loop fuel' env w = Some w'.
Proof.
  revert fuel' w. induction fuel as [|fuel IH]; intros fuel' w Hle H; destruct fuel' as [|fuel']; try lia;
    cbn [explore_loop] in *; destruct (todoList w) as [|rel todo]; try done.
  destruct (pollAbort env w) as [[] w1]; [done|]. destruct (opendir _ _) as [[listing err]|].
  - destruct (explore_entries _ _ _ _ _) as [w2|]; [|done]. apply IH; [lia|done].
  - apply IH; [lia|done].
Qed.

Section finite.
Context (env : Env) (q0 : DirectorySourceQueue) (dirs : list (list Z)).
Context (height : list Z -> nat) (B : nat) (fin : finite_fs env (rootDir_ q0) dirs height B).
#[local] Abbreviation root := (rootDir_ q0).

Definition unvisited (w : Walk) : nat := length (filter (fun d => d ∉ visited w) dirs).
Definition ready (w : Walk) : Prop :=
  config (walkQueue w) = config q0 /\ wf_previous (walkQueue w).

(** From [w] to [w'] at most [n] directories were put on the list, below [rel]
    or at the price of a real path. *)
Definition grew (rel : list Z) (n : nat) (w w' : Walk) : Prop :=
  ready w' /\ (unvisited w' <= unvisited w)%nat
  /\ exists ds, todoList w' = todoList w ++ ds /\ (length ds <= n)%nat
     /\ (Forall (fun d => (height d < height rel)%nat) ds \/ (unvisited w' < unvisited w)%nat).

Lemma grew_none rel w w' :
  ready w' -> todoList w' = todoList w -> visited w' = visited w -> grew rel 0 w w'.
Proof.
  intros Hr Ht Hv. unfold grew, unvisited. rewrite Ht, Hv. split_and!; [done|lia|].
  exists []. rewrite app_nil_r. split_and!; [done..|by left].
Qed.
Lemma grew_trans rel n1 n2 w1 w2 w3 :
  grew rel n1 w1 w2 -> grew rel n2 w2 w3 -> grew rel (n1 + n2) w1 w3.
Proof.
  intros (_ & U1 & d1 & T1 & L1 & H1) (R2 & U2 & d2 & T2 & L2 & H2). unfold grew.
  split_and!; [done|lia|]. exists (d1 ++ d2). rewrite T2, T1, app_assoc, length_app, Forall_app.
  split_and!; [done|lia|]. destruct H1 as [H1|H1], H2 as [H2|H2]; (by left) || (right; lia).
Qed.
Lemma grew_weaken rel n n' w w' : (n <= n')%nat -> grew rel n w w' -> grew rel n' w w'.
Proof. intros Hn (R & U & ds & T & L & H). split_and!; [done..|]. exists ds. split_and!; [done|lia|done]. Qed.

Lemma pollAbort_grew rel w : ready w -> exists b w', pollAbort env w = (b, w') /\ grew rel 0 w w'.
Proof. intros [? ?]. eexists _, _. split; [done|]. by apply grew_none. Qed.

Lemma unvisited_insert w d :
  let w' := w <| visited := {[d]} ∪ visited w |> in
  (unvisited w' <= unvisited w)%nat /\ (d ∈ dirs -> d ∉ visited w -> (unvisited w' < unvisited w)%nat).
Proof.
  clear fin. intros w'. unfold unvisited. change (visited w') with ({[d]} ∪ visited w). clear w'.
  induction dirs as [|e ds [IH1 IH2]].
  { split; [done|]. by intros ?%not_elem_of_nil. }
  destruct (decide (e ∉ {[d]} ∪ visited w)) as [He|He].
  - rewrite !filter_cons_True by set_solver. simpl. split; [lia|].
    intros [->|Hd]%elem_of_cons Hv; [set_solver|]. specialize (IH2 Hd Hv). lia.
  - rewrite (filter_cons_False _ e) by done. destruct (decide (e ∉ visited w)) as [Hv|Hv].
    + rewrite filter_cons_True by done. simpl. split; [lia|]. intros. lia.
    + rewrite filter_cons_False by done. split; [done|].
      intros [->|Hd]%elem_of_cons ?; [done|]. by apply IH2.
Qed.

Lemma explore_directory_grew rel full name w :
  ready w ->
  (height (rel ++ name ++ [slash]) < height rel)%nat
  \/ (followSymlinks_ (walkQueue w) = true /\ full ∈ dirs) ->
  grew rel 1 w (explore_directory env full (rel ++ name) w).
Proof.
  intros Hr Hd. unfold explore_directory. rewrite <- app_assoc.
  destruct (followSymlinks_ (walkQueue w)) eqn:Ef; simpl.
  - case_bool_decide as Hv; [eapply (grew_weaken _ 0); [lia|by apply grew_none]|].
    destruct (unvisited_insert w full) as [U1 U2]. set (w1 := w <| visited := _ |>) in *.
    case_goal.
    + unfold grew. split_and!; [done|exact U1|]. eexists. split_and!; [done|done|].
      destruct Hd as [Hd|[_ Hd]]; [left; by repeat constructor|right; by apply U2].
    + unfold grew. split_and!; [done|exact U1|]. exists []. rewrite app_nil_r. split_and!; [done|simpl; lia|by left].
  - destruct Hd as [Hd|[? _]]; [|done]. case_goal.
    + unfold grew. split_and!; [done|done|]. eexists. split_and!; [done|done|]. left. by repeat constructor.
    + eapply (grew_weaken _ 0); [lia|by apply grew_none].
Qed.

Lemma enqueue_grew rel path name size w :
  ready w -> 0 <= size ->
  exists w', (let* (_, q) := createIntoQueue env path
                (WdtFileInfo_make name size (directReads_ (walkQueue w))) (walkQueue w) in
              Some (w <| walkQueue := q |>)) = Some w' /\ grew rel 0 w w'.
Proof.
  intros [Hc Hp] Hsz.
  destruct (createIntoQueue_enqueued env path
    (WdtFileInfo_make name size (directReads_ (walkQueue w))) (walkQueue w)) as (i & q' & E & Hen); [done..|].
  rewrite E. eexists. split; [done|]. apply grew_none; [|done..]. split; simpl.
  - apply createIntoQueue_config in E. congruence.
  - eapply wf_previous_ext; [|exact Hp]. apply Hen.
Qed.

Lemma explore_entry_grew rel listing err e w :
  opendir env (root ++ rel) = Some (listing, err) -> e ∈ listing -> ready w ->
  exists w', explore_entry env rel e w = Some w' /\ grew rel 1 w w'.
Proof.
  intros Hopen Hin Hr. destruct e as [t name]. unfold explore_entry.
  assert (exists w', Some w = Some w' /\ grew rel 1 w w') as Hskip.
  { exists w. split; [done|]. eapply (grew_weaken _ 0); [lia|by apply grew_none]. }
  pose proof Hr as [[= Hroot _ _ _ _ _ _] _]. rewrite Hroot.
  destruct (is_dot name) eqn:Edot; [done|]. simpl. case_goal; [done|].
  case_bool_decide as Et.
  { eexists. split; [done|]. apply explore_directory_grew; [done|]. left.
    eapply fin_subdir; eauto. }
  unfold entry_stat. destruct (lstat env (root ++ rel ++ name)) as [[kind size]|] eqn:Els;
    [|eexists; split; [done|]; by eapply (grew_weaken _ 0); [lia|apply grew_none]].
  assert (0 <= size) as Hsz by (eapply fin_sizes; eauto).
  assert (forall full, (kind = S_IFDIR \/ full ∈ dirs /\ followSymlinks_ (walkQueue w) = true) ->
    exists w', Some (explore_directory env full (rel ++ name) w) = Some w' /\ grew rel 1 w w') as Hdir.
  { intros full Hd. eexists. split; [done|]. apply explore_directory_grew; [done|].
    destruct Hd as [->|[? ?]]; [left; eapply fin_subdir; eauto|by right]. }
  assert (forall full sz, 0 <= sz -> exists w', (if keepFile env (walkQueue w) (rel ++ name) then
      let* (_, q) := createIntoQueue env full (WdtFileInfo_make (rel ++ name) sz
        (directReads_ (walkQueue w))) (walkQueue w) in Some (w <| walkQueue := q |>) else Some w)
      = Some w' /\ grew rel 1 w w') as Hfile.
  { intros full sz Hz. destruct (keepFile _ _ _); [|done].
    destruct (enqueue_grew rel full (rel ++ name) sz w Hr Hz) as (w' & ? & ?). exists w'. split; [done|].
    by eapply (grew_weaken _ 0); [lia|]. }
  destruct (followSymlinks_ (walkQueue w)) eqn:Ef; simpl; [|destruct kind; auto].
  destruct (decide (kind = S_IFLNK)) as [->|Ek];
    [rewrite bool_decide_eq_true_2 by done|rewrite bool_decide_eq_false_2 by done; destruct kind; auto].
  destruct (stat env (root ++ rel ++ name)) as [[kind' size']|] eqn:Est;
    [|eexists; split; [done|]; by eapply (grew_weaken _ 0); [lia|apply grew_none]].
  destruct (bool_decide (resolvePath _ _ = [])) eqn:Er;
    [eexists; split; [done|]; by eapply (grew_weaken _ 0); [lia|apply grew_none]|].
  apply bool_decide_eq_false in Er.
  assert (0 <= size') as Hsz' by (eapply fin_sizes; eauto).
  destruct (fin_link _ _ _ _ _ fin _ _ _ _ _ _ Hopen Hin Els) as [Hd|[Hd|Hd]]; [|done|];
    destruct kind'; auto. by exfalso; eapply Hd.
Qed.

Lemma explore_entries_grew rel listing err todo w :
  opendir env (root ++ rel) = Some (listing, err) -> todo ⊆ listing -> ready w ->
  exists w', explore_entries env rel todo err w = Some w' /\ grew rel (length todo) w w'.
Proof.
  intros Hopen. revert w. induction todo as [|e todo IH]; intros w Hsub Hr; cbn [explore_entries];
    destruct (pollAbort_grew rel w Hr) as (b & w1 & -> & H1); pose proof H1 as [Hr1 _].
  - destruct b; [by eexists|]. eexists. split; [done|]. simpl.
    destruct err; [|done]. eapply (grew_trans _ 0 0); [exact H1|by apply grew_none].
  - destruct b; [eexists; split; [done|]; by eapply (grew_weaken _ 0); [lia|]|].
    destruct (explore_entry_grew rel listing err e w1) as (w2 & -> & H2); [done|set_solver|done|].
    destruct (IH w2) as (w3 & -> & H3); [set_solver|apply H2|]. exists w3. split; [done|].
    exact (grew_trans _ 0 _ _ _ _ H1 (grew_trans _ 1 _ _ _ _ H2 H3)).
Qed.

(** The measure: each directory on the list weighs more than all the entries it
    can have. *)
Definition weight (todo : list (list Z)) : nat := sum_list ((fun d => (S B) ^ height d)%nat <$> todo).
Lemma weight_app l k : weight (l ++ k) = (weight l + weight k)%nat.
Proof.
  unfold weight. rewrite fmap_app. generalize (((fun d => (S B) ^ height d)%nat) <$> l) as a.
  induction a; simpl; lia.
Qed.
Lemma weight_below rel ds :
  (length ds <= B)%nat -> Forall (fun d => (height d < height rel)%nat) ds ->
  (weight ds < (S B) ^ height rel)%nat.
Proof.
  intros Hl Hf. assert (weight ds <= length ds * (S B) ^ (height rel - 1))%nat as Hle.
  { clear Hl. induction Hf as [|d ds Hd _ IH]; [done|].
    change (weight (d :: ds)) with ((S B) ^ height d + weight ds)%nat. rewrite length_cons.
    assert ((S B) ^ height d <= (S B) ^ (height rel - 1))%nat by (apply Nat.pow_le_mono_r; lia). nia. }
  destruct ds as [|d ds]; [assert ((S B) ^ height rel <> 0)%nat by (apply Nat.pow_nonzero; lia); unfold weight; simpl; lia|].
  assert (0 < height rel)%nat by (inversion Hf; lia).
  assert ((S B) ^ height rel = S B * (S B) ^ (height rel - 1))%nat as ->.
  { rewrite <- Nat.pow_succ_r'. f_equal. lia. }
  assert ((S B) ^ (height rel - 1) <> 0)%nat by (apply Nat.pow_nonzero; lia). nia.
Qed.

Lemma explore_loop_returns k : forall n w,
  (unvisited w <= k)%nat -> (weight (todoList w) <= n)%nat -> ready w ->
  exists fuel w', explore_loop fuel env w = Some w'.
Proof.
  induction k as [k IHk] using lt_wf_ind. intros n. induction n as [n IHn] using lt_wf_ind.
  intros w Hk Hn Hr. destruct (todoList w) as [|rel todo] eqn:Et.
  { exists O. eexists. simpl. rewrite Et. done. }
  destruct (pollAbort_grew rel w Hr) as (b & w1 & Epoll & Hr1 & U1 & d1 & T1 & L1 & _).
  assert (d1 = []) as -> by (by destruct d1; simpl in L1; [|lia]). rewrite app_nil_r in T1.
  destruct b. { exists 1%nat. eexists. cbn [explore_loop]. rewrite Et, Epoll. done. }
  change (weight (rel :: todo)) with ((S B) ^ height rel + weight todo)%nat in Hn.
  assert ((S B) ^ height rel <> 0)%nat by (apply Nat.pow_nonzero; lia).
  pose proof Hr1 as [[= Hroot _ _ _ _ _ _] _].
  destruct (opendir env (root ++ rel)) as [[listing err]|] eqn:Eopen.
  - set (w2 := w1 <| todoList := todo |>).
    destruct (explore_entries_grew rel listing err listing w2) as (w3 & E3 & Hr3 & U3 & ds & T3 & L3 & H3); [done..|].
    assert (length listing <= B)%nat by (by eapply fin_entries).
    change (unvisited w2) with (unvisited w1) in *. simpl in T3.
    assert (exists fuel w', explore_loop fuel env w3 = Some w') as (fuel & w' & E').
    { destruct H3 as [H3|H3].
      - apply (IHn (weight (todoList w3))); [|lia|done|done]. rewrite T3, weight_app.
        pose proof (weight_below rel ds ltac:(lia) H3). lia.
      - by apply (IHk (unvisited w3) ltac:(lia) (weight (todoList w3)) w3). }
    exists (S fuel), w'. cbn [explore_loop]. rewrite Et, Epoll. fold w2.
    change (rootDir_ (walkQueue w2)) with (rootDir_ (walkQueue w1)). by rewrite Hroot, Eopen, E3.
  - set (w2 := w1 <| todoList := todo |> <| walkQueue := walkQueue w1 <| failedDirectories_ :=
      failedDirectories_ (walkQueue w1) ++ [root ++ rel] |> |> <| walkError := true |>).
    destruct (IHn (weight todo) ltac:(lia) w2) as (fuel & w' & E'); [|done..|].
    { change (unvisited w2) with (unvisited w1). lia. }
    exists (S fuel), w'. cbn [explore_loop]. rewrite Et, Epoll. simpl. by rewrite Hroot, Eopen.
Qed.
End finite.

(** ** Theorems *)

Lemma finishInit_complete q :
  complete q ->
  exists extra, keys (finishInit q) = keys q ++ extra /\ Forall (fun k => k.2 = 0) extra
    /\ (forall name, name ∈ extra.*1 <->
          deleteFiles_ q = true /\ is_Some (previouslyTransferredChunks_ q !! name) /\ name ∉ (keys q).*1)
    /\ complete (finishInit q) /\ initFinished_ (finishInit q) = true.
Proof.
  intros Hq. set (q1 := q <| initFinished_ := true |>).
  assert (complete q1) as Hq1%complete_delete by done.
  destruct (enqueueFilesToBeDeleted_spec q1) as (mds & _ & Hf & Hs & _ & _ & _ & _ & Hx & Hm).
  assert (keys (finishInit q) = keys (enqueueFilesToBeDeleted q1)) as ->.
  { unfold finishInit. fold q1. by case_bool_decide. }
  assert (complete (finishInit q) /\ initFinished_ (finishInit q) = true) as [? ?].
  { unfold finishInit. fold q1. apply (f_equal (fun f => f.1.1.1.1.1.1.2)) in Hf. simpl in Hf.
    case_bool_decide; done. }
  exists (file_key <$> mds). split_and!; try done.
  - unfold keys. by rewrite Hs, fmap_app.
  - apply Forall_fmap. eapply Forall_impl; [exact Hm|]. by intros ? [].
  - intros name. rewrite <- list_fmap_compose. change (fst ∘ file_key) with relPath.
    destruct (deleteFiles_ q) eqn:Ed.
    + rewrite Hx by done. unfold extraFiles, keys. rewrite <- list_fmap_compose.
      change (fst ∘ file_key) with relPath. change (sharedFileData_ q1) with (sharedFileData_ q).
      change (previouslyTransferredChunks_ q1) with (previouslyTransferredChunks_ q).
      rewrite list_elem_of_fmap. split.
      * intros ([n i] & -> & [Hn Hi]%list_elem_of_filter). apply elem_of_map_to_list in Hi. simpl in *.
        split_and!; [done|by exists i|done].
      * intros (_ & [i Hi] & Hn). exists (name, i). split; [done|]. apply list_elem_of_filter.
        by rewrite elem_of_map_to_list.
    + assert (enqueueFilesToBeDeleted q1 = q1) as E by (unfold enqueueFilesToBeDeleted; simpl; by rewrite Ed).
      rewrite E in Hs. replace mds with (@nil SourceMetaData).
      * split; [by intros ?%not_elem_of_nil|by intros []].
      * by apply (app_inv_head (sharedFileData_ q1)); rewrite app_nil_r.
Qed.

(** C30: Discovery of a directory tree is exact.  When the walk is not aborted
    and links are not followed, building the queue from a tree of files returns
    true; the files it adds are, up to order, those the reference definition
    finds in the tree (the regular files that pass the include and exclude
    patterns, in directories that are not pruned), followed by the files to be
    deleted, which are exactly those the receiver has and discovery has not
    found, if deletion is enabled; and every byte of a file that the receiver
    does not have is in exactly one queued block ([complete]). *)
Theorem discovery_exact env q entries fuel :
  (forall n, shouldAbort env n = false) -> followSymlinks_ q = false ->
  initCalled_ q = false -> exploreDirectory_ q = true -> rootDir_ q <> [] -> complete q ->
  dir_at env (rootDir_ q) [] entries -> (dirs_in entries <= fuel)%nat ->
  exists q' files extra, buildQueueSynchronously fuel env q = Some (true, q')
    /\ initFinished_ q' = true /\ keys q' = keys q ++ files ++ extra
    /\ files ≡ₚ discovered_in (keepFile env q) (pruned env q) [] entries
    /\ (forall name, name ∈ extra.*1 <->
          deleteFiles_ q = true /\ is_Some (previouslyTransferredChunks_ q !! name)
          /\ name ∉ (keys q ++ files).*1)
    /\ complete q'.
Proof.
  intros Hna Hnf Hic Hex Hroot Hq Hd Hfuel. unfold buildQueueSynchronously. rewrite Hic.
  change (exploreDirectory_ (q <| initCalled_ := true |>)) with (exploreDirectory_ q). rewrite Hex.
  destruct (explore_tree env Hna q Hnf fuel (q <| initCalled_ := true |>) entries)
    as (q1 & -> & Hq1 & Hc1 & files & Hk & Hp); try done.
  destruct (finishInit_complete q1 Hq1) as (extra & Hke & _ & Hx & Hc & Hf).
  injection Hc1 as _ _ _ _ _ Hdel Hprev. rewrite Hdel, Hprev, Hk in Hx. simpl in Hx.
  exists (finishInit q1), files, extra. split_and!; try done. by rewrite Hke, Hk, <- app_assoc.
Qed.

(** C32: The directory walk ends.  On every finite file system, with symbolic
    links followed or not and cyclic links among them, whatever fails and
    whenever it is aborted, the walk returns: there is a number of directories
    it does not exceed. *)
Theorem explore_terminates env q dirs height B :
  finite_fs env (rootDir_ q) dirs height B -> wf_previous q -> rootDir_ q <> [] ->
  exists fuel r, forall fuel', (fuel <= fuel')%nat -> explore fuel' env q = Some r.
Proof.
  intros Hfin Hp Hr.
  destruct (explore_loop_returns env q dirs height B Hfin _ _ (mkWalk [[]] ∅ false q) (le_n _) (le_n _))
    as (fuel & w & E); [done|].
  exists fuel, (negb (walkError w), walkQueue w). intros fuel' Hle. unfold explore.
  rewrite bool_decide_eq_false_2 by done. simpl. by rewrite (explore_loop_mono fuel fuel' _ _ w).
Qed.

(** The tree [/r/{f, d/g, l}], with [l] a link, and the system calls on it. *)
Definition ex_tree : list (list Z * Node) :=
  [([102], NFile 3); ([100], NDir [([103], NFile 2)]); ([108], NOther)].
Definition ex_tree_opendir (p : list Z) : option (list (DType * list Z) * bool) :=
  if bool_decide (p = [47; 114; 47])
  then Some ([(DT_DIR, [46]); (DT_REG, [102]); (DT_DIR, [100]); (DT_LNK, [108])], false)
  else if bool_decide (p = [47; 114; 47; 100; 47]) then Some ([(DT_DIR, [46; 46]); (DT_UNKNOWN, [103])], false)
  else None.
Definition ex_tree_lstat (p : list Z) : option (FileKind * Z) :=
  if bool_decide (p = [47; 114; 47; 102]) then Some (S_IFREG, 3)
  else if bool_decide (p = [47; 114; 47; 100; 47; 103]) then Some (S_IFREG, 2) else None.
Definition ex_fs (open : list Z -> option (list (DType * list Z) * bool))
    (ls st : list Z -> option (FileKind * Z)) (rp : list Z -> option (list Z)) : Env :=
  mkEnv (mkDisk (fun _ _ _ => 3) (fun _ _ _ => None)) (mkReadOptions true 4096) (fun _ => false)
    st ls rp open (fun _ _ => false) (fun _ => false) true.
Definition ex_tree_env : Env := ex_fs ex_tree_opendir ex_tree_lstat ex_tree_lstat (fun _ => None).
Definition ex_tree_queue : DirectorySourceQueue := DirectorySourceQueue_make ex_tree_env [47; 114].

Lemma ex_tree_at : dir_at ex_tree_env (rootDir_ ex_tree_queue) [] ex_tree.
Proof.
  eapply dir_at_intro; [reflexivity|]. simpl.
  apply Forall2_cons; split; [by apply at_file; [left| |]|].
  apply Forall2_cons; split.
  { apply (at_dir _ _ _ _ _ _ 0); [by left|]. eapply dir_at_intro; [reflexivity|]. simpl.
    apply Forall2_cons; split; [by apply at_file; [right| |]|constructor]. }
  apply Forall2_cons; split; [|constructor]. apply (at_other _ _ _ _ _ S_IFOTHER 0). by left.
Qed.
Lemma ex_tree_complete : complete ex_tree_queue.
Proof.
  unfold complete. split_and!; try done; constructor.
Qed.
Lemma discovery_exact_witness :
  exists q' files extra, buildQueueSynchronously 2 ex_tree_env ex_tree_queue = Some (true, q')
    /\ initFinished_ q' = true /\ keys q' = keys ex_tree_queue ++ files ++ extra
    /\ files ≡ₚ discovered_in (keepFile ex_tree_env ex_tree_queue) (pruned ex_tree_env ex_tree_queue) [] ex_tree
    /\ (forall name, name ∈ extra.*1 <->
          deleteFiles_ ex_tree_queue = true /\ is_Some (previouslyTransferredChunks_ ex_tree_queue !! name)
          /\ name ∉ (keys ex_tree_queue ++ files).*1)
    /\ complete q'.
Proof.
  apply (discovery_exact ex_tree_env ex_tree_queue ex_tree 2); try reflexivity.
  - discriminate.
  - apply ex_tree_complete.
  - apply ex_tree_at.
Defined.

(** [/r/a/u], where [u] is a link to [/r]. *)
Definition ends_with (c : Z) (p : list Z) : bool :=
  match reverse p with s :: x :: _ => (s =? slash) && (x =? c) | _ => false end.
Definition ex_loop_opendir (p : list Z) : option (list (DType * list Z) * bool) :=
  if ends_with 97 p then Some ([(DT_LNK, [117])], false)
  else if ends_with 114 p || ends_with 117 p then Some ([(DT_DIR, [97])], false) else None.
Definition ex_loop_lstat (p : list Z) : option (FileKind * Z) :=
  match reverse p with c :: _ => if c =? 117 then Some (S_IFLNK, 0) else None | [] => None end.
Definition ex_loop_env : Env :=
  ex_fs ex_loop_opendir ex_loop_lstat (fun _ => Some (S_IFDIR, 0)) (fun _ => Some [47; 114]).
Definition ex_loop_queue : DirectorySourceQueue :=
  setFollowSymlinks ex_loop_env true (DirectorySourceQueue_make ex_loop_env [47; 114]).
Definition ex_loop_height (rel : list Z) : nat :=
  if ends_with 97 (rootDir_ ex_loop_queue ++ rel) then 0 else 1.
Lemma ex_loop_finite :
  finite_fs ex_loop_env (rootDir_ ex_loop_queue) [[47; 114]] ex_loop_height 1.
Proof.
  constructor.
  - intros path listing err. unfold opendir, ex_loop_env, ex_fs, ex_loop_opendir.
    intros H. repeat case_match; simplify_eq/=; lia.
  - intros rel listing err t name Hopen Hin _ Hdir. unfold ex_loop_height.
    assert (ends_with 97 (rootDir_ ex_loop_queue ++ rel) = false /\ name = [97]) as [-> ->].
    { cbn [opendir ex_loop_env ex_fs] in Hopen. unfold ex_loop_opendir in Hopen.
      destruct (ends_with 97 _); [simplify_eq|split; [done|]].
      - apply list_elem_of_singleton in Hin as [= -> ->]. destruct Hdir as [?|[size Hl]]; [done|].
        cbn [lstat ex_loop_env ex_fs] in Hl. unfold ex_loop_lstat in Hl. by repeat case_match; simplify_eq.
      - case_match; simplify_eq. by apply list_elem_of_singleton in Hin as [= -> ->]. }
    rewrite app_assoc. unfold ends_with. rewrite reverse_app. simpl. lia.
  - intros. left. by left.
  - intros path k n [H|H]; cbn [lstat stat ex_loop_env ex_fs] in H; unfold ex_loop_lstat in *;
      repeat case_match; simplify_eq; lia.
Qed.
Lemma explore_terminates_witness :
  exists fuel r, forall fuel', (fuel <= fuel')%nat -> explore fuel' ex_loop_env ex_loop_queue = Some r.
Proof.
  apply (explore_terminates ex_loop_env ex_loop_queue [[47; 114]] ex_loop_height 1).
  - apply ex_loop_finite.
  - apply map_Forall_empty.
  - discriminate.
Defined.
