(* ===== verification/History.v ===== *)
(** What a sender thread has sent and not yet had acknowledged:
    [ThreadTransferHistory] and [TransferHistoryController] of
    [util/ThreadTransferHistory.cpp].

    The history needs little of the queue: that sources given back are queued
    again.  That is the interface [SourceReturn]; the laws are discharged for
    [DirectorySourceQueue] at the end of the file. *)
From S2P Require Import Prelude ErrorCodes Protocol Reporting ByteSource SourceQueue.
From S2P Require Import SourceQueueProps.

(** ** What the history needs of the queue *)

Class SourceReturn (Q : Type) := {
  (** [returnToQueue]; [None] is its failed check *)
  give_back : list FileByteSource -> Q -> option Q;
  (** the metadata a source points to *)
  metadata_of : Q -> FileByteSource -> SourceMetaData;
  (** the sources that can be taken, and how many are out *)
  queued : Q -> list FileByteSource;
  on_loan : Q -> Z
}.

Class SourceReturnLaws (Q : Type) `{SourceReturn Q} := {
  give_back_ok ss q : Zlen ss <= on_loan q ->
    exists q', give_back ss q = Some q' /\ queued q' ≡ₚ ss ++ queued q
      /\ on_loan q' = on_loan q - Zlen ss /\ metadata_of q' = metadata_of q;
  give_back_fail ss q : 0 <= on_loan q < Zlen ss -> give_back ss q = None
}.

(** ** ThreadTransferHistory

    The oldest source first.  The statistics of the thread, which the code
    holds by reference, are passed along, and so is the queue. *)
Record ThreadTransferHistory := mkThreadTransferHistory {
  history_ : list FileByteSource;
  globalCheckpoint_ : bool;
  numAcknowledged_ : Z;
  lastCheckpoint_ : option Checkpoint;
  port_ : Z;
  inUse_ : bool
}.
#[global] Instance ThreadTransferHistory_settable : Settable ThreadTransferHistory := fun h =>
  mkThreadTransferHistory (history_ h) (globalCheckpoint_ h) (numAcknowledged_ h)
    (lastCheckpoint_ h) (port_ h) (inUse_ h).

Definition ThreadTransferHistory_make (port : Z) : ThreadTransferHistory :=
  mkThreadTransferHistory [] false 0 None port true.

Definition pop_back {A} (l : list A) : option (A * list A) :=
  match reverse l with
  | [] => None
  | x :: r => Some (x, reverse r)
  end.

(** [validateCheckpoint] *)
Definition validateCheckpoint (h : ThreadTransferHistory) (checkpoint : Checkpoint)
    (globalCheckpoint : bool) : option ErrorCode :=
  match lastCheckpoint_ h with
  | None => Some OK
  | Some last =>
      if numBlocks checkpoint <? numBlocks last then Some INVALID_CHECKPOINT
      else if numBlocks last <? numBlocks checkpoint then Some OK
      else
        let noProgress :=
          if (lastBlockSeqId checkpoint =? lastBlockSeqId last)
             && (lastBlockOffset checkpoint =? lastBlockOffset last) then
            if negb (lastBlockReceivedBytes checkpoint =? lastBlockReceivedBytes last)
            then Some None else Some (Some true)
          else
            check 0 <=? lastBlockReceivedBytes checkpoint ;;
            Some (Some (lastBlockReceivedBytes checkpoint =? 0)) in
        let* noProgress := noProgress in
        match noProgress with
        | None => Some INVALID_CHECKPOINT
        | Some noProgress =>
            Some (if noProgress && negb globalCheckpoint then NO_PROGRESS else OK)
        end
  end.

(** [markSourceAsFailed]: the bytes of the source the checkpoint vouches for,
    then the statistics of the source and of the thread, then the source. *)
Definition receivedBytes (md : SourceMetaData) (checkpoint : option Checkpoint)
    (source : FileByteSource) : Z :=
  match checkpoint with
  | None => 0
  | Some c =>
      let validCheckpoint :=
        if hasSeqId c then
          (lastBlockSeqId c =? ByteSource.seqId md) && (lastBlockOffset c =? getOffset source)
        else true in
      if validCheckpoint then lastBlockReceivedBytes c else 0
  end.
Definition markSourceAsFailed (md : SourceMetaData) (checkpoint : option Checkpoint)
    (source : FileByteSource) (threadStats : TransferStats) : FileByteSource * TransferStats :=
  let received := receivedBytes md checkpoint source in
  let sourceStats := transferStats_ source in
  let '(sourceStats, threadStats) :=
    if negb (bool_decide (localErrCode_ sourceStats = OK)) then
      (addEffectiveBytes 0 received sourceStats, addEffectiveBytes 0 received threadStats)
    else
      let dataBytes := getSize source in
      let headerBytes := effectiveHeaderBytes_ sourceStats in
      let wastedBytes := dataBytes - received in
      (incrFailedAttempts (setLocalErrorCode SOCKET_WRITE_ERROR
         (Reporting.decrNumBlocks (subtractEffectiveBytes headerBytes wastedBytes sourceStats))),
       incrFailedAttempts
         (Reporting.decrNumBlocks (subtractEffectiveBytes headerBytes wastedBytes threadStats))) in
  (advanceOffset received (source <| transferStats_ := sourceStats |>), threadStats).

Section history.
Context {Q : Type} `{SourceReturn Q}.

(** [addSource]: its result, the history, the thread statistics, the queue. *)
Definition addSource (source : FileByteSource) (h : ThreadTransferHistory)
    (threadStats : TransferStats) (q : Q)
    : option (bool * ThreadTransferHistory * TransferStats * Q) :=
  if globalCheckpoint_ h then
    let '(source, threadStats) :=
      markSourceAsFailed (metadata_of q source) (lastCheckpoint_ h) source threadStats in
    let h := h <| lastCheckpoint_ := None |> in
    let* q := give_back [source] q in
    Some (false, h, threadStats, q)
  else Some (true, h <| history_ := history_ h ++ [source] |>, threadStats, q).

(** The loop of [setCheckpointAndReturnToQueue], with [n] rounds to go: the
    history, the sources taken from its back in that order, the statistics.
    The last round, which takes the oldest, applies the checkpoint. *)
Fixpoint failSources (n : nat) (q : Q) (checkpoint : Checkpoint) (history : list FileByteSource)
    (sourcesToReturn : list FileByteSource) (threadStats : TransferStats)
    : option (list FileByteSource * list FileByteSource * TransferStats) :=
  match n with
  | O => Some (history, sourcesToReturn, threadStats)
  | S n =>
      let* (source, history) := pop_back history in
      let checkpointPtr := match n with O => Some checkpoint | S _ => None end in
      let '(source, threadStats) :=
        markSourceAsFailed (metadata_of q source) checkpointPtr source threadStats in
      failSources n q checkpoint history (sourcesToReturn ++ [source]) threadStats
  end.

Definition setCheckpointAndReturnToQueue (checkpoint : Checkpoint) (globalCheckpoint : bool)
    (h : ThreadTransferHistory) (threadStats : TransferStats) (q : Q)
    : option (ErrorCode * ThreadTransferHistory * TransferStats * Q) :=
  let historySize := Zlen (history_ h) in
  let numReceivedSources := numBlocks checkpoint in
  if historySize <? numReceivedSources then Some (INVALID_CHECKPOINT, h, threadStats, q)
  else
    let* errCode := validateCheckpoint h checkpoint globalCheckpoint in
    if bool_decide (errCode = INVALID_CHECKPOINT) then Some (INVALID_CHECKPOINT, h, threadStats, q)
    else
      let h := h <| globalCheckpoint_ := globalCheckpoint_ h || globalCheckpoint |>
                 <| lastCheckpoint_ := Some checkpoint |> in
      let numFailedSources := historySize - numReceivedSources in
      let h := h <| numAcknowledged_ := numReceivedSources |> in
      let* (history, sourcesToReturn, threadStats) :=
        failSources (Z.to_nat numFailedSources) q checkpoint (history_ h) [] threadStats in
      let h := h <| history_ := history |> in
      let* q := give_back sourcesToReturn q in
      Some (errCode, h, threadStats, q).

Definition setLocalCheckpoint (checkpoint : Checkpoint) :=
  setCheckpointAndReturnToQueue checkpoint false.
(** [setGlobalCheckpoint] up to its wait for [inUse_] to be cleared, which
    changes nothing. *)
Definition setGlobalCheckpoint (checkpoint : Checkpoint) :=
  setCheckpointAndReturnToQueue checkpoint true.

Definition popAckedSourceStats (h : ThreadTransferHistory)
    : option (list TransferStats * ThreadTransferHistory) :=
  check numAcknowledged_ h =? Zlen (history_ h) ;;
  Some (transferStats_ <$> reverse (history_ h), h <| history_ := [] |>).

Definition markAllAcknowledged (h : ThreadTransferHistory) : ThreadTransferHistory :=
  h <| numAcknowledged_ := Zlen (history_ h) |>.

Definition returnUnackedSourcesToQueue (h : ThreadTransferHistory) (threadStats : TransferStats)
    (q : Q) : option (ThreadTransferHistory * TransferStats * Q) :=
  let checkpoint := set_numBlocks (numAcknowledged_ h) Checkpoint_default in
  let* (_, h, threadStats, q) := setCheckpointAndReturnToQueue checkpoint false h threadStats q in
  Some (h, threadStats, q).

Definition markNotInUse (h : ThreadTransferHistory) : ThreadTransferHistory :=
  h <| inUse_ := false |>.

Definition getSourceId (index : Z) (h : ThreadTransferHistory) (q : Q) : list Z :=
  if (0 <=? index) && (index <? Zlen (history_ h)) then
    from_option (fun s => getIdentifier (metadata_of q s)) [] (history_ h !! Z.to_nat index)
  else [].

(** ** TransferHistoryController

    The histories by port, each with the statistics of its thread; the
    iteration order of the [unordered_map] is that of the list. *)
Definition Controller : Type := list (Z * (ThreadTransferHistory * TransferStats)).

Definition find_history (port : Z) (ctl : Controller) : option (ThreadTransferHistory * TransferStats) :=
  snd <$> (head (base.filter (fun e => e.1 = port) ctl)).
Definition getTransferHistory := find_history.
(** [emplace] keeps the entry a port already has. *)
Definition addThreadHistory (port : Z) (threadStats : TransferStats) (ctl : Controller)
    : Controller :=
  match find_history port ctl with
  | Some _ => ctl
  | None => ctl ++ [(port, (ThreadTransferHistory_make port, threadStats))]
  end.
Definition set_history (port : Z) (v : ThreadTransferHistory * TransferStats) (ctl : Controller)
    : Controller :=
  (fun e => if e.1 =? port then (e.1, v) else e) <$> ctl.

Fixpoint handleVersionMismatch (ctl : Controller) (q : Q) : option (ErrorCode * Controller * Q) :=
  match ctl with
  | [] => Some (OK, [], q)
  | (port, (h, threadStats)) :: ctl =>
      if 0 <? numAcknowledged_ h then Some (ERROR, (port, (h, threadStats)) :: ctl, q)
      else
        let* (h, threadStats, q) := returnUnackedSourcesToQueue h threadStats q in
        let* (errCode, ctl, q) := handleVersionMismatch ctl q in
        Some (errCode, (port, (h, threadStats)) :: ctl, q)
  end.

Definition handleGlobalCheckpoint (checkpoint : Checkpoint) (ctl : Controller) (q : Q)
    : option (Controller * Q) :=
  match find_history (Protocol.port checkpoint) ctl with
  | None => Some (ctl, q)
  | Some (h, threadStats) =>
      let* (_, h, threadStats, q) := setGlobalCheckpoint checkpoint h threadStats q in
      Some (set_history (Protocol.port checkpoint) (h, threadStats) ctl, q)
  end.
End history.

(** ** Failing a source *)

(** The counters that [Sender::validateTransferStats] compares between the
    sources and the threads. *)
Definition counters (s : TransferStats) : Z * Z * Z * Z :=
  (failedAttempts_ s, dataBytes_ s, effectiveDataBytes_ s, Reporting.numBlocks_ s).
Definition cadd (a b : Z * Z * Z * Z) : Z * Z * Z * Z :=
  let '(a1, a2, a3, a4) := a in let '(b1, b2, b3, b4) := b in (a1 + b1, a2 + b2, a3 + b3, a4 + b4).
Definition czero : Z * Z * Z * Z := (0, 0, 0, 0).
Definition csum {A} (f : A -> TransferStats) (l : list A) : Z * Z * Z * Z :=
  foldr (fun s acc => cadd (counters (f s)) acc) czero l.

Lemma quad_eq (a b c d a' b' c' d' : Z) :
  a = a' -> b = b' -> c = c' -> d = d' -> (a, b, c, d) = (a', b', c', d').
Proof. congruence. Qed.
(** Equations between sums of counters. *)
Ltac csolve :=
  repeat match goal with
  | |- context [counters ?s] => destruct (counters s) as [[[? ?] ?] ?]
  | |- context [csum ?f ?l] => destruct (csum f l) as [[[? ?] ?] ?]
  | c : Z * Z * Z * Z |- _ => destruct c as [[[? ?] ?] ?]
  end;
  unfold cadd, czero; intros; simplify_eq; apply quad_eq; lia.
Lemma cadd_assoc a b c : cadd a (cadd b c) = cadd (cadd a b) c.
Proof. csolve. Qed.
Lemma cadd_comm a b : cadd a b = cadd b a.
Proof. csolve. Qed.
Lemma cadd_0_l a : cadd czero a = a.
Proof. csolve. Qed.
Lemma csum_cons {A} (f : A -> TransferStats) x l : csum f (x :: l) = cadd (counters (f x)) (csum f l).
Proof. done. Qed.
Lemma csum_app {A} (f : A -> TransferStats) l k : csum f (l ++ k) = cadd (csum f l) (csum f k).
Proof.
  induction l as [|x l IH]; [symmetry; apply cadd_0_l|].
  cbn [app]. rewrite !csum_cons, IH. apply cadd_assoc.
Qed.
Lemma csum_perm {A} (f : A -> TransferStats) l k : l ≡ₚ k -> csum f l = csum f k.
Proof.
  induction 1 as [|x l k _ IH|x y l|l k m _ IH1 _ IH2]; rewrite ?csum_cons; [done| | |congruence].
  - by rewrite IH.
  - rewrite !cadd_assoc. f_equal. apply cadd_comm.
Qed.

(** What a source in a history still owes: all its bytes when sending it
    failed, none when it was sent. *)
Definition owed (s : FileByteSource) : Z :=
  if bool_decide (localErrCode_ (transferStats_ s) = OK) then 0 else size_ s.
Definition total_owed (ss : list FileByteSource) : Z := Zsum (owed <$> ss).
Lemma total_owed_app l k : total_owed (l ++ k) = total_owed l + total_owed k.
Proof. apply Zsum_fmap_app. Qed.

(** The source and the thread lose and gain the same. *)
Lemma mark_counters md c s ts s' ts' :
  markSourceAsFailed md c s ts = (s', ts') ->
  cadd (counters (transferStats_ s')) (counters ts) = cadd (counters (transferStats_ s)) (counters ts').
Proof.
  unfold markSourceAsFailed. case_bool_decide; simpl; intros; simplify_eq/=;
    unfold counters, cadd; simpl; apply quad_eq; lia.
Qed.
(** The bytes taken back from the thread are those queued again. *)
Lemma mark_bytes md c s ts s' ts' :
  markSourceAsFailed md c s ts = (s', ts') ->
  effectiveDataBytes_ ts' + size_ s' = effectiveDataBytes_ ts + owed s.
Proof.
  unfold markSourceAsFailed, owed. case_bool_decide; simpl; intros; simplify_eq/=;
    unfold getSize; lia.
Qed.
Lemma mark_range md c s ts s' ts' :
  markSourceAsFailed md c s ts = (s', ts') ->
  metadata_ s' = metadata_ s /\ offset_ s' = offset_ s + receivedBytes md c s
  /\ size_ s' = size_ s - receivedBytes md c s
  /\ localErrCode_ (transferStats_ s') <> OK.
Proof.
  unfold markSourceAsFailed. case_bool_decide; simpl; intros; simplify_eq/=; split_and!; done.
Qed.

Lemma pop_back_snoc {A} (l : list A) x : pop_back (l ++ [x]) = Some (x, l).
Proof. unfold pop_back. by rewrite reverse_snoc, reverse_involutive. Qed.
Lemma pop_back_nil {A} : pop_back (@nil A) = None.
Proof. done. Qed.

(** ** Bytes confirmed by a checkpoint *)

(** A range of a file: index, offset, size. *)
Definition range (s : FileByteSource) : nat * Z * Z := (metadata_ s, offset_ s, size_ s).
Definition in_range (i : nat) (x : Z) (r : nat * Z * Z) : bool :=
  bool_decide (r.1.1 = i) && (r.1.2 <=? x) && (x <? r.1.2 + r.2).
Definition rtimes (i : nat) (x : Z) (rs : list (nat * Z * Z)) : Z :=
  Zsum ((fun r => b2z (in_range i x r)) <$> rs).
Lemma rtimes_app i x l k : rtimes i x (l ++ k) = rtimes i x l + rtimes i x k.
Proof. apply Zsum_fmap_app. Qed.
Lemma rtimes_cons i x r l : rtimes i x (r :: l) = b2z (in_range i x r) + rtimes i x l.
Proof. done. Qed.
Lemma rtimes_perm i x l k : l ≡ₚ k -> rtimes i x l = rtimes i x k.
Proof. apply Zsum_fmap_perm. Qed.
Lemma times_ranges i x ss : times i x ss = rtimes i x (range <$> ss).
Proof. unfold times, rtimes. by rewrite <- list_fmap_compose. Qed.
(** A range cut in two. *)
Lemma in_range_split i x j off n r :
  0 <= r <= n ->
  b2z (in_range i x (j, off, n))
  = b2z (in_range i x (j, off, r)) + b2z (in_range i x (j, off + r, n - r)).
Proof.
  intros H. unfold in_range, b2z. simpl. case_bool_decide; simpl; [|done].
  repeat case_match; bool_to_prop; lia.
Qed.

Section history_props.
Context {Q : Type} `{SourceReturn Q}.
Implicit Types (h : ThreadTransferHistory) (ts : TransferStats) (q : Q).

(** The bytes the checkpoint vouches for lie in the block it is applied to. *)
Definition sane_checkpoint (c : Checkpoint) (q : Q) (h : ThreadTransferHistory) : Prop :=
  0 <= numBlocks c /\
  forall s, history_ h !! Z.to_nat (numBlocks c) = Some s ->
    0 <= receivedBytes (metadata_of q s) (Some c) s <= size_ s.

Lemma failSources_spec n q c hist acc ts :
  (n <= length hist)%nat ->
  exists ret ts', failSources n q c hist acc ts = Some (take (length hist - n) hist, acc ++ ret, ts')
    /\ length ret = n
    /\ cadd (csum transferStats_ ret) (counters ts)
       = cadd (csum transferStats_ (drop (length hist - n) hist)) (counters ts')
    /\ effectiveDataBytes_ ts' + total_size ret
       = effectiveDataBytes_ ts + total_owed (drop (length hist - n) hist)
    /\ Forall (fun s => exists s0 r, s0 ∈ drop (length hist - n) hist /\ metadata_ s = metadata_ s0 /\
         offset_ s = offset_ s0 + r /\ size_ s = size_ s0 - r /\
         (r = 0 \/ hist !! (length hist - n)%nat = Some s0 /\ r = receivedBytes (metadata_of q s0) (Some c) s0)) ret
    /\ ((forall s, hist !! (length hist - n)%nat = Some s ->
          0 <= receivedBytes (metadata_of q s) (Some c) s <= size_ s) ->
        exists confirmed, forall i x,
          rtimes i x (range <$> ret) + rtimes i x confirmed
          = rtimes i x (range <$> drop (length hist - n) hist)).
Proof.
  revert hist acc ts. induction n as [|n IH]; intros hist acc ts Hn; cbn [failSources].
  { exists [], ts. rewrite Nat.sub_0_r, take_ge, drop_ge, app_nil_r by lia.
    split_and!; [done..|by exists []]. }
  destruct hist as [|s hist _] using rev_ind; [simpl in *; lia|].
  rewrite length_app in *. simpl in Hn. rewrite pop_back_snoc.
  destruct (markSourceAsFailed _ _ s ts) as [s' ts1] eqn:Em.
  pose proof (mark_counters _ _ _ _ _ _ Em) as Hc.
  pose proof (mark_bytes _ _ _ _ _ _ Em) as Hb.
  pose proof (mark_range _ _ _ _ _ _ Em) as (Hm & Ho & Hsz & _).
  destruct (IH hist (acc ++ [s']) ts1) as (ret & ts' & -> & Hl & Hc2 & Hb2 & Hf & Hconf); [lia|].
  replace (length hist + length [s] - S n)%nat with (length hist - n)%nat by (simpl; lia).
  rewrite take_app_le, drop_app_le by lia.
  exists (s' :: ret), ts'. rewrite <- app_assoc. split_and!.
  - done.
  - simpl. lia.
  - rewrite csum_cons, csum_app. cbn [csum foldr].
    revert Hc Hc2. csolve.
  - unfold total_size, total_owed in *. rewrite Zsum_fmap_cons, Zsum_fmap_app, Zsum_fmap_cons.
    change (Zsum (owed <$> [])) with 0. lia.
  - constructor.
    + exists s, (receivedBytes (metadata_of q s) (match n with O => Some c | S _ => None end) s).
      split_and!; [set_solver|done..|]. destruct n; [right|by left].
      split; [|done]. by rewrite lookup_app_r, Nat.sub_0_r, Nat.sub_diag by lia.
    + eapply Forall_impl; [exact Hf|]. intros s1 (s0 & r & Hin & ? & ? & ? & Hr).
      exists s0, r. split_and!; [set_solver|done..|]. destruct Hr as [?|[Hlk ?]]; [by left|right].
      split; [|done]. by apply lookup_app_l_Some.
  - intros Hsane. destruct n as [|n].
    + destruct ret; [|done]. rewrite Nat.sub_0_r in *.
      exists [(metadata_ s, offset_ s, receivedBytes (metadata_of q s) (Some c) s)]. intros i x.
      rewrite fmap_app, rtimes_app, drop_ge by lia.
      change (range <$> [s']) with [range s']. change (range <$> [s]) with [range s].
      change (range <$> []) with (@nil (nat * Z * Z)).
      rewrite !rtimes_cons. change (rtimes i x []) with 0. unfold range. rewrite Hm, Ho, Hsz.
      rewrite (in_range_split i x (metadata_ s) (offset_ s) (size_ s)
        (receivedBytes (metadata_of q s) (Some c) s)); [lia|].
      apply Hsane. by rewrite lookup_app_r, Nat.sub_diag by lia.
    + destruct Hconf as [conf Hconf].
      { intros s1 Hs1. apply Hsane. by apply lookup_app_l_Some. }
      exists conf. intros i x. rewrite fmap_app, rtimes_app, <- Hconf, fmap_cons, rtimes_cons.
      change (range <$> [s]) with [range s]. rewrite rtimes_cons. change (rtimes i x []) with 0.
      replace (range s') with (range s); [lia|]. unfold range. rewrite Hm, Ho, Hsz. simpl.
      f_equal; [f_equal|]; lia.
Qed.

(** A source comes from another: the same file, a suffix of its bytes. *)
Definition suffix_source (s s0 : FileByteSource) : Prop :=
  metadata_ s = metadata_ s0 /\ exists r, 0 <= r /\ offset_ s = offset_ s0 + r /\ size_ s = size_ s0 - r
    /\ 0 <= size_ s.

(** What an operation conserves between the sources [before] (of the queue and
    the history) and [after]: the counters of sources and thread stay in step,
    the bytes credited to the thread and those still to send keep their sum,
    and no byte is lost or duplicated, those in [confirmed] being with the
    receiver. *)
Definition conserves (before after : list FileByteSource) (ts ts' : TransferStats) : Prop :=
  cadd (csum transferStats_ after) (counters ts) = cadd (csum transferStats_ before) (counters ts')
  /\ Forall (fun s => exists s0, s0 ∈ before /\ suffix_source s s0) after
  /\ exists confirmed, forall i x,
       rtimes i x (range <$> after) + rtimes i x confirmed = rtimes i x (range <$> before).

Lemma suffix_source_refl s : 0 <= size_ s -> suffix_source s s.
Proof. intros. split; [done|]. exists 0. lia. Qed.
Lemma suffix_source_trans s1 s2 s3 :
  suffix_source s1 s2 -> suffix_source s2 s3 -> suffix_source s1 s3.
Proof.
  intros [E1 (r1 & ? & ? & ? & ?)] [E2 (r2 & ? & ? & ? & ?)]. split; [congruence|].
  exists (r1 + r2). lia.
Qed.
Lemma conserves_refl l ts : Forall (fun s => 0 <= size_ s) l -> conserves l l ts ts.
Proof.
  intros Hl. split_and!; [done| |exists []; intros; unfold rtimes at 2, Zsum; simpl; lia].
  apply Forall_forall. intros s Hs. exists s. split; [done|]. apply suffix_source_refl.
  rewrite Forall_forall in Hl. auto.
Qed.
Lemma conserves_perm l l' k k' ts ts' :
  l ≡ₚ l' -> k ≡ₚ k' -> conserves l k ts ts' -> conserves l' k' ts ts'.
Proof.
  intros Hl Hk (Hc & Hf & conf & Hr). split_and!.
  - by rewrite <- (csum_perm _ l l'), <- (csum_perm _ k k').
  - rewrite <- Hk. eapply Forall_impl; [exact Hf|]. intros s (s0 & Hin & ?). exists s0.
    by rewrite <- Hl.
  - exists conf. intros i x.
    rewrite (rtimes_perm i x (range <$> l') (range <$> l)) by (by apply fmap_Permutation).
    rewrite (rtimes_perm i x (range <$> k') (range <$> k)) by (by apply fmap_Permutation).
    apply Hr.
Qed.
Lemma conserves_frame m l k ts ts' :
  Forall (fun s => 0 <= size_ s) m -> conserves l k ts ts' -> conserves (m ++ l) (m ++ k) ts ts'.
Proof.
  intros Hm (Hc & Hf & conf & Hr). split_and!.
  - rewrite !csum_app. revert Hc. csolve.
  - apply Forall_app. split.
    + apply Forall_forall. intros s Hs. exists s. split; [set_solver|]. apply suffix_source_refl.
      rewrite Forall_forall in Hm. auto.
    + eapply Forall_impl; [exact Hf|]. intros s (s0 & ? & ?). exists s0. split; [set_solver|done].
  - exists conf. intros i x. rewrite !fmap_app, !rtimes_app, <- (Hr i x). lia.
Qed.

Context `{!SourceReturnLaws Q}.

(** The effect of applying a checkpoint: the blocks it acknowledges stay, the
    others are queued again, the oldest of them from where the receiver got to. *)
Lemma setCheckpoint_spec c g h ts q :
  sane_checkpoint c q h -> Zlen (history_ h) <= on_loan q ->
  Forall (fun s => 0 <= size_ s) (history_ h ++ queued q) ->
  (lastCheckpoint_ h <> None -> 0 <= lastBlockReceivedBytes c) ->
  exists err h' ts' q', setCheckpointAndReturnToQueue c g h ts q = Some (err, h', ts', q')
    /\ on_loan q' - Zlen (history_ h') = on_loan q - Zlen (history_ h)
    /\ metadata_of q' = metadata_of q
    /\ effectiveDataBytes_ ts' + total_size (queued q') + total_owed (history_ h')
       = effectiveDataBytes_ ts + total_size (queued q) + total_owed (history_ h)
    /\ conserves (history_ h ++ queued q) (history_ h' ++ queued q') ts ts'
    /\ (err = INVALID_CHECKPOINT /\ h' = h /\ ts' = ts /\ q' = q
        \/ err <> INVALID_CHECKPOINT /\ numBlocks c <= Zlen (history_ h)
           /\ history_ h' = take (Z.to_nat (numBlocks c)) (history_ h)
           /\ numAcknowledged_ h' = Zlen (history_ h') /\ lastCheckpoint_ h' = Some c
           /\ globalCheckpoint_ h' = globalCheckpoint_ h || g).
Proof.
  intros [Hnn Hsane] Hloan Hsizes Hrecv. unfold setCheckpointAndReturnToQueue.
  pose proof (conserves_refl _ ts Hsizes) as Hrefl.
  destruct (Zlen (history_ h) <? numBlocks c) eqn:E; bool_to_prop.
  { eexists _, _, _, _. split; [reflexivity|]. split_and!; try done. by left. }
  assert (exists e, validateCheckpoint h c g = Some e) as [e He].
  { unfold validateCheckpoint. destruct (lastCheckpoint_ h); [|eauto].
    rewrite (proj2 (Z.leb_le 0 _)) by (apply Hrecv; done). repeat case_match; simplify_eq; eauto. }
  rewrite He. case_bool_decide as Ee.
  { eexists _, _, _, _. split; [reflexivity|]. split_and!; try done. by left. }
  simpl. set (n := Z.to_nat (Zlen (history_ h) - numBlocks c)).
  assert (length (history_ h) - n = Z.to_nat (numBlocks c))%nat as Hsub by lia.
  destruct (failSources_spec n q c (history_ h) [] ts) as (ret & ts' & -> & Hl & Hc & Hb & Hf & Hconf); [lia|].
  rewrite Hsub in *. specialize (Hconf Hsane). destruct Hconf as [conf Hconf]. simpl.
  destruct (give_back_ok ret q) as (q' & -> & Hq & Hlo & Hmeta); [lia|].
  eexists _, _, _, _. split; [reflexivity|]. simpl.
  set (k := Z.to_nat (numBlocks c)) in *. split_and!.
  - rewrite length_take. lia.
  - done.
  - rewrite (total_size_perm _ _ Hq), total_size_app.
    rewrite <- (take_drop k (history_ h)) at 2. rewrite total_owed_app. lia.
  - apply (conserves_perm ((take k (history_ h) ++ queued q) ++ drop k (history_ h)) _
      ((take k (history_ h) ++ queued q) ++ ret)).
    { rewrite <- app_assoc, (Permutation_app_comm (queued q)), app_assoc, take_drop. done. }
    { rewrite <- app_assoc, (Permutation_app_comm (queued q)). by rewrite Hq. }
    apply conserves_frame.
    { apply Forall_app in Hsizes as [H1 H2]. apply Forall_app. split; [by apply Forall_take|done]. }
    split_and!; [done| |by exists conf].
    apply Forall_app in Hsizes as [H1 _]. apply (Forall_drop _ k) in H1.
    eapply Forall_impl; [exact Hf|]. intros s (s0 & r & Hin & Hm & Ho & Hz & Hr). exists s0.
    split; [done|]. split; [done|]. rewrite Forall_forall in H1. specialize (H1 _ Hin).
    exists r. destruct Hr as [->|[Hlk ->]]; [lia|]. specialize (Hsane _ Hlk). lia.
  - right. split_and!; try done. rewrite length_take. lia.
Qed.

(** [addSource] after a global checkpoint gives the source back, less the bytes
    the checkpoint vouches for. *)
Definition sane_last (q : Q) (h : ThreadTransferHistory) (s : FileByteSource) : Prop :=
  globalCheckpoint_ h = true ->
  0 <= receivedBytes (metadata_of q s) (lastCheckpoint_ h) s <= size_ s.

Lemma addSource_spec s h ts q :
  sane_last q h s -> Zlen (history_ h) + 1 <= on_loan q ->
  Forall (fun s => 0 <= size_ s) (s :: history_ h ++ queued q) ->
  exists b h' ts' q', addSource s h ts q = Some (b, h', ts', q')
    /\ on_loan q' - Zlen (history_ h') = on_loan q - Zlen (history_ h) - 1
    /\ metadata_of q' = metadata_of q
    /\ effectiveDataBytes_ ts' + total_size (queued q') + total_owed (history_ h')
       = effectiveDataBytes_ ts + total_size (queued q) + total_owed (history_ h) + owed s
    /\ conserves (s :: history_ h ++ queued q) (history_ h' ++ queued q') ts ts'
    /\ b = negb (globalCheckpoint_ h).
Proof.
  intros Hsane Hloan Hsizes. unfold addSource.
  destruct (globalCheckpoint_ h) eqn:Eg.
  - destruct (markSourceAsFailed _ _ s ts) as [s' ts'] eqn:Em.
    pose proof (mark_counters _ _ _ _ _ _ Em) as Hc.
    pose proof (mark_bytes _ _ _ _ _ _ Em) as Hb.
    pose proof (mark_range _ _ _ _ _ _ Em) as (Hm & Ho & Hsz & _).
    specialize (Hsane Eg).
    destruct (give_back_ok [s'] q) as (q' & -> & Hq & Hlo & Hmeta); [simpl; lia|].
    eexists _, _, _, _. split; [reflexivity|]. simpl in Hlo, Hq. simpl. split_and!; try done; [lia| |].
    + rewrite (total_size_perm _ _ Hq). unfold total_size in *. rewrite Zsum_fmap_cons. lia.
    + apply (conserves_perm ((history_ h ++ queued q) ++ [s]) _ ((history_ h ++ queued q) ++ [s'])).
      { by rewrite Permutation_app_comm. }
      { rewrite <- app_assoc. f_equiv. by rewrite Permutation_app_comm, Hq. }
      apply conserves_frame; [by apply Forall_inv_tail in Hsizes|]. split_and!.
      * rewrite !csum_cons. change (csum transferStats_ []) with czero. revert Hc. csolve.
      * apply Forall_singleton. exists s. split; [set_solver|]. split; [done|].
        apply Forall_inv in Hsizes. eexists. split; [exact (proj1 Hsane)|]. lia.
      * exists [(metadata_ s, offset_ s, receivedBytes (metadata_of q s) (lastCheckpoint_ h) s)].
        intros i x. change (range <$> [s']) with [range s']. change (range <$> [s]) with [range s].
        rewrite !rtimes_cons. change (rtimes i x []) with 0. unfold range. rewrite Hm, Ho, Hsz.
        rewrite (in_range_split i x (metadata_ s) (offset_ s) (size_ s) _ Hsane). lia.
  - eexists _, _, _, _. split; [reflexivity|]. simpl. rewrite length_app. simpl.
    split_and!; try done; [lia| |].
    + rewrite total_owed_app. unfold total_owed at 2. rewrite Zsum_fmap_cons.
      change (Zsum (owed <$> [])) with 0. lia.
    + apply (conserves_perm (s :: history_ h ++ queued q) _ (s :: history_ h ++ queued q)); [done| |].
      { rewrite <- app_assoc. simpl. by rewrite Permutation_middle. }
      by apply conserves_refl.
Qed.

Lemma returnUnacked_spec h ts q :
  0 <= numAcknowledged_ h -> Zlen (history_ h) <= on_loan q ->
  Forall (fun s => 0 <= size_ s) (history_ h ++ queued q) ->
  exists h' ts' q', returnUnackedSourcesToQueue h ts q = Some (h', ts', q')
    /\ on_loan q' - Zlen (history_ h') = on_loan q - Zlen (history_ h)
    /\ metadata_of q' = metadata_of q
    /\ effectiveDataBytes_ ts' + total_size (queued q') + total_owed (history_ h')
       = effectiveDataBytes_ ts + total_size (queued q) + total_owed (history_ h)
    /\ conserves (history_ h ++ queued q) (history_ h' ++ queued q') ts ts'
    /\ (h' = h \/ numAcknowledged_ h' = Zlen (history_ h')).
Proof.
  intros Ha Hloan Hs. unfold returnUnackedSourcesToQueue.
  destruct (setCheckpoint_spec (set_numBlocks (numAcknowledged_ h) Checkpoint_default) false h ts q)
    as (err & h' & ts' & q' & -> & H1 & H2 & H3 & H4 & H5); [|done|done|simpl; lia|].
  { split; [done|]. simpl. intros s Hlk. apply list_elem_of_lookup_2 in Hlk.
    rewrite Forall_app, Forall_forall in Hs. destruct Hs as [Hs _]. specialize (Hs _ Hlk). lia. }
  eexists _, _, _. split; [reflexivity|]. split_and!; try done.
  destruct H5 as [(_ & -> & _)|(_ & _ & _ & ? & _)]; auto.
Qed.
End history_props.

(** ** The queue meets the interface *)

#[global] Instance DirectorySourceQueue_return : SourceReturn DirectorySourceQueue := {
  give_back := returnToQueue;
  metadata_of := meta;
  queued := sourceQueue_;
  on_loan := numBlocksDequeued_
}.

Lemma returnToQueue_loop_ok ss q :
  Zlen ss <= numBlocksDequeued_ q ->
  returnToQueue_loop ss q = Some (q <| sourceQueue_ := reverse ss ++ sourceQueue_ q |>
                                    <| numBlocksDequeued_ := numBlocksDequeued_ q - Zlen ss |>).
Proof.
  revert q. induction ss as [|s ss IH]; intros q Hl; cbn [returnToQueue_loop].
  { destruct q. cbv [update_field]. simpl. do 2 f_equal. lia. }
  rewrite Zlen_cons in *. simpl. rewrite (proj2 (Z.ltb_lt 0 _)) by lia. rewrite IH by (simpl; lia).
  rewrite reverse_cons, <- app_assoc. destruct q. cbv [update_field]. simpl. do 2 f_equal. lia.
Qed.
Lemma returnToQueue_loop_fail ss q :
  0 <= numBlocksDequeued_ q < Zlen ss -> returnToQueue_loop ss q = None.
Proof.
  revert q. induction ss as [|s ss IH]; intros q Hl; cbn [returnToQueue_loop]; [simpl in Hl; lia|].
  simpl. destruct (0 <? numBlocksDequeued_ q) eqn:E; [|done]. bool_to_prop. apply IH. simpl in *. lia.
Qed.

#[global] Instance DirectorySourceQueue_return_laws : SourceReturnLaws DirectorySourceQueue.
Proof.
  split; simpl; intros ss q Hl; unfold returnToQueue.
  - rewrite returnToQueue_loop_ok by done. eexists; split; [reflexivity|]. simpl.
    split_and!; try done. by rewrite reverse_Permutation.
  - by rewrite returnToQueue_loop_fail.
Qed.
