(* ===== verification/Transfer.v ===== *)
(** The sender threads at work on the queue: every interleaving of discovery,
    [SenderThread::sendBlocks] and checkpoints, and what no interleaving can
    break.  [Sender::validateTransferStats] is here too: its checks are one of
    the invariants. *)
From S2P Require Import Prelude ErrorCodes Protocol Chunks Reporting ByteSource SourceQueue.
From S2P Require Import SourceQueueProps Explore History.

(** ** The state

    The queue; the histories by port with the statistics of their threads; the
    sources a thread has taken and is opening, and those it has opened and is
    sending; the sources that could not be opened.  Which thread holds which
    source is left open, so that more interleavings are covered, not fewer. *)
Record Sys := mkSys {
  queue : DirectorySourceQueue;
  threads : Controller;
  opening : list FileByteSource;
  held : list FileByteSource;
  unreadable : list FileByteSource;
  started : bool
}.
#[global] Instance Sys_settable : Settable Sys := fun s =>
  mkSys (queue s) (threads s) (opening s) (held s) (unreadable s) (started s).

Definition histories (ths : Controller) : list FileByteSource :=
  ths ≫= (fun e => history_ e.2.1).
(** Every source there is. *)
Definition sources (σ : Sys) : list FileByteSource :=
  sourceQueue_ (queue σ) ++ opening σ ++ held σ ++ histories (threads σ) ++ unreadable σ.

(** What [sendOneByteSource] makes of a source and the statistics it returns:
    reading may leave an error in the source; either the whole block was sent
    and is counted, or there is an error and nothing is. *)
Definition send_outcome (s s1 : FileByteSource) (stats : TransferStats) : Prop :=
  range s1 = range s /\ counters (transferStats_ s1) = counters (transferStats_ s)
  /\ numBlocksSend_ stats = -1 /\ totalSenderBytes_ stats = -1
  /\ (localErrCode_ stats = OK /\ effectiveDataBytes_ stats = size_ s
        /\ localErrCode_ (transferStats_ s1) = localErrCode_ (transferStats_ s)
      \/ localErrCode_ stats <> OK /\ effectiveDataBytes_ stats = 0).

(** The end of [sendBlocks]. *)
Definition finishBlock (s1 : FileByteSource) (stats : TransferStats) (h : ThreadTransferHistory)
    (ts : TransferStats) (q : DirectorySourceQueue)
    : option (bool * ThreadTransferHistory * TransferStats * DirectorySourceQueue) :=
  let threadStats := addStats ts stats in
  let source := source_close (source_addTransferStats stats s1) in
  addSource source h threadStats q.

(** The checks of [Sender::validateTransferStats]. *)
Definition validateTransferStats (transferredSourceStats failedSourceStats threadStats
    : list TransferStats) : option unit :=
  let sources := cadd (csum id transferredSourceStats) (csum id failedSourceStats) in
  check bool_decide (sources = csum id threadStats) ;; Some tt.

Section steps.
Context (env : Env).

(** [update_stats ts ts']: the thread changes its own statistics otherwise
    (error codes, header bytes, encryption), not the counters. *)
Definition update_stats (ts ts' : TransferStats) : Prop := counters ts' = counters ts.

(** A call of [getNextSource] that gets the lock: a new one, or one that was
    woken. *)
Definition getNext (q : DirectorySourceQueue) (next : Next) (q' : DirectorySourceQueue) : Prop :=
  getNextSource_enter q = (next, q')
  \/ (0 < awakened (conditionNotEmpty_ q) /\ getNextSource_resume q = (next, q')).

Inductive step : Sys -> Sys -> Prop :=
  (** discovery *)
  | step_create σ path info info' q' :
      0 <= fi_fileSize info ->
      createIntoQueue env path info (queue σ) = Some (info', q') ->
      step σ (σ <| queue := q' |>)
  | step_stat_failed σ name :
      step σ (σ <| queue := queue σ <| failedSourceStats_ := failedSourceStats_ (queue σ) ++
                   [setLocalErrorCode BYTE_SOURCE_READ_ERROR (TransferStats_make name)] |> |>)
  | step_directory_failed σ path :
      step σ (σ <| queue := queue σ <| failedDirectories_ := failedDirectories_ (queue σ) ++ [path] |> |>)
  | step_poll_abort σ :
      step σ (σ <| queue := queue σ <| abortChecks := S (abortChecks (queue σ)) |> |>)
  | step_file_info σ infos gen :
      step σ (σ <| queue := queue σ <| fileInfo_ := infos |> <| fileInfoGenerator_ := gen |> |>)
  | step_init_called σ : step σ (σ <| queue := queue σ <| initCalled_ := true |> |>)
  | step_init_finished σ : step σ (σ <| queue := finishInit (queue σ) |>)
  (** resumption: the chunk list arrives before any block is taken *)
  | step_resume σ infos q' :
      started σ = false -> numWaiters_ (queue σ) = 0 -> Forall wf_info infos ->
      setPreviouslyReceivedChunks infos (queue σ) = Some q' ->
      step σ (σ <| queue := q' |>)
  (** [getNextSource]; a thread may wake up without being notified *)
  | step_spurious_wakeup σ :
      step σ (σ <| queue := queue σ <| conditionNotEmpty_ := notify_one (conditionNotEmpty_ (queue σ)) |> |>)
  | step_next_wait σ next q' :
      getNext (queue σ) next q' -> (forall s st, next <> TryOpen s st) ->
      step σ (σ <| queue := q' |>)
  | step_next σ s st q' :
      getNext (queue σ) (TryOpen s st) q' ->
      step σ (σ <| queue := q' |> <| opening := s :: opening σ |> <| started := true |>)
  | step_open σ l s r s' :
      opening σ = l ++ s :: r -> open_source env s (queue σ) = (OK, s') ->
      step σ (σ <| opening := l ++ r |> <| held := s' :: held σ |>
                <| queue := getNextSource_opened (queue σ) |>)
  | step_open_failed σ l s r e s' :
      opening σ = l ++ s :: r -> open_source env s (queue σ) = (e, s') -> e <> OK ->
      step σ (σ <| opening := l ++ r |> <| unreadable := source_close s' :: unreadable σ |>
                <| queue := getNextSource_failed (source_close s') (queue σ) |>)
  (** the rest of [sendBlocks] *)
  | step_send σ l s r s1 stats th1 p h ts th2 b h' ts' q' :
      held σ = l ++ s :: r -> threads σ = th1 ++ (p, (h, ts)) :: th2 ->
      send_outcome s s1 stats -> sane_last (queue σ) h s ->
      finishBlock s1 stats h ts (queue σ) = Some (b, h', ts', q') ->
      step σ (σ <| held := l ++ r |> <| threads := th1 ++ (p, (h', ts')) :: th2 |>
                <| queue := q' |>)
  (** checkpoints and acknowledgements *)
  | step_local_checkpoint σ th1 p h ts th2 c err h' ts' q' :
      threads σ = th1 ++ (p, (h, ts)) :: th2 ->
      sane_checkpoint c (queue σ) h -> 0 <= lastBlockReceivedBytes c ->
      setLocalCheckpoint c h ts (queue σ) = Some (err, h', ts', q') ->
      step σ (σ <| threads := th1 ++ (p, (h', ts')) :: th2 |> <| queue := q' |>)
  | step_global_checkpoint σ c th' q' :
      (forall h ts, find_history (Protocol.port c) (threads σ) = Some (h, ts) ->
         sane_checkpoint c (queue σ) h) -> 0 <= lastBlockReceivedBytes c ->
      handleGlobalCheckpoint c (threads σ) (queue σ) = Some (th', q') ->
      step σ (σ <| threads := th' |> <| queue := q' |>)
  | step_acknowledge σ th1 p h ts th2 :
      threads σ = th1 ++ (p, (h, ts)) :: th2 ->
      step σ (σ <| threads := th1 ++ (p, (markAllAcknowledged h, ts)) :: th2 |>)
  | step_return_unacked σ th1 p h ts th2 h' ts' q' :
      threads σ = th1 ++ (p, (h, ts)) :: th2 ->
      returnUnackedSourcesToQueue h ts (queue σ) = Some (h', ts', q') ->
      step σ (σ <| threads := th1 ++ (p, (h', ts')) :: th2 |> <| queue := q' |>)
  | step_not_in_use σ th1 p h ts th2 :
      threads σ = th1 ++ (p, (h, ts)) :: th2 ->
      step σ (σ <| threads := th1 ++ (p, (markNotInUse h, ts)) :: th2 |>)
  | step_stats σ th1 p h ts ts' th2 :
      threads σ = th1 ++ (p, (h, ts)) :: th2 -> update_stats ts ts' ->
      step σ (σ <| threads := th1 ++ (p, (h, ts')) :: th2 |>).

(** A new queue and the options the sender sets before the transfer starts. *)
Inductive configured : DirectorySourceQueue -> Prop :=
  | conf_make root : configured (DirectorySourceQueue_make env root)
  | conf_block_size n q : configured q -> configured (setBlockSizeMbytes n q)
  | conf_file_info infos q : configured q -> configured (setFileInfo infos q)
  | conf_generator gen q : configured q -> configured (setFileInfoGenerator gen q)
  | conf_symlinks b q : configured q -> configured (setFollowSymlinks env b q)
  | conf_include p q : configured q -> configured (setIncludePattern p q)
  | conf_exclude p q : configured q -> configured (setExcludePattern p q)
  | conf_prune p q : configured q -> configured (setPruneDirPattern p q)
  | conf_threads n q : configured q -> configured (setNumClientThreads n q)
  | conf_open_files n q : configured q -> configured (setOpenFilesDuringDiscovery n q)
  | conf_direct b q : configured q -> configured (setDirectReads b q)
  | conf_delete q : configured q -> configured (enableFileDeletion q).
Definition initial (σ : Sys) : Prop :=
  exists q ports, configured q /\ σ = mkSys q
    ((fun p => (p, (ThreadTransferHistory_make p, TransferStats_default))) <$> ports) [] [] [] false
  /\ NoDup ports.
Definition reachable (σ : Sys) : Prop := exists σ0, initial σ0 /\ rtc step σ0 σ.
End steps.

(** ** The invariant *)

Definition credited (ths : Controller) : Z :=
  Zsum ((fun e => effectiveDataBytes_ e.2.2) <$> ths).

(** How often byte [x] of file [i] is to be sent: once if it is missing. *)
Definition due (q : DirectorySourceQueue) (i : nat) (x : Z) : Z :=
  from_option (fun md => b2z (missing q md x)) 0 (sharedFileData_ q !! i).

(** A source points to a file of the queue; one of a file to be deleted is
    empty. *)
Definition ok_source (q : DirectorySourceQueue) (s : FileByteSource) : Prop :=
  (metadata_ s < length (sharedFileData_ q))%nat /\ 0 <= size_ s /\ deletes_nothing q s.

(** The acknowledged blocks are in the history, at least as many as the last
    checkpoint said. *)
Definition ack_ok (h : ThreadTransferHistory) : Prop :=
  0 <= numAcknowledged_ h <= Zlen (history_ h)
  /\ forall c, lastCheckpoint_ h = Some c -> numBlocks c <= numAcknowledged_ h.

Record Inv (σ : Sys) : Prop := mkInv {
  inv_wf : wf_previous (queue σ) /\ wf_keys (keys (queue σ));
  inv_src : Forall (ok_source (queue σ)) (sources σ);
  inv_held : Forall (fun s => localErrCode_ (transferStats_ s) = OK \/ size_ s = 0) (held σ);
  inv_ports : NoDup ((threads σ).*1);
  inv_ack : Forall (fun e => ack_ok e.2.1) (threads σ);
  inv_loan : numBlocksDequeued_ (queue σ) = Zlen (held σ) + Zlen (histories (threads σ));
  inv_counters :
    cadd (csum transferStats_ (sourceQueue_ (queue σ) ++ opening σ ++ held σ ++ histories (threads σ)))
      (csum id (failedSourceStats_ (queue σ))) = csum (fun e => e.2.2) (threads σ);
  inv_bytes :
    credited (threads σ) + total_size (sourceQueue_ (queue σ)) + total_size (opening σ)
      + total_size (held σ) + total_owed (histories (threads σ)) + total_size (unreadable σ)
    = totalFileSize_ (queue σ);
  inv_cover : exists confirmed, forall i x,
    rtimes i x (range <$> sources σ) + rtimes i x confirmed = due (queue σ) i x;
  inv_start : started σ = false ->
    opening σ = [] /\ held σ = [] /\ histories (threads σ) = [] /\ unreadable σ = []
    /\ csum (fun e => e.2.2) (threads σ) = czero
    /\ csum id (failedSourceStats_ (queue σ)) = czero
    /\ credited (threads σ) = 0
}.

Lemma histories_app l k : histories (l ++ k) = histories l ++ histories k.
Proof. apply bind_app. Qed.
Lemma histories_cons p h ts l : histories ((p, (h, ts)) :: l) = history_ h ++ histories l.
Proof. done. Qed.
Lemma credited_app l k : credited (l ++ k) = credited l + credited k.
Proof. apply Zsum_fmap_app. Qed.
Lemma credited_cons p h ts l : credited ((p, (h, ts)) :: l) = effectiveDataBytes_ ts + credited l.
Proof. done. Qed.
Lemma csum_nil {A} (f : A -> TransferStats) : csum f [] = czero.
Proof. done. Qed.
Lemma total_size_cons s l : total_size (s :: l) = size_ s + total_size l.
Proof. done. Qed.
Lemma total_owed_cons s l : total_owed (s :: l) = owed s + total_owed l.
Proof. done. Qed.
Lemma rtimes_nil i x : rtimes i x [] = 0.
Proof. done. Qed.

Create Rewrite HintDb sums.
#[global] Hint Rewrite histories_app histories_cons credited_app credited_cons @csum_app @csum_cons
  @csum_nil total_size_app total_size_cons total_owed_app total_owed_cons
  @fmap_app @fmap_cons rtimes_app rtimes_cons rtimes_nil @Forall_app @Forall_cons @length_app : sums.

(** What the queue records that no operation on a history changes. *)
Definition ledger (q : DirectorySourceQueue) :=
  (sharedFileData_ q, previouslyTransferredChunks_ q, totalFileSize_ q, failedSourceStats_ q).

Lemma ledger_ext q q' :
  ledger q' = ledger q ->
  sharedFileData_ q' = sharedFileData_ q
  /\ totalFileSize_ q' = totalFileSize_ q /\ failedSourceStats_ q' = failedSourceStats_ q
  /\ keys q' = keys q /\ (wf_previous q -> wf_previous q') /\ (forall i x, due q' i x = due q i x)
  /\ (forall s, ok_source q s -> ok_source q' s).
Proof.
  unfold ledger. intros [= E1 E2 E3 E4].
  unfold keys, due, missing, wf_previous, ok_source, deletes_nothing, to_delete. by rewrite E1, E2, E3, E4.
Qed.

Lemma ok_suffix q s s0 : suffix_source s s0 -> ok_source q s0 -> ok_source q s.
Proof.
  intros [Em (r & ? & ? & ? & ?)] (? & ? & Hd). unfold ok_source, deletes_nothing in *. rewrite Em.
  split_and!; [done..|]. intros Ht. specialize (Hd Ht). lia.
Qed.

(** An operation of one thread on its history and the queue, which may take
    the held sources [gone] out of the thread's hands. *)
Lemma Inv_thread σ th1 p h ts th2 h' ts' q' l gone r :
  Inv σ -> threads σ = th1 ++ (p, (h, ts)) :: th2 -> held σ = l ++ gone ++ r ->
  ledger q' = ledger (queue σ) ->
  numBlocksDequeued_ q' - Zlen (history_ h')
    = numBlocksDequeued_ (queue σ) - Zlen (history_ h) - Zlen gone ->
  effectiveDataBytes_ ts' + total_size (sourceQueue_ q') + total_owed (history_ h')
    = effectiveDataBytes_ ts + total_size (sourceQueue_ (queue σ)) + total_owed (history_ h)
      + total_size gone ->
  conserves (gone ++ history_ h ++ sourceQueue_ (queue σ)) (history_ h' ++ sourceQueue_ q') ts ts' ->
  ack_ok h' ->
  (started σ = false -> history_ h' = [] /\ counters ts' = counters ts
     /\ effectiveDataBytes_ ts' = effectiveDataBytes_ ts) ->
  Inv (σ <| held := l ++ r |> <| threads := th1 ++ (p, (h', ts')) :: th2 |> <| queue := q' |>).
Proof.
  intros [Hwf Hsrc Hheld Hports Hack Hloan Hcnt Hbytes Hcov Hstart] Hth Hh Hled Hl Hb
    (Hc & Hf & conf & Hr) Hak Hst.
  apply ledger_ext in Hled as (Esh & Etot & Efail & Ekeys & Hwp & Hdue & Hdel).
  unfold sources in *. rewrite Hth, Hh in *. autorewrite with sums in *.
  destruct Hsrc as (Hsq & Hso & (Hsl & Hsg & Hsr) & (Hs1 & Hs2 & Hs3) & Hsu).
  constructor; simpl; unfold sources; simpl; autorewrite with sums in *; rewrite ?Esh, ?Efail in *.
  - rewrite Ekeys. tauto.
  - assert (forall ss, Forall (ok_source (queue σ)) ss -> Forall (ok_source q') ss) as Hold
      by (intros ss Hss; by eapply Forall_impl).
    assert (forall ss, Forall (fun s => exists s0, s0 ∈ gone ++ history_ h ++ sourceQueue_ (queue σ)
      /\ suffix_source s s0) ss -> Forall (ok_source q') ss) as Hnew.
    { intros ss Hss. eapply Forall_impl; [exact Hss|]. intros s (s0 & Hin & Hsuf). apply Hdel, (ok_suffix _ s s0 Hsuf).
      rewrite !elem_of_app in Hin. rewrite Forall_forall in Hsg, Hs2, Hsq.
      destruct Hin as [?|[?|?]]; auto. }
    destruct Hf as [Hf1 Hf2]. split_and!; auto.
  - tauto.
  - done.
  - tauto.
  - simpl in *. lia.
  - cbn [fst snd] in *. revert Hc Hcnt. csolve.
  - lia.
  - destruct Hcov as [conf0 Hcov]. exists (conf0 ++ conf). intros i x. rewrite Hdue, <- (Hcov i x).
    specialize (Hr i x). autorewrite with sums in *. lia.
  - intros Hs. destruct (Hst Hs) as (Eh & Ec & Ee).
    destruct (Hstart Hs) as (? & Hg & Hh0 & ? & Hz & ? & Hcr).
    apply app_eq_nil in Hg as [-> [-> ->]%app_eq_nil].
    apply app_eq_nil in Hh0 as [-> [_ ->]%app_eq_nil]. cbn [fst snd] in *. rewrite Eh, Ec, Ee. split_and!; auto.
Qed.

(** *** The operations of a thread *)

Lemma returnToQueue_ledger ss q q' : returnToQueue ss q = Some q' -> ledger q' = ledger q.
Proof.
  unfold returnToQueue. intros H. case_hyp H; [|done]. simplify_eq.
  change (ledger d = ledger q). revert q Heqo. induction ss as [|s ss IH]; intros q Hq; simpl in Hq.
  - by simplify_eq.
  - case_hyp Hq; [|done]. by apply IH in Hq.
Qed.
Lemma setCheckpoint_ledger c g h ts q err h' ts' q' :
  setCheckpointAndReturnToQueue c g h ts q = Some (err, h', ts', q') -> ledger q' = ledger q.
Proof.
  unfold setCheckpointAndReturnToQueue. intros H. repeat case_hyp H; simplify_eq; try done.
  by eapply returnToQueue_ledger.
Qed.
Lemma setCheckpoint_empty c g h ts q err h' ts' q' :
  history_ h = [] -> 0 <= numBlocks c ->
  setCheckpointAndReturnToQueue c g h ts q = Some (err, h', ts', q') ->
  history_ h' = [] /\ ts' = ts.
Proof.
  unfold setCheckpointAndReturnToQueue. intros Hh Hn H. rewrite Hh in H.
  change (Z.of_nat (length (@nil FileByteSource))) with 0 in H.
  destruct (0 <? numBlocks c) eqn:E; [simplify_eq; auto|]. bool_to_prop.
  replace (Z.to_nat (0 - numBlocks c)) with 0%nat in H by lia.
  cbn [failSources] in H. repeat case_hyp H; simplify_eq; auto.
Qed.

Lemma Inv_sizes σ th1 p h ts th2 :
  Inv σ -> threads σ = th1 ++ (p, (h, ts)) :: th2 ->
  Forall (fun s => 0 <= size_ s) (sources σ)
  /\ Forall (fun s => 0 <= size_ s) (history_ h ++ sourceQueue_ (queue σ))
  /\ Zlen (held σ) + Zlen (history_ h) <= numBlocksDequeued_ (queue σ)
  /\ ack_ok h
  /\ (started σ = false -> history_ h = []).
Proof.
  intros Hinv Hth. destruct Hinv as [_ Hsrc _ _ Hack Hloan _ _ _ Hst].
  unfold sources in *. rewrite Hth in *. autorewrite with sums in *. cbn [fst snd] in *.
  assert (forall ss, Forall (ok_source (queue σ)) ss -> Forall (fun s => 0 <= size_ s) ss) as Hi.
  { intros ss Hss. eapply Forall_impl; [exact Hss|]. by intros s (? & ? & ?). }
  split_and!; try (apply Hi; tauto); [lia|tauto|].
  intros (_ & _ & [_ [? _]%app_eq_nil]%app_eq_nil & _)%Hst. done.
Qed.

(** An operation that leaves the held sources alone. *)
Lemma Inv_history σ th1 p h ts th2 h' ts' q' :
  Inv σ -> threads σ = th1 ++ (p, (h, ts)) :: th2 -> ledger q' = ledger (queue σ) ->
  numBlocksDequeued_ q' - Zlen (history_ h') = numBlocksDequeued_ (queue σ) - Zlen (history_ h) ->
  effectiveDataBytes_ ts' + total_size (sourceQueue_ q') + total_owed (history_ h')
    = effectiveDataBytes_ ts + total_size (sourceQueue_ (queue σ)) + total_owed (history_ h) ->
  conserves (history_ h ++ sourceQueue_ (queue σ)) (history_ h' ++ sourceQueue_ q') ts ts' ->
  ack_ok h' ->
  (started σ = false -> history_ h' = [] /\ counters ts' = counters ts
     /\ effectiveDataBytes_ ts' = effectiveDataBytes_ ts) ->
  Inv (σ <| threads := th1 ++ (p, (h', ts')) :: th2 |> <| queue := q' |>).
Proof.
  intros Hinv Hth Hled Hl Hb Hc Hak Hst.
  assert (Inv (σ <| held := held σ ++ [] |> <| threads := th1 ++ (p, (h', ts')) :: th2 |>
    <| queue := q' |>)) as H; [|by rewrite app_nil_r in H; destruct σ].
  apply (Inv_thread σ th1 p h ts th2 h' ts' q' (held σ) [] []); try done.
  - by rewrite app_nil_r.
  - simpl. lia.
  - change (total_size []) with 0. lia.
Qed.

(** Applying a checkpoint, local or global. *)
Lemma Inv_checkpoint σ th1 p h ts th2 c g :
  Inv σ -> threads σ = th1 ++ (p, (h, ts)) :: th2 ->
  sane_checkpoint c (queue σ) h -> (lastCheckpoint_ h <> None -> 0 <= lastBlockReceivedBytes c) ->
  exists err h' ts' q', setCheckpointAndReturnToQueue c g h ts (queue σ) = Some (err, h', ts', q')
    /\ Inv (σ <| threads := th1 ++ (p, (h', ts')) :: th2 |> <| queue := q' |>).
Proof.
  intros Hinv Hth Hsane Hrecv. destruct (Inv_sizes _ _ _ _ _ _ Hinv Hth) as (_ & Hsz & Hl & Hak & Hst).
  destruct (setCheckpoint_spec c g h ts (queue σ) Hsane) as (err & h' & ts' & q' & E & H1 & _ & H3 & H4 & H5);
    [simpl; lia|done|done|].
  exists err, h', ts', q'. split; [done|].
  apply (Inv_history σ th1 p h ts th2 h' ts' q'); try done.
  - by eapply setCheckpoint_ledger.
  - destruct H5 as [(_ & -> & _)|(_ & Hle & Eh & Ea & El & _)]; [done|].
    unfold ack_ok. rewrite Ea, El, Eh. split; [lia|]. intros c' [= <-].
    rewrite length_take. destruct Hsane. lia.
  - intros Hs%Hst. destruct (setCheckpoint_empty _ _ _ _ _ _ _ _ _ Hs (proj1 Hsane) E) as [? ->]. done.
Qed.

Lemma Inv_return_unacked σ th1 p h ts th2 :
  Inv σ -> threads σ = th1 ++ (p, (h, ts)) :: th2 ->
  exists h' ts' q', returnUnackedSourcesToQueue h ts (queue σ) = Some (h', ts', q')
    /\ Inv (σ <| threads := th1 ++ (p, (h', ts')) :: th2 |> <| queue := q' |>).
Proof.
  intros Hinv Hth. destruct (Inv_sizes _ _ _ _ _ _ Hinv Hth) as (_ & Hsz & Hl & Hak & _).
  destruct (Inv_checkpoint σ th1 p h ts th2 (set_numBlocks (numAcknowledged_ h) Checkpoint_default) false)
    as (err & h' & ts' & q' & E & Hi); [done..| |simpl; lia|].
  - split; [apply Hak|]. simpl. intros s Hlk%list_elem_of_lookup_2.
    rewrite Forall_app, Forall_forall in Hsz. destruct Hsz as [Hs _]. specialize (Hs _ Hlk). lia.
  - unfold returnUnackedSourcesToQueue. rewrite E. eauto 10.
Qed.

Lemma Inv_acknowledge σ th1 p h ts th2 h' :
  Inv σ -> threads σ = th1 ++ (p, (h, ts)) :: th2 ->
  history_ h' = history_ h -> ack_ok h' -> forall ts', update_stats ts ts' ->
  Inv (σ <| threads := th1 ++ (p, (h', ts')) :: th2 |>).
Proof.
  intros Hinv Hth Hh Hak ts' Hc. destruct (Inv_sizes _ _ _ _ _ _ Hinv Hth) as (_ & Hsz & _ & _ & Hst).
  assert (effectiveDataBytes_ ts' = effectiveDataBytes_ ts) as He.
  { unfold update_stats, counters in Hc. by simplify_eq. }
  assert (Inv (σ <| threads := th1 ++ (p, (h', ts')) :: th2 |> <| queue := queue σ |>)) as H;
    [|by destruct σ].
  apply (Inv_history σ th1 p h ts th2); try done; rewrite ?Hh; try lia.
  - destruct (conserves_refl _ ts Hsz) as (_ & ? & ?). split; [by rewrite Hc|done].
  - intros Hs. auto.
Qed.

Lemma set_history_absent p v ths : p ∉ ths.*1 -> set_history p v ths = ths.
Proof.
  unfold set_history, Controller in *. induction ths as [|[p0 v0] ths IH]; [done|].
  rewrite !fmap_cons, not_elem_of_cons. cbn [fst]. intros [Hne Hni].
  rewrite (proj2 (Z.eqb_neq p0 p)) by done. by rewrite IH.
Qed.
Lemma find_history_split p ths v :
  find_history p ths = Some v -> NoDup ths.*1 ->
  exists th1 th2, ths = th1 ++ (p, v) :: th2
    /\ forall v', set_history p v' ths = th1 ++ (p, v') :: th2.
Proof.
  unfold find_history, set_history, Controller in *. induction ths as [|[p0 v0] ths IH]; [done|].
  rewrite filter_cons. cbn [fst]. intros H Hnd. inversion_clear Hnd as [|? ? Hni Hnd'].
  destruct (decide (p0 = p)) as [->|Hne].
  - simplify_eq/=. exists [], ths. split; [done|].
    intros v'. simpl. rewrite Z.eqb_refl. f_equal.
    by apply set_history_absent.
  - destruct (IH H Hnd') as (th1 & th2 & -> & Hset).
    exists ((p0, v0) :: th1), th2. split; [done|]. intros v'. cbn [app]. rewrite fmap_cons, Hset.
    simpl. by rewrite (proj2 (Z.eqb_neq _ _) Hne).
Qed.

Lemma Inv_global_checkpoint σ c :
  Inv σ -> (forall h ts, find_history (Protocol.port c) (threads σ) = Some (h, ts) ->
              sane_checkpoint c (queue σ) h) ->
  0 <= lastBlockReceivedBytes c ->
  exists th' q', handleGlobalCheckpoint c (threads σ) (queue σ) = Some (th', q')
    /\ Inv (σ <| threads := th' |> <| queue := q' |>).
Proof.
  intros Hinv Hsane Hr. unfold handleGlobalCheckpoint.
  destruct (find_history _ _) as [[h ts]|] eqn:E.
  - destruct (find_history_split _ _ _ E (inv_ports _ Hinv)) as (th1 & th2 & Hth & Hset).
    destruct (Inv_checkpoint σ th1 (Protocol.port c) h ts th2 c true Hinv Hth) as (err & h' & ts' & q' & E' & Hi);
      [by eapply Hsane|done|].
    unfold setGlobalCheckpoint. rewrite E'. eexists _, _. split; [done|]. by rewrite Hset.
  - eexists _, _. split; [done|]. by destruct σ.
Qed.

(** *** Sending *)

Lemma addStats_local s t :
  numBlocksSend_ t = -1 -> totalSenderBytes_ t = -1 ->
  localErrCode_ (addStats s t) = getMoreInterestingError (localErrCode_ s) (localErrCode_ t).
Proof.
  intros H1 H2. unfold_addStats. simpl. rewrite H1, H2. simpl.
  destruct (numBlocksSend_ s =? -1); simpl; destruct (totalSenderBytes_ s =? -1); simpl;
    by destruct (_ && _).
Qed.
Lemma addStats_counters s t : counters (addStats s t) = cadd (counters s) (counters t).
Proof.
  unfold counters. rewrite addStats_failedAttempts, addStats_effectiveDataBytes, addStats_numBlocks.
  unfold cadd. f_equal. f_equal. f_equal. unfold_addStats. simpl. by repeat case_match.
Qed.

Lemma Inv_send σ l s r s1 stats th1 p h ts th2 :
  Inv σ -> held σ = l ++ s :: r -> threads σ = th1 ++ (p, (h, ts)) :: th2 ->
  send_outcome s s1 stats -> sane_last (queue σ) h s ->
  exists b h' ts' q', finishBlock s1 stats h ts (queue σ) = Some (b, h', ts', q')
    /\ Inv (σ <| held := l ++ r |> <| threads := th1 ++ (p, (h', ts')) :: th2 |> <| queue := q' |>).
Proof.
  intros Hinv Hheld Hth (Hrng & Hcnt & Hm1 & Hm2 & Hout) Hsane.
  destruct (Inv_sizes _ _ _ _ _ _ Hinv Hth) as (Hall & Hsz & Hl & Hak & _).
  pose proof (inv_held _ Hinv) as Hok. rewrite Hheld, Forall_app, Forall_cons in Hok.
  destruct Hok as (_ & Hok & _).
  assert (0 <= size_ s) as Hs0.
  { rewrite Forall_forall in Hall. apply Hall. unfold sources.
    rewrite Hheld, !elem_of_app, elem_of_cons. tauto. }
  injection Hrng as Em Eo Es. unfold finishBlock.
  set (s2 := source_close (source_addTransferStats stats s1)).
  assert (owed s2 + effectiveDataBytes_ stats = size_ s) as Howed.
  { unfold owed, s2. simpl. rewrite addStats_local by done.
    case_bool_decide as Eok; [apply getMoreInterestingError_OK in Eok as [_ Eok]|];
      destruct Hout as [(Ho & He & Hloc)|(Ho & He)]; try done; [|lia].
    destruct Hok as [Hok|Hok]; [|lia]. exfalso. apply Eok, getMoreInterestingError_OK. by rewrite Hloc. }
  destruct (addSource_spec s2 h (addStats ts stats) (queue σ)) as (b & h' & ts' & q' & E & H1 & _ & H3 & H4 & H5).
  { unfold sane_last, receivedBytes, metadata_of in *. simpl in *. unfold getOffset in *. simpl.
    unfold meta in *. simpl. by rewrite Em, Eo, Es. }
  { simpl. rewrite Hheld, length_app in Hl. simpl in Hl. lia. }
  { constructor; [simpl; lia|done]. }
  exists b, h', ts', q'. split; [done|].
  apply (Inv_thread σ th1 p h ts th2 h' ts' q' l [s] r); try done.
  - unfold addSource in E. repeat case_hyp E; simplify_eq; try done. by eapply returnToQueue_ledger.
  - simpl in H3. rewrite total_size_cons. change (total_size []) with 0.
    rewrite addStats_effectiveDataBytes in H3. lia.
  - destruct H4 as (Hc & Hf & conf & Hr). split_and!.
    + cbn [app]. rewrite csum_cons in Hc |- *.
      change (transferStats_ s2) with (addStats (transferStats_ s1) stats) in Hc.
      rewrite !addStats_counters, Hcnt in Hc. cbn [queued DirectorySourceQueue_return] in Hc.
      revert Hc. csolve.
    + eapply Forall_impl; [exact Hf|]. intros s' (s0 & Hin & Hsuf). apply elem_of_cons in Hin as [->|Hin].
      * exists s. split; [by left|]. destruct Hsuf as [E1 Hsuf]. split; [by rewrite E1|].
        simpl in Hsuf. by rewrite <- Eo, <- Es.
      * exists s0. split; [by right|done].
    + exists conf. intros i x. rewrite Hr. rewrite !fmap_app, !fmap_cons. cbn [app fmap list_fmap].
      rewrite !rtimes_cons, <- fmap_app. do 2 f_equal. unfold range. simpl. by rewrite Em, Eo, Es.
  - destruct Hak as [? Hlast]. unfold addSource in E. repeat case_hyp E; simplify_eq;
      unfold ack_ok; simpl; rewrite ?length_app; (split; [lia|done]).
  - intros Hs. destruct (inv_start _ Hinv Hs) as (_ & Hn & _). rewrite Hn in Hheld.
    by destruct l.
Qed.

(** *** The queue *)

(** Nothing the invariant looks at changes. *)
Lemma Inv_same σ q' :
  Inv σ -> ledger q' = ledger (queue σ) -> sourceQueue_ q' = sourceQueue_ (queue σ) ->
  numBlocksDequeued_ q' = numBlocksDequeued_ (queue σ) -> Inv (σ <| queue := q' |>).
Proof.
  intros [Hwf Hsrc Hheld Hports Hack Hloan Hcnt Hbytes Hcov Hstart] Hled Hq Hd.
  apply ledger_ext in Hled as (Esh & Etot & Efail & Ekeys & Hwp & Hdue & Hdel).
  constructor; simpl; unfold sources in *; simpl; rewrite ?Hq, ?Hd, ?Efail, ?Etot; try done.
  - rewrite Ekeys. tauto.
  - eapply Forall_impl; [exact Hsrc|done].
  - destruct Hcov as [conf Hcov]. exists conf. intros i x. by rewrite Hdue, Hcov.
Qed.

(** New blocks: of a file just discovered, or of a file to be deleted. *)
Lemma Inv_more σ q' ss ks :
  Inv σ -> frame q' = frame (queue σ) -> keys q' = keys (queue σ) ++ ks -> wf_keys ks ->
  bytes_elsewhere q' = bytes_elsewhere (queue σ) -> sourceQueue_ q' = ss ++ sourceQueue_ (queue σ) ->
  (forall j, (j < length (sharedFileData_ (queue σ)))%nat -> to_delete q' j -> to_delete (queue σ) j) ->
  Forall (fun s => ok_source q' s /\ untouched s) ss ->
  (forall i x, times i x ss + due (queue σ) i x = due q' i x) ->
  Inv (σ <| queue := q' |>).
Proof.
  intros [Hwf Hsrc Hheld Hports Hack Hloan Hcnt Hbytes Hcov Hstart] Hfr Hks Hwk Hy Hq Hdel Hnew Hdue.
  assert (length (sharedFileData_ (queue σ)) <= length (sharedFileData_ q'))%nat as Hlen.
  { assert (length (keys q') = length (keys (queue σ)) + length ks)%nat as H
      by (by rewrite Hks, length_app).
    unfold keys in H. rewrite !length_fmap in H. lia. }
  assert (csum transferStats_ ss = czero) as Hz.
  { clear -Hnew. induction Hnew as [|s ss [_ [id Hu]] _ IH]; [done|].
    rewrite csum_cons, IH, Hu. done. }
  assert (failedSourceStats_ q' = failedSourceStats_ (queue σ)) as Ef by (by injection Hfr).
  assert (numBlocksDequeued_ q' = numBlocksDequeued_ (queue σ)) as Ed by (by injection Hfr).
  constructor; simpl; unfold sources, bytes_elsewhere in *; simpl; rewrite ?Hq, ?Ef in *;
    autorewrite with sums in *; rewrite ?Hz; try done.
  - rewrite Hks. split; [apply (wf_previous_ext (queue σ)); tauto|]. apply Forall_app. tauto.
  - assert (forall l, Forall (ok_source (queue σ)) l -> Forall (ok_source q') l) as Hold.
    { intros l Hl. eapply Forall_impl; [exact Hl|]. intros s (? & ? & Hd). split_and!; [lia|done|].
      intros Ht. apply Hd, Hdel; done. }
    split_and!; try (apply Hold; tauto). eapply Forall_impl; [exact Hnew|]. tauto.
  - by rewrite Ed.
  - revert Hcnt. csolve.
  - lia.
  - destruct Hcov as [conf Hcov]. exists conf. intros i x. specialize (Hcov i x).
    rewrite <- Hdue, <- Hcov, times_ranges. autorewrite with sums. lia.
Qed.

Lemma due_keys q i x md : keys q !! i = Some (file_key md) -> due q i x = b2z (missing q md x).
Proof.
  intros (md' & Hmd & Hk)%keys_lookup_inv. unfold due. rewrite Hmd. simpl.
  by rewrite (missing_ext q q md md').
Qed.
Lemma due_none q i x : (length (keys q) <= i)%nat -> due q i x = 0.
Proof.
  unfold keys. rewrite length_fmap. intros H. unfold due. by rewrite lookup_ge_None_2.
Qed.
(** The file of an entry of [keys]. *)
Lemma key_file (k : list Z * Z) : exists md, file_key md = k.
Proof.
  destruct k as [name n].
  by exists (SourceMetaData_default <| relPath := name |> <| ByteSource.size := n |>).
Qed.

Lemma Inv_enqueued σ q' k :
  Inv σ -> enqueued (queue σ) q' k -> 0 <= k.2 -> Inv (σ <| queue := q' |>).
Proof.
  intros Hinv (Hfr & Hks & Hy & _ & Hdel & ss & Hq & Hs & Hx) Hk.
  assert (length (keys (queue σ)) = length (sharedFileData_ (queue σ))) as Hlen
    by (unfold keys; by rewrite length_fmap).
  apply (Inv_more σ q' ss [k]); try done; [by constructor| |].
  - eapply Forall_impl; [exact Hs|]. intros s (Hm & (k' & Hk' & ? & _) & Hu & Hnd).
    split; [|done]. split_and!; [|done|by intros Ht; destruct (Hnd Ht)].
    apply lookup_lt_Some in Hk'. unfold keys in Hk'. by rewrite length_fmap in Hk'.
  - intros i x. destruct (key_file k) as [md Emd].
    destruct (Nat.lt_trichotomy i (length (keys (queue σ)))) as [Hlt|[->|Hgt]].
    + rewrite (times_other i (length (sharedFileData_ (queue σ)))); [|lia|].
      2:{ eapply Forall_impl; [exact Hs|]. by intros ? []. }
      destruct (lookup_lt_is_Some_2 (keys (queue σ)) i Hlt) as [ki Hki].
      destruct (key_file ki) as [mdi <-].
      rewrite (due_keys (queue σ) i x mdi), (due_keys q' i x mdi) by (rewrite ?Hks; by try apply lookup_app_l_Some).
      by rewrite (missing_ext (queue σ) q' mdi mdi).
    + rewrite Hlen at 1. rewrite (Hx md x Emd), due_none by done.
      rewrite (due_keys q' _ x md), (missing_ext (queue σ) q' md md); [lia|done|done|].
      rewrite Hks, lookup_app_r, Nat.sub_diag, Emd by lia. done.
    + rewrite (times_other i (length (sharedFileData_ (queue σ)))), !due_none; [done|..].
      * rewrite Hks, length_app. simpl. lia.
      * lia.
      * lia.
      * eapply Forall_impl; [exact Hs|]. by intros ? [].
Qed.

Lemma due_deleted q q' mds i x :
  frame q' = frame q -> sharedFileData_ q' = sharedFileData_ q ++ mds ->
  Forall (fun md => ByteSource.size md = 0) mds -> due q' i x = due q i x.
Proof.
  intros Hfr Hsh Hm. unfold due. rewrite Hsh.
  destruct (sharedFileData_ q !! i) as [md|] eqn:E.
  - rewrite (lookup_app_l_Some _ _ _ _ E). simpl. by rewrite (missing_ext q q' md md).
  - rewrite lookup_app_r by (by apply lookup_ge_None). destruct (mds !! _) as [md|] eqn:Em; [|done].
    simpl. rewrite missing_empty; [done|]. by apply (Forall_lookup_1 _ _ _ _ Hm Em).
Qed.

Lemma Inv_delete σ : Inv σ -> Inv (σ <| queue := enqueueFilesToBeDeleted (queue σ) |>).
Proof.
  intros Hinv. destruct (enqueueFilesToBeDeleted_spec (queue σ))
    as (mds & ss & Hfr & Hsh & Hq & _ & Hy & Hs & _ & Hm).
  destruct (enqueueFilesToBeDeleted_new (queue σ)) as (mds' & ss' & Hq' & Hsh' & Hs').
  assert (ss' = ss) as -> by (rewrite Hq in Hq'; by apply app_inv_tail in Hq').
  assert (Forall (fun md => ByteSource.size md = 0) mds) as Hm0
    by (eapply Forall_impl; [exact Hm|]; by intros ? []).
  apply (Inv_more σ _ ss (file_key <$> mds)); try done.
  - unfold keys at 1. by rewrite Hsh, fmap_app.
  - apply Forall_fmap. eapply Forall_impl; [exact Hm0|]. intros md E. unfold compose, file_key. cbn [snd]. by rewrite E.
  - intros j Hj. unfold to_delete. by rewrite Hsh, lookup_total_app_l.
  - rewrite Forall_forall in Hs, Hs' |- *. intros s Hin. destruct (Hs s Hin) as (E & (k & Hk & _) & _).
    split; [|by apply Hs']. split_and!; [|lia|by intros _].
    apply lookup_lt_Some in Hk. unfold keys in Hk. by rewrite length_fmap in Hk.
  - intros i x. rewrite (due_deleted (queue σ) (enqueueFilesToBeDeleted (queue σ)) mds) by done. rewrite times_empty; [lia|].
    eapply Forall_impl; [exact Hs|]. by intros ? [].
Qed.

Lemma Inv_init_finished σ : Inv σ -> Inv (σ <| queue := finishInit (queue σ) |>).
Proof.
  intros Hinv. assert (Inv (σ <| queue := queue σ <| initFinished_ := true |> |>)) as H1
    by (by apply Inv_same).
  apply Inv_delete in H1. simpl in H1. unfold finishInit. case_bool_decide; [|exact H1].
  by apply (Inv_same _ _ H1).
Qed.

Lemma Inv_resume σ infos :
  Inv σ -> started σ = false -> Forall wf_info infos ->
  exists q', setPreviouslyReceivedChunks infos (queue σ) = Some q' /\ Inv (σ <| queue := q' |>).
Proof.
  intros Hinv Hs Hi. destruct (inv_start _ Hinv Hs) as (Ho & Hh & Hhi & Hu & Hc & Hf & Hcr).
  destruct (inv_wf _ Hinv) as [Hwp Hwk].
  assert (numBlocksDequeued_ (queue σ) = 0) as Hd by (rewrite (inv_loan _ Hinv), Hh, Hhi; done).
  destruct (setPreviouslyReceivedChunks_complete infos (queue σ))
    as (q' & E & (Cp & Ck & Cf & Cn & Ct & Cx) & _ & Ef & Ed); [done..|].
  pose proof (setPreviouslyReceivedChunks_new _ _ _ E) as Hnew.
  exists q'. split; [done|]. constructor; simpl; unfold sources; simpl; rewrite ?Ho, ?Hh, ?Hhi, ?Hu, ?Ef.
  - done.
  - rewrite !app_nil_r. rewrite Forall_forall in Cf, Hnew |- *. intros s Hin.
    destruct (Cf s Hin) as (k & Hk & ? & _), (Hnew s Hin) as [_ ?]. split_and!; try done.
    apply lookup_lt_Some in Hk. unfold keys in Hk. by rewrite length_fmap in Hk.
  - done.
  - apply Hinv.
  - apply Hinv.
  - done.
  - rewrite !app_nil_r, Hf, Hc. replace (csum transferStats_ (sourceQueue_ q')) with czero; [done|].
    clear -Hnew. induction Hnew as [|s ss [[id Hu] _] _ IH]; [done|]. by rewrite csum_cons, <- IH, Hu.
  - rewrite Hcr, Ct. change (total_size []) with 0. change (total_owed []) with 0. lia.
  - exists []. intros i x. rewrite !app_nil_r, <- times_ranges, rtimes_nil. unfold due.
    destruct (sharedFileData_ q' !! i) as [md|] eqn:Em; simpl; [by rewrite (Cx _ _ _ Em); lia|].
    rewrite (times_fresh (keys q')); [done|done|]. unfold keys. rewrite length_fmap.
    by apply lookup_ge_None.
  - intros _. split_and!; done.
Qed.

(** *** Taking and opening a source *)

Lemma getNextSource_check_spec q next q' :
  getNextSource_check q = (next, q') ->
  ledger q' = ledger q /\ numBlocksDequeued_ q' = numBlocksDequeued_ q
  /\ match next with
     | TryOpen s _ => s :: sourceQueue_ q' ≡ₚ sourceQueue_ q
     | _ => sourceQueue_ q' = sourceQueue_ q
     end.
Proof.
  unfold getNextSource_check. intros H. case_hyp H; [by simplify_eq|].
  destruct (pq_pop _) as [[s q1]|] eqn:E; [|by simplify_eq].
  destruct (pq_pop_spec _ _ _ E) as (E1 & Hp & _). simpl in Hp.
  destruct (_ && initFinished_ q1); simplify_eq; simpl; rewrite E1; done.
Qed.
Lemma getNextSource_spec q next q' :
  getNext q next q' ->
  ledger q' = ledger q /\ numBlocksDequeued_ q' = numBlocksDequeued_ q
  /\ match next with
     | TryOpen s _ => s :: sourceQueue_ q' ≡ₚ sourceQueue_ q
     | _ => sourceQueue_ q' = sourceQueue_ q
     end.
Proof. intros [H|[_ H]]; by apply getNextSource_check_spec in H. Qed.

Lemma csum_foldr {A} (f : A -> TransferStats) l :
  csum f l = foldr cadd czero (counters ∘ f <$> l).
Proof. induction l as [|x l IH]; [done|]. by rewrite csum_cons, IH. Qed.

(** Moving a source between the queue and the hands of a thread. *)
Lemma Inv_move σ q' opening' held' :
  Inv σ -> ledger q' = ledger (queue σ) ->
  (exists old new, sourceQueue_ (queue σ) ++ opening σ ++ held σ ≡ₚ old
     /\ sourceQueue_ q' ++ opening' ++ held' ≡ₚ new
     /\ range <$> new = range <$> old /\ counters ∘ transferStats_ <$> new = counters ∘ transferStats_ <$> old) ->
  numBlocksDequeued_ q' - Zlen held' = numBlocksDequeued_ (queue σ) - Zlen (held σ) ->
  Forall (fun s => localErrCode_ (transferStats_ s) = OK \/ size_ s = 0) held' ->
  Inv (σ <| queue := q' |> <| opening := opening' |> <| held := held' |> <| started := true |>).
Proof.
  intros [Hwf Hsrc Hheld Hports Hack Hloan Hcnt Hbytes Hcov Hstart] Hled (old & new & Hold & Hnew & Hr & Hc) Hd Hok.
  apply ledger_ext in Hled as (Esh & Etot & Efail & Ekeys & Hwp & Hdue & Hdel).
  assert (csum transferStats_ new = csum transferStats_ old) as Hcs.
  { by rewrite !csum_foldr, Hc. }
  assert (total_size new = total_size old) as Hts.
  { unfold total_size. assert (snd <$> (range <$> new) = snd <$> (range <$> old)) as H by (by rewrite Hr).
    rewrite <- !list_fmap_compose in H. f_equal. exact H. }
  apply csum_perm with (f := transferStats_) in Hold as Hcold. apply csum_perm with (f := transferStats_) in Hnew as Hcnew.
  apply total_size_perm in Hold as Htold. apply total_size_perm in Hnew as Htnew.
  rewrite !csum_app in Hcold, Hcnew. rewrite !total_size_app in Htold, Htnew.
  constructor; simpl; unfold sources in *; simpl; rewrite ?Efail, ?Etot; try done.
  - rewrite Ekeys. tauto.
  - assert (Forall (ok_source (queue σ)) old) as Hso.
    { rewrite <- Hold. rewrite !Forall_app in Hsrc. rewrite !Forall_app. tauto. }
    assert (Forall (ok_source q') new) as Hsn.
    { rewrite Forall_lookup in Hso |- *. intros i s Hi.
      assert ((range <$> old) !! i = Some (range s)) as Hi' by (by rewrite <- Hr, list_lookup_fmap, Hi).
      apply list_lookup_fmap_Some in Hi' as (s0 & [= Em Eo Es] & Hi').
      apply Hdel, (ok_suffix _ s s0), (Hso _ _ Hi'). split; [congruence|]. exists 0.
      destruct (Hso _ _ Hi') as (_ & ? & _). lia. }
    rewrite <- Hnew in Hsn. rewrite !Forall_app in Hsrc. rewrite !Forall_app in Hsn.
    rewrite !Forall_app. split_and!; try tauto; (eapply Forall_impl; [|done]); tauto.
  - lia.
  - rewrite <- Hcnt. autorewrite with sums. revert Hcs Hcold Hcnew. csolve.
  - lia.
  - destruct Hcov as [conf Hcov]. exists conf. intros i x. rewrite Hdue, <- (Hcov i x).
    apply (fmap_Permutation range) in Hold, Hnew. apply (rtimes_perm i x) in Hold, Hnew.
    rewrite Hr in Hnew. autorewrite with sums in *. lia.
Qed.

Lemma Inv_next σ s st q' :
  Inv σ ->
  getNext (queue σ) (TryOpen s st) q' ->
  Inv (σ <| queue := q' |> <| opening := s :: opening σ |> <| started := true |>).
Proof.
  intros Hinv (Hled & Hd & Hq)%getNextSource_spec.
  assert (Inv (σ <| queue := q' |> <| opening := s :: opening σ |> <| held := held σ |>
    <| started := true |>)) as H; [|by destruct σ].
  apply Inv_move; try done; [|lia|apply Hinv].
  exists (s :: sourceQueue_ q' ++ opening σ ++ held σ), (s :: sourceQueue_ q' ++ opening σ ++ held σ).
  split_and!; try done; [by rewrite <- Hq|]. cbn [app]. symmetry. apply Permutation_middle.
Qed.

Lemma open_source_spec env s q e s' :
  open_source env s q = (e, s') -> ok_source q s ->
  range s' = range s /\ counters (transferStats_ s') = counters (transferStats_ s)
  /\ (e = OK -> localErrCode_ (transferStats_ s') = OK \/ size_ s' = 0).
Proof.
  unfold open_source, source_open. intros H (_ & _ & Hd). case_bool_decide as Ed.
  - simplify_eq. split_and!; [done..|]. intros _. right. by apply Hd.
  - destruct (directReads (meta q s)), (0 <=? fd (meta q s)); simplify_eq/=; auto.
Qed.

Lemma perm_put {A} (q o h : list A) s : q ++ o ++ s :: h ≡ₚ s :: q ++ o ++ h.
Proof. rewrite !app_assoc. symmetry. apply Permutation_middle. Qed.
Lemma perm_take {A} (q l r h : list A) s : q ++ (l ++ s :: r) ++ h ≡ₚ s :: q ++ (l ++ r) ++ h.
Proof. rewrite <- !app_assoc. cbn [app]. apply perm_put. Qed.

Lemma opening_started σ l s r : Inv σ -> opening σ = l ++ s :: r -> started σ = true.
Proof.
  intros Hinv Ho. destruct (started σ) eqn:E; [done|].
  destruct (inv_start _ Hinv E) as (Hn & _). rewrite Hn in Ho. by destruct l.
Qed.

Lemma Inv_open env σ l s r s' :
  Inv σ -> opening σ = l ++ s :: r -> open_source env s (queue σ) = (OK, s') ->
  Inv (σ <| opening := l ++ r |> <| held := s' :: held σ |>
         <| queue := getNextSource_opened (queue σ) |>).
Proof.
  intros Hinv Ho E. pose proof (opening_started _ _ _ _ Hinv Ho) as Hs.
  assert (ok_source (queue σ) s) as Hok.
  { pose proof (inv_src _ Hinv) as H. rewrite Forall_forall in H. apply H. unfold sources.
    rewrite Ho, !elem_of_app, elem_of_cons. tauto. }
  destruct (open_source_spec _ _ _ _ _ E Hok) as (Hr & Hc & Herr).
  assert (Inv (σ <| queue := getNextSource_opened (queue σ) |> <| opening := l ++ r |>
    <| held := s' :: held σ |> <| started := true |>)) as H.
  - apply Inv_move; try done.
    + exists (s :: sourceQueue_ (queue σ) ++ (l ++ r) ++ held σ), (s' :: sourceQueue_ (queue σ) ++ (l ++ r) ++ held σ).
      split_and!.
      * rewrite Ho. apply perm_take.
      * apply perm_put.
      * by rewrite !fmap_cons, Hr.
      * rewrite !fmap_cons. f_equal. exact Hc.
    + cbn [getNextSource_opened length]. simpl. lia.
    + constructor; [by apply Herr|apply Hinv].
  - destruct σ. simpl in Hs. subst. exact H.
Qed.

Lemma Inv_open_failed env σ l s r e s' :
  Inv σ -> opening σ = l ++ s :: r -> open_source env s (queue σ) = (e, s') ->
  Inv (σ <| opening := l ++ r |> <| unreadable := source_close s' :: unreadable σ |>
         <| queue := getNextSource_failed (source_close s') (queue σ) |>).
Proof.
  intros Hinv Ho E. pose proof (opening_started _ _ _ _ Hinv Ho) as Hs.
  assert (ok_source (queue σ) s) as Hok.
  { pose proof (inv_src _ Hinv) as H. rewrite Forall_forall in H. apply H. unfold sources.
    rewrite Ho, !elem_of_app, elem_of_cons. tauto. }
  destruct (open_source_spec _ _ _ _ _ E Hok) as (Hr & Hc & _).
  destruct Hinv as [Hwf Hsrc Hheld Hports Hack Hloan Hcnt Hbytes Hcov Hstart].
  assert (range (source_close s') = range s) as Hr' by exact Hr.
  assert (size_ (source_close s') = size_ s) as Hz by (by injection Hr').
  assert (ok_source (queue σ) (source_close s')) as Hok'.
  { apply (ok_suffix _ _ s); [|done]. injection Hr' as Em Eo Es. split; [exact Em|]. exists 0. destruct Hok as (_ & ? & _).
    rewrite Hz. split_and!; [done| |lia|done]. rewrite Z.add_0_r. exact Eo. }
  unfold sources in *. rewrite Ho in *. autorewrite with sums in *.
  constructor; simpl; unfold sources; simpl; autorewrite with sums in *; try done.
  - unfold ok_source, deletes_nothing, to_delete in *. simpl in *. tauto.
  - cbn [id]. change (transferStats_ (source_close s')) with (transferStats_ s'). rewrite Hc.
    revert Hcnt. csolve.
  - lia.
  - destruct Hcov as [conf Hcov]. exists conf. intros i x. specialize (Hcov i x).
    change (due _ i x) with (due (queue σ) i x). rewrite <- Hcov. autorewrite with sums in *.
    rewrite Hr'. lia.
  - rewrite Hs. done.
Qed.

Lemma Inv_stat_failed σ name :
  Inv σ ->
  Inv (σ <| queue := queue σ <| failedSourceStats_ := failedSourceStats_ (queue σ) ++
              [setLocalErrorCode BYTE_SOURCE_READ_ERROR (TransferStats_make name)] |> |>).
Proof.
  intros [Hwf Hsrc Hheld Hports Hack Hloan Hcnt Hbytes Hcov Hstart].
  assert (forall l, csum id (l ++ [setLocalErrorCode BYTE_SOURCE_READ_ERROR (TransferStats_make name)])
    = csum id l) as Hz.
  { intros l. rewrite csum_app. change (csum id [_]) with czero. csolve. }
  constructor; simpl; unfold sources in *; simpl; rewrite ?Hz; done.
Qed.

(** *** All interleavings *)

(** The state of a configured queue, its options aside. *)
Definition fresh_state (q : DirectorySourceQueue) :=
  (sourceQueue_ q, sharedFileData_ q, previouslyTransferredChunks_ q, failedSourceStats_ q,
   numBlocksDequeued_ q, totalFileSize_ q).
Lemma setRootDir_fresh env dir q : fresh_state (setRootDir env dir q).2 = fresh_state q.
Proof. unfold setRootDir. by repeat case_bool_decide. Qed.
Lemma configured_fresh env q :
  configured env q -> fresh_state q = ([], [], ∅, [], 0, 0).
Proof.
  induction 1; try done; [by apply (setRootDir_fresh env root DirectorySourceQueue_default)|].
  unfold setFollowSymlinks. destruct b; [|done]. by rewrite setRootDir_fresh.
Qed.

Lemma Inv_initial env σ : initial env σ -> Inv σ.
Proof.
  intros (q & ports & Hq%configured_fresh & -> & Hnd). injection Hq as Hsq Hsh Hpc Hfs Hnd0 Htot.
  set (ths := (fun p => (p, (ThreadTransferHistory_make p, TransferStats_default))) <$> ports).
  assert (histories ths = []) as Hh by (unfold ths; clear; by induction ports).
  assert (csum (fun e => e.2.2) ths = czero) as Hc.
  { unfold ths. clear. induction ports as [|p ports IH]; [done|]. by rewrite fmap_cons, csum_cons, IH. }
  assert (credited ths = 0) as Hcr by (unfold ths, credited; clear; induction ports; done).
  constructor; simpl; unfold sources; simpl; rewrite ?Hh, ?Hc, ?Hcr, ?Hsq, ?Hfs, ?Hnd0, ?Htot; try done.
  - unfold wf_previous, keys. rewrite Hpc, Hsh. split; [apply map_Forall_empty|constructor].
  - unfold ths. rewrite <- list_fmap_compose. by rewrite list_fmap_id.
  - unfold ths. apply Forall_fmap. by apply Forall_true.
  - exists []. intros i x. unfold due. by rewrite Hsh.
Qed.

Lemma step_Inv env σ σ' : step env σ σ' -> Inv σ -> Inv σ'.
Proof.
  intros Hstep Hinv. destruct Hstep.
  - destruct (createIntoQueue_enqueued env path info (queue σ)) as (i' & q2 & E & Hen);
      [apply Hinv|done|]. simplify_eq. by eapply Inv_enqueued.
  - by apply Inv_stat_failed.
  - by apply Inv_same.
  - by apply Inv_same.
  - by apply Inv_same.
  - by apply Inv_same.
  - by apply Inv_init_finished.
  - destruct (Inv_resume σ infos) as (q2 & E & ?); [done..|]. by simplify_eq.
  - by apply Inv_same.
  - destruct (getNextSource_spec _ _ _ H) as (? & ? & ?). destruct next; try (by apply Inv_same).
    by destruct (H0 source status).
  - by eapply Inv_next.
  - by eapply Inv_open.
  - by eapply Inv_open_failed.
  - destruct (Inv_send σ l s r s1 stats th1 p h ts th2) as (? & ? & ? & ? & E & ?); [done..|].
    by simplify_eq.
  - destruct (Inv_checkpoint σ th1 p h ts th2 c false) as (? & ? & ? & ? & E & ?); [done..|].
    unfold setLocalCheckpoint in *. by simplify_eq.
  - destruct (Inv_global_checkpoint σ c) as (? & ? & E & ?); [done..|]. by simplify_eq.
  - destruct (Inv_sizes _ _ _ _ _ _ Hinv H) as (_ & _ & _ & [? Hc] & _).
    eapply Inv_acknowledge; [done..| |done]. split; simpl; [lia|].
    intros c E. specialize (Hc c E). lia.
  - destruct (Inv_return_unacked σ th1 p h ts th2) as (? & ? & ? & E & ?); [done..|]. by simplify_eq.
  - eapply Inv_acknowledge; [done..| |done]. by destruct (Inv_sizes _ _ _ _ _ _ Hinv H) as (_ & _ & _ & ? & _).
  - eapply Inv_acknowledge; [done..| |done]. by destruct (Inv_sizes _ _ _ _ _ _ Hinv H) as (_ & _ & _ & ? & _).
Qed.

Lemma reachable_Inv env σ : reachable env σ -> Inv σ.
Proof.
  intros (σ0 & Hi & Hsteps). apply Inv_initial in Hi.
  induction Hsteps as [|σ1 σ2 σ3 Hs _ IH]; [done|]. apply IH. by eapply step_Inv.
Qed.

(** *** Discovery as a part of a run

    [explore] and [buildQueueSynchronously] are sequences of the discovery
    steps, so that the states they lead to are reachable. *)
Section discovery.
Context (env : Env).
Context (sizes : forall path k n, lstat env path = Some (k, n) \/ stat env path = Some (k, n) -> 0 <= n).
#[local] Abbreviation run σ q q' := (rtc (step env) (σ <| queue := q |>) (σ <| queue := q' |>)).

Lemma run_once σ q q' : step env (σ <| queue := q |>) (σ <| queue := q' |>) -> run σ q q'.
Proof. apply rtc_once. Qed.

Lemma pollAbort_run σ w b w' : pollAbort env w = (b, w') -> run σ (walkQueue w) (walkQueue w').
Proof. intros [= <- <-]. apply run_once. exact (step_poll_abort env (σ <| queue := walkQueue w |>)). Qed.

Lemma explore_entry_run σ rel e w w' :
  explore_entry env rel e w = Some w' -> run σ (walkQueue w) (walkQueue w').
Proof.
  assert (forall f r, walkQueue (explore_directory env f r w) = walkQueue w) as Hd.
  { intros. unfold explore_directory. by repeat case_match. }
  destruct e as [t name]. unfold explore_entry. intros H.
  case_hyp H; simplify_eq; [apply rtc_refl|]. case_hyp H; simplify_eq; [rewrite Hd; apply rtc_refl|].
  destruct (entry_stat _ _ _) as [[[kind size] path]|] eqn:Es; simplify_eq; [|apply rtc_refl].
  destruct kind; simplify_eq; rewrite ?Hd; try apply rtc_refl.
  case_hyp H; simplify_eq; [|apply rtc_refl].
  destruct (createIntoQueue _ _ _ _) as [[i q']|] eqn:E; simplify_eq. apply run_once.
  refine (step_create env (σ <| queue := walkQueue w |>) _ _ _ _ _ E). simpl.
  unfold entry_stat in Es. repeat case_hyp Es; simplify_eq; eauto.
Qed.

Lemma explore_entries_run σ rel listing err w w' :
  explore_entries env rel listing err w = Some w' -> run σ (walkQueue w) (walkQueue w').
Proof.
  revert w. induction listing as [|e listing IH]; intros w; cbn [explore_entries];
    destruct (pollAbort env w) as [b w1] eqn:Ep; apply (pollAbort_run σ) in Ep; intros H;
    (etransitivity; [exact Ep|]); destruct b; simplify_eq; try apply rtc_refl.
  - destruct err; apply rtc_refl.
  - destruct (explore_entry _ _ _ _) as [w2|] eqn:E; simplify_eq.
    etransitivity; [by eapply explore_entry_run|by apply IH].
Qed.

Lemma explore_loop_run σ fuel w w' :
  explore_loop fuel env w = Some w' -> run σ (walkQueue w) (walkQueue w').
Proof.
  revert w. induction fuel as [|fuel IH]; intros w; cbn [explore_loop];
    destruct (todoList w) as [|rel todo]; intros H; simplify_eq; try apply rtc_refl.
  destruct (pollAbort env w) as [b w1] eqn:Ep; apply (pollAbort_run σ) in Ep.
  etransitivity; [exact Ep|]. destruct b; simplify_eq; [apply rtc_refl|].
  destruct (opendir _ _) as [[listing err]|].
  - destruct (explore_entries _ _ _ _ _) as [w2|] eqn:E; simplify_eq.
    etransitivity; [|by apply IH]. by apply (explore_entries_run σ) in E.
  - etransitivity; [|by apply IH]. apply run_once.
    exact (step_directory_failed env (σ <| queue := walkQueue w1 |>) _).
Qed.

Lemma enqueueFiles_run σ infos q res infos' q' :
  enqueueFiles env infos q = Some (res, infos', q') -> run σ q q'.
Proof.
  revert q res infos'. induction infos as [|info infos IH]; intros q res infos' H; simpl in H;
    simplify_eq; [apply rtc_refl|].
  etransitivity; [apply run_once; exact (step_poll_abort env (σ <| queue := q |>))|].
  case_hyp H; simplify_eq; [apply rtc_refl|].
  assert (forall info', 0 <= fi_fileSize info' ->
    (let* (info, q) := createIntoQueue env (rootDir_ q ++ fi_fileName info) info'
                         (q <| abortChecks := S (abortChecks q) |>) in
     let* (res, rest, q) := enqueueFiles env infos q in Some (res, info :: rest, q)) = Some (res, infos', q') ->
    run σ (q <| abortChecks := S (abortChecks q) |>) q') as Hgo.
  { clear H. intros info' Hsz H'. destruct (createIntoQueue _ _ _ _) as [[i q1]|] eqn:E; simplify_eq.
    destruct (enqueueFiles _ _ _) as [[[r rest] q2]|] eqn:E2; simplify_eq.
    etransitivity; [|by eapply IH]. apply run_once.
    exact (step_create env (σ <| queue := q <| abortChecks := S (abortChecks q) |> |>) _ _ _ _ Hsz E). }
  case_hyp H; [|bool_to_prop; by eapply Hgo].
  destruct (stat env _) as [[k n]|] eqn:Es; simplify_eq; [eapply Hgo; [|exact H]; simpl; eauto|].
  apply run_once. exact (step_stat_failed env (σ <| queue := q <| abortChecks := S (abortChecks q) |> |>) _).
Qed.

Lemma file_info_run σ q infos gen : run σ q (q <| fileInfo_ := infos |> <| fileInfoGenerator_ := gen |>).
Proof. apply run_once. exact (step_file_info env (σ <| queue := q |>) infos gen). Qed.

Lemma enqueueGenerated_run σ batches q res q' :
  enqueueGenerated env batches q = Some (res, q') -> run σ q q'.
Proof.
  revert q. induction batches as [|files batches IH]; intros q H; simpl in H; simplify_eq.
  { apply (file_info_run σ q (fileInfo_ q)). }
  destruct (enqueueFiles _ _ _) as [[[r files'] q1]|] eqn:E; simplify_eq.
  etransitivity; [by eapply enqueueFiles_run|]. case_hyp H; simplify_eq.
  - etransitivity; [|by apply IH]. apply (file_info_run σ q1 _ (fileInfoGenerator_ q1)).
  - apply (file_info_run σ q1).
Qed.

Lemma buildQueue_run σ fuel q res q' :
  buildQueueSynchronously fuel env q = Some (res, q') -> run σ q q'.
Proof.
  unfold buildQueueSynchronously. intros H. case_hyp H; simplify_eq; [apply rtc_refl|].
  etransitivity; [apply run_once; exact (step_init_called env (σ <| queue := q |>))|].
  set (q1 := queue (σ <| queue := q |>) <| initCalled_ := true |>). change (q <| initCalled_ := true |>) with q1 in H.
  destruct (if exploreDirectory_ q1 then _ else _) as [[r q2]|] eqn:E; simplify_eq.
  etransitivity; [|apply run_once; exact (step_init_finished env (σ <| queue := q2 |>))].
  destruct (exploreDirectory_ q1).
  - unfold explore in E. case_hyp E; simplify_eq.
    destruct (explore_loop _ _ _) as [w|] eqn:El; simplify_eq. by apply (explore_loop_run σ) in El.
  - unfold enqueueFileInfo in E. destruct (enqueueFiles _ _ _) as [[[r' files] q3]|] eqn:Ef; simplify_eq.
    etransitivity; [by eapply enqueueFiles_run|].
    etransitivity; [apply (file_info_run σ q3 files (fileInfoGenerator_ q3))|].
    repeat case_hyp E; simplify_eq; [by eapply enqueueGenerated_run|apply rtc_refl..].
Qed.
End discovery.

(** ** The end of a transfer: [Sender::finish]

    From the point where all threads have been joined.  [threadStats] is what
    [moveStats] took out of the threads: the operations on the histories that
    follow change the threads' own copies. *)
Fixpoint finishHistories (allSourcesAcked full_reporting : bool) (ths : Controller)
    (q : DirectorySourceQueue)
    : option (list TransferStats * Controller * DirectorySourceQueue) :=
  match ths with
  | [] => Some ([], [], q)
  | (p, (h, ts)) :: ths =>
      let* (h, ts, q) :=
        if allSourcesAcked then Some (markAllAcknowledged h, ts, q)
        else returnUnackedSourcesToQueue h ts q in
      let* (stats, h) :=
        if full_reporting then popAckedSourceStats h else Some ([], h) in
      let* (rest, ths, q) := finishHistories allSourcesAcked full_reporting ths q in
      Some (stats ++ rest, (p, (h, ts)) :: ths, q)
  end.
Definition finish (full_reporting : bool) (ths : Controller) (q : DirectorySourceQueue)
    : option TransferReport :=
  let threadStats := (fun e : Z * (ThreadTransferHistory * TransferStats) => e.2.2) <$> ths in
  let allSourcesAcked := existsb (fun s => bool_decide (getErrorCode s = OK)) threadStats in
  let* (transferredSourceStats, ths, q) := finishHistories allSourcesAcked full_reporting ths q in
  let '(failedSourceStats, q) := getFailedSourceStats q in
  let* _ := if full_reporting
            then validateTransferStats transferredSourceStats failedSourceStats
                   ((fun e : Z * (ThreadTransferHistory * TransferStats) => e.2.2) <$> ths)
            else Some tt in
  Some (TransferReport_sender transferredSourceStats failedSourceStats threadStats
          (failedDirectories_ q) (totalFileSize_ q) (numEntries_ q) (previouslySentBytes_ q)
          (initFinished_ q)).

(** [returnUnackedSourcesToQueue] applies a checkpoint of its own making, which
    [validateCheckpoint] takes for a contradiction of a last checkpoint with
    received bytes of the block with sequence id and offset 0. *)
Definition unacked_ok (h : ThreadTransferHistory) : Prop :=
  forall c, lastCheckpoint_ h = Some c ->
    numBlocks c < numAcknowledged_ h
    \/ lastBlockSeqId c <> 0 \/ lastBlockOffset c <> 0 \/ lastBlockReceivedBytes c = 0.

Lemma validateCheckpoint_unacked h :
  ack_ok h -> unacked_ok h ->
  validateCheckpoint h (set_numBlocks (numAcknowledged_ h) Checkpoint_default) false <> Some INVALID_CHECKPOINT.
Proof.
  intros [_ Hack] Hok. unfold validateCheckpoint. destruct (lastCheckpoint_ h) as [c|] eqn:E; [|done].
  specialize (Hack c eq_refl). specialize (Hok c E). simpl.
  repeat case_goal; bool_to_prop; simplify_eq; try done; lia.
Qed.

Lemma returnUnacked_acks h ts q h' ts' q' :
  ack_ok h -> unacked_ok h -> returnUnackedSourcesToQueue h ts q = Some (h', ts', q') ->
  numAcknowledged_ h' = Zlen (history_ h').
Proof.
  intros Hack Hok H. pose proof (validateCheckpoint_unacked h Hack Hok) as Hv. destruct Hack as [Ha _].
  unfold returnUnackedSourcesToQueue, setCheckpointAndReturnToQueue in H. simpl in H.
  rewrite (proj2 (Z.ltb_ge _ _)) in H by lia.
  destruct (validateCheckpoint _ _ _) as [e|]; [|done].
  rewrite bool_decide_eq_false_2 in H by congruence.
  destruct (failSources_spec (Z.to_nat (Zlen (history_ h) - numAcknowledged_ h)) q
    (set_numBlocks (numAcknowledged_ h) Checkpoint_default) (history_ h) [] ts) as (ret & ts1 & E & _); [lia|].
  rewrite E in H. case_hyp H; [|done]. simplify_eq. simpl. rewrite length_take. lia.
Qed.

Lemma popAcked_spec h :
  numAcknowledged_ h = Zlen (history_ h) ->
  exists stats h', popAckedSourceStats h = Some (stats, h') /\ history_ h' = []
    /\ csum id stats = csum transferStats_ (history_ h).
Proof.
  intros Ha. unfold popAckedSourceStats. rewrite Ha, Z.eqb_refl. eexists _, _. split_and!; [done..|].
  rewrite <- (csum_perm transferStats_ (reverse (history_ h)) (history_ h)) by apply reverse_Permutation.
  generalize (reverse (history_ h)). induction l as [|s l IH]; [done|].
  by rewrite fmap_cons, !csum_cons, IH.
Qed.

Definition thread_stats (ths : Controller) : list TransferStats :=
  (fun e : Z * (ThreadTransferHistory * TransferStats) => e.2.2) <$> ths.
Lemma csum_thread_stats ths : csum id (thread_stats ths) = csum (fun e => e.2.2) ths.
Proof. induction ths as [|e ths IH]; [done|]. unfold thread_stats. by rewrite fmap_cons, !csum_cons, <- IH. Qed.

Lemma finishHistories_step acked full h ts q :
  Forall (fun s => 0 <= size_ s) (history_ h ++ sourceQueue_ q) ->
  Zlen (history_ h) <= numBlocksDequeued_ q ->
  ack_ok h -> (full = true -> acked = true \/ unacked_ok h) ->
  exists h1 ts1 q1,
    (if acked then Some (markAllAcknowledged h, ts, q) else returnUnackedSourcesToQueue h ts q)
      = Some (h1, ts1, q1)
    /\ (full = true -> numAcknowledged_ h1 = Zlen (history_ h1)) /\ ledger q1 = ledger q
    /\ numBlocksDequeued_ q1 - Zlen (history_ h1) = numBlocksDequeued_ q - Zlen (history_ h)
    /\ conserves (history_ h ++ sourceQueue_ q) (history_ h1 ++ sourceQueue_ q1) ts ts1
    /\ Forall (fun s => 0 <= size_ s) (sourceQueue_ q1).
Proof.
  intros Hsz Hloan Hack Hun. destruct acked.
  - eexists _, _, _. split_and!; try done; [by apply conserves_refl|]. by apply Forall_app in Hsz as [_ ?].
  - destruct (returnUnacked_spec h ts q) as (h1 & ts1 & q1 & E & H1 & _ & _ & H4 & _);
      [apply Hack|simpl; lia|done|].
    eexists _, _, _. split_and!; [done| | |done|done|].
    + intros Hf. destruct (Hun Hf) as [|?]; [done|]. by eapply returnUnacked_acks.
    + unfold returnUnackedSourcesToQueue in E. repeat case_hyp E; simplify_eq.
      by eapply setCheckpoint_ledger.
    + destruct H4 as (_ & Hf & _). apply Forall_app in Hf as [_ Hf].
      eapply Forall_impl; [exact Hf|]. by intros s (s0 & _ & _ & r & _ & _ & _ & ?).
Qed.

Lemma finishHistories_spec acked full ths q :
  Forall (fun s => 0 <= size_ s) (histories ths ++ sourceQueue_ q) ->
  Zlen (histories ths) <= numBlocksDequeued_ q ->
  Forall (fun e => ack_ok e.2.1 /\ (full = true -> acked = true \/ unacked_ok e.2.1)) ths ->
  exists stats ths' q', finishHistories acked full ths q = Some (stats, ths', q')
    /\ ledger q' = ledger q
    /\ (full = true ->
        cadd (cadd (csum id stats) (csum transferStats_ (sourceQueue_ q'))) (csum (fun e => e.2.2) ths)
        = cadd (csum transferStats_ (histories ths ++ sourceQueue_ q)) (csum (fun e => e.2.2) ths')).
Proof.
  revert q. induction ths as [|[p [h ts]] ths IH]; intros q Hsz Hloan Hok; cbn [finishHistories].
  { eexists _, _, _. split_and!; [done..|]. intros _. rewrite !csum_nil.
    change (histories [] ++ sourceQueue_ q) with (sourceQueue_ q). csolve. }
  inversion_clear Hok as [|? ? [Hack Hun] Hok'].
  rewrite histories_cons, length_app in *. cbn [fst snd] in Hack, Hun. rewrite !Forall_app in Hsz.
  destruct (finishHistories_step acked full h ts q) as (h1 & ts1 & q1 & -> & Ha1 & Hl1 & Hd1 & Hc1 & Hs1);
    [apply Forall_app; tauto|lia|done|done|].
  assert (exists st h2, (if full then popAckedSourceStats h1 else Some ([], h1)) = Some (st, h2)
    /\ (full = true -> csum id st = csum transferStats_ (history_ h1))) as (st & h2 & -> & Hst).
  { destruct full; [|eexists _, _; done].
    destruct (popAcked_spec h1) as (st & h2 & E & _ & Hst); [auto|]. eauto. }
  destruct (IH q1) as (rest & ths' & q' & -> & Hl' & Hc'); [apply Forall_app; tauto|lia|done|].
  eexists _, _, _. split_and!; [done|congruence|]. intros Hf.
  specialize (Hc' Hf). specialize (Hst Hf). destruct Hc1 as (Hc1 & _).
  rewrite !csum_app in Hc1. rewrite <- Hst in Hc1.
  rewrite !csum_app in Hc'. rewrite !csum_app, !csum_cons. cbn [fst snd].
  revert Hc1 Hc'. csolve.
Qed.

Lemma getFailedSourceStats_spec q :
  csum id (getFailedSourceStats q).1
  = cadd (csum id (failedSourceStats_ q)) (csum transferStats_ (sourceQueue_ q)).
Proof.
  unfold getFailedSourceStats. simpl. remember (length (sourceQueue_ q)) as n eqn:Hn.
  revert q Hn. induction n as [|n IH]; intros q Hn; simpl.
  { destruct (sourceQueue_ q); [|done]. rewrite csum_nil. csolve. }
  destruct (pq_pop q) as [[s q1]|] eqn:E.
  - destruct (pq_pop_spec _ _ _ E) as (E1 & Hp & _). rewrite IH.
    + simpl. rewrite csum_app, <- (csum_perm _ _ _ Hp), !csum_cons, csum_nil, E1. simpl. csolve.
    + simpl. apply Permutation_length in Hp. simpl in Hp. lia.
  - apply pq_pop_none in E. rewrite E in Hn. done.
Qed.

Lemma finishHistories_ledger acked full ths q stats ths' q' :
  finishHistories acked full ths q = Some (stats, ths', q') -> ledger q' = ledger q.
Proof.
  revert q stats ths' q'. induction ths as [|[p [h ts]] ths IH]; intros q stats ths' q' H;
    cbn [finishHistories] in H; [by simplify_eq|].
  destruct (if acked then _ else _) as [[[h1 ts1] q1]|] eqn:E; [|done].
  assert (ledger q1 = ledger q) as Hl.
  { destruct acked; [by simplify_eq|]. unfold returnUnackedSourcesToQueue in E.
    repeat case_hyp E; simplify_eq. by eapply setCheckpoint_ledger. }
  rewrite <- Hl. clear Hl E. repeat case_hyp H; simplify_eq; eapply IH; eassumption.
Qed.
Lemma getFailedSourceStats_loop_total n q :
  totalFileSize_ (getFailedSourceStats_loop n q) = totalFileSize_ q.
Proof.
  revert q. induction n as [|n IH]; intros q; [done|]. cbn [getFailedSourceStats_loop].
  destruct (pq_pop q) as [[s q1]|] eqn:E; [|done]. apply pq_pop_spec in E as (E & _).
  rewrite IH. simpl. by rewrite E.
Qed.
Lemma finish_report full ths q report :
  finish full ths q = Some report ->
  exists transferred failed dirs n prev fin, report =
    TransferReport_sender transferred failed (thread_stats ths) dirs (totalFileSize_ q) n prev fin.
Proof.
  unfold finish. intros H.
  destruct (finishHistories _ _ _ _) as [[[stats ths'] q1]|] eqn:E; [|done].
  apply finishHistories_ledger, ledger_ext in E as (_ & Et & _).
  unfold getFailedSourceStats in H. repeat case_hyp H; simplify_eq;
    rewrite getFailedSourceStats_loop_total, Et; by do 6 eexists.
Qed.

(** *** Sums that vanish *)

Lemma rtimes_empty i x ss : Forall (fun s => size_ s = 0) ss -> rtimes i x (range <$> ss) = 0.
Proof. rewrite <- times_ranges. apply times_empty. Qed.


Lemma total_size_nonneg q ss : Forall (ok_source q) ss -> 0 <= total_size ss.
Proof.
  induction 1 as [|s ss (_ & ? & _) _ IH]; [done|]. rewrite total_size_cons. lia.
Qed.
Lemma total_size_zero q ss :
  Forall (ok_source q) ss -> Forall (fun s => size_ s = 0) ss <-> total_size ss = 0.
Proof.
  induction 1 as [|s ss (_ & ? & _) Hss IH]; [by rewrite Forall_nil|].
  rewrite Forall_cons, IH, total_size_cons. pose proof (total_size_nonneg _ _ Hss). lia.
Qed.
Lemma owed_nonneg q s : ok_source q s -> 0 <= owed s.
Proof. intros (_ & ? & _). unfold owed. case_bool_decide; lia. Qed.
Lemma total_owed_nonneg q ss : Forall (ok_source q) ss -> 0 <= total_owed ss.
Proof.
  induction 1 as [|s ss Hs _ IH]; [done|]. rewrite total_owed_cons. apply owed_nonneg in Hs. lia.
Qed.
Lemma total_owed_zero q ss :
  Forall (ok_source q) ss -> Forall (fun s => owed s = 0) ss <-> total_owed ss = 0.
Proof.
  induction 1 as [|s ss Hs Hss IH]; [by rewrite Forall_nil|].
  rewrite Forall_cons, IH, total_owed_cons. pose proof (total_owed_nonneg _ _ Hss).
  apply owed_nonneg in Hs. lia.
Qed.

(** ** Properties *)


(** The bytes credited to the threads are accounted for.
    In every reachable state the effective data bytes of all threads, the sizes
    of the blocks not yet sent and of those whose sending failed, and the
    unreadable blocks add up to the total size announced to the receiver.  So
    the comparison the final report makes is exact: the threads' bytes equal
    the total iff nothing with bytes in it is left. *)
Theorem credited_bytes_exact env σ :
  reachable env σ ->
  let left := total_size (sourceQueue_ (queue σ)) + total_size (opening σ) + total_size (held σ)
              + total_owed (histories (threads σ)) + total_size (unreadable σ) in
  credited (threads σ) + left = totalFileSize_ (queue σ) /\ 0 <= left
  /\ (credited (threads σ) = totalFileSize_ (queue σ) <->
      Forall (fun s => size_ s = 0) (sourceQueue_ (queue σ) ++ opening σ ++ held σ ++ unreadable σ)
      /\ Forall (fun s => owed s = 0) (histories (threads σ))).
Proof.
  intros H%reachable_Inv. simpl. pose proof (inv_bytes _ H) as Hb.
  pose proof (inv_src _ H) as Hs. unfold sources in Hs. rewrite !Forall_app in Hs.
  destruct Hs as (H1 & H2 & H3 & H4 & H5).
  rewrite !Forall_app, !(total_size_zero (queue σ)) by done. rewrite (total_owed_zero (queue σ)) by done.
  pose proof (total_size_nonneg _ _ H1). pose proof (total_size_nonneg _ _ H2).
  pose proof (total_size_nonneg _ _ H3). pose proof (total_size_nonneg _ _ H5).
  pose proof (total_owed_nonneg _ _ H4). lia.
Qed.

(** The checks at the end of a transfer hold.  Whatever
    the interleaving of discovery, sending, failures, retries and checkpoints,
    when the threads have stopped [Sender::finish] does not abort: each history
    is fully acknowledged when its statistics are taken, and the failed
    attempts, data bytes, effective bytes and blocks counted by the sources,
    sent and failed, add up to those counted by the threads
    ([validateTransferStats]).  The only condition is on the last checkpoint of
    a thread ([unacked_ok]) when no thread ended well. *)
Theorem finish_never_aborts env σ full_reporting :
  reachable env σ -> opening σ = [] -> held σ = [] ->
  (Exists (fun s => getErrorCode s = OK) (thread_stats (threads σ))
   \/ Forall (fun e => unacked_ok e.2.1) (threads σ)) ->
  exists report, finish full_reporting (threads σ) (queue σ) = Some report.
Proof.
  intros Hr Ho Hh Hun. apply reachable_Inv in Hr as [_ Hsrc _ _ Hack Hloan Hcnt _ _ _].
  rewrite Ho, Hh in *. unfold sources in Hsrc. rewrite Ho, Hh in Hsrc. autorewrite with sums in *.
  unfold finish. change (_ <$> threads σ) with (thread_stats (threads σ)).
  set (acked := existsb _ _).
  assert (Forall (fun e => ack_ok e.2.1 /\ (full_reporting = true -> acked = true \/ unacked_ok e.2.1))
    (threads σ)) as Hok.
  { destruct Hun as [Hex|Hun].
    - eapply Forall_impl; [exact Hack|]. intros e He. split; [done|]. intros _. left.
      apply existsb_exists. apply Exists_exists in Hex as (x & Hin & Hx). exists x.
      split; [by apply list_elem_of_In|by apply bool_decide_eq_true].
    - rewrite Forall_forall in Hack, Hun |- *. auto. }
  destruct (finishHistories_spec acked full_reporting (threads σ) (queue σ))
    as (stats & ths' & q' & -> & Hl & Hc).
  { apply Forall_app. split; (eapply Forall_impl; [apply Hsrc|]; by intros s (_ & ? & _)). }
  { simpl in Hloan. lia. }
  { done. }
  pose proof (getFailedSourceStats_spec q') as Hf. destruct (getFailedSourceStats q') as [failed q2].
  destruct full_reporting; [|eauto]. specialize (Hc eq_refl). simpl in Hf.
  unfold validateTransferStats. rewrite bool_decide_eq_true_2; [eauto|].
  change (_ <$> ths') with (thread_stats ths'). rewrite csum_thread_stats, Hf.
  apply ledger_ext in Hl as (_ & _ & -> & _). rewrite csum_app in Hc.
  revert Hc Hcnt. csolve.
Qed.

(** A report of OK means that everything was sent.  When
    the threads have stopped and [finish] reports OK, some thread was told by
    the receiver that it is done, no directory failed, and each byte to be sent
    is, exactly once, in a block whose sending succeeded or in a part confirmed
    by a checkpoint. *)
Theorem report_ok_means_all_sent env σ full_reporting report :
  reachable env σ -> opening σ = [] -> held σ = [] -> threads σ <> [] ->
  finish full_reporting (threads σ) (queue σ) = Some report ->
  getErrorCode (summary_ report) = OK ->
  Exists (fun s => getErrorCode s = OK) (thread_stats (threads σ))
  /\ Forall (fun s => localErrCode_ (transferStats_ s) = OK \/ size_ s = 0) (histories (threads σ))
  /\ exists confirmed, forall i md x, sharedFileData_ (queue σ) !! i = Some md ->
       rtimes i x (range <$> histories (threads σ)) + rtimes i x confirmed
       = b2z (missing (queue σ) md x).
Proof.
  intros Hr Ho Hh Hne Hfin Hok. apply reachable_Inv in Hr.
  apply finish_report in Hfin as (transferred & failed & dirs & n & prev & fin & ->).
  apply sender_report_verdict in Hok as (Hsum & _ & Hwell).
  pose proof (inv_bytes _ Hr) as Hb. pose proof (inv_src _ Hr) as Hs.
  unfold sources in Hs. rewrite !Forall_app in Hs. destruct Hs as (H1 & H2 & H3 & H4 & H5).
  assert (credited (threads σ) = totalFileSize_ (queue σ)) as Hc.
  { rewrite <- Hsum. unfold credited, thread_stats. by rewrite <- list_fmap_compose. }
  pose proof (total_size_nonneg _ _ H1). pose proof (total_size_nonneg _ _ H2).
  pose proof (total_size_nonneg _ _ H3). pose proof (total_size_nonneg _ _ H5).
  pose proof (total_owed_nonneg _ _ H4). split_and!.
  - destruct Hwell as [[Hall _]|[_ ?]]; [|done]. apply Forall_app in Hall as [Hall _].
    unfold thread_stats in *. destruct (threads σ) as [|e l]; [done|]. left. by apply Forall_inv in Hall.
  - assert (Forall (fun s => owed s = 0) (histories (threads σ))) as Hz
      by (apply (total_owed_zero (queue σ)); [done|lia]).
    eapply Forall_impl; [exact Hz|]. intros s. unfold owed. case_bool_decide; auto.
  - destruct (inv_cover _ Hr) as [conf Hcov]. exists conf. intros i md x Hi.
    specialize (Hcov i x). unfold due, sources in Hcov. rewrite Hi, Ho, Hh in Hcov. simpl in Hcov.
    rewrite <- Hcov. rewrite !fmap_app, !rtimes_app.
    rewrite (rtimes_empty i x (sourceQueue_ (queue σ))), (rtimes_empty i x (unreadable σ)); [lia|..];
      apply (total_size_zero (queue σ)); (done || lia).
Qed.

(** Giving sources back never fails.  In every reachable
    state the number of blocks on loan covers those held and those in the
    histories, so that applying a sane checkpoint to a thread, local or global,
    ending a block and returning the unacknowledged blocks all pass the check
    of [returnToQueue] and leave a state in which the same holds. *)
Theorem sources_can_always_be_returned env σ th1 p h ts th2 :
  reachable env σ -> threads σ = th1 ++ (p, (h, ts)) :: th2 ->
  numBlocksDequeued_ (queue σ) = Zlen (held σ) + Zlen (histories (threads σ))
  /\ (forall c g, sane_checkpoint c (queue σ) h -> 0 <= lastBlockReceivedBytes c ->
        is_Some (setCheckpointAndReturnToQueue c g h ts (queue σ)))
  /\ is_Some (returnUnackedSourcesToQueue h ts (queue σ))
  /\ (forall l s r s1 stats, held σ = l ++ s :: r -> send_outcome s s1 stats ->
        sane_last (queue σ) h s -> is_Some (finishBlock s1 stats h ts (queue σ))).
Proof.
  intros H%reachable_Inv Hth. split_and!.
  - apply H.
  - intros c g Hs Hr. destruct (Inv_checkpoint σ th1 p h ts th2 c g) as (? & ? & ? & ? & -> & _); done.
  - destruct (Inv_return_unacked σ th1 p h ts th2) as (? & ? & ? & -> & _); done.
  - intros l s r s1 stats Hh Ho Hl.
    destruct (Inv_send σ l s r s1 stats th1 p h ts th2) as (? & ? & ? & ? & -> & _); done.
Qed.

(** ** Witnesses *)

(** A directory with one file of five bytes, sent by the only thread and
    acknowledged. *)
Definition ex_env : Env :=
  mkEnv (mkDisk (fun _ _ _ => 3) (fun _ _ _ => None)) (mkReadOptions true 4096) (fun _ => false)
    (fun _ => None) (fun _ => None) (fun _ => None) (fun _ => None) (fun _ _ => false)
    (fun _ => false) true.
Definition ex_stats : TransferStats :=
  addEffectiveBytes 20 5 (incrNumBlocks (addDataBytes 5 (addHeaderBytes 20 TransferStats_default))).
Definition ex_0 : Sys := Eval vm_compute in
  mkSys (DirectorySourceQueue_make ex_env [47])
    [(22356, (ThreadTransferHistory_make 22356, TransferStats_default))] [] [] [] false.
Definition ex_created : Sys := Eval vm_compute in
  ex_0 <| queue := from_option snd (queue ex_0)
            (createIntoQueue ex_env [47; 97] (WdtFileInfo_make [97] 5 false) (queue ex_0)) |>.
Definition ex_taken : Sys := Eval vm_compute in
  match getNextSource_enter (queue ex_created) with
  | (TryOpen s _, q) =>
      ex_created <| queue := q |> <| opening := s :: opening ex_created |> <| started := true |>
  | _ => ex_created
  end.
Definition ex_opened : Sys := Eval vm_compute in
  match opening ex_taken with
  | s :: r => ex_taken <| opening := [] ++ r |>
                <| held := (open_source ex_env s (queue ex_taken)).2 :: held ex_taken |>
                <| queue := getNextSource_opened (queue ex_taken) |>
  | [] => ex_taken
  end.
Definition ex_source : FileByteSource := Eval vm_compute in
  default (FileByteSource_make 0 SourceMetaData_default 0 0) (head (held ex_opened)).
Definition ex_sent : Sys := Eval vm_compute in
  match held ex_opened, threads ex_opened with
  | s :: r, (p, (h, ts)) :: th =>
      match finishBlock s ex_stats h ts (queue ex_opened) with
      | Some (_, h', ts', q') =>
          ex_opened <| held := [] ++ r |> <| threads := [] ++ (p, (h', ts')) :: th |> <| queue := q' |>
      | None => ex_opened
      end
  | _, _ => ex_opened
  end.
Definition ex_thread : ThreadTransferHistory * TransferStats := Eval vm_compute in
  match threads ex_sent with (_, e) :: _ => e | [] => (ThreadTransferHistory_make 0, TransferStats_default) end.

Lemma ex_reachable : reachable ex_env ex_sent.
Proof.
  exists ex_0. split.
  { eexists _, [22356]. split; [apply (conf_make ex_env [47])|]. split; [done|]. apply NoDup_singleton. }
  apply (rtc_l _ _ ex_created).
  { eapply (step_create ex_env ex_0 [47; 97] (WdtFileInfo_make [97] 5 false)); [simpl; lia|].
    vm_compute. reflexivity. }
  apply (rtc_l _ _ ex_taken).
  { eapply (step_next ex_env ex_created). left. vm_compute. reflexivity. }
  apply (rtc_l _ _ ex_opened).
  { eapply (step_open ex_env ex_taken []); vm_compute; reflexivity. }
  apply (rtc_l _ _ ex_sent); [|apply rtc_refl].
  eapply (step_send ex_env ex_opened [] ex_source [] ex_source ex_stats []).
  - vm_compute. reflexivity.
  - vm_compute. reflexivity.
  - repeat split. left. repeat split.
  - vm_compute. discriminate.
  - vm_compute. reflexivity.
Qed.


Lemma credited_bytes_exact_witness : credited (threads ex_sent) = totalFileSize_ (queue ex_sent).
Proof.
  apply (credited_bytes_exact ex_env ex_sent ex_reachable). split; repeat constructor.
Defined.

Lemma finish_never_aborts_witness :
  exists report, finish true (threads ex_sent) (queue ex_sent) = Some report.
Proof.
  apply (finish_never_aborts ex_env ex_sent true ex_reachable); [reflexivity..|].
  left. left. reflexivity.
Defined.

Definition ex_report : TransferReport := Eval vm_compute in
  default (TransferReport_receiver TransferStats_default) (finish true (threads ex_sent) (queue ex_sent)).
Lemma report_ok_means_all_sent_witness :
  Forall (fun s => localErrCode_ (transferStats_ s) = OK \/ size_ s = 0) (histories (threads ex_sent)).
Proof.
  apply (report_ok_means_all_sent ex_env ex_sent true ex_report ex_reachable); try reflexivity.
  discriminate.
Defined.

Lemma sources_can_always_be_returned_witness :
  is_Some (returnUnackedSourcesToQueue ex_thread.1 ex_thread.2 (queue ex_sent)).
Proof.
  apply (sources_can_always_be_returned ex_env ex_sent [] 22356 ex_thread.1 ex_thread.2 [] ex_reachable).
  reflexivity.
Defined.
