(* ===== verification/Wakeup.v ===== *)
(** The waiting threads of the queue: [conditionNotEmpty_], [smartNotify] and
    the loop of [getNextSource] of [util/DirectorySourceQueue.cpp].  An
    invariant of the transfer system of [Transfer] shows that no thread sleeps
    while there is a block for it and none is left asleep at the end. *)
From S2P Require Import Prelude ErrorCodes Protocol Chunks Reporting ByteSource SourceQueue.
From S2P Require Import SourceQueueProps Explore History Transfer.

(** ** Adding sources and waking threads *)

(** From [q] to [q'] [n] sources were added, and either all threads were woken
    or [n] were. *)
Definition woke (n : Z) (q q' : DirectorySourceQueue) : Prop :=
  let c := conditionNotEmpty_ q in let c' := conditionNotEmpty_ q' in
  Zlen (sourceQueue_ q') = Zlen (sourceQueue_ q) + n /\ initFinished_ q' = initFinished_ q
  /\ numWaiters_ q' = numWaiters_ q
  /\ asleep c' + awakened c' = asleep c + awakened c /\ Z.min 0 (asleep c) <= asleep c' <= Z.max 0 (asleep c)
  /\ (asleep c' = 0 \/ awakened c' = awakened c + n).
(** Any number. *)
Definition pushed (q q' : DirectorySourceQueue) : Prop := exists n, 0 <= n /\ woke n q q'.

(** The invariant.  The last two clauses: a thread sleeps beside queued sources
    only when enough others are on their way to take all of them; when
    discovery has finished and the queue is empty nobody sleeps. *)
Definition awake (q : DirectorySourceQueue) : Prop :=
  let c := conditionNotEmpty_ q in
  0 <= asleep c /\ 0 <= awakened c /\ numWaiters_ q = asleep c + awakened c
  /\ (asleep c = 0 \/ Zlen (sourceQueue_ q) <= awakened c)
  /\ (initFinished_ q = true -> sourceQueue_ q = [] -> asleep c = 0).

Lemma woke_awake n q q' : 0 <= n -> woke n q q' -> awake q -> awake q'.
Proof.
  intros Hn (Hl & Hi & Hw & Hs & Ha & Hor) (? & ? & ? & Hc & Hf). unfold awake.
  split_and!; [lia|lia|lia|lia|]. rewrite Hi. intros Hfin Hq. rewrite Hq in Hl. simpl in Hl.
  destruct (sourceQueue_ q) eqn:E; [|simpl in Hl; lia]. specialize (Hf Hfin eq_refl). lia.
Qed.

Lemma iter_notify_one n c :
  0 <= asleep c ->
  Nat.iter n notify_one c
  = mkCondVar (Z.max 0 (asleep c - Z.of_nat n)) (awakened c + Z.min (asleep c) (Z.of_nat n)).
Proof.
  intros Hc. induction n as [|n IH]; [destruct c; simpl in *; f_equal; lia|].
  rewrite Nat.iter_succ, IH. unfold notify_one. simpl.
  destruct (0 <? _) eqn:E; bool_to_prop; f_equal; lia.
Qed.

Lemma smartNotify_woke n q q1 :
  0 <= n -> 0 <= asleep (conditionNotEmpty_ q) ->
  Zlen (sourceQueue_ q1) = Zlen (sourceQueue_ q) + n -> initFinished_ q1 = initFinished_ q ->
  numWaiters_ q1 = numWaiters_ q -> conditionNotEmpty_ q1 = conditionNotEmpty_ q ->
  woke n q (smartNotify n q1).
Proof.
  intros Hn Ha Hl Hi Hw Hc. unfold woke, smartNotify. simpl. rewrite Hc.
  destruct (_ <=? _).
  - unfold notify_all. simpl. split_and!; try done; lia.
  - rewrite iter_notify_one by done. simpl. split_and!; try done; lia.
Qed.
Lemma woke_0 q q' :
  sourceQueue_ q' = sourceQueue_ q -> initFinished_ q' = initFinished_ q ->
  numWaiters_ q' = numWaiters_ q -> conditionNotEmpty_ q' = conditionNotEmpty_ q -> woke 0 q q'.
Proof. intros Hq Hi Hw Hc. unfold woke. rewrite Hq, Hi, Hw, Hc. split_and!; try done; lia. Qed.
Lemma pushed_same q q' :
  sourceQueue_ q' = sourceQueue_ q -> initFinished_ q' = initFinished_ q ->
  numWaiters_ q' = numWaiters_ q -> conditionNotEmpty_ q' = conditionNotEmpty_ q -> pushed q q'.
Proof. intros. exists 0. split; [done|]. by apply woke_0. Qed.
Lemma pushed_awake q q' : pushed q q' -> awake q -> awake q'.
Proof. intros (n & Hn & H). by eapply woke_awake. Qed.

(** ** Each operation *)

Lemma createIntoQueueInternal_pushed i q q' :
  0 <= asleep (conditionNotEmpty_ q) -> createIntoQueueInternal i q = Some q' -> pushed q q'.
Proof.
  intros Ha. unfold createIntoQueueInternal, plan_file. intros H. repeat case_hyp H; simplify_eq;
    try (by apply pushed_same); (eexists; split; [|apply smartNotify_woke]); rewrite ?foldl_pq_push; simpl;
    try done; try lia; rewrite length_app, length_reverse; lia.
Qed.
Lemma createIntoQueue_pushed env path info q info' q' :
  0 <= asleep (conditionNotEmpty_ q) -> createIntoQueue env path info q = Some (info', q') -> pushed q q'.
Proof.
  intros Ha. unfold createIntoQueue. destruct (negb _ && _); intros H;
    destruct (createIntoQueueInternal _ _) as [q1|] eqn:E; simplify_eq;
    by apply createIntoQueueInternal_pushed in E.
Qed.
Lemma returnToQueue_pushed ss q q' :
  0 <= asleep (conditionNotEmpty_ q) -> returnToQueue ss q = Some q' -> pushed q q'.
Proof.
  intros Ha. unfold returnToQueue. destruct (returnToQueue_loop ss q) as [q1|] eqn:E; [|done].
  intros [= <-]. exists (Zlen ss). split; [lia|].
  assert (sourceQueue_ q1 = reverse ss ++ sourceQueue_ q /\ initFinished_ q1 = initFinished_ q
    /\ numWaiters_ q1 = numWaiters_ q /\ conditionNotEmpty_ q1 = conditionNotEmpty_ q) as (Hq & ? & ? & ?).
  { revert q E Ha. induction ss as [|s ss IH]; intros q E Ha; simpl in E; [by simplify_eq|].
    case_hyp E; [|done]. apply IH in E as (Hq & ? & ? & ?); [|done]. simpl in *.
    by rewrite Hq, reverse_cons, <- app_assoc. }
  apply smartNotify_woke; try done; [lia|]. rewrite Hq, length_app, length_reverse. lia.
Qed.
Lemma setCheckpoint_pushed c g h ts (q : DirectorySourceQueue) e h' ts' q' :
  0 <= asleep (conditionNotEmpty_ q) ->
  setCheckpointAndReturnToQueue c g h ts q = Some (e, h', ts', q') -> pushed q q'.
Proof.
  intros Ha. unfold setCheckpointAndReturnToQueue. intros H. repeat case_hyp H; simplify_eq;
    [by apply pushed_same..|by eapply returnToQueue_pushed].
Qed.
Lemma addSource_pushed s h ts (q : DirectorySourceQueue) b h' ts' q' :
  0 <= asleep (conditionNotEmpty_ q) -> addSource s h ts q = Some (b, h', ts', q') -> pushed q q'.
Proof.
  intros Ha. unfold addSource. intros H. repeat case_hyp H; simplify_eq;
    [by eapply returnToQueue_pushed|by apply pushed_same].
Qed.

Lemma enqueueFilesToBeDeleted_pushed q :
  0 <= asleep (conditionNotEmpty_ q) -> pushed q (enqueueFilesToBeDeleted q).
Proof.
  intros Ha. unfold enqueueFilesToBeDeleted. repeat case_goal; try (by apply pushed_same).
  destruct (foldl_enqueueDeletion q (extraFiles q)) as (mds & ss & E & _ & Hl & _).
  eexists; split; [|apply smartNotify_woke]; rewrite ?E; simpl; try done; [lia..|].
  rewrite length_app, Hl. lia.
Qed.

Lemma finishInit_awake q : awake q -> awake (finishInit q).
Proof.
  intros (Ha & Haw & Hw & Hor & _). unfold finishInit. set (q1 := q <| initFinished_ := true |>).
  destruct (enqueueFilesToBeDeleted_pushed q1) as (n & Hn & Hl & Hi & Hw' & Hs & Has & Hor'); [done|].
  simpl in *. unfold awake. case_bool_decide as Eq; simpl.
  - rewrite Hw'. simpl. split_and!; lia.
  - split_and!; try lia. intros _ ?. done.
Qed.

(** The thread at the test counts as neither asleep nor awakened. *)
Lemma getNextSource_check_awake q n q' :
  let c := conditionNotEmpty_ q in
  0 <= asleep c -> 0 <= awakened c -> numWaiters_ q = asleep c + awakened c + 1 ->
  asleep c = 0 \/ Zlen (sourceQueue_ q) - 1 <= awakened c ->
  (initFinished_ q = true -> sourceQueue_ q = [] -> asleep c = 0) ->
  getNextSource_check q = (n, q') -> awake q'.
Proof.
  intros c Ha Haw Hw Hor Hf. unfold c in *. clear c. unfold getNextSource_check. intros H.
  destruct (bool_decide (sourceQueue_ q = []) && negb (initFinished_ q)) eqn:Ew.
  { simplify_eq. bool_to_prop. destruct Ew as [Eq Ei]. unfold awake. simpl. rewrite Eq, Ei in *. simpl in *.
    split_and!; try lia. }
  destruct (pq_pop _) as [[s q1]|] eqn:E; simplify_eq.
  2:{ apply pq_pop_none in E. simpl in E. unfold awake. simpl. rewrite E in *. simpl in *.
      split_and!; try lia. done. }
  destruct (pq_pop_spec _ _ _ E) as (E1 & Hp & _). apply Permutation_length in Hp. simpl in Hp.
  assert (initFinished_ q1 = initFinished_ q /\ conditionNotEmpty_ q1 = conditionNotEmpty_ q
    /\ numWaiters_ q1 = numWaiters_ q - 1) as (Ei & Ec & En) by (by rewrite E1).
  unfold awake. case_goal; simpl; rewrite ?Ei, ?Ec, ?En; simpl; bool_to_prop.
  - split_and!; try lia; done.
  - split_and!; try lia. intros Hfin Hq. destruct Heqb as [?|?]; congruence.
Qed.

Lemma getNext_awake q n q' : getNext q n q' -> awake q -> awake q'.
Proof.
  intros [H|[Hp H]] (Ha & Haw & Hw & Hor & Hf); eapply getNextSource_check_awake; try exact H;
    simpl; try lia; done.
Qed.

(** Resumption replaces the queue; nobody waits on it then. *)
Definition idle (q : DirectorySourceQueue) : Prop := conditionNotEmpty_ q = mkCondVar 0 0 /\ numWaiters_ q = 0.
Lemma idle_awake q : idle q -> awake q.
Proof. intros [Hc Hw]. unfold awake. rewrite Hc, Hw. simpl. split_and!; lia. Qed.
Lemma pushed_idle q q' : pushed q q' -> idle q -> idle q'.
Proof.
  intros (n & _ & _ & _ & Hw & Hs & Ha & _) [Hc Hw0]. unfold idle. rewrite Hw, Hw0. split; [|done].
  rewrite Hc in *. destruct (conditionNotEmpty_ q') as [a b]. simpl in *. f_equal; lia.
Qed.
Lemma createAllIntoQueue_idle is_ q q' : createAllIntoQueue is_ q = Some q' -> idle q -> idle q'.
Proof.
  revert q. induction is_ as [|i is_ IH]; intros q; simpl; [by intros [= <-]|]. intros H Hid.
  destruct (createIntoQueueInternal i q) as [q1|] eqn:E; [|done].
  apply (IH q1); [done|]. eapply pushed_idle; [|done].
  eapply createIntoQueueInternal_pushed; [|exact E]. by destruct Hid as [-> _].
Qed.
Lemma setPreviouslyReceivedChunks_awake infos q q' :
  awake q -> numWaiters_ q = 0 -> setPreviouslyReceivedChunks infos q = Some q' -> awake q'.
Proof.
  intros (Ha & Haw & Hw & _ & _) H0.
  assert (idle q) as Hid.
  { split; [|done]. destruct (conditionNotEmpty_ q) as [a b]. simpl in *. f_equal; lia. }
  assert (forall infos q, idle q -> idle (foldl addPreviousChunks q infos)) as Hadd.
  { clear. intros infos. induction infos as [|i infos IH]; intros q Hq; [done|]. simpl. apply IH.
    unfold addPreviousChunks, idle. by destruct (_ !! _). }
  unfold setPreviouslyReceivedChunks. case_goal; [|done]. intros H'.
  destruct (createAllIntoQueue _ _) as [q2|] eqn:E; simplify_eq.
  assert (idle q2) as Hid2 by (eapply createAllIntoQueue_idle; [exact E|]; by apply Hadd).
  apply idle_awake. eapply pushed_idle; [|exact Hid2].
  apply enqueueFilesToBeDeleted_pushed. by destruct Hid2 as [-> _].
Qed.

(** ** All interleavings *)

Lemma step_awake env σ σ' : step env σ σ' -> awake (queue σ) -> awake (queue σ').
Proof.
  intros Hstep Hq. pose proof (proj1 Hq) as Ha.
  destruct Hstep; simpl; try done; try (by apply finishInit_awake); try (by eapply getNext_awake).
  - eapply pushed_awake; [|done]. by eapply createIntoQueue_pushed.
  - by eapply setPreviouslyReceivedChunks_awake.
  - unfold awake in *. simpl. unfold notify_one. case_goal; simpl; bool_to_prop; [|done].
    destruct Hq as (? & ? & ? & Hor & Hf). split_and!; try lia. intros Hfin Hemp.
    specialize (Hf Hfin Hemp). lia.
  - eapply pushed_awake; [|done]. unfold finishBlock in *. by eapply addSource_pushed.
  - eapply pushed_awake; [|done]. by eapply setCheckpoint_pushed.
  - eapply pushed_awake; [|done]. unfold handleGlobalCheckpoint in *.
    repeat case_match; simplify_eq; [by eapply setCheckpoint_pushed|by apply pushed_same].
  - eapply pushed_awake; [|done]. unfold returnUnackedSourcesToQueue in *.
    repeat case_match; simplify_eq. by eapply setCheckpoint_pushed.
Qed.

Lemma configured_idle env q : configured env q -> idle q.
Proof.
  assert (forall dir q, idle q -> idle (setRootDir env dir q).2) as Hr.
  { intros dir q0 Hq. unfold setRootDir. by repeat case_bool_decide. }
  induction 1; try done; [by apply Hr|]. unfold setFollowSymlinks. destruct b; [by apply Hr|done].
Qed.

