(* ===== verification/Socket.v ===== *)
(** The interface of the threads to the outside: the sockets of
    [util/IClientSocket.h] and [util/IServerSocket.h] as the state machines use
    them, the abort flag and the clock; with the command bytes of
    [Protocol.h].

    The client code is verified against this interface.  The laws are what its
    header documents, for the plain text both ends see: a connection is a
    stream of bytes in each direction. *)
From S2P Require Import Prelude ErrorCodes Protocol.

(** ** Command bytes ([Protocol::CMD_MAGIC]) *)

Definition DONE_CMD : Z := 0x44.
Definition FILE_CMD : Z := 0x4C.
Definition WAIT_CMD : Z := 0x57.
Definition ERR_CMD : Z := 0x45.
Definition SETTINGS_CMD : Z := 0x53.
Definition ABORT_CMD : Z := 0x41.
Definition CHUNKS_CMD : Z := 0x43.
Definition ACK_CMD : Z := 0x61.
Definition SIZE_CMD : Z := 0x5A.
Definition FOOTER_CMD : Z := 0x46.
Definition LOCAL_CHECKPOINT_CMD : Z := 0x01.
Definition ENCRYPTION_CMD : Z := 0x65.
Definition HEART_BEAT_CMD : Z := 0x48.

(** The footers of a block ([WdtThread::FooterType]). *)
Inductive FooterType := NO_FOOTER | CHECKSUM_FOOTER.
#[global] Instance FooterType_eq_dec : EqDecision FooterType.
Proof. solve_decision. Defined.

(** ** Operations

    [sock_write bs w] is the result of [write] on the bytes [bs]; [sock_read n
    tryFull w] the result of [read] for at most [n] bytes and the bytes it
    stored.  [abortCode] is [getThreadAbortCode] of a sender thread or
    [getCurAbortCode] of the receiver, [heartBeatDue] the comparison of the
    clock with the time of the last heart-beat. *)
Class Socket (W : Type) := {
  sock_write : list Z -> W -> Z * W;
  sock_read : Z -> bool -> W -> Z * list Z * W;
  abortCode : W -> ErrorCode * W;
  heartBeatDue : W -> bool * W
}.

(** ** Laws

    [outgoing w] are the bytes given to the peer so far, [incoming w] those the
    peer has sent or will send that were not read. *)
Class SocketLaws (W : Type) `{Socket W} := {
  outgoing : W -> list Z;
  incoming : W -> list Z;
  write_spec bs w n w' : sock_write bs w = (n, w') ->
    incoming w' = incoming w
    /\ exists k, outgoing w' = outgoing w ++ take k bs /\ (n = Zlen bs -> k = length bs);
  read_spec m tryFull w n bs w' : 0 <= m -> sock_read m tryFull w = (n, bs, w') ->
    outgoing w' = outgoing w
    /\ (n <= 0 /\ bs = [] /\ incoming w' = incoming w
        \/ 0 < n <= m /\ Zlen bs = n /\ incoming w = bs ++ incoming w');
  abortCode_spec w e w' : abortCode w = (e, w') -> outgoing w' = outgoing w /\ incoming w' = incoming w;
  heartBeatDue_spec w b w' : heartBeatDue w = (b, w') -> outgoing w' = outgoing w /\ incoming w' = incoming w
}.

(** ** A connection

    The instance the examples run on: the bytes to come, in the pieces the
    network delivers them, and the bytes sent. *)
Record Wire := mkWire { pieces : list (list Z); sent : list Z }.
Definition wire_write (bs : list Z) (w : Wire) : Z * Wire := (Zlen bs, mkWire (pieces w) (sent w ++ bs)).
(** A read takes no more than one piece. *)
Definition wire_read (n : Z) (w : Wire) : Z * list Z * Wire :=
  match pieces w with
  | [] => (0, [], w)
  | p :: ps =>
      let bs := take (Z.to_nat n) p in
      let rest := drop (Z.to_nat n) p in
      (Zlen bs, bs, mkWire (if bool_decide (rest = []) then ps else rest :: ps) (sent w))
  end.
#[global] Instance Wire_socket : Socket Wire := {
  sock_write := wire_write;
  sock_read n _ w := wire_read n w;
  abortCode w := (OK, w);
  heartBeatDue w := (false, w)
}.

Definition wire_incoming (w : Wire) : list Z := concat (pieces w).
Lemma wire_write_spec bs w n w' :
  wire_write bs w = (n, w') ->
  wire_incoming w' = wire_incoming w
  /\ exists k, sent w' = sent w ++ take k bs /\ (n = Zlen bs -> k = length bs).
Proof. intros [= <- <-]. split; [done|]. exists (length bs). by rewrite firstn_all. Qed.
Lemma wire_read_spec m (full : bool) w n bs w' :
  0 <= m -> wire_read m w = (n, bs, w') ->
  sent w' = sent w
  /\ (n <= 0 /\ bs = [] /\ wire_incoming w' = wire_incoming w
      \/ 0 < n <= m /\ Zlen bs = n /\ wire_incoming w = bs ++ wire_incoming w').
Proof.
  intros Hm. unfold wire_read, wire_incoming. destruct (pieces w) as [|p ps] eqn:Ep.
  { intros [= <- <- <-]. split; [done|]. left. by rewrite Ep. }
  intros [= <- <- <-]. split; [done|]. simpl.
  assert (concat (if bool_decide (drop (Z.to_nat m) p = []) then ps else drop (Z.to_nat m) p :: ps)
    = drop (Z.to_nat m) p ++ concat ps) as -> by (by case_bool_decide as E; [rewrite E|]).
  destruct (decide (take (Z.to_nat m) p = [])) as [E|E].
  - left. rewrite E. split_and!; [done..|].
    by rewrite <- (take_drop (Z.to_nat m) p) at 2; rewrite E.
  - right. split_and!; [|rewrite length_take; lia|done|by rewrite app_assoc, take_drop].
    destruct (take (Z.to_nat m) p); [done|simpl; lia].
Qed.
Lemma wire_pure_spec {A} (a x : A) (w w' : Wire) :
  (a, w) = (x, w') -> sent w' = sent w /\ wire_incoming w' = wire_incoming w.
Proof. by intros [= _ <-]. Qed.
#[global] Instance Wire_laws : SocketLaws Wire := {
  outgoing := sent;
  incoming := wire_incoming;
  write_spec := wire_write_spec;
  read_spec := wire_read_spec;
  abortCode_spec w e w' := wire_pure_spec OK e w w';
  heartBeatDue_spec w b w' := wire_pure_spec false b w w'
}.
