(* ===== verification/SendBlock.v ===== *)
(** Sending one block: [sendOneByteSource] and [readHeartBeats] of
    [SenderThread.cpp], over the source of [ByteSource] and the socket of
    [Socket].

    The theorems give the bytes of a block on the wire and discharge
    [send_outcome], which [Transfer] takes as what a thread does with a
    source. *)
From S2P Require Import Prelude Serialization ErrorCodes Chunks Protocol ProtocolProps.
From S2P Require Import Reporting ByteSource SourceQueue SourceQueueProps History Transfer Socket.

(** What the function reads of its thread: [wdtParent_->getProtocolVersion()],
    [footerType_], whether there is a throttler, [enableHeartBeat_] and
    [bufSize_]. *)
Record BlockConfig := mkBlockConfig {
  bc_version : Z;
  bc_footer : FooterType;
  bc_throttled : bool;
  bc_heartBeat : bool;
  bc_bufSize : Z
}.

(** ** Definitions *)

Definition blockDetails_of (md : SourceMetaData) (s : FileByteSource) : BlockDetails :=
  mkBlockDetails (relPath md) (ByteSource.seqId md) (ByteSource.size md) (getOffset s) (getSize s)
    (allocationStatus md) (ByteSource.prevSeqId md).

(** The header in [headerBuf] and its length.  The result of [encodeHeader] is
    not tested. *)
Definition fileHeader `{Host} (version : Z) (transferStatus : ErrorCode) (b : BlockDetails)
    : option (list Z * Z) :=
  let headerBuf := replicate (Z.to_nat kMaxHeader) 0 in
  let headerBuf := <[0%nat := FILE_CMD]> headerBuf in
  let headerBuf := <[1%nat := wrapU 8 (ErrorCode_value transferStatus)]> headerBuf in
  let off := 2 + sizeof_int16 in
  let* (_, headerBuf, off) := encodeHeader version headerBuf off kMaxHeader b in
  let littleEndianOff := Endian_little sizeof_int16 (wrapS 16 off) in
  Some (list_inserts 2 (storeUnaligned sizeof_int16 littleEndianOff) headerBuf, off).

Section send.
Context `{Host} {W : Type} `{Socket W}.
(** [folly::crc32c] of some bytes, started from the checksum so far. *)
Context (crc32c : list Z -> Z -> Z).

Definition readHeartBeats (c : BlockConfig) (w : W) : ErrorCode * W :=
  if negb (bc_heartBeat c) then (OK, w)
  else
    let '(due, w) := heartBeatDue w in
    if negb due then (OK, w)
    else
      let '(numRead, bs, w) := sock_read (bc_bufSize c) false w in
      if numRead <=? 0 then (SOCKET_READ_ERROR, w)
      else if forallb (Z.eqb HEART_BEAT_CMD) (take (Z.to_nat numRead) bs) then (OK, w)
      else (PROTOCOL_ERROR, w).

(** [checksum] is an [int32_t], the argument of [crc32c] and its result are
    [uint32_t]. *)
Definition addChecksum (footerType : FooterType) (data : list Z) (checksum : Z) : Z :=
  if bool_decide (footerType = CHECKSUM_FOOTER)
  then wrapS 32 (crc32c data (wrapU 32 checksum)) else checksum.

(** The variables of the loop. *)
Record SendState := mkSendState {
  ss_source : FileByteSource;
  ss_stats : TransferStats;
  ss_actualSize : Z;
  ss_checksum : Z;
  ss_throttlerInstanceBytes : Z;
  ss_totalThrottlerBytes : Z;
  ss_world : W
}.

Definition failBlock (errCode : ErrorCode) (stats : TransferStats) : TransferStats :=
  incrFailedAttempts (setLocalErrorCode errCode stats).

(** The loop; the flag tells that the function returned from inside.  Each round
    sends at least one byte, so the size of the block bounds them. *)
Fixpoint sendLoop (fuel : nat) (d : Disk) (o : ReadOptions) (md : SourceMetaData) (c : BlockConfig)
    (st : SendState) : option (bool * SendState) :=
  let '(mkSendState s stats actualSize checksum inst total w) := st in
  if source_finished md s then Some (false, st)
  else
    match fuel with
    | O => None
    | S fuel =>
        let '(_, w) := readHeartBeats c w in
        let* (size, buffer, s) := read d o md s in
        if hasError md s then Some (false, mkSendState s stats actualSize checksum inst total w)
        else
          let* data := buffer in
          check 0 <? size ;;
          let checksum := addChecksum (bc_footer c) data checksum in
          let '(inst, total) :=
            if bc_throttled c then (0, total + (inst + size)) else (inst, total) in
          let '(written, w) := sock_write data w in
          let '(abort, w) := abortCode w in
          if negb (bool_decide (abort = OK)) then
            Some (true, mkSendState s (failBlock ABORT stats) actualSize checksum inst total w)
          else if negb (written =? size) then
            Some (true, mkSendState s (failBlock SOCKET_WRITE_ERROR stats) actualSize checksum inst total w)
          else
            sendLoop fuel d o md c
              (mkSendState s (addDataBytes written stats) (actualSize + written) checksum inst total w)
    end.

(** The end of the function, after the loop and its checks. *)
Definition sendFooter (c : BlockConfig) (checksum : Z) (stats : TransferStats) (w : W)
    : TransferStats * W :=
  let finish (stats : TransferStats) :=
    let stats := Reporting.incrNumBlocks (setLocalErrorCode OK stats) in
    addEffectiveBytes (headerBytes_ stats) (dataBytes_ stats) stats in
  if bool_decide (bc_footer c = NO_FOOTER) then (finish stats, w)
  else
    let headerBuf := replicate (Z.to_nat kMaxHeader) 0 in
    let headerBuf := <[0%nat := FOOTER_CMD]> headerBuf in
    let '(_, headerBuf, off) := encodeFooter headerBuf 1 kMaxFooter checksum in
    let '(written, w) := sock_write (take (Z.to_nat off) headerBuf) w in
    if negb (written =? off) then (failBlock SOCKET_WRITE_ERROR stats, w)
    else (finish (addHeaderBytes off stats), w).

Definition sendOneByteSource (d : Disk) (o : ReadOptions) (md : SourceMetaData) (c : BlockConfig)
    (source : FileByteSource) (transferStatus : ErrorCode) (w : W)
    : option (TransferStats * FileByteSource * W) :=
  let stats := TransferStats_default in
  let expectedSize := getSize source in
  let* (headerBuf, off) := fileHeader (bc_version c) transferStatus (blockDetails_of md source) in
  let '(written, w) := sock_write (take (Z.to_nat off) headerBuf) w in
  if negb (written =? off) then Some (failBlock SOCKET_WRITE_ERROR stats, source, w)
  else
    let stats := addHeaderBytes written stats in
    let byteSourceHeaderBytes := written in
    let* (returned, st) := sendLoop (Z.to_nat expectedSize) d o md c
                             (mkSendState source stats 0 0 byteSourceHeaderBytes 0 w) in
    if (returned : bool) then Some (ss_stats st, ss_source st, ss_world st)
    else if negb (ss_actualSize st =? expectedSize) then
      Some (failBlock BYTE_SOURCE_READ_ERROR (ss_stats st), ss_source st, ss_world st)
    else
      check negb (bc_throttled c && (0 <? ss_actualSize st))
            || (ss_totalThrottlerBytes st =? ss_actualSize st + byteSourceHeaderBytes) ;;
      let '(stats, w) := sendFooter c (ss_checksum st) (ss_stats st) (ss_world st) in
      Some (stats, ss_source st, w).
End send.

(** ** The header *)

(** The bytes of the file command: the command, the status, the length of all
    of it, the header. *)
Definition fileCmdBytes (version : Z) (transferStatus : ErrorCode) (b : BlockDetails) : list Z :=
  [FILE_CMD; wrapU 8 (ErrorCode_value transferStatus)]
  ++ fixedBytes sizeof_int16 (4 + Zlen (headerBytes version b)) ++ headerBytes version b.

Lemma Zlen_fileCmdBytes `{Host} v e b : Zlen (fileCmdBytes v e b) = 4 + Zlen (headerBytes v b).
Proof. unfold fileCmdBytes. rewrite !Zlen_app, Zlen_fixedBytes by done. simpl. unfold sizeof_int16. lia. Qed.

Lemma fileHeader_spec `{Host} v e b :
  wf_block b -> 4 + Zlen (headerBytes v b) <= kMaxHeader ->
  exists buf, fileHeader v e b = Some (buf, Zlen (fileCmdBytes v e b))
    /\ take (length (fileCmdBytes v e b)) buf = fileCmdBytes v e b.
Proof.
  intros Hb Hlen. unfold fileHeader.
  set (dest := <[1%nat := _]> _).
  assert (exists z, dest = [FILE_CMD; wrapU 8 (ErrorCode_value e); 0; 0] ++ z
                    /\ Zlen z = kMaxHeader - 4) as (z & Ez & Hz).
  { exists (replicate (Z.to_nat (kMaxHeader - 4)) 0). unfold dest.
    replace (Z.to_nat kMaxHeader) with (4 + Z.to_nat (kMaxHeader - 4))%nat by done.
    rewrite replicate_add. split; [done|]. by rewrite length_replicate. }
  pose proof (Encodes_fits kMaxHeader (fun dest off => encodeHeader v dest off kMaxHeader b)
    (headerBytes v b) dest (2 + sizeof_int16)) as E. cbv beta in E.
  rewrite E; clear E; [|by apply encodeHeader_encodes|..].
  2-4: rewrite ?Ez, ?length_app; unfold sizeof_int16; simpl; unfold kMaxHeader, PATH_MAX in *; lia.
  rewrite wrapS_small, storeUnaligned_little by (unfold inS, sizeof_int16, kMaxHeader, PATH_MAX in *; simpl; lia).
  eexists. split; [rewrite Zlen_fileCmdBytes; unfold sizeof_int16; do 3 f_equal; lia|].
  unfold fileCmdBytes, sizeof_int16. rewrite Ez.
  change (Z.to_nat (2 + 2)) with (length [FILE_CMD; wrapU 8 (ErrorCode_value e); 0; 0]).
  rewrite <- (take_drop (length (headerBytes v b)) z), list_inserts_app_split
    by (rewrite length_take; unfold kMaxHeader, PATH_MAX in *; lia).
  set (rest := drop _ z). set (len := fixedBytes 2 _).
  change (Z_to_little_endian 2 8 (2 + 2 + Zlen (headerBytes v b))) with (fixedBytes 2 (4 + Zlen (headerBytes v b))).
  fold len. assert (length len = 2%nat) as Hl by (apply Nat2Z.inj; unfold len; by rewrite Zlen_fixedBytes).
  change ([FILE_CMD; wrapU 8 (ErrorCode_value e); 0; 0] ++ headerBytes v b ++ rest)
    with ([FILE_CMD; wrapU 8 (ErrorCode_value e)] ++ [0; 0] ++ headerBytes v b ++ rest).
  change 2%nat with (length [FILE_CMD; wrapU 8 (ErrorCode_value e)]).
  rewrite list_inserts_app_split by done.
  rewrite !app_assoc, take_app_length. done.
Qed.

(** ** Reading the source *)

(** [pread] never returns more than it was asked for; a source read with
    [O_DIRECT] is one whose file has all its bytes. *)
Definition well_behaved (d : Disk) (s : FileByteSource) : Prop :=
  (forall f n pos bs, pread d f n pos = Some bs -> Zlen bs <= n)
  /\ (alignedReadNeeded_ s = true ->
      exists c, reads_file d (fd_ s) true c /\ offset_ s + size_ s <= Zlen c).

(** The file behind the source has the bytes [c] and the block is inside it. *)
Definition backed (d : Disk) (s : FileByteSource) (c : list Z) : Prop :=
  reads_file d (fd_ s) (alignedReadNeeded_ s) c /\ offset_ s + size_ s <= Zlen c.

Lemma read_progress d o md s :
  reading md s -> wf_buffer o -> well_behaved d s -> allocationStatus md <> TO_BE_DELETED ->
  (exists k data, 0 < k <= size_ s - bytesRead_ s /\ Zlen data = k
     /\ read d o md s = Some (k, Some data, s <| bytesRead_ := bytesRead_ s + k |>)
     /\ forall c, backed d s c ->
          data = slice (offset_ s + bytesRead_ s) (offset_ s + bytesRead_ s + k) c)
  \/ (exists s', read d o md s = Some (0, None, s') /\ hasError md s' = true /\ range s' = range s
      /\ counters (transferStats_ s') = counters (transferStats_ s) /\ forall c, ~ backed d s c).
Proof.
  intros Hs Hw [Hlen Hdir] Hdel.
  assert (forall c, backed d s c -> exists k, 0 < k <= size_ s - bytesRead_ s
    /\ read d o md s = Some (k, Some (slice (offset_ s + bytesRead_ s) (offset_ s + bytesRead_ s + k) c),
         s <| bytesRead_ := bytesRead_ s + k |>)) as Hback.
  { intros c [Hr Hc]. by apply read_exact. }
  pose proof Hs as (Ho & Hb & He).
  assert (forall c k, 0 < k <= size_ s - bytesRead_ s -> backed d s c ->
    Zlen (slice (offset_ s + bytesRead_ s) (offset_ s + bytesRead_ s + k) c) = k) as Hsl.
  { intros c k Hk [_ Hc]. apply Zlen_slice; lia. }
  destruct (alignedReadNeeded_ s) eqn:Ea.
  { left. destruct (Hdir eq_refl) as (c & Hr & Hc).
    assert (backed d s c) as Hbc by (by split; rewrite ?Ea).
    destruct (Hback c Hbc) as (k & Hk & E). exists k, (slice (offset_ s + bytesRead_ s) (offset_ s + bytesRead_ s + k) c).
    split_and!; [lia|lia|by apply Hsl|done|]. intros c' Hc'. destruct (Hback c' Hc') as (k' & Hk' & E').
    rewrite E in E'. by simplify_eq. }
  destruct (physicalRead_bounds _ _ _ Hs Hw) as [Hl Hp].
  destruct (offsetRemainder_bounds s) as (Hr & _ & Hna); [lia|]. specialize (Hna Ea).
  assert (physicalRead o s = logicalRead o s) as Ephys by (unfold physicalRead; by rewrite Ea).
  assert (forall st, hasError md (source_close s <| transferStats_ := st |>) = true) as Hcl.
  { intros st. unfold hasError. by rewrite bool_decide_eq_false_2. }
  assert (hasError md (source_close s) = true) as Hcl' by apply (Hcl (transferStats_ s)).
  assert (read d o md s = Some (0, None, source_close s) \/
    (exists st, read d o md s = Some (0, None, source_close s <| transferStats_ := st |>)
                /\ counters st = counters (transferStats_ s)) \/
    exists data, 0 < Zlen data <= size_ s - bytesRead_ s /\
      read d o md s = Some (Zlen data, Some data, s <| bytesRead_ := bytesRead_ s + Zlen data |>)) as Hread.
  { unfold read, source_finished. rewrite He, (proj2 (Z.eqb_neq _ _)) by lia. simpl. rewrite Hna, Ephys, Ea.
    destruct (pread d (fd_ s) (logicalRead o s) (seekPos s)) as [bs|] eqn:Ep; simpl.
    2:{ right. left. eexists. split; [done|]. done. }
    apply Hlen in Ep. destruct Hw as [Hw _]. rewrite wrapS_small by (unfold inS; simpl; lia).
    rewrite (proj2 (Z.ltb_ge _ 0)) by lia. destruct (Zlen bs =? 0) eqn:E0; [by left|]. bool_to_prop.
    right. right. exists bs. rewrite Z.sub_0_r, (proj2 (Z.ltb_ge _ _)) by lia. simpl.
    split; [lia|]. unfold slice. rewrite drop_0.
    rewrite firstn_all2 by lia. done. }
  assert (forall c s', read d o md s = Some (0, None, s') -> ~ backed d s c) as Hno.
  { intros c s' E Hc. destruct (Hback c Hc) as (k & Hk & E'). rewrite E in E'. simplify_eq. }
  destruct Hread as [E|[(st & E & Hst)|(data & Hd & E)]].
  - right. exists (source_close s). split_and!; eauto.
  - right. eexists. split_and!; eauto.
  - left. exists (Zlen data), data. split_and!; try done; try lia. intros c Hc.
    destruct (Hback c Hc) as (k & Hk & E'). rewrite E in E'. by simplify_eq.
Qed.

(** ** Sending *)

(** The checksum of folly: it can be computed in pieces. *)
Class Crc32c (crc32c : list Z -> Z -> Z) : Prop := {
  crc32c_range bs s : inU 32 (crc32c bs s);
  crc32c_nil s : inU 32 s -> crc32c [] s = s;
  crc32c_app bs bs' s : crc32c (bs ++ bs') s = crc32c bs' (crc32c bs s)
}.

Section sending.
Context `{Host} {W : Type} `{SocketLaws W}.
Context (crc32c : list Z -> Z -> Z) `{!Crc32c crc32c}.

Lemma addChecksum_app c a b s :
  inS 32 s ->
  addChecksum crc32c c b (addChecksum crc32c c a s) = addChecksum crc32c c (a ++ b) s.
Proof.
  intros Hs. unfold addChecksum. case_bool_decide; [|done]. rewrite crc32c_app.
  pose proof (crc32c_range a (wrapU 32 s)) as Hr.
  assert (wrapU 32 (wrapS 32 (crc32c a (wrapU 32 s))) = crc32c a (wrapU 32 s)) as ->; [|done].
  unfold wrapU, wrapS, inU in *. rewrite Zminus_mod_idemp_l.
  replace (_ + _ - _) with (crc32c a (s mod 2 ^ 32)) by lia. by apply Z.mod_small.
Qed.
Lemma addChecksum_nil c s : inS 32 s -> addChecksum crc32c c [] s = s.
Proof.
  intros Hs. unfold addChecksum. case_bool_decide; [|done].
  rewrite crc32c_nil by (apply wrapU_range; lia). by apply wrapS_wrapU.
Qed.
Lemma addChecksum_range c a s : inS 32 s -> inS 32 (addChecksum crc32c c a s).
Proof. intros. unfold addChecksum. case_bool_decide; [|done]. by apply wrapS_range. Qed.

Lemma readHeartBeats_outgoing c w e w' :
  0 <= bc_bufSize c -> readHeartBeats c w = (e, w') -> outgoing w' = outgoing w.
Proof.
  intros Hbuf. unfold readHeartBeats. destruct (negb _); [by intros [= _ <-]|].
  destruct (heartBeatDue w) as [due w1] eqn:Ed. apply heartBeatDue_spec in Ed as [<- _].
  destruct (negb due); [by intros [= _ <-]|].
  destruct (sock_read (bc_bufSize c) false w1) as [[n bs] w2] eqn:Er.
  apply read_spec in Er as [<- _]; [|done]. intros Hr. by repeat case_hyp Hr; simplify_eq.
Qed.

(** What the loop has sent: the bytes [data] of the source, all of them if it
    did not stop. *)
Definition loop_spec (d : Disk) (md : SourceMetaData) (c : BlockConfig) (st : SendState (W := W))
    (r : bool * SendState (W := W)) : Prop :=
  let s := ss_source st in let s' := ss_source r.2 in let left := size_ s - bytesRead_ s in
  exists data, Zlen data <= left
  /\ range s' = range s /\ counters (transferStats_ s') = counters (transferStats_ s)
  /\ (forall ct, backed d s ct -> data `prefix_of` slice (offset_ s + bytesRead_ s) (offset_ s + size_ s) ct)
  /\ outgoing (ss_world st) `prefix_of` outgoing (ss_world r.2)
  /\ outgoing (ss_world r.2) `prefix_of` outgoing (ss_world st) ++ data
  /\ if r.1 then exists e n, e <> OK /\ ss_stats r.2 = failBlock e (addDataBytes n (ss_stats st))
     else ss_stats r.2 = addDataBytes (Zlen data) (ss_stats st)
       /\ ss_actualSize r.2 = ss_actualSize st + Zlen data
       /\ outgoing (ss_world r.2) = outgoing (ss_world st) ++ data
       /\ ss_checksum r.2 = addChecksum crc32c (bc_footer c) data (ss_checksum st)
       /\ (bc_throttled c = true ->
           ss_throttlerInstanceBytes r.2 = (if Zlen data =? 0 then ss_throttlerInstanceBytes st else 0)
           /\ ss_totalThrottlerBytes r.2 + ss_throttlerInstanceBytes r.2
              = ss_totalThrottlerBytes st + ss_throttlerInstanceBytes st + Zlen data)
       /\ (Zlen data = left -> localErrCode_ (transferStats_ s') = localErrCode_ (transferStats_ s))
       /\ (forall ct, backed d s ct -> Zlen data = left).

Lemma addDataBytes_add a b s : addDataBytes a (addDataBytes b s) = addDataBytes (b + a) s.
Proof. unfold addDataBytes, with_dataBytes. simpl. f_equal. lia. Qed.
Lemma addDataBytes_0 s : addDataBytes 0 s = s.
Proof. destruct s. unfold addDataBytes, with_dataBytes. simpl. f_equal. lia. Qed.

(** The loop stops before a byte is read. *)
Lemma loop_spec_stop d md c st s' stats checksum inst total w' :
  let s := ss_source st in
  range s' = range s -> counters (transferStats_ s') = counters (transferStats_ s) ->
  bytesRead_ s <= size_ s -> (bytesRead_ s = size_ s -> localErrCode_ (transferStats_ s') = localErrCode_ (transferStats_ s)) ->
  (bytesRead_ s < size_ s -> forall ct, ~ backed d s ct) -> inS 32 (ss_checksum st) ->
  stats = ss_stats st -> checksum = ss_checksum st -> outgoing w' = outgoing (ss_world st) ->
  inst = ss_throttlerInstanceBytes st -> total = ss_totalThrottlerBytes st ->
  loop_spec d md c st (false, mkSendState s' stats (ss_actualSize st) checksum inst total w').
Proof.
  intros s Hr Hc Hb Herr Hback Hck -> -> Ho -> ->. exists []. unfold s in *. simpl. rewrite Ho, app_nil_r.
  split_and!; try done; try lia.
  - intros ct _. apply prefix_nil.
  - by rewrite addDataBytes_0.
  - by rewrite addChecksum_nil.
  - intros. apply Herr. lia.
  - intros ct Hct. destruct (decide (bytesRead_ (ss_source st) < size_ (ss_source st))) as [Hlt|]; [|lia].
    by destruct (Hback Hlt ct).
Qed.

(** The loop stops while a piece is written. *)
Lemma loop_spec_fail d md c st k data s' e checksum inst total w' j :
  let s := ss_source st in
  s' = s <| bytesRead_ := bytesRead_ s + k |> -> Zlen data = k -> 0 <= offset_ s -> 0 <= bytesRead_ s ->
  0 < k <= size_ s - bytesRead_ s -> e <> OK ->
  (forall ct, backed d s ct -> data = slice (offset_ s + bytesRead_ s) (offset_ s + bytesRead_ s + k) ct) ->
  outgoing w' = outgoing (ss_world st) ++ take j data ->
  loop_spec d md c st (true, mkSendState s' (failBlock e (ss_stats st)) (ss_actualSize st) checksum inst total w').
Proof.
  intros s -> Hl Ho0 Hb0 Hk He Hback Ho. exists data. unfold s in *. simpl. rewrite Ho.
  split_and!; try done; try lia.
  - intros ct Hct. rewrite (Hback ct Hct). exists (slice (offset_ s + bytesRead_ s + k) (offset_ s + size_ s) ct).
    symmetry. apply slice_app; unfold s in *; lia.
  - by exists (take j data).
  - exists (drop j data). by rewrite <- app_assoc, take_drop.
  - exists e, 0. by rewrite addDataBytes_0.
Qed.

(** A piece was sent and the rest follows. *)
Lemma loop_spec_more d md c st r k data checksum inst total w' :
  let s := ss_source st in
  Zlen data = k -> 0 <= offset_ s -> 0 <= bytesRead_ s -> 0 < k <= size_ s - bytesRead_ s ->
  inS 32 (ss_checksum st) ->
  (forall ct, backed d s ct -> data = slice (offset_ s + bytesRead_ s) (offset_ s + bytesRead_ s + k) ct) ->
  checksum = addChecksum crc32c (bc_footer c) data (ss_checksum st) ->
  (bc_throttled c = true -> inst = 0 /\ total = ss_totalThrottlerBytes st + (ss_throttlerInstanceBytes st + k)) ->
  outgoing w' = outgoing (ss_world st) ++ data ->
  loop_spec d md c (mkSendState (s <| bytesRead_ := bytesRead_ s + k |>) (addDataBytes k (ss_stats st))
    (ss_actualSize st + k) checksum inst total w') r ->
  loop_spec d md c st r.
Proof.
  intros s Hl Ho0 Hb0 Hk Hck Hback -> Hth Ho (rest & Hlen & Hrng & Hcnt & Hpre & Ho1 & Ho2 & Hr).
  exists (data ++ rest). unfold s in *. simpl in *. rewrite Ho in *.
  assert (forall ct, backed d (ss_source st <| bytesRead_ := bytesRead_ (ss_source st) + k |>) ct
            <-> backed d (ss_source st) ct) as Hbk by done.
  split_and!; try done.
  - rewrite Zlen_app. lia.
  - intros ct Hct. rewrite <- (slice_app (offset_ (ss_source st) + bytesRead_ (ss_source st))
      (offset_ (ss_source st) + bytesRead_ (ss_source st) + k)), (Hback ct Hct) by lia.
    apply prefix_app. rewrite <- Z.add_assoc. by apply Hpre, Hbk.
  - etrans; [|done]. by eexists.
  - by rewrite app_assoc.
  - destruct r.1.
    + destruct Hr as (e & n & He & ->). exists e, (k + n). by rewrite addDataBytes_add.
    + destruct Hr as (-> & -> & -> & -> & Htot & Herr & Hall). rewrite Zlen_app.
      split_and!.
      * rewrite addDataBytes_add. f_equal. lia.
      * lia.
      * by rewrite app_assoc.
      * by apply addChecksum_app.
      * intros Ht. destruct (Hth Ht) as [-> ->]. destruct (Htot Ht) as [-> Htt].
        rewrite (proj2 (Z.eqb_neq (Zlen data + Zlen rest) 0)) by lia. split; [by case_match|lia].
      * intros E. apply Herr. lia.
      * intros ct Hct. rewrite (Hall ct) by (by apply Hbk). lia.
Qed.

Lemma sendLoop_spec fuel d o md c st :
  let s := ss_source st in
  0 <= offset_ s -> 0 <= bytesRead_ s <= size_ s -> hasError md s = false -> wf_buffer o ->
  0 <= bc_bufSize c -> inS 32 (ss_checksum st) ->
  (bytesRead_ s < size_ s -> well_behaved d s /\ allocationStatus md <> TO_BE_DELETED) ->
  size_ s - bytesRead_ s <= Z.of_nat fuel ->
  exists r, sendLoop crc32c fuel d o md c st = Some r /\ loop_spec d md c st r.
Proof.
  revert st. induction fuel as [|fuel IH]; intros [s stats actual ck inst total w]; simpl;
    intros Ho Hb He Hw Hbuf Hck Hgood Hfuel; unfold source_finished; rewrite He; simpl;
    rewrite andb_true_r; destruct (bytesRead_ s =? size_ s) eqn:Efin; bool_to_prop.
  1,3: eexists; split; [done|]; by apply loop_spec_stop; simpl; try done; lia.
  { lia. }
  destruct Hgood as [Hgood Hdel]; [lia|].
  destruct (readHeartBeats c w) as [e w1] eqn:Eh. apply readHeartBeats_outgoing in Eh; [|done].
  destruct (read_progress d o md s) as [(k & data & Hk & Hl & -> & Hback)|(s' & -> & Herr & Hrng & Hcnt & Hback)];
    [by split_and!; try done; lia|done..|simpl|simpl].
  2:{ rewrite Herr. eexists. split; [done|]. apply loop_spec_stop; simpl; try done; lia. }
  replace (hasError md (s <| bytesRead_ := bytesRead_ s + k |>)) with false by (by rewrite <- He).
  rewrite (proj2 (Z.ltb_lt 0 k)) by lia.
  set (st := mkSendState s stats actual ck inst total w).
  set (it := if bc_throttled c then _ else _).
  assert (bc_throttled c = true -> it.1 = 0 /\ it.2 = total + (inst + k)) as Hit by (unfold it; by intros ->).
  destruct it as [inst' total']. simpl in Hit.
  destruct (sock_write data w1) as [n w2] eqn:Ew. apply write_spec in Ew as [_ (j & Ew & Hn)].
  destruct (abortCode w2) as [ab w3] eqn:Ea. apply abortCode_spec in Ea as [Ea _].
  assert (outgoing w3 = outgoing w ++ take j data) as Eo by congruence.
  destruct (negb (bool_decide (ab = OK))) eqn:Eab.
  { eexists. split; [done|]. refine (loop_spec_fail d md c st k data _ ABORT _ _ _ _ j _ _ _ _ _ _ _ _); simpl; try done; lia. }
  destruct (n =? k) eqn:En; bool_to_prop; simpl.
  2:{ eexists. split; [done|]. refine (loop_spec_fail d md c st k data _ SOCKET_WRITE_ERROR _ _ _ _ j _ _ _ _ _ _ _ _); simpl; try done; lia. }
  rewrite (Hn (eq_trans En (eq_sym Hl))), firstn_all in Eo. subst n.
  set (st' := mkSendState _ _ _ _ _ _ _).
  destruct (IH st') as (r & Hr & Hspec); unfold st'; simpl; try done; try lia;
    [by apply addChecksum_range|].
  exists r. split; [exact Hr|].
  refine (loop_spec_more d md c st r k data _ _ _ _ _ _ _ _ _ _ _ _ _ Hspec); simpl; try done; lia.
Qed.

(** ** The block on the wire *)

Definition footerBytes (c : BlockConfig) (data : list Z) : list Z :=
  if bool_decide (bc_footer c = NO_FOOTER) then []
  else FOOTER_CMD :: varU64 (encodeZigZag (addChecksum crc32c (bc_footer c) data 0)).
Definition blockBytes (c : BlockConfig) (transferStatus : ErrorCode) (b : BlockDetails) (data : list Z)
    : list Z := fileCmdBytes (bc_version c) transferStatus b ++ data ++ footerBytes c data.

(** The end of the function: the block is counted or there is an error. *)
Lemma sendFooter_spec c data stats (w : W) stats' w' :
  sendFooter c (addChecksum crc32c (bc_footer c) data 0) stats w = (stats', w') ->
  outgoing w' `prefix_of` outgoing w ++ footerBytes c data
  /\ outgoing w `prefix_of` outgoing w'
  /\ numBlocksSend_ stats' = numBlocksSend_ stats /\ totalSenderBytes_ stats' = totalSenderBytes_ stats
  /\ (localErrCode_ stats' = OK /\ outgoing w' = outgoing w ++ footerBytes c data
        /\ effectiveDataBytes_ stats' = effectiveDataBytes_ stats + dataBytes_ stats
      \/ localErrCode_ stats' <> OK /\ effectiveDataBytes_ stats' = effectiveDataBytes_ stats).
Proof.
  unfold sendFooter, footerBytes. case_bool_decide as Ef.
  { intros [= <- <-]. rewrite app_nil_r. split_and!; try done. by left. }
  set (ck := addChecksum crc32c (bc_footer c) data 0).
  set (dest := <[0%nat := FOOTER_CMD]> (replicate (Z.to_nat kMaxHeader) 0)).
  pose proof (Zlen_varU64 (encodeZigZag ck)) as Hv.
  assert (Zlen dest = kMaxHeader) as Hd by (unfold dest; by rewrite length_insert, length_replicate).
  pose proof (Encodes_fits kMaxFooter _ _ dest 1 (encodeVarI64_encodes kMaxFooter ck)
    ltac:(lia) ltac:(unfold kMaxFooter; lia) ltac:(rewrite Hd; done)) as [= E].
  unfold encodeFooter. rewrite E.
  assert (take (Z.to_nat (1 + Zlen (varU64 (encodeZigZag ck))))
    (list_inserts (Z.to_nat 1) (varU64 (encodeZigZag ck)) dest)
    = FOOTER_CMD :: varU64 (encodeZigZag ck)) as ->.
  { replace dest with ([FOOTER_CMD] ++ replicate (Z.to_nat (kMaxHeader - 1)) 0) by done.
    set (z := replicate _ _). assert (Zlen z = kMaxHeader - 1) by (unfold z; by rewrite length_replicate).
    change (Z.to_nat 1) with (length [FOOTER_CMD]).
    rewrite <- (take_drop (length (varU64 (encodeZigZag ck))) z), list_inserts_app_split
      by (rewrite length_take; unfold kMaxHeader, PATH_MAX in *; lia).
    rewrite app_assoc, take_app_length'; [done|]. simpl. lia. }
  destruct (sock_write _ w) as [n w1] eqn:Ew. apply write_spec in Ew as [_ (j & Ew & Hn)].
  assert (outgoing w1 `prefix_of` outgoing w ++ FOOTER_CMD :: varU64 (encodeZigZag ck)) as Hpre.
  { rewrite Ew. apply prefix_app. apply prefix_take. }
  assert (outgoing w `prefix_of` outgoing w1) as Hpre' by (rewrite Ew; by eexists).
  destruct (n =? _) eqn:En; bool_to_prop; intros [= <- <-]; (split_and!; try done); [left|by right].
  simpl. split_and!; [done| |done]. rewrite Ew, Hn, firstn_all by (simpl; lia). done.
Qed.

Lemma sendOneByteSource_spec d o md c s e w :
  let b := blockDetails_of md s in
  let whole := slice (offset_ s) (offset_ s + size_ s) in
  wf_block b -> Zlen (relPath md) <= PATH_MAX ->
  bytesRead_ s = 0 -> hasError md s = false -> wf_buffer o -> 0 <= bc_bufSize c ->
  (0 < size_ s -> well_behaved d s /\ allocationStatus md <> TO_BE_DELETED) ->
  exists stats s' w', sendOneByteSource crc32c d o md c s e w = Some (stats, s', w')
    /\ send_outcome s s' stats
    /\ (localErrCode_ stats = OK -> exists data, Zlen data = size_ s
          /\ outgoing w' = outgoing w ++ blockBytes c e b data
          /\ forall file, backed d s file -> data = whole file)
    /\ (forall file, backed d s file -> outgoing w' `prefix_of` outgoing w ++ blockBytes c e b (whole file)).
Proof.
  intros b whole Hwf Hpath Hb0 He Hw Hbuf Hgood.
  assert (0 <= offset_ s /\ 0 <= size_ s) as [Ho Hs].
  { destruct Hwf as (_ & _ & [] & [] & _). done. }
  pose proof (Zlen_headerBytes (bc_version c) b Hpath) as Hh.
  destruct (fileHeader_spec (bc_version c) e b Hwf ltac:(lia)) as (buf & Ebuf & Etake).
  unfold sendOneByteSource, blockBytes. fold b. rewrite Ebuf.
  set (hdr := fileCmdBytes (bc_version c) e b) in *. cbn [mbind option_bind].
  rewrite Nat2Z.id, Etake. clearbody hdr.
  destruct (sock_write hdr w) as [n w1] eqn:Ew. apply write_spec in Ew as [_ (j & Ew & Hn)].
  destruct (n =? Zlen hdr) eqn:En; bool_to_prop; simpl.
  2:{ do 3 eexists. split_and!; [done|by split_and!; try done; right|done|].
      intros file _. rewrite Ew. apply prefix_app, prefix_app_r, prefix_take. }
  rewrite (Hn En), firstn_all in Ew. clear Hn j. subst n.
  set (st := mkSendState s (addHeaderBytes (Zlen hdr) TransferStats_default) 0 0 (Zlen hdr) 0 w1).
  destruct (sendLoop_spec (Z.to_nat (getSize s)) d o md c st)
    as ([ret st'] & -> & data & Hlen & Hrng & Hcnt & Hpre & Ho1 & Ho2 & Hr);
    unfold st in *; simpl in *; try done; rewrite ?Hb0 in *; try done; try (unfold getSize; lia).
  rewrite ?Z.add_0_r, ?Z.sub_0_r in *.
  assert (forall file, backed d s file -> outgoing (ss_world st') `prefix_of`
    outgoing w ++ hdr ++ whole file ++ footerBytes c (whole file)) as Hprefix.
  { intros file Hf. rewrite Ew in Ho2. etrans; [exact Ho2|]. rewrite <- app_assoc.
    apply prefix_app, prefix_app, prefix_app_r. by apply Hpre. }
  destruct ret.
  { destruct Hr as (e' & m & He' & ->). do 3 eexists. split_and!; [done|by split_and!; try done; right|done|done]. }
  destruct Hr as (Est & Eact & Eout & Eck & Ethr & Herr & Hall). rewrite Est, Eact. simpl.
  rewrite Z.add_0_l. unfold getSize. destruct (Zlen data =? size_ s) eqn:Esz; bool_to_prop; simpl.
  2:{ do 3 eexists. split_and!; [done|by split_and!; try done; right|done|done]. }
  match goal with |- context [check ?g ;; _] => assert (g = true) as -> end.
  { destruct (bc_throttled c); simpl; [|done]. destruct (Z.ltb_spec 0 (Zlen data)) as [E0|_]; simpl; [|done].
    destruct (Ethr eq_refl) as [E1 E2]. rewrite E1, (proj2 (Z.eqb_neq _ 0)) in E2 by lia. lia. }
  rewrite Eck. destruct (sendFooter _ _ _ _) as [stats' w'] eqn:Ef.
  apply sendFooter_spec in Ef as (Hf1 & Hf2 & Hf3 & Hf4 & Hf5).
  assert (forall file, backed d s file -> data = whole file) as Hdata.
  { intros file Hf. apply prefix_length_eq; [by apply Hpre|]. unfold whole.
    destruct Hf as [_ Hf]. pose proof (Zlen_slice (offset_ s) (size_ s) file). lia. }
  do 3 eexists. split_and!; [done|..].
  - split_and!; try done. destruct Hf5 as [(-> & _ & ->)|[? ->]]; [left|by right]. simpl. split_and!; [done|lia|].
    apply Herr. lia.
  - intros Hok. exists data. destruct Hf5 as [(_ & -> & _)|[? _]]; [|done].
    rewrite Eout, Ew, <- !app_assoc. done.
  - intros file Hf. rewrite <- (Hdata file Hf). rewrite Eout, Ew, <- !app_assoc in Hf1. done.
Qed.

(** C5: Sending one block always returns, and what it returns is one of two
    outcomes.  If there is no error, exactly the block is on the wire: the file
    command with the header, the bytes of the file at the offset of the block,
    as many as the header announces, and the footer with their checksum; and
    exactly those bytes are counted as effective.  With an error the
    connection carries no more than a prefix of that and nothing is counted.
    Both are the outcomes the bookkeeping of the transfer accounts for. *)
Theorem send_block d o md c s e w :
  let b := blockDetails_of md s in
  let whole := slice (offset_ s) (offset_ s + size_ s) in
  wf_block b -> Zlen (relPath md) <= PATH_MAX ->
  bytesRead_ s = 0 -> hasError md s = false -> wf_buffer o -> 0 <= bc_bufSize c ->
  (0 < size_ s -> well_behaved d s /\ allocationStatus md <> TO_BE_DELETED) ->
  exists stats s' w', sendOneByteSource crc32c d o md c s e w = Some (stats, s', w')
    /\ send_outcome s s' stats
    /\ (localErrCode_ stats = OK -> exists data, Zlen data = size_ s
          /\ outgoing w' = outgoing w ++ blockBytes c e b data
          /\ forall file, backed d s file -> data = whole file)
    /\ (forall file, backed d s file -> outgoing w' `prefix_of` outgoing w ++ blockBytes c e b (whole file)).
Proof. apply sendOneByteSource_spec. Qed.
End sending.

(** ** Whatever the disk and the connection do *)

Section outcome.
Context `{Host} {W : Type} `{Socket W} (crc32c : list Z -> Z -> Z).

Lemma read_keeps d o md s n data s' :
  read d o md s = Some (n, data, s') ->
  range s' = range s /\ counters (transferStats_ s') = counters (transferStats_ s)
  /\ (bytesRead_ s = size_ s -> s' = s)
  /\ (is_Some data -> bytesRead_ s' = bytesRead_ s + n
        /\ localErrCode_ (transferStats_ s') = localErrCode_ (transferStats_ s)).
Proof.
  unfold read. destruct (hasError md s || source_finished md s) eqn:Ef.
  { intros [= <- <- <-]. by split_and!; try done; intros [? ?]. }
  assert (bytesRead_ s <> size_ s) as Hne.
  { unfold source_finished in Ef. apply orb_false_iff in Ef as [-> Ef]. rewrite andb_true_r in Ef. by apply Z.eqb_neq. }
  intros Hr. repeat case_hyp Hr; simplify_eq/=; (split_and!; [done..|]); intros [? ?]; done.
Qed.

(** What the loop does to the source and to the statistics. *)
Definition loop_keeps (st : SendState (W := W)) (r : bool * SendState (W := W)) : Prop :=
  let s := ss_source st in let s' := ss_source r.2 in
  range s' = range s /\ counters (transferStats_ s') = counters (transferStats_ s)
  /\ if r.1 then exists e n, e <> OK /\ ss_stats r.2 = failBlock e (addDataBytes n (ss_stats st))
     else exists n, ss_stats r.2 = addDataBytes n (ss_stats st) /\ ss_actualSize r.2 = ss_actualSize st + n
       /\ (n = size_ s - bytesRead_ s -> localErrCode_ (transferStats_ s') = localErrCode_ (transferStats_ s)).

Lemma sendLoop_keeps fuel d o md c st r : sendLoop crc32c fuel d o md c st = Some r -> loop_keeps st r.
Proof.
  revert st. induction fuel as [|fuel IH]; intros [s stats actual ck inst total w]; cbn [sendLoop];
    destruct (source_finished md s) eqn:Ef; intros Hr; simplify_eq.
  1-2: split_and!; [done..|]; exists 0; rewrite addDataBytes_0; split_and!; [done|simpl; lia|done].
  destruct (readHeartBeats c w) as [hb w1].
  destruct (read d o md s) as [[[n buffer] s1]|] eqn:Er; [|done]. cbn [mbind option_bind] in Hr.
  apply read_keeps in Er as (Hrng & Hcnt & Hfull & Hdata). unfold loop_keeps. simpl.
  destruct (hasError md s1).
  { injection Hr as <-. simpl. split_and!; [done..|]. exists 0. rewrite addDataBytes_0.
    split_and!; [done|lia|]. intros E. by rewrite Hfull by lia. }
  destruct buffer as [data|]; [|done]. destruct Hdata as [Hb He]; [by eexists|]. cbn [mbind option_bind] in Hr.
  destruct (0 <? n); [|done]. destruct (if bc_throttled c then _ else _) as [inst' total'].
  destruct (sock_write data w1) as [written w2]. destruct (abortCode w2) as [ab w3].
  destruct (negb (bool_decide (ab = OK))).
  { injection Hr as <-. simpl. split_and!; [done..|]. exists ABORT, 0. by rewrite addDataBytes_0. }
  destruct (written =? n) eqn:En; cbn [negb] in Hr; bool_to_prop.
  2:{ injection Hr as <-. simpl. split_and!; [done..|]. exists SOCKET_WRITE_ERROR, 0. by rewrite addDataBytes_0. }
  subst written. apply IH in Hr as (Hrng' & Hcnt' & Hr). simpl in *. rewrite Hrng', Hcnt'. split_and!; [done..|].
  destruct r.1.
  - destruct Hr as (e & m & He' & ->). exists e, (n + m). by rewrite addDataBytes_add.
  - destruct Hr as (m & -> & -> & Herr). exists (n + m). rewrite addDataBytes_add.
    injection Hrng as Hrng. split_and!; [done|lia|]. intros E. rewrite <- He. apply Herr. lia.
Qed.

(** Whatever happens, the block is counted as a whole or not at all. *)
Lemma sendOneByteSource_outcome d o md c s e w stats s' w' :
  sendOneByteSource crc32c d o md c s e w = Some (stats, s', w') ->
  numBlocksSend_ stats = -1 /\ totalSenderBytes_ stats = -1
  /\ (bytesRead_ s = 0 \/ size_ s = 0 -> send_outcome s s' stats).
Proof.
  unfold sendOneByteSource. destruct (fileHeader _ _ _) as [[hdr off]|]; [|done]. cbn [mbind option_bind].
  destruct (sock_write _ w) as [n w1]. destruct (negb (n =? off)).
  { intros [= <- <- <-]. split_and!; try done. intros _. split_and!; try done. by right. }
  destruct (sendLoop _ _ _ _ _ _ _) as [[ret st]|] eqn:El; [|done]. cbn [mbind option_bind].
  assert (bytesRead_ s = 0 \/ size_ s = 0 -> bytesRead_ s = 0) as Hb0.
  { intros [|Hz]; [done|]. revert El. unfold getSize. rewrite Hz. simpl. unfold source_finished.
    rewrite Hz. by destruct (bytesRead_ s =? 0) eqn:E; [bool_to_prop|]. }
  apply sendLoop_keeps in El as (Hrng & Hcnt & Hr). simpl in *. destruct ret.
  { intros [= <- <- <-]. destruct Hr as (e' & m & He & ->). split_and!; try done. intros _. split_and!; try done. by right. }
  destruct Hr as (m & Hst & Hact & Herr). rewrite Hst, Hact, Z.add_0_l.
  unfold getSize. destruct (m =? size_ s) eqn:Em; cbn [negb]; bool_to_prop.
  2:{ intros [= <- <- <-]. split_and!; try done. intros _. split_and!; try done. by right. }
  subst m. destruct (_ || _); [|done]. unfold sendFooter. intros E.
  assert (bytesRead_ s = 0 \/ size_ s = 0 ->
    localErrCode_ (transferStats_ (ss_source st)) = localErrCode_ (transferStats_ s)) as Herr'.
  { intros Hb. apply Herr. rewrite Hb0 by done. lia. }
  destruct (bool_decide _).
  { injection E as <- <- <-. split_and!; try done. intros Hb. split_and!; try done. left.
    split_and!; [done|simpl; lia|by apply Herr']. }
  destruct (encodeFooter _ _ _ _) as [[ok' buf] off']. destruct (sock_write _ _) as [n' w2].
  destruct (negb (n' =? off')); injection E as <- <- <-; (split_and!; try done); intros Hb; (split_and!; try done); [by right|left].
  split_and!; [done|simpl; lia|by apply Herr'].
Qed.
End outcome.

(** ** An example *)

(** CRC-32C, bit by bit. *)
Definition crc_bit (c : Z) : Z :=
  Z.lxor (Z.shiftr c 1) (if Z.testbit c 0 then 0x82F63B78 else 0).
Definition crc_byte (c b : Z) : Z :=
  Nat.iter 8 crc_bit (Z.lxor c (wrapU 8 b)).
Definition crc32c_software (bs : list Z) (start : Z) : Z := foldl crc_byte (wrapU 32 start) bs.

Lemma lxor_inU w a b : 0 <= w -> inU w a -> inU w b -> inU w (Z.lxor a b).
Proof.
  intros Hw Ha Hb. unfold inU in *. assert (0 <= Z.lxor a b) as H0 by (apply Z.lxor_nonneg; lia).
  split; [done|]. destruct (decide (Z.lxor a b = 0)) as [->|E]; [lia|].
  apply Z.log2_lt_pow2; [lia|].
  pose proof (Z.log2_lxor a b ltac:(lia) ltac:(lia)) as Hl.
  destruct (decide (a = 0)) as [->|Ea].
  { rewrite Z.lxor_0_l in *. apply Z.log2_lt_pow2; lia. }
  destruct (decide (b = 0)) as [->|Eb].
  { rewrite Z.lxor_0_r in *. apply Z.log2_lt_pow2; lia. }
  assert (Z.log2 a < w) by (apply Z.log2_lt_pow2; lia).
  assert (Z.log2 b < w) by (apply Z.log2_lt_pow2; lia). lia.
Qed.
Lemma crc_bit_inU c : inU 32 c -> inU 32 (crc_bit c).
Proof.
  intros Hc. apply lxor_inU; [done| |by case_match; split].
  unfold inU in *. rewrite Z.shiftr_div_pow2 by done. split; [apply Z.div_pos; lia|].
  apply Z.div_lt_upper_bound; lia.
Qed.
Lemma crc_byte_inU c b : inU 32 c -> inU 32 (crc_byte c b).
Proof.
  intros Hc. assert (inU 32 (Z.lxor c (wrapU 8 b))) as H.
  { apply lxor_inU; [done|done|]. pose proof (wrapU_range 8 b ltac:(lia)). unfold inU in *. lia. }
  unfold crc_byte. do 8 (apply crc_bit_inU in H). exact H.
Qed.
#[global] Instance crc32c_software_laws : Crc32c crc32c_software.
Proof.
  split.
  - intros bs s. unfold crc32c_software. pose proof (wrapU_range 32 s ltac:(lia)) as Hs. revert Hs.
    generalize (wrapU 32 s). induction bs as [|b bs IH]; intros c Hc; simpl; [done|].
    by apply IH, crc_byte_inU.
  - intros s Hs. by apply wrapU_small.
  - intros bs bs' s. unfold crc32c_software. rewrite foldl_app. f_equal.
    symmetry. apply wrapU_small. pose proof (wrapU_range 32 s ltac:(lia)) as Hs. revert Hs.
    generalize (wrapU 32 s). induction bs as [|b bs IH]; intros c Hc; simpl; [done|].
    by apply IH, crc_byte_inU.
Qed.

Definition ex_disk (file : list Z) : Disk :=
  mkDisk (fun _ _ _ => 5) (fun _ n pos => if n <? 0 then None else Some (slice pos (pos + n) file)).
Lemma ex_disk_reads file f direct : reads_file (ex_disk file) f direct file.
Proof.
  intros count pos Hp Hc. simpl. rewrite (proj2 (Z.ltb_ge _ _)) by lia.
  exists (Z.min count (Z.max 0 (Zlen file - pos))). split_and!; [|lia|lia|lia|lia].
  f_equal. unfold slice. replace (pos + count - pos) with count by lia.
  destruct (decide (count <= Zlen file - pos)).
  - do 2 f_equal. lia.
  - rewrite !firstn_all2; [done|rewrite length_drop; lia..].
Qed.
Lemma ex_disk_behaved file s :
  offset_ s + size_ s <= Zlen file -> well_behaved (ex_disk file) s.
Proof.
  intros Hs. split.
  - intros f n pos bs. simpl. destruct (n <? 0) eqn:En; bool_to_prop; [done|]. intros [= <-].
    unfold slice. rewrite length_take. lia.
  - intros _. exists file. split; [apply ex_disk_reads|done].
Qed.

(** The block of bytes 1 to 3 of a file with five bytes. *)
Definition ex_file : list Z := [10; 11; 12; 13; 14].
Definition ex_md : SourceMetaData := mkSourceMetaData [47; 102] [102] 7 5 NOT_EXISTS 0 false (-1) true.
Definition ex_read : ReadOptions := mkReadOptions true 4096.
Definition ex_config : BlockConfig := mkBlockConfig 32 CHECKSUM_FOOTER true true 4096.
Definition ex_source : FileByteSource :=
  Eval vm_compute in (source_open (ex_disk ex_file) ex_read ex_md (FileByteSource_make 0 ex_md 3 1)).2.

Lemma ex_source_wf : wf_block (blockDetails_of ex_md ex_source).
Proof. repeat split; try done. by exists 0. Qed.

Lemma send_block_witness : exists stats s' w',
  @sendOneByteSource littleHost Wire _ crc32c_software (ex_disk ex_file) ex_read ex_md ex_config ex_source OK
    (mkWire [] []) = Some (stats, s', w')
  /\ localErrCode_ stats = OK /\ Zlen (outgoing w') = 20.
Proof.
  destruct (@send_block littleHost Wire _ _ crc32c_software _ (ex_disk ex_file) ex_read ex_md ex_config
    ex_source OK (mkWire [] [])) as (stats & s' & w' & E & _ & Hok & _).
  - exact ex_source_wf.
  - eval_side.
  - done.
  - done.
  - done.
  - done.
  - intros _. split; [|done]. by apply ex_disk_behaved.
  - vm_compute in E. injection E as <- <- <-. do 3 eexists. split_and!; vm_compute; reflexivity.
Defined.
