(* ===== verification/ThreadsController.v ===== *)
(** The coordination of the threads of a transfer: [ThreadsController] of
    [util/ThreadsController.h] and [.cpp] with its primitives [Barrier],
    [Funnel] and [ExecuteOnceFunc].

    The body of each method runs under a mutex, so a method, or its part up to
    a wait on the condition variable, is one function.  The theorems interleave
    these functions over any number of threads. *)
From stdpp Require Import gmap.
From S2P Require Import Prelude.

(** ** ExecuteOnceFunc

    [execute] takes what the passed function does to the state it captures. *)
Record ExecuteOnceFunc := mkExecuteOnceFunc {
  eo_numHits_ : Z;
  eo_execFirst_ : bool;
  eo_numThreads_ : Z
}.
Definition ExecuteOnceFunc_make (numThreads : Z) (execFirst : bool) : ExecuteOnceFunc :=
  mkExecuteOnceFunc 0 execFirst numThreads.
Definition execute {S} (execFunc : S -> S) (e : ExecuteOnceFunc) (s : S) : option (ExecuteOnceFunc * S) :=
  let e := mkExecuteOnceFunc (eo_numHits_ e + 1) (eo_execFirst_ e) (eo_numThreads_ e) in
  check eo_numHits_ e <=? eo_numThreads_ e ;;
  let numExpected := if eo_execFirst_ e then 1 else eo_numThreads_ e in
  Some (e, if eo_numHits_ e =? numExpected then execFunc s else s).
Definition ExecuteOnceFunc_reset (e : ExecuteOnceFunc) : ExecuteOnceFunc :=
  mkExecuteOnceFunc 0 (eo_execFirst_ e) (eo_numThreads_ e).

(** ** Barrier *)

Record Barrier := mkBarrier {
  numHits_ : Z;
  b_numThreads_ : Z;
  isComplete_ : bool
}.
Definition Barrier_make (numThreads : Z) : Barrier := mkBarrier 0 numThreads false.

Definition checkForFinish (b : Barrier) : option (bool * Barrier) :=
  check numHits_ b <=? b_numThreads_ b ;;
  let b := if numHits_ b =? b_numThreads_ b then mkBarrier (numHits_ b) (b_numThreads_ b) true else b in
  Some (isComplete_ b, b).

(** [execute] up to the wait: [true] when it returns at once. *)
Definition Barrier_execute (b : Barrier) : option (bool * Barrier) :=
  check negb (isComplete_ b) ;;
  checkForFinish (mkBarrier (numHits_ b + 1) (b_numThreads_ b) (isComplete_ b)).
(** The test of its loop: whether a thread that was woken returns. *)
Definition Barrier_awakened (b : Barrier) : bool := isComplete_ b.

Definition deRegister (b : Barrier) : option Barrier :=
  if isComplete_ b then Some b
  else
    let* (_, b) := checkForFinish (mkBarrier (numHits_ b) (b_numThreads_ b - 1) (isComplete_ b)) in
    Some b.

(** ** Funnel *)

Inductive FunnelStatus := FUNNEL_START | FUNNEL_PROGRESS | FUNNEL_END.
#[global] Instance FunnelStatus_eq_dec : EqDecision FunnelStatus.
Proof. solve_decision. Defined.

Definition getStatus (status : FunnelStatus) : FunnelStatus * FunnelStatus :=
  if bool_decide (status = FUNNEL_START) then (FUNNEL_START, FUNNEL_PROGRESS) else (status, status).
(** Whether [wait] goes to sleep. *)
Definition Funnel_waits (status : FunnelStatus) : bool := bool_decide (status = FUNNEL_PROGRESS).
Definition notifySuccess (status : FunnelStatus) : FunnelStatus := FUNNEL_END.
Definition notifyFail (status : FunnelStatus) : FunnelStatus := FUNNEL_START.

(** ** ThreadsController

    The condition guards hold no data beyond their mutex and condition
    variable: only their number is kept. *)

Inductive ThreadStatus := INIT | RUNNING | WAITING | FINISHED.
#[global] Instance ThreadStatus_eq_dec : EqDecision ThreadStatus.
Proof. solve_decision. Defined.

Record ThreadsController := mkThreadsController {
  totalThreads_ : Z;
  threadStateMap_ : gmap Z ThreadStatus;
  execAtStart_ : ExecuteOnceFunc;
  execAtEnd_ : ExecuteOnceFunc;
  funnelExecutors_ : list FunnelStatus;
  conditionGuards_ : nat;
  barriers_ : list Barrier
}.
#[global] Instance ThreadsController_settable : Settable ThreadsController := fun c =>
  mkThreadsController (totalThreads_ c) (threadStateMap_ c) (execAtStart_ c) (execAtEnd_ c)
    (funnelExecutors_ c) (conditionGuards_ c) (barriers_ c).

Definition ThreadsController_make (totalThreads : Z) : ThreadsController :=
  mkThreadsController totalThreads
    (list_to_map ((fun threadNum => (threadNum, INIT)) <$> seqZ 0 totalThreads))
    (ExecuteOnceFunc_make totalThreads true) (ExecuteOnceFunc_make totalThreads false) [] 0 [].

Definition registerThread (threadIndex : Z) (c : ThreadsController) : option ThreadsController :=
  let* _ := threadStateMap_ c !! threadIndex in
  Some (c <| threadStateMap_ := <[threadIndex := RUNNING]> (threadStateMap_ c) |>).

Fixpoint deRegisterAll (l : list Barrier) : option (list Barrier) :=
  match l with
  | [] => Some []
  | barrier :: l =>
      let* barrier := deRegister barrier in
      let* l := deRegisterAll l in
      Some (barrier :: l)
  end.
Definition deRegisterThread (threadIndex : Z) (c : ThreadsController) : option ThreadsController :=
  let* _ := threadStateMap_ c !! threadIndex in
  let c := c <| threadStateMap_ := <[threadIndex := FINISHED]> (threadStateMap_ c) |> in
  let* l := deRegisterAll (barriers_ c) in
  Some (c <| barriers_ := l |>).

Definition getState (threadIndex : Z) (c : ThreadsController) : option ThreadStatus :=
  threadStateMap_ c !! threadIndex.
Definition markState (threadIndex : Z) (threadState : ThreadStatus) (c : ThreadsController)
    : ThreadsController :=
  c <| threadStateMap_ := <[threadIndex := threadState]> (threadStateMap_ c) |>.
Definition hasThreads (threadIndex : Z) (threadState : ThreadStatus) (c : ThreadsController) : bool :=
  existsb (fun '(i, st) => negb (i =? threadIndex) && bool_decide (st = threadState))
    (map_to_list (threadStateMap_ c)).
Definition hasThreads_any (threadState : ThreadStatus) (c : ThreadsController) : bool :=
  hasThreads (-1) threadState c.
Definition numRunningThreads (c : ThreadsController) : Z :=
  Zlen (filter (fun p => p.2 = RUNNING) (map_to_list (threadStateMap_ c))).

Definition getFunnel (funnelIndex : nat) (c : ThreadsController) : option FunnelStatus :=
  funnelExecutors_ c !! funnelIndex.
Definition getBarrier (barrierIndex : nat) (c : ThreadsController) : option Barrier :=
  barriers_ c !! barrierIndex.
Definition getCondition (conditionIndex : nat) (c : ThreadsController) : option unit :=
  check (conditionIndex <? conditionGuards_ c)%nat ;; Some tt.

Definition setNumBarriers (numBarriers : nat) (c : ThreadsController) : ThreadsController :=
  c <| barriers_ := replicate numBarriers (Barrier_make (totalThreads_ c)) |>.
Definition setNumConditions (numConditions : nat) (c : ThreadsController) : ThreadsController :=
  c <| conditionGuards_ := numConditions |>.
Definition setNumFunnels (numFunnels : nat) (c : ThreadsController) : ThreadsController :=
  c <| funnelExecutors_ := replicate numFunnels FUNNEL_START |>.

Definition controller_reset (c : ThreadsController) : ThreadsController :=
  let c := setNumBarriers (length (barriers_ c)) c in
  let c := setNumConditions (conditionGuards_ c) c in
  let c := setNumFunnels (length (funnelExecutors_ c)) c in
  let c := c <| execAtStart_ := ExecuteOnceFunc_reset (execAtStart_ c) |> in
  let c := c <| execAtEnd_ := ExecuteOnceFunc_reset (execAtEnd_ c) |> in
  c <| threadStateMap_ := (fun _ => RUNNING) <$> threadStateMap_ c |>.

(** ** The barrier under interleaving

    What a thread has done with a barrier: nothing yet, blocked in [execute],
    returned from it, or left the transfer. *)
Inductive Place := Outside | Blocked | Passed | Gone.
#[global] Instance Place_eq_dec : EqDecision Place.
Proof. solve_decision. Defined.

Inductive bstep : list Place * Barrier -> list Place * Barrier -> Prop :=
  | bstep_execute ts b i returned b' :
      ts !! i = Some Outside -> Barrier_execute b = Some (returned, b') ->
      bstep (ts, b) (<[i := if returned : bool then Passed else Blocked]> ts, b')
  | bstep_awakened ts b i :
      ts !! i = Some Blocked -> Barrier_awakened b = true ->
      bstep (ts, b) (<[i := Passed]> ts, b)
  | bstep_deRegister ts b i p b' :
      ts !! i = Some p -> p = Outside \/ p = Passed -> deRegister b = Some b' ->
      bstep (ts, b) (<[i := Gone]> ts, b').
Definition breachable (n : nat) (σ : list Place * Barrier) : Prop :=
  rtc bstep (replicate n Outside, Barrier_make (Z.of_nat n)) σ.

Definition count (p : Place) (ts : list Place) : Z := Zlen (filter (fun q => q = p) ts).

Lemma count_insert p q q' i ts :
  ts !! i = Some q ->
  count p (<[i := q']> ts) = count p ts - (if decide (q = p) then 1 else 0) + (if decide (q' = p) then 1 else 0).
Proof.
  intros Hi. unfold count. rewrite <- (take_drop_middle ts i q Hi) at 2.
  rewrite insert_take_drop by (by eapply lookup_lt_Some).
  rewrite !filter_app, !filter_cons, !length_app. do 2 case_decide; simpl; lia.
Qed.
Lemma count_nonneg p ts : 0 <= count p ts.
Proof. unfold count. lia. Qed.
Lemma count_zero p ts : count p ts = 0 <-> p ∉ ts.
Proof.
  unfold count. split.
  - intros H Hin. assert (p ∈ filter (fun q => q = p) ts) as Hf by (by apply list_elem_of_filter).
    destruct (filter _ ts); [by apply not_elem_of_nil in Hf|]. simpl in H. lia.
  - intros Hin. enough (filter (fun q => q = p) ts = []) as -> by done.
    apply elem_of_nil_inv. intros q [-> Hq]%list_elem_of_filter. done.
Qed.

(** Until it is complete the barrier counts the threads inside and those that
    have not left; from then on nobody is outside. *)
Definition binv (σ : list Place * Barrier) : Prop :=
  let '(ts, b) := σ in
  if isComplete_ b then count Outside ts = 0
  else numHits_ b = count Blocked ts /\ count Passed ts = 0
       /\ b_numThreads_ b = count Outside ts + count Blocked ts
       /\ (0 < count Outside ts \/ ts = []).

Lemma binv_initial n : binv (replicate n Outside, Barrier_make (Z.of_nat n)).
Proof.
  simpl. assert (forall p, count p (replicate n Outside) = if decide (p = Outside) then Z.of_nat n else 0) as E.
  { intros p. unfold count. induction n as [|n IH]; simpl; [by case_decide|].
    rewrite filter_cons. repeat case_decide; subst; simpl in *; try done; lia. }
  rewrite !E. simpl. destruct n; [by auto|]. split_and!; [done..|lia|left; lia].
Qed.

Lemma lookup_count p i ts : ts !! i = Some p -> 0 < count p ts.
Proof.
  intros Hi. pose proof (count_nonneg p ts). destruct (decide (count p ts = 0)) as [E|]; [|lia].
  apply count_zero in E. by apply list_elem_of_lookup_2 in Hi.
Qed.

Ltac counts Hi :=
  repeat match goal with
  | |- context [count ?p (<[_ := ?q]> ?ts)] =>
      rewrite (count_insert p _ q _ ts Hi); simpl
  end.

Lemma binv_execute ts b i :
  binv (ts, b) -> ts !! i = Some Outside ->
  exists r b', Barrier_execute b = Some (r, b') /\ binv (<[i := if r : bool then Passed else Blocked]> ts, b').
Proof.
  intros Hinv Hi. pose proof (lookup_count _ _ _ Hi). pose proof (count_nonneg Blocked ts).
  unfold Barrier_execute, checkForFinish. unfold binv in Hinv. destruct (isComplete_ b); [lia|]. simpl.
  destruct Hinv as (Hh & Hp & Hn & _). rewrite (proj2 (Z.leb_le _ _)) by lia.
  destruct (numHits_ b + 1 =? b_numThreads_ b) eqn:E; bool_to_prop; simpl.
  - exists true. eexists. split; [done|]. simpl. counts Hi. lia.
  - exists false. eexists. split; [done|]. simpl. counts Hi. lia.
Qed.
Lemma binv_deRegister ts b i p :
  binv (ts, b) -> ts !! i = Some p -> p = Outside \/ p = Passed ->
  exists b', deRegister b = Some b' /\ binv (<[i := Gone]> ts, b').
Proof.
  intros Hinv Hi Hp. unfold deRegister, checkForFinish. unfold binv in Hinv.
  destruct (isComplete_ b) eqn:Ec.
  { exists b. split; [done|]. simpl. rewrite Ec. counts Hi.
    destruct Hp as [-> | ->]; simpl; [|lia]. apply lookup_count in Hi. lia. }
  destruct Hinv as (Hh & Hz & Hn & _).
  destruct Hp as [-> | ->]; [|apply lookup_count in Hi; lia].
  pose proof (lookup_count _ _ _ Hi). pose proof (count_nonneg Blocked ts).
  simpl. rewrite (proj2 (Z.leb_le _ _)) by lia.
  destruct (numHits_ b =? b_numThreads_ b - 1) eqn:E; bool_to_prop; simpl;
    (eexists; split; [done|]); simpl; counts Hi; [lia|]. lia.
Qed.

Lemma binv_reachable n σ : breachable n σ -> binv σ.
Proof.
  unfold breachable. generalize (binv_initial n). generalize (replicate n Outside, Barrier_make (Z.of_nat n)).
  intros σ0 H0 Hr. induction Hr as [σ|σ σ1 σ2 Hs _ IH]; [done|]. apply IH. clear IH σ2.
  destruct Hs as [ts b i r b' Hi He|ts b i Hi He|ts b i p b' Hi Hp Hd].
  - destruct (binv_execute _ _ _ H0 Hi) as (r2 & b2 & E & H). rewrite E in He. by simplify_eq.
  - unfold Barrier_awakened in He. simpl in *. rewrite He in *. counts Hi. lia.
  - destruct (binv_deRegister _ _ _ _ H0 Hi Hp) as (b2 & E & H). rewrite E in Hd. by simplify_eq.
Qed.


(** Three threads: one is blocked, one leaves, the third arrives last. *)
Definition ex_barrier : Barrier := mkBarrier 2 2 true.
Lemma ex_barrier_reachable : breachable 3 ([Blocked; Gone; Passed], ex_barrier).
Proof.
  eapply rtc_l; [by eapply (bstep_execute _ _ 0 false)|].
  eapply rtc_l; [by eapply (bstep_deRegister _ _ 1 Outside); [|left|]|].
  eapply rtc_l; [by eapply (bstep_execute _ _ 2 true)|]. apply rtc_refl.
Qed.
