(* ===== verification/FileSystem.v ===== *)
(** The system calls with which a receiver writes files, as an interface: the
    operations [open], [close], [lseek], [write], ... on a state [F], what
    POSIX says of them, and an instance in memory. *)
From stdpp Require Import gmap.
From S2P Require Import Prelude.

(** The flags of [open] beyond [O_WRONLY]. *)
Record OpenFlags := mkOpenFlags { o_creat : bool; o_trunc : bool; o_excl : bool; o_cloexec : bool }.

(** Of [mkdir]: success, [EEXIST] or [EISDIR], another error. *)
Inductive MkdirResult := MadeDir | DirExists | MkdirFailed.
(** Of [write]: the number of bytes written, [EINTR], another error. *)
Inductive WriteResult := Written (n : Z) | Interrupted | WriteFailed.

(** A call that only succeeds or fails returns whether it succeeded; a
    descriptor is negative for an error. *)
Class FileSystem (F : Type) := {
  fs_open : list Z -> OpenFlags -> F -> Z * F;
  fs_close : Z -> F -> bool * F;
  fs_unlink : list Z -> F -> bool * F;
  fs_mkdir : list Z -> F -> MkdirResult * F;
  fs_size : Z -> F -> option Z * F;
  fs_truncate : Z -> Z -> F -> bool * F;
  fs_allocate : Z -> Z -> F -> bool * F;
  fs_seek : Z -> Z -> F -> bool * F;
  fs_write : Z -> list Z -> F -> WriteResult * F;
  fs_fsync : Z -> F -> bool * F;
  fs_sync_range : Z -> Z -> Z -> F -> bool * F;
  fs_fadvise : Z -> Z -> Z -> F -> bool * F
}.

(** The bytes [c] with [bs] written at [pos]; a gap is filled with zeros. *)
Definition overwrite (pos : Z) (bs c : list Z) : list Z :=
  take (Z.to_nat pos) c ++ replicate (Z.to_nat pos - length c) 0 ++ bs
  ++ drop (Z.to_nat pos + length bs) c.

(** What a file shows of the calls: the bytes of the file at a path, the file
    and position behind a descriptor, and how many writes will be
    interrupted. *)
Class FileSystemLaws (F : Type) `{FileSystem F} := {
  file_at : F -> list Z -> option (list Z);
  fd_at : F -> Z -> option (list Z * Z);
  interrupts : F -> nat;
  (** nothing that the code can see has changed *)
  fs_quiet f f' := file_at f' = file_at f /\ fd_at f' = fd_at f /\ (interrupts f' <= interrupts f)%nat;
  open_spec p fl f d f' : fs_open p fl f = (d, f') -> 0 <= d ->
    (exists c, file_at f' p = Some c) /\ fd_at f' d = Some (p, 0);
  open_interrupts p fl f d f' : fs_open p fl f = (d, f') -> (interrupts f' <= interrupts f)%nat;
  open_keeps p fl f d f' : fs_open p fl f = (d, f') -> o_trunc fl = false ->
    forall q, is_Some (file_at f q) -> file_at f' q = file_at f q;
  seek_spec d q f f' p r : fs_seek d q f = (true, f') -> fd_at f d = Some (p, r) -> 0 <= q ->
    file_at f' = file_at f /\ fd_at f' d = Some (p, q) /\ (interrupts f' <= interrupts f)%nat;
  write_done d bs f n f' p q c : fs_write d bs f = (Written n, f') -> fd_at f d = Some (p, q) ->
    file_at f p = Some c -> bs <> [] ->
    0 < n <= Zlen bs /\ file_at f' p = Some (overwrite q (take (Z.to_nat n) bs) c)
    /\ fd_at f' d = Some (p, q + n) /\ (interrupts f' <= interrupts f)%nat;
  write_again d bs f f' : fs_write d bs f = (Interrupted, f') ->
    file_at f' = file_at f /\ fd_at f' = fd_at f /\ (interrupts f' < interrupts f)%nat;
  write_failed d bs f f' : fs_write d bs f = (WriteFailed, f') -> (interrupts f' <= interrupts f)%nat;
  seek_failed d q f f' : fs_seek d q f = (false, f') -> (interrupts f' <= interrupts f)%nat;
  size_spec d f r f' : fs_size d f = (r, f') -> fs_quiet f f';
  truncate_spec d n f r f' : fs_truncate d n f = (r, f') ->
    fd_at f' = fd_at f /\ (forall p, is_Some (file_at f p) -> is_Some (file_at f' p))
    /\ (interrupts f' <= interrupts f)%nat;
  allocate_spec d n f r f' : fs_allocate d n f = (r, f') ->
    fd_at f' = fd_at f /\ (forall p, is_Some (file_at f p) -> is_Some (file_at f' p))
    /\ (interrupts f' <= interrupts f)%nat;
  fsync_spec d f r f' : fs_fsync d f = (r, f') -> fs_quiet f f';
  sync_range_spec d o n f r f' : fs_sync_range d o n f = (r, f') -> fs_quiet f f';
  fadvise_spec d o n f r f' : fs_fadvise d o n f = (r, f') -> fs_quiet f f';
  close_spec d f r f' : fs_close d f = (r, f') ->
    file_at f' = file_at f /\ (interrupts f' <= interrupts f)%nat;
  mkdir_spec p f r f' : fs_mkdir p f = (r, f') -> fs_quiet f f';
  unlink_spec p f r f' : fs_unlink p f = (r, f') -> (interrupts f' <= interrupts f)%nat
}.

(** ** Overwriting *)

Lemma overwrite_app q a b c :
  0 <= q -> overwrite (q + Zlen a) b (overwrite q a c) = overwrite q (a ++ b) c.
Proof.
  intros Hq. unfold overwrite. rewrite Z2Nat.inj_add, Nat2Z.id by lia.
  set (n := Z.to_nat q). clearbody n. clear q Hq.
  set (hd := take n c ++ replicate (n - length c) 0).
  assert (length hd = n) as Hhd.
  { unfold hd. rewrite length_app, length_take, length_replicate. lia. }
  rewrite (app_assoc (take n c)). fold hd. rewrite (app_assoc hd a).
  assert (length (hd ++ a) = (n + length a)%nat) as Hl by (rewrite length_app; lia).
  rewrite take_app_length' by lia. rewrite (length_app (hd ++ a)), Hl.
  replace (n + length a - (n + length a + _))%nat with 0%nat by lia. simpl.
  rewrite drop_app, drop_ge by lia. rewrite Hl. simpl. rewrite drop_drop.
  rewrite <- !app_assoc. rewrite (app_assoc (take n c)). fold hd. do 4 f_equal.
  rewrite length_app. lia.
Qed.

(** The bytes written are there; the bytes outside are the old ones. *)
Lemma overwrite_slice q a c : 0 <= q -> slice q (q + Zlen a) (overwrite q a c) = a.
Proof.
  intros Hq. unfold slice, overwrite. rewrite app_assoc.
  rewrite drop_app_length' by (rewrite length_app, length_take, length_replicate; lia).
  rewrite take_app_length'; [done|lia].
Qed.
Lemma overwrite_outside q a c i j :
  0 <= q -> 0 <= i <= j -> j <= Zlen c -> j <= q \/ q + Zlen a <= i ->
  slice i j (overwrite q a c) = slice i j c.
Proof.
  intros Hq Hi Hj Hd. unfold slice, overwrite.
  destruct (decide (q <= Zlen c)).
  - replace (Z.to_nat q - length c)%nat with 0%nat by lia. simpl. destruct Hd as [Hd|Hd].
    + rewrite drop_app_le by (rewrite length_take; lia).
      rewrite take_app_le by (rewrite length_drop, length_take; lia).
      rewrite skipn_firstn_comm, take_take. f_equal. lia.
    + rewrite app_assoc, drop_app_ge by (rewrite length_app, length_take; lia).
      rewrite drop_drop, length_app, length_take. do 2 f_equal. lia.
  - rewrite (take_ge c) by lia.
    rewrite drop_app_le, take_app_le by (rewrite ?length_drop; lia). done.
Qed.

(** Writing nothing changes nothing. *)
Definition put (pos : Z) (bs c : list Z) : list Z := if decide (bs = []) then c else overwrite pos bs c.
Lemma put_app q a b c : 0 <= q -> put (q + Zlen a) b (put q a c) = put q (a ++ b) c.
Proof.
  intros Hq. unfold put. destruct (decide (a = [])) as [->|Ha].
  { simpl. by rewrite Z.add_0_r. }
  rewrite (decide_False (P := a ++ b = [])) by (destruct a; done).
  case_decide as Eb; [by rewrite Eb, app_nil_r|]. by apply overwrite_app.
Qed.
Lemma put_slice q a c : 0 <= q -> slice q (q + Zlen a) (put q a c) = a.
Proof.
  intros Hq. unfold put. case_decide as E; [|by apply overwrite_slice].
  rewrite E. unfold slice. simpl. by rewrite Z.add_0_r, Z.sub_diag.
Qed.
Lemma put_outside q a c i j :
  0 <= q -> 0 <= i <= j -> j <= Zlen c -> j <= q \/ q + Zlen a <= i -> slice i j (put q a c) = slice i j c.
Proof. intros. unfold put. case_decide; [done|]. by apply overwrite_outside. Qed.

(** ** A file system in memory *)

Record Mem := mkMem { files : gmap (list Z) (list Z); fds : gmap Z (list Z * Z); nextFd : Z }.

Definition mem_open (p : list Z) (fl : OpenFlags) (f : Mem) : Z * Mem :=
  match files f !! p with
  | Some c =>
      if o_excl fl then (-1, f)
      else (nextFd f, mkMem (if o_trunc fl then <[p := []]> (files f) else files f)
                        (<[nextFd f := (p, 0)]> (fds f)) (nextFd f + 1))
  | None =>
      if o_creat fl then (nextFd f, mkMem (<[p := []]> (files f)) (<[nextFd f := (p, 0)]> (fds f)) (nextFd f + 1))
      else (-1, f)
  end.
Definition mem_write (d : Z) (bs : list Z) (f : Mem) : WriteResult * Mem :=
  match fds f !! d with
  | Some (p, q) =>
      match files f !! p with
      | Some c =>
          (* no more than seven bytes at once *)
          let n := Z.min 7 (Zlen bs) in
          (Written n, mkMem (<[p := overwrite q (take (Z.to_nat n) bs) c]> (files f)) (<[d := (p, q + n)]> (fds f)) (nextFd f))
      | None => (WriteFailed, f)
      end
  | None => (WriteFailed, f)
  end.
(** The file behind a descriptor is resized. *)
Definition mem_resize (g : list Z -> list Z) (d : Z) (f : Mem) : bool * Mem :=
  match fds f !! d with
  | Some (p, _) => (true, mkMem (alter g p (files f)) (fds f) (nextFd f))
  | None => (false, f)
  end.
Definition mem_size (d : Z) (f : Mem) : option Z :=
  let* (p, _) := fds f !! d in let* c := files f !! p in Some (Zlen c).
Definition mem_seek (d q : Z) (f : Mem) : bool * Mem :=
  match fds f !! d with
  | Some (p, _) => (true, mkMem (files f) (<[d := (p, q)]> (fds f)) (nextFd f))
  | None => (false, f)
  end.

#[global] Instance Mem_file_system : FileSystem Mem := {
  fs_open := mem_open;
  fs_close d f := (true, mkMem (files f) (delete d (fds f)) (nextFd f));
  fs_unlink p f := (bool_decide (is_Some (files f !! p)), mkMem (delete p (files f)) (fds f) (nextFd f));
  fs_mkdir p f := (MadeDir, f);
  fs_size d f := (mem_size d f, f);
  fs_truncate d n f := mem_resize (fun c => take (Z.to_nat n) c ++ replicate (Z.to_nat n - length c) 0) d f;
  fs_allocate d n f := mem_resize (fun c => c ++ replicate (Z.to_nat n - length c) 0) d f;
  fs_seek := mem_seek;
  fs_write := mem_write;
  fs_fsync d f := (true, f);
  fs_sync_range d o n f := (true, f);
  fs_fadvise d o n f := (true, f)
}.

Lemma mem_open_spec p fl f d f' :
  mem_open p fl f = (d, f') -> 0 <= d ->
  (exists c, files f' !! p = Some c) /\ fds f' !! d = Some (p, 0).
Proof.
  unfold mem_open. intros H Hd. repeat case_hyp H; simplify_eq; try lia; simpl; rewrite lookup_insert_eq;
    split; try done; rewrite ?lookup_insert_eq; eauto.
Qed.
Lemma mem_resize_spec g d f r f' :
  mem_resize g d f = (r, f') ->
  fds f' = fds f /\ (forall p, is_Some (files f !! p) -> is_Some (files f' !! p)).
Proof.
  unfold mem_resize. intros H. repeat case_hyp H; simplify_eq; [|done]. split; [done|]. intros q Hq. simpl.
  by rewrite lookup_alter_is_Some.
Qed.
#[global] Instance Mem_laws : FileSystemLaws Mem.
Proof.
  refine {| file_at f p := files f !! p; fd_at f d := fds f !! d; interrupts _ := 0%nat |}; simpl.
  - exact mem_open_spec.
  - done.
  - unfold mem_open. intros p fl f d f' E Ht q [c Hq]. rewrite Ht in E.
    repeat case_hyp E; simplify_eq; simpl; try done. rewrite lookup_insert_ne; [done|congruence].
  - unfold mem_seek. intros d q f f' p r E Hf _. rewrite Hf in E. simplify_eq. simpl.
    split_and!; [done|apply lookup_insert_eq|done].
  - unfold mem_write. intros d bs f n f' p q c E Hf Hp Hbs. rewrite Hf, Hp in E. simplify_eq. simpl.
    rewrite !lookup_insert_eq. destruct bs; [done|]. split_and!; try done; simpl; lia.
  - unfold mem_write. intros d bs f f' E. repeat case_hyp E; simplify_eq.
  - done.
  - done.
  - by intros d f r f' [= <- <-].
  - intros d n f r f' E. destruct (mem_resize_spec _ _ _ _ _ E) as [-> ?]. auto.
  - intros d n f r f' E. destruct (mem_resize_spec _ _ _ _ _ E) as [-> ?]. auto.
  - by intros d f r f' [= <- <-].
  - by intros d o n f r f' [= <- <-].
  - by intros d o n f r f' [= <- <-].
  - by intros d f r f' [= <- <-].
  - by intros p f r f' [= <- <-].
  - by intros p f r f' [= <- <-].
Defined.
