(* ===== verification/FileCreator.v ===== *)
(** Creating and opening the files of a transfer: [FileCreator] of
    [util/FileCreator.h] and [.cpp], over the system calls of [FileSystem].

    [None] is a failed check, or a wait for another thread that never ends. *)
From stdpp Require Import gmap.
From S2P Require Import Prelude ErrorCodes Protocol FileSystem.

(** What the receiver reads of [WdtOptions]. *)
Record WriteOptions := mkWriteOptions {
  wo_skip_writes : bool;
  wo_overwrite : bool;
  wo_enable_download_resumption : bool;
  wo_resume_using_dir_tree : bool;
  wo_close_on_exec : bool;
  wo_disable_preallocation : bool;
  wo_fsync : bool;
  wo_skip_fadvise : bool;
  wo_disk_sync_interval_mb : Z;
  wo_delete_extra_files : bool
}.
(** With [HAS_POSIX_FALLOCATE]. *)
Definition shouldPreallocateFiles (o : WriteOptions) : bool := negb (wo_disable_preallocation o).
Definition isLogBasedResumption (o : WriteOptions) : bool :=
  wo_enable_download_resumption o && negb (wo_resume_using_dir_tree o).

(** ** State *)

(** The values of [fileStatusMap_] that are not the index of a thread. *)
Definition ALLOCATED : Z := -1.
Definition FAILED : Z := -2.

Record FileCreator := mkFileCreator {
  rootDir_ : list Z;
  createdDirs_ : gset (list Z);
  fileStatusMap_ : gmap Z Z;
  skipWrites_ : bool
}.
#[global] Instance FileCreator_settable : Settable FileCreator := fun c =>
  mkFileCreator (rootDir_ c) (createdDirs_ c) (fileStatusMap_ c) (skipWrites_ c).

(** What the creator uses of the transfer log. *)
Class TransferLog (L : Type) := {
  log_fileCreation : list Z -> Z -> Z -> L -> option L;
  log_blockWrite : Z -> Z -> Z -> L -> option L;
  log_fileResize : Z -> Z -> L -> option L;
  log_fileInvalidation : Z -> L -> option L
}.

(** The state the threads of a receiver share for writing files. *)
Record Store (F L : Type) := mkStore { creator : FileCreator; tlog : L; disk : F }.
Arguments mkStore {_ _}. Arguments creator {_ _}. Arguments tlog {_ _}. Arguments disk {_ _}.
#[global] Instance Store_settable {F L} : Settable (Store F L) := fun s =>
  mkStore (creator s) (tlog s) (disk s).

(** What the other threads do while one sleeps on the condition variable of
    thread [i], until it is woken. *)
Class Others (S : Type) := wait_notified : Z -> S -> option S.

(** ** Paths *)

Definition slash : Z := 47.
Definition dot : list Z := [46].
Definition dotdot : list Z := [46; 46].

(** The loop of [isSafeRelativePath] on the rest of the path, [substr(start)]. *)
Fixpoint safeComponents (fuel : nat) (rest : list Z) : bool :=
  match fuel with
  | O => false
  | S fuel =>
      let end_ := from_option fst (length rest) (list_find (fun c => c = slash) rest) in
      let component := take end_ rest in
      if bool_decide (component = []) || bool_decide (component = dot)
         || bool_decide (component = dotdot) then false
      else if (end_ =? length rest)%nat then true
      else safeComponents fuel (drop (end_ + 1) rest)
  end.
Definition isSafeRelativePath (relPath : list Z) : bool :=
  if bool_decide (relPath = []) || bool_decide (head relPath = Some slash)
     || bool_decide (0 ∈ relPath) then false
  else safeComponents (S (length relPath)) relPath.

Definition getFullPath (c : FileCreator) (relPath : list Z) : list Z := rootDir_ c ++ relPath.
Definition addTrailingSlash (path : list Z) : list Z :=
  if bool_decide (last path = Some slash) then path else path ++ [slash].

(** The loops that move an index left until it is [0] or behind a slash. *)
Fixpoint behindSlash (path : list Z) (p : nat) : nat :=
  match p with
  | O => O
  | S p' => if bool_decide (path !! p' = Some slash) then p else behindSlash path p'
  end.

Section creator.
Context {F L : Type} `{FileSystem F} `{TransferLog L} `{Others (Store F L)}.
Context (o : WriteOptions) (threadIndex : Z).

(** ** Directories *)

Definition dirCreated (dir : list Z) (c : FileCreator) : bool := bool_decide (dir ∈ createdDirs_ c).

Fixpoint createDirs (fuel : nat) (dir : list Z) (force : bool) (s : Store F L) : option (bool * Store F L) :=
  if skipWrites_ (creator s) then Some (false, s)
  else if negb force && dirCreated dir (creator s) then Some (true, s)
  else
    check bool_decide (last dir = Some slash) ;;
    let lastIndex := behindSlash dir (length dir - 1) in
    let* (made, s) :=
      if (0 <? lastIndex)%nat then
        match fuel with O => None | S fuel => createDirs fuel (take lastIndex dir) force s end
      else Some (true, s) in
    if negb made then Some (false, s)
    else
      let '(code, f) := fs_mkdir (getFullPath (creator s) dir) (disk s) in
      let s := s <| disk := f |> in
      match code with
      | MkdirFailed => Some (false, s)
      | _ => Some (true, s <| creator := creator s <| createdDirs_ := {[dir]} ∪ createdDirs_ (creator s) |> |>)
      end.
Definition createDirRecursively (dir : list Z) (force : bool) (s : Store F L) : option (bool * Store F L) :=
  createDirs (length dir) dir force s.

(** The constructor: the root directory is created with an empty root. *)
Definition FileCreator_make (rootDir : list Z) (skipWrites : bool) (log : L) (f : F) : option (Store F L) :=
  check negb (bool_decide (rootDir = [])) ;;
  let rootDirPath := addTrailingSlash rootDir in
  let* (_, s) := createDirRecursively rootDirPath false (mkStore (mkFileCreator [] ∅ ∅ skipWrites) log f) in
  Some (s <| creator := mkFileCreator rootDirPath ∅ (fileStatusMap_ (creator s)) skipWrites |>).

Definition clearAllocationMap (c : FileCreator) : FileCreator := c <| fileStatusMap_ := ∅ |>.

(** ** Opening *)

Definition plainName (relPath : list Z) : bool :=
  negb (bool_decide (relPath = [])) && negb (bool_decide (head relPath = Some slash))
  && negb (bool_decide (last relPath = Some slash)).

Definition openExistingFile (relPath : list Z) (s : Store F L) : option (Z * Store F L) :=
  check plainName relPath ;;
  let path := getFullPath (creator s) relPath in
  let '(res, f) := fs_open path (mkOpenFlags false false false (wo_close_on_exec o)) (disk s) in
  Some (if res <? 0 then -1 else res, s <| disk := f |>).

Definition createFlags : OpenFlags :=
  let replaces := wo_overwrite o || wo_enable_download_resumption o in
  mkOpenFlags true replaces (negb replaces) (wo_close_on_exec o).

Definition createFile (relPath : list Z) (s : Store F L) : option (Z * Store F L) :=
  check plainName relPath ;;
  if skipWrites_ (creator s) then Some (-1, s)
  else
    let path := getFullPath (creator s) relPath in
    let p := behindSlash relPath (length relPath) in
    let dir := take p relPath in
    let* (made, s) :=
      if (0 <? p)%nat then
        let* (dirSuccess1, s) := createDirRecursively dir false s in
        if dirSuccess1 then Some (true, s) else createDirRecursively dir true s
      else Some (true, s) in
    if negb made then Some (-1, s)
    else
      let '(res, f) := fs_open path createFlags (disk s) in
      let s := s <| disk := f |> in
      if negb (res <? 0) then Some (res, s)
      else if bool_decide (dir = []) then Some (-1, s)
      else
        let* (dirSuccess, s) := createDirRecursively dir true s in
        if negb dirSuccess then Some (-1, s)
        else
          let '(res, f) := fs_open path createFlags (disk s) in
          Some (if res <? 0 then -1 else res, s <| disk := f |>).

Definition setFileSize (fd fileSize : Z) (s : Store F L) : bool * Store F L :=
  let '(size, f) := fs_size fd (disk s) in
  let s := s <| disk := f |> in
  match size with
  | None => (false, s)
  | Some st_size =>
      let '(ok, s) :=
        if fileSize <? st_size then
          let sizeToTruncate := if shouldPreallocateFiles o then fileSize else 0 in
          let '(ok, f) := fs_truncate fd sizeToTruncate (disk s) in (ok, s <| disk := f |>)
        else (true, s) in
      if negb ok then (false, s)
      else if fileSize =? 0 then (true, s)
      else if negb (shouldPreallocateFiles o) then (true, s)
      else
        let '(ok, f) := fs_allocate fd fileSize (disk s) in (ok, s <| disk := f |>)
  end.

(** The entries of [openAndSetSize] in the transfer log. *)
Definition logOpened (b : BlockDetails) (log : L) : option L :=
  let doCreate := bool_decide (allocationStatus b = NOT_EXISTS) in
  let isTooLarge := bool_decide (allocationStatus b = EXISTS_TOO_LARGE) in
  let* log := if isTooLarge then log_fileInvalidation (prevSeqId b) log else Some log in
  if isTooLarge || doCreate then log_fileCreation (fileName b) (seqId b) (fileSize b) log
  else
    check bool_decide (allocationStatus b = EXISTS_TOO_SMALL) ;;
    log_fileResize (seqId b) (fileSize b) log.

Definition openAndSetSize (b : BlockDetails) (s : Store F L) : option (Z * Store F L) :=
  let* (fd, s) :=
    if bool_decide (allocationStatus b = NOT_EXISTS) then createFile (fileName b) s
    else openExistingFile (fileName b) s in
  if fd <? 0 then Some (-1, s)
  else if bool_decide (allocationStatus b = EXISTS_CORRECT_SIZE) then Some (fd, s)
  else
    let '(sized, s) := setFileSize fd (fileSize b) s in
    if negb sized then
      let '(_, f) := fs_close fd (disk s) in Some (-1, s <| disk := f |>)
    else if isLogBasedResumption o then
      let* log := logOpened b (tlog s) in Some (fd, s <| tlog := log |>)
    else Some (fd, s).

(** ** Coordination *)

(** What a thread finds when it asks for a file: nobody has opened it, and it
    is now the one to allocate it; allocation failed; it is done; or it is in
    progress in another thread. *)
Inductive Claim := MustAllocate | AllocationFailed | Allocated | InProgress (allocatingThreadIndex : Z).

(** The part of [openForBlocks] under [lock_]. *)
Definition claimFile (i : Z) (b : BlockDetails) (c : FileCreator) : Claim * FileCreator :=
  let c :=
    if bool_decide (allocationStatus b = EXISTS_CORRECT_SIZE)
       && bool_decide (fileStatusMap_ c !! seqId b = None)
    then c <| fileStatusMap_ := <[seqId b := ALLOCATED]> (fileStatusMap_ c) |> else c in
  match fileStatusMap_ c !! seqId b with
  | None => (MustAllocate, c <| fileStatusMap_ := <[seqId b := i]> (fileStatusMap_ c) |>)
  | Some st =>
      (if st =? FAILED then AllocationFailed else if st =? ALLOCATED then Allocated else InProgress st, c)
  end.
(** The part of [openForFirstBlock] under [lock_]. *)
Definition finishAllocation (seqId fd : Z) (c : FileCreator) : option FileCreator :=
  let* _ := fileStatusMap_ c !! seqId in
  Some (c <| fileStatusMap_ := <[seqId := if 0 <=? fd then ALLOCATED else FAILED]> (fileStatusMap_ c) |>).
(** The test of [waitForAllocationFinish]: its result, or [None] to wait. *)
Definition allocationOutcome (seqId : Z) (c : FileCreator) : option (option bool) :=
  let* st := fileStatusMap_ c !! seqId in
  Some (if st =? ALLOCATED then Some true else if st =? FAILED then Some false else None).

Definition openForFirstBlock (b : BlockDetails) (s : Store F L) : option (Z * Store F L) :=
  let* (fd, s) := openAndSetSize b s in
  let* c := finishAllocation (seqId b) fd (creator s) in
  Some (fd, s <| creator := c |>).

(** [fuel] bounds the number of times the thread is woken. *)
Fixpoint waitForAllocationFinish (fuel : nat) (allocatingThreadIndex seqId : Z) (s : Store F L)
    : option (bool * Store F L) :=
  let* outcome := allocationOutcome seqId (creator s) in
  match outcome with
  | Some ok => Some (ok, s)
  | None =>
      match fuel with
      | O => None
      | S fuel =>
          let* s := wait_notified allocatingThreadIndex s in
          waitForAllocationFinish fuel allocatingThreadIndex seqId s
      end
  end.

Definition openForBlocks (fuel : nat) (b : BlockDetails) (s : Store F L) : option (Z * Store F L) :=
  if bool_decide (allocationStatus b = TO_BE_DELETED) then
    let '(_, f) := fs_unlink (getFullPath (creator s) (fileName b)) (disk s) in
    Some (-1, s <| disk := f |>)
  else
    let '(claim, c) := claimFile threadIndex b (creator s) in
    let s := s <| creator := c |> in
    match claim with
    | MustAllocate => openForFirstBlock b s
    | AllocationFailed => Some (-1, s)
    | Allocated => openExistingFile (fileName b) s
    | InProgress i =>
        let* (ok, s) := waitForAllocationFinish fuel i (seqId b) s in
        if negb ok then Some (-1, s) else openExistingFile (fileName b) s
    end.
End creator.
