(* ===== verification/FileCreatorProps.v ===== *)
(** Properties of [FileCreator]: which paths it touches, what an opened file
    is, and how threads that ask for the same file coordinate. *)
From stdpp Require Import gmap.
From S2P Require Import Prelude Serialization ErrorCodes Protocol ProtocolProps LogParser LogManager FileSystem FileCreator.

(** ** Paths

    The components of a path, and the directory they lead to: an empty
    component and a dot stay, two dots go up. *)
Fixpoint split_path (p : list Z) : list (list Z) :=
  match p with
  | [] => [[]]
  | c :: p =>
      if decide (c = slash) then [] :: split_path p
      else match split_path p with x :: xs => (c :: x) :: xs | [] => [[c]] end
  end.
Definition walk_step (at_ : list (list Z)) (component : list Z) : list (list Z) :=
  if decide (component = [] \/ component = dot) then at_
  else if decide (component = dotdot) then removelast at_
  else at_ ++ [component].
Definition walk (p : list Z) : list (list Z) := foldl walk_step [] (split_path p).

(** The path leads to something below the directory [root]. *)
Definition inside (root p : list Z) : Prop := exists below, below <> [] /\ walk p = walk root ++ below.

Definition good (component : list Z) : Prop :=
  component <> [] /\ component <> dot /\ component <> dotdot.

Lemma split_path_nonempty p : split_path p <> [].
Proof. destruct p as [|c p]; simpl; [done|]. case_decide; [done|]. by destruct (split_path p). Qed.
Lemma split_path_app a b : split_path (a ++ slash :: b) = split_path a ++ split_path b.
Proof.
  induction a as [|c a IH]; simpl; [done|]. case_decide; [by rewrite IH|].
  rewrite IH. destruct (split_path a) eqn:E; [by destruct (split_path_nonempty a)|done].
Qed.
Lemma split_path_plain a : slash ∉ a -> split_path a = [a].
Proof.
  induction a as [|c a IH]; simpl; [done|]. rewrite not_elem_of_cons. intros [Hc Ha].
  rewrite decide_False by done. by rewrite IH.
Qed.
Lemma walk_good at_ l : Forall good l -> foldl walk_step at_ l = at_ ++ l.
Proof.
  intros Hl. revert at_. induction Hl as [|c l (H1 & H2 & H3) _ IH]; intros at_; simpl; [by rewrite app_nil_r|].
  unfold walk_step at 2. rewrite decide_False, decide_False by tauto. by rewrite IH, <- app_assoc.
Qed.

(** [isSafeRelativePath] accepts the paths whose components are all names. *)
Lemma safeComponents_spec fuel rest :
  (length rest < fuel)%nat -> (safeComponents fuel rest = true <-> Forall good (split_path rest)).
Proof.
  revert rest. induction fuel as [|fuel IH]; intros rest Hl; [lia|]. cbn [safeComponents].
  assert (forall c, bool_decide (c = []) || bool_decide (c = dot) || bool_decide (c = dotdot) = false <-> good c) as Hg.
  { intros c. unfold good. rewrite !orb_false_iff, !bool_decide_eq_false. tauto. }
  destruct (list_find (fun c => c = slash) rest) as [[i x]|] eqn:Ef; cbn [from_option fst].
  - apply list_find_Some in Ef as (Hi & -> & Hpre). pose proof (lookup_lt_Some _ _ _ Hi) as Hlt.
    assert (split_path rest = take i rest :: split_path (drop (i + 1) rest)) as ->.
    { rewrite <- (take_drop_middle rest i slash Hi) at 1. rewrite split_path_app, split_path_plain, Nat.add_1_r; [done|].
      intros (j & Hj)%list_elem_of_lookup. apply lookup_take_Some in Hj as [Hj Hji]. by apply (Hpre j _ Hj). }
    rewrite Forall_cons, <- Hg. destruct (_ || _); [split; [done|by intros [? _]]|].
    rewrite (proj2 (Nat.eqb_neq _ _)) by lia. rewrite IH by (rewrite length_drop; lia). tauto.
  - apply list_find_None in Ef. rewrite take_ge by lia.
    rewrite split_path_plain, Forall_singleton, <- Hg.
    2:{ rewrite Forall_forall in Ef. intros Hin. by apply (Ef _ Hin). }
    destruct (_ || _); [done|]. by rewrite Nat.eqb_refl.
Qed.
Lemma isSafeRelativePath_good p : isSafeRelativePath p = true -> Forall good (split_path p).
Proof.
  unfold isSafeRelativePath. destruct (_ || _); [done|]. apply safeComponents_spec. lia.
Qed.

(** Below a root with its slash, a path of names leads inside, and so does each
    of its directories. *)
Lemma walk_root root p :
  last root = Some slash -> walk (root ++ p) = foldl walk_step (walk root) (split_path p).
Proof.
  intros [r ->]%last_Some. unfold walk. rewrite <- app_assoc. simpl.
  rewrite !split_path_app, !foldl_app. done.
Qed.
Lemma inside_good root p :
  last root = Some slash -> Forall good (split_path p) -> inside root (root ++ p).
Proof.
  intros Hr Hp. exists (split_path p). split; [apply split_path_nonempty|].
  by rewrite walk_root, walk_good.
Qed.
Lemma behindSlash_spec path n :
  (n <= length path)%nat ->
  (behindSlash path n <= n)%nat
  /\ ((0 < behindSlash path n)%nat -> path !! (behindSlash path n - 1)%nat = Some slash).
Proof.
  induction n as [|n IH]; intros Hn; simpl; [by split; [|lia]|]. case_bool_decide as E.
  - split; [done|]. intros _. by replace (S n - 1)%nat with n by lia.
  - destruct IH as [H1 H2]; [lia|]. split; [lia|done].
Qed.
(** A directory of the path [p]: a part of it that ends with a slash. *)
Definition dir_of (dir p : list Z) : Prop := exists d rest, dir = d ++ [slash] /\ p = d ++ slash :: rest.
Lemma dir_of_take path n p :
  (n <= length path)%nat -> (0 < behindSlash path n)%nat -> path = p \/ dir_of path p ->
  dir_of (take (behindSlash path n) path) p.
Proof.
  intros Hn Hpos Hp. destruct (behindSlash_spec path n Hn) as [H1 H2]. specialize (H2 Hpos).
  set (k := behindSlash path n) in *.
  assert (path = take (k - 1) path ++ slash :: drop k path) as E.
  { rewrite <- (take_drop_middle path (k - 1) slash H2) at 1. do 3 f_equal. lia. }
  assert (take k path = take (k - 1) path ++ [slash]) as Et.
  { replace k with (S (k - 1)) at 1 by lia. by apply take_S_r. }
  destruct Hp as [<-|(d & rest & Ed & ->)].
  - by exists (take (k - 1) path), (drop k path).
  - rewrite Et. exists (take (k - 1) path). eexists. split; [done|].
    rewrite (app_assoc d [slash] rest : d ++ slash :: rest = _), <- Ed. rewrite E at 1.
    by rewrite <- app_assoc.
Qed.
Lemma inside_dir root dir p :
  last root = Some slash -> Forall good (split_path p) -> dir_of dir p -> inside root (root ++ dir).
Proof.
  intros Hr Hp (d & rest & -> & ->). rewrite split_path_app, Forall_app in Hp. destruct Hp as [Hp _].
  exists (split_path d). split; [apply split_path_nonempty|].
  rewrite walk_root by done. rewrite (split_path_app d []), foldl_app, (walk_good _ (split_path d)) by done.
  done.
Qed.
Lemma plainName_good p : Forall good (split_path p) -> plainName p = true.
Proof.
  intros Hp. unfold plainName. rewrite !andb_true_iff, !negb_true_iff, !bool_decide_eq_false. split_and!.
  - intros ->. by apply Forall_inv in Hp as [? _].
  - intros E. destruct p as [|c p]; [done|]. injection E as ->. by apply Forall_inv in Hp as [? _].
  - intros [r ->]%last_Some. rewrite (split_path_app r []), Forall_app in Hp.
    destruct Hp as [_ Hp]. by apply Forall_inv in Hp as [? _].
Qed.

(** ** The paths of the system calls

    A file system that remembers the path of every call that takes one. *)
Section traced.
Context {F L : Type} `{FileSystem F} `{TransferLog L} `{Others (Store F L)}.

Definition Traced : Type := F * list (list Z).
Definition on_path {A} (p : list Z) (call : F -> A * F) (f : Traced) : A * Traced :=
  let '(r, g) := call f.1 in (r, (g, f.2 ++ [p])).
Definition on_fd {A} (call : F -> A * F) (f : Traced) : A * Traced :=
  let '(r, g) := call f.1 in (r, (g, f.2)).
#[export] Instance Traced_file_system : FileSystem Traced := {
  fs_open p fl := on_path p (fs_open p fl);
  fs_close d := on_fd (fs_close d);
  fs_unlink p := on_path p (fs_unlink p);
  fs_mkdir p := on_path p (fs_mkdir p);
  fs_size d := on_fd (fs_size d);
  fs_truncate d n := on_fd (fs_truncate d n);
  fs_allocate d n := on_fd (fs_allocate d n);
  fs_seek d q := on_fd (fs_seek d q);
  fs_write d bs := on_fd (fs_write d bs);
  fs_fsync d := on_fd (fs_fsync d);
  fs_sync_range d q n := on_fd (fs_sync_range d q n);
  fs_fadvise d q n := on_fd (fs_fadvise d q n)
}.
(** The calls of the other threads are not remembered. *)
#[export] Instance Traced_others : Others (Store Traced L) := fun i s =>
  let* s' := wait_notified i (mkStore (creator s) (tlog s) (disk s).1) in
  Some (mkStore (creator s') (tlog s') (disk s', (disk s).2)).

Context (o : WriteOptions) (threadIndex : Z).
(** The other threads keep the root. *)
Context (others_root : forall i (s s' : Store F L), wait_notified i s = Some s' ->
  rootDir_ (creator s') = rootDir_ (creator s)).
Implicit Types s : Store Traced L.

Definition trace s : list (list Z) := (disk s).2.
(** From [s] to [s'] only paths inside the root were touched. *)
Definition stays s s' : Prop :=
  rootDir_ (creator s') = rootDir_ (creator s)
  /\ exists paths, trace s' = trace s ++ paths /\ Forall (inside (rootDir_ (creator s))) paths.
#[local] Instance stays_preorder : PreOrder stays.
Proof.
  split.
  - intros s. split; [done|]. exists []. by rewrite app_nil_r.
  - intros s1 s2 s3 (R1 & l1 & E1 & F1) (R2 & l2 & E2 & F2). split; [congruence|].
    exists (l1 ++ l2). rewrite E2, E1, app_assoc. split; [done|]. rewrite R1 in F2. by apply Forall_app.
Qed.
Lemma stays_path {A} p (call : F -> A * F) s r f :
  inside (rootDir_ (creator s)) p -> on_path p call (disk s) = (r, f) -> stays s (s <| disk := f |>).
Proof.
  unfold on_path. intros Hp E. destruct (call _) as [r' g]. injection E as <- <-.
  split; [done|]. exists [p]. split; [done|]. by apply Forall_singleton.
Qed.
Lemma stays_fd {A} (call : F -> A * F) s r f :
  on_fd call (disk s) = (r, f) -> stays s (s <| disk := f |>).
Proof.
  unfold on_fd. intros E. destruct (call _) as [r' g]. injection E as <- <-.
  split; [done|]. exists []. by rewrite app_nil_r.
Qed.
Lemma stays_creator s c : rootDir_ c = rootDir_ (creator s) -> stays s (s <| creator := c |>).
Proof. intros E. split; [done|]. exists []. by rewrite app_nil_r. Qed.
Lemma stays_tlog s l : stays s (s <| tlog := l |>).
Proof. split; [done|]. exists []. by rewrite app_nil_r. Qed.

Section name.
Context (p : list Z) (Hgood : Forall good (split_path p)).

Lemma createDirs_stays fuel dir force s r s' :
  dir_of dir p -> last (rootDir_ (creator s)) = Some slash ->
  createDirs fuel dir force s = Some (r, s') -> stays s s'.
Proof.
  revert dir s r s'. induction fuel as [|fuel IH]; intros dir s r s' Hdir Hroot E.
  all: cbn [createDirs] in E; destruct (skipWrites_ _); [by simplify_eq|];
    destruct (_ && _); [by simplify_eq|]; case_bool_decide; [|done].
  all: match type of E with (match ?m with _ => _ end = _) => destruct m as [[made s1]|] eqn:Em end; [|done].
  all: assert (stays s s1) as Hs1.
  1:{ destruct (0 <? _)%nat; by simplify_eq. }
  2:{ destruct (Nat.ltb_spec 0 (behindSlash dir (length dir - 1))); [|by simplify_eq].
      eapply IH; [|done|exact Em]. apply dir_of_take; [lia|done|by right]. }
  all: destruct (negb made); [by simplify_eq|].
  all: destruct (fs_mkdir _ _) as [code f] eqn:Ef.
  all: assert (stays s (s1 <| disk := f |>)) as Hs2 by
    (etrans; [exact Hs1|]; eapply stays_path; [|exact Ef]; unfold getFullPath; rewrite (proj1 Hs1); by eapply inside_dir).
  all: destruct code; simplify_eq; try done; (etrans; [exact Hs2|]); by apply stays_creator.
Qed.

Lemma createDirRecursively_stays dir force s r s' :
  dir_of dir p -> last (rootDir_ (creator s)) = Some slash ->
  createDirRecursively dir force s = Some (r, s') -> stays s s'.
Proof. apply createDirs_stays. Qed.

Lemma openExistingFile_stays s r s' :
  last (rootDir_ (creator s)) = Some slash -> openExistingFile o p s = Some (r, s') -> stays s s'.
Proof.
  unfold openExistingFile. intros Hroot E. destruct (plainName p); [|done].
  destruct (fs_open _ _ _) as [res f] eqn:Ef. simplify_eq.
  eapply stays_path; [|exact Ef]. by apply inside_good.
Qed.

Lemma createFile_stays s r s' :
  last (rootDir_ (creator s)) = Some slash -> createFile o p s = Some (r, s') -> stays s s'.
Proof.
  unfold createFile. intros Hroot E. destruct (plainName p); [|done].
  destruct (skipWrites_ _); [by simplify_eq|].
  pose proof (dir_of_take p (length p) p ltac:(lia)) as Hdir.
  set (n := behindSlash p (length p)) in *.
  match type of E with (match ?m with _ => _ end = _) => destruct m as [[made s1]|] eqn:Em end; [|done].
  assert (stays s s1) as Hs1.
  { destruct (Nat.ltb_spec 0 n); [|by simplify_eq].
    destruct (createDirRecursively _ false s) as [[d1 sd]|] eqn:Ed; [|done].
    apply createDirRecursively_stays in Ed as Hd; [|by auto|done].
    destruct d1; [by simplify_eq|]. etrans; [exact Hd|].
    eapply createDirRecursively_stays; [by auto| |exact Em]. by destruct Hd as [-> _]. }
  destruct (negb made); [by simplify_eq|].
  assert (forall sx, stays s sx -> inside (rootDir_ (creator sx)) (getFullPath (creator s) p)) as Hin.
  { intros sx [-> _]. by apply inside_good. }
  destruct (fs_open _ _ _) as [res f] eqn:Ef.
  assert (stays s (s1 <| disk := f |>)) as Hs2 by (etrans; [exact Hs1|]; eapply stays_path; [|exact Ef]; by apply Hin).
  destruct (negb _); [by simplify_eq|]. case_bool_decide as Edir; [by simplify_eq|].
  destruct (createDirRecursively _ true _) as [[d2 s3]|] eqn:Ed; [|done].
  assert (stays s s3) as Hs3.
  { etrans; [exact Hs2|]. eapply createDirRecursively_stays; [| |exact Ed].
    - apply Hdir; [|by left]. destruct n; [by rewrite take_0 in Edir|lia].
    - by destruct Hs2 as [-> _]. }
  destruct (negb d2); [by simplify_eq|].
  destruct (fs_open _ _ (disk s3)) as [res2 f2] eqn:Ef2. simplify_eq.
  etrans; [exact Hs3|]. eapply stays_path; [|exact Ef2]. by apply Hin.
Qed.
End name.

Lemma setFileSize_stays fd n s r s' : setFileSize o fd n s = (r, s') -> stays s s'.
Proof.
  unfold setFileSize. destruct (fs_size fd (disk s)) as [size f] eqn:Ef. apply stays_fd in Ef.
  destruct size as [st|]; [|intros [= <- <-]; exact Ef]. intros E.
  match type of E with ((let '(_, _) := ?m in _) = _) => destruct m as [ok s2] eqn:Em end.
  assert (stays s s2) as Hs2.
  { etrans; [exact Ef|]. destruct (n <? st); [|by simplify_eq].
    destruct (fs_truncate _ _ _) as [ok' f'] eqn:Et. injection Em as <- <-.
    exact (stays_fd _ _ _ _ Et). }
  destruct (negb ok); [by simplify_eq|]. destruct (n =? 0); [by simplify_eq|].
  destruct (negb _); [by simplify_eq|]. destruct (fs_allocate _ _ _) as [ok' f'] eqn:Ea. injection E as <- <-.
  etrans; [exact Hs2|]. exact (stays_fd _ _ _ _ Ea).
Qed.

Lemma openAndSetSize_stays b s r s' :
  Forall good (split_path (fileName b)) -> last (rootDir_ (creator s)) = Some slash ->
  openAndSetSize o b s = Some (r, s') -> stays s s'.
Proof.
  unfold openAndSetSize. intros Hg Hroot E.
  match type of E with (match ?m with _ => _ end = _) => destruct m as [[fd s1]|] eqn:Em end; [|done].
  assert (stays s s1) as Hs1.
  { destruct (bool_decide (_ = NOT_EXISTS));
      [exact (createFile_stays _ Hg _ _ _ Hroot Em)|exact (openExistingFile_stays _ Hg _ _ _ Hroot Em)]. }
  destruct (fd <? 0); [by simplify_eq|]. case_bool_decide; [by simplify_eq|].
  destruct (setFileSize _ _ _ _) as [sized s2] eqn:Es. apply setFileSize_stays in Es.
  assert (stays s s2) as Hs2 by (by etrans).
  destruct (negb sized).
  { destruct (fs_close _ _) as [r' f] eqn:Ec. injection E as <- <-. etrans; [exact Hs2|]. exact (stays_fd _ _ _ _ Ec). }
  destruct (isLogBasedResumption o); [|by simplify_eq].
  destruct (logOpened b _) as [l|]; [|done]. simplify_eq. etrans; [exact Hs2|]. apply stays_tlog.
Qed.

Lemma waitForAllocationFinish_stays fuel i q s r s' :
  waitForAllocationFinish fuel i q s = Some (r, s') -> stays s s'.
Proof.
  revert s. induction fuel as [|fuel IH]; intros s; cbn [waitForAllocationFinish]; intros E;
    (destruct (allocationOutcome q (creator s)) as [[ok|]|]; [by simplify_eq| |done]); [done|].
  destruct (wait_notified i s) as [s1|] eqn:Ew; [|done]. etrans; [|by eapply IH]. clear E IH.
  unfold wait_notified, Traced_others in Ew. destruct (wait_notified i _) as [s2|] eqn:Ew2; [|done].
  apply others_root in Ew2. simplify_eq. split; [done|]. exists []. by rewrite app_nil_r.
Qed.

Lemma openForBlocks_stays fuel b s r s' :
  Forall good (split_path (fileName b)) -> last (rootDir_ (creator s)) = Some slash ->
  openForBlocks o threadIndex fuel b s = Some (r, s') -> stays s s'.
Proof.
  unfold openForBlocks. intros Hg Hroot E. case_bool_decide.
  { destruct (fs_unlink _ _) as [r' f] eqn:Ef. simplify_eq. eapply stays_path; [|exact Ef]. by apply inside_good. }
  destruct (claimFile threadIndex b (creator s)) as [cl c] eqn:Ec.
  assert (rootDir_ c = rootDir_ (creator s)) as Hc.
  { unfold claimFile in Ec. repeat case_hyp Ec; by simplify_eq. }
  assert (stays s (s <| creator := c |>)) as Hs1 by (by apply stays_creator).
  destruct cl as [| | |i].
  - unfold openForFirstBlock in E. destruct (openAndSetSize _ _ _) as [[fd s2]|] eqn:Eo; [|done].
    apply openAndSetSize_stays in Eo; [|done|by simpl; rewrite Hc].
    destruct (finishAllocation _ _ _) as [c2|] eqn:Ef; [|done]. simplify_eq.
    etrans; [exact Hs1|]. etrans; [exact Eo|]. apply stays_creator.
    unfold finishAllocation in Ef. repeat case_hyp Ef; by simplify_eq.
  - by simplify_eq.
  - etrans; [exact Hs1|]. eapply openExistingFile_stays; [done| |exact E]. by simpl; rewrite Hc.
  - destruct (waitForAllocationFinish _ _ _ _) as [[ok s2]|] eqn:Ew; [|done].
    apply waitForAllocationFinish_stays in Ew. assert (stays s s2) as Hs2 by (by etrans).
    destruct (negb ok); [by simplify_eq|]. etrans; [exact Hs2|].
    eapply openExistingFile_stays; [done| |exact E]. by rewrite (proj1 Hs2).
Qed.

(** C13: A receiver never leaves its directory.  For a path that
    [isSafeRelativePath] accepts, every path that opening the file passes to
    the system -- to create, open or delete it and to make its directories --
    leads below the root directory, whatever the options, the state of the
    creator, the results of the system calls and the other threads. *)
Theorem stays_inside fuel b s fd s' :
  last (rootDir_ (creator s)) = Some slash -> isSafeRelativePath (fileName b) = true ->
  openForBlocks o threadIndex fuel b s = Some (fd, s') ->
  exists paths, trace s' = trace s ++ paths /\ Forall (inside (rootDir_ (creator s))) paths.
Proof.
  intros Hroot Hsafe E. apply openForBlocks_stays in E as [_ E]; [done| |done].
  by apply isSafeRelativePath_good.
Qed.
End traced.
Arguments Traced : clear implicits.

(** ** Threads that ask for the same file

    What a thread is doing: nothing with files; allocating a file; it has
    recorded the outcome and is about to notify; it is about to test the outcome
    of another thread's allocation; it sleeps on the condition variable of
    that thread. *)
Inductive Doing :=
  | Free | Allocating (file : Z) | Notifying (file : Z)
  | Testing (thread file : Z) | Asleep (thread file : Z).

Definition woken (i : Z) (d : Doing) : Doing :=
  match d with Asleep j file => if j =? i then Testing j file else d | _ => d end.

(** The state: the creator, what each thread does, and for each file the
    threads that allocated it and those that were let in to it. *)
Record Crew := mkCrew {
  crew_creator : FileCreator;
  doing : gmap Z Doing;
  allocators : list (Z * Z);
  admitted : list (Z * Z)
}.

(** [claim]: the part of [openForBlocks] under the lock; [finish] and [notify]:
    the two parts of [openForFirstBlock]; [test]: one round of
    [waitForAllocationFinish], which holds [allocationMutex_] from the test to
    the sleep; [spurious]: a condition variable may wake up by itself. *)
Inductive cstep : Crew -> Crew -> Prop :=
  | cstep_allocate c d al ad i b c' :
      d !! i = Some Free -> claimFile i b c = (MustAllocate, c') ->
      cstep (mkCrew c d al ad) (mkCrew c' (<[i := Allocating (seqId b)]> d) ((i, seqId b) :: al) ad)
  | cstep_ready c d al ad i b c' :
      d !! i = Some Free -> claimFile i b c = (Allocated, c') ->
      cstep (mkCrew c d al ad) (mkCrew c' d al ((i, seqId b) :: ad))
  | cstep_failed c d al ad i b c' :
      d !! i = Some Free -> claimFile i b c = (AllocationFailed, c') ->
      cstep (mkCrew c d al ad) (mkCrew c' d al ad)
  | cstep_join c d al ad i b j c' :
      d !! i = Some Free -> claimFile i b c = (InProgress j, c') ->
      cstep (mkCrew c d al ad) (mkCrew c' (<[i := Testing j (seqId b)]> d) al ad)
  | cstep_finish c d al ad i file fd c' :
      d !! i = Some (Allocating file) -> finishAllocation file fd c = Some c' ->
      cstep (mkCrew c d al ad) (mkCrew c' (<[i := Notifying file]> d) al ad)
  | cstep_notify c d al ad i file :
      d !! i = Some (Notifying file) ->
      cstep (mkCrew c d al ad) (mkCrew c (woken i <$> <[i := Free]> d) al ad)
  | cstep_test c d al ad i j file outcome :
      d !! i = Some (Testing j file) -> allocationOutcome file c = Some outcome ->
      cstep (mkCrew c d al ad)
        (mkCrew c (<[i := match outcome with Some _ => Free | None => Asleep j file end]> d) al
           (match outcome with Some true => (i, file) :: ad | _ => ad end))
  | cstep_spurious c d al ad i j file :
      d !! i = Some (Asleep j file) ->
      cstep (mkCrew c d al ad) (mkCrew c (<[i := Testing j file]> d) al ad).

(** The start of a session with some threads, whose indices are not
    negative. *)
Definition crew_start (root : list Z) (skip : bool) (indices : list Z) : Crew :=
  mkCrew (mkFileCreator root ∅ ∅ skip) (list_to_map ((fun i => (i, Free)) <$> indices)) [] [].
Definition crew_reachable (indices : list Z) (k : Crew) : Prop :=
  exists root skip, Forall (Z.le 0) indices /\ rtc cstep (crew_start root skip indices) k.

(** What the map says of the file a thread is busy with; a sleeper has a thread
    that will wake it. *)
Definition thread_ok (m : gmap Z Z) (d : gmap Z Doing) (i : Z) (x : Doing) : Prop :=
  match x with
  | Free => True
  | Allocating f => m !! f = Some i
  | Notifying f => exists st, m !! f = Some st /\ st < 0
  | Testing j f => exists st, m !! f = Some st /\ (st = j \/ st < 0)
  | Asleep j f => d !! j = Some (Allocating f) \/ d !! j = Some (Notifying f)
  end.
Record crew_inv (k : Crew) : Prop := mkCrewInv {
  ci_thread i x : doing k !! i = Some x ->
    0 <= i /\ thread_ok (fileStatusMap_ (crew_creator k)) (doing k) i x;
  ci_map file st : fileStatusMap_ (crew_creator k) !! file = Some st ->
    st = ALLOCATED \/ st = FAILED \/ 0 <= st /\ doing k !! st = Some (Allocating file);
  ci_once file : file ∈ (allocators k).*2 -> is_Some (fileStatusMap_ (crew_creator k) !! file);
  ci_nodup : NoDup (allocators k).*2;
  ci_admitted file i : (i, file) ∈ admitted k ->
    fileStatusMap_ (crew_creator k) !! file = Some ALLOCATED
}.

Lemma crew_inv_start root skip indices : Forall (Z.le 0) indices -> crew_inv (crew_start root skip indices).
Proof.
  intros Hi. split; simpl.
  - intros i x Hx. apply elem_of_list_to_map_2 in Hx. apply list_elem_of_fmap in Hx as (j & [= -> ->] & Hj).
    rewrite Forall_forall in Hi. split; [by apply Hi|done].
  - intros file st. by rewrite lookup_empty.
  - intros file Hf. by apply elem_of_nil in Hf.
  - constructor.
  - intros file i Hf. by apply elem_of_nil in Hf.
Qed.

Lemma claimFile_cases i b c cl c' :
  claimFile i b c = (cl, c') ->
  let m := fileStatusMap_ c in let m' := fileStatusMap_ c' in
  match cl with
  | MustAllocate => m !! seqId b = None /\ m' = <[seqId b := i]> m
  | Allocated => m !! seqId b = None /\ m' = <[seqId b := ALLOCATED]> m
                 \/ m !! seqId b = Some ALLOCATED /\ m' = m
  | AllocationFailed => m !! seqId b = Some FAILED /\ m' = m
  | InProgress j => m !! seqId b = Some j /\ j <> ALLOCATED /\ j <> FAILED /\ m' = m
  end.
Proof.
  unfold claimFile. destruct (fileStatusMap_ c !! seqId b) as [st|] eqn:Em.
  - rewrite (bool_decide_eq_false_2 (Some st = None)) by done. rewrite andb_false_r, Em.
    intros [= <- <-]. destruct (Z.eqb_spec st FAILED) as [->|]; [done|].
    destruct (Z.eqb_spec st ALLOCATED) as [->|]; [by right|done].
  - rewrite (bool_decide_eq_true_2 (None = None)), andb_true_r by done. case_bool_decide.
    + simpl. rewrite lookup_insert_eq. intros [= <- <-]. by left.
    + rewrite Em. by intros [= <- <-].
Qed.

Lemma claimFile_entries i b c cl c' q :
  claimFile i b c = (cl, c') -> is_Some (fileStatusMap_ c !! q) -> is_Some (fileStatusMap_ c' !! q).
Proof.
  intros Hc Hq. apply claimFile_cases in Hc. simpl in Hc.
  destruct cl; [destruct Hc as [_ ->]|destruct Hc as [_ ->]|destruct Hc as [[_ ->]|[_ ->]]|destruct Hc as (_ & _ & _ & ->)];
    try done; rewrite lookup_insert_is_Some'; auto.
Qed.
Lemma claimed_entry i b c c' :
  claimFile i b c = (MustAllocate, c') -> is_Some (fileStatusMap_ c' !! seqId b).
Proof. intros [_ ->]%claimFile_cases. by rewrite lookup_insert_eq. Qed.

(** A thread changes what it does, or the entry of a file is set; the other
    threads are still in order. *)
Lemma thread_ok_insert m d i j x y z :
  d !! j = Some z -> thread_ok m d i x -> (forall f, z <> Allocating f /\ z <> Notifying f) ->
  thread_ok m (<[j := y]> d) i x.
Proof.
  intros Hj Hx Hz. destruct x; simpl in *; try done.
  destruct Hx as [Hx|Hx]; [left|right]; rewrite lookup_insert_ne; try done; intros ->;
    rewrite Hx in Hj; injection Hj as <-; by destruct (Hz file).
Qed.
Lemma thread_ok_fresh m d i x f v : m !! f = None -> thread_ok m d i x -> thread_ok (<[f := v]> m) d i x.
Proof.
  intros Hf Hx. destruct x; simpl in *; try done; rewrite lookup_insert_ne; try done; intros ->;
    [congruence|destruct Hx as (? & ? & _); congruence..].
Qed.

Lemma crew_inv_step k k' : crew_inv k -> cstep k k' -> crew_inv k'.
Proof.
  intros [Ht Hm Ho Hn Ha] Hs.
  destruct Hs as [c d al ad i b c' Hi Hc|c d al ad i b c' Hi Hc|c d al ad i b c' Hi Hc|c d al ad i b j c' Hi Hc
    |c d al ad i file fd c' Hi Hc|c d al ad i file Hi|c d al ad i j file out Hi Hc|c d al ad i j file Hi];
    simpl in *; try (apply claimFile_cases in Hc; simpl in Hc).
  - destruct Hc as [Hnone Em]. destruct (Ht _ _ Hi) as [Hi0 _]. split; simpl; rewrite ?Em.
    + intros i' x [[<- <-]|[Hne Hx]]%lookup_insert_Some; simpl; [by rewrite lookup_insert_eq|].
      destruct (Ht _ _ Hx) as [? Hok]. split; [done|].
      eapply thread_ok_insert; [exact Hi| |done]. by apply thread_ok_fresh.
    + intros f st [[<- <-]|[Hne Hf]]%lookup_insert_Some; [by rewrite lookup_insert_eq; auto|].
      destruct (Hm _ _ Hf) as [?|[?|[? Hst]]]; [by auto..|]. right. right. split; [done|].
      rewrite lookup_insert_ne; [done|]. intros ->. congruence.
    + intros f [-> |Hf]%elem_of_cons; [by rewrite lookup_insert_eq|]. rewrite lookup_insert_is_Some'. auto.
    + constructor; [|done]. intros Hin%Ho. rewrite Hnone in Hin. by destruct Hin.
    + intros f j Hf%Ha. rewrite lookup_insert_ne; [done|]. congruence.
  - destruct Hc as [[Hnone Em]|[Hst Em]]; (split; simpl; rewrite ?Em; try done).
    + intros i' x Hx. destruct (Ht _ _ Hx). split; [done|]. by apply thread_ok_fresh.
    + intros f st [[<- <-]|[Hne Hf]]%lookup_insert_Some; [by auto|]. by apply Hm.
    + intros f Hf. rewrite lookup_insert_is_Some'. auto.
    + intros f j [[= -> ->]|Hf%Ha]%elem_of_cons; [by rewrite lookup_insert_eq|].
      rewrite lookup_insert_ne; [done|]. congruence.
    + intros f j [[= -> ->]|Hf%Ha]%elem_of_cons; done.
  - destruct Hc as [_ Em]. split; simpl; rewrite ?Em; done.
  - destruct Hc as (Hst & HA & HF & Em). split; simpl; rewrite ?Em; try done.
    + intros i' x [[<- <-]|[Hne Hx]]%lookup_insert_Some; simpl.
      { split; [by apply (Ht i Free)|eauto]. }
      destruct (Ht _ _ Hx). split; [done|]. by eapply thread_ok_insert.
    + intros f st Hf. destruct (Hm _ _ Hf) as [?|[?|[? Hd]]]; [by auto..|]. right. right. split; [done|].
      rewrite lookup_insert_ne; [done|]. intros ->. congruence.
  - unfold finishAllocation in Hc. destruct (Ht _ _ Hi) as [Hi0 Hfi]. simpl in Hfi. rewrite Hfi in Hc. injection Hc as <-.
    set (v := if 0 <=? fd then ALLOCATED else FAILED).
    assert (v < 0 /\ (v = ALLOCATED \/ v = FAILED)) as [Hv Hv'] by (unfold v, ALLOCATED, FAILED; case_match; lia).
    split; simpl; fold v.
    + intros i' x [[<- <-]|[Hne Hx]]%lookup_insert_Some; simpl.
      { split; [done|]. exists v. by rewrite lookup_insert_eq. }
      destruct (Ht _ _ Hx) as [? Hok]. split; [done|]. destruct x as [|f|f|j f|j f]; simpl in *; try done.
      * rewrite lookup_insert_ne; [done|]. intros ->. congruence.
      * destruct (decide (file = f)) as [->|]; [|by rewrite lookup_insert_ne].
        exists v. by rewrite lookup_insert_eq.
      * destruct (decide (file = f)) as [->|]; [|by rewrite lookup_insert_ne].
        exists v. rewrite lookup_insert_eq. auto.
      * destruct (decide (i = j)) as [->|]; [|by rewrite lookup_insert_ne]. rewrite lookup_insert_eq.
        right. rewrite Hi in Hok. destruct Hok as [[= ->]|[=]]. done.
    + intros f st [[<- <-]|[Hne Hf]]%lookup_insert_Some; [tauto|].
      destruct (Hm _ _ Hf) as [?|[?|[? Hd]]]; [by auto..|]. right. right. split; [done|].
      rewrite lookup_insert_ne; [done|]. intros ->. congruence.
    + intros f Hf. rewrite lookup_insert_is_Some'. auto.
    + done.
    + intros f j Hf%Ha. rewrite lookup_insert_ne; [done|]. intros ->. rewrite Hf in Hfi.
      injection Hfi as <-. unfold ALLOCATED in Hi0. lia.
  - destruct (Ht _ _ Hi) as [Hi0 (st0 & Hst0 & Hneg)].
    assert (forall i' x, (woken i <$> <[i := Free]> d) !! i' = Some x ->
      i' = i /\ x = Free \/ i' <> i /\ exists y, d !! i' = Some y /\ x = woken i y) as Hwoken.
    { intros i' x. rewrite lookup_fmap. intros (y & [[<- <-]|[Hne Hy]]%lookup_insert_Some & ->)%fmap_Some; eauto. }
    split; simpl; try done.
    + intros i' x [[-> ->]|(Hne & y & Hy & ->)]%Hwoken; [by simpl|].
      destruct (Ht _ _ Hy) as [? Hok]. split; [done|]. destruct y as [|f|f|j f|j f]; simpl in *; try done.
      destruct (Z.eqb_spec j i) as [->|Hji]; simpl.
      { rewrite Hi in Hok. destruct Hok as [[=]|[= ->]]. eauto. }
      rewrite lookup_fmap, lookup_insert_ne by done. destruct Hok as [-> | ->]; simpl; auto.
    + intros f st Hf. destruct (Hm _ _ Hf) as [?|[?|[? Hd]]]; [by auto..|]. right. right. split; [done|].
      rewrite lookup_fmap, lookup_insert_ne by (intros ->; congruence). by rewrite Hd.
  - destruct (Ht _ _ Hi) as [Hi0 (st & Hst & Hj)]. unfold allocationOutcome in Hc. rewrite Hst in Hc. injection Hc as <-.
    split; simpl; try done.
    + intros i' x [[<- <-]|[Hne Hx]]%lookup_insert_Some; simpl.
      { split; [done|]. destruct (Z.eqb_spec st ALLOCATED), (Z.eqb_spec st FAILED); try done. simpl.
        destruct (Hm _ _ Hst) as [?|[?|[? Hd]]]; [done..|]. left.
        assert (st = j) as -> by lia. rewrite lookup_insert_ne; [done|]. intros ->. congruence. }
      destruct (Ht _ _ Hx). split; [done|]. by eapply thread_ok_insert.
    + intros f v Hf. destruct (Hm _ _ Hf) as [?|[?|[? Hd]]]; [by auto..|]. right. right. split; [done|].
      rewrite lookup_insert_ne; [done|]. intros ->. congruence.
    + intros f i'. destruct (Z.eqb_spec st ALLOCATED) as [->|].
      * intros [[= -> ->]|Hf%Ha]%elem_of_cons; done.
      * destruct (st =? FAILED); apply Ha.
  - destruct (Ht _ _ Hi) as [Hi0 Hj]. simpl in Hj. split; simpl; try done.
    + intros i' x [[<- <-]|[Hne Hx]]%lookup_insert_Some; simpl.
      { split; [done|]. destruct Hj as [Hj|Hj]; destruct (Ht _ _ Hj) as [_ Hj']; simpl in Hj'; [by eauto|].
        destruct Hj' as (st & ? & ?). eauto. }
      destruct (Ht _ _ Hx). split; [done|]. by eapply thread_ok_insert.
    + intros f v Hf. destruct (Hm _ _ Hf) as [?|[?|[? Hd]]]; [by auto..|]. right. right. split; [done|].
      rewrite lookup_insert_ne; [done|]. intros ->. congruence.
Qed.

Lemma crew_inv_reachable indices k : crew_reachable indices k -> crew_inv k.
Proof.
  intros (root & skip & Hi & Hr). eapply (rtc_ind_r crew_inv); [by apply crew_inv_start| |exact Hr].
  intros k1 k2 _ Hs Hk. by eapply crew_inv_step.
Qed.

(** C14: Threads that receive blocks of the same file, under every
    interleaving.  A file is allocated by at most one thread of a session; a
    thread is let in to a file only when its allocation has succeeded (or the
    file had its size before), never while it is in progress; no check on the
    status map fails; and no wake-up is lost: a thread sleeps only as long as
    the thread it waits for is allocating that file or about to notify. *)
Theorem allocation_coordinated indices k :
  crew_reachable indices k ->
  NoDup (allocators k).*2
  /\ (forall i file, (i, file) ∈ admitted k ->
        fileStatusMap_ (crew_creator k) !! file = Some ALLOCATED
        /\ forall j, doing k !! j <> Some (Allocating file))
  /\ (forall i j file, doing k !! i = Some (Testing j file) -> is_Some (allocationOutcome file (crew_creator k)))
  /\ (forall i file fd, doing k !! i = Some (Allocating file) ->
        is_Some (finishAllocation file fd (crew_creator k)))
  /\ (forall i j file, doing k !! i = Some (Asleep j file) ->
        doing k !! j = Some (Allocating file) \/ doing k !! j = Some (Notifying file)).
Proof.
  intros [Ht Hm Ho Hn Ha]%crew_inv_reachable. split_and!; [done|..].
  - intros i file Hf%Ha. split; [done|]. intros j Hj. destruct (Ht _ _ Hj) as [? E]. simpl in E.
    rewrite Hf in E. injection E as <-. unfold ALLOCATED in *. lia.
  - intros i j file Hi. destruct (Ht _ _ Hi) as [_ (st & Hst & _)]. unfold allocationOutcome. by rewrite Hst.
  - intros i file fd Hi. destruct (Ht _ _ Hi) as [_ E]. simpl in E. unfold finishAllocation. by rewrite E.
  - intros i j file Hi. by destruct (Ht _ _ Hi).
Qed.

(** Thread 0 allocates file 7, thread 1 sleeps on it, thread 2 joins. *)
Definition ex_block_of_7 : BlockDetails := mkBlockDetails [98] 7 5 0 5 NOT_EXISTS 0.
Definition ex_crew : Crew :=
  mkCrew (mkFileCreator [47] ∅ {[7 := 0]} false)
    {[0 := Allocating 7; 1 := Asleep 0 7; 2 := Testing 0 7]} [(0, 7)] [].
Lemma ex_crew_reachable : crew_reachable [0; 1; 2] ex_crew.
Proof.
  exists [47], false. split; [by repeat constructor|].
  eapply rtc_l; [by apply (cstep_allocate _ _ _ _ 0 ex_block_of_7 (mkFileCreator [47] ∅ {[7 := 0]} false))|].
  eapply rtc_l; [by apply (cstep_join _ _ _ _ 1 ex_block_of_7 0 (mkFileCreator [47] ∅ {[7 := 0]} false))|].
  eapply rtc_l; [by apply (cstep_test _ _ _ _ 1 0 7 None)|].
  eapply rtc_l; [by apply (cstep_join _ _ _ _ 2 ex_block_of_7 0 (mkFileCreator [47] ∅ {[7 := 0]} false))|].
  apply rtc_refl.
Qed.
Lemma allocation_coordinated_witness :
  doing ex_crew !! 1 = Some (Asleep 0 7)
  /\ (doing ex_crew !! 0 = Some (Allocating 7) \/ doing ex_crew !! 0 = Some (Notifying 7)).
Proof.
  split; [reflexivity|].
  destruct (allocation_coordinated [0; 1; 2] ex_crew ex_crew_reachable) as (_ & _ & _ & _ & H).
  apply (H 1 0 7). reflexivity.
Defined.

(** ** What is opened *)

(** What the creator relies on of the log: entries can be added. *)
Class TransferLogLaws (L : Type) `{TransferLog L} : Prop := {
  log_fileCreation_ok name q n l : Zlen name <= PATH_MAX -> nonneg64 q -> nonneg64 n ->
    is_Some (log_fileCreation name q n l);
  log_blockWrite_ok q off n l : nonneg64 q -> nonneg64 off -> nonneg64 n -> is_Some (log_blockWrite q off n l);
  log_fileResize_ok q n l : nonneg64 q -> nonneg64 n -> is_Some (log_fileResize q n l);
  log_fileInvalidation_ok q l : nonneg64 q -> is_Some (log_fileInvalidation q l)
}.
(** What the other threads do while one waits leaves it as it was for it. *)
Class OthersLaws (F L : Type) `{FileSystemLaws F} `{Others (Store F L)} : Prop := {
  others_root i (s s' : Store F L) : wait_notified i s = Some s' -> rootDir_ (creator s') = rootDir_ (creator s);
  others_interrupts i (s s' : Store F L) : wait_notified i s = Some s' ->
    (interrupts (disk s') <= interrupts (disk s))%nat;
  others_entries i (s s' : Store F L) q : wait_notified i s = Some s' ->
    is_Some (fileStatusMap_ (creator s) !! q) -> is_Some (fileStatusMap_ (creator s') !! q)
}.

Section opened.
Context {F L : Type} `{FileSystemLaws F} `{TransferLogLaws L} `{Others (Store F L)} `{!OthersLaws F L}.
Context (o : WriteOptions) (threadIndex : Z).
Implicit Types s : Store F L.

(** The root and the entries of the map are kept and no more writes will be
    interrupted. *)
Definition calm s s' : Prop :=
  rootDir_ (creator s') = rootDir_ (creator s) /\ (interrupts (disk s') <= interrupts (disk s))%nat
  /\ forall q, is_Some (fileStatusMap_ (creator s) !! q) -> is_Some (fileStatusMap_ (creator s') !! q).
#[local] Instance calm_preorder : PreOrder calm.
Proof. split; [by intros s|]. intros s1 s2 s3 (? & ? & ?) (? & ? & ?). split_and!; [congruence|lia|auto]. Qed.

Lemma calm_refl s : calm s s.
Proof. done. Qed.
#[local] Hint Resolve calm_refl : core.

(** [fd] is open at the start of the file [name]. *)
Definition opened (fd : Z) (name : list Z) s : Prop :=
  let path := getFullPath (creator s) name in
  fd_at (disk s) fd = Some (path, 0) /\ is_Some (file_at (disk s) path).
(** The result of an operation that opens the file [name]. *)
Definition opens (name : list Z) s (r : option (Z * Store F L)) : Prop :=
  exists fd s', r = Some (fd, s') /\ calm s s' /\ (0 <= fd -> opened fd name s') /\ (fd < 0 -> fd = -1).

Lemma createDirs_calm fuel dir force s p :
  dir_of dir p -> (length dir <= fuel)%nat ->
  exists r s', createDirs fuel dir force s = Some (r, s') /\ calm s s'.
Proof.
  revert dir s. induction fuel as [|fuel IH]; intros dir s Hdir Hf.
  { destruct Hdir as (d & rest & -> & _). rewrite length_app in Hf. simpl in Hf. lia. }
  cbn [createDirs]. destruct (skipWrites_ _); [by eauto|]. destruct (_ && _); [by eauto|].
  assert (last dir = Some slash) as Hlast by (destruct Hdir as (d & rest & -> & _); apply last_snoc).
  rewrite bool_decide_eq_true_2 by done.
  match goal with |- context [match ?m with Some _ => _ | None => _ end] =>
    assert (exists r s', m = Some (r, s') /\ calm s s') as (made & s1 & Em & K1) end.
  { destruct (Nat.ltb_spec 0 (behindSlash dir (length dir - 1))); [|by eauto].
    apply IH; [apply dir_of_take; [lia|done|by right]|].
    rewrite length_take. destruct (behindSlash_spec dir (length dir - 1)); lia. }
  rewrite Em. destruct (negb made); [by eauto|].
  destruct (fs_mkdir _ _) as [code f] eqn:Ef. apply mkdir_spec in Ef as (_ & _ & Hi).
  assert (calm s (s1 <| disk := f |>)) as K2 by (etrans; [exact K1|done]).
  destruct code; eauto; (do 2 eexists; split; [done|]; etrans; [exact K2|done]).
Qed.
Lemma createDirRecursively_calm dir force s p :
  dir_of dir p -> exists r s', createDirRecursively dir force s = Some (r, s') /\ calm s s'.
Proof. intros. by eapply createDirs_calm. Qed.

Lemma open_opens name fl s :
  let '(res, f) := fs_open (getFullPath (creator s) name) fl (disk s) in
  opens name s (Some (if res <? 0 then -1 else res, s <| disk := f |>)).
Proof.
  destruct (fs_open _ _ _) as [res f] eqn:E. do 2 eexists. split; [done|].
  split; [split_and!; [done|by eapply open_interrupts|done]|].
  destruct (Z.ltb_spec res 0) as [Hr|Hr]; [by split|]. split; [|lia]. intros _.
  destruct (open_spec _ _ _ _ _ E Hr) as ([c Hc] & Hfd). split; simpl; eauto.
Qed.
Lemma opens_calm name s s1 r : calm s s1 -> opens name s1 r -> opens name s r.
Proof. intros Hc (fd & s' & -> & Hs & Ho). exists fd, s'. split; [done|]. split; [by etrans|done]. Qed.
Lemma opens_fails name s s' : calm s s' -> opens name s (Some (-1, s')).
Proof. intros Hc. exists (-1), s'. split_and!; [done|done|lia|done]. Qed.

Lemma openExistingFile_opens name s : Forall good (split_path name) -> opens name s (openExistingFile o name s).
Proof.
  intros Hg. unfold openExistingFile. rewrite plainName_good by done.
  pose proof (open_opens name (mkOpenFlags false false false (wo_close_on_exec o)) s) as Ho.
  by destruct (fs_open _ _ _).
Qed.

Lemma createFile_opens name s : Forall good (split_path name) -> opens name s (createFile o name s).
Proof.
  intros Hg. unfold createFile. rewrite plainName_good by done.
  destruct (skipWrites_ _); [by apply opens_fails|].
  pose proof (dir_of_take name (length name) name ltac:(lia)) as Hdir.
  set (n := behindSlash name (length name)) in *.
  match goal with |- context [match ?m with Some _ => _ | None => _ end] =>
    assert (exists r s', m = Some (r, s') /\ calm s s') as (made & s1 & Em & K1) end.
  { destruct (Nat.ltb_spec 0 n); [|by eauto].
    destruct (createDirRecursively_calm (take n name) false s name) as (r & s1 & -> & K1); [by auto|].
    destruct r; [by eauto|].
    destruct (createDirRecursively_calm (take n name) true s1 name) as (r & s2 & -> & K2); [by auto|].
    do 2 eexists. split; [done|]. by etrans. }
  rewrite Em. destruct (negb made); [by apply opens_fails|].
  assert (forall sx, calm s sx -> getFullPath (creator s) name = getFullPath (creator sx) name) as Hpath.
  { intros sx (E & _). unfold getFullPath. by rewrite E. }
  rewrite (Hpath s1 K1). pose proof (open_opens name (createFlags o) s1) as Ho.
  destruct (fs_open _ _ (disk s1)) as [res f] eqn:Eo.
  destruct (Z.ltb_spec res 0) as [Hr|Hr]; cbn [negb]; [|by eapply opens_calm].
  assert (calm s (s1 <| disk := f |>)) as K2.
  { etrans; [exact K1|]. split_and!; [done|by eapply open_interrupts|done]. }
  case_bool_decide as Edir; [by apply opens_fails|].
  destruct (createDirRecursively_calm (take n name) true (s1 <| disk := f |>) name) as (r & s3 & -> & K3).
  { apply Hdir; [|by left]. destruct n; [by rewrite take_0 in Edir|lia]. }
  assert (calm s s3) as K4 by (by etrans). destruct (negb r); [by apply opens_fails|].
  rewrite <- (Hpath s1 K1), (Hpath s3 K4). pose proof (open_opens name (createFlags o) s3) as Ho3.
  destruct (fs_open _ _ (disk s3)). by eapply opens_calm.
Qed.

Lemma setFileSize_opened fd n name s :
  opened fd name s -> exists r s', setFileSize o fd n s = (r, s') /\ calm s s' /\ opened fd name s'.
Proof.
  intros Ho. unfold setFileSize. destruct (fs_size fd (disk s)) as [size f] eqn:Ef.
  apply size_spec in Ef as (Ef1 & Ef2 & Ef3). set (s1 := s <| disk := f |>).
  assert (calm s s1) as K1 by done.
  assert (opened fd name s1) as Ho1 by (unfold opened, s1; simpl; by rewrite Ef1, Ef2).
  destruct size as [st|]; [|by eauto].
  match goal with |- context [let '(_, _) := ?m in _] =>
    assert (exists r s', m = (r, s') /\ calm s s' /\ opened fd name s') as (ok & s2 & Em & K2 & Ho2) end.
  { destruct (n <? st); [|by eauto]. destruct (fs_truncate _ _ _) as [ok f'] eqn:Et.
    apply truncate_spec in Et as (Et1 & Et2 & Et3). do 2 eexists. split; [done|].
    split; [etrans; [exact K1|done]|]. destruct Ho1 as [Hd Hf]. unfold opened. simpl. rewrite Et1. auto. }
  rewrite Em. destruct (negb ok); [by eauto|]. destruct (n =? 0); [by eauto|]. destruct (negb _); [by eauto|].
  destruct (fs_allocate _ _ _) as [ok' f'] eqn:Ea. apply allocate_spec in Ea as (Ea1 & Ea2 & Ea3).
  do 2 eexists. split; [done|]. split; [etrans; [exact K2|done]|]. destruct Ho2 as [Hd Hf].
  unfold opened. simpl. rewrite Ea1. auto.
Qed.

(** The block of a file, with fields the protocol can carry. *)
Definition block_ok (b : BlockDetails) : Prop :=
  Zlen (fileName b) <= PATH_MAX /\ isSafeRelativePath (fileName b) = true
  /\ nonneg64 (seqId b) /\ nonneg64 (fileSize b) /\ nonneg64 (prevSeqId b)
  /\ exists n, allocationStatus b = status_of_value n /\ 0 <= n <= 4.

Lemma logOpened_ok b (l : L) :
  block_ok b -> allocationStatus b <> TO_BE_DELETED -> allocationStatus b <> EXISTS_CORRECT_SIZE ->
  is_Some (logOpened b l).
Proof.
  intros (Hn & _ & Hq & Hs & Hp & n & Est & Hrange) Hd Hc. unfold logOpened.
  assert (n = 0 \/ n = 1 \/ n = 2 \/ n = 3 \/ n = 4) as Hcases by lia.
  destruct Hcases as [->|[->|[->|[->| ->]]]]; cbn in Est; rewrite Est in *; try done; simpl.
  - by apply log_fileCreation_ok.
  - destruct (log_fileInvalidation_ok (prevSeqId b) l Hp) as [l' ->]. by apply log_fileCreation_ok.
  - by apply log_fileResize_ok.
Qed.

Lemma openAndSetSize_opens b s :
  block_ok b -> allocationStatus b <> TO_BE_DELETED -> opens (fileName b) s (openAndSetSize o b s).
Proof.
  intros Hb Hdel. pose proof Hb as (_ & Hsafe%isSafeRelativePath_good & _). unfold openAndSetSize.
  match goal with |- context [match ?m with Some _ => _ | None => _ end] =>
    assert (opens (fileName b) s m) as (fd & s1 & Em & K1 & Ho & _) end.
  { destruct (bool_decide (_ = NOT_EXISTS)); [by apply createFile_opens|by apply openExistingFile_opens]. }
  rewrite Em. destruct (Z.ltb_spec fd 0) as [Hfd|Hfd]; [by apply opens_fails|]. specialize (Ho Hfd).
  destruct (bool_decide (_ = EXISTS_CORRECT_SIZE)) eqn:Ec.
  { exists fd, s1. split_and!; [done..|lia]. }
  destruct (setFileSize_opened fd (fileSize b) (fileName b) s1 Ho) as (sized & s2 & -> & K2 & Ho2).
  destruct (negb sized).
  { destruct (fs_close _ _) as [r f] eqn:Ef. apply close_spec in Ef as [_ Ef]. apply opens_fails.
    etrans; [exact K1|]. etrans; [exact K2|]. done. }
  assert (calm s s2) as K3 by (by etrans). bool_to_prop.
  destruct (isLogBasedResumption o); [|exists fd, s2; split_and!; [done..|lia]].
  destruct (logOpened_ok b (tlog s2) Hb Hdel Ec) as [l ->]. exists fd. eexists. split_and!; [done|done| |lia].
  by intros _.
Qed.

Lemma waitForAllocationFinish_calm fuel i q s r s' :
  waitForAllocationFinish fuel i q s = Some (r, s') -> calm s s'.
Proof.
  revert s. induction fuel as [|fuel IH]; intros s; cbn [waitForAllocationFinish]; intros E;
    (destruct (allocationOutcome q (creator s)) as [[ok|]|]; [by simplify_eq| |done]); [done|].
  destruct (wait_notified i s) as [s1|] eqn:Ew; [|done]. etrans; [|by eapply IH]. 
  split_and!; [by eapply others_root|by eapply others_interrupts|intros q'; by eapply others_entries].
Qed.

(** Opening a file for a block returns, with an error or with a descriptor at
    the start of the file; if another thread is allocating the file, provided
    the wait for it ends. *)
Lemma openForBlocks_opens fuel b s :
  block_ok b -> allocationStatus b <> TO_BE_DELETED ->
  (forall i c, claimFile threadIndex b (creator s) = (InProgress i, c) ->
     is_Some (waitForAllocationFinish fuel i (seqId b) (s <| creator := c |>))) ->
  opens (fileName b) s (openForBlocks o threadIndex fuel b s).
Proof.
  intros Hb Hdel Hwait. pose proof Hb as (_ & Hsafe%isSafeRelativePath_good & _). unfold openForBlocks.
  rewrite bool_decide_eq_false_2 by done.
  destruct (claimFile threadIndex b (creator s)) as [cl c] eqn:Ec.
  assert (rootDir_ c = rootDir_ (creator s)) as Hc by (unfold claimFile in Ec; repeat case_hyp Ec; by simplify_eq).
  assert (calm s (s <| creator := c |>)) as K1.
  { split_and!; [done..|]. intros q Hq. by eapply claimFile_entries. }
  eapply opens_calm; [exact K1|]. destruct cl as [| | |i].
  - unfold openForFirstBlock.
    destruct (openAndSetSize_opens b (s <| creator := c |>) Hb Hdel) as (fd & s2 & E & K2 & Ho & Hneg).
    rewrite E. cbn [creator]. apply claimed_entry in Ec. destruct (proj2 (proj2 K2) _ Ec) as [st Est].
    unfold finishAllocation. rewrite Est. exists fd. eexists. split; [done|]. split; [|done].
    etrans; [exact K2|]. split_and!; [done..|]. intros q Hq. simpl. rewrite lookup_insert_is_Some'. auto.
  - by apply opens_fails.
  - by apply openExistingFile_opens.
  - destruct (Hwait i c eq_refl) as [[ok s2] Ew]. rewrite Ew. apply waitForAllocationFinish_calm in Ew.
    destruct (negb ok); [by apply opens_fails|]. eapply opens_calm; [exact Ew|]. by apply openExistingFile_opens.
Qed.

(** The file of the block is allocated. *)
Definition allocated b s : Prop := fileStatusMap_ (creator s) !! seqId b = Some ALLOCATED.

Lemma finishes_allocated fuel i q s s' :
  waitForAllocationFinish fuel i q s = Some (true, s') -> fileStatusMap_ (creator s') !! q = Some ALLOCATED.
Proof.
  revert s. induction fuel as [|fuel IH]; intros s; cbn [waitForAllocationFinish]; unfold allocationOutcome;
    intros E; repeat case_hyp E; simplify_eq; bool_to_prop; try congruence; by eapply IH.
Qed.
Lemma openExistingFile_creator name s fd s' :
  openExistingFile o name s = Some (fd, s') -> creator s' = creator s.
Proof. unfold openExistingFile. intros E. repeat case_hyp E; by simplify_eq. Qed.

(** Once a file has been opened for a block, it is allocated. *)
Lemma openForBlocks_allocated fuel b s fd s' :
  allocationStatus b <> TO_BE_DELETED -> openForBlocks o threadIndex fuel b s = Some (fd, s') -> 0 <= fd ->
  allocated b s'.
Proof.
  intros Hdel E Hfd. unfold openForBlocks in E. rewrite bool_decide_eq_false_2 in E by done.
  destruct (claimFile threadIndex b (creator s)) as [cl c] eqn:Ec. apply claimFile_cases in Ec. simpl in Ec.
  unfold allocated. destruct cl as [| | |i].
  - unfold openForFirstBlock, finishAllocation in E. repeat case_hyp E; simplify_eq; bool_to_prop; try lia; simpl; apply lookup_insert_eq.
  - by simplify_eq.
  - apply openExistingFile_creator in E as ->. simpl. destruct Ec as [[_ ->]|[? ->]]; [apply lookup_insert_eq|done].
  - destruct (waitForAllocationFinish _ _ _ _) as [[ok s2]|] eqn:Ew; [|done]. destruct ok; simpl in E; [|by simplify_eq].
    apply finishes_allocated in Ew. by apply openExistingFile_creator in E as ->.
Qed.
Lemma claim_allocated b s : allocated b s -> claimFile threadIndex b (creator s) = (Allocated, creator s).
Proof.
  unfold allocated. intros Ha. unfold claimFile. rewrite Ha, (bool_decide_eq_false_2 (Some ALLOCATED = None)) by done.
  by rewrite andb_false_r, Ha.
Qed.
(** For the later blocks of a file, opening keeps what was written. *)
Lemma openForBlocks_again fuel b s fd s' path :
  allocationStatus b <> TO_BE_DELETED -> openForBlocks o threadIndex fuel b s = Some (fd, s') -> allocated b s ->
  is_Some (file_at (disk s) path) -> file_at (disk s') path = file_at (disk s) path.
Proof.
  intros Hdel E Ha Hpath. unfold openForBlocks in E. rewrite bool_decide_eq_false_2 in E by done.
  rewrite claim_allocated in E by done. unfold openExistingFile in E. repeat case_hyp E; simplify_eq; simpl; by eapply open_keeps.
Qed.
End opened.

(** ** The transfer log behind the interface *)

Definition manager_log `{Host} (now : nat -> Z) : TransferLog Manager := {|
  log_fileCreation := addFileCreationEntry now;
  log_blockWrite := addBlockWriteEntry now;
  log_fileResize := addFileResizeEntry now;
  log_fileInvalidation := addFileInvalidationEntry now
|}.

(** ** Examples *)

Definition ex_write_options : WriteOptions :=
  mkWriteOptions false true false false true false false false 1 true.
Definition ex_log : Manager := Manager_init false (mkLogFile [] 0 0) OK 0.
#[export] Instance ex_manager_log : TransferLog Manager := @manager_log littleHost (fun _ => 9).
(** One thread alone. *)
#[export] Instance ex_alone {F} : Others (Store F Manager) := fun _ _ => None.
(** The root is ["/r/"]. *)
Definition ex_creator : FileCreator := mkFileCreator [47; 114; 47] ∅ ∅ false.
Definition ex_store : Store Mem Manager := mkStore ex_creator ex_log (mkMem ∅ ∅ 3).
Definition ex_traced : Store (Traced Mem) Manager := mkStore ex_creator ex_log (disk ex_store, []).
(** The file ["a/b"], of five bytes. *)
Definition ex_new_file : BlockDetails := mkBlockDetails [97; 47; 98] 7 5 1 3 NOT_EXISTS 0.
Definition ex_opened : Store (Traced Mem) Manager :=
  Eval vm_compute in from_option snd ex_traced (openForBlocks ex_write_options 0 1 ex_new_file ex_traced).

Lemma stays_inside_witness :
  isSafeRelativePath [46; 46; 47; 98] = false
  /\ exists paths, trace ex_opened = paths /\ length paths = 2%nat /\ Forall (inside [47; 114; 47]) paths.
Proof.
  split; [reflexivity|].
  destruct (@stays_inside Mem Manager _ _ ex_alone ex_write_options 0 ltac:(done) 1 ex_new_file ex_traced 3 ex_opened)
    as (paths & E & Hp).
  - reflexivity.
  - vm_compute. reflexivity.
  - vm_compute. reflexivity.
  - exists paths. split; [exact E|]. split; [|exact Hp].
    change paths with (trace ex_traced ++ paths). rewrite <- E. vm_compute. reflexivity.
Defined.
