(* ===== verification/StateMonad.v ===== *)
(** Code that changes a state and may fail a check: a state and option monad
    with the notation of stdpp, and its weakest preconditions.

    [wp m Q s]: started in [s], [m] fails no check and ends with [Q]; [wlp m Q
    s]: if it fails none, it ends with [Q]. *)
From S2P Require Import Prelude.

Definition M (S A : Type) : Type := S -> option (A * S).
#[global] Instance M_ret S : MRet (M S) := fun A a s => Some (a, s).
#[global] Instance M_bind S : MBind (M S) := fun A B k m s =>
  match m s with Some (a, s') => k a s' | None => None end.

Definition gets {S A} (f : S -> A) : M S A := fun s => Some (f s, s).
Definition modify {S} (f : S -> S) : M S unit := fun s => Some (tt, f s).
(** [WDT_CHECK] *)
Definition wdt_check {S} (b : bool) : M S unit := fun s => if b then Some (tt, s) else None.
Definition abort {S A} : M S A := fun _ => None.
(** An operation on a part of the state. *)
Definition zoom {S T A} (get : S -> T) (set : T -> S -> S) (m : M T A) : M S A := fun s =>
  match m (get s) with Some (a, t) => Some (a, set t s) | None => None end.
(** An operation that cannot fail. *)
Definition total {S A} (f : S -> A * S) : M S A := fun s => Some (f s).

Definition wp {S A} (m : M S A) (Q : A -> S -> Prop) (s : S) : Prop :=
  match m s with Some (a, s') => Q a s' | None => False end.
Definition wlp {S A} (m : M S A) (Q : A -> S -> Prop) (s : S) : Prop :=
  match m s with Some (a, s') => Q a s' | None => True end.

Section rules.
Context {S : Type}.
Implicit Types (s : S).

Lemma wp_Some {A} (m : M S A) Q s : wp m Q s <-> exists a s', m s = Some (a, s') /\ Q a s'.
Proof. unfold wp. destruct (m s) as [[a s']|]; naive_solver. Qed.
Lemma wlp_Some {A} (m : M S A) Q s : wlp m Q s <-> forall a s', m s = Some (a, s') -> Q a s'.
Proof. unfold wlp. destruct (m s) as [[a s']|]; naive_solver. Qed.

Lemma bind_Some {A B} (m : M S A) (k : A -> M S B) s b s'' :
  mbind k m s = Some (b, s'') <-> exists a s', m s = Some (a, s') /\ k a s' = Some (b, s'').
Proof. unfold mbind, M_bind. destruct (m s) as [[a s']|]; naive_solver. Qed.

Lemma wp_mono {A} (m : M S A) (Q Q' : A -> S -> Prop) s :
  (forall a s', Q a s' -> Q' a s') -> wp m Q s -> wp m Q' s.
Proof. unfold wp. destruct (m s) as [[a s']|]; auto. Qed.
Lemma wlp_mono {A} (m : M S A) (Q Q' : A -> S -> Prop) s :
  (forall a s', Q a s' -> Q' a s') -> wlp m Q s -> wlp m Q' s.
Proof. unfold wlp. destruct (m s) as [[a s']|]; auto. Qed.

Lemma wp_ret {A} (a : A) Q s : wp (mret a) Q s <-> Q a s.
Proof. done. Qed.
Lemma wp_bind {A B} (m : M S A) (k : A -> M S B) Q s :
  wp (mbind k m) Q s <-> wp m (fun a => wp (k a) Q) s.
Proof. unfold wp, mbind, M_bind. by destruct (m s) as [[a s']|]. Qed.
Lemma wp_gets {A} (f : S -> A) Q s : wp (gets f) Q s <-> Q (f s) s.
Proof. done. Qed.
Lemma wp_modify (f : S -> S) Q s : wp (modify f) Q s <-> Q tt (f s).
Proof. done. Qed.
Lemma wp_check b Q s : wp (wdt_check b) Q s <-> b = true /\ Q tt s.
Proof. unfold wp, wdt_check. destruct b; naive_solver. Qed.
Lemma wp_total {A} (f : S -> A * S) (Q : A -> S -> Prop) s : wp (total f) Q s <-> Q (f s).1 (f s).2.
Proof. unfold wp, total. by destruct (f s). Qed.
Lemma wp_zoom {T A} (get : S -> T) set (m : M T A) Q s :
  wp (zoom get set m) Q s <-> wp m (fun a t => Q a (set t s)) (get s).
Proof. unfold wp, zoom. by destruct (m (get s)) as [[a t]|]. Qed.

Lemma wlp_ret {A} (a : A) Q s : wlp (mret a) Q s <-> Q a s.
Proof. done. Qed.
Lemma wlp_bind {A B} (m : M S A) (k : A -> M S B) Q s :
  wlp (mbind k m) Q s <-> wlp m (fun a => wlp (k a) Q) s.
Proof. unfold wlp, mbind, M_bind. by destruct (m s) as [[a s']|]. Qed.
Lemma wlp_gets {A} (f : S -> A) Q s : wlp (gets f) Q s <-> Q (f s) s.
Proof. done. Qed.
Lemma wlp_modify (f : S -> S) Q s : wlp (modify f) Q s <-> Q tt (f s).
Proof. done. Qed.
Lemma wlp_check b Q s : wlp (wdt_check b) Q s <-> (b = true -> Q tt s).
Proof. unfold wlp, wdt_check. destruct b; naive_solver. Qed.
Lemma wlp_abort {A} Q s : wlp (abort : M S A) Q s <-> True.
Proof. done. Qed.
Lemma wlp_total {A} (f : S -> A * S) (Q : A -> S -> Prop) s : wlp (total f) Q s <-> Q (f s).1 (f s).2.
Proof. unfold wlp, total. by destruct (f s). Qed.
Lemma wlp_zoom {T A} (get : S -> T) set (m : M T A) Q s :
  wlp (zoom get set m) Q s <-> wlp m (fun a t => Q a (set t s)) (get s).
Proof. unfold wlp, zoom. by destruct (m (get s)) as [[a t]|]. Qed.
Lemma wlp_conj {A} (m : M S A) (Q Q' : A -> S -> Prop) s :
  wlp m Q s -> wlp m Q' s -> wlp m (fun a s' => Q a s' /\ Q' a s') s.
Proof. unfold wlp. destruct (m s) as [[a s']|]; auto. Qed.
(** Nothing is known of the result. *)
Lemma wlp_any {A} (m : M S A) (Q : A -> S -> Prop) s : (forall a s', Q a s') -> wlp m Q s.
Proof. unfold wlp. destruct (m s) as [[a s']|]; auto. Qed.
End rules.

(** One step through a program, for either precondition. *)
Ltac wp_step :=
  first
    [ apply wp_bind | apply wp_gets | apply wp_modify | apply wp_ret | apply wp_total | apply wp_zoom
    | apply wp_check
    | apply wlp_bind | apply wlp_gets | apply wlp_modify | apply wlp_ret | apply wlp_total | apply wlp_zoom
    | apply wlp_check; intro | apply wlp_abort; exact I ].
