(* ===== verification/Transitions.v ===== *)
(** How an operation changes one component of the state, its code: operations
    that keep it, and operations from one code to the results and codes of a
    relation.  The state machines of both kinds of threads are verified with
    these rules; the code is the error code of the thread. *)
From S2P Require Import Prelude StateMonad.

Section transitions.
Context {S E : Type} {code : S -> E}.

Definition keeps {A} (m : M S A) : Prop := forall s, wlp m (fun _ s' => code s' = code s) s.

Lemma keeps_ret {A} (a : A) : keeps (mret a).
Proof. by intros s. Qed.
Lemma keeps_bind {A B} (m : M S A) (k : A -> M S B) : keeps m -> (forall a, keeps (k a)) -> keeps (mbind k m).
Proof.
  intros Hm Hk s. apply wlp_bind. eapply wlp_mono; [|apply Hm]. intros a s' Es. simpl in Es. rewrite <- Es. apply Hk.
Qed.
Lemma keeps_gets {A} (f : S -> A) : keeps (gets f).
Proof. by intros s. Qed.
Lemma keeps_check b : keeps (wdt_check b).
Proof. intros s. by apply wlp_check. Qed.
Lemma keeps_abort {A} : keeps (StateMonad.abort : M S A).
Proof. by intros s. Qed.
Lemma keeps_modify f : (forall s, code (f s) = code s) -> keeps (modify f).
Proof. intros Hf s. apply Hf. Qed.
Lemma keeps_zoom {T A} (get : S -> T) set (m : M T A) : (forall t s, code (set t s) = code s) -> keeps (zoom get set m).
Proof. intros Hs s. apply wlp_zoom, wlp_any. intros a t. apply Hs. Qed.

(** From the code [e], the result and the code satisfy [P]. *)
Definition goes {A} (P : A -> E -> Prop) (e : E) (m : M S A) : Prop :=
  forall s, code s = e -> wlp m (fun a s' => P a (code s')) s.

Lemma goes_ret {A} (P : A -> E -> Prop) e a : P a e -> goes P e (mret a).
Proof. intros Ha s <-. exact Ha. Qed.
Lemma goes_bind {A B} (P : A -> E -> Prop) (Q : B -> E -> Prop) e m (k : A -> M S B) :
  goes P e m -> (forall a e', P a e' -> goes Q e' (k a)) -> goes Q e (mbind k m).
Proof.
  intros Hm Hk s Hs. apply wlp_bind. eapply wlp_mono; [|by apply Hm].
  intros a s' Ha. by apply (Hk _ _ Ha).
Qed.
Lemma goes_assoc {A B C} (Q : C -> E -> Prop) e (m : M S A) (f : A -> M S B) (k : B -> M S C) :
  goes Q e (mbind (fun a => mbind k (f a)) m) -> goes Q e (mbind k (mbind f m)).
Proof. intros Hm s Hs. specialize (Hm s Hs). rewrite !wlp_bind in *. eapply wlp_mono; [|exact Hm]. intros a s'. apply wlp_bind. Qed.
Lemma goes_keeps {A B} (Q : B -> E -> Prop) e (m : M S A) (k : A -> M S B) :
  keeps m -> (forall a, goes Q e (k a)) -> goes Q e (mbind k m).
Proof.
  intros Hm Hk. apply (goes_bind (fun _ e' => e' = e)).
  - intros s Hs. eapply wlp_mono; [|apply Hm]. simpl. congruence.
  - by intros a e' ->.
Qed.
Lemma goes_abort {A} (P : A -> E -> Prop) e : goes P e StateMonad.abort.
Proof. by intros s _. Qed.
Lemma goes_mono {A} (P P' : A -> E -> Prop) e m : (forall a e', P a e' -> P' a e') -> goes P e m -> goes P' e m.
Proof. intros Hp Hm s Hs. eapply wlp_mono; [|by apply Hm]. intros a s'. apply Hp. Qed.
(** What is read of the state fits the code. *)
Lemma goes_gets {A B} (Q : B -> E -> Prop) e (f : S -> A) (k : A -> M S B) :
  (forall s, code s = e -> goes Q e (k (f s))) -> goes Q e (mbind k (gets f)).
Proof. intros Hk s Hs. apply wlp_bind, wlp_gets. by apply Hk. Qed.
(** The end of a run. *)
Lemma goes_Some {A} (P : A -> E -> Prop) e m s a s' : goes P e m -> code s = e -> m s = Some (a, s') -> P a (code s').
Proof. intros Hm Hs Em. specialize (Hm s Hs). unfold wlp in Hm. by rewrite Em in Hm. Qed.
Lemma keeps_Some {A} (m : M S A) s a s' : keeps m -> m s = Some (a, s') -> code s' = code s.
Proof. intros Hm Em. specialize (Hm s). unfold wlp in Hm. by rewrite Em in Hm. Qed.
End transitions.
Arguments keeps {S E} code {A} m.
Arguments goes {S E} code {A} P e m.

Create HintDb keeps.
#[global] Hint Resolve keeps_ret keeps_bind keeps_gets keeps_check keeps_abort : keeps.
(** Through binds and cases. *)
Ltac keeps :=
  repeat first
    [ progress auto with keeps | apply keeps_bind; [|intros ?] | case_goal ].
