(* ===== verification/FileWriter.v ===== *)
(** Writing the bytes of a block: [FileWriter] of [util/FileWriter.h] and
    [.cpp], with [HAS_SYNC_FILE_RANGE] and [HAS_POSIX_FADVISE]. *)
From stdpp Require Import gmap.
From S2P Require Import Prelude StateMonad ErrorCodes Protocol FileSystem FileCreator FileCreatorProps.

Record FileWriter := mkFileWriter {
  fw_fd : Z;
  fw_totalWritten : Z;
  fw_nextSyncOffset : Z;
  fw_writtenSinceLastSync : Z
}.
#[global] Instance FileWriter_settable : Settable FileWriter := fun w =>
  mkFileWriter (fw_fd w) (fw_totalWritten w) (fw_nextSyncOffset w) (fw_writtenSinceLastSync w).
Definition FileWriter_make (b : BlockDetails) : FileWriter := mkFileWriter (-1) 0 (blockOffset b) 0.
Definition getTotalWritten (w : FileWriter) : Z := fw_totalWritten w.

(** ** Operations *)

Section writer.
Context {F L : Type} `{FileSystem F} `{TransferLog L} `{Others (Store F L)}.
Context (o : WriteOptions) (threadIndex : Z).
(** The block the writer points to, and a bound on the retries of a loop. *)
Context (b : BlockDetails) (fuel : nat).

Definition onDisk {A} (call : F -> A * F) : M (Store F L) A :=
  total (fun s => let '(a, f) := call (disk s) in (a, s <| disk := f |>)).

Definition writer_close (w : FileWriter) : M (Store F L) (ErrorCode * FileWriter) :=
  if 0 <=? fw_fd w then
    ok ← onDisk (fs_close (fw_fd w));
    mret (if ok : bool then OK else FILE_WRITE_ERROR, w <| fw_fd := -1 |>)
  else mret (OK, w).

Definition isClosed (w : FileWriter) : bool := fw_fd w <? 0.
(** The destructor. *)
Definition writer_destroy (w : FileWriter) : M (Store F L) unit :=
  if negb (isClosed w) then _ ← writer_close w; mret tt else mret tt.

Definition writer_open (w : FileWriter) : M (Store F L) (ErrorCode * FileWriter) :=
  if wo_skip_writes o then mret (OK, w)
  else
    fd ← (openForBlocks o threadIndex fuel b : M (Store F L) Z);
    let w := w <| fw_fd := fd |> in
    if bool_decide (allocationStatus b = TO_BE_DELETED) then
      _ ← wdt_check (-1 =? fd);
      mret (OK, w)
    else
      sought ← (if (0 <=? fd) && (0 <? blockOffset b) then onDisk (fs_seek fd (blockOffset b)) else mret true);
      if negb sought then
        r ← writer_close w;
        mret (FILE_WRITE_ERROR, r.2)
      else mret (if fw_fd w =? -1 then FILE_WRITE_ERROR else OK, w).

Definition writer_sync (w : FileWriter) : M (Store F L) ErrorCode :=
  if fw_fd w <? 0 then mret OK
  else
    synced ← (if wo_fsync o || isLogBasedResumption o then onDisk (fs_fsync (fw_fd w)) else mret true);
    if negb synced then mret FILE_WRITE_ERROR
    else
      advised ← (if negb (wo_skip_fadvise o)
                 then onDisk (fs_fadvise (fw_fd w) (blockOffset b) (dataSize b)) else mret true);
      mret (if advised : bool then OK else FILE_WRITE_ERROR).

Definition syncFileRange (written : Z) (forced : bool) (w : FileWriter)
    : M (Store F L) (bool * FileWriter) :=
  if wo_disk_sync_interval_mb o <? 0 then mret (true, w)
  else
    let syncIntervalBytes := wo_disk_sync_interval_mb o * 1024 * 1024 in
    let w := w <| fw_writtenSinceLastSync := fw_writtenSinceLastSync w + written |> in
    if fw_writtenSinceLastSync w =? 0 then mret (true, w)
    else if forced || (syncIntervalBytes <? fw_writtenSinceLastSync w) then
      synced ← onDisk (fs_sync_range (fw_fd w) (fw_nextSyncOffset w) (fw_writtenSinceLastSync w));
      if negb synced then mret (false, w)
      else
        advised ← (if negb (wo_skip_fadvise o)
                   then onDisk (fs_fadvise (fw_fd w) (fw_nextSyncOffset w) (fw_writtenSinceLastSync w))
                   else mret true);
        if negb advised then mret (false, w)
        else mret (true, w <| fw_nextSyncOffset := fw_nextSyncOffset w + fw_writtenSinceLastSync w |>
                           <| fw_writtenSinceLastSync := 0 |>)
    else mret (true, w).

(** The loop of [write]: [count] bytes of [buf] are written. *)
Fixpoint write_loop (fuel : nat) (fd : Z) (buf : list Z) (count : Z) : M (Store F L) (option Z) :=
  if negb (count <? Zlen buf) then mret (Some count)
  else
    match fuel with
    | O => StateMonad.abort
    | S fuel =>
        written ← onDisk (fs_write fd (drop (Z.to_nat count) buf));
        match written with
        | Interrupted => write_loop fuel fd buf count
        | WriteFailed => mret None
        | Written n => write_loop fuel fd buf (count + n)
        end
    end.

Definition writer_write (buf : list Z) (w : FileWriter) : M (Store F L) (ErrorCode * FileWriter) :=
  let size := Zlen buf in
  _ ← wdt_check (negb (bool_decide (allocationStatus b = TO_BE_DELETED)));
  if negb (wo_skip_writes o) then
    r ← write_loop fuel (fw_fd w) buf 0;
    match r with
    | None => mret (FILE_WRITE_ERROR, w)
    | Some count =>
        let finished := fw_totalWritten w + size =? dataSize b in
        s ← syncFileRange count finished w;
        if negb s.1 then mret (FILE_WRITE_ERROR, s.2)
        else mret (OK, s.2 <| fw_totalWritten := fw_totalWritten s.2 + size |>)
    end
  else mret (OK, w <| fw_totalWritten := fw_totalWritten w + size |>).
End writer.

(** ** Properties *)

Section writing.
Context {F L : Type} `{FileSystemLaws F} `{TransferLogLaws L} `{Others (Store F L)} `{!OthersLaws F L}.
Context (o : WriteOptions) (threadIndex : Z) (b : BlockDetails).
Implicit Types s : Store F L.

(** The descriptor [fd] is at position [q] of the file [path] with bytes [c]. *)
Definition at_file s (fd : Z) (path : list Z) (q : Z) (c : list Z) : Prop :=
  fd_at (disk s) fd = Some (path, q) /\ file_at (disk s) path = Some c.
(** Only files and descriptors have changed. *)
Definition disk_only s s' : Prop :=
  creator s' = creator s /\ tlog s' = tlog s /\ (interrupts (disk s') <= interrupts (disk s))%nat.
#[global] Instance disk_only_preorder : PreOrder disk_only.
Proof. split; [by intros s|]. intros s1 s2 s3 (? & ? & ?) (? & ? & ?). split_and!; [congruence..|lia]. Qed.

(** A call that changes nothing the code can see. *)
Lemma onDisk_quiet (call : F -> bool * F) s (Q : bool -> Store F L -> Prop) :
  (forall f r f', call f = (r, f') -> fs_quiet f f') ->
  (forall r s', disk_only s s' -> (forall fd path q c, at_file s fd path q c -> at_file s' fd path q c) -> Q r s') ->
  wp (onDisk call) Q s.
Proof.
  intros Hcall HQ. apply wp_total. destruct (call (disk s)) as [r f] eqn:E. simpl.
  apply Hcall in E as (E1 & E2 & E3). apply HQ; [done|].
  intros fd path q c [Hd Hf]. split; simpl; congruence.
Qed.

Lemma write_loop_spec fuel fd path q c buf count s :
  (interrupts (disk s) + (length buf - Z.to_nat count) <= fuel)%nat -> 0 <= q -> 0 <= count <= Zlen buf ->
  at_file s fd path (q + count) (put q (take (Z.to_nat count) buf) c) ->
  wp (write_loop fuel fd buf count)
    (fun r s' => disk_only s s' /\ from_option (fun n => n = Zlen buf /\ at_file s' fd path (q + n) (put q buf c)) True r) s.
Proof.
  revert count s. induction fuel as [|fuel IH]; intros count s Hfuel Hq Hcount [Hd Hf]; cbn [write_loop].
  all: destruct (Z.ltb_spec count (Zlen buf)) as [Hlt|Hge]; cbn [negb];
    [|apply wp_ret; simpl; split; [done|]; assert (count = Zlen buf) as -> by lia; split; [done|];
      rewrite Nat2Z.id, firstn_all in Hf; by split].
  { lia. }
  apply wp_bind. apply wp_total. destruct (fs_write _ _ _) as [r f] eqn:Ew. simpl.
  assert (drop (Z.to_nat count) buf <> []) as Hne.
  { intros E%(f_equal length). rewrite length_drop in E. simpl in E. lia. }
  destruct r as [n| |].
  - destruct (write_done _ _ _ _ _ _ _ _ Ew Hd Hf Hne) as (Hn & Hf' & Hd' & Hi). rewrite length_drop in Hn.
    eapply wp_mono; [|eapply (IH (count + n) (s <| disk := f |>)); simpl; [lia|done|lia|]].
    + intros r s' [Hs Hr]. split; [|exact Hr]. etrans; [|exact Hs]. done.
    + split; [simpl; by rewrite Z.add_assoc|]. simpl. rewrite Hf'. f_equal.
      assert (Zlen (take (Z.to_nat count) buf) = count) as El by (rewrite length_take; lia).
      rewrite Z2Nat.inj_add, <- take_take_drop, <- put_app, El by lia. symmetry. unfold put at 1.
      rewrite decide_False; [done|]. intros E%(f_equal length). rewrite length_take, length_drop in E. simpl in E. lia.
  - destruct (write_again _ _ _ _ Ew) as (Hf' & Hd' & Hi).
    eapply wp_mono; [|eapply (IH count (s <| disk := f |>)); simpl; [lia|done|lia|]].
    + intros r s' [Hs Hr]. split; [|exact Hr]. etrans; [|exact Hs]. split_and!; [done..|simpl; lia].
    + split; simpl; congruence.
  - apply wp_ret. split; [|done]. split_and!; [done..|by eapply write_failed].
Qed.

(** A result of the code below [writer_write]: an error, or the post-condition. *)
Definition or_error (e : ErrorCode) (P : Prop) : Prop := e = FILE_WRITE_ERROR \/ e = OK /\ P.

Lemma syncFileRange_spec written forced w s :
  wp (syncFileRange o written forced w)
    (fun r s' => disk_only s s' /\ fw_fd r.2 = fw_fd w /\ fw_totalWritten r.2 = fw_totalWritten w
       /\ forall fd path q c, at_file s fd path q c -> at_file s' fd path q c) s.
Proof.
  unfold syncFileRange. destruct (_ <? 0); [by apply wp_ret|].
  set (w1 := w <| fw_writtenSinceLastSync := _ |>). destruct (_ =? 0); [by apply wp_ret|].
  destruct (forced || _); [|by apply wp_ret].
  apply wp_bind, onDisk_quiet; [intros; by eapply sync_range_spec|]. intros synced s1 K1 A1.
  destruct (negb synced); [by apply wp_ret|]. apply wp_bind. destruct (negb (wo_skip_fadvise o)).
  - apply onDisk_quiet; [intros; by eapply fadvise_spec|]. intros advised s2 K2 A2.
    assert (disk_only s s2) by (by etrans).
    destruct (negb advised); apply wp_ret; split_and!; try done; eauto.
  - apply wp_ret. by apply wp_ret.
Qed.

(** A write ends with an error, or with the bytes in the file behind those
    written before. *)
Lemma writer_write_spec fuel w path q c buf s :
  wo_skip_writes o = false -> allocationStatus b <> TO_BE_DELETED ->
  (interrupts (disk s) + length buf <= fuel)%nat -> 0 <= q -> at_file s (fw_fd w) path q c ->
  wp (writer_write o b fuel buf w)
    (fun r s' => disk_only s s' /\ fw_fd r.2 = fw_fd w
       /\ or_error r.1 (fw_totalWritten r.2 = fw_totalWritten w + Zlen buf
                        /\ at_file s' (fw_fd w) path (q + Zlen buf) (put q buf c))) s.
Proof.
  intros Hskip Hdel Hfuel Hq Hat. unfold writer_write. apply wp_bind, wp_check.
  split; [by rewrite bool_decide_eq_false_2|]. rewrite Hskip. cbn [negb]. apply wp_bind.
  eapply wp_mono; [|apply (write_loop_spec fuel (fw_fd w) path q c buf 0 s); [simpl; lia|done|lia|by rewrite Z.add_0_r]].
  intros [n|] s1 [K1 Hn]; cbn [from_option] in Hn; [|apply wp_ret; by split_and!; [..|left]].
  destruct Hn as [-> A1]. apply wp_bind. eapply wp_mono; [|apply syncFileRange_spec].
  intros [ok w2] s2 (K2 & Ew & Et & A2). simpl in *. assert (disk_only s s2) by (by etrans).
  destruct (negb ok); apply wp_ret; simpl; (split_and!; [done|done|]); [by left|right].
  split; [done|]. split; [lia|]. auto.
Qed.

Lemma writer_close_spec w s :
  wp (writer_close w)
    (fun r s' => disk_only s s' /\ file_at (disk s') = file_at (disk s) /\ fw_fd r.2 < 0
       /\ fw_totalWritten r.2 = fw_totalWritten w /\ or_error r.1 True) s.
Proof.
  unfold writer_close. destruct (Z.leb_spec 0 (fw_fd w)); [|apply wp_ret; split_and!; try done; by right].
  apply wp_bind, wp_total. destruct (fs_close _ _) as [ok f] eqn:Ec. simpl.
  apply close_spec in Ec as [Ec1 Ec2]. apply wp_ret. split_and!; try done. destruct ok; [by right|by left].
Qed.
Lemma writer_destroy_spec w s :
  wp (writer_destroy w) (fun _ s' => disk_only s s' /\ file_at (disk s') = file_at (disk s)) s.
Proof.
  unfold writer_destroy. destruct (negb _); [|by apply wp_ret]. apply wp_bind.
  eapply wp_mono; [|apply writer_close_spec]. intros r s1 (K & E & _). by apply wp_ret.
Qed.

Lemma writer_sync_spec w s :
  wp (writer_sync o b w)
    (fun r s' => disk_only s s' /\ or_error r True
       /\ forall fd path q c, at_file s fd path q c -> at_file s' fd path q c) s.
Proof.
  unfold writer_sync. destruct (_ <? 0); [apply wp_ret; split_and!; try done; by right|]. apply wp_bind.
  assert (forall r s1, disk_only s s1 -> (forall fd path q c, at_file s fd path q c -> at_file s1 fd path q c) ->
    wp (if negb r then mret FILE_WRITE_ERROR else
          advised ← (if negb (wo_skip_fadvise o)
             then onDisk (fs_fadvise (fw_fd w) (blockOffset b) (dataSize b)) else mret true);
          mret (if advised : bool then OK else FILE_WRITE_ERROR))
       (fun r s' => disk_only s s' /\ or_error r True
          /\ forall fd path q c, at_file s fd path q c -> at_file s' fd path q c) s1) as Hrest.
  { intros r s1 K1 A1. destruct (negb r); [apply wp_ret; split_and!; try done; by left|]. apply wp_bind.
    destruct (negb (wo_skip_fadvise o)).
    - apply onDisk_quiet; [intros; by eapply fadvise_spec|]. intros advised s2 K2 A2. apply wp_ret.
      split_and!; [by etrans|destruct advised; [by right|by left]|eauto].
    - apply wp_ret. apply wp_ret. split_and!; try done. by right. }
  destruct (_ || _); [|by apply wp_ret, Hrest].
  apply onDisk_quiet; [intros; by eapply fsync_spec|]. intros synced s1 K1 A1. by apply Hrest.
Qed.

(** Opening ends with an error, or at the offset of the block; the file is
    allocated, and if it was before, its bytes are those it had. *)
Lemma writer_open_spec fuel w s :
  wo_skip_writes o = false -> block_ok b -> allocationStatus b <> TO_BE_DELETED -> 0 <= blockOffset b ->
  (forall i c, claimFile threadIndex b (creator s) = (InProgress i, c) ->
     is_Some (waitForAllocationFinish fuel i (seqId b) (s <| creator := c |>))) ->
  wp (writer_open o threadIndex b fuel w)
    (fun r s' => rootDir_ (creator s') = rootDir_ (creator s) /\ (interrupts (disk s') <= interrupts (disk s))%nat
       /\ fw_totalWritten r.2 = fw_totalWritten w
       /\ or_error r.1 (0 <= fw_fd r.2 /\ allocated b s' /\ exists c,
            at_file s' (fw_fd r.2) (getFullPath (creator s) (fileName b)) (blockOffset b) c
            /\ (allocated b s -> forall c0, file_at (disk s) (getFullPath (creator s) (fileName b)) = Some c0 -> c = c0))) s.
Proof.
  intros Hskip Hb Hdel Hoff Hwait. unfold writer_open. rewrite Hskip. apply wp_bind.
  destruct (openForBlocks_opens o threadIndex fuel b s Hb Hdel Hwait) as (fd & s1 & E & (Er & Ei & _) & Ho & Hneg).
  unfold wp at 1. rewrite E. rewrite bool_decide_eq_false_2 by done. apply wp_bind.
  destruct (Z.leb_spec 0 fd) as [Hfd|Hfd]; cbn [andb].
  - destruct (Ho Hfd) as [Hd [c Hc]]. unfold getFullPath in *. rewrite Er in *.
    pose proof (openForBlocks_allocated _ _ _ _ _ _ _ Hdel E Hfd) as Ha.
    assert (allocated b s -> forall c0, file_at (disk s) (rootDir_ (creator s) ++ fileName b) = Some c0 -> c = c0) as Hkeep.
    { intros Ha0 c0 Hc0. pose proof (openForBlocks_again _ _ _ _ _ _ _ _ Hdel E Ha0 (mk_is_Some _ _ Hc0)). congruence. }
    destruct (Z.ltb_spec 0 (blockOffset b)) as [Hpos|Hpos].
    + apply wp_total. destruct (fs_seek _ _ _) as [ok f] eqn:Es. destruct ok; cbn [fst snd negb].
      * destruct (seek_spec _ _ _ _ _ _ Es Hd Hoff) as (Ef & Ed & Ei2). apply wp_ret. simpl.
        rewrite (proj2 (Z.eqb_neq fd (-1))) by lia. split_and!; [done|lia|done|right]. split; [done|].
        split; [done|]. split; [exact Ha|]. exists c. split; [|done]. split; simpl; congruence.
      * apply seek_failed in Es. apply wp_bind. eapply wp_mono; [|apply writer_close_spec].
        intros r s2 ((Ec1 & _ & Ei2) & _ & _ & Ht & _). apply wp_ret. simpl in *.
        split_and!; [by rewrite Ec1|lia|done|by left].
    + apply wp_ret, wp_ret. simpl. rewrite (proj2 (Z.eqb_neq fd (-1))) by lia.
      split_and!; [done..|right]. split; [done|]. split; [done|]. split; [done|]. exists c.
      replace (blockOffset b) with 0 by lia. by split.
  - apply wp_ret, wp_ret. simpl. rewrite (Hneg Hfd). split_and!; [done..|by left].
Qed.
End writing.
