(* ===== verification/ReceiverThread.v ===== *)
(** A thread of the receiver: the state machine of [ReceiverThread.h] and
    [.cpp], with the parts of [Receiver.cpp] its states call.

    A handler is an operation on the members of the thread, the receiver it
    belongs to and the outside world; it returns the next state.  [None] is a
    failed check, or a loop that did not end within [fuel] rounds. *)
From stdpp Require Import gmap.
From S2P Require Import Prelude Serialization ErrorCodes StateMonad Chunks Protocol Reporting.
From S2P Require Import ThreadsController FileSystem FileCreator FileWriter Socket SendBlock.

(** ** Data *)

Inductive ReceiverState :=
  | LISTEN | ACCEPT_FIRST_CONNECTION | ACCEPT_WITH_TIMEOUT | SEND_LOCAL_CHECKPOINT | READ_NEXT_CMD
  | PROCESS_FILE_CMD | PROCESS_SETTINGS_CMD | PROCESS_DONE_CMD | PROCESS_SIZE_CMD | SEND_FILE_CHUNKS
  | SEND_GLOBAL_CHECKPOINTS | SEND_DONE_CMD | SEND_ABORT_CMD | WAIT_FOR_FINISH_OR_NEW_CHECKPOINT
  | FINISH_WITH_ERROR | END.
#[global] Instance ReceiverState_eq_dec : EqDecision ReceiverState.
Proof. solve_decision. Defined.

Definition kTimeoutBufferMillis : Z := 1000.
Definition kWaitTimeoutFactor : Z := 5.
Definition SEND_FILE_CHUNKS_FUNNEL : nat := 0.
Definition WAIT_FOR_FINISH_OR_CHECKPOINT_CV : nat := 0.

Inductive AcceptMode := ACCEPT_WITH_RETRIES | ACCEPT_FOREVER | STOP_ACCEPTING.

Record ReceiverOptions := mkReceiverOptions {
  ro_max_retries : Z;
  ro_max_accept_retries : Z;
  ro_accept_timeout_millis : Z;
  ro_accept_window_millis : Z
}.

(** The members of the thread, those of [WdtThread] included; [bufSize_] is the
    length of [buf_]. *)
Record ReceiverThread := mkReceiverThread {
  buf_ : list Z;
  numRead_ : Z;
  off_ : Z;
  oldOffset_ : Z;
  checkpointIndex_ : Z;
  pendingCheckpointIndex_ : Z;
  senderReadTimeout_ : Z;
  senderWriteTimeout_ : Z;
  isBlockMode_ : bool;
  checkpoint_ : Checkpoint;
  curConnectionVerified_ : bool;
  newCheckpoints_ : list Checkpoint;
  blocksWaitingVerification_ : list BlockDetails;
  footerType_ : FooterType;
  threadProtocolVersion_ : Z;
  enableHeartBeat_ : bool;
  threadStats_ : TransferStats
}.
#[global] Instance ReceiverThread_settable : Settable ReceiverThread := fun t =>
  mkReceiverThread (buf_ t) (numRead_ t) (off_ t) (oldOffset_ t) (checkpointIndex_ t)
    (pendingCheckpointIndex_ t) (senderReadTimeout_ t) (senderWriteTimeout_ t) (isBlockMode_ t)
    (checkpoint_ t) (curConnectionVerified_ t) (newCheckpoints_ t) (blocksWaitingVerification_ t)
    (footerType_ t) (threadProtocolVersion_ t) (enableHeartBeat_ t) (threadStats_ t).
Definition bufSize_ (t : ReceiverThread) : Z := Zlen (buf_ t).
Definition localError (t : ReceiverThread) : ErrorCode := localErrCode_ (threadStats_ t).

(** What the threads share: members of [Receiver]. *)
Record Receiver (F L : Type) := mkReceiver {
  checkpoints_ : list Checkpoint;
  hasNewTransferStarted_ : bool;
  acceptMode_ : AcceptMode;
  isJoinable_ : bool;
  fileChunksInfo_ : list FileChunksInfo;
  rtransferId : list Z;
  controller_ : ThreadsController;
  store_ : Store F L
}.
Arguments mkReceiver {_ _}. Arguments checkpoints_ {_ _}. Arguments hasNewTransferStarted_ {_ _}.
Arguments acceptMode_ {_ _}. Arguments isJoinable_ {_ _}. Arguments fileChunksInfo_ {_ _}.
Arguments rtransferId {_ _}. Arguments controller_ {_ _}. Arguments store_ {_ _}.
#[global] Instance Receiver_settable {F L} : Settable (Receiver F L) := fun r =>
  mkReceiver (checkpoints_ r) (hasNewTransferStarted_ r) (acceptMode_ r) (isJoinable_ r)
    (fileChunksInfo_ r) (rtransferId r) (controller_ r) (store_ r).

Record RState (W F L : Type) := mkRState {
  thread : ReceiverThread;
  receiver : Receiver F L;
  world : W
}.
Arguments mkRState {_ _ _}. Arguments thread {_ _ _}. Arguments receiver {_ _ _}. Arguments world {_ _ _}.
#[global] Instance RState_settable {W F L} : Settable (RState W F L) := fun s =>
  mkRState (thread s) (receiver s) (world s).

(** ** The interfaces used *)

(** [IServerSocket] beyond reading and writing.  [srv_tagVerified] tells whether
    the read before it called the callback for a verified tag; [srv_tagLen] is
    [encryptionTypeToTagLen] of the encryption of the connection. *)
Class ServerSocket (W : Type) := {
  srv_listen : W -> ErrorCode * W;
  srv_acceptNextConnection : Z -> bool -> W -> ErrorCode * W;
  srv_closeNoCheck : W -> W;
  srv_closeAllNoCheck : W -> W;
  srv_closeConnection : W -> ErrorCode * W;
  srv_getNonRetryableErrCode : W -> ErrorCode;
  srv_expectEndOfStream : W -> ErrorCode * W;
  srv_tagVerified : W -> bool * W;
  srv_tagLen : W -> Z;
  srv_encryptionType : W -> Z;
  srv_peerIp : W -> list Z;
  srv_port : W -> Z;
  srv_disableIvChange : W -> W
}.

(** What a session does with the transfer log. *)
Class SessionLog (L : Type) := {
  log_startThread : L -> option L;
  log_verifySenderIp : list Z -> L -> option (bool * L);
  log_invalidateDirectory : L -> option L;
  log_resumptionStatus : L -> ErrorCode;
  log_writeLogHeader : L -> option L
}.

(** What the other threads of the receiver do while this one is blocked. *)
Class Peers (P : Type) := peers_run : P -> P.

Definition Settings_default : Settings := mkSettings 0 0 [] false false false false.

Section receiver.
Context `{Host} {W F L : Type}.
Context `{Socket W} `{ServerSocket W} `{FileSystem F} `{TransferLog L} `{SessionLog L}.
Context `{Others (Store F L)} `{Peers (Receiver F L)}.
Context (o : WriteOptions) (ro : ReceiverOptions) (crc32c : list Z -> Z -> Z).
Context (threadIndex : Z) (fuel : nat).

(** An operation of the thread. *)
Definition R (A : Type) : Type := M (RState W F L) A.

Definition getT {A} (f : ReceiverThread -> A) : R A := gets (fun s => f (thread s)).
Definition modT (f : ReceiverThread -> ReceiverThread) : R unit :=
  modify (fun s => s <| thread := f (thread s) |>).
Definition getR {A} (f : Receiver F L -> A) : R A := gets (fun s => f (receiver s)).
Definition modR (f : Receiver F L -> Receiver F L) : R unit :=
  modify (fun s => s <| receiver := f (receiver s) |>).
Definition onWorld {A} (f : W -> A * W) : R A := zoom world (fun w s => s <| world := w |>) (total f).
Definition onStore {A} (m : M (Store F L) A) : R A :=
  zoom (fun s => store_ (receiver s)) (fun st s => s <| receiver := receiver s <| store_ := st |> |>) m.
Definition onLog (f : L -> option L) : R unit :=
  onStore (fun s => let* l := f (tlog s) in Some (tt, s <| tlog := l |>)).
Definition onController (f : ThreadsController -> option ThreadsController) : R unit :=
  zoom (fun s => controller_ (receiver s)) (fun c s => s <| receiver := receiver s <| controller_ := c |> |>)
    (fun c => let* c := f c in Some (tt, c)).
(** The other threads run. *)
Definition peers : R unit := modR peers_run.

Definition onStats (f : TransferStats -> TransferStats) : R unit :=
  modT (fun t => t <| threadStats_ := f (threadStats_ t) |>).
Definition setError (e : ErrorCode) : R unit := onStats (setLocalErrorCode e).
(** [threadStats_.setLocalErrorCode(e); return next;] *)
Definition fail (e : ErrorCode) (next : ReceiverState) : R ReceiverState := _ ← setError e; mret next.

(** [socket_->write(buf_, n)] and a write of other bytes. *)
Definition write (bs : list Z) : R Z := onWorld (sock_write bs).
Definition write_buf (n : Z) : R Z :=
  buf ← getT buf_;
  write (take (Z.to_nat n) buf).
Definition set_buf (f : list Z -> list Z) : R unit := modT (fun t => t <| buf_ := f (buf_ t) |>).

(** ** Verified blocks *)

Definition markBlockVerified (b : BlockDetails) : R unit :=
  _ ← onStats (fun st => Reporting.incrNumBlocks (addEffectiveBytes 0 (dataSize b) st));
  _ ← modT (fun t => t <| checkpoint_ := Protocol.incrNumBlocks (checkpoint_ t) |>);
  if negb (isLogBasedResumption o) then mret tt
  else if bool_decide (allocationStatus b = TO_BE_DELETED) then onLog (log_fileInvalidation (seqId b))
  else onLog (log_blockWrite (seqId b) (blockOffset b) (dataSize b)).

Fixpoint markAll (l : list BlockDetails) : R unit :=
  match l with
  | [] => mret tt
  | b :: l => _ ← markBlockVerified b; markAll l
  end.
Definition markReceivedBlocksVerified : R unit :=
  l ← getT blocksWaitingVerification_;
  _ ← markAll l;
  modT (fun t => t <| blocksWaitingVerification_ := [] |>).

(** ** Reading *)

(** [socket_->read(buf_ + pos, n, tryFull)]; a verified tag calls back. *)
Definition read_at (pos n : Z) (tryFull : bool) : R Z :=
  r ← onWorld (fun w => let '(n, bs, w) := sock_read n tryFull w in ((n, bs), w));
  _ ← set_buf (list_inserts (Z.to_nat pos) r.2);
  verified ← onWorld srv_tagVerified;
  _ ← (if verified : bool then markReceivedBlocksVerified else mret tt);
  mret r.1.

(** The loop of [readAtLeast]; every round reads at least a byte. *)
Fixpoint readAtLeast_loop (fuel : nat) (pos max atLeast len : Z) : R Z :=
  if negb (len <? atLeast) then mret len
  else
    match fuel with
    | O => StateMonad.abort
    | S fuel =>
        n ← read_at (pos + len) (max - len) false;
        if n <? 0 then mret (if negb (len =? 0) then len else n)
        else if n =? 0 then mret len
        else readAtLeast_loop fuel pos max atLeast (len + n)
    end.
Definition readAtLeast (pos max atLeast len : Z) : R Z :=
  _ ← wdt_check (0 <=? len);
  _ ← wdt_check (0 <? atLeast);
  _ ← wdt_check (atLeast <=? max);
  readAtLeast_loop (Z.to_nat (atLeast - len)) pos max atLeast len.

Definition readAtMost (pos max atMost : Z) : R Z :=
  let target := if atMost <? max then atMost else max in
  read_at pos target false.

Definition sendHeartBeat : R unit :=
  enabled ← getT enableHeartBeat_;
  if negb enabled then mret tt
  else
    due ← onWorld heartBeatDue;
    if negb due then mret tt
    else _ ← write [HEART_BEAT_CMD]; mret tt.

(** ** Session *)

Definition addTransferLogHeader (isBlockMode isSenderResuming : bool) : R unit :=
  if negb (wo_enable_download_resumption o) then mret tt
  else
    let invalidationEntryNeeded :=
      if negb isSenderResuming then true else wo_resume_using_dir_tree o && isBlockMode in
    _ ← (if invalidationEntryNeeded then onLog log_invalidateDirectory else mret tt);
    status ← getR (fun r => log_resumptionStatus (tlog (store_ r)));
    let isInconsistentDirectory := bool_decide (status = INCONSISTENT_DIRECTORY) in
    if negb (wo_resume_using_dir_tree o) || negb isInconsistentDirectory then onLog log_writeLogHeader
    else mret tt.

(** Without a throttler. *)
Definition startNewGlobalSession (peerIp : list Z) : R unit :=
  _ ← (if wo_enable_download_resumption o then
         _ ← onLog log_startThread;
         ok ← onStore (fun s => let* (ok, l) := log_verifySenderIp peerIp (tlog s) in Some (ok, s <| tlog := l |>));
         if negb ok then modR (fun r => r <| fileChunksInfo_ := [] |>) else mret tt
       else mret tt);
  modR (fun r => r <| hasNewTransferStarted_ := true |>).

Definition endCurGlobalSession : R unit :=
  started ← getR hasNewTransferStarted_;
  if negb started then mret tt
  else
    modR (fun r => r <| checkpoints_ := [] |>
      <| store_ := store_ r <| creator := clearAllocationMap (creator (store_ r)) |> |>
      <| hasNewTransferStarted_ := false |>).

Definition addCheckpoint (c : Checkpoint) : R unit :=
  modR (fun r => r <| checkpoints_ := checkpoints_ r ++ [c] |>).
Definition getNewCheckpoints (startIndex : Z) : R (list Checkpoint) :=
  getR (fun r => drop (Z.to_nat startIndex) (checkpoints_ r)).

(** [executeAtStart], [executeAtEnd]: whether this thread is the one. *)
Definition hitsOnce (get : ThreadsController -> ExecuteOnceFunc)
    (set : ExecuteOnceFunc -> ThreadsController -> ThreadsController) : R bool :=
  fun s =>
    let c := controller_ (receiver s) in
    let* (e, mine) := execute (fun _ => true) (get c) false in
    Some (mine, s <| receiver := receiver s <| controller_ := set e c |> |>).

Definition reset : R unit :=
  p ← gets (fun s => srv_port (world s));
  modT (fun t => t <| numRead_ := 0 |> <| off_ := 0 |> <| checkpointIndex_ := 0 |>
    <| pendingCheckpointIndex_ := 0 |> <| senderReadTimeout_ := -1 |> <| senderWriteTimeout_ := -1 |>
    <| curConnectionVerified_ := false |> <| threadStats_ := Reporting.reset (threadStats_ t) |>
    <| newCheckpoints_ := [] |> <| checkpoint_ := Checkpoint_make p |>).

(** ** States *)

(** The retries of [listen]: [Some] state for an early return. *)
Fixpoint listen_tries (tries : nat) : R (option ReceiverState) :=
  match tries with
  | O => mret None
  | S tries =>
      code ← onWorld srv_listen;
      if bool_decide (code = OK) then mret None
      else if bool_decide (code = CONN_ERROR) then next ← fail code FINISH_WITH_ERROR; mret (Some next)
      else listen_tries tries
  end.
Definition listen : R ReceiverState :=
  early ← listen_tries (Z.to_nat (ro_max_retries ro - 1));
  match early with
  | Some next => mret next
  | None =>
      code ← onWorld srv_listen;
      if negb (bool_decide (code = OK)) then fail CONN_ERROR FINISH_WITH_ERROR
      else mret ACCEPT_FIRST_CONNECTION
  end.

(** The loop of [acceptFirstConnection]: [None] when a connection came. *)
Fixpoint acceptFirst_loop (fuel : nat) (acceptAttempts : Z) : R (option ReceiverState) :=
  started ← getR hasNewTransferStarted_;
  if started : bool then mret (Some ACCEPT_WITH_TIMEOUT)
  else
    mode ← getR acceptMode_;
    let refused :=
      match mode with
      | ACCEPT_WITH_RETRIES => ro_max_accept_retries ro <=? acceptAttempts
      | ACCEPT_FOREVER => false
      | STOP_ACCEPTING => true
      end in
    if refused then next ← fail CONN_ERROR FINISH_WITH_ERROR; mret (Some next)
    else
      aborted ← onWorld abortCode;
      if negb (bool_decide (aborted = OK)) then next ← fail ABORT FINISH_WITH_ERROR; mret (Some next)
      else
        verified ← getT curConnectionVerified_;
        code ← onWorld (srv_acceptNextConnection (ro_accept_timeout_millis ro) verified);
        _ ← peers;
        if bool_decide (code = OK) then mret None
        else
          match fuel with
          | O => StateMonad.abort
          | S fuel => acceptFirst_loop fuel (acceptAttempts + 1)
          end.
Definition acceptFirstConnection : R ReceiverState :=
  _ ← reset;
  _ ← onWorld (fun w => (tt, srv_closeNoCheck w));
  early ← acceptFirst_loop fuel 0;
  match early with
  | Some next => mret next
  | None =>
      mine ← hitsOnce execAtStart_ (fun e c => c <| execAtStart_ := e |>);
      ip ← gets (fun s => srv_peerIp (world s));
      _ ← (if mine : bool then startNewGlobalSession ip else mret tt);
      mret READ_NEXT_CMD
  end.

Definition acceptWithTimeout : R ReceiverState :=
  socketErrCode ← gets (fun s => srv_getNonRetryableErrCode (world s));
  if negb (bool_decide (socketErrCode = OK)) then fail socketErrCode END
  else
    _ ← onWorld (fun w => (tt, srv_closeNoCheck w));
    _ ← modT (fun t => t <| blocksWaitingVerification_ := [] |>);
    t ← getT id;
    let timeout :=
      if 0 <? senderReadTimeout_ t
      then Z.max (senderReadTimeout_ t) (senderWriteTimeout_ t) + kTimeoutBufferMillis
      else ro_accept_window_millis ro in
    code ← onWorld (srv_acceptNextConnection timeout (curConnectionVerified_ t));
    _ ← peers;
    _ ← modT (fun t => t <| curConnectionVerified_ := false |>);
    if negb (bool_decide (code = OK)) then fail code FINISH_WITH_ERROR
    else
      _ ← modT (fun t => t <| numRead_ := 0 |> <| off_ := 0 |> <| pendingCheckpointIndex_ := checkpointIndex_ t |>);
      err ← getT localError;
      let nextState := if negb (bool_decide (err = OK)) then SEND_LOCAL_CHECKPOINT else READ_NEXT_CMD in
      _ ← setError OK;
      mret nextState.

Definition sendLocalCheckpoint : R ReceiverState :=
  t ← getT id;
  let checkpointLen := getMaxLocalCheckpointLength (threadProtocolVersion_ t) in
  match encodeCheckpoints (threadProtocolVersion_ t) (buf_ t) 0 checkpointLen [checkpoint_ t] with
  | None => StateMonad.abort
  | Some (_, buf, _) =>
      _ ← set_buf (fun _ => buf);
      written ← write_buf checkpointLen;
      if negb (written =? checkpointLen) then fail SOCKET_WRITE_ERROR ACCEPT_WITH_TIMEOUT
      else
        _ ← onStats (addHeaderBytes checkpointLen);
        mret READ_NEXT_CMD
  end.

(** [buf_[off_++]] *)
Definition next_byte : R Z :=
  t ← getT id;
  _ ← modT (fun t => t <| off_ := off_ t + 1 |>);
  mret (default 0 (buf_ t !! Z.to_nat (off_ t))).

Definition readNextCmd : R ReceiverState :=
  _ ← modT (fun t => t <| oldOffset_ := off_ t |>);
  t ← getT id;
  n ← readAtLeast (off_ t) (bufSize_ t - off_ t) kMinBufLength (numRead_ t);
  _ ← modT (fun t => t <| numRead_ := n |>);
  if n <? kMinBufLength then fail SOCKET_READ_ERROR ACCEPT_WITH_TIMEOUT
  else
    cmd ← next_byte;
    if cmd =? DONE_CMD then mret PROCESS_DONE_CMD
    else if cmd =? FILE_CMD then mret PROCESS_FILE_CMD
    else if cmd =? SETTINGS_CMD then mret PROCESS_SETTINGS_CMD
    else if cmd =? SIZE_CMD then mret PROCESS_SIZE_CMD
    else fail PROTOCOL_ERROR FINISH_WITH_ERROR.

(** A decoder on the buffer from [off_] to [max]; [off_] moves.  The result is
    [None] if it failed. *)
Definition decode {A} (d : list Z -> Z -> Z -> A -> option (bool * A * Z)) (max : Z) (dflt : A) : R (option A) :=
  fun s =>
    let t := thread s in
    let* (ok, a, off) := d (buf_ t) (off_ t) max dflt in
    Some (if ok : bool then Some a else None, s <| thread := t <| off_ := off |> |>).
(** [numRead_ -= off_ - oldOffset_] *)
Definition consumed : R unit := modT (fun t => t <| numRead_ := numRead_ t - (off_ t - oldOffset_ t) |>).

(** The version: an early return, or the version has been agreed on. *)
Definition agreeVersion (senderProtocolVersion : Z) : R (option ReceiverState) :=
  version ← getT threadProtocolVersion_;
  if senderProtocolVersion =? version then mret None
  else
    let negotiatedProtocol := negotiateProtocol senderProtocolVersion version in
    if negotiatedProtocol =? 0 then next ← fail VERSION_INCOMPATIBLE SEND_ABORT_CMD; mret (Some next)
    else
      _ ← modT (fun t => t <| threadProtocolVersion_ := negotiatedProtocol |>);
      if negb (negotiatedProtocol =? senderProtocolVersion)
      then next ← fail VERSION_MISMATCH SEND_ABORT_CMD; mret (Some next)
      else mret None.

Definition processSettingsCmd : R ReceiverState :=
  old ← getT oldOffset_;
  v ← decode decodeVersion (old + kMaxVersion) 0;
  match v with
  | None => fail PROTOCOL_ERROR FINISH_WITH_ERROR
  | Some senderProtocolVersion =>
      early ← agreeVersion senderProtocolVersion;
      match early with
      | Some next => mret next
      | None =>
          version ← getT threadProtocolVersion_;
          _ ← (if version <? PERIODIC_ENCRYPTION_IV_CHANGE_VERSION
               then onWorld (fun w => (tt, srv_disableIvChange w)) else mret tt);
          r ← decode (decodeSettings version) (old + kMaxVersion + kMaxSettings) Settings_default;
          match r with
          | None => fail PROTOCOL_ERROR FINISH_WITH_ERROR
          | Some settings =>
              id ← getR rtransferId;
              if negb (bool_decide (id = transferId settings)) then fail ID_MISMATCH SEND_ABORT_CMD
              else
                _ ← modT (fun t => t <| senderReadTimeout_ := readTimeoutMillis settings |>
                  <| senderWriteTimeout_ := writeTimeoutMillis settings |>
                  <| isBlockMode_ := negb (blockModeDisabled settings) |>
                  <| enableHeartBeat_ := enableHeartBeat settings |>
                  <| curConnectionVerified_ := true |>
                  <| footerType_ := if enableChecksum settings then CHECKSUM_FOOTER else NO_FOOTER |>);
                if sendFileChunks settings then
                  _ ← modT (fun t => t <| numRead_ := 0 |> <| off_ := 0 |>);
                  mret SEND_FILE_CHUNKS
                else
                  _ ← consumed;
                  mret READ_NEXT_CMD
          end
      end
  end.

Definition processDoneCmd : R ReceiverState :=
  t ← getT id;
  if negb (numRead_ t =? kMinBufLength) then fail PROTOCOL_ERROR FINISH_WITH_ERROR
  else
    byte ← next_byte;
    match ErrorCode_of_byte byte with
    | None => StateMonad.abort
    | Some senderStatus =>
        r ← decode (decodeDone (threadProtocolVersion_ t)) (oldOffset_ t + kMaxDone) (mkDoneCmd (-1) (-1));
        match r with
        | None => fail PROTOCOL_ERROR FINISH_WITH_ERROR
        | Some d =>
            _ ← onStats (fun st => setRemoteErrorCode senderStatus
                   (setTotalSenderBytes (done_bytesSent d) (setNumBlocksSend (done_numBlocks d) st)));
            _ ← modT (fun t => t <| checkpointIndex_ := pendingCheckpointIndex_ t |>);
            mret WAIT_FOR_FINISH_OR_NEW_CHECKPOINT
        end
    end.

Definition processSizeCmd : R ReceiverState :=
  old ← getT oldOffset_;
  r ← decode decodeSize (old + kMaxSize) 0;
  match r with
  | None => fail PROTOCOL_ERROR FINISH_WITH_ERROR
  | Some totalSenderBytes =>
      _ ← onStats (setTotalSenderBytes totalSenderBytes);
      _ ← consumed;
      mret READ_NEXT_CMD
  end.

(** ** Resumption *)

Definition onFunnel {A} (f : FunnelStatus -> A * FunnelStatus) : R A := fun s =>
  let c := controller_ (receiver s) in
  let* status := getFunnel SEND_FILE_CHUNKS_FUNNEL c in
  let '(a, status) := f status in
  Some (a, s <| receiver := receiver s
             <| controller_ := c <| funnelExecutors_ := <[SEND_FILE_CHUNKS_FUNNEL := status]> (funnelExecutors_ c) |> |> |>).
Definition funnelStatus : R FunnelStatus := onFunnel getStatus.
Definition funnelSuccess : R unit := onFunnel (fun st => (tt, notifySuccess st)).
Definition funnelFail : R unit := onFunnel (fun st => (tt, notifyFail st)).

(** [buf_[0] = cmd; written = socket_->write(buf_, 1)] *)
Definition write_cmd (cmd : Z) : R Z :=
  _ ← set_buf (insert 0%nat cmd);
  write_buf 1.

(** The loop over the parsed chunks: the number of entries written. *)
Fixpoint sendChunks_loop (fuel : nat) (info : list FileChunksInfo) (numEntriesWritten : Z) : R Z :=
  if negb (numEntriesWritten <? Zlen info) then mret numEntriesWritten
  else
    match fuel with
    | O => StateMonad.abort
    | S fuel =>
        t ← getT id;
        match encodeFileChunksInfoList (buf_ t) sizeof_int32 (bufSize_ t) numEntriesWritten info with
        | None => StateMonad.abort
        | Some (numEntriesEncoded, buf, off) =>
            let dataSize := Endian_little sizeof_int32 (wrapS 32 (off - sizeof_int32)) in
            _ ← set_buf (fun _ => list_inserts 0 (storeUnaligned sizeof_int32 dataSize) buf);
            written ← write_buf off;
            _ ← (if 0 <? written then onStats (addHeaderBytes written) else mret tt);
            if negb (written =? off) then mret numEntriesWritten
            else sendChunks_loop fuel info (numEntriesWritten + numEntriesEncoded)
        end
    end.

(** The case [FUNNEL_START]. *)
Definition sendAllChunks : R ReceiverState :=
  let failed (e : ErrorCode) : R ReceiverState :=
    _ ← setError e; _ ← funnelFail; mret ACCEPT_WITH_TIMEOUT in
  info ← getR fileChunksInfo_;
  _ ← set_buf (insert 0%nat CHUNKS_CMD);
  t ← getT id;
  match encodeChunksCmd (buf_ t) 1 (bufSize_ t) (mkChunksCmd (bufSize_ t) (Zlen info)) with
  | None => StateMonad.abort
  | Some (_, buf, off) =>
      _ ← set_buf (fun _ => buf);
      written ← write_buf off;
      _ ← (if 0 <? written then onStats (addHeaderBytes written) else mret tt);
      if negb (written =? off) then failed SOCKET_READ_ERROR
      else
        numEntriesWritten ← sendChunks_loop fuel info 0;
        if negb (numEntriesWritten =? Zlen info) then failed SOCKET_WRITE_ERROR
        else
          numRead ← read_at 0 1 true;
          if negb (numRead =? 1) then failed SOCKET_READ_ERROR
          else
            blockMode ← getT isBlockMode_;
            _ ← addTransferLogHeader blockMode true;
            _ ← funnelSuccess;
            mret READ_NEXT_CMD
  end.

Fixpoint sendFileChunks_loop (fuel : nat) : R ReceiverState :=
  status ← funnelStatus;
  match status with
  | FUNNEL_END =>
      written ← write_cmd ACK_CMD;
      if negb (written =? 1) then fail SOCKET_WRITE_ERROR ACCEPT_WITH_TIMEOUT
      else
        _ ← onStats (addHeaderBytes 1);
        mret READ_NEXT_CMD
  | FUNNEL_PROGRESS =>
      written ← write_cmd WAIT_CMD;
      if negb (written =? 1) then fail SOCKET_WRITE_ERROR ACCEPT_WITH_TIMEOUT
      else
        _ ← onStats (addHeaderBytes 1);
        _ ← peers;
        match fuel with
        | O => StateMonad.abort
        | S fuel => sendFileChunks_loop fuel
        end
  | FUNNEL_START => sendAllChunks
  end.
Definition sendFileChunks_ : R ReceiverState :=
  timeout ← getT senderReadTimeout_;
  _ ← wdt_check (0 <? timeout);
  sendFileChunks_loop fuel.

(** ** Checkpoints and the end of the transfer *)

Definition sendGlobalCheckpoint : R ReceiverState :=
  _ ← set_buf (insert 0%nat ERR_CMD);
  let oldOffset := 1 + sizeof_int16 in
  t ← getT id;
  match encodeCheckpoints (threadProtocolVersion_ t) (buf_ t) oldOffset (bufSize_ t) (newCheckpoints_ t) with
  | None => StateMonad.abort
  | Some (_, buf, off) =>
      let length := wrapS 16 (off - oldOffset) in
      _ ← modT (fun t => t <| off_ := off |>
        <| buf_ := list_inserts 1 (storeUnaligned sizeof_int16 (Endian_little sizeof_int16 length)) buf |>);
      written ← write_buf off;
      if negb (written =? off) then fail SOCKET_WRITE_ERROR ACCEPT_WITH_TIMEOUT
      else
        _ ← onStats (addHeaderBytes off);
        _ ← modT (fun t => t <| pendingCheckpointIndex_ := checkpointIndex_ t + Zlen (newCheckpoints_ t) |>
          <| numRead_ := 0 |> <| off_ := 0 |>);
        mret READ_NEXT_CMD
  end.

Definition sendAbortCmd : R ReceiverState :=
  _ ← set_buf (insert 0%nat ABORT_CMD);
  t ← getT id;
  match encodeAbort (buf_ t) 1 (bufSize_ t)
          (mkAbortCmd (threadProtocolVersion_ t) (ErrorCode_value (localError t)) (numFiles_ (threadStats_ t))) with
  | None => StateMonad.abort
  | Some (_, buf, offset) =>
      _ ← set_buf (fun _ => buf);
      _ ← write_buf offset;
      _ ← onWorld srv_closeConnection;
      _ ← onStats (addHeaderBytes offset);
      mret (if bool_decide (localError t = VERSION_MISMATCH) then ACCEPT_WITH_TIMEOUT else FINISH_WITH_ERROR)
  end.

Definition sendDoneCmd : R ReceiverState :=
  written ← write_cmd DONE_CMD;
  if negb (written =? 1) then fail SOCKET_WRITE_ERROR ACCEPT_WITH_TIMEOUT
  else
    _ ← onStats (addHeaderBytes 1);
    read ← read_at 0 1 true;
    byte ← getT (fun t => buf_ t !! 0%nat);
    if negb (read =? 1) || negb (bool_decide (byte = Some DONE_CMD))
    then fail SOCKET_READ_ERROR ACCEPT_WITH_TIMEOUT
    else
      code ← onWorld srv_expectEndOfStream;
      if negb (bool_decide (code = OK)) then fail code ACCEPT_WITH_TIMEOUT
      else
        _ ← markReceivedBlocksVerified;
        code ← onWorld srv_closeConnection;
        fail code END.

(** [controller_->getCondition(...)]: the condition must exist. *)
Definition acquire : R unit := onController (fun c =>
  let* _ := getCondition WAIT_FOR_FINISH_OR_CHECKPOINT_CV c in Some c).

Definition finishWithError : R ReceiverState :=
  err ← getT localError;
  _ ← wdt_check (negb (bool_decide (err = OK)));
  joinable ← getR isJoinable_;
  _ ← onWorld (fun w => (tt, if joinable : bool then srv_closeAllNoCheck w else srv_closeNoCheck w));
  _ ← acquire;
  c ← getT checkpoint_;
  _ ← addCheckpoint c;
  _ ← modR (fun r => r <| controller_ := markState threadIndex FINISHED (controller_ r) |>);
  mret END.

Definition checkForFinishOrNewCheckpoints : R ReceiverState :=
  i ← getT checkpointIndex_;
  checkpoints ← getNewCheckpoints i;
  if negb (bool_decide (checkpoints = [])) then
    _ ← modT (fun t => t <| newCheckpoints_ := checkpoints |>);
    _ ← modR (fun r => r <| controller_ := markState threadIndex RUNNING (controller_ r) |>);
    mret SEND_GLOBAL_CHECKPOINTS
  else
    existActiveThreads ← getR (fun r => hasThreads threadIndex RUNNING (controller_ r));
    if negb existActiveThreads then
      _ ← modR (fun r => r <| controller_ := markState threadIndex FINISHED (controller_ r) |>);
      mret SEND_DONE_CMD
    else mret WAIT_FOR_FINISH_OR_NEW_CHECKPOINT.

Fixpoint waitForFinish_loop (fuel : nat) : R ReceiverState :=
  timeout ← getT senderReadTimeout_;
  _ ← wdt_check (0 <? timeout);
  state ← checkForFinishOrNewCheckpoints;
  if negb (bool_decide (state = WAIT_FOR_FINISH_OR_NEW_CHECKPOINT)) then mret state
  else
    _ ← peers;
    state ← checkForFinishOrNewCheckpoints;
    if negb (bool_decide (state = WAIT_FOR_FINISH_OR_NEW_CHECKPOINT)) then mret state
    else
      written ← write_cmd WAIT_CMD;
      if negb (written =? 1) then
        _ ← setError SOCKET_WRITE_ERROR;
        _ ← modR (fun r => r <| controller_ := markState threadIndex RUNNING (controller_ r) |>);
        mret ACCEPT_WITH_TIMEOUT
      else
        _ ← onStats (addHeaderBytes 1);
        match fuel with
        | O => StateMonad.abort
        | S fuel => waitForFinish_loop fuel
        end.
Definition waitForFinishOrNewCheckpoint : R ReceiverState :=
  err ← getT localError;
  _ ← wdt_check (bool_decide (err = OK));
  _ ← acquire;
  _ ← modR (fun r => r <| controller_ := markState threadIndex WAITING (controller_ r) |>);
  waitForFinish_loop fuel.

(** ** A block *)

(** The first part of [processFileCmd]: the early return, or the block and the
    length of its header. *)
Definition readHeader : R (ReceiverState + BlockDetails * Z) :=
  let failed (e : ErrorCode) (next : ReceiverState) : R (ReceiverState + BlockDetails * Z) :=
    next ← fail e next; mret (inl next) in
  _ ← next_byte;
  t ← getT id;
  let headerLen := Endian_little sizeof_int16 (loadUnaligned sizeof_int16 (drop (Z.to_nat (off_ t)) (buf_ t))) in
  if headerLen <=? 0 then failed PROTOCOL_ERROR FINISH_WITH_ERROR
  else
    _ ← sendHeartBeat;
    _ ← (if numRead_ t <? headerLen then
           let end_ := oldOffset_ t + numRead_ t in
           n ← readAtLeast end_ (bufSize_ t - end_) headerLen (numRead_ t);
           modT (fun t => t <| numRead_ := n |>)
         else mret tt);
    n ← getT numRead_;
    if n <? headerLen then failed SOCKET_READ_ERROR ACCEPT_WITH_TIMEOUT
    else
      _ ← modT (fun t => t <| off_ := off_ t + sizeof_int16 |>);
      r ← decode (decodeHeader (threadProtocolVersion_ t)) (n + oldOffset_ t) BlockDetails_default;
      headerBytes ← getT (fun t => off_ t - oldOffset_ t);
      if negb (headerLen =? headerBytes) then failed PROTOCOL_ERROR FINISH_WITH_ERROR
      else
        _ ← onStats (fun st => addEffectiveBytes headerBytes 0 (addHeaderBytes headerBytes st));
        match r with
        | None => failed PROTOCOL_ERROR FINISH_WITH_ERROR
        | Some b =>
            if bool_decide (allocationStatus b = TO_BE_DELETED)
               && (negb (fileSize b =? 0) || negb (dataSize b =? 0))
            then failed PROTOCOL_ERROR FINISH_WITH_ERROR
            else if negb (isSafeRelativePath (fileName b)) then failed PROTOCOL_ERROR FINISH_WITH_ERROR
            else
              _ ← modT (fun t => t <| checkpointIndex_ := pendingCheckpointIndex_ t |>);
              mret (inr (b, headerBytes))
        end.

(** The loop that reads the rest of the data, from the start of the buffer.
    Every round reads at least a byte. *)
Fixpoint receive_loop (rounds : nat) (b : BlockDetails) (w : FileWriter) (checksum : Z)
    : R (option ReceiverState * FileWriter * Z) :=
  if negb (getTotalWritten w <? dataSize b) then mret (None, w, checksum)
  else
    match rounds with
    | O => StateMonad.abort
    | S rounds =>
        aborted ← onWorld abortCode;
        if negb (bool_decide (aborted = OK)) then
          next ← fail ABORT FINISH_WITH_ERROR;
          mret (Some next, w, checksum)
        else
          _ ← sendHeartBeat;
          t ← getT id;
          nres ← readAtMost 0 (bufSize_ t) (dataSize b - getTotalWritten w);
          if nres <=? 0 then mret (None, w, checksum)
          else
            _ ← onStats (addDataBytes nres);
            data ← getT (fun t => take (Z.to_nat nres) (buf_ t));
            let checksum := addChecksum crc32c (footerType_ t) data checksum in
            _ ← sendHeartBeat;
            r ← onStore (writer_write o b fuel data w);
            if negb (bool_decide (r.1 = OK)) then
              next ← fail r.1 SEND_ABORT_CMD;
              mret (Some next, r.2, checksum)
            else receive_loop rounds b r.2 checksum
    end.

(** From the creation of the writer until [writtenGuard] is dismissed. *)
Definition receiveData (b : BlockDetails) : R (option ReceiverState * FileWriter * Z * Z) :=
  let w := FileWriter_make b in
  _ ← sendHeartBeat;
  opened ← (if wo_delete_extra_files o || negb (bool_decide (allocationStatus b = TO_BE_DELETED))
            then onStore (writer_open o threadIndex b fuel w) else mret (OK, w));
  let w := opened.2 in
  if negb (bool_decide (opened.1 = OK)) then
    next ← fail FILE_WRITE_ERROR SEND_ABORT_CMD;
    mret (Some next, w, 0, 0)
  else
    t ← getT id;
    let remainingData := numRead_ t + oldOffset_ t - off_ t in
    _ ← wdt_check (0 <=? remainingData);
    let toWrite := if dataSize b <=? remainingData then dataSize b else remainingData in
    _ ← onStats (addDataBytes toWrite);
    let data := slice (off_ t) (off_ t + toWrite) (buf_ t) in
    let checksum := addChecksum crc32c (footerType_ t) data 0 in
    _ ← sendHeartBeat;
    r ← (if 0 <? toWrite then onStore (writer_write o b fuel data w) else mret (OK, w));
    let w := r.2 in
    if negb (bool_decide (r.1 = OK)) then
      next ← fail r.1 SEND_ABORT_CMD;
      mret (Some next, w, checksum, remainingData)
    else
      _ ← modT (fun t => t <| off_ := off_ t + toWrite |>);
      let remainingData := remainingData - toWrite in
      l ← receive_loop (Z.to_nat (dataSize b - getTotalWritten w)) b w checksum;
      let '(early, w, checksum) := l in
      match early with
      | Some next => mret (Some next, w, checksum, remainingData)
      | None =>
          syncCode ← onStore (writer_sync o b w);
          if negb (bool_decide (syncCode = OK)) then
            next ← fail syncCode SEND_ABORT_CMD;
            mret (Some next, w, checksum, remainingData)
          else
            closed ← onStore (writer_close w);
            let w := closed.2 in
            if negb (bool_decide (closed.1 = OK)) then
              next ← fail closed.1 SEND_ABORT_CMD;
              mret (Some next, w, checksum, remainingData)
            else if negb (getTotalWritten w =? dataSize b) then
              next ← fail SOCKET_READ_ERROR ACCEPT_WITH_TIMEOUT;
              mret (Some next, w, checksum, remainingData)
            else mret (None, w, checksum, remainingData)
      end.

(** [writtenGuard] *)
Definition writtenGuard (b : BlockDetails) (headerBytes : Z) (w : FileWriter) : R unit :=
  tagLen ← gets (fun s => srv_tagLen (world s));
  footer ← getT footerType_;
  if (tagLen =? 0) && bool_decide (footer = NO_FOOTER) then
    _ ← modT (fun t => t <| checkpoint_ :=
           setLastBlockDetails (seqId b) (blockOffset b) (getTotalWritten w) (checkpoint_ t) |>);
    onStats (addEffectiveBytes headerBytes (getTotalWritten w))
  else mret tt.

(** The bytes behind the block stay in the buffer, or are moved to its start. *)
Definition keepLeftover (remainingData : Z) : R unit :=
  modT (fun t =>
    if 0 <? remainingData then
      let t := t <| numRead_ := remainingData |> in
      if (remainingData <? kMaxHeader) && (Z.quot (bufSize_ t) 2 <? off_ t) then
        t <| buf_ := list_inserts 0 (slice (off_ t) (off_ t + remainingData) (buf_ t)) (buf_ t) |> <| off_ := 0 |>
      else t
    else t <| numRead_ := 0 |> <| off_ := 0 |>).

(** The footer of a block, and its verification. *)
Definition readFooter (b : BlockDetails) (checksum : Z) : R ReceiverState :=
  footer ← getT footerType_;
  match footer with
  | CHECKSUM_FOOTER =>
      _ ← sendHeartBeat;
      _ ← modT (fun t => t <| oldOffset_ := off_ t |>);
      t ← getT id;
      n ← readAtLeast (off_ t) (bufSize_ t - off_ t) kMinBufLength (numRead_ t);
      _ ← modT (fun t => t <| numRead_ := n |>);
      if n <? kMinBufLength then fail SOCKET_READ_ERROR ACCEPT_WITH_TIMEOUT
      else
        cmd ← next_byte;
        if negb (cmd =? FOOTER_CMD) then fail PROTOCOL_ERROR FINISH_WITH_ERROR
        else
          r ← decode decodeFooter (oldOffset_ t + kMaxFooter) 0;
          match r with
          | None => fail PROTOCOL_ERROR FINISH_WITH_ERROR
          | Some receivedChecksum =>
              if negb (checksum =? receivedChecksum) then fail CHECKSUM_MISMATCH ACCEPT_WITH_TIMEOUT
              else
                _ ← markBlockVerified b;
                _ ← consumed;
                mret READ_NEXT_CMD
          end
  | NO_FOOTER =>
      tagLen ← gets (fun s => srv_tagLen (world s));
      _ ← (if negb (tagLen =? 0)
           then modT (fun t => t <| blocksWaitingVerification_ := blocksWaitingVerification_ t ++ [b] |>)
           else markBlockVerified b);
      mret READ_NEXT_CMD
  end.

(** [processFileCmd] behind the header. *)
Definition receiveBlock (b : BlockDetails) (headerBytes : Z) : R ReceiverState :=
  r ← receiveData b;
  let '(early, w, checksum, remainingData) := r in
  match early with
  | Some next =>
      _ ← writtenGuard b headerBytes w;
      _ ← onStore (writer_destroy w);
      mret next
  | None =>
      _ ← wdt_check (0 <=? remainingData);
      _ ← keepLeftover remainingData;
      next ← readFooter b checksum;
      _ ← onStore (writer_destroy w);
      mret next
  end.

(** Before the first block: if no thread has sent file chunks, the sender does
    not resume. *)
Definition noteFirstBlock : R unit :=
  n ← getT (fun t => Reporting.numBlocks_ (threadStats_ t));
  if wo_enable_download_resumption o && (n =? 0) then
    state ← funnelStatus;
    if bool_decide (state = FUNNEL_START) then
      blockMode ← getT isBlockMode_;
      _ ← addTransferLogHeader blockMode false;
      funnelSuccess
    else mret tt
  else mret tt.

Definition processFileCmd : R ReceiverState :=
  _ ← noteFirstBlock;
  _ ← modT (fun t => t <| checkpoint_ := resetLastBlockDetails (checkpoint_ t) |>);
  h ← readHeader;
  next ← match h with
         | inl next => mret next
         | inr (b, headerBytes) => receiveBlock b headerBytes
         end;
  err ← getT localError;
  _ ← (if negb (bool_decide (err = OK)) then onStats incrFailedAttempts else mret tt);
  mret next.

(** ** The machine *)

Definition handler (state : ReceiverState) : R ReceiverState :=
  match state with
  | LISTEN => listen
  | ACCEPT_FIRST_CONNECTION => acceptFirstConnection
  | ACCEPT_WITH_TIMEOUT => acceptWithTimeout
  | SEND_LOCAL_CHECKPOINT => sendLocalCheckpoint
  | READ_NEXT_CMD => readNextCmd
  | PROCESS_FILE_CMD => processFileCmd
  | PROCESS_SETTINGS_CMD => processSettingsCmd
  | PROCESS_DONE_CMD => processDoneCmd
  | PROCESS_SIZE_CMD => processSizeCmd
  | SEND_FILE_CHUNKS => sendFileChunks_
  | SEND_GLOBAL_CHECKPOINTS => sendGlobalCheckpoint
  | SEND_DONE_CMD => sendDoneCmd
  | SEND_ABORT_CMD => sendAbortCmd
  | WAIT_FOR_FINISH_OR_NEW_CHECKPOINT => waitForFinishOrNewCheckpoint
  | FINISH_WITH_ERROR => finishWithError
  | END => StateMonad.abort
  end.

(** The loop of [start]. *)
Fixpoint run (rounds : nat) (state : ReceiverState) : R unit :=
  aborted ← onWorld abortCode;
  if negb (bool_decide (aborted = OK)) then setError ABORT
  else if bool_decide (state = END) then mret tt
  else
    match rounds with
    | O => StateMonad.abort
    | S rounds => next ← handler state; run rounds next
    end.
Definition start (rounds : nat) : R unit :=
  _ ← run rounds LISTEN;
  _ ← onController (deRegisterThread threadIndex);
  mine ← hitsOnce execAtEnd_ (fun e c => c <| execAtEnd_ := e |>);
  _ ← (if mine : bool then endCurGlobalSession else mret tt);
  e ← gets (fun s => srv_encryptionType (world s));
  onStats (setEncryptionType e).
End receiver.
