(* ===== verification/ReceiverMachine.v ===== *)
(** The state machine of a receiver thread: which states follow which, and the
    error code of the thread in each. *)
From stdpp Require Import gmap.
From S2P Require Import Prelude Serialization ErrorCodes StateMonad Protocol Reporting.
From S2P Require Import ThreadsController FileSystem FileCreator FileWriter Socket SendBlock Transitions ReceiverThread.

(** ** Specification *)

(** The error code a thread can have when it enters a state. *)
Definition entered (state : ReceiverState) (e : ErrorCode) : Prop :=
  match state with
  | FINISH_WITH_ERROR | SEND_ABORT_CMD => e <> OK
  | LISTEN | ACCEPT_FIRST_CONNECTION | ACCEPT_WITH_TIMEOUT | END => True
  | _ => e = OK
  end.

Definition successors (state : ReceiverState) : list ReceiverState :=
  match state with
  | LISTEN => [ACCEPT_FIRST_CONNECTION; FINISH_WITH_ERROR]
  | ACCEPT_FIRST_CONNECTION => [READ_NEXT_CMD; ACCEPT_WITH_TIMEOUT; FINISH_WITH_ERROR]
  | ACCEPT_WITH_TIMEOUT => [READ_NEXT_CMD; SEND_LOCAL_CHECKPOINT; FINISH_WITH_ERROR; END]
  | SEND_LOCAL_CHECKPOINT => [READ_NEXT_CMD; ACCEPT_WITH_TIMEOUT]
  | READ_NEXT_CMD => [PROCESS_FILE_CMD; PROCESS_DONE_CMD; PROCESS_SETTINGS_CMD; PROCESS_SIZE_CMD;
                      ACCEPT_WITH_TIMEOUT; FINISH_WITH_ERROR]
  | PROCESS_FILE_CMD => [READ_NEXT_CMD; ACCEPT_WITH_TIMEOUT; SEND_ABORT_CMD; FINISH_WITH_ERROR]
  | PROCESS_SETTINGS_CMD => [READ_NEXT_CMD; SEND_FILE_CHUNKS; SEND_ABORT_CMD; FINISH_WITH_ERROR]
  | PROCESS_DONE_CMD => [WAIT_FOR_FINISH_OR_NEW_CHECKPOINT; FINISH_WITH_ERROR]
  | PROCESS_SIZE_CMD => [READ_NEXT_CMD; FINISH_WITH_ERROR]
  | SEND_FILE_CHUNKS => [READ_NEXT_CMD; ACCEPT_WITH_TIMEOUT]
  | SEND_GLOBAL_CHECKPOINTS => [READ_NEXT_CMD; ACCEPT_WITH_TIMEOUT]
  | SEND_DONE_CMD => [ACCEPT_WITH_TIMEOUT; END]
  | SEND_ABORT_CMD => [ACCEPT_WITH_TIMEOUT; FINISH_WITH_ERROR]
  | WAIT_FOR_FINISH_OR_NEW_CHECKPOINT => [SEND_GLOBAL_CHECKPOINTS; SEND_DONE_CMD; ACCEPT_WITH_TIMEOUT]
  | FINISH_WITH_ERROR => [END]
  | END => []
  end.

(** The error code of the thread. *)
Definition code {W F L} (s : RState W F L) : ErrorCode := localError (thread s).

Section machine.
Context `{Host} {W F L : Type}.
Context `{Socket W} `{ServerSocket W} `{FileSystem F} `{TransferLog L} `{SessionLog L}.
Context `{Others (Store F L)} `{Peers (Receiver F L)}.
Context (o : WriteOptions) (ro : ReceiverOptions) (crc32c : list Z -> Z -> Z).
Context (threadIndex : Z) (fuel : nat).
Abbreviation St := (RState W F L).
Abbreviation R := (M St).
Abbreviation keeps := (Transitions.keeps (code (W := W) (F := F) (L := L))).

(** ** Operations that keep the error code *)

Lemma keeps_modT f : (forall t, localError (f t) = localError t) -> keeps (modT f).
Proof. intros Hf s. apply Hf. Qed.
Lemma keeps_onStats f : (forall st, localErrCode_ (f st) = localErrCode_ st) -> keeps (onStats f).
Proof. intros Hf s. apply Hf. Qed.
Lemma keeps_modR f : keeps (modR f).
Proof. by intros s. Qed.
Lemma keeps_onWorld {A} (f : W -> A * W) : keeps (onWorld f).
Proof. intros s. apply wlp_zoom. by apply wlp_total. Qed.
Lemma keeps_onStore {A} (m : M (Store F L) A) : keeps (onStore m).
Proof. intros s. apply wlp_zoom. by apply wlp_any. Qed.
Lemma keeps_onController f : keeps (onController f).
Proof. intros s. apply wlp_zoom. by apply wlp_any. Qed.
Lemma keeps_hitsOnce get set : keeps (hitsOnce get set).
Proof. intros s. unfold wlp, hitsOnce. by destruct (execute _ _ _) as [[e mine]|]. Qed.
Lemma keeps_onFunnel {A} (f : FunnelStatus -> A * FunnelStatus) : keeps (onFunnel f).
Proof.
  intros s. unfold wlp, onFunnel. destruct (getFunnel _ _) as [st|]; [|done]. by destruct (f st).
Qed.
Lemma keeps_decode {A} (d : list Z -> Z -> Z -> A -> option (bool * A * Z)) max dflt : keeps (decode d max dflt).
Proof. intros s. unfold wlp, decode. by destruct (d _ _ _ _) as [[[ok a] off]|]. Qed.
End machine.

#[global] Hint Resolve keeps_modR keeps_onWorld
  keeps_onStore keeps_onController keeps_hitsOnce keeps_onFunnel keeps_decode : keeps.
#[global] Hint Extern 1 (Transitions.keeps _ (modT _)) => (apply keeps_modT; done) : keeps.
#[global] Hint Extern 1 (Transitions.keeps _ (onStats _)) => (apply keeps_onStats; done) : keeps.
Section operations.
Context `{Host} {W F L : Type}.
Context `{Socket W} `{ServerSocket W} `{FileSystem F} `{TransferLog L} `{SessionLog L}.
Context `{Others (Store F L)} `{Peers (Receiver F L)}.
Context (o : WriteOptions) (ro : ReceiverOptions) (crc32c : list Z -> Z -> Z).
Context (threadIndex : Z) (fuel : nat).
Abbreviation St := (RState W F L).
Abbreviation R := (M St).
Abbreviation keeps := (Transitions.keeps (code (W := W) (F := F) (L := L))).

Lemma keeps_getT {A} (f : ReceiverThread -> A) : keeps (getT f : R A).
Proof. apply keeps_gets. Qed.
Lemma keeps_getR {A} (f : Receiver F L -> A) : keeps (getR f : R A).
Proof. apply keeps_gets. Qed.
Lemma keeps_write bs : keeps (write bs : R Z).
Proof. apply keeps_onWorld. Qed.
Lemma keeps_addCheckpoint c : keeps (addCheckpoint c : R unit).
Proof. apply keeps_modR. Qed.
Lemma keeps_set_buf f : keeps (set_buf f : R unit).
Proof. by apply keeps_modT. Qed.
Lemma keeps_onLog f : keeps (onLog f : R unit).
Proof. apply keeps_onStore. Qed.
Lemma keeps_peers : keeps (peers : R unit).
Proof. apply keeps_modR. Qed.
#[local] Hint Resolve keeps_getT keeps_getR keeps_write keeps_set_buf keeps_addCheckpoint keeps_onLog keeps_peers : keeps.

Lemma keeps_write_buf n : keeps (write_buf n : R Z).
Proof. unfold write_buf. keeps. Qed.
Lemma keeps_markBlockVerified b : keeps (markBlockVerified o b : R unit).
Proof. unfold markBlockVerified. keeps. Qed.
#[local] Hint Resolve keeps_write_buf keeps_markBlockVerified : keeps.
Lemma keeps_markAll l : keeps (markAll o l : R unit).
Proof. induction l; cbn [markAll]; keeps. Qed.
#[local] Hint Resolve keeps_markAll : keeps.
Lemma keeps_markReceivedBlocksVerified : keeps (markReceivedBlocksVerified o : R unit).
Proof. unfold markReceivedBlocksVerified. keeps. Qed.
#[local] Hint Resolve keeps_markReceivedBlocksVerified : keeps.
Lemma keeps_read_at pos n full : keeps (read_at o pos n full : R Z).
Proof. unfold read_at. keeps. Qed.
#[local] Hint Resolve keeps_read_at : keeps.
Lemma keeps_readAtLeast pos max atLeast len : keeps (readAtLeast o pos max atLeast len : R Z).
Proof.
  unfold readAtLeast. generalize (Z.to_nat (atLeast - len)). intros n. keeps.
  revert len. induction n as [|n IH]; intros len; cbn [readAtLeast_loop]; keeps.
Qed.
Lemma keeps_readAtMost pos max atMost : keeps (readAtMost o pos max atMost : R Z).
Proof. apply keeps_read_at. Qed.
Lemma keeps_sendHeartBeat : keeps (sendHeartBeat : R unit).
Proof. unfold sendHeartBeat. keeps. Qed.
Lemma keeps_addTransferLogHeader b1 b2 : keeps (addTransferLogHeader o b1 b2 : R unit).
Proof. unfold addTransferLogHeader. keeps. Qed.
Lemma keeps_startNewGlobalSession ip : keeps (startNewGlobalSession o ip : R unit).
Proof. unfold startNewGlobalSession. keeps. Qed.
Lemma keeps_next_byte : keeps (next_byte : R Z).
Proof. unfold next_byte. keeps. Qed.
Lemma keeps_consumed : keeps (consumed : R unit).
Proof. unfold consumed. keeps. Qed.
Lemma keeps_write_cmd cmd : keeps (write_cmd cmd : R Z).
Proof. unfold write_cmd. keeps. Qed.
Lemma keeps_sendChunks_loop n info k : keeps (sendChunks_loop n info k : R Z).
Proof. revert k. induction n as [|n IH]; intros k; cbn [sendChunks_loop]; keeps. Qed.
Lemma keeps_funnelStatus : keeps (funnelStatus : R FunnelStatus).
Proof. apply keeps_onFunnel. Qed.
Lemma keeps_funnelSuccess : keeps (funnelSuccess : R unit).
Proof. apply keeps_onFunnel. Qed.
Lemma keeps_funnelFail : keeps (funnelFail : R unit).
Proof. apply keeps_onFunnel. Qed.
Lemma keeps_acquire : keeps (acquire : R unit).
Proof. apply keeps_onController. Qed.
Lemma keeps_writtenGuard b n w : keeps (writtenGuard b n w : R unit).
Proof. unfold writtenGuard. keeps. Qed.
Lemma keeps_keepLeftover n : keeps (keepLeftover n : R unit).
Proof. apply keeps_modT. intros t. destruct (0 <? n); cbv zeta; [destruct (_ && _)|]; reflexivity. Qed.
#[local] Hint Resolve keeps_funnelStatus keeps_funnelSuccess keeps_addTransferLogHeader : keeps.
Lemma keeps_noteFirstBlock : keeps (noteFirstBlock o : R unit).
Proof. unfold noteFirstBlock. keeps. Qed.
End operations.

#[global] Hint Resolve keeps_getT keeps_getR keeps_write keeps_set_buf keeps_addCheckpoint keeps_onLog keeps_peers keeps_write_buf
  keeps_markBlockVerified keeps_markReceivedBlocksVerified keeps_read_at keeps_readAtLeast keeps_readAtMost
  keeps_sendHeartBeat keeps_addTransferLogHeader keeps_startNewGlobalSession keeps_next_byte keeps_consumed
  keeps_write_cmd keeps_sendChunks_loop keeps_funnelStatus keeps_funnelSuccess keeps_funnelFail keeps_acquire
  keeps_writtenGuard keeps_keepLeftover keeps_noteFirstBlock : keeps.

(** ** Transitions *)

Section transitions.
Context `{Host} {W F L : Type}.
Context `{Socket W} `{ServerSocket W} `{FileSystem F} `{TransferLog L} `{SessionLog L}.
Context `{Others (Store F L)} `{Peers (Receiver F L)}.
Context (o : WriteOptions) (ro : ReceiverOptions) (crc32c : list Z -> Z -> Z).
Context (threadIndex : Z) (fuel : nat).
Abbreviation St := (RState W F L).
Abbreviation R := (M St).
Abbreviation keeps := (Transitions.keeps (code (W := W) (F := F) (L := L))).
Abbreviation goes := (Transitions.goes (code (W := W) (F := F) (L := L))).

Lemma goes_setError {B} (Q : B -> ErrorCode -> Prop) e e' (k : unit -> R B) :
  goes Q e' (k tt) -> goes Q e (mbind k (setError e')).
Proof. intros Hk. apply (goes_bind (fun _ e'' => e'' = e')); [by intros s _|]. by intros [] e'' ->. Qed.
Lemma goes_fail (P : ReceiverState -> ErrorCode -> Prop) e e' next : P next e' -> goes P e (fail e' next).
Proof. intros Hp. by apply goes_setError, goes_ret. Qed.
Lemma goes_fail_bind {B} (Q : B -> ErrorCode -> Prop) e e' next (k : ReceiverState -> R B) :
  goes Q e' (k next) -> goes Q e (mbind k (fail e' next)).
Proof.
  intros Hk. apply (goes_bind (fun n e'' => n = next /\ e'' = e')); [by apply goes_fail|]. by intros a e'' [-> ->].
Qed.
Lemma goes_getError {B} (Q : B -> ErrorCode -> Prop) e (k : ErrorCode -> R B) :
  goes Q e (k e) -> goes Q e (mbind k (getT localError)).
Proof. intros Hk. apply goes_gets. by intros s <-. Qed.

(** [next] is a successor of [state] and may be entered with the code. *)
Definition follows (state next : ReceiverState) (e : ErrorCode) : Prop :=
  next ∈ successors state /\ entered next e.

Ltac goes_side := first [ exact I | done | split; [cbn; set_solver | cbn; first [done | exact I | congruence]] ].
Ltac goes_step :=
  lazymatch goal with
  | |- Transitions.goes _ _ _ StateMonad.abort => apply goes_abort
  | |- Transitions.goes _ _ _ (fail _ _) => apply goes_fail; goes_side
  | |- Transitions.goes _ _ _ (mret _) => first [apply goes_ret; goes_side | case_goal; bool_to_prop]
  | |- Transitions.goes _ _ _ (mbind _ (getT localError)) => apply goes_getError
  | |- Transitions.goes _ _ _ (mbind _ (setError _)) => apply goes_setError
  | |- Transitions.goes _ _ _ (mbind _ (fail _ _)) => apply goes_fail_bind
  | |- Transitions.goes _ _ _ (mbind _ _) => first [apply goes_keeps; [solve [keeps] | intros ?] | case_goal; bool_to_prop]
  | |- _ => case_goal; bool_to_prop
  end.
Ltac goes := repeat goes_step.

Lemma listen_follows e : goes (follows LISTEN) e (listen ro).
Proof.
  unfold listen. apply (goes_bind (fun r e' => from_option (fun n => follows LISTEN n e') True r)).
  - generalize (Z.to_nat (ro_max_retries ro - 1)). intros n. revert e.
    induction n as [|n IH]; intros e; cbn [listen_tries]; goes. apply IH.
  - intros [next|] e' He; [by apply goes_ret|]. goes.
Qed.

Lemma reset_goes e : goes (fun _ e' => e' = OK) e (reset : R unit).
Proof. by intros s _. Qed.
Lemma acceptFirst_follows e : goes (follows ACCEPT_FIRST_CONNECTION) e (acceptFirstConnection o ro fuel).
Proof.
  unfold acceptFirstConnection. eapply goes_bind; [apply reset_goes|]. intros _ e' ->.
  apply goes_keeps; [keeps|intros _].
  apply (goes_bind (fun r e' => from_option (fun n => follows ACCEPT_FIRST_CONNECTION n e') (e' = OK) r)).
  - generalize 0. generalize fuel. intros n. induction n as [|n IH]; intros k; cbn [acceptFirst_loop]; goes; apply IH.
  - intros [next|] e' He; [by apply goes_ret|]. simpl in He. subst e'. goes.
Qed.
Lemma acceptWithTimeout_follows e : goes (follows ACCEPT_WITH_TIMEOUT) e (acceptWithTimeout ro : R _).
Proof. unfold acceptWithTimeout. goes. Qed.
Lemma sendLocalCheckpoint_follows : goes (follows SEND_LOCAL_CHECKPOINT) OK (sendLocalCheckpoint : R _).
Proof. unfold sendLocalCheckpoint. goes. Qed.
Lemma readNextCmd_follows : goes (follows READ_NEXT_CMD) OK (readNextCmd o : R _).
Proof. unfold readNextCmd. goes. Qed.
Lemma processSettingsCmd_follows : goes (follows PROCESS_SETTINGS_CMD) OK (processSettingsCmd : R _).
Proof.
  unfold processSettingsCmd. goes.
  apply (goes_bind (fun r e' => from_option (fun n => follows PROCESS_SETTINGS_CMD n e') (e' = OK) r)).
  - unfold agreeVersion. goes.
  - intros [next|] e' He; [by apply goes_ret|]. simpl in He. subst e'. goes.
Qed.
Lemma processDoneCmd_follows : goes (follows PROCESS_DONE_CMD) OK (processDoneCmd : R _).
Proof. unfold processDoneCmd. goes. Qed.
Lemma processSizeCmd_follows : goes (follows PROCESS_SIZE_CMD) OK (processSizeCmd : R _).
Proof. unfold processSizeCmd. goes. Qed.
Lemma sendFileChunks_follows : goes (follows SEND_FILE_CHUNKS) OK (sendFileChunks_ o fuel : R _).
Proof.
  unfold sendFileChunks_. goes. generalize fuel at 2. intros n.
  induction n as [|n IH]; cbn [sendFileChunks_loop]; goes; try exact IH; unfold sendAllChunks; goes.
Qed.
Lemma sendGlobalCheckpoint_follows : goes (follows SEND_GLOBAL_CHECKPOINTS) OK (sendGlobalCheckpoint : R _).
Proof. unfold sendGlobalCheckpoint. goes. Qed.
Lemma sendDoneCmd_follows : goes (follows SEND_DONE_CMD) OK (sendDoneCmd o : R _).
Proof. unfold sendDoneCmd. goes. Qed.
Lemma finishWithError_follows e : e <> OK -> goes (follows FINISH_WITH_ERROR) e (finishWithError threadIndex : R _).
Proof. intros He. unfold finishWithError. goes. Qed.

Lemma goes_getThread {B} (Q : B -> ErrorCode -> Prop) e (k : ReceiverThread -> R B) :
  (forall t, localError t = e -> goes Q e (k t)) -> goes Q e (mbind k (getT id)).
Proof. intros Hk. apply goes_gets. intros s. apply Hk. Qed.
Lemma sendAbortCmd_follows e : e <> OK -> goes (follows SEND_ABORT_CMD) e (sendAbortCmd : R _).
Proof.
  intros He. unfold sendAbortCmd. apply goes_keeps; [keeps|intros _]. apply goes_getThread. intros t <-. goes.
Qed.

Definition waits (state : ReceiverState) (e : ErrorCode) : Prop :=
  e = OK /\ (state = WAIT_FOR_FINISH_OR_NEW_CHECKPOINT \/ follows WAIT_FOR_FINISH_OR_NEW_CHECKPOINT state e).
Lemma checkForFinish_waits : goes waits OK (checkForFinishOrNewCheckpoints threadIndex : R _).
Proof.
  unfold checkForFinishOrNewCheckpoints, getNewCheckpoints. repeat (apply goes_keeps; [solve [keeps]|intros ?] || case_goal);
    apply goes_ret; (split; [done|]); first [by left | by right; goes_side].
Qed.
Lemma waitForFinish_follows :
  goes (follows WAIT_FOR_FINISH_OR_NEW_CHECKPOINT) OK (waitForFinishOrNewCheckpoint threadIndex fuel : R _).
Proof.
  unfold waitForFinishOrNewCheckpoint. goes. generalize fuel. intros n.
  induction n as [|n IH]; cbn [waitForFinish_loop]; goes.
  all: eapply goes_bind; [apply checkForFinish_waits|]; intros st e' [-> Hst].
  all: case_bool_decide as Ew; cbn [negb]; [clear Hst|apply goes_ret; by destruct Hst].
  all: apply goes_keeps; [solve [keeps]|intros _].
  all: eapply goes_bind; [apply checkForFinish_waits|]; intros st' e' [-> Hst].
  all: case_bool_decide as Ew'; cbn [negb]; [clear Hst|apply goes_ret; by destruct Hst].
  all: goes. exact IH.
Qed.

(** An early return of [processFileCmd], or the code is still [OK]. *)
Definition early_or_ok (early : option ReceiverState) (e : ErrorCode) : Prop :=
  from_option (fun n => follows PROCESS_FILE_CMD n e) (e = OK) early.

Lemma readHeader_goes :
  goes (fun r e => match r with inl n => follows PROCESS_FILE_CMD n e | inr _ => e = OK end) OK (readHeader o : R _).
Proof. unfold readHeader. goes. Qed.
Lemma receive_loop_goes rounds b w ck :
  goes (fun r e => early_or_ok r.1.1 e) OK (receive_loop o crc32c fuel rounds b w ck : R _).
Proof.
  revert w ck. induction rounds as [|n IH]; intros w ck; cbn [receive_loop]; goes; apply IH.
Qed.
Lemma receiveData_goes b :
  goes (fun r e => early_or_ok r.1.1.1 e) OK (receiveData o crc32c threadIndex fuel b : R _).
Proof.
  unfold receiveData. goes.
  all: eapply goes_bind; [apply receive_loop_goes|]; intros [[early w'] ck'] e'; cbn [fst];
    destruct early as [next|]; cbn [early_or_ok from_option]; [intros Hn; by apply goes_ret|intros ->]; goes.
Qed.
Lemma readFooter_goes b ck : goes (follows PROCESS_FILE_CMD) OK (readFooter o b ck : R _).
Proof. unfold readFooter. goes. Qed.
Lemma receiveBlock_goes b n :
  goes (follows PROCESS_FILE_CMD) OK (receiveBlock o crc32c threadIndex fuel b n : R _).
Proof.
  unfold receiveBlock. eapply goes_bind; [apply receiveData_goes|]. intros [[[early w'] ck'] rem] e'. cbn [fst].
  destruct early as [next|]; cbn [early_or_ok from_option].
  - intros Hn. do 2 (apply goes_keeps; [solve [keeps]|intros _]). by apply goes_ret.
  - intros ->. do 2 (apply goes_keeps; [solve [keeps]|intros _]).
    eapply goes_bind; [apply readFooter_goes|]. intros next e' Hn.
    apply goes_keeps; [solve [keeps]|intros _]. by apply goes_ret.
Qed.
Lemma processFileCmd_follows :
  goes (follows PROCESS_FILE_CMD) OK (processFileCmd o crc32c threadIndex fuel : R _).
Proof.
  unfold processFileCmd. do 2 (apply goes_keeps; [solve [keeps]|intros _]).
  eapply goes_bind; [apply readHeader_goes|]. intros h e' Hh.
  apply (goes_bind (follows PROCESS_FILE_CMD)).
  - destruct h as [next|[b n]]; [by apply goes_ret|]. subst e'. apply receiveBlock_goes.
  - intros next e'' Hn. apply goes_getError. apply goes_keeps; [solve [keeps]|intros _]. by apply goes_ret.
Qed.

Lemma handler_follows state e :
  entered state e -> goes (follows state) e (handler o ro crc32c threadIndex fuel state : R _).
Proof.
  intros He. destruct state; cbn in He; subst; cbn [handler];
    eauto using listen_follows, acceptFirst_follows, acceptWithTimeout_follows, sendLocalCheckpoint_follows,
      readNextCmd_follows, processFileCmd_follows, processSettingsCmd_follows, processDoneCmd_follows,
      processSizeCmd_follows, sendFileChunks_follows, sendGlobalCheckpoint_follows, sendDoneCmd_follows,
      sendAbortCmd_follows, waitForFinish_follows, finishWithError_follows.
  by intros s.
Qed.

(** ** Runs *)

(** The states a thread goes through, with the state of everything in between
    changed in any way that keeps the thread. *)
Inductive mreach : ReceiverState -> St -> Prop :=
  | mreach_start s : mreach LISTEN s
  | mreach_step state s next s' :
      mreach state s -> handler o ro crc32c threadIndex fuel state s = Some (next, s') -> mreach next s'
  | mreach_others state s s' : mreach state s -> thread s' = thread s -> mreach state s'.

(** C6: The state machine of a receiver thread.  Whatever the sender, the
    socket, the disk and the other threads do, a handler goes to one of its
    successors, and the error code of the thread fits the state: it is set in
    the states that end or abort the transfer and clear in all states that
    exchange data.  So the checks on it in [finishWithError] and
    [waitForFinishOrNewCheckpoint] never fail. *)
Theorem receiver_machine state s :
  mreach state s ->
  entered state (localError (thread s))
  /\ (forall next s', handler o ro crc32c threadIndex fuel state s = Some (next, s') -> next ∈ successors state)
  /\ (state = FINISH_WITH_ERROR -> is_Some (getCondition WAIT_FOR_FINISH_OR_CHECKPOINT_CV (controller_ (receiver s))) ->
      is_Some (finishWithError threadIndex s)).
Proof.
  intros Hr. assert (entered state (localError (thread s))) as He.
  { induction Hr as [s|state s next s' _ He E|state s s' _ He ->]; [done| |done].
    pose proof (handler_follows state _ He s eq_refl) as Hw. unfold wlp in Hw. rewrite E in Hw. apply Hw. }
  split_and!; [done|..].
  - intros next s' E. pose proof (handler_follows state _ He s eq_refl) as Hw. unfold wlp in Hw. rewrite E in Hw. apply Hw.
  - intros -> [u Hc]. cbn in He. unfold finishWithError.
    assert (wp (finishWithError threadIndex) (fun _ _ => True) s) as Hw.
    { unfold finishWithError. apply wp_bind, wp_gets, wp_bind, wp_check. split; [by rewrite bool_decide_eq_false_2|].
      apply wp_bind, wp_gets, wp_bind. apply wp_zoom, wp_total. apply wp_bind. unfold acquire, onController.
      apply wp_zoom. unfold wp. cbn. cbn in Hc. rewrite Hc. done. }
    apply wp_Some in Hw as (a & s' & E & _). unfold finishWithError in E. rewrite E. eauto.
Qed.
End transitions.
