(* ===== verification/ReceiveBlock.v ===== *)
(** Receiving one block: what [readNextCmd] and [processFileCmd] do with the
    bytes that [SendBlock] puts on the wire. *)
From stdpp Require Import gmap.
From S2P Require Import Prelude ByteSource Serialization ErrorCodes StateMonad Protocol ProtocolProps Reporting.
From S2P Require Import ThreadsController FileSystem FileCreator FileCreatorProps FileWriter.
From S2P Require Import Socket SendBlock ReceiverThread.

(** A connection without encryption: no tags, and no callback. *)
Class ServerSocketLaws (W : Type) `{SocketLaws W} `{ServerSocket W} := {
  plain : W -> Prop;
  plain_tagLen w : plain w -> srv_tagLen w = 0;
  plain_tagVerified w b w' : plain w -> srv_tagVerified w = (b, w') -> b = false /\ plain w' /\ incoming w' = incoming w;
  plain_read n full w r bs w' : plain w -> sock_read n full w = (r, bs, w') -> plain w';
  plain_write bs w r w' : plain w -> sock_write bs w = (r, w') -> plain w';
  plain_abort w e w' : plain w -> abortCode w = (e, w') -> plain w';
  plain_heartBeat w b w' : plain w -> heartBeatDue w = (b, w') -> plain w'
}.

(** ** Lists *)

Lemma slice_all {A} (l : list A) : slice 0 (Zlen l) l = l.
Proof. unfold slice. rewrite drop_0. apply firstn_all2. lia. Qed.
Lemma Zlen_slice_le {A} i j (l : list A) : 0 <= i <= j -> j <= Zlen l -> Zlen (slice i j l) = j - i.
Proof. intros. unfold slice. rewrite length_take, length_drop. lia. Qed.
(** Bytes stored right behind a part of the buffer extend it. *)
Lemma slice_inserts_extend (i j : Z) (bs l : list Z) :
  0 <= i <= j -> j + Zlen bs <= Zlen l ->
  slice i (j + Zlen bs) (list_inserts (Z.to_nat j) bs l) = slice i j l ++ bs.
Proof.
  intros Hij Hl. rewrite list_inserts_split by lia. unfold slice.
  rewrite drop_app_le by (rewrite length_take; lia). rewrite skipn_firstn_comm.
  rewrite app_assoc. rewrite take_app_length'; [f_equal; f_equal; lia|].
  rewrite length_app, length_take, length_drop. lia.
Qed.
Lemma take_inserts (i : nat) (j : Z) (bs l : list Z) :
  (i <= Z.to_nat j)%nat -> j + Zlen bs <= Zlen l -> 0 <= j ->
  take i (list_inserts (Z.to_nat j) bs l) = take i l.
Proof.
  intros Hi Hl Hj. rewrite list_inserts_split by lia. rewrite take_app_le by (rewrite length_take; lia).
  rewrite take_take. f_equal. lia.
Qed.
(** The first bytes of a part of the buffer. *)
Lemma slice_prefix {A} (i j k : Z) (l a b : list A) :
  0 <= i <= k -> k <= j -> slice i j l = a ++ b -> Zlen a = k - i -> slice i k l = a.
Proof.
  intros Hi Hk E Ha. assert (slice i k l = take (Z.to_nat (k - i)) (slice i j l)) as ->.
  { unfold slice. rewrite take_take. f_equal. lia. }
  rewrite E. apply take_app_length'. lia.
Qed.
Lemma slice_suffix {A} (i j k : Z) (l a b : list A) :
  0 <= i <= k -> k <= j -> slice i j l = a ++ b -> Zlen a = k - i -> slice k j l = b.
Proof.
  intros Hi Hk E Ha. assert (slice k j l = drop (Z.to_nat (k - i)) (slice i j l)) as ->.
  { unfold slice. rewrite skipn_firstn_comm, drop_drop. f_equal; [lia|]. f_equal. lia. }
  rewrite E. apply drop_app_length'. lia.
Qed.

Lemma slice_length {A} (i n : Z) (l a : list A) :
  0 <= i -> i + n <= Zlen l -> slice i (i + n) l = a -> 0 < Zlen a -> n = Zlen a.
Proof.
  intros Hi Hn <-. unfold slice. rewrite length_take, length_drop. lia.
Qed.

(** A decoder on a part of the buffer that starts with its bytes. *)
Lemma run_decoder_at {S} (d : record_decoder S) src off max s bs rest f :
  Reads d bs f -> 0 <= off <= max -> max <= Zlen src -> slice off max src = bs ++ rest ->
  run_decoder d src off max s = Some (true, f s, off + Zlen bs).
Proof.
  intros Hd Ho Hm E. unfold run_decoder, makeByteRange.
  replace (_ && _ && _ && _) with true by (symmetry; bool_to_prop; lia).
  rewrite E, Hd. do 2 f_equal. unfold offset. rewrite Zlen_app. lia.
Qed.

(** ** Reading and writing the socket *)

Section io.
Context {W F L : Type} `{ServerSocketLaws W} `{FileSystem F} `{TransferLog L}.
Context (o : WriteOptions).
Abbreviation St := (RState W F L).

Lemma wp_modT f (Q : unit -> St -> Prop) t r w : Q tt (mkRState (f t) r w) -> wp (modT f) Q (mkRState t r w).
Proof. done. Qed.
Lemma wp_getT {A} (f : ReceiverThread -> A) (Q : A -> St -> Prop) t r w :
  Q (f t) (mkRState t r w) -> wp (getT f) Q (mkRState t r w).
Proof. done. Qed.
Lemma wp_onStats f (Q : unit -> St -> Prop) t r w :
  Q tt (mkRState (t <| threadStats_ := f (threadStats_ t) |>) r w) -> wp (onStats f) Q (mkRState t r w).
Proof. done. Qed.
Lemma wp_next_byte (Q : Z -> St -> Prop) t r w :
  Q (default 0 (buf_ t !! Z.to_nat (off_ t))) (mkRState (t <| off_ := off_ t + 1 |>) r w) ->
  wp next_byte Q (mkRState t r w).
Proof. done. Qed.
Lemma wp_onStore {A} (m : M (Store F L) A) (Q : A -> St -> Prop) t r w :
  wp m (fun a st => Q a (mkRState t (r <| store_ := st |>) w)) (store_ r) -> wp (onStore m) Q (mkRState t r w).
Proof. intros Hm. by apply wp_zoom. Qed.

Lemma wp_onWorld {A} (f : W -> A * W) (Q : A -> St -> Prop) t r w :
  (forall a w', f w = (a, w') -> Q a (mkRState t r w')) -> wp (onWorld f) Q (mkRState t r w).
Proof.
  intros HQ. apply wp_zoom, wp_total. simpl. destruct (f w) as [a w'] eqn:E. by apply HQ.
Qed.

Lemma wp_sendHeartBeat (Q : unit -> St -> Prop) t r w :
  plain w -> (forall w', plain w' -> incoming w' = incoming w -> Q tt (mkRState t r w')) ->
  wp sendHeartBeat Q (mkRState t r w).
Proof.
  intros Hp HQ. unfold sendHeartBeat. apply wp_bind, wp_gets. simpl.
  destruct (negb (enableHeartBeat_ t)); [by apply wp_ret, HQ|]. apply wp_bind, wp_onWorld.
  intros due w1 E1. pose proof (plain_heartBeat _ _ _ Hp E1) as Hp1. apply heartBeatDue_spec in E1 as [_ E1].
  destruct (negb due); [by apply wp_ret, HQ|]. apply wp_bind, wp_onWorld.
  intros n w2 E2. pose proof (plain_write _ _ _ _ Hp1 E2) as Hp2. apply write_spec in E2 as [E2 _].
  apply wp_ret, HQ; [done|congruence].
Qed.

(** A read stores the next bytes at its place, or fails. *)
Lemma wp_read_at (Q : Z -> St -> Prop) pos n full t r w :
  plain w -> 0 <= n -> 0 <= pos -> pos + n <= Zlen (buf_ t) ->
  (forall k bs w', plain w' -> k <= n -> (k <= 0 -> bs = []) -> (0 < k -> Zlen bs = k) ->
     incoming w = bs ++ incoming w' -> Q k (mkRState (t <| buf_ := list_inserts (Z.to_nat pos) bs (buf_ t) |>) r w')) ->
  wp (read_at o pos n full) Q (mkRState t r w).
Proof.
  intros Hp Hn Hpos Hlen HQ. unfold read_at. apply wp_bind, wp_onWorld. intros [k bs] w1 E.
  destruct (sock_read n full w) as [[k' bs'] w1'] eqn:Er. injection E as -> -> ->.
  pose proof (plain_read _ _ _ _ _ _ Hp Er) as Hp1. apply read_spec in Er as [_ Er]; [|done].
  apply wp_bind, wp_modify, wp_bind, wp_onWorld. intros b w2 Ev.
  destruct (plain_tagVerified _ _ _ Hp1 Ev) as (-> & Hp2 & Ei). simpl. apply wp_bind, wp_ret, wp_ret. simpl.
  rewrite <- Ei in Er. destruct Er as [(? & -> & E)|(? & ? & E)]; apply HQ; try done; lia.
Qed.

(** [readAtLeast] fails to get what was asked for, or the buffer has the next
    bytes behind those it had. *)
Lemma wp_readAtLeast_loop (Q : Z -> St -> Prop) fuel pos max atLeast len t buf r w pend :
  plain w -> 0 <= pos -> 0 <= len <= max -> atLeast <= max -> pos + max <= Zlen buf ->
  slice pos (pos + len) buf ++ incoming w = pend -> atLeast - len <= Z.of_nat fuel ->
  (forall n buf' w', plain w' -> length buf' = length buf ->
     (n < atLeast \/ atLeast <= n <= max /\ len <= n /\ take (Z.to_nat pos) buf' = take (Z.to_nat pos) buf
        /\ slice pos (pos + n) buf' ++ incoming w' = pend) ->
     Q n (mkRState (t <| buf_ := buf' |>) r w')) ->
  wp (readAtLeast_loop o fuel pos max atLeast len) Q (mkRState (t <| buf_ := buf |>) r w).
Proof.
  revert buf len w. induction fuel as [|fuel IH]; intros buf len w Hp Hpos Hlen Hat Hmax Epend Hfuel HQ;
    cbn [readAtLeast_loop]; destruct (Z.ltb_spec len atLeast) as [Hlt|Hge]; cbn [negb].
  1: lia.
  1,3: apply wp_ret, HQ; [done|done|]; right; split_and!; [lia..|done|done].
  apply wp_bind, wp_read_at; [done|lia|lia|simpl; lia|]. intros k bs w1 Hp1 Hk Hneg Hpos1 Ei. simpl.
  set (buf1 := list_inserts (Z.to_nat (pos + len)) bs buf).
  assert (length buf1 = length buf) as Hl1 by (unfold buf1; by rewrite length_inserts).
  destruct (Z.ltb_spec k 0) as [Hk0|Hk0].
  { apply wp_ret, (HQ _ buf1); [done|done|]. left. destruct (Z.eqb_spec len 0); cbn [negb]; lia. }
  destruct (Z.eqb_spec k 0) as [->|Hk1].
  { apply wp_ret, (HQ _ buf1); [done|done|]. by left. }
  specialize (Hpos1 ltac:(lia)).
  apply (IH buf1 (len + k) w1); try done; try lia.
  { unfold buf1. rewrite Z.add_assoc, <- Hpos1, slice_inserts_extend by lia.
    rewrite <- app_assoc, <- Ei. done. }
  intros n buf' w' Hp' Hl' Hn. apply HQ; [done|congruence|]. destruct Hn as [Hn|(? & ? & Ht & ?)]; [by left|right].
  split_and!; [lia..| |done]. rewrite Ht. unfold buf1. apply take_inserts; lia.
Qed.
Lemma wp_readAtLeast (Q : Z -> St -> Prop) pos max atLeast len t r w :
  plain w -> 0 <= pos -> 0 <= len <= max -> 0 < atLeast <= max -> pos + max <= Zlen (buf_ t) ->
  (forall n buf w', plain w' -> length buf = length (buf_ t) ->
     (n < atLeast \/ atLeast <= n <= max /\ len <= n /\ take (Z.to_nat pos) buf = take (Z.to_nat pos) (buf_ t)
        /\ slice pos (pos + n) buf ++ incoming w' = slice pos (pos + len) (buf_ t) ++ incoming w) ->
     Q n (mkRState (t <| buf_ := buf |>) r w')) ->
  wp (readAtLeast o pos max atLeast len) Q (mkRState t r w).
Proof.
  intros Hp Hpos Hlen Hat Hmax HQ. unfold readAtLeast.
  do 3 (apply wp_bind, wp_check; split; [bool_to_prop; lia|]).
  replace t with (t <| buf_ := buf_ t |>) by (by destruct t).
  eapply wp_readAtLeast_loop; try done; lia.
Qed.
End io.

(** ** The header *)

Lemma drop_slice {A} (i j : Z) (l : list A) : 0 <= i <= j -> drop (Z.to_nat i) l = slice i j l ++ drop (Z.to_nat j) l.
Proof.
  intros. unfold slice. rewrite <- (take_drop (Z.to_nat (j - i)) (drop (Z.to_nat i) l)) at 1.
  f_equal. rewrite drop_drop. f_equal. lia.
Qed.
(** What is at the front of two streams that are the same. *)
Lemma app_eq_longer {A} (a b c d : list A) :
  a ++ b = c ++ d -> (length c <= length a)%nat -> exists x, a = c ++ x /\ x ++ b = d.
Proof.
  intros E Hl. exists (drop (length c) a).
  assert (take (length c) a = c) as Et.
  { rewrite <- (take_app_le a b) by done. by rewrite E, take_app_length. }
  split; [by rewrite <- Et at 1; rewrite take_drop|].
  apply (app_inv_head c). rewrite app_assoc. rewrite <- Et at 1. by rewrite take_drop.
Qed.
Lemma lookup_slice {A} (i j : Z) (l : list A) x rest :
  0 <= i -> slice i j l = x :: rest -> l !! Z.to_nat i = Some x.
Proof.
  intros Hi E. rewrite <- (Nat.add_0_r (Z.to_nat i)), <- lookup_drop.
  assert (take (Z.to_nat (j - i)) (drop (Z.to_nat i) l) !! 0%nat = Some x) as Hx by (unfold slice in E; by rewrite E).
  by apply lookup_take_Some in Hx as [? _].
Qed.

Lemma load_fixed `{Host} v rest :
  0 <= v < 2 ^ 15 -> Endian_little sizeof_int16 (loadUnaligned sizeof_int16 (fixedBytes sizeof_int16 v ++ rest)) = v.
Proof.
  intros Hv. pose proof (decodeIntFixedLength_decodes sizeof_int16 v) as Hd.
  specialize (Hd ltac:(done) ltac:(lia) ltac:(unfold inS, sizeof_int16; lia) rest). unfold decodeIntFixedLength in Hd.
  destruct (_ <? _); [done|]. by destruct (_ <? 0); simplify_eq.
Qed.

Section receiving.
Context `{Host} {W F L : Type} `{ServerSocketLaws W} `{FileSystemLaws F} `{TransferLogLaws L} `{SessionLog L}.
Context `{Others (Store F L)} `{!OthersLaws F L} `{Peers (Receiver F L)}.
Context (o : WriteOptions) (ro : ReceiverOptions) (crc32c : list Z -> Z -> Z) `{!Crc32c crc32c}.
Context (threadIndex : Z) (fuel : nat).
Abbreviation St := (RState W F L).

(** The bytes of the connection that were not processed: the rest of the
    buffer and what is still to come. *)
Definition pending (t : ReceiverThread) (w : W) : list Z :=
  slice (off_ t) (off_ t + numRead_ t) (buf_ t) ++ incoming w.
(** The buffer, between two commands, has room for the next one. *)
Definition ready (t : ReceiverThread) : Prop :=
  0 <= off_ t /\ 0 <= numRead_ t /\ off_ t + numRead_ t <= bufSize_ t
  /\ kMinBufLength <= bufSize_ t - off_ t /\ kMaxHeader <= bufSize_ t.

(** The thread goes on with an error. *)
Definition failed (next : ReceiverState) (s : St) : Prop :=
  next <> READ_NEXT_CMD /\ next <> PROCESS_FILE_CMD /\ localError (thread s) <> OK.

Lemma wp_fail (Q : ReceiverState -> St -> Prop) e next s :
  (forall next' s', failed next' s' -> Q next' s') ->
  e <> OK -> next <> READ_NEXT_CMD -> next <> PROCESS_FILE_CMD -> wp (fail e next) Q s.
Proof. intros HQ He Hn Hp. by apply HQ. Qed.

(** Reading a command that starts with the byte of a file command. *)
Lemma wp_readNextCmd (Q : ReceiverState -> St -> Prop) t r w rest :
  plain w -> ready t -> pending t w = FILE_CMD :: rest ->
  (forall next s, failed next s -> Q next s) ->
  (forall buf n w', plain w' -> length buf = length (buf_ t) -> kMinBufLength <= n -> off_ t + n <= Zlen buf ->
     slice (off_ t) (off_ t + n) buf ++ incoming w' = FILE_CMD :: rest ->
     Q PROCESS_FILE_CMD (mkRState (t <| oldOffset_ := off_ t |> <| buf_ := buf |> <| numRead_ := n |>
       <| off_ := off_ t + 1 |>) r w')) ->
  wp (readNextCmd o) Q (mkRState t r w).
Proof.
  intros Hp (Ho & Hn & Hon & Hroom & _) Hpend Hfail HQ. unfold readNextCmd, bufSize_ in *.
  apply wp_bind, wp_modT, wp_bind, wp_getT, wp_bind. cbn [id].
  apply wp_readAtLeast; simpl; try done; [unfold kMinBufLength in *; lia..|].
  intros n buf w' Hp' Hl Hres. apply wp_bind, wp_modT.
  destruct (Z.ltb_spec n kMinBufLength) as [Hlt|Hge]; [by apply wp_fail|].
  destruct Hres as [?|(? & _ & _ & Hres)]; [lia|]. unfold pending in Hpend. rewrite Hpend in Hres.
  apply wp_bind, wp_next_byte. cbn [buf_ off_ update_field].
  assert (buf !! Z.to_nat (off_ t) = Some FILE_CMD) as ->.
  { destruct (app_eq_longer _ _ [FILE_CMD] rest Hres) as (x & Ex & _).
    { apply Nat2Z.inj_le. rewrite Zlen_slice_le by (unfold kMinBufLength in *; lia). unfold kMinBufLength in *. simpl. lia. }
    by eapply lookup_slice. }
  simpl. apply wp_ret. refine (HQ buf n w' _ _ _ _ _); try done. lia.
Qed.

(** Behind its first byte the header of a block [b] is read: the block as the
    version carries it. *)
Lemma wp_readHeader (Q : ReceiverState + BlockDetails * Z -> St -> Prop) t r w e b rest :
  let v := threadProtocolVersion_ t in
  let hdr := fileCmdBytes v e b in
  let b' := received_block v b BlockDetails_default in
  plain w -> 0 <= oldOffset_ t -> off_ t = oldOffset_ t + 1 -> oldOffset_ t + numRead_ t <= Zlen (buf_ t) ->
  slice (oldOffset_ t) (oldOffset_ t + numRead_ t) (buf_ t) = hdr ++ rest ->
  wf_block b -> Zlen hdr < 2 ^ 15 ->
  allocationStatus b' <> TO_BE_DELETED -> isSafeRelativePath (fileName b) = true ->
  (forall w', plain w' -> incoming w' = incoming w ->
     Q (inr (b', Zlen hdr)) (mkRState (t <| off_ := oldOffset_ t + Zlen hdr |>
       <| threadStats_ := addEffectiveBytes (Zlen hdr) 0 (addHeaderBytes (Zlen hdr) (threadStats_ t)) |>
       <| checkpointIndex_ := pendingCheckpointIndex_ t |>) r w')) ->
  wp (readHeader o) Q (mkRState t r w).
Proof.
  intros v hdr b' Hp Hold Hoff Hend Eslice Hb Hlen Hdel Hsafe HQ.
  assert (Zlen hdr = 4 + Zlen (headerBytes v b)) as Ehdr by apply Zlen_fileCmdBytes.
  assert (numRead_ t = Zlen hdr + Zlen rest) as En.
  { rewrite <- Zlen_app. eapply slice_length; [done|done|exact Eslice|]. rewrite Zlen_app. lia. }
  assert (slice (oldOffset_ t + 4) (oldOffset_ t + numRead_ t) (buf_ t) = headerBytes v b ++ rest) as Ehb.
  { eapply (slice_suffix (oldOffset_ t) _ _ _
      ([FILE_CMD; wrapU 8 (ErrorCode_value e)] ++ fixedBytes sizeof_int16 (4 + Zlen (headerBytes v b)))); [lia|lia| |].
    - rewrite Eslice. unfold hdr, fileCmdBytes. by rewrite <- !app_assoc.
    - rewrite Zlen_app, Zlen_fixedBytes by done. simpl. unfold sizeof_int16. lia. }
  assert (Endian_little sizeof_int16 (loadUnaligned sizeof_int16 (drop (Z.to_nat (off_ t + 1)) (buf_ t))) = Zlen hdr) as Eload.
  { rewrite (drop_slice (off_ t + 1) (oldOffset_ t + numRead_ t)) by lia.
    erewrite (slice_suffix (oldOffset_ t) _ (off_ t + 1) _ [FILE_CMD; wrapU 8 (ErrorCode_value e)]);
      [|lia|lia| |simpl; lia].
    2:{ rewrite Eslice. unfold hdr, fileCmdBytes. by rewrite <- app_assoc. }
    rewrite <- !app_assoc, load_fixed by lia. by symmetry. }
  clearbody hdr.
  unfold readHeader. apply wp_bind, wp_next_byte, wp_bind, wp_getT. cbn [id off_ buf_ update_field]. rewrite Eload.
  rewrite (proj2 (Z.leb_gt _ _)) by lia. apply wp_bind, wp_sendHeartBeat; [done|]. intros w1 Hp1 Ei1.
  cbn [numRead_ update_field]. rewrite (proj2 (Z.ltb_ge (numRead_ t) _)) by lia.
  apply wp_bind, wp_ret, wp_bind, wp_getT. cbn [numRead_ update_field].
  rewrite (proj2 (Z.ltb_ge (numRead_ t) _)) by lia. apply wp_bind, wp_modT.
  apply wp_bind. unfold wp at 1, decode. cbn [thread].
  set (t2 := t <| off_ := off_ t + 1 |> <| off_ := _ |>).
  change (buf_ t2) with (buf_ t). change (threadProtocolVersion_ (t <| off_ := off_ t + 1 |>)) with v.
  assert (off_ t2 = oldOffset_ t + 4) as -> by (simpl; unfold sizeof_int16; lia).
  unfold decodeHeader. rewrite (run_decoder_at _ _ _ _ _ (headerBytes v b) rest _ (header_body_reads v b Hb));
    [|simpl; lia|simpl; lia|simpl; by rewrite (Z.add_comm (numRead_ t))].
  apply wp_bind. refine (wp_getT _ _ _ _ _ _). cbn [off_ oldOffset_ update_field].
  replace (oldOffset_ t + 4 + Zlen (headerBytes v b)) with (oldOffset_ t + Zlen hdr) by lia.
  replace (oldOffset_ t + Zlen hdr - oldOffset_ t2) with (Zlen hdr) by (simpl; lia).
  rewrite Z.eqb_refl. cbn [negb]. apply wp_bind. refine (wp_onStats _ _ _ _ _ _).
  fold b'. rewrite bool_decide_eq_false_2 by done. cbn [andb]. change (fileName b') with (fileName b). rewrite Hsafe. cbn [negb].
  apply wp_bind. refine (wp_modT _ _ _ _ _ _). apply wp_ret.
  by refine (HQ w1 _ _).
Qed.

(** ** The data *)

(** The first [k] bytes of the data are in the file [path], which had the bytes
    [c]; the rest is at the front of the bytes [inc] to come. *)
Record progress (b : BlockDetails) (data tail path c : list Z) (footer : FooterType) (k : Z)
    (fw : FileWriter) (ck : Z) (st : Store F L) (inc : list Z) : Prop := mkProgress {
  pg_range : 0 <= k <= Zlen data;
  pg_written : fw_totalWritten fw = k;
  pg_file : at_file st (fw_fd fw) path (blockOffset b + k) (put (blockOffset b) (take (Z.to_nat k) data) c);
  pg_checksum : ck = addChecksum crc32c footer (take (Z.to_nat k) data) 0;
  pg_incoming : inc = drop (Z.to_nat k) data ++ tail
}.
(** The block [b] announces the data; the writes fit the bound on retries. *)
Definition carries (b : BlockDetails) (data : list Z) : Prop :=
  dataSize b = Zlen data /\ 0 <= blockOffset b /\ allocationStatus b <> TO_BE_DELETED
  /\ nonneg64 (dataSize b) /\ nonneg64 (blockOffset b).
Definition enough_fuel (bufSize : Z) (st : Store F L) : Prop :=
  (interrupts (disk st) + Z.to_nat bufSize <= fuel)%nat.

Lemma enough_fuel_mono n st st' : enough_fuel n st -> disk_only st st' -> enough_fuel n st'.
Proof. unfold enough_fuel. intros Hf (_ & _ & Hi). lia. Qed.

(** Writing the next bytes of the data. *)
Lemma wp_write_piece b data tail path c footer k fw ck st inc inc' bs (Q : ErrorCode * FileWriter -> Store F L -> Prop) :
  wo_skip_writes o = false -> carries b data -> progress b data tail path c footer k fw ck st inc ->
  inc = bs ++ inc' -> k + Zlen bs <= Zlen data ->
  (interrupts (disk st) + length bs <= fuel)%nat ->
  (forall fw' st', disk_only st st' -> Q (FILE_WRITE_ERROR, fw') st') ->
  (forall fw' st', disk_only st st' ->
     progress b data tail path c footer (k + Zlen bs) fw' (addChecksum crc32c footer bs ck) st' inc' -> Q (OK, fw') st') ->
  wp (writer_write o b fuel bs fw) Q st.
Proof.
  intros Hskip (Hsize & Hoff & Hdel & _) [Hk Hw Hat Hck Hin] Ei Hend Hfuel HQ1 HQ2.
  eapply wp_mono; [|by apply (writer_write_spec o b fuel fw path (blockOffset b + k) (put (blockOffset b) (take (Z.to_nat k) data) c) bs st); try done; lia].
  intros [err fw'] st' (Hst & Hfd & Hor). cbn [fst snd] in *. destruct Hor as [->|[-> [Ht Hat']]]; [by apply HQ1|].
  apply HQ2; [done|]. rewrite Hin in Ei.
  assert (take (Z.to_nat k) data ++ bs = take (Z.to_nat (k + Zlen bs)) data
          /\ inc' = drop (Z.to_nat (k + Zlen bs)) data ++ tail) as [Et Ed].
  { assert (drop (Z.to_nat k) data = bs ++ drop (Z.to_nat (k + Zlen bs)) data) as E.
    { destruct (app_eq_longer _ _ bs inc' Ei) as (x & Ex & _); [rewrite length_drop; lia|].
      rewrite Ex. f_equal. replace (Z.to_nat (k + Zlen bs)) with (Z.to_nat k + length bs)%nat by lia.
      by rewrite <- drop_drop, Ex, drop_app_length. }
    split.
    - rewrite <- (take_drop (Z.to_nat k) data) at 2. rewrite E.
      rewrite take_app_ge by (rewrite length_take; lia). f_equal. rewrite length_take.
      rewrite take_app_length'; [done|lia].
    - rewrite E, <- app_assoc in Ei. by apply app_inv_head in Ei. }
  assert (Zlen (take (Z.to_nat k) data) = k) as Elen by (rewrite length_take; lia).
  split; [lia|lia| |..].
  - rewrite Hfd, Z.add_assoc. rewrite <- Et, <- put_app, Elen by done. done.
  - rewrite Hck, addChecksum_app, Et by done. done.
  - done.
Qed.

Lemma wp_receive_loop b data tail path c k fw ck rounds t r w lead
    (Q : option ReceiverState * FileWriter * Z -> St -> Prop) :
  let footer := footerType_ t in
  wo_skip_writes o = false -> carries b data -> 0 < Zlen (buf_ t) -> enough_fuel (Zlen (buf_ t)) (store_ r) ->
  Zlen data - k <= Z.of_nat rounds ->
  plain w -> progress b data tail path c footer k fw ck (store_ r) (lead ++ incoming w) -> (k < Zlen data -> lead = []) ->
  (forall next fw' ck' s', failed next s' -> Q (Some next, fw', ck') s') ->
  (forall k' fw' ck' buf n st' w', length buf = length (buf_ t) -> disk_only (store_ r) st' -> k <= k' ->
     (k = Zlen data -> buf = buf_ t) -> plain w' ->
     progress b data tail path c footer k' fw' ck' st' (lead ++ incoming w') ->
     Q (None, fw', ck') (mkRState (t <| buf_ := buf |> <| threadStats_ := addDataBytes n (threadStats_ t) |>)
       (r <| store_ := st' |>) w')) ->
  wp (receive_loop o crc32c fuel rounds b fw ck) Q (mkRState t r w).
Proof.
  intros footer Hskip Hcar Hbuf. revert k fw ck t r w Hbuf footer.
  induction rounds as [|rounds IH]; intros k fw ck t r w Hbuf footer Hfuel Hrounds Hp Hpg Hlead HQ1 HQ2; cbn [receive_loop].
  all: pose proof Hpg as [Hk Hw Hat Hck Hin]; pose proof Hcar as (Hsize & _).
  all: unfold getTotalWritten; rewrite Hw, Hsize.
  all: destruct (Z.ltb_spec k (Zlen data)) as [Hlt|Hge]; cbn [negb].
  1: lia.
  1,3: apply wp_ret; replace t with (t <| buf_ := buf_ t |> <| threadStats_ := addDataBytes 0 (threadStats_ t) |>)
         by (rewrite addDataBytes_0; by destruct t); replace r with (r <| store_ := store_ r |>) by (by destruct r);
       by apply (HQ2 k).
  specialize (Hlead Hlt). subst lead. cbn [app] in *.
  apply wp_bind, wp_onWorld. intros ab w1 Ea. pose proof (plain_abort _ _ _ Hp Ea) as Hp1.
  apply abortCode_spec in Ea as [_ Ea]. destruct (negb (bool_decide (ab = OK))).
  { apply wp_bind. apply wp_ret. by apply HQ1. }
  apply wp_bind, wp_sendHeartBeat; [done|]. intros w2 Hp2 Ei2. apply wp_bind, wp_getT, wp_bind. cbn [id].
  unfold readAtMost, bufSize_.
  set (target := if Zlen data - k <? Zlen (buf_ t) then Zlen data - k else Zlen (buf_ t)).
  assert (0 <= target <= Zlen (buf_ t) /\ target <= Zlen data - k) as [Htgt Htgt2] by (unfold target; case_match; bool_to_prop; lia).
  apply wp_read_at; [done|lia|lia|lia|]. intros nres bs w3 Hp3 Hnres Hneg Hpos Ein.
  set (buf1 := list_inserts (Z.to_nat 0) bs (buf_ t)).
  assert (length buf1 = length (buf_ t)) as Hl1 by (unfold buf1; by rewrite length_inserts).
  assert (incoming w = bs ++ incoming w3) as Ein' by congruence.
  destruct (Z.leb_spec nres 0) as [Hn0|Hn0].
  { apply wp_ret. specialize (Hneg Hn0). subst bs.
    assert (mkRState (t <| buf_ := buf1 |>) r w3 = mkRState (t <| buf_ := buf_ t |> <| threadStats_ := addDataBytes 0 (threadStats_ t) |>)
       (r <| store_ := store_ r |>) w3) as -> by (rewrite addDataBytes_0; by destruct t, r).
    apply (HQ2 k); try done. split; try done. simpl in Ein'. by rewrite <- Ein'. }
  specialize (Hpos Hn0). apply wp_bind. refine (wp_onStats _ _ _ _ _ _). apply wp_bind. refine (wp_getT _ _ _ _ _ _).
  cbn [buf_ update_field threadStats_].
  assert (take (Z.to_nat nres) buf1 = bs) as ->.
  { unfold buf1. rewrite list_inserts_split by (simpl; lia). simpl. apply take_app_length'. lia. }
  apply wp_bind, wp_sendHeartBeat; [done|]. intros w4 Hp4 Ei4. apply wp_bind, wp_onStore.
  eapply (wp_write_piece b data tail path c footer k fw ck (store_ r) (incoming w) (incoming w4) bs); try done; [congruence|lia|unfold enough_fuel in *; lia|..].
  { intros fw' st' Hst. cbn [fst negb]. rewrite bool_decide_eq_false_2 by done. apply wp_bind, wp_ret. by apply HQ1. }
  intros fw' st' Hst Hpg'. cbn [fst snd]. rewrite bool_decide_eq_true_2 by done. cbn [negb].
  set (t' := t <| buf_ := buf1 |> <| threadStats_ := addDataBytes nres (threadStats_ t) |>).
  apply (IH (k + Zlen bs) fw' _ t' (r <| store_ := st' |>) w4); try done.
  - simpl. lia.
  - simpl. rewrite Hl1. by eapply enough_fuel_mono.
  - lia.
  - intros k' fw'' ck'' buf n st'' w'' Hlb Hst' Hk' Hsame Hp'' Hpg''.
    refine (eq_ind _ (Q _) (HQ2 k' fw'' ck'' buf (nres + n) st'' w'' _ _ _ _ Hp'' Hpg'') _ _).
    + simpl in Hlb. congruence.
    + by etrans.
    + lia.
    + lia.
    + unfold t'. cbn [threadStats_ update_field]. rewrite <- addDataBytes_add. done.
Qed.

(** If another thread allocates the file, the wait for it ends. *)
Definition wait_ends (b : BlockDetails) (st : Store F L) : Prop :=
  forall i c, claimFile threadIndex b (creator st) = (InProgress i, c) ->
    is_Some (waitForAllocationFinish fuel i (seqId b) (st <| creator := c |>)).

(** The file of the block. *)
Definition path_of (b : BlockDetails) (st : Store F L) : list Z := getFullPath (creator st) (fileName b).

(** The data of a block is received: part of it, the bytes [here], is in the
    buffer behind the header. *)
Lemma wp_receiveData b data tail here t r w
    (Q : option ReceiverState * FileWriter * Z * Z -> St -> Prop) :
  wo_skip_writes o = false -> carries b data -> block_ok b -> wait_ends b (store_ r) ->
  enough_fuel (Zlen (buf_ t)) (store_ r) -> plain w ->
  0 <= off_ t -> off_ t + Zlen here = oldOffset_ t + numRead_ t -> off_ t + Zlen here <= Zlen (buf_ t) -> 0 < Zlen (buf_ t) ->
  slice (off_ t) (off_ t + Zlen here) (buf_ t) = here -> here ++ incoming w = data ++ tail ->
  (forall next fw ck rem s', failed next s' -> Q (Some next, fw, ck, rem) s') ->
  (forall fw c buf off rem n st' w', plain w' -> fw_fd fw < 0 -> 0 <= rem -> 0 <= off -> off + rem <= Zlen buf ->
     length buf = length (buf_ t) -> (0 < rem -> off = off_ t + Zlen data) ->
     slice off (off + rem) buf ++ incoming w' = tail ->
     rootDir_ (creator st') = rootDir_ (creator (store_ r)) -> (interrupts (disk st') <= interrupts (disk (store_ r)))%nat ->
     allocated b st' -> (allocated b (store_ r) -> forall c0, file_at (disk (store_ r)) (path_of b (store_ r)) = Some c0 -> c = c0) ->
     file_at (disk st') (path_of b (store_ r)) = Some (put (blockOffset b) data c) ->
     Q (None, fw, addChecksum crc32c (footerType_ t) data 0, rem)
       (mkRState (t <| buf_ := buf |> <| off_ := off |> <| threadStats_ := addDataBytes n (threadStats_ t) |>)
          (r <| store_ := st' |>) w')) ->
  wp (receiveData o crc32c threadIndex fuel b) Q (mkRState t r w).
Proof.
  intros Hskip Hcar Hb Hwait Hfuel Hp Ho Hend Hroom Hbuf Ehere Estream HQ1 HQ2.
  pose proof Hcar as (Hsize & Hoff & Hdel & _). set (path := path_of b (store_ r)) in *.
  unfold receiveData. apply wp_bind, wp_sendHeartBeat; [done|]. intros w1 Hp1 Ei1.
  apply wp_bind. rewrite (bool_decide_eq_false_2 (allocationStatus b = _)) by done. rewrite orb_true_r.
  apply wp_onStore. eapply wp_mono; [|by apply writer_open_spec].
  intros [err fw] st1 (Hroot1 & Hi1 & Ht1 & Hor). cbn [fst snd] in *.
  destruct Hor as [->|[-> (Hfd & Halloc & c & Hat & Hkeep)]].
  { rewrite bool_decide_eq_false_2 by done. apply wp_bind, wp_ret. by apply HQ1. }
  rewrite bool_decide_eq_true_2 by done. cbn [negb]. apply wp_bind, wp_getT. cbn [id].
  replace (numRead_ t + oldOffset_ t - off_ t) with (Zlen here) by lia.
  apply wp_bind, wp_check. split; [bool_to_prop; lia|]. rewrite Hsize.
  set (toWrite := if Zlen data <=? Zlen here then Zlen data else Zlen here).
  assert (toWrite = Z.min (Zlen data) (Zlen here)) as Etw by (unfold toWrite; case_match; bool_to_prop; lia).
  clearbody toWrite. apply wp_bind. refine (wp_onStats _ _ _ _ _ _). apply wp_bind, wp_sendHeartBeat; [done|]. intros w2 Hp2 Ei2.
  set (bs := slice (off_ t) (off_ t + toWrite) (buf_ t)).
  assert (bs = take (Z.to_nat toWrite) here /\ Zlen bs = toWrite) as [Ebs Elen].
  { split; [|unfold bs; rewrite Zlen_slice_le; lia].
    rewrite <- Ehere. unfold bs, slice. rewrite take_take. f_equal. lia. }
  set (lead := drop (Z.to_nat toWrite) here).
  assert (progress b data tail path c (footerType_ t) 0 fw 0 st1 (here ++ incoming w)) as Hpg.
  { split; simpl; [lia|done| |by rewrite addChecksum_nil|done]. by rewrite Z.add_0_r. }
  assert (here ++ incoming w = bs ++ (lead ++ incoming w2)) as Einc.
  { rewrite Ebs, app_assoc. unfold lead. rewrite take_drop. congruence. }
  assert (enough_fuel (Zlen (buf_ t)) st1) as Hfuel1 by (unfold enough_fuel in *; lia).
  (* the bytes in the buffer are written, if there are any *)
  apply wp_bind. set (t1 := t <| threadStats_ := _ |>).
  set (rest := fun r0 : ErrorCode * FileWriter => _).
  enough (forall fw' st2, disk_only st1 st2 ->
    progress b data tail path c (footerType_ t) toWrite fw' (addChecksum crc32c (footerType_ t) bs 0) st2 (lead ++ incoming w2) ->
    rest (OK, fw') (mkRState t1 (r <| store_ := st2 |>) w2)) as Hrest.
  { destruct (Z.ltb_spec 0 toWrite) as [Hpos|Hzero].
    - apply wp_onStore. rewrite <- Elen in Hrest.
      eapply (wp_write_piece b data tail path c (footerType_ t) 0 fw 0 st1); try done; [lia|unfold enough_fuel in *; lia|..].
      intros fw' st' _. unfold rest. cbn [fst]. rewrite bool_decide_eq_false_2 by done. cbn [negb].
      apply wp_bind, wp_ret. by apply HQ1.
    - apply wp_ret. apply (Hrest fw st1); [done|].
      assert (toWrite = 0) as E0 by lia. assert (bs = []) as E1 by (apply nil_length_inv; lia).
      rewrite E0, E1 in *. simpl in Einc. rewrite addChecksum_nil by done. by rewrite <- Einc. }
  clear Hpg. intros fw' st2 Hst2 Hpg. unfold rest. cbn [fst snd]. rewrite bool_decide_eq_true_2 by done. cbn [negb].
  apply wp_bind, wp_modT, wp_bind. set (t2 := t1 <| off_ := _ |>).
  refine (wp_receive_loop b data tail path c toWrite fw' _ _ t2 (r <| store_ := st2 |>) w2 lead _ Hskip Hcar Hbuf _ _ Hp2 Hpg _ _ _).
  { eapply enough_fuel_mono; [exact Hfuel1|done]. }
  { rewrite (pg_written _ _ _ _ _ _ _ _ _ _ _ Hpg : getTotalWritten fw' = _). lia. }
  { intros Hlt. unfold lead. apply drop_ge. lia. }
  { intros next fw'' ck'' s' Hf. apply wp_ret. by apply HQ1. }
  intros k' fw'' ck'' buf n st3 w3 Hlb Hst3 Hk' Hsame Hp3 [Hk3 Hw3 Hat3 Hck3 Hin3].
  apply wp_bind, wp_onStore. eapply wp_mono; [|apply writer_sync_spec].
  intros e4 st4 (Hst4 & Hor4 & Hkeep4). destruct Hor4 as [->|[-> _]].
  { rewrite bool_decide_eq_false_2 by done. apply wp_bind, wp_ret. by apply HQ1. }
  rewrite bool_decide_eq_true_2 by done. cbn [negb].
  apply wp_bind, wp_onStore. eapply wp_mono; [|apply writer_close_spec].
  intros [e5 fw5] st5 (Hst5 & Hf5 & Hfd5 & Ht5 & Hor5). cbn [fst snd] in *. destruct Hor5 as [->|[-> _]].
  { rewrite bool_decide_eq_false_2 by done. apply wp_bind, wp_ret. by apply HQ1. }
  rewrite bool_decide_eq_true_2 by done. cbn [negb]. unfold getTotalWritten. rewrite Ht5, Hw3.
  destruct (Z.eqb_spec k' (Zlen data)) as [->|Hne]; cbn [negb].
  2:{ apply wp_bind, wp_ret. by apply HQ1. }
  apply wp_ret. rewrite Nat2Z.id in *. rewrite firstn_all in *. rewrite drop_all in Hin3. simpl in Hin3. subst ck''.
  assert (rootDir_ (creator st5) = rootDir_ (creator (store_ r))
    /\ (interrupts (disk st5) <= interrupts (disk (store_ r)))%nat /\ allocated b st5) as (Hroot5 & Hi5 & Ha5).
  { destruct Hst2 as (E2 & _ & ?), Hst3 as (E3 & _ & ?), Hst4 as (E4 & _ & ?), Hst5 as (E5 & _ & ?).
    simpl in *. unfold allocated in *. split_and!; [congruence|lia|congruence]. }
  refine (eq_ind _ (Q _)
    (HQ2 fw5 c buf (off_ t + toWrite) (Zlen here - toWrite) (toWrite + n) st5 w3 Hp3 Hfd5 _ _ _ _ _ _ Hroot5 Hi5 Ha5 Hkeep _) _ _).
  - lia.
  - lia.
  - simpl in Hlb. lia.
  - exact Hlb.
  - lia.
  - rewrite <- Hin3. f_equal. destruct (decide (Zlen data <= Zlen here)) as [Hle|Hgt].
    + rewrite (Hsame ltac:(lia)). simpl. unfold lead. rewrite <- Ehere at 2. unfold slice.
      rewrite skipn_firstn_comm, drop_drop. f_equal; [lia|]. f_equal. lia.
    + unfold lead. rewrite drop_ge by lia. unfold slice. replace (Z.to_nat _) with 0%nat by lia. done.
  - rewrite Hf5. by apply (Hkeep4 _ _ _ _ Hat3).
  - rewrite <- addDataBytes_add. done.
Qed.

(** ** The footer and the whole block *)

Lemma wp_markBlockVerified b (Q : unit -> St -> Prop) t r w :
  allocationStatus b <> TO_BE_DELETED -> nonneg64 (seqId b) -> nonneg64 (blockOffset b) -> nonneg64 (dataSize b) ->
  (forall l, Q tt (mkRState (t <| threadStats_ := Reporting.incrNumBlocks (addEffectiveBytes 0 (dataSize b) (threadStats_ t)) |>
       <| checkpoint_ := Protocol.incrNumBlocks (checkpoint_ t) |>)
     (r <| store_ := store_ r <| tlog := l |> |>) w)) ->
  wp (markBlockVerified o b) Q (mkRState t r w).
Proof.
  intros Hdel Hq Hoff Hn HQ. unfold markBlockVerified. apply wp_bind. refine (wp_onStats _ _ _ _ _ _).
  apply wp_bind. refine (wp_modT _ _ _ _ _ _). rewrite bool_decide_eq_false_2 by done.
  destruct (negb (isLogBasedResumption o)).
  - apply wp_ret. replace r with (r <| store_ := store_ r <| tlog := tlog (store_ r) |> |>) by (by destruct r as [???????[]]).
    refine (HQ _).
  - unfold onLog. refine (wp_onStore _ _ _ _ _ _). unfold wp.
    destruct (log_blockWrite_ok (seqId b) (blockOffset b) (dataSize b) (tlog (store_ r)) Hq Hoff Hn) as [l ->].
    refine (HQ l).
Qed.

(** The thread after a block: one more block and its bytes are counted, the
    settings are those it had. *)
Record counted (data : list Z) (t t' : ReceiverThread) : Prop := mkCounted {
  ct_error : localError t' = localError t;
  ct_blocks : Reporting.numBlocks_ (threadStats_ t') = Reporting.numBlocks_ (threadStats_ t) + 1;
  ct_bytes : effectiveDataBytes_ (threadStats_ t') = effectiveDataBytes_ (threadStats_ t) + Zlen data;
  ct_checkpoint : Protocol.numBlocks (checkpoint_ t') = Protocol.numBlocks (checkpoint_ t) + 1;
  ct_footer : footerType_ t' = footerType_ t;
  ct_version : threadProtocolVersion_ t' = threadProtocolVersion_ t;
  ct_buffer : length (buf_ t') = length (buf_ t)
}.

(** The bytes of the footer of a block with the data. *)
Definition footer_of (footer : FooterType) (data : list Z) : list Z :=
  match footer with
  | NO_FOOTER => []
  | CHECKSUM_FOOTER => FOOTER_CMD :: varU64 (encodeZigZag (addChecksum crc32c CHECKSUM_FOOTER data 0))
  end.

Lemma wp_readFooter b data rest t r w (Q : ReceiverState -> St -> Prop) :
  carries b data -> nonneg64 (seqId b) -> plain w -> ready t -> kMinBufLength + kMaxFooter <= bufSize_ t - off_ t ->
  pending t w = footer_of (footerType_ t) data ++ rest ->
  (forall next s', failed next s' -> Q next s') ->
  (forall t' l w', plain w' -> ready t' -> counted data t t' -> pending t' w' = rest ->
     Q READ_NEXT_CMD (mkRState t' (r <| store_ := store_ r <| tlog := l |> |>) w')) ->
  wp (readFooter o b (addChecksum crc32c (footerType_ t) data 0)) Q (mkRState t r w).
Proof.
  intros (Hsize & _ & Hdel & Hn & Hoff) Hq Hp Hready Hroom Epend HQ1 HQ2. unfold readFooter.
  pose proof Hready as (Ho & Hnr & Hend & Hmin & Hbuf). apply wp_bind, wp_getT.
  destruct (footerType_ t) eqn:Ef; cbn [footer_of] in Epend.
  { apply wp_bind, wp_gets. cbn [world]. rewrite plain_tagLen by done. simpl. apply wp_bind, wp_markBlockVerified; try done.
    intros l. apply wp_ret. refine (HQ2 _ l w Hp _ _ _); [done| |done]. split; simpl; try done; lia. }
  apply wp_bind, wp_sendHeartBeat; [done|]. intros w1 Hp1 Ei1.
  apply wp_bind, wp_modT, wp_bind, wp_getT, wp_bind. cbn [id].
  unfold bufSize_ in *. apply wp_readAtLeast; simpl; try done; [unfold kMinBufLength in *; lia..|].
  intros n buf w2 Hp2 Hl Hres. apply wp_bind, wp_modT.
  destruct (Z.ltb_spec n kMinBufLength) as [Hlt|Hge]; [by apply wp_fail|].
  destruct Hres as [?|(Hn2 & Hn3 & _ & Hres)]; [lia|]. unfold pending in Epend. rewrite Ei1, Epend in Hres.
  set (ck := addChecksum crc32c CHECKSUM_FOOTER data 0) in *.
  pose proof (Zlen_varU64 (encodeZigZag ck)) as Hv.
  assert (Zlen (slice (off_ t) (off_ t + n) buf) = n) as Hsl by (rewrite Zlen_slice_le; lia).
  destruct (app_eq_longer _ _ (FOOTER_CMD :: varU64 (encodeZigZag ck)) rest Hres) as (x & Ex & Ex').
  { simpl. unfold kMinBufLength in *. lia. }
  apply wp_bind, wp_next_byte. cbn [buf_ off_ update_field].
  rewrite (lookup_slice _ _ _ _ _ Ho Ex). simpl.
  apply wp_bind. unfold wp at 1, decode. cbn [thread buf_ off_ update_field].
  unfold decodeFooter. assert (inS 32 ck) as Hck by (by apply addChecksum_range).
  assert (Zlen x = n - 1 - Zlen (varU64 (encodeZigZag ck))) as Hx.
  { rewrite Ex in Hsl. cbn [app] in Hsl. rewrite Zlen_cons, Zlen_app in Hsl. lia. }
  rewrite (run_decoder_at _ _ _ _ _ (varU64 (encodeZigZag ck))
      (take (Z.to_nat (10 - Zlen (varU64 (encodeZigZag ck)))) x) _
      (dec_field_reads _ (fun v _ => v) _ _ (decodeInt32_decodes ck Hck)));
    [|unfold kMaxFooter; lia|unfold kMaxFooter, kMinBufLength in *; lia|].
  2:{ apply (slice_prefix _ (off_ t + n) _ _ _ (drop (Z.to_nat (10 - Zlen (varU64 (encodeZigZag ck)))) x));
        [unfold kMaxFooter; lia|unfold kMaxFooter, kMinBufLength in *; lia| |].
      - erewrite (slice_suffix (off_ t) _ (off_ t + 1) _ [FOOTER_CMD]); [|lia|lia|exact Ex|cbn; lia].
        by rewrite <- app_assoc, take_drop.
      - rewrite Zlen_app, length_take. unfold kMaxFooter, kMinBufLength in *. lia. }
  rewrite Z.eqb_refl. cbn [negb]. apply wp_bind, wp_markBlockVerified; try done. intros l.
  apply wp_bind. refine (wp_modT _ _ _ _ _ _). apply wp_ret. refine (HQ2 _ l w2 Hp2 _ _ _).
  - unfold ready, bufSize_. cbn [off_ numRead_ oldOffset_ buf_ update_field].
    split_and!; unfold kMaxFooter, kMinBufLength, kMaxHeader, PATH_MAX in *; simpl; lia.
  - split; simpl; (done || lia).
  - unfold pending. simpl. rewrite <- Ex'. f_equal.
    eapply (slice_suffix (off_ t) _ _ _ (FOOTER_CMD :: varU64 (encodeZigZag ck))); [lia|simpl; lia| |simpl; lia].
    by replace (off_ t + 1 + _ + _) with (off_ t + n) by lia.
Qed.

Lemma wp_keepLeftover rem (Q : unit -> St -> Prop) t r w :
  0 <= rem -> 0 <= off_ t -> off_ t + rem <= bufSize_ t -> kMaxHeader <= bufSize_ t ->
  (forall buf off, length buf = length (buf_ t) -> 0 <= off -> off + rem <= Zlen buf ->
     kMinBufLength + kMaxFooter <= Zlen buf - off ->
     slice off (off + rem) buf = slice (off_ t) (off_ t + rem) (buf_ t) ->
     Q tt (mkRState (t <| buf_ := buf |> <| off_ := off |> <| numRead_ := rem |>) r w)) ->
  wp (keepLeftover rem) Q (mkRState t r w).
Proof.
  intros Hrem Hoff Hend Hbuf HQ. unfold keepLeftover, bufSize_ in *. apply wp_modT.
  unfold kMaxHeader, PATH_MAX, kMinBufLength, kMaxFooter in *.
  destruct (Z.ltb_spec 0 rem) as [Hpos|Hzero].
  2:{ assert (rem = 0) as -> by lia. replace t with (t <| buf_ := buf_ t |>) by (by destruct t).
      refine (HQ _ 0 _ _ _ _ _); simpl; try done; [lia..|]. unfold slice. by rewrite !Z.add_0_l, !Z.add_0_r, !Z.sub_diag. }
  cbn [bufSize_ buf_ off_ update_field].
  destruct ((rem <? _) && (_ <? off_ t)) eqn:E; bool_to_prop.
  - assert (Zlen (slice (off_ t) (off_ t + rem) (buf_ t)) = rem) as El by (rewrite Zlen_slice_le; lia).
    refine (HQ (list_inserts 0 (slice (off_ t) (off_ t + rem) (buf_ t)) (buf_ t)) 0 _ _ _ _ _); rewrite ?length_inserts; try lia.
    rewrite list_inserts_split by lia. simpl. unfold slice at 1. simpl. apply take_app_length'. lia.
  - replace t with (t <| buf_ := buf_ t |> <| off_ := off_ t |>) by (by destruct t).
    refine (HQ (buf_ t) (off_ t) _ _ _ _ _); simpl; try done. Z.to_euclidean_division_equations. lia.
Qed.

(** What a block leaves behind: the thread waits for the next command, and the
    data is in the file. *)
Definition received (b : BlockDetails) (data rest : list Z) (s : St) (s' : St) : Prop :=
  plain (world s') /\ ready (thread s') /\ counted data (thread s) (thread s')
  /\ pending (thread s') (world s') = rest
  /\ rootDir_ (creator (store_ (receiver s'))) = rootDir_ (creator (store_ (receiver s)))
  /\ (interrupts (disk (store_ (receiver s'))) <= interrupts (disk (store_ (receiver s))))%nat
  /\ allocated b (store_ (receiver s'))
  /\ exists c, file_at (disk (store_ (receiver s'))) (path_of b (store_ (receiver s))) = Some (put (blockOffset b) data c)
     /\ (allocated b (store_ (receiver s)) -> forall c0,
           file_at (disk (store_ (receiver s))) (path_of b (store_ (receiver s))) = Some c0 -> c = c0).

(** The guard and the destructor on an error path keep the error. *)
Lemma wp_giveUp b headerBytes fw next (Q : ReceiverState -> St -> Prop) s :
  failed next s -> (forall next s', failed next s' -> Q next s') ->
  wp (_ ← writtenGuard b headerBytes fw; _ ← onStore (writer_destroy fw); mret next) Q s.
Proof.
  intros (Hn & Hn' & He) HQ. destruct s as [t r w]. simpl in He.
  apply wp_bind. unfold writtenGuard. apply wp_bind, wp_gets, wp_bind, wp_getT.
  assert (forall t', localError t' <> OK -> wp (_ ← onStore (writer_destroy fw); mret next) Q (mkRState t' r w)) as Hd.
  { intros t' He'. apply wp_bind, wp_onStore. eapply wp_mono; [|apply writer_destroy_spec].
    intros _ st' _. by apply wp_ret, HQ. }
  destruct (_ && _); [|by apply wp_ret, Hd].
  apply wp_bind, wp_modT. refine (wp_onStats _ _ _ _ _ _). by apply Hd.
Qed.

Lemma wp_receiveBlock b data rest here headerBytes t r w (Q : ReceiverState -> St -> Prop) :
  wo_skip_writes o = false -> carries b data -> nonneg64 (seqId b) -> block_ok b -> wait_ends b (store_ r) ->
  enough_fuel (bufSize_ t) (store_ r) -> plain w -> localError t = OK ->
  0 <= off_ t -> off_ t + Zlen here = oldOffset_ t + numRead_ t -> off_ t + Zlen here <= bufSize_ t -> kMaxHeader <= bufSize_ t ->
  slice (off_ t) (off_ t + Zlen here) (buf_ t) = here ->
  here ++ incoming w = data ++ footer_of (footerType_ t) data ++ rest ->
  (forall next s', failed next s' -> Q next s') ->
  (forall s', received b data rest (mkRState t r w) s' -> Q READ_NEXT_CMD s') ->
  wp (receiveBlock o crc32c threadIndex fuel b headerBytes) Q (mkRState t r w).
Proof.
  intros Hskip Hcar Hq Hb Hwait Hfuel Hp Hok Ho Hend Hroom Hbuf Ehere Estream HQ1 HQ2.
  unfold receiveBlock, bufSize_ in *. apply wp_bind.
  eapply wp_receiveData; try done; [unfold kMaxHeader, PATH_MAX in *; lia|..].
  { intros next fw ck rem s' Hf. by apply wp_giveUp. }
  intros fw c buf off rem n st' w' Hp' Hfd Hrem Hoff Hend' Hlen _ Etail Hroot Hint Halloc Hkeep Hfile.
  apply wp_bind, wp_check. split; [bool_to_prop; lia|]. apply wp_bind.
  apply wp_keepLeftover; unfold bufSize_; cbn [off_ buf_ update_field]; [lia..|].
  intros buf2 off2 Hlen2 Hoff2 Hend2 Hroom2 Eslice. cbn [off_ buf_ update_field threadStats_] in *.
  set (t2 := t <| buf_ := _ |> <| off_ := _ |> <| threadStats_ := _ |> <| buf_ := _ |> <| off_ := _ |> <| numRead_ := _ |>).
  apply wp_bind. change (footerType_ t) with (footerType_ t2) in *.
  apply (wp_readFooter b data rest t2); try done.
  { unfold ready, bufSize_, kMaxFooter, kMinBufLength in *. simpl. lia. }
  { unfold pending. simpl. by rewrite Eslice. }
  { intros next s' Hf. destruct s' as [t3 r3 w3]. apply wp_bind, wp_onStore. eapply wp_mono; [|apply writer_destroy_spec].
    intros _ st3 _. by apply wp_ret, HQ1. }
  intros t3 l w3 Hp3 Hready Hct Epend. apply wp_bind, wp_onStore. eapply wp_mono; [|apply writer_destroy_spec].
  intros _ st3 ((Er3 & _ & Hi3) & Ef3). apply wp_ret, HQ2. simpl in *. split_and!; simpl; try done; [|congruence|lia| |].
  - destruct Hct; split; simpl in *; try done. lia.
  - unfold allocated in *. simpl. congruence.
  - exists c. by rewrite Ef3.
Qed.

(** ** The command of a block *)

(** The bytes of a block on the wire: the command with its header, the data and
    the footer. *)
Definition blockStream (v : Z) (e : ErrorCode) (footer : FooterType) (b : BlockDetails) (data : list Z) : list Z :=
  fileCmdBytes v e b ++ data ++ footer_of footer data.

(** Two rounds of the machine: the command is read, and processed if it is a
    block. *)
Definition receiveCommand : M St ReceiverState :=
  next ← handler o ro crc32c threadIndex fuel READ_NEXT_CMD;
  if bool_decide (next = PROCESS_FILE_CMD) then handler o ro crc32c threadIndex fuel PROCESS_FILE_CMD else mret next.

(** What the receiver needs of the block [b'] it is told about. *)
Record receivable (b' : BlockDetails) (data : list Z) (t : ReceiverThread) (st : Store F L) : Prop := mkReceivable {
  rc_carries : carries b' data;
  rc_seqId : nonneg64 (seqId b');
  rc_block : block_ok b';
  rc_safe : isSafeRelativePath (fileName b') = true;
  rc_wait : wait_ends b' st;
  rc_fuel : enough_fuel (bufSize_ t) st;
  rc_first : wo_enable_download_resumption o && (Reporting.numBlocks_ (threadStats_ t) =? 0) = false
}.

Lemma wp_processFileCmd b data rest hdr here t r w e (Q : ReceiverState -> St -> Prop) :
  let v := threadProtocolVersion_ t in
  let b' := received_block v b BlockDetails_default in
  wo_skip_writes o = false -> wf_block b -> receivable b' data t (store_ r) -> plain w -> localError t = OK ->
  hdr = fileCmdBytes v e b -> Zlen hdr < 2 ^ 15 ->
  0 <= oldOffset_ t -> off_ t = oldOffset_ t + 1 -> oldOffset_ t + numRead_ t <= bufSize_ t -> kMaxHeader <= bufSize_ t ->
  slice (oldOffset_ t) (oldOffset_ t + numRead_ t) (buf_ t) = hdr ++ here ->
  here ++ incoming w = data ++ footer_of (footerType_ t) data ++ rest ->
  (forall next s', failed next s' -> Q next s') ->
  (forall s', received b' data rest (mkRState t r w) s' -> Q READ_NEXT_CMD s') ->
  wp (processFileCmd o crc32c threadIndex fuel) Q (mkRState t r w).
Proof.
  intros v b' Hskip Hwf [Hcar Hseq Hblk Hsafe Hwait Hfuel Hfirst] Hp Hok Ehdr Hlen Hold Hoff Hend Hbuf Eslice Estream HQ1 HQ2.
  assert (numRead_ t = Zlen hdr + Zlen here) as En.
  { rewrite <- Zlen_app. eapply slice_length; [done|done|exact Eslice|].
    rewrite Ehdr, Zlen_app, Zlen_fileCmdBytes. lia. }
  unfold processFileCmd. apply wp_bind. unfold noteFirstBlock. apply wp_bind, wp_getT. rewrite Hfirst. apply wp_ret.
  apply wp_bind, wp_modT, wp_bind. rewrite Ehdr in Eslice, Hlen.
  apply (wp_readHeader _ _ r w e b here); try done; [by destruct Hcar as (_ & _ & ? & _)|].
  intros w1 Hp1 Ei1. apply wp_bind.
  change (fileCmdBytes _ e b) with (fileCmdBytes v e b). rewrite <- Ehdr in *. set (t1 := t <| checkpoint_ := _ |> <| off_ := _ |> <| threadStats_ := _ |> <| checkpointIndex_ := _ |>).
  change (threadProtocolVersion_ _) with v. fold b'.
  apply (wp_receiveBlock b' data rest here _ t1); try done; unfold bufSize_ in *; simpl.
  1-3: lia.
  { erewrite (slice_suffix (oldOffset_ t) _ _ _ hdr here); [done|lia|lia| |lia]. by rewrite <- Eslice; f_equal; lia. }
  { by rewrite Ei1. }
  - intros next [t' r' w'] (? & ? & Hf). apply wp_bind, wp_getT. rewrite bool_decide_eq_false_2 by done. cbn [negb].
    apply wp_bind. refine (wp_onStats _ _ _ _ _ _). by apply wp_ret, HQ1.
  - intros [t' r' w'] (Hp' & Hr' & [] & Hrec). subst t1. simpl in *. apply wp_bind, wp_getT.
    change (localError t' = localError t) in ct_error0. rewrite bool_decide_eq_true_2 by congruence.
    cbn [negb]. apply wp_bind, wp_ret, wp_ret, HQ2.
    split_and!; try done; [|apply Hrec..]. split; simpl; try done; lia.
Qed.

Lemma receiveCommand_spec b data rest e s :
  let t := thread s in
  let v := threadProtocolVersion_ t in
  let b' := received_block v b BlockDetails_default in
  wo_skip_writes o = false -> wf_block b -> receivable b' data t (store_ (receiver s)) ->
  plain (world s) -> ready t -> localError t = OK -> Zlen (fileCmdBytes v e b) <= kMinBufLength ->
  pending t (world s) = blockStream v e (footerType_ t) b data ++ rest ->
  wp receiveCommand
    (fun next s' => failed next s' \/ next = READ_NEXT_CMD /\ received b' data rest s s') s.
Proof.
  destruct s as [t r w]. intros t0 v b' Hskip Hwf Hrec Hp Hready Hok Hlen Epend. subst t0.
  cbn [thread receiver world] in *. unfold blockStream in Epend. rewrite <- !app_assoc in Epend.
  assert (exists hd, fileCmdBytes v e b = FILE_CMD :: hd) as [hd Ehd] by (eexists; reflexivity).
  pose proof Hready as (Ho & Hn & Hend & Hmin & Hbuf). unfold receiveCommand. apply wp_bind. cbn [handler].
  apply (wp_readNextCmd _ _ _ _ (hd ++ data ++ footer_of (footerType_ t) data ++ rest)); try done.
  { by rewrite Epend, Ehd. }
  { intros next s' Hf. rewrite bool_decide_eq_false_2 by apply Hf. apply wp_ret. by left. }
  intros buf n w1 Hp1 Hl Hn1 Hend1 Estream. rewrite bool_decide_eq_true_2 by done.
  destruct (app_eq_longer _ _ (fileCmdBytes v e b) (data ++ footer_of (footerType_ t) data ++ rest)
    (eq_trans Estream (eq_sym (f_equal (fun l => l ++ _) Ehd)))) as (here & Ehere & Einc).
  { apply Nat2Z.inj_le. rewrite Zlen_slice_le by (unfold kMinBufLength in *; lia). lia. }
  set (t1 := t <| oldOffset_ := _ |> <| buf_ := _ |> <| numRead_ := _ |> <| off_ := _ |>).
  apply (wp_processFileCmd b data rest (fileCmdBytes v e b) here t1 r w1 e); try done.
  - destruct Hrec. split; try done. unfold enough_fuel, bufSize_, t1 in *. cbn [buf_ update_field]. by rewrite Hl.
  - unfold kMinBufLength in *. lia.
  - unfold bufSize_, t1 in *. cbn [buf_ update_field]. by rewrite Hl.
  - intros next s' Hf. by left.
  - intros s' (? & ? & [] & Hs'). right. do 3 (split; [done|]). split; [|exact Hs'].
    split; try done. by etrans; [|exact Hl].
Qed.

(** C4: a thread that waits for a command and has a block at the front of its
    connection, however the bytes arrive, does not abort and does not loop
    forever: it either goes on with an error, or it waits for the next command
    with the bytes behind the block still to be processed, the block's data in
    the block's file at the block's offset (every other byte of the file is
    what the opened file had), and the block and its bytes counted once. *)
Theorem receive_block b data rest e s :
  let t := thread s in
  let v := threadProtocolVersion_ t in
  let b' := received_block v b BlockDetails_default in
  wo_skip_writes o = false -> wf_block b -> receivable b' data t (store_ (receiver s)) ->
  plain (world s) -> ready t -> localError t = OK -> Zlen (fileCmdBytes v e b) <= kMinBufLength ->
  pending t (world s) = blockStream v e (footerType_ t) b data ++ rest ->
  wp receiveCommand
    (fun next s' => failed next s' \/ next = READ_NEXT_CMD /\ received b' data rest s s') s.
Proof. apply receiveCommand_spec. Qed.
End receiving.
