(* ===== verification/EndToEnd.v ===== *)
(** From the file of the sender to the file of the receiver: the blocks that one
    thread sends over a connection, and what the thread at the other end makes
    of them. *)
From stdpp Require Import gmap.
From S2P Require Import Prelude ByteSource Serialization ErrorCodes StateMonad Protocol ProtocolProps Reporting.
From S2P Require Import LogEntries LogParser LogHistory LogManager LogManagerProps.
From S2P Require Import ThreadsController FileSystem FileCreator FileCreatorProps FileWriter.
From S2P Require Import Socket SendBlock ReceiverThread ReceiveBlock.

(** ** Bytes of a file *)

Lemma put_lookup_inside q a c (i : nat) :
  0 <= q -> q <= Z.of_nat i < q + Zlen a -> put q a c !! i = a !! Z.to_nat (Z.of_nat i - q).
Proof.
  intros Hq Hi. unfold put. rewrite decide_False by (intros ->; simpl in Hi; lia). unfold overwrite.
  set (hd := take (Z.to_nat q) c ++ replicate (Z.to_nat q - length c) 0).
  assert (length hd = Z.to_nat q) as Hh.
  { unfold hd. rewrite length_app, length_take, length_replicate. lia. }
  rewrite app_assoc. fold hd. rewrite lookup_app_r, lookup_app_l by lia. f_equal. lia.
Qed.
Lemma put_lookup_outside q a c (i : nat) :
  0 <= q -> (i < length c)%nat -> ~ (q <= Z.of_nat i < q + Zlen a) -> put q a c !! i = c !! i.
Proof.
  intros Hq Hl Hi. unfold put. case_decide; [done|]. unfold overwrite.
  destruct (decide (Z.of_nat i < q)).
  - rewrite lookup_app_l by (rewrite length_take; lia). apply lookup_take_lt. lia.
  - rewrite app_assoc. rewrite lookup_app_r by (rewrite length_app, length_take, length_replicate; lia).
    rewrite length_app, length_take, length_replicate.
    rewrite lookup_app_r by lia. rewrite lookup_drop. f_equal. lia.
Qed.

Definition covered (pieces : list (Z * Z)) (i : nat) : Prop :=
  exists q n, (q, n) ∈ pieces /\ q <= Z.of_nat i < q + n.
(** On the pieces given by their offset and length, the bytes [c] are those of
    the file. *)
Definition agree (pieces : list (Z * Z)) (file c : list Z) : Prop :=
  forall i, covered pieces i -> c !! i = file !! i.

(** Writing a piece of the file makes the bytes agree on it. *)
Lemma agree_put pieces file c q n :
  0 <= q -> 0 <= n -> q + n <= Zlen file -> Forall (fun p => 0 <= p.1 /\ p.1 + p.2 <= Zlen file) pieces ->
  agree pieces file c -> agree ((q, n) :: pieces) file (put q (slice q (q + n) file) c).
Proof.
  intros Hq Hn Hfile Hin Hc i (q' & n' & Hp & Hi).
  pose proof (Zlen_slice_le q (q + n) file ltac:(lia) ltac:(lia)) as Hl.
  destruct (decide (q <= Z.of_nat i < q + n)) as [Hi'|Hi'].
  - rewrite put_lookup_inside by lia. unfold slice. rewrite lookup_take_lt by lia. rewrite lookup_drop. f_equal. lia.
  - apply elem_of_cons in Hp as [Hp|Hp]; [simplify_eq; lia|].
    assert (c !! i = file !! i) as E by (apply Hc; by exists q', n').
    rewrite <- E. apply put_lookup_outside; [lia| |lia]. apply lookup_lt_is_Some. rewrite E.
    apply lookup_lt_is_Some. rewrite Forall_forall in Hin. specialize (Hin _ Hp). simpl in Hin. lia.
Qed.
#[global] Instance agree_proper : Proper ((≡ₚ) ==> eq ==> eq ==> iff) agree.
Proof.
  intros l l' Hl file _ <- c _ <-. unfold agree, covered. setoid_rewrite Hl. done.
Qed.
(** If the pieces cover the file, the bytes start with it. *)
Lemma agree_all pieces file c :
  agree pieces file c -> (forall i, (i < length file)%nat -> covered pieces i) -> file `prefix_of` c.
Proof.
  intros Hc Hall. exists (drop (length file) c). rewrite <- (take_drop (length file) c) at 1. f_equal.
  apply list_eq. intros i. destruct (decide (i < length file)%nat) as [Hi|Hi].
  - rewrite lookup_take_lt by done. by apply Hc, Hall.
  - rewrite (lookup_ge_None_2 file) by lia. by apply lookup_take_ge; lia.
Qed.

(** ** Sending the blocks of a file *)

Section sender.
Context `{Host} {W : Type} `{SocketLaws W} (crc32c : list Z -> Z -> Z) `{!Crc32c crc32c}.
Context (d : Disk) (ropts : ReadOptions) (md : SourceMetaData) (c : BlockConfig) (transferStatus : ErrorCode).

(** Blocks are sent one after the other; the thread stops at an error. *)
Fixpoint sendBlocks (sources : list FileByteSource) (w : W) : option (ErrorCode * W) :=
  match sources with
  | [] => Some (OK, w)
  | s :: sources =>
      let* (stats, _, w) := sendOneByteSource crc32c d ropts md c s transferStatus w in
      if bool_decide (localErrCode_ stats = OK) then sendBlocks sources w else Some (localErrCode_ stats, w)
  end.

(** What [sendOneByteSource] relies on: a block of the file that was opened and
    of which nothing was read. *)
Record sendable (file : list Z) (s : FileByteSource) : Prop := mkSendable {
  sd_wf : wf_block (blockDetails_of md s);
  sd_unread : bytesRead_ s = 0;
  sd_no_error : hasError md s = false;
  sd_disk : well_behaved d s;
  sd_backed : backed d s file
}.
Definition whole (file : list Z) (s : FileByteSource) : list Z := slice (offset_ s) (offset_ s + size_ s) file.
Definition piece (s : FileByteSource) : Z * Z := (offset_ s, size_ s).

(** Sending returns; without an error the blocks are on the wire. *)
Lemma sendBlocks_spec file sources w :
  Zlen (relPath md) <= PATH_MAX -> ByteSource.allocationStatus md <> TO_BE_DELETED -> wf_buffer ropts -> 0 <= bc_bufSize c ->
  Forall (sendable file) sources ->
  exists e w', sendBlocks sources w = Some (e, w')
    /\ (e = OK -> outgoing w' = outgoing w ++ concat
         ((fun s => blockBytes crc32c c transferStatus (blockDetails_of md s) (whole file s)) <$> sources)).
Proof.
  intros Hpath Hdel Hbuf Hsize Hall. revert w. induction Hall as [|s sources [] Hall IH]; intros w; simpl.
  { do 2 eexists. split; [done|]. by rewrite app_nil_r. }
  destruct (sendOneByteSource_spec crc32c d ropts md c s transferStatus w) as (stats & s' & w1 & -> & _ & Hok & _); try done.
  case_bool_decide as Eok; [|by do 2 eexists].
  destruct (Hok Eok) as (data & _ & Eout & Hdata). destruct (IH w1) as (e & w' & -> & He).
  do 2 eexists. split; [done|]. intros Ee. rewrite (He Ee), Eout. rewrite (Hdata file) by done. by rewrite <- app_assoc.
Qed.
End sender.

(** ** Receiving them *)

Section receiver.
Context `{Host} {W F L : Type} `{ServerSocketLaws W} `{FileSystemLaws F} `{TransferLogLaws L} `{SessionLog L}.
Context `{Others (Store F L)} `{!OthersLaws F L} `{Peers (Receiver F L)}.
Context (o : WriteOptions) (ro : ReceiverOptions) (crc32c : list Z -> Z -> Z) `{!Crc32c crc32c}.
Context (threadIndex : Z) (fuel : nat).
Abbreviation St := (RState W F L).

(** The machine for [n] commands, until one does not end with the next one being
    read. *)
Fixpoint receiveCommands (n : nat) : M St ReceiverState :=
  match n with
  | O => mret READ_NEXT_CMD
  | S n =>
      next ← receiveCommand o ro crc32c threadIndex fuel;
      if bool_decide (next = READ_NEXT_CMD) then receiveCommands n else mret next
  end.

(** A block that fits the first read of its command, of a file the receiver can
    write. *)
Record deliverable (v : Z) (b : BlockDetails) : Prop := mkDeliverable {
  dl_wf : wf_block b;
  dl_status : allocationStatus b <> TO_BE_DELETED;
  dl_safe : isSafeRelativePath (fileName b) = true;
  dl_header : 4 + Zlen (headerBytes v b) <= kMinBufLength
}.
Lemma deliverable_receivable v b data t (st : Store F L) :
  let b' := received_block v b BlockDetails_default in
  deliverable v b -> dataSize b = Zlen data -> wait_ends threadIndex fuel b' st -> enough_fuel fuel (bufSize_ t) st ->
  wo_enable_download_resumption o && (Reporting.numBlocks_ (threadStats_ t) =? 0) = false ->
  receivable o threadIndex fuel b' data t st.
Proof.
  intros b' [(Hname & Hq & Hn & Hoff & Hfs & Hprev & n & Est & Hrange) Hdel Hsafe Hhd] Hsize Hwait Hfuel Hfirst.
  assert (allocationStatus b' <> TO_BE_DELETED) as Hdel' by (unfold b'; simpl; by case_match).
  assert (Zlen (fileName b) <= PATH_MAX) as Hpm.
  { unfold headerBytes in Hhd. rewrite !Zlen_app in Hhd. unfold stringBytes in Hhd. rewrite Zlen_app in Hhd.
    unfold kMinBufLength, PATH_MAX in *. lia. }
  split; try done.
  - split_and!; try done; apply Hoff || apply Hn.
  - split_and!; try done; simpl; [by case_match|].
    case_match; [by exists n|by exists 0].
Qed.

(** The state between two blocks: nothing is wrong, and [pend] is what is to be
    processed. *)
Record between (v : Z) (footer : FooterType) (root pend : list Z) (s : St) : Prop := mkBetween {
  bt_plain : plain (world s);
  bt_ready : ready (thread s);
  bt_error : localError (thread s) = OK;
  bt_version : threadProtocolVersion_ (thread s) = v;
  bt_footer : footerType_ (thread s) = footer;
  bt_pending : pending (thread s) (world s) = pend;
  bt_fuel : enough_fuel fuel (bufSize_ (thread s)) (store_ (receiver s));
  bt_count : 0 <= Reporting.numBlocks_ (threadStats_ (thread s));
  bt_root : rootDir_ (creator (store_ (receiver s))) = root
}.
Definition has_blocks (s : St) : Prop :=
  wo_enable_download_resumption o && (Reporting.numBlocks_ (threadStats_ (thread s)) =? 0) = false.

Lemma receive_next v e footer root b data rest s :
  let b' := received_block v b BlockDetails_default in
  let st := store_ (receiver s) in
  wo_skip_writes o = false -> between v footer root (blockStream crc32c v e footer b data ++ rest) s ->
  deliverable v b -> dataSize b = Zlen data -> wait_ends threadIndex fuel b' st -> has_blocks s ->
  wp (receiveCommand o ro crc32c threadIndex fuel) (fun next s' => failed next s' \/
    next = READ_NEXT_CMD /\ between v footer root rest s' /\ has_blocks s' /\ allocated b' (store_ (receiver s'))
    /\ exists c, file_at (disk (store_ (receiver s'))) (root ++ fileName b) = Some (put (blockOffset b) data c)
        /\ (allocated b' st -> forall c0, file_at (disk st) (root ++ fileName b) = Some c0 -> c = c0)) s.
Proof.
  intros b' st Hskip [] Hdl Hsize Hwait Hfirst. subst v footer root.
  eapply wp_mono; [|eapply (receiveCommand_spec _ _ _ _ _ b data rest e s Hskip)]; try done.
  - intros next s' [Hf|(-> & Hp & Hr & [] & Hpend & Hroot & Hint & Halloc & c & Hfile & Hkeep)]; [by left|right].
    split; [done|]. split; [split; try done; try congruence|].
    + unfold enough_fuel, bufSize_ in *. lia.
    + lia.
    + split; [|split; [done|by exists c]]. unfold has_blocks. rewrite (proj2 (Z.eqb_neq _ 0)) by lia. by rewrite andb_false_r.
  - apply Hdl.
  - by apply deliverable_receivable.
  - rewrite Zlen_fileCmdBytes. apply Hdl.
Qed.

(** The data of a block of the file, and where it is. *)
Definition data_of (file : list Z) (b : BlockDetails) : list Z :=
  slice (blockOffset b) (blockOffset b + dataSize b) file.
Definition place (b : BlockDetails) : Z * Z := (blockOffset b, dataSize b).
Definition within (file : list Z) (b : BlockDetails) : Prop :=
  0 <= blockOffset b /\ 0 <= dataSize b /\ blockOffset b + dataSize b <= Zlen file.
(** The bytes of blocks on the wire. *)
Definition stream v e footer file (bs : list BlockDetails) : list Z :=
  concat ((fun b => blockStream crc32c v e footer b (data_of file b)) <$> bs).

Lemma within_data file b : within file b -> dataSize b = Zlen (data_of file b).
Proof. intros (? & ? & ?). unfold data_of. rewrite Zlen_slice_le; lia. Qed.

(** The first of several blocks. *)
Lemma receive_cons v e footer root file b bs rest s (Q : ReceiverState -> St -> Prop) :
  let b' := received_block v b BlockDetails_default in
  let st := store_ (receiver s) in
  wo_skip_writes o = false -> between v footer root (stream v e footer file (b :: bs) ++ rest) s -> has_blocks s ->
  deliverable v b -> within file b -> wait_ends threadIndex fuel b' st ->
  (forall next s', failed next s' -> Q next s') ->
  (forall c s', between v footer root (stream v e footer file bs ++ rest) s' -> has_blocks s' ->
     allocated b' (store_ (receiver s')) ->
     file_at (disk (store_ (receiver s'))) (root ++ fileName b) = Some (put (blockOffset b) (data_of file b) c) ->
     (allocated b' st -> forall c0, file_at (disk st) (root ++ fileName b) = Some c0 -> c = c0) ->
     wp (receiveCommands (length bs)) Q s') ->
  wp (receiveCommands (length (b :: bs))) Q s.
Proof.
  intros b' st Hskip Hbt Hhas Hdl Hw Hwait HQ1 HQ2. cbn [length receiveCommands]. apply wp_bind.
  eapply wp_mono; [|eapply (receive_next v e footer root b (data_of file b) (stream v e footer file bs ++ rest))]; try done.
  - intros next s' [Hf|(-> & Hbt' & Hhas' & Ha & c & Hc & Hkeep)].
    + rewrite bool_decide_eq_false_2 by apply Hf. by apply wp_ret, HQ1.
    + rewrite bool_decide_eq_true_2 by done. by eapply HQ2.
  - unfold stream in *. simpl in Hbt. by rewrite <- app_assoc in Hbt.
  - by apply within_data.
Qed.

(** The state after all blocks. *)
Definition delivered v footer root name file (pieces : list (Z * Z)) rest (next : ReceiverState) (s' : St) : Prop :=
  failed next s' \/ next = READ_NEXT_CMD /\ between v footer root rest s'
    /\ exists c, file_at (disk (store_ (receiver s'))) (root ++ name) = Some c /\ agree pieces file c.
Lemma delivered_perm v footer root name file pieces pieces' rest next s' :
  pieces ≡ₚ pieces' -> delivered v footer root name file pieces rest next s' ->
  delivered v footer root name file pieces' rest next s'.
Proof. intros Hp. unfold delivered. by setoid_rewrite Hp. Qed.
Definition block_of v name q file (b : BlockDetails) : Prop :=
  deliverable v b /\ within file b /\ fileName b = name /\ seqId b = q.

Lemma allocated_wait b (st : Store F L) : allocated b st -> wait_ends threadIndex fuel b st.
Proof. intros Ha i c E. rewrite claim_allocated in E by done. done. Qed.

Lemma receive_more v e footer root name q file bs rest pieces c s :
  wo_skip_writes o = false -> between v footer root (stream v e footer file bs ++ rest) s -> has_blocks s ->
  Forall (block_of v name q file) bs ->
  fileStatusMap_ (creator (store_ (receiver s))) !! q = Some ALLOCATED ->
  file_at (disk (store_ (receiver s))) (root ++ name) = Some c -> agree pieces file c ->
  Forall (fun p => 0 <= p.1 /\ p.1 + p.2 <= Zlen file) pieces ->
  wp (receiveCommands (length bs)) (delivered v footer root name file ((place <$> bs) ++ pieces) rest) s.
Proof.
  intros Hskip. revert s c pieces. induction bs as [|b bs IH]; intros s c pieces Hbt Hhas Hall Ha Hf Hag Hin.
  { apply wp_ret. right. split; [done|]. split; [done|]. by exists c. }
  apply Forall_cons in Hall as [(Hdl & Hw & Hname & Hq) Hall]. subst name q.
  eapply receive_cons; [done..|by apply allocated_wait|by left|].
  intros c1 s1 Hbt1 Hhas1 Ha1 Hf1 Hkeep. rewrite (Hkeep Ha c Hf) in Hf1. destruct Hw as (? & ? & ?).
  eapply wp_mono; [|eapply (IH s1 _ (place b :: pieces) Hbt1 Hhas1 Hall Ha1 Hf1)].
  - intros next s'. apply delivered_perm. by rewrite <- Permutation_middle.
  - by apply agree_put.
  - constructor; [done|exact Hin].
Qed.
End receiver.

(** ** From end to end *)

Section transfer.
Context `{Host} {V W F L : Type} `{SocketLaws V} `{ServerSocketLaws W} `{FileSystemLaws F} `{TransferLogLaws L}.
Context `{SessionLog L} `{Others (Store F L)} `{!OthersLaws F L} `{Peers (Receiver F L)}.
Context (crc32c : list Z -> Z -> Z) `{!Crc32c crc32c}.
Context (d : Disk) (ropts : ReadOptions) (md : SourceMetaData) (config : BlockConfig) (transferStatus : ErrorCode).
Context (o : WriteOptions) (ro : ReceiverOptions) (threadIndex : Z) (fuel : nat).

Lemma blockBytes_stream b data :
  blockBytes crc32c config transferStatus b data
  = blockStream crc32c (bc_version config) transferStatus (bc_footer config) b data.
Proof.
  unfold blockBytes, blockStream, footerBytes, footer_of. destruct (bc_footer config); by case_bool_decide.
Qed.

(** C1: the blocks of a file that one thread sends without an error over a
    connection, in any order and of any sizes, are received by the thread at the
    other end whatever the pieces in which the connection delivers them: it does
    not abort and does not loop forever, and unless it goes on with an error it
    has processed exactly these blocks and the file at the receiver has the
    bytes of the sender's file on all of them.  If the blocks cover the file, the
    receiver's file starts with the sender's. *)
Theorem end_to_end file (s0 : FileByteSource) sources (w w' : V) sent rest (s : RState W F L) :
  let v := bc_version config in
  let root := rootDir_ (creator (store_ (receiver s))) in
  let blocks := blockDetails_of md <$> (s0 :: sources) in
  (* the sender *)
  Forall (sendable d md file) (s0 :: sources) -> ByteSource.allocationStatus md <> TO_BE_DELETED ->
  Zlen (relPath md) <= PATH_MAX -> wf_buffer ropts -> 0 <= bc_bufSize config ->
  sendBlocks crc32c d ropts md config transferStatus (s0 :: sources) w = Some (OK, w') ->
  outgoing w' = outgoing w ++ sent ->
  (* the receiver *)
  wo_skip_writes o = false -> Forall (deliverable v) blocks ->
  between fuel v (bc_footer config) root (sent ++ rest) s -> has_blocks o s ->
  wait_ends threadIndex fuel (received_block v (blockDetails_of md s0) BlockDetails_default) (store_ (receiver s)) ->
  wp (receiveCommands o ro crc32c threadIndex fuel (length (s0 :: sources)))
    (fun next s' => failed next s' \/
       next = READ_NEXT_CMD /\ pending (thread s') (world s') = rest
       /\ exists c, file_at (disk (store_ (receiver s'))) (root ++ relPath md) = Some c
          /\ agree (piece <$> (s0 :: sources)) file c
          /\ ((forall i, (i < length file)%nat -> covered (piece <$> (s0 :: sources)) i) -> file `prefix_of` c)) s.
Proof.
  intros v root blocks Hsend Hdel Hpath Hbuf Hsize Esend Eout Hskip Hdl Hbt Hhas Hwait.
  assert (sent = stream crc32c v transferStatus (bc_footer config) file blocks) as ->.
  { destruct (sendBlocks_spec crc32c d ropts md config transferStatus file (s0 :: sources) w) as (e & w1 & E & Hout); try done.
    rewrite Esend in E. simplify_eq. rewrite (Hout eq_refl) in Eout. apply app_inv_head in Eout. rewrite <- Eout.
    unfold stream, blocks. rewrite <- list_fmap_compose. f_equal. apply list_fmap_ext. intros _ x _. simpl.
    rewrite blockBytes_stream. done. }
  assert (Forall (block_of v (relPath md) (ByteSource.seqId md) file) blocks) as Hblocks.
  { unfold blocks in *. rewrite Forall_fmap in *. eapply Forall_impl; [exact (proj2 (Forall_and _ _) (conj Hsend Hdl))|].
    intros x [[Hwf _ _ _ [_ Hin]] Hx]. split; [exact Hx|]. split; [|done].
    destruct Hwf as (_ & _ & [Hn _] & [Hoff _] & _). unfold within. simpl in *. unfold getOffset, getSize in *. lia. }
  assert (place <$> blocks = piece <$> (s0 :: sources)) as Epl.
  { unfold blocks. by rewrite <- list_fmap_compose. }
  rewrite <- Epl. replace (length (s0 :: sources)) with (length blocks) by (unfold blocks; by rewrite length_fmap).
  eapply (wp_mono _ (delivered fuel v (bc_footer config) root (relPath md) file (place <$> blocks) rest)).
  { intros next s' [Hf|(-> & [] & c & Hc & Hag)]; [by left|right]. split_and!; [done..|].
    exists c. split_and!; [done..|]. by apply agree_all. }
  subst blocks. rewrite fmap_cons in *. apply Forall_cons in Hblocks as [(Hb0 & Hw0 & _) Hblocks].
  eapply receive_cons; [done..|by left|]. intros c s1 Hbt1 Hhas1 Ha1 Hf1 _. destruct Hw0 as (? & ? & ?).
  eapply wp_mono; [intros next s'; apply (delivered_perm fuel v _ root _ file ((place <$> (blockDetails_of md <$> sources)) ++ [place (blockDetails_of md s0)]))|].
  { by rewrite fmap_cons, <- Permutation_cons_append. }
  eapply receive_more; try done; [by apply agree_put; [..|intros ? (? & ? & ?%elem_of_nil & _)]|by constructor].
Qed.
End transfer.

(** ** The transfer log behind the interfaces *)

Section manager.
Context `{Host} (options : LogOptions) (stat : list Z -> option Z) (rootDir : list Z).
Context (fault : nat -> Fault) (now : nat -> Z) (sameInode : nat -> bool).

(** Entries can be added to the log of the manager. *)
Lemma manager_log_laws : (forall n, nonneg64 (now n)) -> @TransferLogLaws Manager (manager_log now).
Proof.
  intros Hnow. split; simpl.
  - intros name q n m Hname Hq Hn. unfold addFileCreationEntry. case_match; [by eauto|].
    eexists. apply (emplace_encoded (ECreation (mkFileCreation _ name q n))); split_and!; simpl; auto.
  - intros q off n m Hq Hoff Hn. unfold addBlockWriteEntry. case_match; [by eauto|].
    eexists. apply (emplace_encoded (EBlock (mkBlockWrite _ q off n))); split_and!; simpl; auto.
  - intros q n m Hq Hn. unfold addFileResizeEntry. case_match; [by eauto|].
    eexists. apply (emplace_encoded (EResize (mkFileResize _ q n))); split_and!; simpl; auto.
  - intros q m Hq. unfold addFileInvalidationEntry. case_match; [by eauto|].
    eexists. apply (emplace_encoded (EInvalidation (mkFileInvalidation _ q))); split_and!; simpl; auto.
Qed.
Definition manager_session : SessionLog Manager := {|
  log_startThread m := snd <$> startThread options m;
  log_verifySenderIp := verifySenderIp options rootDir fault now sameInode;
  log_invalidateDirectory := invalidateDirectory options rootDir fault now sameInode;
  log_resumptionStatus := getResumptionStatus;
  log_writeLogHeader := writeLogHeader options rootDir fault now sameInode
|}.
End manager.

(** ** An example *)

(** A connection without encryption. *)
#[global] Instance Wire_server : ServerSocket Wire := {
  srv_listen w := (OK, w);
  srv_acceptNextConnection _ _ w := (OK, w);
  srv_closeNoCheck w := w;
  srv_closeAllNoCheck w := w;
  srv_closeConnection w := (OK, w);
  srv_getNonRetryableErrCode _ := OK;
  srv_expectEndOfStream w := (OK, w);
  srv_tagVerified w := (false, w);
  srv_tagLen _ := 0;
  srv_encryptionType _ := 0;
  srv_peerIp _ := [49];
  srv_port _ := 22356;
  srv_disableIvChange w := w
}.
#[global] Instance Wire_server_laws : ServerSocketLaws Wire.
Proof. refine {| plain := fun _ => True |}; try done. by intros w b w' _ [= <- <-]. Defined.

#[export] Instance ex_log_laws : @TransferLogLaws Manager ex_manager_log.
Proof. apply manager_log_laws. done. Qed.
#[export] Instance ex_alone_laws : OthersLaws Mem Manager.
Proof. split; done. Qed.
#[export] Instance ex_session : SessionLog Manager :=
  @manager_session littleHost ex_options [47; 114; 47] (fun _ => NoFault) ex_now (fun _ => true).
#[export] Instance ex_peers {F} : Peers (Receiver F Manager) := fun r => r.

(** The file in two blocks, the second one first. *)
Definition ex_first : FileByteSource :=
  Eval vm_compute in (source_open (ex_disk ex_file) ex_read ex_md (FileByteSource_make 0 ex_md 2 3)).2.
Definition ex_second : FileByteSource :=
  Eval vm_compute in (source_open (ex_disk ex_file) ex_read ex_md (FileByteSource_make 0 ex_md 3 0)).2.
Definition ex_sent : list Z :=
  Eval vm_compute in from_option (fun r => sent r.2) []
    (@sendBlocks littleHost Wire _ crc32c_software (ex_disk ex_file) ex_read ex_md ex_config OK [ex_first; ex_second] (mkWire [] [])).
(** What follows fills the buffer; the network delivers ten bytes at a time. *)
Definition ex_rest : list Z := replicate 300 5.
Fixpoint in_pieces (n : nat) (bs : list Z) : list (list Z) :=
  match n with O => [bs] | S n => take 10 bs :: in_pieces n (drop 10 bs) end.
Definition ex_thread (version : Z) : ReceiverThread :=
  mkReceiverThread (replicate 4200 0) 0 0 0 0 0 (-1) (-1) true (mkCheckpoint 22356 0 0 0 0 false) false [] [] CHECKSUM_FOOTER
    version true TransferStats_default.
Definition ex_controller : ThreadsController :=
  setNumBarriers 1 (setNumConditions 1 (setNumFunnels 1 (ThreadsController_make 1))).
Definition ex_receiver : Receiver Mem Manager :=
  mkReceiver [] true ACCEPT_WITH_RETRIES true [] [] ex_controller ex_store.
Definition ex_state : RState Wire Mem Manager :=
  mkRState (ex_thread 32) ex_receiver (mkWire (in_pieces 20 (ex_sent ++ ex_rest)) []).
Definition ex_ro : ReceiverOptions := mkReceiverOptions 5 5 100 1000.

Lemma ex_sendable : Forall (sendable (ex_disk ex_file) ex_md ex_file) [ex_first; ex_second].
Proof.
  assert (forall s, offset_ s + size_ s <= Zlen ex_file -> backed (ex_disk ex_file) s ex_file) as Hb.
  { intros s Hs. split; [apply ex_disk_reads|done]. }
  do 2 (apply Forall_cons; split;
    [split; [repeat split; try done; by exists 0|done|done|by apply ex_disk_behaved|by apply Hb]|]).
  constructor.
Qed.
Lemma ex_deliverable : Forall (deliverable 32) (blockDetails_of ex_md <$> [ex_first; ex_second]).
Proof.
  do 2 (apply Forall_cons; split; [split; [repeat split; try done; by exists 0|done|done|vm_compute; done]|]).
  constructor.
Qed.

Lemma ex_between : @between Wire Mem Manager _ _ _ _ _ _ 5000 32 CHECKSUM_FOOTER [47; 114; 47] (ex_sent ++ ex_rest) ex_state.
Proof.
  split; try done.
  unfold enough_fuel. apply Nat.leb_le. vm_compute. reflexivity.
Qed.
Lemma ex_received : exists s',
  @receiveCommands littleHost Wire Mem Manager _ _ _ _ _ _ _ ex_write_options ex_ro crc32c_software 0 5000 2 ex_state
    = Some (READ_NEXT_CMD, s').
Proof. eexists. vm_compute. reflexivity. Qed.

Lemma ex_covers (i : nat) : (i < length ex_file)%nat -> covered (piece <$> [ex_first; ex_second]) i.
Proof.
  intros Hi. assert (Z.of_nat i < 5) as Hi5 by (simpl in Hi; lia).
  destruct (decide (Z.of_nat i < 3)); [exists 0, 3|exists 3, 2]; (split; [set_solver|lia]).
Qed.

Lemma end_to_end_witness : exists s' c,
  @receiveCommands littleHost Wire Mem Manager _ _ _ _ _ _ _ ex_write_options ex_ro crc32c_software 0 5000 2 ex_state
    = Some (READ_NEXT_CMD, s')
  /\ file_at (disk (store_ (receiver s'))) [47; 114; 47; 102] = Some c /\ ex_file `prefix_of` c.
Proof.
  destruct ex_received as [s' Es'].
  destruct (proj1 (wp_Some _ _ _) (@end_to_end littleHost Wire Wire Mem Manager _ _ _ _ _ _ _ _ _ ex_log_laws _ _ _ _ crc32c_software _
    (ex_disk ex_file) ex_read ex_md ex_config OK ex_write_options ex_ro 0 5000 ex_file ex_first [ex_second]
    (mkWire [] []) (mkWire [] ex_sent) ex_sent ex_rest ex_state
    ex_sendable ltac:(done) ltac:(eval_side) ltac:(eval_side) ltac:(done) ltac:(vm_compute; reflexivity) eq_refl eq_refl
    ex_deliverable ex_between eq_refl ltac:(intros i c E; vm_compute in E; done)))
    as (next & s1 & E & [(Hne & _)|(_ & _ & c & Hc & _ & Hpre)]).
  1,2: apply (eq_trans (eq_sym Es')) in E; injection E as <- <-.
  { destruct (Hne eq_refl). }
  exists s', c. split; [exact Es'|]. split; [exact Hc|]. exact (Hpre ex_covers).
Defined.
