(* ===== verification/ReceiverExamples.v ===== *)
(** Runs of a receiver thread: the theorems on the state machine and on the
    reception of a block at concrete connections, and the two errors that the
    model of the thread shows. *)
From stdpp Require Import gmap.
From S2P Require Import Prelude ByteSource Serialization ErrorCodes StateMonad Protocol ProtocolProps Reporting.
From S2P Require Import LogEntries LogParser LogManager ThreadsController FileSystem FileCreator FileCreatorProps FileWriter.
From S2P Require Import Socket SendBlock ReceiverThread ReceiverMachine ReceiveBlock EndToEnd.

(** The handlers and the commands of the example. *)
Definition ex_handler (state : ReceiverState) : M (RState Wire Mem Manager) ReceiverState :=
  @handler littleHost Wire Mem Manager _ _ _ _ _ _ _ ex_write_options ex_ro crc32c_software 0 5000 state.
Definition ex_command : M (RState Wire Mem Manager) ReceiverState :=
  @receiveCommand littleHost Wire Mem Manager _ _ _ _ _ _ _ ex_write_options ex_ro crc32c_software 0 5000.
(** The state that handlers lead to from [LISTEN]. *)
Fixpoint ex_run (n : nat) (state : ReceiverState) (s : RState Wire Mem Manager) : option (ReceiverState * RState Wire Mem Manager) :=
  match n with
  | O => Some (state, s)
  | S n => let* (next, s) := ex_handler state s in ex_run n next s
  end.
Lemma ex_run_reach n state s next s' :
  @mreach littleHost Wire Mem Manager _ _ _ _ _ _ _ ex_write_options ex_ro crc32c_software 0 5000 state s ->
  ex_run n state s = Some (next, s') ->
  @mreach littleHost Wire Mem Manager _ _ _ _ _ _ _ ex_write_options ex_ro crc32c_software 0 5000 next s'.
Proof.
  revert state s. induction n as [|n IH]; simpl; intros state s Hr E; [by simplify_eq|].
  destruct (ex_handler state s) as [[st1 s1]|] eqn:Eh; [|done]. eapply IH; [|exact E].
  eapply mreach_step; [exact Hr|exact Eh].
Qed.

(** ** The theorems at an example *)

(** A connection that sends no command that exists: from [LISTEN] the thread
    comes to [FINISH_WITH_ERROR]. *)
Definition ex_garbage : RState Wire Mem Manager := mkRState (ex_thread 32) ex_receiver (mkWire [replicate 256 1] []).
Lemma receiver_machine_witness : exists s,
  ex_run 4 LISTEN ex_garbage = Some (FINISH_WITH_ERROR, s)
  /\ localError (thread s) <> OK /\ is_Some (finishWithError 0 s).
Proof.
  assert ((fun r => (r.1, getCondition WAIT_FOR_FINISH_OR_CHECKPOINT_CV (controller_ (receiver r.2))))
    <$> ex_run 4 LISTEN ex_garbage = Some (FINISH_WITH_ERROR, Some tt)) as E by (vm_compute; reflexivity).
  destruct (ex_run 4 LISTEN ex_garbage) as [[next s]|] eqn:Er; [|discriminate E]. injection E as -> Hc.
  destruct (@receiver_machine littleHost Wire Mem Manager _ _ _ _ _ _ _ ex_write_options ex_ro crc32c_software 0 5000
    FINISH_WITH_ERROR s (ex_run_reach _ _ _ _ _ (mreach_start _ _ _ _ _ _) Er)) as (H1 & _ & H2).
  exists s. split; [reflexivity|]. split; [exact H1|]. apply H2; [reflexivity|]. rewrite Hc. by eexists.
Defined.

(** The blocks of [EndToEnd], the first of them. *)
Definition ex_after : list Z :=
  Eval vm_compute in drop (length (blockStream crc32c_software 32 OK CHECKSUM_FOOTER (blockDetails_of ex_md ex_first) [13; 14]))
    (ex_sent ++ ex_rest).
Lemma ex_receivable :
  receivable ex_write_options 0 5000 (received_block 32 (blockDetails_of ex_md ex_first) BlockDetails_default) [13; 14]
    (thread ex_state) (store_ (receiver ex_state)).
Proof.
  apply deliverable_receivable; [exact (Forall_inv ex_deliverable)|reflexivity| |apply ex_between|reflexivity].
  intros i c E. vm_compute in E. discriminate E.
Qed.
Lemma receive_block_witness : exists s',
  ex_command ex_state = Some (READ_NEXT_CMD, s')
  /\ exists c, file_at (disk (store_ (receiver s'))) [47; 114; 47; 102] = Some (put 3 [13; 14] c).
Proof.
  assert (fst <$> ex_command ex_state = Some READ_NEXT_CMD) as E by (vm_compute; reflexivity).
  destruct (ex_command ex_state) as [[next s]|] eqn:Er; [|discriminate E]. injection E as ->.
  destruct (proj1 (wp_Some _ _ _) (@receive_block littleHost Wire Mem Manager _ _ _ _ _ _ _ ex_log_laws _ _ _ _
    ex_write_options ex_ro crc32c_software _ 0 5000 (blockDetails_of ex_md ex_first) [13; 14] ex_after OK ex_state eq_refl
    (sd_wf _ _ _ _ (Forall_inv ex_sendable)) ex_receivable ltac:(apply ex_between) ltac:(apply ex_between) eq_refl ltac:(vm_compute; discriminate)
    ltac:(vm_compute; reflexivity))) as (next & s1 & E & Hres).
  apply (eq_trans (eq_sym Er)) in E. injection E as <- <-. exists s. split; [reflexivity|].
  destruct Hres as [(Hne & _)|(_ & _ & _ & _ & _ & _ & _ & _ & c & Hc & _)]; [destruct (Hne eq_refl)|]. by exists c.
Defined.

(** ** A header in two pieces *)

(** A file with a long name: 300 times "a". *)
Definition ex_long_name : list Z := replicate 300 97.
Definition ex_long_block : BlockDetails := mkBlockDetails ex_long_name 7 5 0 5 NOT_EXISTS 0.
Definition ex_long_bytes : list Z :=
  Eval vm_compute in blockStream crc32c_software 32 OK CHECKSUM_FOOTER ex_long_block ex_file ++ ex_rest.
(** All at once, and with the first 256 bytes on their own. *)
Definition ex_at_once : RState Wire Mem Manager :=
  mkRState (ex_thread 32) ex_receiver (mkWire [ex_long_bytes] []).
Definition ex_in_two : RState Wire Mem Manager :=
  mkRState (ex_thread 32) ex_receiver (mkWire [take 256 ex_long_bytes; drop 256 ex_long_bytes] []).

(** The next state, the error code and the bytes of the file. *)
Definition outcome (r : ReceiverState * RState Wire Mem Manager) : ReceiverState * ErrorCode * option (list Z) :=
  (r.1, localError (thread r.2), file_at (disk (store_ (receiver r.2))) ([47; 114; 47] ++ ex_long_name)).


(** ** The end of a transfer before its settings *)

Lemma wait_without_settings `{Host} {W F L : Type} `{Socket W} `{ServerSocket W} `{FileSystem F} `{TransferLog L}
    `{SessionLog L} `{Others (Store F L)} `{Peers (Receiver F L)} threadIndex fuel (s : RState W F L) :
  senderReadTimeout_ (thread s) <= 0 -> waitForFinishOrNewCheckpoint threadIndex fuel s = None.
Proof.
  intros Ht. assert (forall n s, senderReadTimeout_ (thread s) <= 0 -> waitForFinish_loop threadIndex n s = None) as Hloop.
  { intros n s1 Ht1. destruct n; cbn; unfold mbind, M_bind, getT, gets, wdt_check;
      by rewrite (proj2 (Z.ltb_ge _ _)) by done. }
  unfold waitForFinishOrNewCheckpoint, mbind, M_bind, getT, gets, wdt_check.
  destruct (bool_decide _); [|done]. destruct (acquire s) as [[u s1]|] eqn:Ea; [|done].
  apply Hloop. unfold acquire, onController, zoom in Ea. repeat case_hyp Ea; by simplify_eq.
Qed.

(** A connection that starts with a [DONE] command of no blocks. *)
Definition ex_done : RState Wire Mem Manager :=
  let bytes := [DONE_CMD; 0] ++ doneBytes 32 (mkDoneCmd 0 0) in
  mkRState (ex_thread 32) ex_receiver (mkWire [bytes ++ replicate (256 - length bytes) 0] []).
Definition ex_waits : RState Wire Mem Manager := Eval vm_compute in from_option snd ex_done (ex_run 2 READ_NEXT_CMD ex_done).

(** If a connection ends a transfer before it sent its settings, the
    receiver aborts: [WDT_CHECK(senderReadTimeout_ > 0)] fails when the thread
    waits for the other ones. *)
Theorem done_before_settings_aborts `{Host} {W F L : Type} `{Socket W} `{ServerSocket W} `{FileSystem F} `{TransferLog L}
    `{SessionLog L} `{Others (Store F L)} `{Peers (Receiver F L)} o ro crc32c threadIndex fuel (s : RState W F L) :
  senderReadTimeout_ (thread s) <= 0 ->
  handler o ro crc32c threadIndex fuel WAIT_FOR_FINISH_OR_NEW_CHECKPOINT s = None.
Proof. apply wait_without_settings. Qed.
Lemma done_before_settings_aborts_witness :
  fst <$> ex_run 2 READ_NEXT_CMD ex_done = Some WAIT_FOR_FINISH_OR_NEW_CHECKPOINT
  /\ ex_handler WAIT_FOR_FINISH_OR_NEW_CHECKPOINT ex_waits = None.
Proof.
  split; [vm_compute; reflexivity|].
  apply (@done_before_settings_aborts littleHost Wire Mem Manager). vm_compute. done.
Defined.
