(* ===== verification/SenderThread.v ===== *)
(** A sender thread: every handler of [SenderThread.cpp] and the operations of
    [Sender.cpp] and [WdtBase.cpp] they call, over the queue, the histories and
    the statistics of [Transfer], and over the connection of [Socket]. *)
From stdpp Require Import gmap.
From S2P Require Import Prelude Serialization ErrorCodes Chunks StateMonad Protocol Reporting ByteSource SourceQueue.
From S2P Require Import History Transfer Socket SendBlock ThreadsController.

Inductive SenderState :=
  | CONNECT | READ_LOCAL_CHECKPOINT | SEND_SETTINGS | SEND_BLOCKS | SEND_DONE_CMD | SEND_SIZE_CMD
  | CHECK_FOR_ABORT | READ_FILE_CHUNKS | READ_RECEIVER_CMD | PROCESS_DONE_CMD | PROCESS_WAIT_CMD
  | PROCESS_ERR_CMD | PROCESS_ABORT_CMD | PROCESS_VERSION_MISMATCH | END.
#[global] Instance SenderState_eq_dec : EqDecision SenderState.
Proof. solve_decision. Defined.

Inductive ProtoNegotiationStatus := V_MISMATCH_WAIT | V_MISMATCH_RESOLVED | V_MISMATCH_FAILED.
#[global] Instance ProtoNegotiationStatus_eq_dec : EqDecision ProtoNegotiationStatus.
Proof. solve_decision. Defined.

Definition VERSION_MISMATCH_BARRIER : nat := 0.
Definition VERSION_MISMATCH_FUNNEL : nat := 0.

Record SenderOptions := mkSenderOptions {
  so_max_retries : Z;
  so_max_transfer_retries : Z;
  so_enable_heart_beat : bool;
  so_enable_checksum : bool;
  so_block_size_mbytes : Z;
  so_read_timeout_millis : Z;
  so_write_timeout_millis : Z
}.

(** The members of the thread that only it uses; [socket_] is whether there is
    one.  The history and the statistics of the thread are in the controller,
    under its port.  What [readHeartBeats] leaves in the buffer is not kept; it
    can only be seen in the padding of commands. *)
Record SenderThread := mkSenderThread {
  buf_ : list Z;
  threadProtocolVersion_ : Z;
  footerType_ : FooterType;
  enableHeartBeat_ : bool;
  totalSizeSent_ : bool;
  numReconnectWithoutProgress_ : Z;
  socket_ : bool
}.
#[global] Instance SenderThread_settable : Settable SenderThread := fun t =>
  mkSenderThread (buf_ t) (threadProtocolVersion_ t) (footerType_ t) (enableHeartBeat_ t)
    (totalSizeSent_ t) (numReconnectWithoutProgress_ t) (socket_ t).
Definition bufSize_ (t : SenderThread) : Z := Zlen (buf_ t).

(** What the threads share: members of [Sender] and [WdtBase]; the negotiated
    protocols are members of the threads that all of them read. *)
Record Sender := mkSender {
  sys_ : Sys;
  downloadResumptionEnabled_ : bool;
  fileChunksReceived_ : bool;
  protoNegotiationStatus_ : ProtoNegotiationStatus;
  protocolVersion_ : Z;
  abortCode_ : ErrorCode;
  controller_ : ThreadsController;
  negotiatedProtocols_ : list Z;
  transferId_ : list Z
}.
#[global] Instance Sender_settable : Settable Sender := fun p =>
  mkSender (sys_ p) (downloadResumptionEnabled_ p) (fileChunksReceived_ p) (protoNegotiationStatus_ p)
    (protocolVersion_ p) (abortCode_ p) (controller_ p) (negotiatedProtocols_ p) (transferId_ p).

Record SState (W : Type) := mkSState { sthread : SenderThread; sender : Sender; sworld : W }.
Arguments mkSState {_}. Arguments sthread {_}. Arguments sender {_}. Arguments sworld {_}.
#[global] Instance SState_settable {W} : Settable (SState W) := fun s => mkSState (sthread s) (sender s) (sworld s).

(** ** The interfaces used *)

(** [IClientSocket] beyond reading and writing; [cl_make] is whether the socket
    was created, [cl_shouldAbort] the answer of the abort checker of the
    application. *)
Class ClientSocket (W : Type) := {
  cl_make : W -> bool * W;
  cl_connect : W -> ErrorCode * W;
  cl_getNonRetryableErrCode : W -> ErrorCode;
  cl_closeNoCheck : W -> W;
  cl_getReadErrCode : W -> ErrorCode;
  cl_getUnackedBytes : W -> Z * W;
  cl_readWithTimeout : Z -> W -> Z * list Z * W;
  cl_shutdownWrites : W -> W;
  cl_expectEndOfStream : W -> ErrorCode * W;
  cl_encryptionType : W -> Z;
  cl_shouldAbort : W -> bool * W
}.
(** What the other threads of the sender do while this one is blocked. *)
Class SenderPeers := sender_peers : Sender -> Sender.

Section sender.
Context `{Host} {W : Type} `{Socket W} `{ClientSocket W} `{SenderPeers}.
Context (env : Env) (o : SenderOptions) (crc32c : list Z -> Z -> Z) (throttled tls : bool).
Context (threadIndex : nat) (port_ : Z) (fuel : nat).

Definition T (A : Type) : Type := M (SState W) A.

Definition getT {A} (f : SenderThread -> A) : T A := gets (fun s => f (sthread s)).
Definition modT (f : SenderThread -> SenderThread) : T unit := modify (fun s => s <| sthread := f (sthread s) |>).
Definition getP {A} (f : Sender -> A) : T A := gets (fun s => f (sender s)).
Definition modP (f : Sender -> Sender) : T unit := modify (fun s => s <| sender := f (sender s) |>).
Definition onWorld {A} (f : W -> A * W) : T A := zoom sworld (fun w s => s <| sworld := w |>) (total f).
Definition onSys {A} (m : M Sys A) : T A :=
  zoom (fun s => sys_ (sender s)) (fun σ s => s <| sender := sender s <| sys_ := σ |> |>) m.
Definition onController {A} (m : M ThreadsController A) : T A :=
  zoom (fun s => controller_ (sender s)) (fun c s => s <| sender := sender s <| controller_ := c |> |>) m.
Definition peers : T unit := modP sender_peers.
Definition queue_of {A} (f : DirectorySourceQueue -> A) : T A := getP (fun p => f (queue (sys_ p))).

(** [getTransferHistory()] and the statistics it refers to. *)
Definition entry : T (ThreadTransferHistory * TransferStats) :=
  fun s => let* e := find_history port_ (threads (sys_ (sender s))) in Some (e, s).
Definition setEntry (e : ThreadTransferHistory * TransferStats) : T unit :=
  modP (fun p => p <| sys_ := sys_ p <| threads := set_history port_ e (threads (sys_ p)) |> |>).
Definition localError : T ErrorCode := e ← entry; mret (localErrCode_ e.2).
Definition onStats (f : TransferStats -> TransferStats) : T unit := e ← entry; setEntry (e.1, f e.2).
Definition onHistory (f : ThreadTransferHistory -> ThreadTransferHistory) : T unit := e ← entry; setEntry (f e.1, e.2).
Definition setError (e : ErrorCode) : T unit := onStats (setLocalErrorCode e).
Definition fail (e : ErrorCode) (next : SenderState) : T SenderState := _ ← setError e; mret next.

Definition set_buf (f : list Z -> list Z) : T unit := modT (fun t => t <| buf_ := f (buf_ t) |>).
(** [socket_->read(buf_ + pos, n)] and [socket_->write(buf_, n)] *)
Definition read_at (pos n : Z) : T Z :=
  r ← onWorld (fun w => let '(n, bs, w) := sock_read n true w in ((n, bs), w));
  _ ← set_buf (list_inserts (Z.to_nat pos) r.2);
  mret r.1.
Definition write_buf (n : Z) : T Z :=
  buf ← getT buf_;
  onWorld (sock_write (take (Z.to_nat n) buf)).
(** [buf_[0] = cmd] and the offset behind it; an encoder that goes on from
    there.  The result of the encoder is not tested. *)
Definition put_cmd (cmd : Z) : T Z := _ ← set_buf (<[0%nat := cmd]>); mret 1.
Definition encode (enc : list Z -> Z -> option (bool * list Z * Z)) (off : Z) : T Z :=
  fun s => let* (_, buf, off) := enc (buf_ (sthread s)) off in Some (off, s <| sthread := sthread s <| buf_ := buf |> |>).
(** A decoder on the buffer: the result is [None] if it failed. *)
Definition decode_at {A} (d : list Z -> Z -> Z -> A -> option (bool * A * Z)) (max : Z) (dflt : A) : T (option A) :=
  fun s => let* (ok, a, _) := d (buf_ (sthread s)) 0 max dflt in Some (if ok : bool then Some a else None, s).

(** ** Aborting *)

Definition getCurAbortCode : T ErrorCode :=
  aborted ← onWorld cl_shouldAbort;
  if aborted : bool then mret ABORTED_BY_APPLICATION else getP abortCode_.
Definition getThreadAbortCode : T ErrorCode :=
  globalAbortCode ← getCurAbortCode;
  if negb (bool_decide (globalAbortCode = OK)) then mret globalAbortCode
  else
    e ← entry;
    mret (if globalCheckpoint_ e.1 then GLOBAL_CHECKPOINT_ABORT else OK).

Definition sender_abort (code : ErrorCode) : T unit := modP (fun p =>
  if bool_decide (code = VERSION_MISMATCH) && negb (bool_decide (abortCode_ p = OK)) then p
  else p <| abortCode_ := code |>).
Definition clearAbort : T unit := modP (fun p =>
  if negb (bool_decide (abortCode_ p = VERSION_MISMATCH)) then p else p <| abortCode_ := OK |>).

(** ** Connecting *)

Definition reset : T unit :=
  _ ← modT (fun t => t <| totalSizeSent_ := false |>);
  setError OK.

(** The loop of [connectToReceiver]: an early return with its code, or the last
    code. *)
Fixpoint connect_tries (tries : nat) (errCode : ErrorCode) : T (ErrorCode * bool) :=
  match tries with
  | O => mret (errCode, false)
  | S tries =>
      errCode ← onWorld cl_connect;
      if bool_decide (errCode = OK) then mret (OK, false)
      else if bool_decide (errCode = CONN_ERROR) then mret (CONN_ERROR, true)
      else
        aborted ← getThreadAbortCode;
        if negb (bool_decide (aborted = OK)) then mret (ABORT, true)
        else connect_tries tries errCode
  end.
(** There is a socket if the code is [OK]. *)
Definition connectToReceiver : T ErrorCode :=
  made ← onWorld cl_make;
  if negb made then mret ERROR
  else
    let maxRetries := if so_max_retries o <? 1 then 1 else so_max_retries o in
    r ← connect_tries (Z.to_nat maxRetries) OK;
    if r.2 : bool then mret r.1
    else if negb (bool_decide (r.1 = OK)) then mret CONN_ERROR
    else mret OK.

(** The part of [connect] that closes the socket: the error it ends with. *)
Definition closeSocket : T ErrorCode :=
  have ← getT socket_;
  if have : bool then
    socketErrCode ← gets (fun s => cl_getNonRetryableErrCode (sworld s));
    if negb (bool_decide (socketErrCode = OK)) then mret socketErrCode
    else _ ← onWorld (fun w => (tt, cl_closeNoCheck w)); mret OK
  else mret OK.
Definition connect : T SenderState :=
  closed ← closeSocket;
  if negb (bool_decide (closed = OK)) then fail closed END
  else
    n ← getT numReconnectWithoutProgress_;
    if so_max_transfer_retries o <=? n then
      (* the message uses [socket_] *)
      have ← getT socket_;
      _ ← wdt_check have;
      fail NO_PROGRESS END
    else
      _ ← modT (fun t => t <| socket_ := false |>);
      code ← connectToReceiver;
      _ ← modT (fun t => t <| socket_ := bool_decide (code = OK) |>);
      if bool_decide (code = ABORT) then
        _ ← setError ABORT;
        aborted ← getThreadAbortCode;
        mret (if bool_decide (aborted = VERSION_MISMATCH) then PROCESS_VERSION_MISMATCH else END)
      else if negb (bool_decide (code = OK)) then fail code END
      else
        err ← localError;
        _ ← reset;
        mret (if negb (bool_decide (err = OK)) then READ_LOCAL_CHECKPOINT else SEND_SETTINGS).

(** ** Checkpoints of the receiver *)

(** [setLocalCheckpoint] of the history of the thread. *)
Definition setCheckpoint (c : Checkpoint) : T ErrorCode :=
  e ← entry;
  onSys (fun σ =>
    let* (err, h, ts, q) := setLocalCheckpoint c e.1 e.2 (queue σ) in
    Some (err, σ <| threads := set_history port_ (h, ts) (threads σ) |> <| queue := q |>)).

Definition readLocalCheckPoint : T SenderState :=
  version ← getT threadProtocolVersion_;
  let checkpointLen := getMaxLocalCheckpointLength version in
  numRead ← read_at 0 checkpointLen;
  if negb (numRead =? checkpointLen) then
    _ ← setError SOCKET_READ_ERROR;
    _ ← modT (fun t => t <| numReconnectWithoutProgress_ := numReconnectWithoutProgress_ t + 1 |>);
    mret CONNECT
  else
    r ← decode_at (decodeCheckpoints version) checkpointLen [];
    match r with
    | Some [checkpoint] =>
        if negb (Protocol.port checkpoint =? port_) then fail PROTOCOL_ERROR END
        else if numBlocks checkpoint =? -1 then mret READ_RECEIVER_CMD
        else
          errCode ← setCheckpoint checkpoint;
          if bool_decide (errCode = INVALID_CHECKPOINT) then fail PROTOCOL_ERROR END
          else
            _ ← modT (fun t => t <| numReconnectWithoutProgress_ :=
                   if bool_decide (errCode = NO_PROGRESS) then numReconnectWithoutProgress_ t + 1 else 0 |>);
            mret SEND_SETTINGS
    | _ => fail PROTOCOL_ERROR END
    end.

Definition readAndVerifySpuriousCheckpoint : T ErrorCode :=
  version ← getT threadProtocolVersion_;
  let checkpointLen := getMaxLocalCheckpointLength version in
  let toRead := checkpointLen - 1 in
  numRead ← read_at 1 toRead;
  if negb (numRead =? toRead) then
    _ ← setError SOCKET_READ_ERROR; mret SOCKET_READ_ERROR
  else
    r ← decode_at (decodeCheckpoints version) checkpointLen [];
    match r with
    | Some [c] =>
        if (Protocol.port c =? port_) && (numBlocks c =? 0) && (lastBlockReceivedBytes c =? 0) then mret OK
        else _ ← setError PROTOCOL_ERROR; mret PROTOCOL_ERROR
    | _ => _ ← setError PROTOCOL_ERROR; mret PROTOCOL_ERROR
    end.
(** What a state does with a spurious checkpoint. *)
Definition spuriousCheckpoint (again : SenderState) : T SenderState :=
  errCode ← readAndVerifySpuriousCheckpoint;
  if bool_decide (errCode = SOCKET_READ_ERROR) then mret CONNECT
  else if bool_decide (errCode = PROTOCOL_ERROR) then mret END
  else _ ← wdt_check (bool_decide (errCode = OK)); mret again.

(** ** Settings and resumption *)

Definition isSendFileChunks : T bool :=
  getP (fun p => downloadResumptionEnabled_ p && (DOWNLOAD_RESUMPTION_VERSION <=? protocolVersion_ p)).

Definition sendSettings : T SenderState :=
  off ← put_cmd SETTINGS_CMD;
  chunks ← isSendFileChunks;
  _ ← modT (fun t => t <| enableHeartBeat_ := (HEART_BEAT_VERSION <=? threadProtocolVersion_ t) && so_enable_heart_beat o |>);
  t ← getT id;
  id ← getP transferId_;
  let settings := mkSettings (so_read_timeout_millis o) (so_write_timeout_millis o) id
    (bool_decide (footerType_ t = CHECKSUM_FOOTER)) chunks (so_block_size_mbytes o <=? 0) (enableHeartBeat_ t) in
  off ← encode (fun dest off => encodeSettings (threadProtocolVersion_ t) dest off kMaxSettings settings) off;
  let toWrite := if chunks : bool then kMinBufLength else off in
  written ← write_buf toWrite;
  if negb (written =? toWrite) then fail SOCKET_WRITE_ERROR CONNECT
  else
    _ ← onStats (addHeaderBytes toWrite);
    mret (if chunks : bool then READ_FILE_CHUNKS else SEND_BLOCKS).

Definition setFileChunksInfo (infos : list FileChunksInfo) : T unit :=
  received ← getP fileChunksReceived_;
  if received : bool then mret tt
  else
    _ ← onSys (fun σ => let* q := setPreviouslyReceivedChunks infos (queue σ) in Some (tt, σ <| queue := q |>));
    modP (fun p => p <| fileChunksReceived_ := true |>).

(** The loop of [readFileChunks]: an early return, or the list.  A round that
    decodes nothing reads another message; [rounds] bounds them.  The chunk
    buffer has [bufSize] bytes; reading more than that into it is not
    modelled. *)
Fixpoint readChunks_loop (rounds : nat) (bufSize numFiles : Z) (infos : list FileChunksInfo)
    : T (SenderState + list FileChunksInfo) :=
  let numFileChunks := Zlen infos in
  if numFiles <? numFileChunks then next ← fail PROTOCOL_ERROR END; mret (inl next)
  else if numFileChunks =? numFiles then mret (inr infos)
  else
    match rounds with
    | O => StateMonad.abort
    | S rounds =>
        numRead ← read_at 0 sizeof_int32;
        if negb (numRead =? sizeof_int32) then next ← fail SOCKET_READ_ERROR CHECK_FOR_ABORT; mret (inl next)
        else
          toRead ← getT (fun t => Endian_little sizeof_int32 (loadUnaligned sizeof_int32 (buf_ t)));
          _ ← wdt_check (toRead <=? bufSize);
          r ← onWorld (fun w => let '(n, bs, w) := sock_read toRead true w in ((n, bs), w));
          if negb (r.1 =? toRead) then next ← fail SOCKET_READ_ERROR CHECK_FOR_ABORT; mret (inl next)
          else
            _ ← onStats (addHeaderBytes toRead);
            match decodeFileChunksInfoList r.2 0 toRead infos with
            | None => StateMonad.abort
            | Some (success, infos, _) =>
                if negb success then next ← fail PROTOCOL_ERROR END; mret (inl next)
                else readChunks_loop rounds bufSize numFiles infos
            end
    end.
(** Behind the command [CHUNKS_CMD]. *)
Definition readChunks : T SenderState :=
  numRead ← read_at 0 kChunksCmdLen;
  if negb (numRead =? kChunksCmdLen) then fail SOCKET_READ_ERROR CHECK_FOR_ABORT
  else
    _ ← onStats (addHeaderBytes numRead);
    size ← getT bufSize_;
    r ← decode_at decodeChunksCmd size (mkChunksCmd 0 0);
    (* the result of the decoder is not tested; it is defined if it succeeds *)
    match r with
    | None => StateMonad.abort
    | Some c =>
        if (ck_bufSize c <? 0) || (ck_numFiles c <? 0) then fail PROTOCOL_ERROR END
        else
          l ← readChunks_loop fuel (ck_bufSize c) (ck_numFiles c) [];
          match l with
          | inl next => mret next
          | inr infos =>
              _ ← setFileChunksInfo infos;
              _ ← put_cmd ACK_CMD;
              written ← write_buf 1;
              if negb (written =? 1) then fail SOCKET_WRITE_ERROR CHECK_FOR_ABORT
              else _ ← onStats (addHeaderBytes written); mret SEND_BLOCKS
          end
    end.
(** [(Protocol::CMD_MAGIC)buf_[0]] *)
Definition first_byte : T Z := getT (fun t => default 0 (buf_ t !! 0%nat)).

Definition readFileChunks : T SenderState :=
  numRead ← read_at 0 1;
  if negb (numRead =? 1) then fail SOCKET_READ_ERROR CHECK_FOR_ABORT
  else
    _ ← onStats (addHeaderBytes numRead);
    cmd ← first_byte;
    if cmd =? ABORT_CMD then mret PROCESS_ABORT_CMD
    else if cmd =? WAIT_CMD then mret READ_FILE_CHUNKS
    else if cmd =? ACK_CMD then
      received ← getP fileChunksReceived_;
      if negb received then fail PROTOCOL_ERROR END else mret SEND_BLOCKS
    else if cmd =? LOCAL_CHECKPOINT_CMD then spuriousCheckpoint READ_FILE_CHUNKS
    else if negb (cmd =? CHUNKS_CMD) then fail PROTOCOL_ERROR END
    else readChunks.

(** ** Blocks *)

(** [conditionNotEmpty_.wait(lock)]: blocked until a thread that waits is woken. *)
Fixpoint wait_notEmpty (rounds : nat) : T unit :=
  _ ← peers;
  woken ← queue_of (fun q => 0 <? awakened (conditionNotEmpty_ q));
  if woken : bool then mret tt
  else match rounds with O => StateMonad.abort | S rounds => wait_notEmpty rounds end.

(** The end of a round of [getNextSource]: the source is opened, or it is one
    that failed and the loop goes on. *)
Definition openNext (source : FileByteSource) (status : ErrorCode) (again : T (option FileByteSource * ErrorCode))
    : T (option FileByteSource * ErrorCode) :=
  opened ← queue_of (open_source env source);
  if bool_decide (opened.1 = OK) then
    _ ← onSys (total (fun σ => (tt, σ <| opening := tail (opening σ) |> <| held := opened.2 :: held σ |>
           <| queue := getNextSource_opened (queue σ) |>)));
    mret (Some opened.2, status)
  else
    _ ← onSys (total (fun σ => (tt, σ <| opening := tail (opening σ) |>
           <| unreadable := source_close opened.2 :: unreadable σ |>
           <| queue := getNextSource_failed (source_close opened.2) (queue σ) |>)));
    again.

(** [getNextSource]: blocked while the queue is empty and may still grow.  The
    source that is being opened and the one that is sent are local variables of
    the thread. *)
Fixpoint getNextSource (rounds : nat) (resumed : bool) : T (option FileByteSource * ErrorCode) :=
  next ← onSys (total (fun σ =>
    let '(next, q) := (if resumed then getNextSource_resume else getNextSource_enter) (queue σ) in
    match next with
    | TryOpen s _ => (next, σ <| queue := q |> <| opening := s :: opening σ |> <| started := true |>)
    | _ => (next, σ <| queue := q |>)
    end));
  match next with
  | NullSource status => mret (None, status)
  | Wait =>
      match rounds with
      | O => StateMonad.abort
      | S rounds => _ ← wait_notEmpty fuel; getNextSource rounds true
      end
  | TryOpen source status =>
      openNext source status
        match rounds with
        | O => StateMonad.abort
        | S rounds => getNextSource rounds false
        end
  end.

Definition blockConfig : T BlockConfig :=
  version ← getP protocolVersion_;
  t ← getT id;
  mret (mkBlockConfig version (footerType_ t) throttled (enableHeartBeat_ t) (bufSize_ t)).

(** The rest of [sendBlocks]: the block is sent and goes to the history. *)
Definition sendSource (source : FileByteSource) (transferStatus : ErrorCode) : T SenderState :=
  md ← queue_of (fun q => meta q source);
  _ ← wdt_check (negb (hasError md source));
  c ← blockConfig;
  r ← (fun s => let* (stats, source, w) :=
         sendOneByteSource crc32c (disk env) (read_options env) md c source transferStatus (sworld s) in
       Some ((stats, source), s <| sworld := w |>));
  let '(transferStats, source) := r in
  e ← entry;
  added ← onSys (fun σ =>
    let* (b, h, ts, q) := finishBlock source transferStats e.1 e.2 (queue σ) in
    Some (b, σ <| held := tail (held σ) |> <| threads := set_history port_ (h, ts) (threads σ) |> <| queue := q |>));
  if negb added then fail CONN_ERROR END
  else mret (if negb (bool_decide (localErrCode_ transferStats = OK)) then CHECK_FOR_ABORT else SEND_BLOCKS).

Definition sendBlocks : T SenderState :=
  t ← getT id;
  found ← queue_of initFinished_;
  if (RECEIVER_PROGRESS_REPORT_VERSION <=? threadProtocolVersion_ t) && negb (totalSizeSent_ t) && found
  then mret SEND_SIZE_CMD
  else
    next ← getNextSource fuel false;
    match next with
    | (None, _) =>
        c ← blockConfig;
        _ ← onWorld (readHeartBeats c);
        mret SEND_DONE_CMD
    | (Some source, transferStatus) => sendSource source transferStatus
    end.

Definition sendSizeCmd : T SenderState :=
  off ← put_cmd SIZE_CMD;
  total ← queue_of totalFileSize_;
  off ← encode (fun dest off => encodeSize dest off kMaxSize total) off;
  written ← write_buf off;
  if negb (written =? off) then fail SOCKET_WRITE_ERROR CHECK_FOR_ABORT
  else
    _ ← onStats (addHeaderBytes off);
    _ ← modT (fun t => t <| totalSizeSent_ := true |>);
    mret SEND_BLOCKS.

Definition sendDoneCmd : T SenderState :=
  off ← put_cmd DONE_CMD;
  r ← queue_of getNumBlocksAndStatus;
  total ← queue_of totalFileSize_;
  version ← getT threadProtocolVersion_;
  _ ← set_buf (<[Z.to_nat off := wrapU 8 (ErrorCode_value r.2)]>);
  _ ← encode (fun dest off => encodeDone version dest off kMaxDone (mkDoneCmd r.1 total)) (off + 1);
  written ← write_buf kMinBufLength;
  if negb (written =? kMinBufLength) then fail SOCKET_WRITE_ERROR CHECK_FOR_ABORT
  else _ ← onStats (addHeaderBytes kMinBufLength); mret READ_RECEIVER_CMD.

Definition checkForAbort : T SenderState :=
  numRead ← read_at 0 1;
  if negb (numRead =? 1) then mret CONNECT
  else
    cmd ← first_byte;
    if negb (cmd =? ABORT_CMD) then mret CONNECT
    else _ ← onStats (addHeaderBytes 1); mret PROCESS_ABORT_CMD.

(** ** Commands of the receiver *)

(** The loop of [readNextReceiverCmd]: [None] when the send buffer is empty. *)
Fixpoint readCmd_loop (rounds : nat) (numUnackedBytes : Z) : T (option ErrorCode) :=
  numRead ← read_at 0 1;
  if numRead =? 1 then mret (Some OK)
  else
    aborted ← getThreadAbortCode;
    if negb (bool_decide (aborted = OK)) then mret (Some ABORT)
    else if numRead =? 0 then mret (Some SOCKET_READ_ERROR)
    else
      _ ← wdt_check (numRead <? 0);
      errCode ← gets (fun s => cl_getReadErrCode (sworld s));
      if negb (bool_decide (errCode = WDT_TIMEOUT)) then mret (Some SOCKET_READ_ERROR)
      else
        curUnackedBytes ← onWorld cl_getUnackedBytes;
        if (numUnackedBytes <? 0) || (curUnackedBytes <? 0) then mret (Some SOCKET_READ_ERROR)
        else
          _ ← wdt_check (curUnackedBytes <=? numUnackedBytes);
          if curUnackedBytes =? 0 then mret None
          else if curUnackedBytes =? numUnackedBytes then mret (Some SOCKET_READ_ERROR)
          else
            match rounds with
            | O => StateMonad.abort
            | S rounds => readCmd_loop rounds curUnackedBytes
            end.
Definition readNextReceiverCmd : T ErrorCode :=
  numUnackedBytes ← onWorld cl_getUnackedBytes;
  (* the number goes down in every round *)
  r ← readCmd_loop (Z.to_nat numUnackedBytes) numUnackedBytes;
  match r with
  | Some errCode => mret errCode
  | None =>
      r ← onWorld (fun w => let '(n, bs, w) := cl_readWithTimeout 1 w in ((n, bs), w));
      _ ← set_buf (list_inserts 0 r.2);
      mret (if negb (r.1 =? 1) then SOCKET_READ_ERROR else OK)
  end.

Definition readReceiverCmd : T SenderState :=
  errCode ← readNextReceiverCmd;
  if negb (bool_decide (errCode = OK)) then fail errCode CONNECT
  else
    cmd ← first_byte;
    if cmd =? ERR_CMD then mret PROCESS_ERR_CMD
    else if cmd =? WAIT_CMD then mret PROCESS_WAIT_CMD
    else if cmd =? DONE_CMD then mret PROCESS_DONE_CMD
    else if cmd =? ABORT_CMD then mret PROCESS_ABORT_CMD
    else if cmd =? LOCAL_CHECKPOINT_CMD then spuriousCheckpoint READ_RECEIVER_CMD
    else if cmd =? HEART_BEAT_CMD then mret READ_RECEIVER_CMD
    else fail PROTOCOL_ERROR END.

Definition processDoneCmd : T SenderState :=
  _ ← onHistory markAllAcknowledged;
  _ ← put_cmd DONE_CMD;
  _ ← write_buf 1;
  _ ← onWorld (fun w => (tt, cl_shutdownWrites w));
  retCode ← onWorld cl_expectEndOfStream;
  if negb (bool_decide (retCode = OK)) then fail retCode CONNECT else mret END.

Definition processWaitCmd : T SenderState :=
  _ ← onHistory markAllAcknowledged;
  mret READ_RECEIVER_CMD.

Fixpoint handleGlobalCheckpoints (l : list Checkpoint) : T unit :=
  match l with
  | [] => mret tt
  | c :: l =>
      _ ← onSys (fun σ => let* (th, q) := handleGlobalCheckpoint c (threads σ) (queue σ) in
             Some (tt, σ <| threads := th |> <| queue := q |>));
      handleGlobalCheckpoints l
  end.
Definition processErrCmd : T SenderState :=
  _ ← onHistory markAllAcknowledged;
  numRead ← read_at 0 sizeof_int16;
  if negb (numRead =? sizeof_int16) then fail SOCKET_READ_ERROR CONNECT
  else
    checkpointsLen ← getT (fun t => Endian_little sizeof_int16 (loadUnaligned sizeof_int16 (buf_ t)));
    (* an array of that length on the stack *)
    _ ← wdt_check (0 <=? checkpointsLen);
    r ← onWorld (fun w => let '(n, bs, w) := sock_read checkpointsLen true w in ((n, bs), w));
    if negb (r.1 =? checkpointsLen) then fail SOCKET_READ_ERROR CONNECT
    else
      version ← getT threadProtocolVersion_;
      match decodeCheckpoints version r.2 0 checkpointsLen [] with
      | None => StateMonad.abort
      | Some (ok, checkpoints, _) =>
          if negb ok then fail PROTOCOL_ERROR END
          else _ ← handleGlobalCheckpoints checkpoints; mret SEND_BLOCKS
      end.

Definition processAbortCmd : T SenderState :=
  _ ← setError ABORT;
  numRead ← read_at 0 kAbortLength;
  if negb (numRead =? kAbortLength) then mret END
  else
    size ← getT bufSize_;
    r ← decode_at decodeAbort size (mkAbortCmd 0 0 0);
    match r with
    | None => StateMonad.abort
    | Some c =>
        match ErrorCode_of_byte (ab_errCode c) with
        | None => StateMonad.abort
        | Some remoteError =>
            _ ← onStats (setRemoteErrorCode remoteError);
            _ ← sender_abort remoteError;
            if bool_decide (remoteError = VERSION_MISMATCH) then
              version ← getT threadProtocolVersion_;
              if negotiateProtocol (ab_protocolVersion c) version =? ab_protocolVersion c then
                _ ← modP (fun p => p <| negotiatedProtocols_ :=
                       <[threadIndex := ab_protocolVersion c]> (negotiatedProtocols_ p) |>);
                mret PROCESS_VERSION_MISMATCH
              else _ ← onStats (setRemoteErrorCode VERSION_INCOMPATIBLE); mret END
            else mret END
        end
    end.

(** ** Version mismatch *)

Definition setFooterType : T unit :=
  version ← getP protocolVersion_;
  modT (fun t => t <| footerType_ :=
    if (CHECKSUM_VERSION <=? version) && so_enable_checksum o then CHECKSUM_FOOTER else NO_FOOTER |>).

(** [barrier->execute()] *)
Fixpoint barrier_wait (rounds : nat) : T unit :=
  b ← getP (fun p => getBarrier VERSION_MISMATCH_BARRIER (controller_ p));
  match b with
  | None => StateMonad.abort
  | Some b =>
      if Barrier_awakened b then mret tt
      else
        match rounds with
        | O => StateMonad.abort
        | S rounds => _ ← peers; barrier_wait rounds
        end
  end.
Definition barrier_execute : T unit :=
  complete ← onController (fun c =>
    let* b := getBarrier VERSION_MISMATCH_BARRIER c in
    let* (complete, b) := Barrier_execute b in
    Some (complete, c <| barriers_ := <[VERSION_MISMATCH_BARRIER := b]> (barriers_ c) |>));
  if complete : bool then mret tt else barrier_wait fuel.

Definition onFunnel {A} (f : FunnelStatus -> A * FunnelStatus) : T A := onController (fun c =>
  let* s := getFunnel VERSION_MISMATCH_FUNNEL c in
  let '(a, s) := f s in
  Some (a, c <| funnelExecutors_ := <[VERSION_MISMATCH_FUNNEL := s]> (funnelExecutors_ c) |>)).
Definition funnelSuccess : T unit := onFunnel (fun s => (tt, notifySuccess s)).

(** The version all threads that have negotiated one agree on, 0 if none has. *)
Fixpoint agreedProtocol (l : list Z) (negotiatedProtocol : Z) : option Z :=
  match l with
  | [] => Some negotiatedProtocol
  | v :: l =>
      if 0 <? v then
        if (0 <? negotiatedProtocol) && negb (negotiatedProtocol =? v) then None else agreedProtocol l v
      else agreedProtocol l negotiatedProtocol
  end.

(** The thread that starts the funnel. *)
Definition resolveMismatch : T SenderState :=
  _ ← modP (fun p => p <| protoNegotiationStatus_ := V_MISMATCH_FAILED |>);
  code ← onSys (fun σ => let* (code, th, q) := handleVersionMismatch (threads σ) (queue σ) in
           Some (code, σ <| threads := th |> <| queue := q |>));
  if negb (bool_decide (code = OK)) then _ ← funnelSuccess; mret END
  else
    versions ← getP negotiatedProtocols_;
    match agreedProtocol versions 0 with
    | None => _ ← funnelSuccess; mret END
    | Some negotiatedProtocol =>
        _ ← wdt_check (0 <? negotiatedProtocol);
        _ ← modP (fun p => p <| protocolVersion_ := negotiatedProtocol |>);
        _ ← modT (fun t => t <| threadProtocolVersion_ := negotiatedProtocol |>);
        _ ← setFooterType;
        _ ← onStats (setRemoteErrorCode OK);
        _ ← modP (fun p => p <| protoNegotiationStatus_ := V_MISMATCH_RESOLVED |>);
        _ ← clearAbort;
        _ ← funnelSuccess;
        mret CONNECT
    end.
Fixpoint mismatch_loop (rounds : nat) : T SenderState :=
  status ← onFunnel getStatus;
  match status with
  | FUNNEL_START => resolveMismatch
  | FUNNEL_PROGRESS =>
      match rounds with
      | O => StateMonad.abort
      | S rounds => _ ← peers; mismatch_loop rounds
      end
  | FUNNEL_END =>
      negotiationStatus ← getP protoNegotiationStatus_;
      match negotiationStatus with
      | V_MISMATCH_WAIT => StateMonad.abort
      | V_MISMATCH_FAILED => mret END
      | V_MISMATCH_RESOLVED =>
          version ← getP protocolVersion_;
          _ ← modT (fun t => t <| threadProtocolVersion_ := version |>);
          _ ← onStats (setRemoteErrorCode OK);
          mret CONNECT
      end
  end.
Definition processVersionMismatch : T SenderState :=
  err ← localError;
  _ ← wdt_check (bool_decide (err = ABORT));
  negotiationStatus ← getP protoNegotiationStatus_;
  _ ← wdt_check (negb (bool_decide (negotiationStatus = V_MISMATCH_FAILED)));
  if bool_decide (negotiationStatus = V_MISMATCH_RESOLVED) then mret END
  else _ ← barrier_execute; mismatch_loop fuel.

(** ** The machine *)

Definition handler (state : SenderState) : T SenderState :=
  match state with
  | CONNECT => connect
  | READ_LOCAL_CHECKPOINT => readLocalCheckPoint
  | SEND_SETTINGS => sendSettings
  | SEND_BLOCKS => sendBlocks
  | SEND_DONE_CMD => sendDoneCmd
  | SEND_SIZE_CMD => sendSizeCmd
  | CHECK_FOR_ABORT => checkForAbort
  | READ_FILE_CHUNKS => readFileChunks
  | READ_RECEIVER_CMD => readReceiverCmd
  | PROCESS_DONE_CMD => processDoneCmd
  | PROCESS_WAIT_CMD => processWaitCmd
  | PROCESS_ERR_CMD => processErrCmd
  | PROCESS_ABORT_CMD => processAbortCmd
  | PROCESS_VERSION_MISMATCH => processVersionMismatch
  | END => StateMonad.abort
  end.

(** A round of the loop of [start]: the next state, or the end of the loop. *)
Definition round (state : SenderState) : T (option SenderState) :=
  abortCode ← getThreadAbortCode;
  if negb (bool_decide (abortCode = OK)) then
    _ ← setError ABORT;
    if bool_decide (abortCode = VERSION_MISMATCH) then next ← handler PROCESS_VERSION_MISMATCH; mret (Some next)
    else mret None
  else next ← handler state; mret (Some next).
Fixpoint run (rounds : nat) (state : SenderState) : T unit :=
  if bool_decide (state = END) then mret tt
  else
    match rounds with
    | O => StateMonad.abort
    | S rounds =>
        next ← round state;
        match next with None => mret tt | Some next => run rounds next end
    end.
Definition start (rounds : nat) : T unit :=
  _ ← setFooterType;
  _ ← onController (fun c => let* (e, _) := execute id (execAtStart_ c) tt in Some (tt, c <| execAtStart_ := e |>));
  _ ← run rounds CONNECT;
  have ← getT socket_;
  encryption ← gets (fun s => if have : bool then cl_encryptionType (sworld s) else 0);
  _ ← onStats (fun ts => setEncryptionType encryption (setTls tls ts));
  _ ← onHistory markNotInUse;
  _ ← onController (fun c => let* c := deRegisterThread (Z.of_nat threadIndex) c in Some (tt, c));
  _ ← onController (fun c => let* (e, _) := execute id (execAtEnd_ c) tt in Some (tt, c <| execAtEnd_ := e |>));
  modT (fun t => t <| socket_ := false |>).
End sender.
