(* ===== verification/SenderMachine.v ===== *)
(** The state machine of a sender thread: which states follow which, the error
    code of the thread in each, and how a thread can end without an error. *)
From stdpp Require Import gmap.
From S2P Require Import Prelude ByteSource Serialization ErrorCodes StateMonad Protocol Reporting SourceQueue.
From S2P Require Import History Transfer Socket SendBlock ThreadsController Transitions SenderThread.

(** ** Specification *)

(** The error code a thread can have when it enters a state. *)
Definition entered (state : SenderState) (e : ErrorCode) : Prop :=
  match state with
  | CONNECT | CHECK_FOR_ABORT => e <> OK
  | PROCESS_ABORT_CMD | END => True
  | PROCESS_VERSION_MISMATCH => e = ABORT
  | _ => e = OK
  end.

(** The states a handler can go to; after the first connection [CONNECT] is
    entered with an error. *)
Definition successors (state : SenderState) (e : ErrorCode) : list SenderState :=
  match state with
  | CONNECT =>
      [if bool_decide (e = OK) then SEND_SETTINGS else READ_LOCAL_CHECKPOINT; PROCESS_VERSION_MISMATCH; END]
  | READ_LOCAL_CHECKPOINT => [SEND_SETTINGS; READ_RECEIVER_CMD; CONNECT; END]
  | SEND_SETTINGS => [READ_FILE_CHUNKS; SEND_BLOCKS; CONNECT]
  | SEND_BLOCKS => [SEND_BLOCKS; SEND_SIZE_CMD; SEND_DONE_CMD; CHECK_FOR_ABORT; END]
  | SEND_DONE_CMD => [READ_RECEIVER_CMD; CHECK_FOR_ABORT]
  | SEND_SIZE_CMD => [SEND_BLOCKS; CHECK_FOR_ABORT]
  | CHECK_FOR_ABORT => [CONNECT; PROCESS_ABORT_CMD]
  | READ_FILE_CHUNKS => [READ_FILE_CHUNKS; SEND_BLOCKS; CHECK_FOR_ABORT; PROCESS_ABORT_CMD; CONNECT; END]
  | READ_RECEIVER_CMD =>
      [READ_RECEIVER_CMD; PROCESS_DONE_CMD; PROCESS_WAIT_CMD; PROCESS_ERR_CMD; PROCESS_ABORT_CMD; CONNECT; END]
  | PROCESS_DONE_CMD => [END; CONNECT]
  | PROCESS_WAIT_CMD => [READ_RECEIVER_CMD]
  | PROCESS_ERR_CMD => [SEND_BLOCKS; CONNECT; END]
  | PROCESS_ABORT_CMD => [PROCESS_VERSION_MISMATCH; END]
  | PROCESS_VERSION_MISMATCH => [CONNECT; END]
  | END => []
  end.

(** [next] is a successor of [state], may be entered with the code, and is not
    the end of a thread without an error that was not told so. *)
Definition follows (state : SenderState) (e : ErrorCode) (next : SenderState) (e' : ErrorCode) : Prop :=
  next ∈ successors state e /\ entered next e' /\ (next = END -> e' = OK -> state = PROCESS_DONE_CMD).

(** The error code of the thread with the port. *)
Definition error_of (port : Z) (σ : Sys) : option ErrorCode :=
  (fun e => localErrCode_ e.2) <$> find_history port (threads σ).
(** A function of the shared state of [Transfer]. *)
Definition on {W E} (g : Sys -> E) (s : SState W) : E := g (sys_ (sender s)).
Abbreviation code port := (on (error_of port)).

(** What a thread that is blocked relies on: the others leave its error code
    alone. *)
Class SenderPeersKeep (port : Z) `{SenderPeers} : Prop :=
  peers_keep p : error_of port (sys_ (sender_peers p)) = error_of port (sys_ p).

(** ** Histories by port *)

Lemma find_set_history p p' v ths :
  find_history p (set_history p' v ths)
  = if decide (p' = p) then (fun _ => v) <$> find_history p ths else find_history p ths.
Proof.
  unfold find_history, set_history, Controller in *. induction ths as [|[p0 v0] ths IH]; [by case_decide|].
  rewrite fmap_cons, !filter_cons. cbn [fst snd]. destruct (p0 =? p') eqn:E; bool_to_prop; cbn [fst]; subst.
  - destruct (decide (p' = p)); [done|]. done.
  - destruct (decide (p0 = p)) as [->|]; [|done]. by destruct (decide (p' = p)).
Qed.
Lemma error_of_set p p' h ts σ :
  error_of p (σ <| threads := set_history p' (h, ts) (threads σ) |>)
  = if decide (p' = p) then (fun _ => localErrCode_ ts) <$> error_of p σ else error_of p σ.
Proof.
  unfold error_of. simpl. rewrite find_set_history. case_decide; [|done]. by destruct (find_history p (threads σ)).
Qed.
Lemma error_of_threads p σ σ' : threads σ' = threads σ -> error_of p σ' = error_of p σ.
Proof. unfold error_of. by intros ->. Qed.

(** Failing sources leaves the error code of their thread alone. *)
Lemma mark_error md c s ts s' ts' : markSourceAsFailed md c s ts = (s', ts') -> localErrCode_ ts' = localErrCode_ ts.
Proof. unfold markSourceAsFailed. intros E. by repeat case_hyp E; simplify_eq. Qed.

Section errors.
Context {Q : Type} `{SourceReturn Q}.
Implicit Types (q : Q).

Lemma failSources_error n q c hist acc ts hist' acc' ts' :
  failSources n q c hist acc ts = Some (hist', acc', ts') -> localErrCode_ ts' = localErrCode_ ts.
Proof.
  revert hist acc ts. induction n as [|n IH]; intros hist acc ts; cbn [failSources]; [by intros [= <- <- <-]|].
  destruct (pop_back hist) as [[s hist1]|]; [|done]. cbn [mbind option_bind].
  destruct (markSourceAsFailed _ _ _ _) as [s1 ts1] eqn:Em. intros E. apply IH in E. by rewrite E, (mark_error _ _ _ _ _ _ Em).
Qed.
Lemma setCheckpoint_error c g h ts q err h' ts' q' :
  setCheckpointAndReturnToQueue c g h ts q = Some (err, h', ts', q') -> localErrCode_ ts' = localErrCode_ ts.
Proof.
  unfold setCheckpointAndReturnToQueue. destruct (_ <? _); [by intros [= <- <- <- <-]|].
  destruct (validateCheckpoint _ _ _) as [e|]; [|done]. cbn [mbind option_bind].
  case_bool_decide; [by intros [= <- <- <- <-]|].
  destruct (failSources _ _ _ _ _ _) as [[[hist acc] ts1]|] eqn:Ef; [|done]. cbn [mbind option_bind].
  apply failSources_error in Ef. destruct (give_back acc q); [|done]. by intros [= <- <- <- <-].
Qed.
Lemma addSource_error s h ts q b h' ts' q' : addSource s h ts q = Some (b, h', ts', q') -> localErrCode_ ts' = localErrCode_ ts.
Proof.
  unfold addSource. destruct (globalCheckpoint_ h); [|by intros [= <- <- <- <-]].
  destruct (markSourceAsFailed _ _ _ _) as [s1 ts1] eqn:Em. apply mark_error in Em.
  destruct (give_back _ _); [|done]. by intros [= <- <- <- <-].
Qed.
Lemma handleGlobalCheckpoint_error p c ths q ths' q' :
  handleGlobalCheckpoint c ths q = Some (ths', q') ->
  (fun e => localErrCode_ e.2) <$> find_history p ths' = (fun e => localErrCode_ e.2) <$> find_history p ths.
Proof.
  unfold handleGlobalCheckpoint. destruct (find_history _ ths) as [[h ts]|] eqn:Ef; [|by intros [= <- <-]].
  destruct (setGlobalCheckpoint c h ts q) as [[[[err h'] ts'] q1]|] eqn:E; [|done]. intros [= <- <-].
  apply setCheckpoint_error in E. rewrite find_set_history. case_decide; [|done]. subst p. rewrite Ef. simpl. by rewrite E.
Qed.
Lemma handleVersionMismatch_error p ths q err ths' q' :
  handleVersionMismatch ths q = Some (err, ths', q') ->
  (fun e => localErrCode_ e.2) <$> find_history p ths' = (fun e => localErrCode_ e.2) <$> find_history p ths.
Proof.
  revert q err ths' q'. induction ths as [|[p0 [h ts]] ths IH]; intros q err ths' q'; cbn [handleVersionMismatch];
    [by intros [= <- <- <-]|].
  destruct (0 <? _); [by intros [= <- <- <-]|]. unfold returnUnackedSourcesToQueue.
  destruct (setCheckpointAndReturnToQueue _ _ _ _ _) as [[[[e h1] ts1] q1]|] eqn:E; [|done]. cbn [mbind option_bind].
  apply setCheckpoint_error in E. destruct (handleVersionMismatch ths q1) as [[[e2 ths2] q2]|] eqn:Er; [|done].
  intros [= <- <- <-]. apply IH in Er. unfold find_history, Controller in *. rewrite !filter_cons. cbn [fst].
  destruct (decide (p0 = p)); [|done]. simpl. by rewrite E.
Qed.
End errors.

(** ** Operations that leave the shared state of [Transfer] alone *)

Section keeping.
Context `{Host} {W : Type} `{Socket W} `{ClientSocket W} `{SenderPeers}.
Context (env : Env) (o : SenderOptions) (crc32c : list Z -> Z -> Z) (throttled : bool).
Context (threadIndex : nat) (port_ : Z) (fuel : nat) {E : Type} (g : Sys -> E).
Abbreviation keeps := (Transitions.keeps (on (W := W) g)).

Lemma s_keeps_modT f : keeps (modT f).
Proof. by intros s. Qed.
Lemma keeps_modP f : (forall p, sys_ (f p) = sys_ p) -> keeps (modP f).
Proof. intros Hf s. exact (f_equal g (Hf _)). Qed.
Lemma s_keeps_onWorld {A} (f : W -> A * W) : keeps (onWorld f).
Proof. by apply keeps_zoom. Qed.
Lemma s_keeps_onController {A} (m : M ThreadsController A) : keeps (onController m).
Proof. by apply keeps_zoom. Qed.
Lemma keeps_entry : keeps (entry port_).
Proof. intros s. unfold wlp, entry. by destruct (find_history _ _). Qed.
Lemma keeps_encode enc off : keeps (encode enc off).
Proof. intros s. unfold wlp, encode. by destruct (enc _ _) as [[[ok buf] off']|]. Qed.
Lemma s_keeps_decode {A} (d : list Z -> Z -> Z -> A -> option (bool * A * Z)) max dflt : keeps (decode_at d max dflt).
Proof. intros s. unfold wlp, decode_at. by destruct (d _ _ _ _) as [[[ok a] off]|]. Qed.
End keeping.

#[global] Hint Resolve s_keeps_modT s_keeps_onWorld s_keeps_onController keeps_entry keeps_encode s_keeps_decode : keeps.
#[global] Hint Extern 1 (Transitions.keeps _ (modP _)) => (apply keeps_modP; intros ?; first [done | by case_match]) : keeps.

Section keeping_more.
Context `{Host} {W : Type} `{Socket W} `{ClientSocket W} `{SenderPeers}.
Context (env : Env) (o : SenderOptions) (crc32c : list Z -> Z -> Z) (throttled : bool).
Context (threadIndex : nat) (port_ : Z) (fuel : nat) {E : Type} (g : Sys -> E).
Abbreviation keeps := (Transitions.keeps (on (W := W) g)).

Lemma s_keeps_getT {A} (f : SenderThread -> A) : keeps (getT f).
Proof. apply keeps_gets. Qed.
Lemma keeps_getP {A} (f : Sender -> A) : keeps (getP f).
Proof. apply keeps_gets. Qed.
Lemma keeps_queue_of {A} (f : DirectorySourceQueue -> A) : keeps (queue_of f).
Proof. apply keeps_gets. Qed.
Lemma s_keeps_set_buf f : keeps (set_buf f).
Proof. apply s_keeps_modT. Qed.
Lemma keeps_first_byte : keeps first_byte.
Proof. apply keeps_gets. Qed.
#[local] Hint Resolve s_keeps_getT keeps_getP keeps_queue_of s_keeps_set_buf keeps_first_byte : keeps.
Lemma s_keeps_read_at pos n : keeps (read_at pos n).
Proof. unfold read_at. keeps. Qed.
Lemma s_keeps_write_buf n : keeps (write_buf n).
Proof. unfold write_buf. keeps. Qed.
Lemma keeps_put_cmd c : keeps (put_cmd c).
Proof. unfold put_cmd. keeps. Qed.
Lemma keeps_getCurAbortCode : keeps getCurAbortCode.
Proof. unfold getCurAbortCode. keeps. Qed.
#[local] Hint Resolve s_keeps_read_at s_keeps_write_buf keeps_put_cmd keeps_getCurAbortCode : keeps.
Lemma keeps_getThreadAbortCode : keeps (getThreadAbortCode port_).
Proof. unfold getThreadAbortCode. keeps. Qed.
#[local] Hint Resolve keeps_getThreadAbortCode : keeps.
Lemma keeps_sender_abort e : keeps (sender_abort e).
Proof. unfold sender_abort. keeps. Qed.
Lemma keeps_clearAbort : keeps clearAbort.
Proof. unfold clearAbort. keeps. Qed.
Lemma keeps_connect_tries n e : keeps (connect_tries port_ n e).
Proof. revert e. induction n as [|n IH]; intros e; cbn [connect_tries]; keeps. Qed.
#[local] Hint Resolve keeps_sender_abort keeps_clearAbort keeps_connect_tries : keeps.
Lemma keeps_connectToReceiver : keeps (connectToReceiver o port_).
Proof. unfold connectToReceiver. keeps. Qed.
Lemma keeps_closeSocket : keeps closeSocket.
Proof. unfold closeSocket. keeps. Qed.
Lemma keeps_isSendFileChunks : keeps isSendFileChunks.
Proof. apply keeps_getP. Qed.
Lemma keeps_blockConfig : keeps (blockConfig throttled).
Proof. unfold blockConfig. keeps. Qed.
Lemma keeps_readCmd_loop n k : keeps (readCmd_loop port_ n k).
Proof. revert k. induction n as [|n IH]; intros k; cbn [readCmd_loop]; keeps. Qed.
#[local] Hint Resolve keeps_connectToReceiver keeps_closeSocket keeps_isSendFileChunks keeps_blockConfig keeps_readCmd_loop : keeps.
Lemma keeps_readNextReceiverCmd : keeps (readNextReceiverCmd port_).
Proof. unfold readNextReceiverCmd. keeps. Qed.
Lemma keeps_setFooterType : keeps (setFooterType o).
Proof. unfold setFooterType. keeps. Qed.
Lemma s_keeps_onFunnel {A} (f : FunnelStatus -> A * FunnelStatus) : keeps (onFunnel f).
Proof. apply s_keeps_onController. Qed.
Lemma s_keeps_funnelSuccess : keeps funnelSuccess.
Proof. apply s_keeps_onFunnel. Qed.
End keeping_more.

#[global] Hint Resolve s_keeps_getT keeps_getP keeps_queue_of s_keeps_set_buf keeps_first_byte s_keeps_read_at s_keeps_write_buf keeps_put_cmd keeps_getCurAbortCode keeps_getThreadAbortCode keeps_sender_abort keeps_clearAbort keeps_connect_tries keeps_connectToReceiver keeps_closeSocket keeps_isSendFileChunks keeps_blockConfig keeps_readCmd_loop keeps_readNextReceiverCmd keeps_setFooterType s_keeps_onFunnel s_keeps_funnelSuccess : keeps.

(** ** Operations that keep the error code *)

Section machine.
Context `{Host} {W : Type} `{Socket W} `{ClientSocket W} `{SenderPeers}.
Context (env : Env) (o : SenderOptions) (crc32c : list Z -> Z -> Z) (throttled : bool).
Context (threadIndex : nat) (port_ : Z) `{!SenderPeersKeep port_} (fuel : nat).
Abbreviation keeps := (Transitions.keeps (on (W := W) (error_of port_))).

Lemma keeps_onSys {A} (m : M Sys A) :
  (forall σ, wlp m (fun _ σ' => error_of port_ σ' = error_of port_ σ) σ) -> keeps (onSys m).
Proof. intros Hm s. apply wlp_zoom. apply Hm. Qed.
Lemma s_keeps_peers : keeps peers.
Proof. intros s. apply peers_keep. Qed.
Lemma wlp_entry Q s :
  wlp (entry port_) Q s <-> forall e, find_history port_ (threads (sys_ (sender (W := W) s))) = Some e -> Q e s.
Proof. unfold wlp, entry. destruct (find_history _ _); naive_solver. Qed.
(** The entry of the thread is written back after it was read. *)
Lemma keeps_update (f : ThreadTransferHistory * TransferStats -> ThreadTransferHistory * TransferStats) :
  (forall e, localErrCode_ (f e).2 = localErrCode_ e.2) -> keeps (e ← entry port_; setEntry port_ (f e)).
Proof.
  intros Hf s. unfold wlp. cbv beta delta [mbind M_bind entry]. destruct (find_history _ _) as [e|] eqn:Ef; [|done]. simpl.
  specialize (Hf e). destruct (f e) as [h ts]. unfold on. simpl.
  rewrite error_of_set, decide_True by done. unfold error_of. rewrite Ef. simpl in *. by rewrite Hf.
Qed.
Lemma s_keeps_onStats f : (forall ts, localErrCode_ (f ts) = localErrCode_ ts) -> keeps (onStats port_ f).
Proof. intros Hf. apply (keeps_update (fun e => (e.1, f e.2))). intros e. apply Hf. Qed.
Lemma keeps_onHistory f : keeps (onHistory port_ f).
Proof. by apply (keeps_update (fun e => (f e.1, e.2))). Qed.
End machine.

#[global] Hint Resolve s_keeps_peers keeps_onHistory : keeps.
#[global] Hint Extern 1 (Transitions.keeps _ (onStats _ _)) => (apply s_keeps_onStats; done) : keeps.

Section operations.
Context `{Host} {W : Type} `{Socket W} `{ClientSocket W} `{SenderPeers}.
Context (env : Env) (o : SenderOptions) (crc32c : list Z -> Z -> Z) (throttled : bool).
Context (threadIndex : nat) (port_ : Z) `{!SenderPeersKeep port_} (fuel : nat).
Abbreviation keeps := (Transitions.keeps (on (W := W) (error_of port_))).

Lemma keeps_setFileChunksInfo infos : keeps (setFileChunksInfo infos).
Proof.
  unfold setFileChunksInfo. keeps. apply keeps_onSys. intros σ. unfold wlp. by destruct (setPreviouslyReceivedChunks _ _).
Qed.
Lemma keeps_wait_notEmpty n : keeps (wait_notEmpty n).
Proof. induction n as [|n IH]; cbn [wait_notEmpty]; keeps. Qed.
#[local] Hint Resolve keeps_wait_notEmpty : keeps.
Lemma keeps_getNextSource n resumed : keeps (getNextSource env fuel n resumed).
Proof.
  revert resumed. induction n as [|n IH]; intros resumed; cbn [getNextSource]; unfold openNext; keeps.
  all: apply keeps_onSys; intros σ; apply wlp_total; simpl; try done.
  all: apply error_of_threads; by destruct resumed; destruct (_ (queue σ)) as [[]].
Qed.
Lemma keeps_setCheckpoint c : keeps (setCheckpoint port_ c).
Proof.
  intros s. unfold wlp. cbv beta delta [setCheckpoint mbind M_bind entry].
  destruct (find_history _ _) as [e|] eqn:Ef; [|done]. simpl. unfold onSys, zoom. simpl.
  destruct (setLocalCheckpoint _ _ _ _) as [[[[err h] ts] q]|] eqn:E; [|done]. simpl. unfold on. simpl.
  apply setCheckpoint_error in E. unfold error_of. simpl. rewrite find_set_history, decide_True, Ef by done. simpl. by rewrite E.
Qed.
Lemma keeps_handleGlobalCheckpoints l : keeps (handleGlobalCheckpoints l).
Proof.
  induction l as [|c l IH]; cbn [handleGlobalCheckpoints]; keeps. apply keeps_onSys. intros σ. unfold wlp.
  destruct (handleGlobalCheckpoint _ _ _) as [[th q]|] eqn:E; [|done]. by apply (handleGlobalCheckpoint_error port_) in E.
Qed.
Lemma keeps_barrier_wait n : keeps (barrier_wait n).
Proof. induction n as [|n IH]; cbn [barrier_wait]; keeps. Qed.
#[local] Hint Resolve keeps_barrier_wait : keeps.
Lemma keeps_barrier_execute : keeps (barrier_execute fuel).
Proof. unfold barrier_execute. keeps. Qed.
Lemma keeps_handleVersionMismatch :
  keeps (onSys (fun σ => let* (code, th, q) := handleVersionMismatch (threads σ) (queue σ) in
           Some (code, σ <| threads := th |> <| queue := q |>))).
Proof.
  apply keeps_onSys. intros σ. unfold wlp.
  destruct (handleVersionMismatch _ _) as [[[e th] q]|] eqn:E; [|done]. by apply (handleVersionMismatch_error port_) in E.
Qed.
End operations.

#[global] Hint Resolve keeps_setFileChunksInfo keeps_getNextSource keeps_setCheckpoint keeps_handleGlobalCheckpoints
  keeps_barrier_execute keeps_handleVersionMismatch : keeps.

(** ** Transitions *)

Section transitions.
Context `{Host} {W : Type} `{Socket W} `{ClientSocket W} `{SenderPeers}.
Context (env : Env) (o : SenderOptions) (crc32c : list Z -> Z -> Z) (throttled : bool).
Context (threadIndex : nat) (port_ : Z) `{!SenderPeersKeep port_} (fuel : nat).
Abbreviation St := (SState W).
Abbreviation T := (M St).
Abbreviation keeps := (Transitions.keeps (on (W := W) (error_of port_))).
Abbreviation goes := (Transitions.goes (on (W := W) (error_of port_))).

(** The thread has an entry in the controller and the code in it is related. *)
Definition lifted {A} (P : A -> ErrorCode -> Prop) (a : A) (e : option ErrorCode) : Prop :=
  from_option (P a) False e.

Lemma setError_goes e e' : goes (fun _ e'' => e'' = Some e') (Some e) (setError port_ e').
Proof.
  intros s Hs. unfold wlp. cbv beta delta [setError onStats mbind M_bind entry].
  unfold on, error_of in *. destruct (find_history _ _) as [[h ts]|] eqn:Ef; [|done]. simpl in *.
  by rewrite find_set_history, decide_True, Ef by done.
Qed.
Lemma s_goes_setError {B} (Q : B -> option ErrorCode -> Prop) e e' (k : unit -> T B) :
  goes Q (Some e') (k tt) -> goes Q (Some e) (mbind k (setError port_ e')).
Proof. intros Hk. eapply goes_bind; [apply setError_goes|]. by intros [] e'' ->. Qed.
Lemma s_goes_fail (P : SenderState -> option ErrorCode -> Prop) e e' next :
  P next (Some e') -> goes P (Some e) (fail port_ e' next).
Proof. intros Hp. by apply s_goes_setError, goes_ret. Qed.
Lemma s_goes_fail_bind {B} (Q : B -> option ErrorCode -> Prop) e e' next (k : SenderState -> T B) :
  goes Q (Some e') (k next) -> goes Q (Some e) (mbind k (fail port_ e' next)).
Proof.
  intros Hk. apply (goes_bind (fun n e'' => n = next /\ e'' = Some e')); [by apply s_goes_fail|]. by intros a e'' [-> ->].
Qed.
Lemma goes_localError {B} (Q : B -> option ErrorCode -> Prop) e (k : ErrorCode -> T B) :
  goes Q (Some e) (k e) -> goes Q (Some e) (mbind k (localError port_)).
Proof.
  intros Hk s Hs. apply wlp_bind. unfold wlp at 1. cbv beta delta [localError mbind M_bind entry].
  pose proof Hs as Hs'. unfold on, error_of in Hs'. destruct (find_history _ _) as [e0|]; [|done].
  injection Hs' as <-. by apply Hk.
Qed.
Lemma goes_check_bind {B} (Q : B -> option ErrorCode -> Prop) e b (k : unit -> T B) :
  (b = true -> goes Q e (k tt)) -> goes Q e (mbind k (wdt_check b)).
Proof. intros Hk s Hs. apply wlp_bind, wlp_check. intros Hb. by apply Hk. Qed.

Abbreviation follows' state e := (lifted (follows state e)).

Ltac goes_side := first [ exact I | done | split; [cbn; rewrite ?bool_decide_eq_true_2, ?bool_decide_eq_false_2 by done; set_solver | split; [cbn; first [done | congruence] | cbn; first [done | congruence]]] ].
Ltac goes_step :=
  lazymatch goal with
  | |- Transitions.goes _ _ _ StateMonad.abort => apply goes_abort
  | |- Transitions.goes _ _ _ (fail _ _ _) => apply s_goes_fail; goes_side
  | |- Transitions.goes _ _ _ (mret _) => first [apply goes_ret; goes_side | case_goal; bool_to_prop]
  | |- Transitions.goes _ _ _ (mbind _ (mbind _ _)) => apply goes_assoc
  | |- Transitions.goes _ _ _ (mbind _ (localError _)) => apply goes_localError
  | |- Transitions.goes _ _ _ (mbind _ (setError _ _)) => apply s_goes_setError
  | |- Transitions.goes _ _ _ (mbind _ (fail _ _ _)) => apply s_goes_fail_bind
  | |- Transitions.goes _ _ _ (mbind _ (wdt_check _)) => apply goes_check_bind; intros ?; bool_to_prop
  | |- Transitions.goes _ _ _ (mbind _ _) => apply goes_keeps; [solve [keeps] | intros ?]
  | |- _ => case_goal; bool_to_prop
  end.
Ltac goes := repeat goes_step.

Lemma connect_follows e : goes (follows' CONNECT e) (Some e) (connect o port_).
Proof. unfold connect, reset. goes. Qed.
Lemma readLocalCheckPoint_follows : goes (follows' READ_LOCAL_CHECKPOINT OK) (Some OK) (readLocalCheckPoint port_).
Proof. unfold readLocalCheckPoint. goes. Qed.
Lemma sendSettings_follows : goes (follows' SEND_SETTINGS OK) (Some OK) (sendSettings o port_).
Proof. unfold sendSettings. goes. Qed.
Lemma sendSizeCmd_follows : goes (follows' SEND_SIZE_CMD OK) (Some OK) (sendSizeCmd port_).
Proof. unfold sendSizeCmd. goes. Qed.
Lemma s_sendDoneCmd_follows : goes (follows' SEND_DONE_CMD OK) (Some OK) (sendDoneCmd port_).
Proof. unfold sendDoneCmd. goes. Qed.
Lemma checkForAbort_follows e : e <> OK -> goes (follows' CHECK_FOR_ABORT e) (Some e) (checkForAbort port_).
Proof. intros He. unfold checkForAbort. goes. Qed.
Lemma s_processDoneCmd_follows : goes (follows' PROCESS_DONE_CMD OK) (Some OK) (processDoneCmd port_).
Proof. unfold processDoneCmd. goes. Qed.
Lemma processWaitCmd_follows : goes (follows' PROCESS_WAIT_CMD OK) (Some OK) (processWaitCmd port_).
Proof. unfold processWaitCmd. goes. Qed.
Lemma processErrCmd_follows : goes (follows' PROCESS_ERR_CMD OK) (Some OK) (processErrCmd port_).
Proof. unfold processErrCmd. goes. Qed.
Lemma processAbortCmd_follows e : goes (follows' PROCESS_ABORT_CMD e) (Some e) (processAbortCmd threadIndex port_).
Proof. unfold processAbortCmd. goes. Qed.

(** A spurious checkpoint: the code of the thread is what the reader returns. *)
Lemma readAndVerify_goes : goes (fun r e => e = Some r) (Some OK) (readAndVerifySpuriousCheckpoint port_).
Proof. unfold readAndVerifySpuriousCheckpoint. goes. Qed.
Lemma spurious_follows state : state ∈ [READ_FILE_CHUNKS; READ_RECEIVER_CMD] ->
  goes (follows' state OK) (Some OK) (spuriousCheckpoint port_ state).
Proof.
  intros Hst. unfold spuriousCheckpoint. eapply goes_bind; [apply readAndVerify_goes|]. intros r e' ->.
  rewrite !elem_of_cons in Hst. destruct Hst as [->|[->|Hn]]; [..|by apply not_elem_of_nil in Hn]; goes; subst; goes_side.
Qed.
Lemma readReceiverCmd_follows : goes (follows' READ_RECEIVER_CMD OK) (Some OK) (readReceiverCmd port_).
Proof. unfold readReceiverCmd. goes. apply spurious_follows. set_solver. Qed.

Lemma readChunks_loop_goes n size numFiles infos :
  goes (fun r e => match r with inl next => follows' READ_FILE_CHUNKS OK next e | inr _ => e = Some OK end) (Some OK)
    (readChunks_loop port_ n size numFiles infos).
Proof. revert infos. induction n as [|n IH]; intros infos; cbn [readChunks_loop]; goes. apply IH. Qed.
Lemma readChunks_follows : goes (follows' READ_FILE_CHUNKS OK) (Some OK) (readChunks port_ fuel).
Proof.
  unfold readChunks. goes. eapply goes_bind; [apply readChunks_loop_goes|]. intros [next|infos] e' He.
  - by apply goes_ret.
  - subst e'. goes.
Qed.
Lemma readFileChunks_follows : goes (follows' READ_FILE_CHUNKS OK) (Some OK) (readFileChunks port_ fuel).
Proof. unfold readFileChunks. goes; [apply spurious_follows; set_solver|apply readChunks_follows]. Qed.

(** The end of a block: the code of the thread is that of the block. *)
Lemma finishBlock_error source stats h ts q b h' ts' q' :
  localErrCode_ ts = OK -> numBlocksSend_ stats = -1 -> totalSenderBytes_ stats = -1 ->
  finishBlock source stats h ts q = Some (b, h', ts', q') -> localErrCode_ ts' = localErrCode_ stats.
Proof.
  intros Hok Hn Ht E. unfold finishBlock in E. apply addSource_error in E. rewrite E, addStats_local, Hok by done.
  by destruct (localErrCode_ stats).
Qed.
Lemma sendSource_follows source status :
  goes (follows' SEND_BLOCKS OK) (Some OK) (sendSource env crc32c throttled port_ source status).
Proof.
  unfold sendSource. goes. intros s Hs. apply wlp_bind. unfold wlp at 1.
  destruct (sendOneByteSource _ _ _ _ _ _ _ _) as [[[stats source'] w']|] eqn:E; [|done]. cbn [mbind option_bind].
  apply sendOneByteSource_outcome in E as (Hn & Ht & _). apply wlp_bind. unfold wlp at 1, entry.
  unfold on, error_of in Hs. simpl in *. destruct (find_history _ _) as [[h ts]|] eqn:Ef; [|done]. cbn [mbind option_bind].
  injection Hs as Hok. apply wlp_bind. unfold wlp at 1, onSys, zoom. simpl.
  destruct (finishBlock _ _ _ _ _) as [[[[added h'] ts'] q']|] eqn:E; [|done]. apply finishBlock_error in E; [|done..].
  cbn [mbind option_bind]. match goal with |- wlp _ _ ?x => set (s' := x) end.
  assert (code port_ s' = Some (localErrCode_ stats)) as Hs'.
  { unfold s', on, error_of. simpl. by rewrite find_set_history, decide_True, Ef by done; simpl; rewrite E. }
  clearbody s'. revert s' Hs'. change (goes (follows' SEND_BLOCKS OK) (Some (localErrCode_ stats))
    (if negb added then fail port_ CONN_ERROR END
     else mret (if negb (bool_decide (localErrCode_ stats = OK)) then CHECK_FOR_ABORT else SEND_BLOCKS))).
  goes.
Qed.
Lemma sendBlocks_follows : goes (follows' SEND_BLOCKS OK) (Some OK) (sendBlocks env crc32c throttled port_ fuel).
Proof. unfold sendBlocks. goes. apply sendSource_follows. Qed.

Lemma resolveMismatch_follows : goes (follows' PROCESS_VERSION_MISMATCH ABORT) (Some ABORT) (resolveMismatch o port_).
Proof. unfold resolveMismatch. goes. Qed.
Lemma processVersionMismatch_follows :
  goes (follows' PROCESS_VERSION_MISMATCH ABORT) (Some ABORT) (processVersionMismatch o port_ fuel).
Proof.
  unfold processVersionMismatch. goes. generalize fuel. intros n.
  induction n as [|n IH]; cbn [mismatch_loop]; goes; first [apply resolveMismatch_follows | exact IH].
Qed.

Lemma s_handler_follows state e :
  state = CONNECT \/ entered state e ->
  goes (follows' state e) (Some e) (handler env o crc32c throttled threadIndex port_ fuel state).
Proof.
  intros [->|He]; [apply connect_follows|]. destruct state; cbn in He; subst; cbn [handler];
    eauto using connect_follows, readLocalCheckPoint_follows, sendSettings_follows, sendBlocks_follows,
      s_sendDoneCmd_follows, sendSizeCmd_follows, checkForAbort_follows, readFileChunks_follows,
      readReceiverCmd_follows, s_processDoneCmd_follows, processWaitCmd_follows, processErrCmd_follows,
      processAbortCmd_follows, processVersionMismatch_follows, goes_abort.
Qed.

(** ** Runs *)

Abbreviation round := (round env o crc32c throttled threadIndex port_ fuel).

(** The states a thread goes through, with everything but the error code of
    the thread changed in any way in between. *)
Inductive smreach : SenderState -> St -> Prop :=
  | smreach_start s : code port_ s = Some OK -> smreach CONNECT s
  | smreach_round state s next s' :
      smreach state s -> state <> END -> round state s = Some (Some next, s') -> smreach next s'
  | smreach_others state s s' : smreach state s -> code port_ s' = code port_ s -> smreach state s'.

Abbreviation handler := (handler env o crc32c throttled threadIndex port_ fuel).
(** A round: the handler of the state, or that of a version mismatch. *)
Lemma round_cases state s r s' e :
  round state s = Some (r, s') -> code port_ s = Some e ->
  match r with
  | Some next => exists st0 e0 s0, (st0 = state /\ e0 = e \/ st0 = PROCESS_VERSION_MISMATCH /\ e0 = ABORT)
      /\ code port_ s0 = Some e0 /\ handler st0 s0 = Some (next, s')
  | None => code port_ s' = Some ABORT
  end.
Proof.
  unfold SenderThread.round. intros (a & s1 & Ea & E)%bind_Some Hs.
  assert (code port_ s1 = Some e) as Hs1 by (rewrite <- Hs; revert Ea; apply keeps_Some, keeps_getThreadAbortCode).
  destruct (negb _).
  - apply bind_Some in E as ([] & s2 & E2 & E). assert (code port_ s2 = Some ABORT) as Hs2
      by (exact (goes_Some _ _ _ _ _ _ (setError_goes e ABORT) Hs1 E2)).
    case_bool_decide; [|by injection E as <- <-].
    apply bind_Some in E as (next & s3 & E3 & E). injection E as <- <-. eauto 10.
  - apply bind_Some in E as (next & s3 & E3 & E). injection E as <- <-. eauto 10.
Qed.
Lemma round_follows state s next s' e :
  round state s = Some (Some next, s') -> code port_ s = Some e -> state = CONNECT \/ entered state e ->
  exists st0 e0 s0 e', (st0 = state /\ e0 = e \/ st0 = PROCESS_VERSION_MISMATCH /\ e0 = ABORT)
    /\ handler st0 s0 = Some (next, s') /\ code port_ s' = Some e' /\ follows st0 e0 next e'.
Proof.
  intros E Hs He. destruct (round_cases _ _ _ _ _ E Hs) as (st0 & e0 & s0 & Hst & Hs0 & Eh).
  assert (st0 = CONNECT \/ entered st0 e0) as He0 by (destruct Hst as [[-> ->]|[-> ->]]; [done|by right]).
  pose proof (goes_Some _ _ _ _ _ _ (s_handler_follows st0 e0 He0) Hs0 Eh) as Hf. unfold lifted in Hf.
  destruct (code port_ s') as [e'|] eqn:Es'; [|done]. by exists st0, e0, s0, e'.
Qed.

Lemma smreach_entered state s : smreach state s -> exists e, code port_ s = Some e /\ (state = CONNECT \/ entered state e).
Proof.
  induction 1 as [s Hs|state s next s' _ (e & Hs & He) _ E|state s s' _ IH ->]; [eauto| |done].
  destruct (round_follows _ _ _ _ _ E Hs He) as (st0 & e0 & s0 & e' & _ & _ & Hs' & _ & Hent & _). eauto.
Qed.

(** A thread that was told that the receiver is done has nothing left that is
    not acknowledged. *)
Lemma processDoneCmd_acknowledges s next s' :
  processDoneCmd port_ s = Some (next, s') -> next = END ->
  exists h ts, find_history port_ (threads (sys_ (sender s'))) = Some (h, ts)
    /\ numAcknowledged_ h = Zlen (history_ h).
Proof.
  intros E ->. cut (wlp (processDoneCmd port_) (fun next s' => next = END ->
    exists h ts, find_history port_ (threads (sys_ (sender s'))) = Some (h, ts)
      /\ numAcknowledged_ h = Zlen (history_ h)) s); [unfold wlp; rewrite E; auto|].
  unfold processDoneCmd, onHistory, put_cmd, write_buf. apply wlp_bind, wlp_bind, wlp_entry. intros [h ts] Ef.
  apply wlp_bind, wlp_bind, wlp_modify, wlp_bind, wlp_bind, wlp_gets, wlp_zoom, wlp_total, wlp_bind, wlp_zoom, wlp_total,
    wlp_bind, wlp_zoom, wlp_total. case_bool_decide; simpl.
  - apply wlp_ret. intros _. simpl. rewrite find_set_history, decide_True, Ef by done. by do 2 eexists.
  - unfold fail. apply wlp_bind, wlp_any. by intros [] s2 ?.
Qed.

(** C7: The state machine of a sender thread.  Whatever the receiver, the socket,
    the disk and the other threads do, a round goes from a state to one of its
    successors or, when a version mismatch was noticed, to one of those of
    [PROCESS_VERSION_MISMATCH], and the error code fits the state entered: it
    is clear in all states that exchange data, and set when the thread connects
    again, so that it reads the checkpoint of the receiver before it sends.
    The check on the code in [processVersionMismatch] never fails.  A thread
    ends without an error only in [PROCESS_DONE_CMD], with all its blocks
    acknowledged; one that stops for an abort ends with [ABORT]. *)
Theorem sender_machine state s :
  smreach state s ->
  exists e, code port_ s = Some e /\ (state = CONNECT \/ entered state e)
  /\ (forall next s', round state s = Some (Some next, s') ->
       exists e', code port_ s' = Some e' /\ entered next e'
       /\ next ∈ successors state e ++ successors PROCESS_VERSION_MISMATCH ABORT
       /\ (next = END -> e' = OK -> state = PROCESS_DONE_CMD
            /\ exists h ts, find_history port_ (threads (sys_ (sender s'))) = Some (h, ts)
                 /\ numAcknowledged_ h = Zlen (history_ h)))
  /\ (forall s', round state s = Some (None, s') -> code port_ s' = Some ABORT).
Proof.
  intros (e & Hs & He)%smreach_entered. exists e. split_and!; [done..| |].
  - intros next s' E. destruct (round_follows _ _ _ _ _ E Hs He) as (st0 & e0 & s0 & e' & Hst & Eh & Hs' & Hsucc & Hent & Hend).
    exists e'. split_and!; [done..| |].
    + rewrite elem_of_app. destruct Hst as [[-> ->]|[-> ->]]; auto.
    + intros -> ->. specialize (Hend eq_refl eq_refl). subst st0. destruct Hst as [[<- _]|[? _]]; [|done].
      split; [done|]. by apply processDoneCmd_acknowledges in Eh.
  - intros s' E. exact (round_cases _ _ _ _ _ E Hs).
Qed.
End transitions.
