(* ===== verification/SenderRefines.v ===== *)
(** The handlers of a sender thread implement the steps of [Transfer]: whatever
    a thread does to the queue, the histories and the statistics is a sequence
    of steps of that system, so that everything proved there of all
    interleavings holds of the code of the threads.

    A step for a checkpoint or for a list of chunks assumes that what the
    receiver says fits the files and the histories.  The code does not check
    that; where it does not hold, the thread departs from the system. *)
From stdpp Require Import gmap.
From S2P Require Import Prelude ByteSource Serialization Chunks ErrorCodes StateMonad Protocol Reporting SourceQueue.
From S2P Require Import SourceQueueProps History Transfer Socket SendBlock ThreadsController Transitions SenderThread SenderMachine.

(** ** Departures *)

Definition good_checkpoint (c : Checkpoint) (q : DirectorySourceQueue) (h : ThreadTransferHistory) : Prop :=
  sane_checkpoint c q h /\ 0 <= lastBlockReceivedBytes c.
Definition good_resume (infos : list FileChunksInfo) (σ : Sys) : Prop :=
  started σ = false /\ numWaiters_ (queue σ) = 0 /\ Forall wf_info infos.

Inductive depart : Sys -> Sys -> Prop :=
  (** a checkpoint vouches for bytes that are not in the block it is about *)
  | depart_local σ th1 p h ts th2 c err h' ts' q' :
      threads σ = th1 ++ (p, (h, ts)) :: th2 -> ~ good_checkpoint c (queue σ) h ->
      setLocalCheckpoint c h ts (queue σ) = Some (err, h', ts', q') ->
      depart σ (σ <| threads := th1 ++ (p, (h', ts')) :: th2 |> <| queue := q' |>)
  | depart_global σ c h ts th' q' :
      find_history (Protocol.port c) (threads σ) = Some (h, ts) -> ~ good_checkpoint c (queue σ) h ->
      handleGlobalCheckpoint c (threads σ) (queue σ) = Some (th', q') ->
      depart σ (σ <| threads := th' |> <| queue := q' |>)
  (** the same of a global checkpoint that is applied to a block still sent *)
  | depart_send σ l s r s1 stats th1 p h ts th2 b h' ts' q' :
      held σ = l ++ s :: r -> threads σ = th1 ++ (p, (h, ts)) :: th2 ->
      ~ sane_last (queue σ) h s -> finishBlock s1 stats h ts (queue σ) = Some (b, h', ts', q') ->
      depart σ (σ <| held := l ++ r |> <| threads := th1 ++ (p, (h', ts')) :: th2 |> <| queue := q' |>)
  (** the chunks are not chunks of a file, or they come after the first block *)
  | depart_resume σ infos q' :
      ~ good_resume infos σ -> setPreviouslyReceivedChunks infos (queue σ) = Some q' ->
      depart σ (σ <| queue := q' |>).

#[global] Instance sane_checkpoint_dec c (q : DirectorySourceQueue) h : Decision (sane_checkpoint c q h).
Proof.
  unfold sane_checkpoint. destruct (history_ h !! Z.to_nat (numBlocks c)) as [s|].
  - destruct (decide (0 <= numBlocks c /\ 0 <= receivedBytes (metadata_of q s) (Some c) s <= size_ s)) as [[? ?]|Hn].
    + left. split; [done|]. by intros s' [= <-].
    + right. intros [? Hs]. apply Hn. split; [done|]. by apply Hs.
  - destruct (decide (0 <= numBlocks c)); [left|right]; naive_solver.
Defined.
#[global] Instance good_checkpoint_dec c q h : Decision (good_checkpoint c q h).
Proof. apply and_dec; apply _. Defined.
#[global] Instance sane_last_dec (q : DirectorySourceQueue) h s : Decision (sane_last q h s).
Proof. unfold sane_last. apply _. Defined.
#[global] Instance ordered_dec lo cs : Decision (ordered lo cs).
Proof. revert lo. induction cs as [|c cs IH]; intros lo; simpl; apply _. Defined.
#[global] Instance good_resume_dec infos σ : Decision (good_resume infos σ).
Proof. unfold good_resume, wf_info. apply _. Defined.

(** ** Runs of a thread *)

Section runs.
Context (env : Env).

Definition departed (σ : Sys) : Prop := exists σ1 σ2, rtc (step env) σ σ1 /\ depart σ1 σ2.

(** What the other threads do is steps or a departure, too. *)
Class SenderPeersRefine `{SenderPeers} : Prop :=
  peers_refine p : reachable env (sys_ p) ->
    departed (sys_ p) \/ rtc (step env) (sys_ p) (sys_ (sender_peers p)).

Lemma departed_rtc σ σ' : rtc (step env) σ σ' -> departed σ' -> departed σ.
Proof. intros Hr (σ1 & σ2 & H1 & H2). exists σ1, σ2. split; [by etrans|done]. Qed.
Lemma departed_now σ σ' : depart σ σ' -> departed σ.
Proof. intros Hd. by exists σ, σ'. Qed.
Lemma reachable_rtc σ σ' : reachable env σ -> rtc (step env) σ σ' -> reachable env σ'.
Proof. intros (σ0 & Hi & Hr) H. exists σ0. split; [done|by etrans]. Qed.

Context {W : Type}.
Abbreviation St := (SState W).
Abbreviation sys := (on (W := W) id).

(** The operation does steps of the system and ends with [Q], or it departs. *)
Definition rwlp {A} (m : M St A) (Q : A -> St -> Prop) (s : St) : Prop :=
  reachable env (sys s) ->
  wlp m (fun a s' => departed (sys s) \/ rtc (step env) (sys s) (sys s') /\ Q a s') s.
Definition refines {A} (m : M St A) : Prop := forall s, rwlp m (fun _ _ => True) s.

Lemma rwlp_ret {A} (a : A) (Q : A -> St -> Prop) s : Q a s -> rwlp (mret a) Q s.
Proof. intros HQ _. right. by split. Qed.
Lemma rwlp_bind {A B} (m : M St A) (k : A -> M St B) (Q : B -> St -> Prop) s :
  rwlp m (fun a => rwlp (k a) Q) s -> rwlp (mbind k m) Q s.
Proof.
  intros Hm Hr. apply wlp_bind. eapply wlp_mono; [|by apply Hm]. intros a s' [Hd|[Hs Hk]].
  - apply wlp_any. auto.
  - eapply wlp_mono; [|by apply Hk; eapply reachable_rtc]. intros b s'' [Hd|[Hs' HQ]].
    + left. by eapply departed_rtc.
    + right. split; [by etrans|done].
Qed.
Lemma rwlp_mono {A} (m : M St A) (Q Q' : A -> St -> Prop) s :
  (forall a s', reachable env (sys s') -> Q a s' -> Q' a s') -> rwlp m Q s -> rwlp m Q' s.
Proof.
  intros HQ Hm Hr. eapply wlp_mono; [|by apply Hm]. intros a s' [Hd|[Hs Hq]]; [by left|right].
  split; [done|]. apply HQ; [by eapply reachable_rtc|done].
Qed.
Lemma rwlp_keeps {A} (m : M St A) (Q : A -> St -> Prop) s :
  keeps sys m -> (forall a s', sys s' = sys s -> Q a s') -> rwlp m Q s.
Proof.
  intros Hm HQ _. eapply wlp_mono; [|apply Hm]. intros a s' Es. simpl in Es. right. split; [by rewrite Es|by apply HQ].
Qed.
Lemma rwlp_check b (Q : unit -> St -> Prop) s : (b = true -> Q tt s) -> rwlp (wdt_check b) Q s.
Proof. intros HQ Hr. apply wlp_check. intros Hb. right. split; [done|by apply HQ]. Qed.
Lemma rwlp_steps {A} (m : M St A) (Q : A -> St -> Prop) s :
  (reachable env (sys s) -> forall a s', m s = Some (a, s') ->
     departed (sys s) \/ rtc (step env) (sys s) (sys s') /\ Q a s') -> rwlp m Q s.
Proof. intros Hm Hr. apply wlp_Some. by apply Hm. Qed.

Lemma refines_ret {A} (a : A) : refines (mret a).
Proof. intros s. by apply rwlp_ret. Qed.
Lemma refines_bind {A B} (m : M St A) (k : A -> M St B) : refines m -> (forall a, refines (k a)) -> refines (mbind k m).
Proof. intros Hm Hk s. apply rwlp_bind. eapply rwlp_mono; [|apply Hm]. intros a s' _ _. apply Hk. Qed.
Lemma refines_abort {A} : refines (StateMonad.abort : M St A).
Proof. by intros s _. Qed.
Lemma refines_keeps {A} (m : M St A) : keeps sys m -> refines m.
Proof. intros Hm s. by apply rwlp_keeps. Qed.
Lemma rwlp_refines {A} (m : M St A) s : refines m -> rwlp m (fun _ _ => True) s.
Proof. intros Hm. apply Hm. Qed.
End runs.

Create HintDb refines.
#[global] Hint Resolve refines_ret refines_abort : refines.
Ltac refines_step :=
  lazymatch goal with
  | |- refines _ (mbind _ _) => apply refines_bind; [|intros ?]
  | |- refines _ (match _ with _ => _ end) => case_goal
  | |- refines _ _ => first [ solve [auto with refines] | solve [apply refines_keeps; keeps] | case_goal ]
  end.
Ltac refines := repeat refines_step.

(** ** The entry of the thread *)

Section entries.
Context (env : Env) `{Host} {W : Type} `{Socket W} `{ClientSocket W} `{SenderPeers} `{!SenderPeersRefine env}.
Context (o : SenderOptions) (crc32c : list Z -> Z -> Z) (throttled tls : bool).
Context (threadIndex : nat) (port_ : Z) (fuel : nat).
Abbreviation St := (SState W).
Abbreviation T := (M St).
Abbreviation sys := (on (W := W) id).
Abbreviation refines := (refines env (W := W)).

Lemma reachable_NoDup σ : reachable env σ -> NoDup (threads σ).*1.
Proof. intros Hr%reachable_Inv. apply (inv_ports _ Hr). Qed.

(** The entry is read and written back, which is one step. *)
Lemma refines_update (f : ThreadTransferHistory * TransferStats -> ThreadTransferHistory * TransferStats) :
  (forall σ th1 h ts th2, threads σ = th1 ++ (port_, (h, ts)) :: th2 ->
     step env σ (σ <| threads := th1 ++ (port_, f (h, ts)) :: th2 |>)) ->
  refines (e ← entry port_; setEntry port_ (f e)).
Proof.
  intros Hf s. apply rwlp_steps. intros Hr a s' (e & s1 & E1 & E2)%bind_Some. unfold entry in E1.
  destruct (find_history _ _) as [[h ts]|] eqn:Ef; [|done]. injection E1 as <- <-. injection E2 as <- <-. right.
  split; [|done]. destruct (find_history_split _ _ _ Ef (reachable_NoDup _ Hr)) as (th1 & th2 & Hth & Hset).
  unfold on. simpl. rewrite Hset. apply rtc_once. by apply Hf.
Qed.
Lemma refines_onStats f : (forall ts, counters (f ts) = counters ts) -> refines (onStats port_ f).
Proof. intros Hf. apply (refines_update (fun e => (e.1, f e.2))). intros σ th1 h ts th2 Hth. eapply step_stats; [done|]. apply Hf. Qed.
Lemma refines_acknowledge : refines (onHistory port_ markAllAcknowledged).
Proof. apply (refines_update (fun e => (markAllAcknowledged e.1, e.2))). intros. by eapply step_acknowledge. Qed.
Lemma refines_notInUse : refines (onHistory port_ markNotInUse).
Proof. apply (refines_update (fun e => (markNotInUse e.1, e.2))). intros. by eapply step_not_in_use. Qed.
Lemma refines_setError e : refines (setError port_ e).
Proof. by apply refines_onStats. Qed.
Lemma refines_peers : refines peers.
Proof.
  intros s. apply rwlp_steps. intros Hr a s' [= <- <-]. destruct (peers_refine env (sender s) Hr); auto.
Qed.
End entries.
#[global] Hint Resolve refines_acknowledge refines_notInUse refines_setError refines_peers : refines.
#[global] Hint Extern 1 (refines _ (onStats _ _)) => (apply refines_onStats; done) : refines.

Section operations.
Context (env : Env) `{Host} {W : Type} `{Socket W} `{ClientSocket W} `{SenderPeers} `{!SenderPeersRefine env}.
Context (o : SenderOptions) (crc32c : list Z -> Z -> Z) (throttled tls : bool).
Context (threadIndex : nat) (port_ : Z) (fuel : nat).
Abbreviation St := (SState W).
Abbreviation T := (M St).
Abbreviation sys := (on (W := W) id).
Abbreviation refines := (refines env (W := W)).

Lemma refines_fail e next : refines (fail port_ e next).
Proof. unfold fail. refines. Qed.
Lemma refines_localError : refines (localError port_).
Proof. unfold localError. refines. Qed.
#[local] Hint Resolve refines_fail refines_localError : refines.

Lemma refines_setCheckpoint c : refines (setCheckpoint port_ c).
Proof.
  intros s. apply rwlp_steps. intros Hr a s' (e & s1 & E1 & E2)%bind_Some. unfold entry in E1.
  destruct (find_history _ _) as [[h ts]|] eqn:Ef; [|done]. injection E1 as <- <-. unfold onSys, zoom in E2.
  destruct (setLocalCheckpoint _ _ _ _) as [[[[err h'] ts'] q']|] eqn:E; [|done]. injection E2 as <- <-.
  destruct (find_history_split _ _ _ Ef (reachable_NoDup _ _ Hr)) as (th1 & th2 & Hth & Hset).
  destruct (decide (good_checkpoint c (queue (sys s)) h)) as [[Hg Hb]|Hg].
  - right. split; [|done]. unfold on. simpl. rewrite Hset. apply rtc_once. by eapply step_local_checkpoint.
  - left. eapply departed_now. by eapply depart_local.
Qed.
Lemma refines_handleGlobalCheckpoint c :
  refines (onSys (fun σ => let* (th, q) := handleGlobalCheckpoint c (threads σ) (queue σ) in
             Some (tt, σ <| threads := th |> <| queue := q |>))).
Proof.
  intros s. apply rwlp_steps. intros Hr a s' E. unfold onSys, zoom in E.
  destruct (handleGlobalCheckpoint _ _ _) as [[th q]|] eqn:Eg; [|done]. injection E as <- <-.
  destruct (find_history (Protocol.port c) (threads (sys s))) as [[h ts]|] eqn:Ef.
  - destruct (decide (good_checkpoint c (queue (sys s)) h)) as [[Hg Hb]|Hg].
    + right. split; [|done]. apply rtc_once. eapply step_global_checkpoint; [|done..].
      intros h0 ts0 E0. unfold on, id in Ef. rewrite Ef in E0. by injection E0 as <- <-.
    + left. eapply departed_now. by eapply depart_global.
  - right. split; [|done]. unfold handleGlobalCheckpoint in Eg. unfold on, id in Ef. rewrite Ef in Eg.
    injection Eg as <- <-. unfold on. simpl. destruct (sys_ (sender s)). apply rtc_refl.
Qed.
#[local] Hint Resolve refines_setCheckpoint refines_handleGlobalCheckpoint : refines.
Lemma refines_handleGlobalCheckpoints l : refines (handleGlobalCheckpoints l).
Proof. induction l as [|c l IH]; cbn [handleGlobalCheckpoints]; refines. Qed.
Lemma refines_setFileChunksInfo infos : refines (setFileChunksInfo infos).
Proof.
  unfold setFileChunksInfo. refines. intros s. apply rwlp_steps. intros Hr a' s' E. unfold onSys, zoom in E.
  destruct (setPreviouslyReceivedChunks _ _) as [q|] eqn:Eq; [|done]. injection E as <- <-.
  destruct (decide (good_resume infos (sys s))) as [(? & ? & ?)|Hg].
  - right. split; [|done]. apply rtc_once. by eapply step_resume.
  - left. eapply departed_now. by eapply depart_resume.
Qed.

(** Giving back what was not acknowledged, history by history. *)
Lemma handleVersionMismatch_run σ pre ths q err ths' q' :
  handleVersionMismatch ths q = Some (err, ths', q') ->
  rtc (step env) (σ <| threads := pre ++ ths |> <| queue := q |>) (σ <| threads := pre ++ ths' |> <| queue := q' |>).
Proof.
  revert pre q ths'. induction ths as [|[p [h ts]] ths IH]; intros pre q ths'; cbn [handleVersionMismatch].
  { by intros [= <- <- <-]. }
  destruct (0 <? _); [by intros [= <- <- <-]|].
  destruct (returnUnackedSourcesToQueue h ts q) as [[[h1 ts1] q1]|] eqn:Er; [|done]. cbn [mbind option_bind].
  destruct (handleVersionMismatch ths q1) as [[[e2 ths2] q2]|] eqn:Ev; [|done]. intros [= <- <- <-].
  apply (rtc_l _ _ (σ <| threads := pre ++ (p, (h1, ts1)) :: ths |> <| queue := q1 |>)).
  - refine (step_return_unacked env (σ <| threads := pre ++ (p, (h, ts)) :: ths |> <| queue := q |>) pre p h ts ths h1 ts1 q1 eq_refl Er).
  - specialize (IH (pre ++ [(p, (h1, ts1))]) _ _ Ev). by rewrite <- !app_assoc in IH.
Qed.
Lemma refines_handleVersionMismatch :
  refines (onSys (fun σ => let* (code, th, q) := handleVersionMismatch (threads σ) (queue σ) in
             Some (code, σ <| threads := th |> <| queue := q |>))).
Proof.
  intros s. apply rwlp_steps. intros Hr a s' E. unfold onSys, zoom in E.
  destruct (handleVersionMismatch _ _) as [[[e th] q]|] eqn:Ev; [|done]. injection E as <- <-.
  right. split; [|done]. pose proof (handleVersionMismatch_run (sys s) [] _ _ _ _ _ Ev) as Hs. unfold on, id in *.
  simpl in *. by destruct (sys_ (sender s)).
Qed.

(** ** Blocks *)

(** Woken up. *)
Lemma wait_notEmpty_refines n s :
  rwlp env (wait_notEmpty n) (fun _ s' => 0 < awakened (conditionNotEmpty_ (queue (sys s')))) s.
Proof.
  revert s. induction n as [|n IH]; intros s; cbn [wait_notEmpty]; apply rwlp_bind; (eapply rwlp_mono; [|by apply refines_peers]);
    intros a s1 _ _; apply rwlp_bind, rwlp_steps; intros _ b s2 [= <- <-]; right; (split; [done|]); case_match; bool_to_prop;
    first [by apply rwlp_ret | apply IH | by intros _].
Qed.

(** The source a thread gets is one it holds, opened. *)
Definition got (r : option FileByteSource * ErrorCode) (s : St) : Prop :=
  forall source, r.1 = Some source ->
  (exists rest, held (sys s) = source :: rest) /\ (bytesRead_ source = 0 \/ size_ source = 0).

Lemma open_source_fresh σ s rest s' :
  reachable env σ -> opening σ = s :: rest -> open_source env s (queue σ) = (OK, s') -> bytesRead_ s' = 0 \/ size_ s' = 0.
Proof.
  intros Hr%reachable_Inv Ho. pose proof (inv_src _ Hr) as Hsrc. unfold sources in Hsrc. rewrite Ho, !Forall_app in Hsrc.
  destruct Hsrc as (_ & Hs & _). apply Forall_inv in Hs as (_ & _ & Hd). unfold open_source, source_open. case_bool_decide.
  - intros [= <-]. right. by apply Hd.
  - intros E. left. repeat case_hyp E; by simplify_eq/=.
Qed.

Lemma openNext_refines source status again rest s :
  opening (sys s) = source :: rest -> (forall s', rwlp env again got s') ->
  rwlp env (openNext env source status again) got s.
Proof.
  intros Ho Hagain. apply rwlp_bind, rwlp_steps. intros Hr opened s1 [= <- <-]. right. split; [done|].
  destruct (open_source env source (queue (sys_ (sender s)))) as [e s'] eqn:Eo. cbn [fst snd].
  assert (tail (opening (sys_ (sender s))) = [] ++ rest) as Et by (unfold on, id in Ho; by rewrite Ho).
  case_bool_decide as Ee.
  - subst e. apply rwlp_bind, rwlp_steps. intros _ [] s2 [= <-]. right.
    split; [apply rtc_once; unfold on, id; simpl; rewrite Et; by eapply step_open|].
    apply rwlp_ret. intros s0 [= <-]. split; [by eexists|]. by eapply open_source_fresh.
  - apply rwlp_bind, rwlp_steps. intros _ [] s2 [= <-]. right.
    split; [apply rtc_once; unfold on, id; simpl; rewrite Et; by eapply step_open_failed|]. apply Hagain.
Qed.
Lemma getNextSource_refines n resumed s :
  (resumed = true -> 0 < awakened (conditionNotEmpty_ (queue (sys s)))) ->
  rwlp env (getNextSource env fuel n resumed) got s.
Proof.
  revert resumed s. induction n as [|n IH]; intros resumed s Hw; cbn [getNextSource]; apply rwlp_bind, rwlp_steps;
    intros Hr next s1 E; unfold onSys, zoom, total in E; simpl in E.
  all: destruct ((if resumed then getNextSource_resume else getNextSource_enter) (queue (sys_ (sender s)))) as [nx q] eqn:Eq.
  all: assert (getNext (queue (sys s)) nx q) as Hg by (destruct resumed; [right; auto|by left]).
  all: destruct nx as [|status|source status]; injection E as <- <-; right; (split;
    [apply rtc_once; first [by eapply step_next | by eapply step_next_wait] |]).
  all: try (by apply rwlp_ret).
  - by intros _.
  - by eapply openNext_refines.
  - apply rwlp_bind. eapply rwlp_mono; [|apply wait_notEmpty_refines]. intros a s' _ Ha. by apply IH.
  - eapply openNext_refines; [done|]. intros s'. by apply IH.
Qed.

Lemma sendSource_refines source status rest s :
  held (sys s) = source :: rest -> bytesRead_ source = 0 \/ size_ source = 0 ->
  rwlp env (sendSource env crc32c throttled port_ source status) (fun _ _ => True) s.
Proof.
  intros Hh Hb. unfold sendSource. apply rwlp_bind, rwlp_keeps; [keeps|]. intros md s1 Es1.
  apply rwlp_bind, rwlp_keeps; [keeps|]. intros [] s2 Es2. apply rwlp_bind, rwlp_keeps; [keeps|]. intros c s3 Es3.
  apply rwlp_bind, rwlp_steps. intros Hr [stats source'] s4 E.
  destruct (sendOneByteSource _ _ _ _ _ _ _ _) as [[[stats0 source0] w']|] eqn:Eo; [|done].
  cbn [mbind option_bind] in E. injection E as <- <- <-.
  apply sendOneByteSource_outcome in Eo as (_ & _ & Hout). specialize (Hout Hb). right. split; [done|].
  apply rwlp_bind, rwlp_steps. intros _ [h ts] s4 E. unfold entry in E. simpl in E.
  destruct (find_history _ _) as [[h0 ts0]|] eqn:Ef; [|done]. cbn [mbind option_bind] in E. injection E as <- <- <-.
  right. split; [done|]. apply rwlp_bind, rwlp_steps. intros _ added s4 E. unfold onSys, zoom in E. simpl in E.
  destruct (finishBlock _ _ _ _ _) as [[[[b h'] ts'] q']|] eqn:E'; [|done]. cbn [mbind option_bind] in E. injection E as <- <-.
  destruct (find_history_split _ _ _ Ef (reachable_NoDup _ _ Hr)) as (th1 & th2 & Hth & Hset).
  unfold on, id in *. simpl. rewrite Hset.
  assert (held (sys_ (sender s3)) = [] ++ source :: rest) as Hh3 by (rewrite Es3, Es2, Es1; done).
  assert (tail (held (sys_ (sender s3))) = [] ++ rest) as -> by (by rewrite Hh3).
  destruct (decide (sane_last (queue (sys_ (sender s3))) h0 source)) as [Hg|Hg].
  - right. split; [apply rtc_once; by eapply step_send|].
    apply rwlp_refines. refines.
  - left. eapply departed_now. by eapply depart_send.
Qed.
Lemma refines_sendBlocks : refines (sendBlocks env crc32c throttled port_ fuel).
Proof.
  unfold sendBlocks. do 2 (apply refines_bind; [solve [refines]|intros ?]). case_match; [refines|].
  intros s. apply rwlp_bind. eapply rwlp_mono; [|by apply getNextSource_refines].
  intros [[source|] status] s' _ Hg.
  - destruct (Hg source eq_refl) as [[rest Hh] Hb]. by eapply sendSource_refines.
  - apply rwlp_refines. refines.
Qed.
#[local] Hint Resolve refines_handleGlobalCheckpoints refines_setFileChunksInfo refines_handleVersionMismatch
  refines_sendBlocks : refines.

(** ** Handlers *)

Lemma refines_readAndVerify : refines (readAndVerifySpuriousCheckpoint port_).
Proof. unfold readAndVerifySpuriousCheckpoint. refines. Qed.
#[local] Hint Resolve refines_readAndVerify : refines.
Lemma refines_spuriousCheckpoint state : refines (spuriousCheckpoint port_ state).
Proof. unfold spuriousCheckpoint. refines. Qed.
#[local] Hint Resolve refines_spuriousCheckpoint : refines.
Lemma refines_readChunks_loop n size numFiles infos : refines (readChunks_loop port_ n size numFiles infos).
Proof. revert infos. induction n as [|n IH]; intros infos; cbn [readChunks_loop]; refines. Qed.
#[local] Hint Resolve refines_readChunks_loop : refines.
Lemma refines_readChunks : refines (readChunks port_ fuel).
Proof. unfold readChunks. refines. Qed.
#[local] Hint Resolve refines_readChunks : refines.
Lemma refines_barrier_wait n : refines (barrier_wait n).
Proof. induction n as [|n IH]; cbn [barrier_wait]; refines. Qed.
#[local] Hint Resolve refines_barrier_wait : refines.
Lemma refines_barrier_execute : refines (barrier_execute fuel).
Proof. unfold barrier_execute. refines. Qed.
Lemma refines_resolveMismatch : refines (resolveMismatch o port_).
Proof. unfold resolveMismatch. refines. Qed.
#[local] Hint Resolve refines_barrier_execute refines_resolveMismatch : refines.
Lemma refines_mismatch_loop n : refines (mismatch_loop o port_ n).
Proof. induction n as [|n IH]; cbn [mismatch_loop]; refines. Qed.
#[local] Hint Resolve refines_mismatch_loop : refines.

Lemma refines_handler state : refines (handler env o crc32c throttled threadIndex port_ fuel state).
Proof.
  destruct state; cbn [handler];
    unfold connect, reset, readLocalCheckPoint, sendSettings, sendSizeCmd, sendDoneCmd, checkForAbort, readFileChunks,
      readReceiverCmd, processDoneCmd, processWaitCmd, processErrCmd, processAbortCmd, processVersionMismatch; refines.
Qed.
#[local] Hint Resolve refines_handler : refines.
Lemma refines_run n state : refines (run env o crc32c throttled threadIndex port_ fuel n state).
Proof. revert state. induction n as [|n IH]; intros state; cbn [run]; unfold round; refines. Qed.
#[local] Hint Resolve refines_run : refines.
Lemma refines_start n : refines (start env o crc32c throttled tls threadIndex port_ fuel n).
Proof. unfold start. refines. Qed.

End operations.

(** A sender thread at work: one file of five bytes is sent over a connection
    whose other end says that it is done; the theorems on the thread at that
    run. *)
(** The connection of [Socket] as a client. *)
#[global] Instance Wire_client : ClientSocket Wire := {
  cl_make w := (true, w);
  cl_connect w := (OK, w);
  cl_getNonRetryableErrCode _ := OK;
  cl_closeNoCheck w := w;
  cl_getReadErrCode _ := OK;
  cl_getUnackedBytes w := (0, w);
  cl_readWithTimeout n w := wire_read n w;
  cl_shutdownWrites w := w;
  cl_expectEndOfStream w := (if bool_decide (pieces w = []) then OK else SOCKET_READ_ERROR, w);
  cl_encryptionType _ := 0;
  cl_shouldAbort w := (false, w)
}.
(** A sender with one thread. *)
#[global] Instance alone : SenderPeers := id.
#[global] Instance alone_keep port : SenderPeersKeep port.
Proof. done. Qed.
#[global] Instance alone_refine env : SenderPeersRefine env.
Proof. intros p Hr. right. apply rtc_refl. Qed.

Definition ex_s_env : Env :=
  mkEnv (SendBlock.ex_disk ex_file) ex_read (fun _ => false)
    (fun _ => None) (fun _ => None) (fun _ => None) (fun _ => None) (fun _ _ => false)
    (fun _ => false) true.
Definition ex_s_options : SenderOptions := mkSenderOptions 3 3 true true 16 1000 1000.
Definition ex_s_0 : Sys := Eval vm_compute in
  mkSys (DirectorySourceQueue_make ex_s_env [47])
    [(22356, (ThreadTransferHistory_make 22356, TransferStats_default))] [] [] [] false.
Definition ex_s_1 : Sys := Eval vm_compute in
  ex_s_0 <| queue := from_option snd (queue ex_s_0)
            (createIntoQueue ex_s_env [47; 97] (WdtFileInfo_make [97] 5 false) (queue ex_s_0)) |>.
Definition ex_s_2 : Sys := Eval vm_compute in ex_s_1 <| queue := finishInit (queue ex_s_1) |>.
Lemma ex_s_reachable : reachable ex_s_env ex_s_2.
Proof.
  exists ex_s_0. split.
  { eexists _, [22356]. split; [apply (conf_make ex_s_env [47])|]. split; [done|]. apply NoDup_singleton. }
  apply (rtc_l _ _ ex_s_1).
  { eapply (step_create ex_s_env ex_s_0 [47; 97] (WdtFileInfo_make [97] 5 false)); [simpl; lia|]. vm_compute. reflexivity. }
  apply rtc_once. apply (step_init_finished ex_s_env ex_s_1).
Qed.

Definition ex_s_thread : SenderThread := mkSenderThread (replicate 512 0) 32 NO_FOOTER false false 0 false.
Definition ex_s_sender : Sender :=
  mkSender ex_s_2 false false V_MISMATCH_WAIT 32 OK (setNumBarriers 1 (setNumFunnels 1 (ThreadsController_make 1))) [0] [105; 100].
(** The receiver says that it is done, and then no more. *)
Definition ex_s_state : SState Wire := mkSState ex_s_thread ex_s_sender (mkWire [[DONE_CMD]] []).

Definition ex_s_round (state : SenderState) : M (SState Wire) (option SenderState) :=
  @round littleHost Wire _ _ _ ex_s_env ex_s_options crc32c_software false 0 22356 50 state.
Fixpoint ex_s_run (n : nat) (state : SenderState) (s : SState Wire) : option (SenderState * SState Wire) :=
  match n with
  | O => Some (state, s)
  | S n =>
      if bool_decide (state = END) then None
      else let* (next, s) := ex_s_round state s in let* next := next in ex_s_run n next s
  end.
Lemma ex_s_run_reach n state s next s' :
  @smreach littleHost Wire _ _ _ ex_s_env ex_s_options crc32c_software false 0 22356 50 state s ->
  ex_s_run n state s = Some (next, s') ->
  @smreach littleHost Wire _ _ _ ex_s_env ex_s_options crc32c_software false 0 22356 50 next s'.
Proof.
  revert state s. induction n as [|n IH]; simpl; intros state s Hr E; [by simplify_eq|].
  case_bool_decide as Hne; [done|]. destruct (ex_s_round state s) as [[[st1|] s1]|] eqn:Eh; [|done..].
  eapply IH; [|exact E].
  eapply smreach_round; [exact Hr|exact Hne|exact Eh].
Qed.

(** The file and what goes with it are sent, and the thread ends without an
    error, with its block acknowledged. *)
Lemma sender_machine_witness : exists s s',
  ex_s_run 8 CONNECT ex_s_state = Some (PROCESS_DONE_CMD, s) /\ ex_s_round PROCESS_DONE_CMD s = Some (Some END, s')
  /\ exists h ts, find_history 22356 (threads (sys_ (sender s'))) = Some (h, ts) /\ numAcknowledged_ h = Zlen (history_ h).
Proof.
  assert ((fun r => (r.1, (fun r' => (r'.1, code 22356 r'.2)) <$> ex_s_round PROCESS_DONE_CMD r.2))
    <$> ex_s_run 8 CONNECT ex_s_state = Some (PROCESS_DONE_CMD, Some (Some END, Some OK))) as E by (vm_compute; reflexivity).
  destruct (ex_s_run 8 CONNECT ex_s_state) as [[state s]|] eqn:Er; [|discriminate E]. simpl in E. injection E as -> E.
  destruct (ex_s_round PROCESS_DONE_CMD s) as [[next s']|] eqn:En; [|discriminate E]. injection E as -> Ec.
  exists s, s'. split; [reflexivity|]. split; [exact En|].
  destruct (@sender_machine littleHost Wire _ _ _ ex_s_env ex_s_options crc32c_software false 0 22356 _ 50
    PROCESS_DONE_CMD s) as (e & _ & _ & Hn & _).
  { apply (ex_s_run_reach 8 CONNECT ex_s_state); [by apply smreach_start|exact Er]. }
  destruct (Hn END s' En) as (e' & Hs' & _ & _ & Hend). assert (e' = OK) as -> by congruence.
  exact (proj2 (Hend eq_refl eq_refl)).
Defined.

Abbreviation ex_s_start :=
  (@start littleHost Wire Wire_socket Wire_client alone ex_s_env ex_s_options crc32c_software false false 0 22356 50 20).
Lemma ex_s_start_sends : exists s', ex_s_start ex_s_state = Some (tt, s')
  /\ effectiveDataBytes_ <$> (snd <$> find_history 22356 (threads (sys_ (sender s')))) = Some 5.
Proof.
  assert ((fun r => effectiveDataBytes_ <$> (snd <$> find_history 22356 (threads (sys_ (sender r.2))))) <$> ex_s_start ex_s_state
    = Some (Some 5)) as E by (vm_compute; reflexivity).
  destruct (ex_s_start ex_s_state) as [[[] s']|]; [|discriminate E]. injection E as E. by exists s'.
Qed.
