(* ===== verification/Uri.v ===== *)
(** The URL of a receiver: [WdtUri] and [WdtTransferRequest] of
    [WdtTransferRequest.cpp], and the form of the encryption parameters in it
    ([EncryptionParams] of [util/EncryptionUtils.cpp]).

    Strings are lists of bytes.  The conversions of folly are the class [Folly];
    its laws are in [UriProps]. *)
From Stdlib Require Import Ascii.
From S2P Require Import Prelude ErrorCodes Protocol.

(** The bytes of a literal. *)
Definition txt (s : string) : list Z :=
  (fun c => Z.of_nat (Ascii.nat_of_ascii c)) <$> String.list_ascii_of_string s.
Definition chr (c : Ascii.ascii) : Z := Z.of_nat (Ascii.nat_of_ascii c).
Arguments chr c%_char.

(** [folly::to] for the types the code uses ([None] is an exception), and
    [StringPiece::split_step]: what is before the delimiter and what remains. *)
Class Folly := {
  to_int32 : list Z -> option Z;
  to_int64 : list Z -> option Z;
  to_bool : list Z -> option bool;
  str_int : Z -> list Z;
  str_bool : bool -> list Z;
  split_step : Z -> list Z -> list Z * list Z
}.

(** ** [std::map<string, V>]

    In the order of the keys, by bytes. *)
Fixpoint str_compare (a b : list Z) : comparison :=
  match a, b with
  | [], [] => Eq
  | [], _ => Lt
  | _, [] => Gt
  | x :: a, y :: b => match x ?= y with Eq => str_compare a b | c => c end
  end.
Fixpoint map_set {V} (k : list Z) (v : V) (l : list (list Z * V)) : list (list Z * V) :=
  match l with
  | [] => [(k, v)]
  | (k', v') :: l' =>
      match str_compare k k' with
      | Eq => (k, v) :: l'
      | Lt => (k, v) :: l
      | Gt => (k', v') :: map_set k v l'
      end
  end.
Fixpoint map_get {V} (k : list Z) (l : list (list Z * V)) : option V :=
  match l with
  | [] => None
  | (k', v) :: l => match str_compare k k' with Eq => Some v | _ => map_get k l end
  end.

Definition QueryParams : Type := list (list Z * list Z).

(** ** Escapes *)

Definition toHex (v : Z) : option Z :=
  check v <? 16 ;;
  Some (if v <=? 9 then chr "0" + v else chr "a" + v - 10).
Definition fromHex (c : Z) : Z :=
  let c := schar c in
  if (c <? chr "0") || ((chr "9" <? c) && ((c <? chr "a") || (chr "f" <? c))) then -1
  else if c <=? chr "9" then c - chr "0"
  else c - chr "a" + 10.

Definition unreserved (c : Z) : bool :=
  (c =? chr ",") || (c =? chr ":") || (c =? chr ".") || (c =? chr "_") || (c =? chr "+") || (c =? chr "-")
  || ((chr "A" <=? c) && (c <=? chr "Z")) || ((chr "a" <=? c) && (c <=? chr "z")) || ((chr "0" <=? c) && (c <=? chr "9")).
(** The two hexadecimal digits of a byte. *)
Definition hexByte (c : Z) : option (list Z) :=
  let* msb := toHex (Z.shiftr c 4) in
  let* lsb := toHex (Z.land c 0xf) in
  Some [msb; lsb].
Fixpoint escape (binaryStr : list Z) : option (list Z) :=
  match binaryStr with
  | [] => Some []
  | c :: s =>
      let* e := if unreserved c then Some [c] else let* h := hexByte c in Some (chr "%" :: h) in
      let* r := escape s in
      Some (e ++ r)
  end.

(** The result, and what is added to the string even if it is [false]. *)
Fixpoint unescape (escapedValue : list Z) : bool * list Z :=
  match escapedValue with
  | [] => (true, [])
  | c :: s =>
      if negb (c =? chr "%") then let '(ok, r) := unescape s in (ok, c :: r)
      else
        match s with
        | m :: l :: s =>
            let msb := fromHex m in
            let lsb := fromHex l in
            if (msb <? 0) || (lsb <? 0) then (false, [])
            else let '(ok, r) := unescape s in (ok, Z.lor (Z.shiftl msb 4) lsb :: r)
        | _ => (false, [])
        end
  end.

(** ** [WdtUri] *)

Record WdtUri := mkWdtUri {
  queryParams_ : QueryParams;
  hostName_ : list Z;
  port_ : Z;
  errorCode_ : ErrorCode
}.
#[global] Instance WdtUri_settable : Settable WdtUri := fun u =>
  mkWdtUri (queryParams_ u) (hostName_ u) (port_ u) (errorCode_ u).
Definition WdtUri_default : WdtUri := mkWdtUri [] [] (-1) OK.

Definition WDT_URL_PREFIX : list Z := txt "wdt://".

Definition setHostName (hostName : list Z) (u : WdtUri) : WdtUri := u <| hostName_ := hostName |>.
Definition setPort (port : Z) (u : WdtUri) : WdtUri := u <| port_ := port |>.
Definition setQueryParam (key value : list Z) (u : WdtUri) : WdtUri := u <| queryParams_ := map_set key value (queryParams_ u) |>.
Definition getQueryParam (key : list Z) (u : WdtUri) : list Z := default [] (map_get key (queryParams_ u)).
Definition uri_clear (u : WdtUri) : WdtUri := u <| hostName_ := [] |> <| port_ := -1 |> <| queryParams_ := [] |>.

(** Up to the first byte with the property, and from there on. *)
Fixpoint break (p : Z -> bool) (l : list Z) : list Z * list Z :=
  match l with
  | [] => ([], [])
  | c :: l => if p c then ([], c :: l) else let '(a, b) := break p l in (c :: a, b)
  end.

(** [assign(piece.data(), 0, n)] makes a string of a pointer: it ends at a NUL. *)
Definition cstr (l : list Z) : list Z := (break (Z.eqb 0) l).1.

Section uri.
Context `{Folly}.

Fixpoint paramsUrl (prefix : Z) (l : QueryParams) : option (list Z) :=
  match l with
  | [] => Some []
  | (k, v) :: l =>
      if bool_decide (v = []) then paramsUrl prefix l
      else
        let* value := escape v in
        let* r := paramsUrl (chr "&") l in
        Some (prefix :: k ++ [chr "="] ++ value ++ r)
  end.
Definition generateUrl (u : WdtUri) : option (list Z) :=
  let url := WDT_URL_PREFIX in
  let url := if bool_decide (chr ":" ∈ hostName_ u) then url ++ [chr "["] ++ hostName_ u ++ [chr "]"]
             else url ++ hostName_ u in
  let url := if 0 <? port_ u then url ++ [chr ":"] ++ str_int (port_ u) else url in
  let* params := paramsUrl (chr "?") (queryParams_ u) in
  Some (url ++ params).

(** The host name and what follows it. *)
Definition hostPart (urlPiece : list Z) : option (list Z * list Z) :=
  match urlPiece with
  | c :: rest =>
      if c =? chr "[" then
        match break (Z.eqb (chr "]")) rest with
        | (_, []) => None
        | (host, _ :: rest) => Some (cstr host, rest)
        end
      else let '(host, rest) := break (fun c => (c =? chr ":") || (c =? chr "?")) urlPiece in Some (cstr host, rest)
  | [] => None
  end.

(** The loop over the parameters; each round takes at least a byte. *)
Fixpoint parseParams (rounds : nat) (urlPiece : list Z) (status : ErrorCode) (u : WdtUri) : option (ErrorCode * WdtUri) :=
  if bool_decide (urlPiece = []) then Some (status, u)
  else
    match rounds with
    | O => None
    | S rounds =>
        let '(keyValuePair, urlPiece) := split_step (chr "&") urlPiece in
        let '(keyValuePair, urlPiece) :=
          if bool_decide (keyValuePair = []) then (urlPiece, []) else (keyValuePair, urlPiece) in
        let '(key, value) := split_step (chr "=") keyValuePair in
        if bool_decide (key = []) then Some (URI_PARSE_ERROR, u)
        else
          let '(ok, unescapedValue) := unescape value in
          let status := if negb ok then URI_PARSE_ERROR else status in
          parseParams rounds urlPiece status (setQueryParam key unescapedValue u)
    end.

(** Behind the host: the port, if there is one, then the parameters. *)
Definition portPart (urlPiece : list Z) (status : ErrorCode) (u : WdtUri) : list Z * ErrorCode * WdtUri :=
  match urlPiece with
  | c :: urlPiece' =>
      if c =? chr ":" then
        let '(portStr, rest) := break (Z.eqb (chr "?")) urlPiece' in
        match to_int32 (cstr portStr) with
        | Some port => (rest, status, setPort port u)
        | None => (rest, URI_PARSE_ERROR, u)
        end
      else (urlPiece, status, u)
  | [] => (urlPiece, status, u)
  end.
Definition process (url : list Z) (u : WdtUri) : option (ErrorCode * WdtUri) :=
  if Zlen url <? Zlen WDT_URL_PREFIX then Some (URI_PARSE_ERROR, u)
  else if negb (bool_decide (take (length WDT_URL_PREFIX) url = WDT_URL_PREFIX)) then Some (URI_PARSE_ERROR, u)
  else
    let urlPiece := drop (length WDT_URL_PREFIX) url in
    match hostPart urlPiece with
    | None => Some (URI_PARSE_ERROR, u)
    | Some (host, urlPiece) =>
        let u := setHostName host u in
        let status := if bool_decide (host = []) then URI_PARSE_ERROR else OK in
        if bool_decide (urlPiece = []) then Some (status, u)
        else
          let '(urlPiece, status, u) := portPart urlPiece status u in
          match urlPiece with
          | [] => Some (status, u)
          | c :: params =>
              if negb (c =? chr "?") then Some (URI_PARSE_ERROR, u)
              else parseParams (length params) params status u
          end
    end.
(** The constructor and the assignment from a string. *)
Definition uri_assign (url : list Z) (u : WdtUri) : option WdtUri :=
  let* (errorCode, u) := process url (uri_clear u) in
  Some (u <| errorCode_ := errorCode |>).
Definition WdtUri_make (url : list Z) : option WdtUri := uri_assign url WdtUri_default.
End uri.

(** ** [EncryptionParams] *)

Inductive EncryptionType := ENC_NONE | ENC_AES128_CTR | ENC_AES128_GCM.
#[global] Instance EncryptionType_eq_dec : EqDecision EncryptionType.
Proof. solve_decision. Defined.
Definition EncryptionType_value (t : EncryptionType) : Z :=
  match t with ENC_NONE => 0 | ENC_AES128_CTR => 1 | ENC_AES128_GCM => 2 end.
Definition EncryptionType_of (v : Z) : option EncryptionType :=
  if v =? 0 then Some ENC_NONE else if v =? 1 then Some ENC_AES128_CTR else if v =? 2 then Some ENC_AES128_GCM else None.
Definition NUM_ENC_TYPES : Z := 3.
Definition encryptionTypeToTagLen (t : EncryptionType) : Z := if bool_decide (t = ENC_AES128_GCM) then kAESBlockSize else 0.

Record EncryptionParams := mkEncryptionParams { ep_type : EncryptionType; ep_data : list Z }.
#[global] Instance EncryptionParams_eq_dec : EqDecision EncryptionParams.
Proof. solve_decision. Defined.
(** An empty object, and [erase]. *)
Definition EncryptionParams_none : EncryptionParams := mkEncryptionParams ENC_NONE [].
Definition isSet (e : EncryptionParams) : bool := negb (bool_decide (ep_type e = ENC_NONE)).

Fixpoint hexString (l : list Z) : option (list Z) :=
  match l with
  | [] => Some []
  | c :: l => let* h := hexByte c in let* r := hexString l in Some (h ++ r)
  end.
Definition getUrlSafeString (e : EncryptionParams) : option (list Z) :=
  let* t := toHex (EncryptionType_value (ep_type e)) in
  let* data := hexString (ep_data e) in
  Some (t :: chr ":" :: data).
(** [hash] stands for [std::to_string(std::hash<string>()(data))]. *)
Definition encryption_getLogSafeString (hash : list Z -> list Z) (e : EncryptionParams) : option (list Z) :=
  let* t := toHex (EncryptionType_value (ep_type e)) in
  Some (t :: chr ":" :: txt "..." ++ hash (ep_data e) ++ txt "...").

(** [unserialize]: the states of its loop. *)
Inductive UnserializeState := IN_TYPE | FIRST_HEX | LEFT_HEX | RIGHT_HEX.
#[global] Instance UnserializeState_eq_dec : EqDecision UnserializeState.
Proof. solve_decision. Defined.
(** The rest of the loop: an [ERROR], or its variables; and the data so far. *)
Fixpoint unserialize_loop (input : list Z) (state : UnserializeState) (type byte : Z) (data : list Z)
    : option (UnserializeState * Z) * list Z :=
  match input with
  | [] => (Some (state, type), data)
  | c :: input =>
      if bool_decide (state = IN_TYPE) && (c =? chr ":") then
        if type =? 0 then (None, data) else unserialize_loop input FIRST_HEX type byte data
      else
        let v := fromHex c in
        if v <? 0 then (None, data)
        else
          match state with
          | IN_TYPE => unserialize_loop input IN_TYPE (Z.lor (wrapS 32 (Z.shiftl type 4)) v) byte data
          | FIRST_HEX | LEFT_HEX => unserialize_loop input RIGHT_HEX type (Z.shiftl v 4) data
          | RIGHT_HEX => unserialize_loop input LEFT_HEX type 0 (data ++ [Z.lor byte v])
          end
  end.
Definition unserialize (input : list Z) : ErrorCode * EncryptionParams :=
  let '(r, data) := unserialize_loop input IN_TYPE 0 0 [] in
  let failed := (ERROR, mkEncryptionParams ENC_NONE data) in
  match r with
  | None => failed
  | Some (state, type) =>
      if bool_decide (state = IN_TYPE) then failed
      else if negb (bool_decide (state = LEFT_HEX)) then failed
      else if (type <=? 0) || (NUM_ENC_TYPES <=? type) then failed
      else from_option (fun t => (OK, mkEncryptionParams t data)) failed (EncryptionType_of type)
  end.

(** ** [WdtTransferRequest]

    The list of files, its generator and [disableDirectoryTraversal] are not
    part of the URL. *)
Record WdtTransferRequest := mkWdtTransferRequest {
  transferId : list Z;
  encryptionData : EncryptionParams;
  protocolVersion : Z;
  ports : list Z;
  hostName : list Z;
  destIdentifier : list Z;
  wdtNamespace : list Z;
  directory : list Z;
  downloadResumptionEnabled : bool;
  tls : bool;
  ivChangeInterval : Z;
  errorCode : ErrorCode
}.
#[global] Instance WdtTransferRequest_settable : Settable WdtTransferRequest := fun r =>
  mkWdtTransferRequest (transferId r) (encryptionData r) (protocolVersion r) (ports r) (hostName r) (destIdentifier r)
    (wdtNamespace r) (directory r) (downloadResumptionEnabled r) (tls r) (ivChangeInterval r) (errorCode r).
Definition WdtTransferRequest_default : WdtTransferRequest :=
  mkWdtTransferRequest [] EncryptionParams_none protocol_version [] [] [] [] [] false false 0 OK.

Definition TRANSFER_ID_PARAM : list Z := txt "id".
Definition RECEIVER_PROTOCOL_VERSION_PARAM : list Z := txt "recpv".
Definition DIRECTORY_PARAM : list Z := txt "dir".
Definition PORTS_PARAM : list Z := txt "ports".
Definition START_PORT_PARAM : list Z := txt "start_port".
Definition NUM_PORTS_PARAM : list Z := txt "num_ports".
Definition ENCRYPTION_PARAM : list Z := txt "Enc".
Definition TLS_PARAM : list Z := txt "tls".
Definition NAMESPACE_PARAM : list Z := txt "ns".
Definition DEST_IDENTIFIER_PARAM : list Z := txt "dstid".
Definition DOWNLOAD_RESUMPTION_PARAM : list Z := txt "dr".
Definition IV_CHANGE_INTERVAL_PARAM : list Z := txt "iv_change_int".

Fixpoint genPorts_loop (n : nat) (port : Z) : list Z :=
  match n with O => [] | S n => port :: genPorts_loop n (wrapS 32 (port + 1)) end.
Definition genPortsVector (startPort numPorts : Z) : list Z := genPorts_loop (Z.to_nat numPorts) startPort.

(** The constructor from ports; a start port of 0 is repeated. *)
Definition WdtTransferRequest_ports (startPort numPorts : Z) (dir : list Z) : WdtTransferRequest :=
  WdtTransferRequest_default <| directory := dir |>
    <| ports := if startPort =? 0 then replicate (Z.to_nat numPorts) startPort
                else genPorts_loop (Z.to_nat numPorts) startPort |>.

Section request.
Context `{Folly}.

(** [if (!s.empty()) try { x = to(s); } catch { errorCode = ...; }] *)
Definition convert {A} (conv : list Z -> option A) (s : list Z) (x : A) (errorCode : ErrorCode) : A * ErrorCode :=
  if bool_decide (s = []) then (x, errorCode)
  else match conv s with Some x => (x, errorCode) | None => (x, URI_PARSE_ERROR) end.

(** The loop over the list of ports. *)
Fixpoint parsePorts (rounds : nat) (portsList : list Z) (ports : list Z) (errorCode : ErrorCode) : option (list Z * ErrorCode) :=
  let '(portNum, portsList) := split_step (chr ",") portsList in
  let '(ports, errorCode) :=
    if bool_decide (portNum = []) then (ports, errorCode)
    else match to_int32 portNum with Some port => (ports ++ [port], errorCode) | None => (ports, URI_PARSE_ERROR) end in
  if bool_decide (portsList = []) then Some (ports, errorCode)
  else match rounds with O => None | S rounds => parsePorts rounds portsList ports errorCode end.

(** The other way to give the ports. *)
Definition portsFromStart (u : WdtUri) (errorCode : ErrorCode) : list Z * ErrorCode :=
  let startPortStr := getQueryParam START_PORT_PARAM u in
  let numPortsStr := getQueryParam NUM_PORTS_PARAM u in
  let startPort := port_ u in
  let '(startPort, errorCode) :=
    if startPort <=? 0 then
      if bool_decide (startPortStr = []) then (startPort, INVALID_REQUEST)
      else convert to_int32 startPortStr startPort errorCode
    else (startPort, errorCode) in
  let '(numPorts, errorCode) :=
    if bool_decide (numPortsStr = []) then (0, INVALID_REQUEST) else convert to_int32 numPortsStr 0 errorCode in
  (if bool_decide (errorCode = OK) then genPortsVector startPort numPorts else [], errorCode).

(** The constructor from a string. *)
Definition WdtTransferRequest_make (uriString : list Z) : option WdtTransferRequest :=
  let* u := WdtUri_make uriString in
  let err := errorCode_ u in
  let r := WdtTransferRequest_default <| hostName := hostName_ u |>
    <| transferId := getQueryParam TRANSFER_ID_PARAM u |> <| wdtNamespace := getQueryParam NAMESPACE_PARAM u |>
    <| destIdentifier := getQueryParam DEST_IDENTIFIER_PARAM u |> <| directory := getQueryParam DIRECTORY_PARAM u |> in
  let encStr := getQueryParam ENCRYPTION_PARAM u in
  let '(enc, err) :=
    if bool_decide (encStr = []) then (encryptionData r, err)
    else let '(code, enc) := unserialize encStr in
         (enc, if bool_decide (code = OK) then err else getMoreInterestingError code err) in
  let '(tls_, err) := convert to_bool (getQueryParam TLS_PARAM u) (tls r) err in
  let '(resume, err) :=
    convert to_bool (getQueryParam DOWNLOAD_RESUMPTION_PARAM u) (downloadResumptionEnabled r) err in
  let '(version, err) := convert to_int64 (getQueryParam RECEIVER_PROTOCOL_VERSION_PARAM u) (protocolVersion r) err in
  let '(interval, err) := convert to_int64 (getQueryParam IV_CHANGE_INTERVAL_PARAM u) (ivChangeInterval r) err in
  let portsStr := getQueryParam PORTS_PARAM u in
  let* (list, err) := parsePorts (length portsStr) portsStr [] err in
  let '(list, err) := if negb (bool_decide (list = [])) then (list, err) else portsFromStart u err in
  Some (r <| encryptionData := enc |> <| tls := tls_ |> <| downloadResumptionEnabled := resume |>
          <| protocolVersion := version |> <| ivChangeInterval := interval |> <| ports := list |> <| errorCode := err |>).

Fixpoint getSerializedPortsList (ports : list Z) : list Z :=
  match ports with
  | [] => []
  | [port] => str_int port
  | port :: ports => str_int port ++ [chr ","] ++ getSerializedPortsList ports
  end.
Fixpoint hasHoles (prevPort : Z) (ports : list Z) : bool :=
  match ports with
  | [] => false
  | port :: ports => if negb (port =? wrapS 32 (prevPort + 1)) then true else hasHoles port ports
  end.
Definition serializePorts (r : WdtTransferRequest) (u : WdtUri) : WdtUri :=
  match ports r with
  | [] => u
  | port :: rest =>
      if hasHoles port rest then setQueryParam PORTS_PARAM (getSerializedPortsList (ports r)) u
      else setQueryParam NUM_PORTS_PARAM (str_int (Zlen (ports r))) (setPort port u)
  end.

(** [hash] as in [encryption_getLogSafeString]. *)
Definition requestUri (hash : list Z -> list Z) (genFull forLogging : bool) (r : WdtTransferRequest) : option WdtUri :=
  let u := setHostName (hostName r) WdtUri_default in
  let u := setQueryParam TRANSFER_ID_PARAM (transferId r) u in
  let u := setQueryParam NAMESPACE_PARAM (wdtNamespace r) u in
  let u := setQueryParam DEST_IDENTIFIER_PARAM (destIdentifier r) u in
  let u := setQueryParam RECEIVER_PROTOCOL_VERSION_PARAM (str_int (protocolVersion r)) u in
  let u := setQueryParam IV_CHANGE_INTERVAL_PARAM (str_int (ivChangeInterval r)) u in
  let u := if downloadResumptionEnabled r
           then setQueryParam DOWNLOAD_RESUMPTION_PARAM (str_bool (downloadResumptionEnabled r)) u else u in
  let u := serializePorts r u in
  let u := if genFull then setQueryParam DIRECTORY_PARAM (directory r) u else u in
  let* u :=
    if isSet (encryptionData r) then
      let* enc := if forLogging then encryption_getLogSafeString hash (encryptionData r)
                  else getUrlSafeString (encryptionData r) in
      Some (setQueryParam ENCRYPTION_PARAM enc u)
    else Some u in
  Some (setQueryParam TLS_PARAM (str_bool (tls r)) u).
Definition generateUrlInternal (to_string : Z -> string) (hash : list Z -> list Z) (genFull forLogging : bool)
    (r : WdtTransferRequest) : option (list Z) :=
  if negb (bool_decide (errorCode r = OK)) then Some (txt (errorCodeToStr to_string (ErrorCode_value (errorCode r))))
  else let* u := requestUri hash genFull forLogging r in generateUrl u.
Definition genWdtUrlWithSecret (to_string : Z -> string) (hash : list Z -> list Z) (r : WdtTransferRequest) : option (list Z) :=
  generateUrlInternal to_string hash false false r.
Definition request_getLogSafeString (to_string : Z -> string) (hash : list Z -> list Z) (r : WdtTransferRequest) : option (list Z) :=
  generateUrlInternal to_string hash true true r.
End request.

Definition request_eqb (r that : WdtTransferRequest) : bool :=
  bool_decide (transferId r = transferId that) && (protocolVersion r =? protocolVersion that)
  && bool_decide (directory r = directory that) && bool_decide (hostName r = hostName that)
  && bool_decide (ports r = ports that) && bool_decide (encryptionData r = encryptionData that)
  && bool_decide (destIdentifier r = destIdentifier that) && bool_decide (wdtNamespace r = wdtNamespace that).
