(* ===== verification/UriProps.v ===== *)
(** Properties of the URL: what is printed is read back, for a [WdtUri] and for
    a whole request; parsing ends on every string; the string for logging says
    nothing of the secret but its hash. *)
From Stdlib Require Import Ascii.
From S2P Require Import Prelude ErrorCodes Protocol Uri.

(** ** Laws of folly *)

Class FollyLaws `{Folly} : Prop := {
  to_int32_str n : inS 32 n -> to_int32 (str_int n) = Some n;
  to_int64_str n : inS 64 n -> to_int64 (str_int n) = Some n;
  to_bool_str b : to_bool (str_bool b) = Some b;
  str_int_digits n : str_int n <> [] /\ Forall (fun c => c = chr "-" \/ chr "0" <= c <= chr "9") (str_int n);
  str_bool_digits b : str_bool b <> [] /\ Forall (fun c => chr "0" <= c <= chr "9") (str_bool b);
  split_step_none d s : d ∉ s -> split_step d s = (s, []);
  split_step_some d a b : d ∉ a -> split_step d (a ++ d :: b) = (a, b)
}.

(** ** The map *)

Lemma str_compare_refl a : str_compare a a = Eq.
Proof. induction a as [|x a IH]; simpl; [done|]. by rewrite Z.compare_refl. Qed.
Lemma str_compare_eq a b : str_compare a b = Eq <-> a = b.
Proof.
  split; [|intros ->; apply str_compare_refl].
  revert b. induction a as [|x a IH]; intros [|y b]; simpl; try done.
  destruct (x ?= y) eqn:E; try done. apply Z.compare_eq in E as ->. intros ->%IH. done.
Qed.
Lemma str_compare_antisym a b : str_compare b a = CompOpp (str_compare a b).
Proof.
  revert b. induction a as [|x a IH]; intros [|y b]; simpl; try done.
  rewrite (Z.compare_antisym x y). destruct (x ?= y); simpl; auto.
Qed.
Lemma str_compare_trans a b c : str_compare a b = Lt -> str_compare b c = Lt -> str_compare a c = Lt.
Proof.
  revert b c. induction a as [|x a IH]; intros [|y b] [|z c]; simpl; try done.
  destruct (x ?= y) eqn:E1; try done; destruct (y ?= z) eqn:E2; try done; rewrite ?Z.compare_eq_iff, ?Z.compare_lt_iff in *; intros.
  - subst. rewrite Z.compare_refl. eauto.
  - subst. by rewrite (proj2 (Z.compare_lt_iff _ _)).
  - subst. by rewrite (proj2 (Z.compare_lt_iff _ _)).
  - rewrite (proj2 (Z.compare_lt_iff _ _)); [done|lia].
Qed.

Definition before {V} (a b : list Z * V) : Prop := str_compare a.1 b.1 = Lt.
Definition ordered_map {V} (l : list (list Z * V)) : Prop := StronglySorted before l.

Lemma map_get_set {V} k k' (v : V) l : map_get k (map_set k' v l) = if decide (k' = k) then Some v else map_get k l.
Proof.
  induction l as [|[k0 v0] l IH]; simpl.
  - destruct (decide (k' = k)) as [->|Hne]; [by rewrite str_compare_refl|].
    destruct (str_compare k k') eqn:E; try done. by apply str_compare_eq in E as ->.
  - destruct (str_compare k' k0) eqn:E; simpl.
    + apply str_compare_eq in E as ->. destruct (decide (k0 = k)) as [->|Hne]; [by rewrite str_compare_refl|].
      destruct (str_compare k k0) eqn:E; try done. by apply str_compare_eq in E as ->.
    + destruct (decide (k' = k)) as [->|Hne]; [by rewrite str_compare_refl|].
      destruct (str_compare k k') eqn:E'; try done. by apply str_compare_eq in E' as ->.
    + destruct (str_compare k k0) eqn:E'; [|apply IH|apply IH]. apply str_compare_eq in E' as ->.
      destruct (decide (k' = k0)) as [->|]; [|done]. by rewrite str_compare_refl in E.
Qed.

Lemma map_set_ordered {V} k (v : V) l : ordered_map l -> ordered_map (map_set k v l).
Proof.
  unfold ordered_map. induction 1 as [|[k0 v0] l Hl IH Hh]; simpl; [by repeat constructor|].
  destruct (str_compare k k0) eqn:E.
  - apply str_compare_eq in E as ->. by constructor.
  - constructor; [by constructor|]. constructor; [done|].
    eapply Forall_impl; [exact Hh|]. intros [k1 v1] Hk. unfold before in *. simpl in *. by eapply str_compare_trans.
  - constructor; [done|]. apply Forall_forall. intros [k1 v1] Hin. rewrite Forall_forall in Hh.
    assert (str_compare k0 k = Lt) as Hk by (by rewrite str_compare_antisym, E).
    clear IH Hl. induction l as [|[k2 v2] l IH]; simpl in Hin.
    + apply list_elem_of_singleton in Hin. by injection Hin as -> ->.
    + destruct (str_compare k k2) eqn:E2; rewrite ?elem_of_cons in Hin.
      * destruct Hin as [[= -> ->]|Hin]; [done|]. apply (Hh (k1, v1)). rewrite elem_of_cons. auto.
      * destruct Hin as [[= -> ->]|Hin]; [done|]. apply (Hh (k1, v1)). by rewrite elem_of_cons.
      * destruct Hin as [[= -> ->]|Hin]; [apply (Hh (k2, v2)); rewrite elem_of_cons; auto|].
        apply IH; [|done]. intros x Hx. apply Hh. rewrite elem_of_cons. auto.
Qed.

(** Keys that come in order are appended. *)
Lemma map_set_last {V} k (v : V) l : Forall (fun e => before e (k, v)) l -> map_set k v l = l ++ [(k, v)].
Proof.
  induction 1 as [|[k0 v0] l Hb Hl IH]; [done|]. simpl. unfold before in Hb. simpl in Hb.
  rewrite str_compare_antisym, Hb. simpl. by rewrite IH.
Qed.
Lemma foldl_map_set {V} (l acc : list (list Z * V)) :
  ordered_map (acc ++ l) -> foldl (fun m e => map_set e.1 e.2 m) acc l = acc ++ l.
Proof.
  revert acc. induction l as [|[k v] l IH]; intros acc Ho; simpl; [by rewrite app_nil_r|].
  rewrite map_set_last.
  - rewrite IH; rewrite <- app_assoc; [done|exact Ho].
  - clear IH. unfold ordered_map in Ho. induction acc as [|e acc IH]; [constructor|]. simpl in Ho.
    inversion Ho as [|? ? Ho' Hf]; subst. constructor; [|by apply IH].
    rewrite Forall_app, Forall_cons in Hf. apply Hf.
Qed.

(** ** Escapes *)

Definition hex_ok (c : Z) : bool :=
  match hexByte c with
  | Some [m; l] =>
      (0 <=? fromHex m) && (0 <=? fromHex l) && (Z.lor (Z.shiftl (fromHex m) 4) (fromHex l) =? c)
      && negb (m =? chr "&") && negb (l =? chr "&") && bool_decide (Forall is_byte [m; l])
  | _ => false
  end.
Lemma hexByte_ok c : is_byte c -> exists m l, hexByte c = Some [m; l] /\ 0 <= fromHex m /\ 0 <= fromHex l
  /\ Z.lor (Z.shiftl (fromHex m) 4) (fromHex l) = c /\ m <> chr "&" /\ l <> chr "&" /\ Forall is_byte [m; l].
Proof.
  intros Hc. assert (hex_ok c = true) as Hh by (by apply (byte_forall hex_ok); [vm_compute|]).
  unfold hex_ok in Hh. destruct (hexByte c) as [[|m [|l [|? ?]]]|]; try done. exists m, l. bool_to_prop. naive_solver.
Qed.
Lemma unreserved_plain c : unreserved c = true -> c <> chr "%" /\ c <> chr "&".
Proof. intros Hc. split; intros ->; vm_compute in Hc; discriminate Hc. Qed.

Lemma escape_spec s :
  Forall is_byte s -> exists e, escape s = Some e /\ unescape e = (true, s) /\ chr "&" ∉ e /\ (s <> [] -> e <> []).
Proof.
  induction 1 as [|c s Hc Hs (e & IH1 & IH2 & IH3 & _)]; cbn [escape].
  { exists []. split_and!; try done. apply not_elem_of_nil. }
  rewrite IH1. destruct (unreserved c) eqn:Eu; cbn [mbind option_bind].
  - apply unreserved_plain in Eu as [Hp Ha]. exists (c :: e). split_and!; [done| |set_solver|done].
    cbn [unescape]. rewrite (proj2 (Z.eqb_neq c (chr "%")) Hp). simpl. by rewrite IH2.
  - destruct (hexByte_ok c Hc) as (m & l & -> & Hm & Hl & Ec & Ham & Hal & _). cbn [mbind option_bind].
    exists (chr "%" :: m :: l :: e). split_and!; [done| | |done].
    + cbn [unescape]. rewrite Z.eqb_refl. simpl. rewrite (proj2 (Z.ltb_ge (fromHex m) 0)), (proj2 (Z.ltb_ge (fromHex l) 0)) by done.
      simpl. by rewrite IH2, Ec.
    + rewrite !not_elem_of_cons. split_and!; try done.
Qed.

(** ** Printing and parsing *)

Section props.
Context `{FollyLaws}.

(** A parameter that can be in a URL: its key is not escaped. *)
Definition wf_param (e : list Z * list Z) : Prop :=
  e.1 <> [] /\ chr "&" ∉ e.1 /\ chr "=" ∉ e.1 /\ Forall is_byte e.2.
Definition shown (l : list (list Z * list Z)) : list (list Z * list Z) := base.filter (fun e => e.2 <> []) l.

Lemma paramsUrl_shown p l : paramsUrl p l = paramsUrl p (shown l).
Proof.
  revert p. induction l as [|[k v] l IH]; intros p; [done|]. unfold shown. cbn [paramsUrl]. rewrite filter_cons. cbn [snd].
  case_bool_decide as E; [rewrite decide_False by auto; apply IH|]. rewrite decide_True by done. cbn [paramsUrl].
  rewrite bool_decide_eq_false_2 by done. by rewrite IH.
Qed.

(** Printed parameters begin with the prefix, and reading them sets them all. *)
Lemma parseParams_shown l p :
  Forall wf_param l -> Forall (fun e => e.2 <> []) l ->
  (l = [] /\ paramsUrl p l = Some [])
  \/ exists body, l <> [] /\ paramsUrl p l = Some (p :: body) /\ body <> []
     /\ forall n u status, (length body <= n)%nat ->
          parseParams n body status u
          = Some (status, foldl (fun u e => setQueryParam e.1 e.2 u) u l).
Proof.
  intros Hwf Hne. revert p. induction l as [|[k v] l IH]; intros p; [by left|right].
  apply Forall_cons in Hwf as [(Hk & Ha & Heq & Hb) Hwf], Hne as [Hv Hne]. simpl in *.
  rewrite bool_decide_eq_false_2 by done. destruct (escape_spec v Hb) as (ev & -> & Hun & Hamp & Hev). cbn [mbind option_bind].
  assert (chr "&" ∉ k ++ [chr "="] ++ ev) as Hkv by (rewrite !not_elem_of_app, list_elem_of_singleton; done).
  assert (forall rest n u status, (length (k ++ [chr "="] ++ ev ++ rest) <= n)%nat ->
    (rest = [] \/ exists r, rest = chr "&" :: r) ->
    (forall n' u', (length (tail rest) <= n')%nat -> parseParams n' (tail rest) status u'
       = Some (status, foldl (fun u e => setQueryParam e.1 e.2 u) u' l)) ->
    parseParams n (k ++ [chr "="] ++ ev ++ rest) status u
    = Some (status, foldl (fun u e => setQueryParam e.1 e.2 u) (setQueryParam k v u) l)) as Hone.
  { intros rest n u status Hn Hrest Htail. destruct n as [|n]; [destruct k; simpl in *; [done|lia]|]. cbn [parseParams].
    rewrite bool_decide_eq_false_2 by (by destruct k).
    assert (split_step (chr "&") (k ++ [chr "="] ++ ev ++ rest) = (k ++ [chr "="] ++ ev, tail rest)) as ->.
    { destruct Hrest as [->|[r ->]]; [rewrite app_nil_r; by apply split_step_none|].
      replace (k ++ [chr "="] ++ ev ++ chr "&" :: r) with ((k ++ [chr "="] ++ ev) ++ chr "&" :: r)
        by (by rewrite <- !app_assoc). by apply split_step_some. }
    rewrite bool_decide_eq_false_2 by (by destruct k). change ([chr "="] ++ ev) with (chr "=" :: ev).
    rewrite split_step_some, bool_decide_eq_false_2, Hun by done. simpl.
    apply Htail. rewrite !length_app in Hn. destruct rest; simpl in *; [lia|]. destruct k; simpl in *; [done|lia]. }
  destruct (IH Hwf Hne (chr "&")) as [[-> ->]|(body & Hl & -> & Hb' & Hparse)]; cbn [mbind option_bind].
  - exists (k ++ [chr "="] ++ ev ++ []). split_and!; [done..|by destruct k|]. intros n u status Hn.
    rewrite (Hone [] n u status Hn (or_introl eq_refl)); [done|]. by intros [|n'] u' _.
  - exists (k ++ [chr "="] ++ ev ++ chr "&" :: body). split_and!; [done..|by destruct k|]. intros n u status Hn.
    rewrite (Hone _ n u status Hn); [done|by right; eexists|]. intros n' u' Hn'. by apply Hparse.
Qed.

Lemma foldl_setQueryParam l u :
  foldl (fun u e => setQueryParam e.1 e.2 u) u l
  = u <| queryParams_ := foldl (fun m e => map_set e.1 e.2 m) (queryParams_ u) l |>.
Proof. revert u. induction l as [|e l IH]; intros u; simpl; [by destruct u|]. by rewrite IH. Qed.

Lemma break_none p a : Forall (fun c => p c = false) a -> break p a = (a, []).
Proof. induction 1 as [|c a Hc Ha IH]; simpl; [done|]. by rewrite Hc, IH. Qed.
Lemma break_some p a c b : Forall (fun c => p c = false) a -> p c = true -> break p (a ++ c :: b) = (a, c :: b).
Proof. intros Ha Hc. induction Ha as [|x a Hx Ha IH]; simpl; [by rewrite Hc|]. by rewrite Hx, IH. Qed.
Lemma not_in_forall (x : Z) l : x ∉ l -> Forall (fun c => (x =? c) = false) l.
Proof. intros Hx. apply Forall_forall. intros c Hc. apply Z.eqb_neq. by intros ->. Qed.

Lemma cstr_id l : 0 ∉ l -> cstr l = l.
Proof. intros Hl. unfold cstr. by rewrite break_none by (by apply not_in_forall). Qed.

(** A host name that can be in a URL. *)
Definition wf_host (h : list Z) : Prop :=
  h <> [] /\ 0 ∉ h /\ if bool_decide (chr ":" ∈ h) then chr "]" ∉ h else chr "?" ∉ h /\ head h <> Some (chr "[").
Definition hostUrl (h : list Z) : list Z := if bool_decide (chr ":" ∈ h) then [chr "["] ++ h ++ [chr "]"] else h.

Lemma hostPart_url h rest :
  wf_host h -> (rest = [] \/ exists c r, rest = c :: r /\ (c = chr ":" \/ c = chr "?")) ->
  hostPart (hostUrl h ++ rest) = Some (h, rest).
Proof.
  intros (Hne & Hnul & Hh) Hrest. unfold hostUrl. destruct (bool_decide (chr ":" ∈ h)) eqn:Ec.
  - cbn [app hostPart]. rewrite Z.eqb_refl, <- app_assoc. cbn [app].
    rewrite break_some; [by rewrite cstr_id|by apply not_in_forall|apply Z.eqb_refl].
  - apply bool_decide_eq_false in Ec. destruct Hh as [Hq Hb]. destruct h as [|c h]; [done|]. cbn [app hostPart].
    rewrite (proj2 (Z.eqb_neq c _)) by (by intros ->).
    assert (Forall (fun x => (x =? chr ":") || (x =? chr "?") = false) (c :: h)) as Hf.
    { apply Forall_forall. intros x Hx. apply orb_false_iff. rewrite !Z.eqb_neq. split; by intros ->. }
    change (c :: h ++ rest) with ((c :: h) ++ rest).
    destruct Hrest as [->|(x & r & -> & Hx)]; [by rewrite app_nil_r, break_none, cstr_id|].
    rewrite break_some; [by rewrite cstr_id|done|]. by destruct Hx as [-> | ->].
Qed.

Definition wf_uri (u : WdtUri) : Prop :=
  wf_host (hostName_ u) /\ inS 32 (port_ u) /\ ordered_map (queryParams_ u) /\ Forall wf_param (queryParams_ u).
(** What a URL says of a [WdtUri]: parameters without a value are dropped, and
    so is a port that is not positive. *)
Definition readable (u : WdtUri) : WdtUri :=
  mkWdtUri (shown (queryParams_ u)) (hostName_ u) (if 0 <? port_ u then port_ u else -1) OK.

Lemma shown_ordered l : ordered_map l -> ordered_map (shown l).
Proof.
  unfold ordered_map, shown. induction 1 as [|e l Hl IH Hh]; [constructor|]. rewrite filter_cons.
  case_decide; [|done]. constructor; [done|]. rewrite Forall_forall in Hh |- *. intros x [_ Hx]%list_elem_of_filter. auto.
Qed.
Lemma portPart_url port params u :
  inS 32 port -> (params = [] \/ exists r, params = chr "?" :: r) ->
  portPart ((if 0 <? port then [chr ":"] ++ str_int port else []) ++ params) OK u
  = (params, OK, if 0 <? port then setPort port u else u).
Proof.
  intros Hp Hparams. destruct (0 <? port).
  - cbn [app portPart]. rewrite Z.eqb_refl. destruct (str_int_digits port) as [_ Hd].
    assert (Forall (fun c => (chr "?" =? c) = false) (str_int port)) as Hq.
    { eapply Forall_impl; [exact Hd|]. intros c [->|[_ Hc]]; [done|]. apply Z.eqb_neq.
      change (chr "9") with 57 in Hc. change (chr "?") with 63. lia. }
    assert (0 ∉ str_int port) as H0'.
    { intros Hin. rewrite Forall_forall in Hd. destruct (Hd _ Hin) as [Hc|[Hc _]]; [done|]. by vm_compute in Hc. }
    destruct Hparams as [->|[r ->]]; [rewrite app_nil_r, break_none by done|rewrite break_some by done];
      by rewrite cstr_id, to_int32_str.
  - destruct Hparams as [->|[r ->]]; done.
Qed.

(** A URL in front of its parameters. *)
Definition frontUrl (host : list Z) (port : Z) : list Z :=
  WDT_URL_PREFIX ++ hostUrl host ++ (if 0 <? port then [chr ":"] ++ str_int port else []).
Lemma generateUrl_front u :
  generateUrl u = (let* params := paramsUrl (chr "?") (queryParams_ u) in Some (frontUrl (hostName_ u) (port_ u) ++ params)).
Proof.
  unfold generateUrl, frontUrl, hostUrl.
  destruct (bool_decide (chr ":" ∈ hostName_ u)), (0 <? port_ u); rewrite ?app_nil_r, <- ?app_assoc; done.
Qed.
Lemma process_url host port params :
  wf_host host -> inS 32 port -> (params = [] \/ exists r, params = chr "?" :: r) ->
  process (frontUrl host port ++ params) (uri_clear WdtUri_default)
  = (let u := mkWdtUri [] host (if 0 <? port then port else -1) OK in
     match params with [] => Some (OK, u) | _ :: r => parseParams (length r) r OK u end).
Proof.
  intros Hh Hp Hparams. unfold process, frontUrl. rewrite <- !app_assoc, take_app_length, drop_app_length, bool_decide_eq_true_2 by done.
  rewrite (proj2 (Z.ltb_ge _ _)) by (rewrite !Zlen_app; lia). cbn [negb]. rewrite hostPart_url; [|done|].
  2:{ destruct (0 <? port); [right; by repeat eexists; left|].
      destruct Hparams as [->|[r ->]]; [by left|right; by repeat eexists; right]. }
  destruct Hh as [Hne' _]. rewrite (bool_decide_eq_false_2 (host = [])) by done. rewrite portPart_url by done.
  destruct (0 <? port); destruct Hparams as [->|[r ->]]; simpl; by rewrite ?Z.eqb_refl.
Qed.

Lemma uri_roundtrip_lemma u :
  wf_uri u -> exists url, generateUrl u = Some url /\ WdtUri_make url = Some (readable u).
Proof.
  intros (Hh & Hp & Ho & Hw). rewrite generateUrl_front, paramsUrl_shown.
  assert (Forall wf_param (shown (queryParams_ u))) as Hw'.
  { rewrite Forall_forall in Hw |- *. intros x [_ Hx]%list_elem_of_filter. auto. }
  assert (Forall (fun e => e.2 <> []) (shown (queryParams_ u))) as Hne.
  { apply Forall_forall. by intros x [Hx _]%list_elem_of_filter. }
  unfold WdtUri_make, uri_assign.
  destruct (parseParams_shown (shown (queryParams_ u)) (chr "?") Hw' Hne) as [[E ->]|(body & _ & -> & Hb & Hparse)];
    cbn [mbind option_bind]; (eexists; split; [reflexivity|]).
  - rewrite process_url by auto. cbn [mbind option_bind]. unfold readable. rewrite E. by destruct u.
  - rewrite process_url by eauto. rewrite Hparse by done. cbn [mbind option_bind]. rewrite foldl_setQueryParam. simpl.
    rewrite (foldl_map_set _ []); [done|]. by apply shown_ordered.
Qed.

(** ** Parsing ends *)

Lemma split_step_shorter d s : exists a b, split_step d s = (a, b) /\ (b = [] \/ (length b < length s)%nat).
Proof.
  destruct (decide (d ∈ s)) as [Hd|Hd].
  - apply list_elem_of_split_l in Hd as (a & b & -> & Ha). exists a, b. split; [by apply split_step_some|].
    right. rewrite length_app. simpl. lia.
  - exists s, []. split; [by apply split_step_none|by left].
Qed.
Lemma parseParams_total n piece status u : (length piece <= n)%nat -> is_Some (parseParams n piece status u).
Proof.
  revert piece status u. induction n as [|n IH]; intros piece status u Hn; cbn [parseParams].
  { destruct piece; [|simpl in Hn; lia]. eauto. }
  case_bool_decide as Ep; [eauto|]. destruct (split_step_shorter (chr "&") piece) as (kv & rest & -> & Hr).
  assert (length (if bool_decide (kv = []) then [] else rest) <= n)%nat as Hle.
  { destruct piece; [done|]. simpl in Hn. case_bool_decide; simpl; [lia|]. destruct Hr as [->|Hr]; simpl in *; lia. }
  destruct (bool_decide (kv = [])).
  - destruct (split_step_shorter (chr "=") rest) as (k & v & -> & _). case_bool_decide; [eauto|].
    destruct (unescape v). by apply IH.
  - destruct (split_step_shorter (chr "=") kv) as (k & v & -> & _). case_bool_decide; [eauto|].
    destruct (unescape v). by apply IH.
Qed.
Lemma process_total url u : is_Some (process url u).
Proof.
  unfold process. destruct (_ <? _); [eauto|]. destruct (negb _); [eauto|]. destruct (hostPart _) as [[h rest]|]; [|eauto].
  destruct (bool_decide (rest = [])); [eauto|]. destruct (portPart _ _ _) as [[[|c piece] status] u']; [eauto|].
  destruct (negb _); [eauto|]. by apply parseParams_total.
Qed.
Lemma parsePorts_total n piece ps e : (length piece <= n)%nat -> is_Some (parsePorts n piece ps e).
Proof.
  revert piece ps e. induction n as [|n IH]; intros piece ps e Hn; cbn [parsePorts];
    destruct (split_step_shorter (chr ",") piece) as (p & rest & -> & Hr); destruct (if bool_decide (p = []) then _ else _);
    (case_bool_decide; [eauto|]).
  - destruct Hr; [done|]. lia.
  - apply IH. destruct Hr as [->|]; simpl; lia.
Qed.
Lemma request_total url : is_Some (WdtTransferRequest_make url).
Proof.
  unfold WdtTransferRequest_make, WdtUri_make, uri_assign. destruct (process_total url (uri_clear WdtUri_default)) as [[e u] ->].
  cbn [mbind option_bind]. repeat (match goal with |- is_Some (let '(_, _) := ?x in _) => destruct x end).
  set (s := getQueryParam PORTS_PARAM _). match goal with |- context [parsePorts ?n ?s ?ps ?e] =>
    destruct (parsePorts_total n s ps e) as [[l e'] ->]; [done|] end.
  cbn [mbind option_bind]. destruct (if negb _ then _ else _). eauto.
Qed.

(** ** Requests *)

Lemma hexString_spec l :
  Forall is_byte l -> exists h, hexString l = Some h /\ Forall is_byte h /\ forall st type byte data,
    st = FIRST_HEX \/ st = LEFT_HEX ->
    unserialize_loop h st type byte data
    = (Some (if bool_decide (l = []) then st else LEFT_HEX, type), data ++ l).
Proof.
  induction 1 as [|c l Hc Hl (h & IH1 & IHb & IH2)]; cbn [hexString].
  { exists []. split_and!; [done..|]. intros. simpl. by rewrite app_nil_r. }
  destruct (hexByte_ok c Hc) as (m & lo & -> & Hm & Hlo & Ec & _ & _ & Hb). rewrite IH1. cbn [mbind option_bind].
  exists ([m; lo] ++ h). split_and!; [done|by apply Forall_app|].
  - intros st type byte data Hst. cbn [app unserialize_loop].
    rewrite (bool_decide_eq_false_2 (st = IN_TYPE)) by (by destruct Hst as [-> | ->]). cbn [andb].
    rewrite (proj2 (Z.ltb_ge (fromHex m) 0)) by done.
    assert (unserialize_loop (lo :: h) RIGHT_HEX type (Z.shiftl (fromHex m) 4) data = (Some (LEFT_HEX, type), data ++ c :: l)) as E.
    { cbn [unserialize_loop]. rewrite (proj2 (Z.ltb_ge (fromHex lo) 0)) by done. simpl. rewrite Ec, IH2 by auto.
      rewrite <- app_assoc. by case_bool_decide. }
    by destruct Hst as [-> | ->].
Qed.

(** Parameters of an encryption that can be in a URL. *)
Definition wf_encryption (e : EncryptionParams) : Prop :=
  Forall is_byte (ep_data e) /\ (ep_type e = ENC_NONE <-> ep_data e = []).
Lemma encryption_roundtrip e : wf_encryption e -> isSet e = true ->
  exists s, getUrlSafeString e = Some s /\ s <> [] /\ Forall is_byte s /\ unserialize s = (OK, e).
Proof.
  intros [Hb Hn] Hs. unfold isSet in Hs. bool_to_prop. destruct (hexString_spec _ Hb) as (h & Eh & Hh & Hu).
  unfold getUrlSafeString, unserialize. rewrite Eh. destruct e as [t data]. simpl in *.
  assert (data <> []) as Hd by tauto.
  destruct t; [done|..]; cbn [mbind option_bind]; (eexists; split; [reflexivity|]); (split; [done|]);
    (split; [repeat (constructor; [done|]); done|]); cbn [unserialize_loop]; simpl; rewrite Hu by auto;
    rewrite (bool_decide_eq_false_2 (data = [])) by done; done.
Qed.

Lemma ports_contiguous p ps : hasHoles p ps = false -> genPorts_loop (S (length ps)) p = p :: ps.
Proof.
  revert p. induction ps as [|q ps IH]; intros p; [done|]. cbn [hasHoles].
  destruct (q =? wrapS 32 (p + 1)) eqn:E; [|done]. cbn [negb]. bool_to_prop. subst q. intros Hh.
  specialize (IH _ Hh). cbn [length genPorts_loop] in *. by rewrite IH.
Qed.
Lemma str_int_no_comma n : chr "," ∉ str_int n.
Proof.
  destruct (str_int_digits n) as [_ Hd]. rewrite Forall_forall in Hd. intros Hin. destruct (Hd _ Hin) as [Hc|[Hc _]]; [done|].
  by vm_compute in Hc.
Qed.
Lemma parsePorts_list ps n acc e :
  ps <> [] -> Forall (inS 32) ps -> (length (getSerializedPortsList ps) <= n)%nat ->
  parsePorts n (getSerializedPortsList ps) acc e = Some (acc ++ ps, e).
Proof.
  revert n acc. induction ps as [|p ps IH]; intros n acc Hne Hin Hn; [done|]. apply Forall_cons in Hin as [Hp Hin].
  assert (str_int p <> []) as Hs by apply str_int_digits.
  destruct ps as [|q ps].
  - cbn [getSerializedPortsList]. destruct n; cbn [parsePorts]; rewrite split_step_none by apply str_int_no_comma;
      rewrite (bool_decide_eq_false_2 _ Hs), to_int32_str by done; done.
  - change (getSerializedPortsList (p :: q :: ps)) with (str_int p ++ chr "," :: getSerializedPortsList (q :: ps)) in *.
    rewrite length_app, length_cons in Hn. destruct n as [|n]; [lia|]. cbn [parsePorts].
    rewrite split_step_some by apply str_int_no_comma. rewrite (bool_decide_eq_false_2 _ Hs), to_int32_str by done.
    rewrite bool_decide_eq_false_2.
    + rewrite IH; [by rewrite <- app_assoc|done..|lia].
    + assert (str_int q <> []) by apply str_int_digits. cbn [getSerializedPortsList].
      destruct ps; [done|]. by destruct (str_int q).
Qed.

Lemma map_set_wf k v l : wf_param (k, v) -> Forall wf_param l -> Forall wf_param (map_set k v l).
Proof.
  intros Hkv. induction 1 as [|[k0 v0] l Hkv0 Hl IH]; simpl; [by constructor|].
  destruct (str_compare k k0); repeat (constructor; try done).
Qed.
Lemma map_get_absent {V} k (l : list (list Z * V)) : Forall (fun e => str_compare k e.1 = Lt) l -> map_get k l = None.
Proof. induction 1 as [|[k0 v0] l Hb Hl IH]; [done|]. unfold before in Hb. simpl in *. by rewrite Hb. Qed.
Lemma getQueryParam_readable k u : ordered_map (queryParams_ u) -> getQueryParam k (readable u) = getQueryParam k u.
Proof.
  unfold getQueryParam, readable, shown. simpl. induction 1 as [|[k0 v0] l Hl IH Hh]; [done|]. rewrite filter_cons. cbn [snd map_get].
  case_decide as Hv; cbn [map_get].
  - by destruct (str_compare k k0).
  - subst v0. rewrite IH. destruct (str_compare k k0) eqn:E; [|done..].
    apply str_compare_eq in E as ->. by rewrite map_get_absent.
Qed.
Lemma getQueryParam_set k k' v u : getQueryParam k (setQueryParam k' v u) = if decide (k' = k) then v else getQueryParam k u.
Proof. unfold getQueryParam, setQueryParam. simpl. rewrite map_get_set. by case_decide. Qed.
Lemma getQueryParam_host k h u : getQueryParam k (setHostName h u) = getQueryParam k u.
Proof. done. Qed.
Lemma getQueryParam_port k p u : getQueryParam k (setPort p u) = getQueryParam k u.
Proof. done. Qed.

(** The numbers in a URL are bytes. *)
Lemma str_int_bytes n : Forall is_byte (str_int n).
Proof.
  destruct (str_int_digits n) as [_ Hd]. eapply Forall_impl; [exact Hd|].
  intros c [->|Hc]; [done|]. change (48 <= c <= 57) in Hc. unfold is_byte. lia.
Qed.
Lemma str_bool_bytes b : Forall is_byte (str_bool b).
Proof.
  destruct (str_bool_digits b) as [_ Hd]. eapply Forall_impl; [exact Hd|].
  intros c Hc. change (48 <= c <= 57) in Hc. unfold is_byte. lia.
Qed.
Lemma ports_bytes ps : Forall is_byte (getSerializedPortsList ps).
Proof.
  induction ps as [|p [|q ps] IH]; [constructor|apply str_int_bytes|]. cbn [getSerializedPortsList].
  apply Forall_app. split; [apply str_int_bytes|]. by constructor.
Qed.
Lemma convert_shown {A} (conv : list Z -> option A) s x y e : s <> [] -> conv s = Some y -> convert conv s x e = (y, e).
Proof. intros Hs Hc. unfold convert. by rewrite bool_decide_eq_false_2, Hc. Qed.

(** A request that a URL can carry. *)
Definition wf_request (r : WdtTransferRequest) : Prop :=
  errorCode r = OK /\ wf_host (hostName r)
  /\ Forall is_byte (transferId r) /\ Forall is_byte (wdtNamespace r) /\ Forall is_byte (destIdentifier r)
  /\ inS 64 (protocolVersion r) /\ inS 64 (ivChangeInterval r)
  /\ ports r <> [] /\ Forall (fun p => 0 < p /\ inS 32 p) (ports r) /\ inS 32 (Zlen (ports r))
  /\ wf_encryption (encryptionData r).

(** The parameters that a request sets. *)
Lemma setQueryParam_wf k v u :
  wf_param (k, v) -> wf_uri u -> wf_uri (setQueryParam k v u).
Proof.
  intros Hp (Hh & Hpo & Ho & Hw). split_and!; [done..|by apply map_set_ordered|by apply map_set_wf].
Qed.
Lemma param_key (k : string) v :
  bool_decide (txt k <> [] /\ chr "&" ∉ txt k /\ chr "=" ∉ txt k) = true -> Forall is_byte v -> wf_param (txt k, v).
Proof. intros Hk%bool_decide_eq_true Hv. unfold wf_param. naive_solver. Qed.

Lemma serializePorts_wf r u : Forall (fun p => 0 < p /\ inS 32 p) (ports r) -> wf_uri u -> wf_uri (serializePorts r u).
Proof.
  intros Hp Hu. unfold serializePorts. destruct (ports r) as [|p ps]; [done|]. apply Forall_cons in Hp as [[_ Hp] _].
  destruct (hasHoles p ps).
  - apply setQueryParam_wf; [|done]. apply param_key; [done|apply ports_bytes].
  - apply setQueryParam_wf; [apply param_key; [done|apply str_int_bytes]|].
    destruct Hu as (Hh & _ & Ho & Hw). by split_and!.
Qed.
Lemma serializePorts_param k r u :
  k <> PORTS_PARAM -> k <> NUM_PORTS_PARAM -> getQueryParam k (serializePorts r u) = getQueryParam k u.
Proof.
  intros H1 H2. unfold serializePorts. destruct (ports r) as [|p ps]; [done|].
  destruct (hasHoles p ps); rewrite getQueryParam_set, decide_False by auto; done.
Qed.
Lemma serializePorts_host r u : hostName_ (serializePorts r u) = hostName_ u.
Proof. unfold serializePorts. destruct (ports r) as [|p ps]; [done|]. by destruct (hasHoles p ps). Qed.

(** What can be read from the URI of a request. *)
Definition describes (r : WdtTransferRequest) (u : WdtUri) : Prop :=
  let get k := getQueryParam k u in
  hostName_ u = hostName r /\ get TRANSFER_ID_PARAM = transferId r /\ get NAMESPACE_PARAM = wdtNamespace r
  /\ get DEST_IDENTIFIER_PARAM = destIdentifier r /\ get DIRECTORY_PARAM = []
  /\ get RECEIVER_PROTOCOL_VERSION_PARAM = str_int (protocolVersion r)
  /\ get IV_CHANGE_INTERVAL_PARAM = str_int (ivChangeInterval r)
  /\ get DOWNLOAD_RESUMPTION_PARAM = (if downloadResumptionEnabled r then str_bool true else [])
  /\ get TLS_PARAM = str_bool (tls r)
  /\ (if isSet (encryptionData r) then get ENCRYPTION_PARAM <> [] /\ unserialize (get ENCRYPTION_PARAM) = (OK, encryptionData r)
      else get ENCRYPTION_PARAM = [])
  /\ match ports r with
     | [] => True
     | p :: ps =>
         if hasHoles p ps then get PORTS_PARAM = getSerializedPortsList (ports r)
         else get PORTS_PARAM = [] /\ port_ u = p /\ get NUM_PORTS_PARAM = str_int (Zlen (ports r))
     end.

Local Ltac param := rewrite ?getQueryParam_set, ?serializePorts_param, ?getQueryParam_host by done;
  repeat first [rewrite decide_True by done | rewrite decide_False by done].

Lemma serializePorts_describes r u : 
  getQueryParam PORTS_PARAM u = [] -> 
  match ports r with
  | [] => True
  | p :: ps =>
      if hasHoles p ps then getQueryParam PORTS_PARAM (serializePorts r u) = getSerializedPortsList (ports r)
      else getQueryParam PORTS_PARAM (serializePorts r u) = [] /\ port_ (serializePorts r u) = p
           /\ getQueryParam NUM_PORTS_PARAM (serializePorts r u) = str_int (Zlen (ports r))
  end.
Proof.
  intros Hu. unfold serializePorts. destruct (ports r) as [|p ps]; [done|].
  destruct (hasHoles p ps); [by param|]. split_and!; [param; by rewrite getQueryParam_port|done|by param].
Qed.

Lemma encryption_uri enc u :
  wf_uri u -> wf_encryption enc -> getQueryParam ENCRYPTION_PARAM u = [] ->
  exists e, (if isSet enc then let* s := getUrlSafeString enc in Some (setQueryParam ENCRYPTION_PARAM s u) else Some u) = Some e
    /\ wf_uri e /\ hostName_ e = hostName_ u /\ port_ e = port_ u
    /\ (forall k, k <> ENCRYPTION_PARAM -> getQueryParam k e = getQueryParam k u)
    /\ if isSet enc then getQueryParam ENCRYPTION_PARAM e <> [] /\ unserialize (getQueryParam ENCRYPTION_PARAM e) = (OK, enc)
       else getQueryParam ENCRYPTION_PARAM e = [].
Proof.
  intros Wu Henc Hu. destruct (isSet enc) eqn:Es; [|by eexists].
  destruct (encryption_roundtrip _ Henc Es) as (s & -> & Hs & Hb & Hun). cbn [mbind option_bind]. eexists. split; [reflexivity|].
  split_and!; [apply setQueryParam_wf; [by apply param_key|done]|done|done| |by param..].
  intros k Hk. by rewrite getQueryParam_set, decide_False.
Qed.

(** The parameters that do not depend on the ports and the encryption. *)
Definition plainUri (r : WdtTransferRequest) : WdtUri :=
  let u := setHostName (hostName r) WdtUri_default in
  let u := setQueryParam TRANSFER_ID_PARAM (transferId r) u in
  let u := setQueryParam NAMESPACE_PARAM (wdtNamespace r) u in
  let u := setQueryParam DEST_IDENTIFIER_PARAM (destIdentifier r) u in
  let u := setQueryParam RECEIVER_PROTOCOL_VERSION_PARAM (str_int (protocolVersion r)) u in
  let u := setQueryParam IV_CHANGE_INTERVAL_PARAM (str_int (ivChangeInterval r)) u in
  if downloadResumptionEnabled r
  then setQueryParam DOWNLOAD_RESUMPTION_PARAM (str_bool (downloadResumptionEnabled r)) u else u.
Lemma plainUri_wf r : wf_request r -> wf_uri (plainUri r).
Proof.
  intros (_ & Hh & Hid & Hns & Hd & _). unfold plainUri.
  destruct (downloadResumptionEnabled r);
    repeat (apply setQueryParam_wf; [apply param_key; [done|done || apply str_int_bytes || apply str_bool_bytes]|]);
    (split_and!; [done|done|constructor..]).
Qed.

Lemma requestUri_spec hash r :
  wf_request r -> exists u, requestUri hash false false r = Some u /\ wf_uri u /\ describes r u.
Proof.
  intros Hr. pose proof (plainUri_wf r Hr) as Wp. destruct Hr as (_ & _ & _ & _ & _ & _ & _ & _ & Hps & _ & Henc).
  pose proof (serializePorts_wf r _ Hps Wp) as Ws.
  assert (getQueryParam PORTS_PARAM (plainUri r) = [] /\ getQueryParam ENCRYPTION_PARAM (plainUri r) = []) as [Hno1 Hno2].
  { unfold plainUri. destruct (downloadResumptionEnabled r); split; by param. }
  destruct (encryption_uri (encryptionData r) _ Ws Henc) as (e & Heq & We & Hhe & Hpe & Ee & Henc').
  { by param. }
  exists (setQueryParam TLS_PARAM (str_bool (tls r)) e). split.
  { change (requestUri hash false false r) with (let* e := (if isSet (encryptionData r) then let* s := getUrlSafeString (encryptionData r) in
      Some (setQueryParam ENCRYPTION_PARAM s (serializePorts r (plainUri r))) else Some (serializePorts r (plainUri r))) in
      Some (setQueryParam TLS_PARAM (str_bool (tls r)) e)). by rewrite Heq. }
  split; [apply setQueryParam_wf; [apply param_key; [done|apply str_bool_bytes]|done]|].
  pose proof (serializePorts_describes r (plainUri r) Hno1) as Hports.
  unfold describes. rewrite !(getQueryParam_set _ TLS_PARAM).
  repeat first [rewrite decide_True by done | rewrite decide_False by done].
  rewrite !(Ee _) by done.
  split_and!; try done; try (unfold plainUri; destruct (downloadResumptionEnabled r); by param).
  - simpl. rewrite Hhe, serializePorts_host. unfold plainUri. by destruct (downloadResumptionEnabled r).
  - destruct (ports r) as [|p ps]; [done|]. simpl port_. by rewrite Hpe, !Ee by done.
Qed.

(** Printing loses nothing of it. *)
Lemma describes_readable r u : wf_request r -> wf_uri u -> describes r u -> describes r (readable u).
Proof.
  intros (_ & _ & _ & _ & _ & _ & _ & _ & Hps & _) (_ & _ & Ho & _). unfold describes.
  rewrite !(getQueryParam_readable _ u) by done.
  intros (? & ? & ? & ? & ? & ? & ? & ? & ? & ? & Hp). split_and!; try done.
  destruct (ports r) as [|p ps]; [done|]. apply Forall_cons in Hps as [[Hpos _] _].
  destruct (hasHoles p ps); [done|]. destruct Hp as (? & Hpu & ?). split_and!; try done.
  simpl. rewrite Hpu. by rewrite (proj2 (Z.ltb_lt 0 p)).
Qed.

Lemma ports_read r u :
  wf_request r -> describes r u ->
  exists l, parsePorts (length (getQueryParam PORTS_PARAM u)) (getQueryParam PORTS_PARAM u) [] OK = Some (l, OK)
    /\ (if negb (bool_decide (l = [])) then (l, OK) else portsFromStart u OK) = (ports r, OK).
Proof.
  intros (_ & _ & _ & _ & _ & _ & _ & Hne & Hps & Hlen & _) (_ & _ & _ & _ & _ & _ & _ & _ & _ & _ & Hp).
  destruct (ports r) as [|p ps] eqn:E; [done|]. destruct (hasHoles p ps) eqn:Eh.
  - exists (p :: ps). rewrite Hp, parsePorts_list; [done|done| |done].
    eapply Forall_impl; [exact Hps|]. by intros x [_ Hx].
  - destruct Hp as (-> & Hpu & Hn). exists []. simpl. rewrite split_step_none by apply not_elem_of_nil. simpl. split; [done|].
    unfold portsFromStart. apply Forall_cons in Hps as [[Hpos _] _].
    rewrite Hpu, Hn, (proj2 (Z.leb_gt p 0)), (bool_decide_eq_false_2 (str_int _ = [])) by (done || apply str_int_digits).
    rewrite (convert_shown _ _ _ (Zlen (p :: ps))) by (apply str_int_digits || by apply to_int32_str).
    rewrite (bool_decide_eq_true_2 (OK = OK)) by done. unfold genPortsVector.
    replace (Z.to_nat (Zlen (p :: ps))) with (S (length ps)) by (unfold Zlen; simpl; lia). by rewrite ports_contiguous.
Qed.

Lemma request_read url r u :
  wf_request r -> WdtUri_make url = Some u -> errorCode_ u = OK -> describes r u ->
  WdtTransferRequest_make url = Some (r <| directory := [] |>).
Proof.
  intros Hr Hu Hok Hd. unfold WdtTransferRequest_make. rewrite Hu. cbn [mbind option_bind]. rewrite Hok.
  destruct (ports_read r u Hr Hd) as (l & Hl & Hports).
  destruct Hr as (He & _ & _ & _ & _ & Hv & Hiv & _ & _ & _ & Hw).
  destruct Hd as (-> & -> & -> & -> & -> & -> & -> & Hdr & -> & Henc & _).
  set (enc := if bool_decide (getQueryParam ENCRYPTION_PARAM u = []) then _ else _).
  assert (enc = (encryptionData r, OK)) as ->.
  { unfold enc. destruct (isSet (encryptionData r)) eqn:Es.
    - destruct Henc as [Hne Hun]. by rewrite bool_decide_eq_false_2, Hun.
    - rewrite Henc. unfold isSet in Es. bool_to_prop. destruct Hw as [_ Hw]. simpl.
      destruct (encryptionData r) as [t d]. simpl in *. subst t. by rewrite (proj1 Hw). }
  cbv beta iota.
  rewrite (convert_shown to_bool (str_bool _) _ (tls r)) by (apply str_bool_digits || apply to_bool_str). cbv beta iota.
  assert (forall e, convert to_bool (getQueryParam DOWNLOAD_RESUMPTION_PARAM u) false e = (downloadResumptionEnabled r, e)) as Hc.
  { intros e. rewrite Hdr. destruct (downloadResumptionEnabled r); [|done].
    by rewrite (convert_shown _ _ _ true) by (apply str_bool_digits || apply to_bool_str). }
  simpl (downloadResumptionEnabled _). rewrite Hc. cbv beta iota.
  rewrite (convert_shown to_int64 (str_int _) _ (protocolVersion r)) by (apply str_int_digits || by apply to_int64_str).
  cbv beta iota.
  rewrite (convert_shown to_int64 (str_int _) _ (ivChangeInterval r)) by (apply str_int_digits || by apply to_int64_str).
  cbv beta iota. rewrite Hl. cbn [mbind option_bind]. cbv beta iota. rewrite Hports. cbv beta iota. rewrite <- He. by destruct r.
Qed.

(** What [generateUrl] prints of a URI with a usable host and keys, the
    constructor from a string reads back without an error: the host, a positive
    port, and every parameter that has a value, whatever bytes the value has. *)
Theorem uri_roundtrip u :
  wf_uri u -> exists url, generateUrl u = Some url /\ WdtUri_make url = Some (readable u).
Proof. apply uri_roundtrip_lemma. Qed.

(** C28: The URL of a request with its secret gives the sender the same request:
    every field but the directory, which the URL leaves out; contiguous ports
    as the first one and their number, others as a list. *)
Theorem request_roundtrip to_string hash r :
  wf_request r ->
  exists url, genWdtUrlWithSecret to_string hash r = Some url
    /\ WdtTransferRequest_make url = Some (r <| directory := [] |>).
Proof.
  intros Hr. destruct (requestUri_spec hash r Hr) as (u & Hu & Wu & Du).
  destruct (uri_roundtrip_lemma u Wu) as (url & Hg & Hm). exists url.
  unfold genWdtUrlWithSecret, generateUrlInternal. rewrite (bool_decide_eq_true_2 (errorCode r = OK)) by apply Hr.
  rewrite Hu. split; [exact Hg|]. eapply request_read; [done|exact Hm|done|]. by apply describes_readable.
Qed.

(** The constructors from a string end with an object for every string:
    the loops over the parameters and over the ports take a byte of what is
    left in every round, so a round per byte is enough; whatever is wrong with
    the string is in the error code. *)
Theorem url_parse_total url : is_Some (WdtUri_make url) /\ is_Some (WdtTransferRequest_make url).
Proof.
  split; [|apply request_total]. unfold WdtUri_make, uri_assign.
  destruct (process_total url (uri_clear WdtUri_default)) as [[e u] ->]. by eexists.
Qed.

(** The string of a request for the log depends on the key only through its
    hash: with another key of the same hash it is the same string. *)
Theorem log_string_hides_secret to_string hash r data :
  hash data = hash (ep_data (encryptionData r)) ->
  request_getLogSafeString to_string hash (r <| encryptionData := mkEncryptionParams (ep_type (encryptionData r)) data |>)
  = request_getLogSafeString to_string hash r.
Proof.
  intros Hh. unfold request_getLogSafeString, generateUrlInternal, requestUri, encryption_getLogSafeString, isSet. simpl.
  by rewrite Hh.
Qed.
End props.
