(* ===== verification/UriExamples.v ===== *)
(** URLs by example: numbers in decimal as an instance of [Folly], the
    witnesses of the theorems of [UriProps], and URLs that are read in part. *)
From Stdlib Require Import Ascii Decimal DecimalString DecimalZ DecimalFacts.
From S2P Require Import Prelude ErrorCodes Protocol Uri UriProps.

(** ** Decimal numbers *)

Definition untxt (l : list Z) : string := String.string_of_list_ascii ((fun c => Ascii.ascii_of_nat (Z.to_nat c)) <$> l).
Lemma untxt_txt s : untxt (txt s) = s.
Proof.
  unfold untxt, txt. rewrite <- list_fmap_compose. rewrite <- (String.string_of_list_ascii_of_string s) at 2. f_equal.
  induction (String.list_ascii_of_string s) as [|c l IH]; [done|]. rewrite fmap_cons, IH. simpl.
  by rewrite Nat2Z.id, Ascii.ascii_nat_embedding.
Qed.
Definition dec_int (n : Z) : list Z := txt (NilZero.string_of_int (Z.to_int n)).
Definition int_dec (w : Z) (s : list Z) : option Z :=
  let* d := NilZero.int_of_string (untxt s) in
  check bool_decide (inS w (Z.of_int d)) ;; Some (Z.of_int d).
Fixpoint split_at (d : Z) (s : list Z) : list Z * list Z :=
  match s with [] => ([], []) | c :: s => if c =? d then ([], s) else let '(a, b) := split_at d s in (c :: a, b) end.
Definition bool_dec (s : list Z) : option bool :=
  if bool_decide (s = txt "1") then Some true else if bool_decide (s = txt "0") then Some false else None.
#[global] Instance Decimal_folly : Folly := {|
  to_int32 := int_dec 32; to_int64 := int_dec 64; to_bool := bool_dec;
  str_int := dec_int; str_bool b := txt (if b then "1" else "0"); split_step := split_at |}.

Lemma int_dec_ok w n : inS w n -> int_dec w (dec_int n) = Some n.
Proof.
  intros Hn. unfold int_dec, dec_int. rewrite untxt_txt, NilZero.isi.
  - cbn [mbind option_bind]. rewrite DecimalZ.of_to. by rewrite bool_decide_eq_true_2.
  - destruct n; simpl; [done| |done]. intros [= E]. by apply DecimalPos.Unsigned.to_uint_nonnil in E.
  - destruct n; simpl; [done|done|]. intros [= E]. by apply DecimalPos.Unsigned.to_uint_nonnil in E.
Qed.
Lemma uint_digits d : Forall (fun c => chr "0" <= c <= chr "9") (txt (NilEmpty.string_of_uint d)).
Proof. induction d; [constructor|..]; (constructor; [by vm_compute|done]). Qed.
Lemma dec_int_digits n : dec_int n <> [] /\ Forall (fun c => c = chr "-" \/ chr "0" <= c <= chr "9") (dec_int n).
Proof.
  unfold dec_int. assert (forall d, Forall (fun c => c = chr "-" \/ chr "0" <= c <= chr "9") (txt (NilZero.string_of_uint d))) as Hu.
  { intros d. destruct d; [constructor; [by right|constructor]|..];
      (eapply Forall_impl; [apply (uint_digits (_ d))|by right]). }
  destruct (Z.to_int n) as [d|d]; simpl.
  - split; [by destruct d|apply Hu].
  - split; [done|]. constructor; [by left|apply Hu].
Qed.
Lemma split_at_none d s : d ∉ s -> split_at d s = (s, []).
Proof.
  induction s as [|c s IH]; [done|]. rewrite not_elem_of_cons. intros [Hc Hs]. simpl.
  by rewrite (proj2 (Z.eqb_neq c d)), IH by auto.
Qed.
Lemma split_at_some d a b : d ∉ a -> split_at d (a ++ d :: b) = (a, b).
Proof.
  induction a as [|c a IH]; simpl; [by rewrite Z.eqb_refl|]. rewrite not_elem_of_cons. intros [Hc Hs].
  by rewrite (proj2 (Z.eqb_neq c d)), IH by auto.
Qed.
#[global] Instance Decimal_laws : FollyLaws.
Proof.
  split; simpl; intros; [by apply int_dec_ok..|by destruct b|apply dec_int_digits| |by apply split_at_none|by apply split_at_some].
  destruct b; (split; [done|]); (constructor; [by vm_compute|constructor]).
Qed.

(** ** The round trips *)

(** An IPv6 host, bytes that need escapes, and a parameter without a value. *)
Definition ex_uri : WdtUri :=
  setQueryParam (txt "k") [0; 38; 61; 255] (setQueryParam (txt "a") [] (setPort 22356 (setHostName (txt "::1") WdtUri_default))).
Lemma uri_roundtrip_witness :
  wf_uri ex_uri
  /\ (exists url, generateUrl ex_uri = Some url /\ WdtUri_make url = Some (readable ex_uri))
  /\ generateUrl ex_uri = Some (txt "wdt://[::1]:22356?k=%00%26%3d%ff").
Proof.
  assert (wf_uri ex_uri) as Hu.
  { repeat (apply setQueryParam_wf; [apply param_key; [done|repeat (constructor; [done|]); constructor]|]).
    split_and!; [|done|constructor..].
    split_and!; [done|apply (bool_decide_unpack _); by vm_compute|]. simpl. apply (bool_decide_unpack _). by vm_compute. }
  split; [exact Hu|]. split; [apply uri_roundtrip, Hu|]. by vm_compute.
Defined.

Definition ex_request (ps : list Z) : WdtTransferRequest :=
  WdtTransferRequest_default <| transferId := txt "a b" |> <| hostName := txt "host" |> <| ports := ps |> <| directory := txt "/tmp" |>
    <| encryptionData := mkEncryptionParams ENC_AES128_GCM [0; 171; 16] |> <| tls := true |> <| downloadResumptionEnabled := true |>.
Definition no_hash (_ : list Z) : list Z := txt "123".
Lemma ex_request_wf ps :
  ps <> [] -> Forall (fun p => 0 < p /\ inS 32 p) ps -> inS 32 (Zlen ps) -> wf_request (ex_request ps).
Proof.
  intros Hne Hps Hl. split_and!; try done.
  - split_and!; [done|apply (bool_decide_unpack _); by vm_compute|]. simpl.
    split; [|done]. apply (bool_decide_unpack _). by vm_compute.
  - repeat (constructor; [done|]). constructor.
  - split; [|done]. repeat (constructor; [done|]). constructor.
Qed.
Lemma request_roundtrip_witness :
  (wf_request (ex_request [22356; 22357]) /\ wf_request (ex_request [22356; 22360]))
  /\ (exists url, genWdtUrlWithSecret (fun _ => "") no_hash (ex_request [22356; 22357]) = Some url
       /\ WdtTransferRequest_make url = Some (ex_request [22356; 22357] <| directory := [] |>))
  /\ (exists url, genWdtUrlWithSecret (fun _ => "") no_hash (ex_request [22356; 22360]) = Some url
       /\ WdtTransferRequest_make url = Some (ex_request [22356; 22360] <| directory := [] |>))
  /\ genWdtUrlWithSecret (fun _ => "") no_hash (ex_request [22356; 22357])
     = Some (txt "wdt://host:22356?Enc=2:00ab10&dr=1&id=a%20b&iv_change_int=0&num_ports=2&recpv=32&tls=1").
Proof.
  assert (wf_request (ex_request [22356; 22357])) as H1.
  { apply ex_request_wf; [done|by repeat constructor|done]. }
  assert (wf_request (ex_request [22356; 22360])) as H2.
  { apply ex_request_wf; [done|by repeat constructor|done]. }
  split; [by split|]. split; [by apply request_roundtrip|]. split; [by apply request_roundtrip|]. by vm_compute.
Defined.
Lemma log_string_hides_secret_witness :
  no_hash [1; 2] = no_hash [0; 171; 16]
  /\ request_getLogSafeString (fun _ => "") no_hash (ex_request [1] <| encryptionData := mkEncryptionParams ENC_AES128_GCM [1; 2] |>)
     = request_getLogSafeString (fun _ => "") no_hash (ex_request [1])
  /\ request_getLogSafeString (fun _ => "") no_hash (ex_request [1])
     = Some (txt "wdt://host:1?Enc=2:...123...&dir=%2ftmp&dr=1&id=a%20b&iv_change_int=0&num_ports=1&recpv=32&tls=1").
Proof.
  split; [done|]. split; [exact (log_string_hides_secret (fun _ => "") no_hash (ex_request [1]) [1; 2] eq_refl)|]. by vm_compute.
Defined.

Lemma url_parse_total_witness :
  FollyLaws /\ is_Some (WdtUri_make (txt "wdt://h?a&=b")) /\ is_Some (WdtTransferRequest_make (txt "wdt://h?a&=b")).
Proof. split; [apply Decimal_laws|]. exact (url_parse_total (txt "wdt://h?a&=b")). Defined.

(** ** URLs that are read in part *)

Definition ex_read (url : string) : option (ErrorCode * list Z * Z * QueryParams) :=
  (fun u => (errorCode_ u, hostName_ u, port_ u, queryParams_ u)) <$> WdtUri_make (txt url).
Definition ex_read_request (url : string) : option (ErrorCode * list Z) :=
  (fun r => (errorCode r, ports r)) <$> WdtTransferRequest_make (txt url).

Example ex_read_params :
  ex_read "wdt://blah.com?k1=v1&k2=v2&k3=v3.1,v3.2"
  = Some (OK, txt "blah.com", -1, [(txt "k1", txt "v1"); (txt "k2", txt "v2"); (txt "k3", txt "v3.1,v3.2")]).
Proof. by vm_compute. Qed.
Example ex_read_errors :
  ex_read "wdt://?a=10" = Some (URI_PARSE_ERROR, [], -1, [(txt "a", txt "10")])
  /\ ex_read "wdt://[::1]:" = Some (URI_PARSE_ERROR, txt "::1", -1, [])
  /\ ex_read "wdt://[121" = Some (URI_PARSE_ERROR, [], -1, [])
  /\ ex_read "wdt://[]:22356" = Some (URI_PARSE_ERROR, [], 22356, [])
  /\ ex_read "wdt://]:22356" = Some (OK, txt "]", 22356, []).
Proof. by vm_compute. Qed.
Example ex_read_ports :
  ex_read_request "wdt://[::1]:24689?num_ports=3" = Some (OK, [24689; 24690; 24691])
  /\ ex_read_request "wdt://[::1]?num_ports=10" = Some (INVALID_REQUEST, [])
  /\ ex_read_request "wdt://[::1]:12345?num_ports=abc" = Some (URI_PARSE_ERROR, [])
  /\ ex_read_request "wdt://[::1]:24689?start_port=22356&ports=1,2,3,4" = Some (OK, [1; 2; 3; 4])
  /\ ex_read_request "wdt://[::1]:24689?num_ports=0" = Some (OK, []).
Proof. by vm_compute. Qed.

(** An empty pair between two [&] is taken for the last one: the rest of the
    URL, further pairs included, becomes the value of one parameter, and no
    error is reported. *)
Theorem empty_pair_swallows_the_rest :
  WdtUri_make (txt "wdt://h?a=1&&b=2&c=3")
  = Some (mkWdtUri [(txt "a", txt "1"); (txt "b", txt "2&c=3")] (txt "h") (-1) OK).
Proof. by vm_compute. Qed.
