(* ===== verification/Throttler.v ===== *)
(** The throttler: [Throttler] of [Throttler.cpp].

    A [double] is a rational, and every arithmetic operation on doubles rounds
    its result with [rnd].  A time is the count of nanoseconds of the clock.  A
    conversion of a [double] that is out of range to [int64_t] is undefined and
    makes the operation [None].

    The theorems on the rates are for exact arithmetic, [rnd q = q]; the others
    are for every rounding. *)
From Stdlib Require Import QArith Qround Lqa.
From S2P Require Import Prelude.

(** Towards zero, as a conversion to an integer type. *)
Definition trunc (q : Q) : Z := Z.quot (Qnum q) (QDen q).
Definition to_int64_t (q : Q) : option Z := check bool_decide (inS 64 (trunc q)) ;; Some (trunc q).
Definition Qltb (a b : Q) : bool := negb (Qle_bool b a).

Record ThrottlerOptions := mkThrottlerOptions {
  avg_rate_per_sec : Q;
  max_rate_per_sec : Q;
  throttler_bucket_limit : Q;
  throttler_log_time_millis : Z;
  single_request_limit : Z
}.

Record Throttler := mkThrottler {
  startTime_ : Z;
  lastLogTime_ : Z;
  instantProgress_ : Q;
  progress_ : Q;
  lastFillTime_ : Z;
  tokenBucket_ : Z;
  refCount_ : Z;
  avgRatePerSec_ : Q;
  tokenBucketLimit_ : Q;
  bucketRatePerSec_ : Q;
  singleRequestLimit_ : Z;
  throttlerLogTimeMillis_ : Z
}.
#[global] Instance Throttler_settable : Settable Throttler := fun t =>
  mkThrottler (startTime_ t) (lastLogTime_ t) (instantProgress_ t) (progress_ t) (lastFillTime_ t) (tokenBucket_ t)
    (refCount_ t) (avgRatePerSec_ t) (tokenBucketLimit_ t) (bucketRatePerSec_ t) (singleRequestLimit_ t)
    (throttlerLogTimeMillis_ t).

Section throttler.
Context (rnd : Q -> Q).

Definition kMillisecsPerSec : Z := 1000.
Definition kPeakMultiplier : Q := rnd (6 # 5).
Definition kBucketMultiplier : Q := 2.
Definition kTimeMultiplier : Q := 1 # 4.

Definition dmul (a b : Q) : Q := rnd (a * b).
Definition ddiv (a b : Q) : Q := rnd (a / b).
Definition dadd (a b : Q) : Q := rnd (a + b).
Definition dsub (a b : Q) : Q := rnd (a - b).
Definition of_int (z : Z) : Q := rnd (inject_Z z).
(** [std::chrono::duration<double>] of a difference of times. *)
Definition seconds (d : Z) : Q := ddiv (of_int d) 1000000000.

(** The average rate is not changed. *)
Definition configureOptions (avgRatePerSec peakRatePerSec bucketLimit : Q) : Q * Q :=
  let peakRatePerSec :=
    if Qltb peakRatePerSec avgRatePerSec && Qle_bool 0 peakRatePerSec then dmul kPeakMultiplier avgRatePerSec else peakRatePerSec in
  let bucketLimit :=
    if Qle_bool bucketLimit 0 && Qltb 0 peakRatePerSec
    then dmul (dmul kTimeMultiplier kBucketMultiplier) peakRatePerSec else bucketLimit in
  (peakRatePerSec, bucketLimit).

Definition Throttler_make (options : ThrottlerOptions) : option Throttler :=
  let bucketRatePerSec := max_rate_per_sec options in
  let tokenBucketLimit := dmul (dmul kTimeMultiplier kBucketMultiplier) bucketRatePerSec in
  let tokenBucketLimit := if Qltb 0 (throttler_bucket_limit options) then throttler_bucket_limit options else tokenBucketLimit in
  check 0 <? single_request_limit options ;;
  Some (mkThrottler 0 0 0 0 0 0 0 (avg_rate_per_sec options) tokenBucketLimit bucketRatePerSec
          (single_request_limit options) (throttler_log_time_millis options)).

Definition resetState (now : Z) (t : Throttler) : Throttler :=
  t <| startTime_ := now |> <| lastFillTime_ := now |> <| lastLogTime_ := now |> <| instantProgress_ := 0%Q |>
    <| progress_ := 0%Q |> <| tokenBucket_ := 0 |>.

(** The other overload, for rates in variables of the caller, which it updates. *)
Definition setThrottlerRates_vars (now : Z) (avgRatePerSec bucketRatePerSec tokenBucketLimit : Q) (t : Throttler)
    : Q * Q * Throttler :=
  let '(bucketRatePerSec, tokenBucketLimit) := configureOptions avgRatePerSec bucketRatePerSec tokenBucketLimit in
  (bucketRatePerSec, tokenBucketLimit,
   resetState now t <| avgRatePerSec_ := avgRatePerSec |> <| bucketRatePerSec_ := bucketRatePerSec |>
     <| tokenBucketLimit_ := tokenBucketLimit |>).
Definition setThrottlerRates (now : Z) (options : ThrottlerOptions) (t : Throttler) : Throttler :=
  (setThrottlerRates_vars now (avg_rate_per_sec options) (max_rate_per_sec options) (throttler_bucket_limit options) t).2.

Definition averageThrottler (now : Z) (t : Throttler) : Q :=
  let elapsedSeconds := seconds (now - startTime_ t) in
  if Qle_bool (avgRatePerSec_ t) 0 then -1
  else
    let allowedProgress := dmul (avgRatePerSec_ t) elapsedSeconds in
    if Qltb allowedProgress (progress_ t) then
      let idealTime := ddiv (progress_ t) (avgRatePerSec_ t) in
      dsub idealTime elapsedSeconds
    else -1.

(** The token bucket, with the lock still held: what to sleep and the new state. *)
Definition tokenBucket (deltaProgress : Q) (now : Z) (t : Throttler) : option (Q * Throttler) :=
  let elapsedSeconds := seconds (now - lastFillTime_ t) in
  let* filled := to_int64_t (dadd (of_int (tokenBucket_ t)) (dmul elapsedSeconds (bucketRatePerSec_ t))) in
  let* capped := if Qltb (tokenBucketLimit_ t) (of_int filled) then to_int64_t (tokenBucketLimit_ t) else Some filled in
  let* remaining := to_int64_t (dsub (of_int capped) deltaProgress) in
  let t := t <| lastFillTime_ := now |> <| tokenBucket_ := remaining |> in
  Some (if remaining <? 0 then ddiv (dmul (-1) (of_int remaining)) (bucketRatePerSec_ t) else (-1)%Q, t).
Definition calculateSleep (deltaProgress : Q) (now : Z) (t : Throttler) : option (Q * Throttler) :=
  if refCount_ t <=? 0 then Some ((-1)%Q, t)
  else
    let t := t <| progress_ := dadd (progress_ t) deltaProgress |> in
    let avgThrottlerSleep := averageThrottler now t in
    if Qltb 0 avgThrottlerSleep then Some (avgThrottlerSleep, t)
    else if Qltb 0 (bucketRatePerSec_ t) && Qltb 0 (tokenBucketLimit_ t) then tokenBucket deltaProgress now t
    else Some ((-1)%Q, t).

Definition printPeriodicLogs (now : Z) (deltaProgress : Q) (t : Throttler) : Throttler :=
  let t := t <| instantProgress_ := dadd (instantProgress_ t) deltaProgress |> in
  let elapsedLogSeconds := seconds (now - lastLogTime_ t) in
  if Qle_bool (of_int (throttlerLogTimeMillis_ t)) (dmul elapsedLogSeconds (of_int kMillisecsPerSec))
  then t <| instantProgress_ := 0%Q |> <| lastLogTime_ := now |>
  else t.

(** The result is the time to sleep; not positive when the thread goes on. *)
Definition limitSingleRequest (now : Z) (deltaProgress : Z) (t : Throttler) : option (Q * Throttler) :=
  check deltaProgress <=? singleRequestLimit_ t ;;
  let* (sleepTimeSeconds, t) := calculateSleep (of_int deltaProgress) now t in
  Some (sleepTimeSeconds,
        if 0 <? throttlerLogTimeMillis_ t then printPeriodicLogs now (of_int deltaProgress) t else t).

(** The loop: [clock] gives the time of each round; the requests it made, with
    their times to sleep. *)
Fixpoint limit_loop (rounds : nat) (clock : nat -> Z) (numThrottled deltaProgress : Z) (t : Throttler)
    : option (list (Z * Q) * Throttler) :=
  if numThrottled <? deltaProgress then
    match rounds with
    | O => None
    | S rounds =>
        let toThrottle := Z.min (singleRequestLimit_ t) (deltaProgress - numThrottled) in
        let* (sleep, t) := limitSingleRequest (clock O) toThrottle t in
        let* (requests, t) := limit_loop rounds (fun n => clock (S n)) (numThrottled + toThrottle) deltaProgress t in
        Some ((toThrottle, sleep) :: requests, t)
    end
  else Some ([], t).
Definition limitInternal (clock : nat -> Z) (deltaProgress : Z) (t : Throttler) : option (list (Z * Q) * Throttler) :=
  limit_loop (Z.to_nat deltaProgress) clock 0 deltaProgress t.

Definition startTransfer (now : Z) (t : Throttler) : Throttler :=
  let t := if refCount_ t =? 0 then resetState now t else t in
  t <| refCount_ := refCount_ t + 1 |>.
Definition endTransfer (t : Throttler) : option Throttler :=
  check 0 <? refCount_ t ;; Some (t <| refCount_ := refCount_ t - 1 |>).
Definition setThrottlerLogTimeMillis (millis : Z) (t : Throttler) : Throttler := t <| throttlerLogTimeMillis_ := millis |>.
End throttler.

(** ** Requests *)

Section requests.
Context (rnd : Q -> Q).

Lemma calculateSleep_keeps d now t s t' :
  calculateSleep rnd d now t = Some (s, t') ->
  startTime_ t' = startTime_ t /\ refCount_ t' = refCount_ t /\ avgRatePerSec_ t' = avgRatePerSec_ t
  /\ tokenBucketLimit_ t' = tokenBucketLimit_ t /\ bucketRatePerSec_ t' = bucketRatePerSec_ t
  /\ singleRequestLimit_ t' = singleRequestLimit_ t /\ throttlerLogTimeMillis_ t' = throttlerLogTimeMillis_ t.
Proof. unfold calculateSleep, tokenBucket. intros E. repeat (case_hyp E; simplify_eq; simpl in *); done. Qed.
Lemma limit_keeps now d t s t' :
  limitSingleRequest rnd now d t = Some (s, t') ->
  singleRequestLimit_ t' = singleRequestLimit_ t /\ bucketRatePerSec_ t' = bucketRatePerSec_ t.
Proof.
  unfold limitSingleRequest, printPeriodicLogs. intros E. case_hyp E; [|done]. case_hyp E; [|done]. case_hyp E. simplify_eq.
  apply calculateSleep_keeps in Heqo as (_ & _ & _ & _ & ? & ? & _). destruct (0 <? _); [|done]. by destruct (Qle_bool _ _).
Qed.
Lemma limit_no_peak now d t :
  d <= singleRequestLimit_ t -> Qltb 0 (bucketRatePerSec_ t) = false -> is_Some (limitSingleRequest rnd now d t).
Proof.
  intros Hd Hr. unfold limitSingleRequest, calculateSleep. rewrite (proj2 (Z.leb_le _ _) Hd). simpl. rewrite Hr. simpl.
  destruct (refCount_ t <=? 0); [eauto|]. destruct (Qltb 0 (averageThrottler _ _ _)); eauto.
Qed.

Lemma limit_loop_splits rounds clock n0 delta t l t' :
  0 < singleRequestLimit_ t -> n0 <= delta -> limit_loop rnd rounds clock n0 delta t = Some (l, t') ->
  Zsum (fst <$> l) = delta - n0 /\ Forall (fun r => 0 < r.1 <= singleRequestLimit_ t) l.
Proof.
  revert clock n0 t l t'. induction rounds as [|rounds IH]; intros clock n0 t l t' Hs Hd; cbn [limit_loop];
    (destruct (Z.ltb_spec n0 delta); [|intros [= <- <-]; simpl; split; [lia|constructor]]); [done|].
  set (r := Z.min _ _). destruct (limitSingleRequest rnd (clock O) r t) as [[s t1]|] eqn:E; [|done].
  destruct (limit_loop _ _ _ _ _ _) as [[l1 t2]|] eqn:E1; [|done]. intros [= <- <-].
  apply limit_keeps in E as [Hk _]. apply IH in E1 as [Hsum Hall]; [|lia..]. rewrite Hk in Hall.
  split; [|constructor; [simpl; lia|done]]. rewrite fmap_cons. simpl. change (foldr Z.add 0 (fst <$> l1)) with (Zsum (fst <$> l1)). lia.
Qed.
Lemma limit_loop_total rounds clock n0 delta t :
  0 < singleRequestLimit_ t -> Qltb 0 (bucketRatePerSec_ t) = false -> delta - n0 <= Z.of_nat rounds ->
  is_Some (limit_loop rnd rounds clock n0 delta t).
Proof.
  revert clock n0 t. induction rounds as [|rounds IH]; intros clock n0 t Hs Hr Hd; cbn [limit_loop];
    (destruct (Z.ltb_spec n0 delta); [|eauto]); [lia|].
  set (r := Z.min _ _). destruct (limit_no_peak (clock O) r t) as [[s t1] E]; [lia|done|]. rewrite E.
  apply limit_keeps in E as [Hk Hk']. destruct (IH (fun n => clock (S n)) (n0 + r) t1) as [[l t2] ->]; [lia|by rewrite Hk'|lia|eauto].
Qed.

(** A large amount is throttled in requests of at most [singleRequestLimit_]
    bytes that add up to it, whatever the clock and the rounding; and the loop
    ends within one round per byte, so that without a peak rate, where nothing
    is converted, it always returns. *)
Theorem limit_splits clock delta t :
  0 < singleRequestLimit_ t ->
  (forall l t', limitInternal rnd clock delta t = Some (l, t') ->
    Zsum (fst <$> l) = Z.max 0 delta /\ Forall (fun r => 0 < r.1 <= singleRequestLimit_ t) l)
  /\ (Qltb 0 (bucketRatePerSec_ t) = false -> is_Some (limitInternal rnd clock delta t)).
Proof.
  intros Hs. unfold limitInternal. split.
  - intros l t' E. destruct (Z.le_gt_cases 0 delta).
    + rewrite Z.max_r by lia. replace delta with (delta - 0) at 1 by lia. by eapply limit_loop_splits.
    + replace (Z.to_nat delta) with O in E by lia. simpl in E. rewrite (proj2 (Z.ltb_ge 0 delta)) in E by lia.
      injection E as <- <-. simpl. split; [lia|constructor].
  - intros Hr. apply limit_loop_total; [done..|lia].
Qed.
End requests.

(** ** Rates, in exact arithmetic *)

Definition exact (q : Q) : Q := q.

Lemma Qltb_lt a b : Qltb a b = true <-> (a < b)%Q.
Proof. unfold Qltb. rewrite negb_true_iff. destruct (Qle_bool b a) eqn:E; [|split; [|done]; intros _].
  - apply Qle_bool_iff in E. split; [done|]. intros H. exfalso. lra.
  - apply Qnot_le_lt. intros H%Qle_bool_iff. by rewrite H in E.
Qed.
Lemma Qltb_ge a b : Qltb a b = false <-> (b <= a)%Q.
Proof. unfold Qltb. rewrite negb_false_iff. apply Qle_bool_iff. Qed.

Lemma trunc_int q z : (q == inject_Z z)%Q -> trunc q = z.
Proof. unfold Qeq, trunc. simpl. intros E. replace (Qnum q) with (z * QDen q) by lia. apply Z.quot_mul. lia. Qed.
Lemma trunc_le q : (0 <= q)%Q -> (0 <= inject_Z (trunc q) <= q)%Q.
Proof.
  unfold Qle, trunc. simpl. intros Hq. rewrite Z.mul_1_r in Hq. rewrite !Z.mul_1_r.
  pose proof (Z.quot_pos (Qnum q) (QDen q)). pose proof (Z.mul_quot_le (Qnum q) (QDen q)). lia.
Qed.
Lemma to_int64_t_eq q z : to_int64_t q = Some z -> z = trunc q.
Proof. unfold to_int64_t. by case_bool_decide; intros [= <-]. Qed.

(** One call of the token bucket for an integral amount: what was in the bucket
    and what has flowed in since, less the amount, and never over the limit. *)
Lemma tokenBucket_exact d now t s t' :
  tokenBucket exact (inject_Z d) now t = Some (s, t') -> (0 < tokenBucketLimit_ t)%Q -> (0 < bucketRatePerSec_ t)%Q ->
  (0 <= inject_Z (tokenBucket_ t) + seconds exact (now - lastFillTime_ t) * bucketRatePerSec_ t)%Q ->
  (inject_Z (tokenBucket_ t') <= tokenBucketLimit_ t - inject_Z d)%Q
  /\ (inject_Z (tokenBucket_ t') + inject_Z d
      <= inject_Z (tokenBucket_ t) + seconds exact (now - lastFillTime_ t) * bucketRatePerSec_ t)%Q
  /\ - d <= tokenBucket_ t'
  /\ (tokenBucket_ t' < 0 -> (0 < s)%Q /\ (s * bucketRatePerSec_ t == - inject_Z (tokenBucket_ t'))%Q)
  /\ lastFillTime_ t' = now /\ progress_ t' = progress_ t.
Proof.
  unfold tokenBucket. intros E Hl Hr Hfill.
  destruct (to_int64_t (dadd _ _ _)) as [filled|] eqn:E1; [|done]. apply to_int64_t_eq in E1.
  set (c := if Qltb _ _ then _ else _) in E. destruct c as [capped|] eqn:Ec; [|done]. unfold c in Ec.
  destruct (to_int64_t (dsub _ _ _)) as [rest|] eqn:E3; [|done]. apply to_int64_t_eq in E3. injection E as <- <-. simpl.
  unfold dadd, dsub, dmul, ddiv, of_int, exact in *.
  destruct (trunc_le (inject_Z (tokenBucket_ t) + seconds (fun q => q) (now - lastFillTime_ t) * bucketRatePerSec_ t) Hfill) as [F1 F2].
  rewrite <- E1 in F1, F2.
  assert (0 <= inject_Z capped /\ inject_Z capped <= inject_Z filled /\ inject_Z capped <= tokenBucketLimit_ t)%Q as (C0 & C1 & C2).
  { destruct (Qltb (tokenBucketLimit_ t) (inject_Z filled)) eqn:Eq.
    - apply Qltb_lt in Eq. apply to_int64_t_eq in Ec. destruct (trunc_le (tokenBucketLimit_ t)) as [G1 G2]; [lra|].
      rewrite <- Ec in G1, G2. lra.
    - apply Qltb_ge in Eq. injection Ec as <-. lra. }
  rewrite (trunc_int _ (capped - d)) in E3 by (unfold Z.sub; rewrite inject_Z_plus, inject_Z_opp; lra).
  assert (0 <= capped) by (rewrite Zle_Qle; exact C0).
  assert (inject_Z rest == inject_Z capped - inject_Z d)%Q as Hrest by (subst rest; unfold Z.sub; rewrite inject_Z_plus, inject_Z_opp; lra).
  split_and!; [lra|unfold exact in *; lra|lia| |done..].
  intros Hneg. rewrite (proj2 (Z.ltb_lt rest 0) Hneg).
  assert (inject_Z rest < 0)%Q as Hq by (change 0%Q with (inject_Z 0); by rewrite <- Zlt_Qlt).
  split; [|field; lra]. apply Qlt_shift_div_l; [done|]. lra.
Qed.

Lemma seconds_add a b : (seconds exact a + seconds exact b == seconds exact (a + b))%Q.
Proof. unfold seconds, ddiv, of_int, exact. rewrite inject_Z_plus. field. Qed.
Lemma seconds_0 : (seconds exact 0 == 0)%Q.
Proof. done. Qed.
Lemma seconds_nonneg a : 0 <= a -> (0 <= seconds exact a)%Q.
Proof.
  intros Ha. unfold seconds, ddiv, of_int, exact. apply Qle_shift_div_l; [done|].
  change (0 * 1000000000)%Q with (inject_Z 0). by rewrite <- Zle_Qle.
Qed.

(** The calls of one thread, which sleeps as it is told: the throttler with the
    last time to sleep and the time of the last call; the amounts, latest first. *)
Definition rested (s : Q) (dt : Z) : Prop := (0 < s)%Q -> (s <= seconds exact dt)%Q.
Inductive calls (x : Throttler * Q * Z) : list Z -> Throttler * Q * Z -> Prop :=
  | calls_nil : calls x [] x
  | calls_limit l t s last now d s' t' :
      calls x l (t, s, last) -> last <= now -> rested s (now - last) -> 0 <= d ->
      limitSingleRequest exact now d t = Some (s', t') -> calls x (d :: l) (t', s', now).

Lemma limit_calculates now d t s t' :
  limitSingleRequest exact now d t = Some (s, t') ->
  d <= singleRequestLimit_ t /\ exists t1, calculateSleep exact (inject_Z d) now t = Some (s, t1)
    /\ progress_ t' = progress_ t1 /\ startTime_ t' = startTime_ t1 /\ lastFillTime_ t' = lastFillTime_ t1
    /\ tokenBucket_ t' = tokenBucket_ t1 /\ refCount_ t' = refCount_ t1 /\ avgRatePerSec_ t' = avgRatePerSec_ t1
    /\ tokenBucketLimit_ t' = tokenBucketLimit_ t1 /\ bucketRatePerSec_ t' = bucketRatePerSec_ t1
    /\ singleRequestLimit_ t' = singleRequestLimit_ t1.
Proof.
  unfold limitSingleRequest, printPeriodicLogs. intros E. destruct (Z.leb_spec d (singleRequestLimit_ t)); [|done].
  change (of_int exact d) with (inject_Z d) in E. destruct (calculateSleep _ _ _ _) as [[s1 t1]|]; [|done]. injection E as <- <-.
  split; [done|]. exists t1. split; [done|]. destruct (0 <? _); [|done]. by destruct (Qle_bool _ _).
Qed.

(** *** The average rate *)

(** What has been counted would be allowed once the thread has slept. *)
Definition on_average (avg : Q) (start : Z) (l : list Z) (x : Throttler * Q * Z) : Prop :=
  let '(t, s, last) := x in
  0 < refCount_ t /\ startTime_ t = start /\ start <= last /\ avgRatePerSec_ t = avg
  /\ (progress_ t == inject_Z (Zsum l))%Q
  /\ (progress_ t <= avg * (seconds exact (last - start) + if Qltb 0 s then s else 0))%Q.

Lemma averageThrottler_exact now t :
  (0 < avgRatePerSec_ t)%Q ->
  let s := averageThrottler exact now t in
  (0 < s)%Q /\ (progress_ t <= avgRatePerSec_ t * (seconds exact (now - startTime_ t) + s))%Q
  \/ ~ (0 < s)%Q /\ (progress_ t <= avgRatePerSec_ t * seconds exact (now - startTime_ t))%Q.
Proof.
  intros Ha. unfold averageThrottler. destruct (Qle_bool (avgRatePerSec_ t) 0) eqn:E0.
  { apply Qle_bool_iff in E0. exfalso. lra. }
  unfold dmul, ddiv, dsub. change (exact (avgRatePerSec_ t * seconds exact (now - startTime_ t)))%Q
    with (avgRatePerSec_ t * seconds exact (now - startTime_ t))%Q.
  set (e := seconds exact (now - startTime_ t)). destruct (Qltb _ _) eqn:E; simpl.
  - left. apply Qltb_lt in E. unfold exact. split.
    + assert (e < progress_ t / avgRatePerSec_ t)%Q; [|lra]. apply Qlt_shift_div_l; [done|]. lra.
    + assert (avgRatePerSec_ t * (e + (progress_ t / avgRatePerSec_ t - e)) == progress_ t)%Q as ->; [field; lra|lra].
  - right. apply Qltb_ge in E. lra.
Qed.
Lemma calls_average avg start x l y :
  (0 < avg)%Q -> on_average avg start [] x -> calls x l y -> on_average avg start l y.
Proof.
  intros Ha Hx. induction 1 as [|l t s last now d s' t' Hc IH Hn Hr Hd E]; [done|].
  destruct IH as (Hrc & Hst & Hle & Havg & Hp & Hb). apply limit_calculates in E as (_ & t1 & E & Ep & Es & _ & _ & Er & Ea & _).
  unfold calculateSleep in E. rewrite (proj2 (Z.leb_gt _ _) Hrc) in E.
  set (t2 := t <| progress_ := _ |>) in E.
  assert (progress_ t2 == inject_Z (Zsum (d :: l)))%Q as Hp2.
  { unfold t2, dadd, exact. simpl. change (foldr Z.add 0 l) with (Zsum l). rewrite inject_Z_plus, Hp. lra. }
  destruct (averageThrottler_exact now t2) as [[Hs Hav]|[Hs Hav]]; [by rewrite <- Havg in Ha|..];
    change (avgRatePerSec_ t2) with (avgRatePerSec_ t) in Hav; change (startTime_ t2) with (startTime_ t) in Hav;
    rewrite Havg, Hst in Hav.
  - rewrite (proj2 (Qltb_lt _ _) Hs) in E. injection E as <- <-. unfold on_average. rewrite Ep, Es, Er, Ea.
    rewrite (proj2 (Qltb_lt _ _) Hs). split_and!; [done..|lia|done|done|]. exact Hav.
  - assert (Qltb 0 (averageThrottler exact now t2) = false) as Hf by (apply Qltb_ge; lra). rewrite Hf in E.
    assert (progress_ t1 = progress_ t2 /\ startTime_ t1 = startTime_ t2 /\ refCount_ t1 = refCount_ t2
            /\ avgRatePerSec_ t1 = avgRatePerSec_ t2) as (E1 & E2 & E3 & E4).
    { unfold tokenBucket in E. repeat (case_hyp E; simplify_eq; simpl in *); done. }
    unfold on_average. rewrite Ep, Es, Er, Ea, E1, E2, E3, E4. split_and!; [done..|lia|done|done|].
    assert (0 <= if Qltb 0 s' then s' else 0)%Q as Hz by (destruct (Qltb 0 s') eqn:Eq; [apply Qltb_lt in Eq; lra|lra]).
    eapply Qle_trans; [exact Hav|]. apply Qmult_le_l; [done|]. lra.
Qed.

(** C29: The average rate: a thread that uses a registered throttler alone and
    sleeps as it is told has, whenever it makes the next call, moved no more
    bytes than the average rate allows for the time since the start. *)
Theorem average_rate_respected t0 now0 l t s last now :
  refCount_ t0 = 0 -> (0 < avgRatePerSec_ t0)%Q ->
  calls (startTransfer now0 t0, (-1)%Q, now0) l (t, s, last) -> last <= now -> rested s (now - last) ->
  (inject_Z (Zsum l) <= avgRatePerSec_ t0 * seconds exact (now - now0))%Q.
Proof.
  intros Hr Ha Hc Hn Hs. eapply calls_average in Hc as (_ & Hst & Hle & Hav & Hp & Hb); [|exact Ha|].
  2:{ unfold on_average, startTransfer. rewrite Hr. simpl. split_and!; try done; [lia|]. rewrite Z.sub_diag. unfold Qle. simpl. lia. }
  rewrite <- Hp. eapply Qle_trans; [exact Hb|]. apply Qmult_le_l; [done|].
  replace (now - now0) with ((last - now0) + (now - last)) by lia. rewrite <- seconds_add.
  destruct (Qltb 0 s) eqn:E.
  - apply Qltb_lt in E. specialize (Hs E). lra.
  - pose proof (seconds_nonneg (now - last)). specialize (H ltac:(lia)). lra.
Qed.

(** *** The peak rate *)

(** The bucket between two calls: filled up to the last call, not over its
    limit, and a negative content is what the thread sleeps for. *)
Definition peaked (t0 : Throttler) (x : Throttler * Q * Z) : Prop :=
  let '(t, s, last) := x in
  0 < refCount_ t /\ avgRatePerSec_ t = avgRatePerSec_ t0 /\ bucketRatePerSec_ t = bucketRatePerSec_ t0
  /\ tokenBucketLimit_ t = tokenBucketLimit_ t0 /\ singleRequestLimit_ t = singleRequestLimit_ t0 /\ lastFillTime_ t = last
  /\ (inject_Z (tokenBucket_ t) <= tokenBucketLimit_ t)%Q
  /\ (tokenBucket_ t < 0 -> (0 < s)%Q /\ (s * bucketRatePerSec_ t == - inject_Z (tokenBucket_ t))%Q).

Section peak.
Context (t0 : Throttler).
Hypothesis no_average : (avgRatePerSec_ t0 <= 0)%Q.
Hypothesis rate_positive : (0 < bucketRatePerSec_ t0)%Q.
Hypothesis limit_positive : (0 < tokenBucketLimit_ t0)%Q.

Lemma peaked_limit t s last now d s' t' :
  peaked t0 (t, s, last) -> last <= now -> rested s (now - last) -> 0 <= d ->
  limitSingleRequest exact now d t = Some (s', t') ->
  peaked t0 (t', s', now) /\ d <= singleRequestLimit_ t0 /\ - d <= tokenBucket_ t'
  /\ (inject_Z (tokenBucket_ t') + inject_Z d
      <= inject_Z (tokenBucket_ t) + seconds exact (now - last) * bucketRatePerSec_ t0)%Q.
Proof using All.
  intros (Hrc & Hav & Hra & Hli & Hsi & Hlf & Htl & Htn) Hn Hs Hd E.
  apply limit_calculates in E as (Hds & t1 & E & Ep & Es & Elf & Et & Er & Ea & El & Ebr & Esi).
  destruct (calculateSleep_keeps _ _ _ _ _ _ E) as (_ & K1 & K2 & K3 & K4 & K5 & _).
  unfold calculateSleep in E. rewrite (proj2 (Z.leb_gt _ _) Hrc) in E. set (t2 := t <| progress_ := _ |>) in E.
  assert (averageThrottler exact now t2 = (-1)%Q) as Hno.
  { unfold averageThrottler. change (avgRatePerSec_ t2) with (avgRatePerSec_ t). rewrite Hav.
    by rewrite (proj2 (Qle_bool_iff _ _) no_average). }
  rewrite Hno in E. change (Qltb 0 (-1)) with false in E.
  change (bucketRatePerSec_ t2) with (bucketRatePerSec_ t) in E. change (tokenBucketLimit_ t2) with (tokenBucketLimit_ t) in E.
  rewrite Hra, Hli, (proj2 (Qltb_lt _ _) rate_positive), (proj2 (Qltb_lt _ _) limit_positive) in E. simpl in E.
  assert (0 <= inject_Z (tokenBucket_ t) + seconds exact (now - last) * bucketRatePerSec_ t0)%Q as Hfill.
  { destruct (Z.lt_ge_cases (tokenBucket_ t) 0) as [Hneg|Hpos].
    - destruct (Htn Hneg) as [Hs0 Heq]. specialize (Hs Hs0). rewrite Hra in Heq.
      assert (s * bucketRatePerSec_ t0 <= seconds exact (now - last) * bucketRatePerSec_ t0)%Q by (by apply Qmult_le_compat_r; [|apply Qlt_le_weak]).
      lra.
    - assert (0 <= inject_Z (tokenBucket_ t))%Q by (change 0%Q with (inject_Z 0); by rewrite <- Zle_Qle).
      assert (0 <= seconds exact (now - last) * bucketRatePerSec_ t0)%Q; [|lra].
      apply Qmult_le_0_compat; [apply seconds_nonneg; lia|by apply Qlt_le_weak]. }
  assert (0 <= inject_Z d)%Q by (change 0%Q with (inject_Z 0); by rewrite <- Zle_Qle).
  apply tokenBucket_exact in E as (B1 & B2 & B3 & B4 & B5 & _).
  2:{ change (tokenBucketLimit_ t2) with (tokenBucketLimit_ t). by rewrite Hli. }
  2:{ change (bucketRatePerSec_ t2) with (bucketRatePerSec_ t). by rewrite Hra. }
  2:{ change (0 <= inject_Z (tokenBucket_ t) + seconds exact (now - lastFillTime_ t) * bucketRatePerSec_ t)%Q. by rewrite Hlf, Hra. }
  change (tokenBucketLimit_ t2) with (tokenBucketLimit_ t) in B1.
  change (inject_Z (tokenBucket_ t1) + inject_Z d <= inject_Z (tokenBucket_ t) + seconds exact (now - lastFillTime_ t) * bucketRatePerSec_ t)%Q in B2.
  change (bucketRatePerSec_ t2) with (bucketRatePerSec_ t) in B4.
  unfold peaked. rewrite Et, Elf, Er, Ea, El, Ebr, Esi, K1, K2, K3, K4, K5. rewrite Hlf, Hra in B2. rewrite Hsi in Hds.
  split_and!; try done. lra.
Qed.

Lemma calls_peak x l y :
  peaked t0 x -> calls x l y ->
  peaked t0 y /\ x.2 <= y.2
  /\ (inject_Z (tokenBucket_ y.1.1) + inject_Z (Zsum l)
      <= inject_Z (tokenBucket_ x.1.1) + seconds exact (y.2 - x.2) * bucketRatePerSec_ t0)%Q
  /\ (l <> [] -> - singleRequestLimit_ t0 <= tokenBucket_ y.1.1).
Proof using All.
  intros Hx. induction 1 as [|l t s last now d s' t' Hc IH Hn Hs Hd E].
  { split_and!; [done|lia| |done]. rewrite Z.sub_diag, seconds_0. change (inject_Z (Zsum [])) with 0%Q. lra. }
  destruct IH as (Hp & Hle & Hsum & _). simpl in Hle, Hsum.
  destruct (peaked_limit _ _ _ _ _ _ _ Hp Hn Hs Hd E) as (Hp' & Hds & Hlow & Hstep).
  split_and!; [done|simpl; lia| |simpl; lia]. simpl. change (foldr Z.add 0 l) with (Zsum l).
  replace (now - x.2) with ((last - x.2) + (now - last)) by lia. rewrite <- seconds_add, inject_Z_plus. lra.
Qed.

(** The peak rate: without an average rate, what a thread moves between any
    two moments of its use of the throttler is at most the size of the bucket,
    what flows into it in that time, and one request. *)
Theorem peak_rate_respected now0 l1 t1 s1 last1 l2 t2 s2 last2 :
  refCount_ t0 = 0 -> 0 < singleRequestLimit_ t0 ->
  calls (startTransfer now0 t0, (-1)%Q, now0) l1 (t1, s1, last1) ->
  calls (t1, s1, last1) l2 (t2, s2, last2) ->
  (inject_Z (Zsum l2) <= tokenBucketLimit_ t0 + bucketRatePerSec_ t0 * seconds exact (last2 - last1)
                         + inject_Z (singleRequestLimit_ t0))%Q.
Proof using All.
  intros Hr Hs H1 H2.
  assert (peaked t0 (startTransfer now0 t0, (-1)%Q, now0)) as Hx.
  { unfold peaked, startTransfer. rewrite Hr. simpl. split_and!; try done; [lia|by apply Qlt_le_weak]. }
  destruct (calls_peak _ _ _ Hx H1) as (Hy & _).
  destruct (calls_peak _ _ _ Hy H2) as (_ & Hle & Hsum & Hlow). simpl in *.
  destruct Hy as (_ & _ & _ & Hli & _ & _ & Htl & _). rewrite Hli in Htl.
  destruct (decide (l2 = [])) as [->|Hne].
  - assert (0 <= bucketRatePerSec_ t0 * seconds exact (last2 - last1))%Q
      by (apply Qmult_le_0_compat; [by apply Qlt_le_weak|apply seconds_nonneg; lia]).
    assert (0 < inject_Z (singleRequestLimit_ t0))%Q by (change 0%Q with (inject_Z 0); by rewrite <- Zlt_Qlt).
    change (inject_Z (Zsum [])) with 0%Q. lra.
  - specialize (Hlow Hne). rewrite Zle_Qle, inject_Z_opp in Hlow. lra.
Qed.
End peak.

(** ** Examples *)

Definition ex_throttler (avg peak limit : Q) : Throttler := mkThrottler 0 0 0 0 0 0 0 avg limit peak 50 0.
Definition ex_requests (r : option (list (Z * Q) * Throttler)) : option (list (Z * Q)) :=
  option_map (fun x => (fun r => (r.1, Qred r.2)) <$> x.1) r.

(** 120 bytes in requests of at most 50, against an average of 100 a second. *)
Lemma limit_splits_witness :
  0 < singleRequestLimit_ (ex_throttler 100 0 0)
  /\ is_Some (limitInternal exact (fun n => Z.of_nat n * 500000000) 120 (startTransfer 0 (ex_throttler 100 0 0)))
  /\ ex_requests (limitInternal exact (fun n => Z.of_nat n * 500000000) 120 (startTransfer 0 (ex_throttler 100 0 0)))
     = Some [(50, (1 # 2)%Q); (50, (1 # 2)%Q); (20, (1 # 5)%Q)].
Proof.
  split; [done|]. split; [|by vm_compute].
  by apply (limit_splits exact (fun n => Z.of_nat n * 500000000) 120 (startTransfer 0 (ex_throttler 100 0 0))).
Defined.

Lemma average_rate_respected_witness :
  refCount_ (ex_throttler 100 0 0) = 0 /\ (0 < avgRatePerSec_ (ex_throttler 100 0 0))%Q
  /\ (inject_Z (Zsum [20; 50]%Z) <= 100 * seconds exact (700000000 - 0))%Q.
Proof.
  split; [done|]. split; [done|].
  eapply (average_rate_respected (ex_throttler 100 0 0) 0 [20; 50] _ _ 500000000 700000000);
    [done|done|eapply (calls_limit _ _ _ _ 0 500000000);
      [eapply (calls_limit _ _ _ _ 0 0); [apply calls_nil|done|intros Hs; by vm_compute in Hs|done|by vm_compute]|done|intros _; by vm_compute|done|by vm_compute]|done|intros _; by vm_compute].
Defined.
Lemma peak_rate_respected_witness :
  (avgRatePerSec_ (ex_throttler (-1) 100 60) <= 0)%Q /\ (0 < bucketRatePerSec_ (ex_throttler (-1) 100 60))%Q
  /\ (0 < tokenBucketLimit_ (ex_throttler (-1) 100 60))%Q
  /\ (inject_Z (Zsum [50]%Z) <= 60 + 100 * seconds exact (1000000000 - 400000000) + inject_Z 50)%Q.
Proof.
  split; [done|]. split; [done|]. split; [done|].
  eapply (peak_rate_respected (ex_throttler (-1) 100 60) ltac:(done) ltac:(done) ltac:(done) 0 [10; 40] _ _ 400000000 [50] _ _ 1000000000);
    [done|done| |].
  - eapply (calls_limit _ _ _ _ 0 400000000);
      [eapply (calls_limit _ _ _ _ 0 0); [apply calls_nil|done|intros Hs; by vm_compute in Hs|done|by vm_compute]|done|intros _; by vm_compute|done|by vm_compute].
  - eapply (calls_limit _ _ _ _ 400000000 1000000000); [apply calls_nil|done|intros _; by vm_compute|done|by vm_compute].
Defined.

(** The constructor does not complete its options as [setThrottlerRates]
    does: with an average rate and a peak rate of 0, for automatic
    configuration, a new throttler has no peak rate, while setting the same
    options gives it 1.2 times the average and a bucket. *)
Theorem constructor_does_not_configure :
  option_map (fun t => (bucketRatePerSec_ t, Qred (tokenBucketLimit_ t))) (Throttler_make exact (mkThrottlerOptions 100 0 0 0 50))
  = Some (0, 0)%Q
  /\ (let t := setThrottlerRates exact 0 (mkThrottlerOptions 100 0 0 0 50) (ex_throttler 0 0 0) in
      (Qred (bucketRatePerSec_ t), Qred (tokenBucketLimit_ t))) = (120, 60)%Q.
Proof. split; by vm_compute. Qed.

(** The bucket holds whole tokens: filled with half a token at each of three
    calls in a row, it has none at the end. *)
Definition ex_fill (now : Z) (t : option Throttler) : option Throttler :=
  let* t := t in option_map snd (limitSingleRequest exact now 0 t).
Example fractions_are_lost :
  option_map tokenBucket_ (ex_fill 15000000 (ex_fill 10000000 (ex_fill 5000000 (Some (startTransfer 0 (ex_throttler (-1) 100 60)))))) = Some 0.
Proof. by vm_compute. Qed.
