(* ===== verification/ResourceController.v ===== *)
(** The resource controller: [WdtResourceController], its controllers of name
    spaces and their common base ([WdtResourceController.cpp]).

    The code for senders and for receivers is the same text twice; here an
    operation takes the [Role].  A namespace controller is shared by pointer:
    an operation finds it in [namespaceMap_] under the lock of the resource
    controller and uses it afterwards under the lock of its own, when it may no
    longer be in the map.  So controllers live in a heap, and every operation is
    composed of the sections that the code runs under one lock.

    The order in which an [unordered_map] is visited is that of [map_to_list]. *)
From stdpp Require Import gmap strings.
From Stdlib Require Import QArith.
From S2P Require Import Prelude ErrorCodes Uri Throttler.

Inductive Role := SENDERS | RECEIVERS.
#[global] Instance Role_eq_dec : EqDecision Role.
Proof. solve_decision. Defined.

(** The options that are read. *)
Record ControllerOptions := mkControllerOptions {
  global_limit : Role -> Z;
  namespace_limit : Role -> Z;
  avg_mbytes_per_sec : Q;
  max_mbytes_per_sec : Q;
  bucket_limit_mbytes : Q;
  log_time_millis : Z;
  buffer_size : Z
}.
Definition kMbToB : Q := 1048576.
Definition getThrottlerOptions (rnd : Q -> Q) (o : ControllerOptions) : ThrottlerOptions :=
  mkThrottlerOptions (dmul rnd (avg_mbytes_per_sec o) kMbToB) (dmul rnd (max_mbytes_per_sec o) kMbToB)
    (dmul rnd (bucket_limit_mbytes o) kMbToB) (log_time_millis o) (buffer_size o).

(** ** [WdtControllerBase]: the count and the limit of each kind *)

Record Count := mkCount { num_ : Z; maxNum_ : Z }.
#[global] Instance Count_settable : Settable Count := fun c => mkCount (num_ c) (maxNum_ c).
Record WdtControllerBase := mkBase { controllerName_ : string; senderCount : Count; receiverCount : Count }.
#[global] Instance Base_settable : Settable WdtControllerBase := fun b =>
  mkBase (controllerName_ b) (senderCount b) (receiverCount b).
Definition count (role : Role) (b : WdtControllerBase) : Count :=
  match role with SENDERS => senderCount b | RECEIVERS => receiverCount b end.
Definition set_count (role : Role) (c : Count) (b : WdtControllerBase) : WdtControllerBase :=
  match role with SENDERS => b <| senderCount := c |> | RECEIVERS => b <| receiverCount := c |> end.
Definition WdtControllerBase_make (name : string) : WdtControllerBase := mkBase name (mkCount 0 0) (mkCount 0 0).
Definition addNum (role : Role) (n : Z) (b : WdtControllerBase) : WdtControllerBase :=
  set_count role (count role b <| num_ := num_ (count role b) + n |>) b.
Definition updateMaxLimit (role : Role) (maxNum : Z) (b : WdtControllerBase) : WdtControllerBase :=
  set_count role (count role b <| maxNum_ := maxNum |>) b.
Definition updateMaxSendersLimit := updateMaxLimit SENDERS.
Definition updateMaxReceiversLimit := updateMaxLimit RECEIVERS.
(** [num >= max && max > 0] is an exceeded quota. *)
Definition exceeded (c : Count) : bool := (maxNum_ c <=? num_ c) && (0 <? maxNum_ c).

(** ** [WdtNamespaceController] *)

(** A [Sender] or [Receiver]: which one, and what it was made for. *)
Record Object := mkObject { object_id : nat; object_request : WdtTransferRequest }.

Record WdtNamespaceController := mkNamespaceController {
  ns_base : WdtControllerBase;
  sendersMap_ : gmap string Object;
  receiversMap_ : gmap string Object
}.
#[global] Instance Namespace_settable : Settable WdtNamespaceController := fun c =>
  mkNamespaceController (ns_base c) (sendersMap_ c) (receiversMap_ c).
Definition objects (role : Role) (c : WdtNamespaceController) : gmap string Object :=
  match role with SENDERS => sendersMap_ c | RECEIVERS => receiversMap_ c end.
Definition set_objects (role : Role) (m : gmap string Object) (c : WdtNamespaceController) : WdtNamespaceController :=
  match role with SENDERS => c <| sendersMap_ := m |> | RECEIVERS => c <| receiversMap_ := m |> end.

Definition WdtNamespaceController_make (options : ControllerOptions) (wdtNamespace : string) : WdtNamespaceController :=
  mkNamespaceController
    (updateMaxReceiversLimit (namespace_limit options RECEIVERS)
       (updateMaxSendersLimit (namespace_limit options SENDERS) (WdtControllerBase_make wdtNamespace))) ∅ ∅.

Definition ns_hasQuota (role : Role) (c : WdtNamespaceController) : bool := negb (exceeded (count role (ns_base c))).
Definition ns_hasSenderQuota := ns_hasQuota SENDERS.
Definition ns_hasReceiverQuota := ns_hasQuota RECEIVERS.

(** The new object is [mkObject fresh request]; an existing one is returned too. *)
Definition ns_create (role : Role) (fresh : nat) (request : WdtTransferRequest) (identifier : string) (c : WdtNamespaceController)
    : ErrorCode * option Object * WdtNamespaceController :=
  match objects role c !! identifier with
  | Some object => (ALREADY_EXISTS, Some object, c)
  | None =>
      if negb (ns_hasQuota role c) then (QUOTA_EXCEEDED, None, c)
      else
        let object := mkObject fresh request in
        let c := set_objects role (<[identifier := object]> (objects role c)) c in
        (OK, Some object, c <| ns_base := addNum role 1 (ns_base c) |>)
  end.
Definition ns_createReceiver := ns_create RECEIVERS.
Definition ns_createSender := ns_create SENDERS.

Definition ns_release (role : Role) (identifier : string) (c : WdtNamespaceController) : ErrorCode * WdtNamespaceController :=
  match objects role c !! identifier with
  | None => (NOT_FOUND, c)
  | Some _ =>
      let c := set_objects role (delete identifier (objects role c)) c in
      (OK, c <| ns_base := addNum role (-1) (ns_base c) |>)
  end.
Definition ns_releaseReceiver := ns_release RECEIVERS.
Definition ns_releaseSender := ns_release SENDERS.

Definition ns_releaseAll (role : Role) (c : WdtNamespaceController) : Z * WdtNamespaceController :=
  let n := Z.of_nat (size (objects role c)) in
  let c := set_objects role ∅ c in
  (n, c <| ns_base := set_count role (count role (ns_base c) <| num_ := 0 |>) (ns_base c) |>).
Definition ns_releaseAllSenders := ns_releaseAll SENDERS.
Definition ns_releaseAllReceivers := ns_releaseAll RECEIVERS.

(** The loop over the map; [stale] is what [isStale] says of an object. *)
Fixpoint releaseStale_loop (role : Role) (stale : Object -> bool) (l : list (string * Object)) (c : WdtNamespaceController)
    : list string * WdtNamespaceController :=
  match l with
  | [] => ([], c)
  | (identifier, object) :: l =>
      if stale object then
        let c := set_objects role (delete identifier (objects role c)) c in
        let c := c <| ns_base := addNum role (-1) (ns_base c) |> in
        let '(erasedIds, c) := releaseStale_loop role stale l c in
        (identifier :: erasedIds, c)
      else releaseStale_loop role stale l c
  end.
Definition ns_releaseStale (role : Role) (stale : Object -> bool) (c : WdtNamespaceController) : list string * WdtNamespaceController :=
  releaseStale_loop role stale (map_to_list (objects role c)) c.
Definition ns_releaseStaleSenders := ns_releaseStale SENDERS.
Definition ns_releaseStaleReceivers := ns_releaseStale RECEIVERS.

Definition ns_get (role : Role) (identifier : string) (c : WdtNamespaceController) : option Object := objects role c !! identifier.
Definition ns_getSender := ns_get SENDERS.
Definition ns_getReceiver := ns_get RECEIVERS.
Definition ns_getAll (role : Role) (c : WdtNamespaceController) : list Object := (map_to_list (objects role c)).*2.
Definition ns_getSenders := ns_getAll SENDERS.
Definition ns_getReceivers := ns_getAll RECEIVERS.
Definition getSendersIds (c : WdtNamespaceController) : list string := (map_to_list (sendersMap_ c)).*1.

(** ** [WdtResourceController] *)

(** With the heap of namespace controllers and what the next controller and the
    next object are called. *)
Record WdtResourceController := mkResourceController {
  base : WdtControllerBase;
  namespaceMap_ : gmap string nat;
  strictRegistration_ : bool;
  throttler_ : Throttler;
  options_ : ControllerOptions;
  heap : gmap nat WdtNamespaceController;
  nextController : nat;
  nextObject : nat
}.
#[global] Instance Resource_settable : Settable WdtResourceController := fun w =>
  mkResourceController (base w) (namespaceMap_ w) (strictRegistration_ w) (throttler_ w) (options_ w) (heap w)
    (nextController w) (nextObject w).
Definition WdtResourceController_make (options : ControllerOptions) (throttler : Throttler) : WdtResourceController :=
  mkResourceController
    (updateMaxReceiversLimit (global_limit options RECEIVERS)
       (updateMaxSendersLimit (global_limit options SENDERS) (WdtControllerBase_make "_root controller_")))
    ∅ false throttler options ∅ 0 0.

Definition getNamespaceController (wdtNamespace : string) (w : WdtResourceController) : option nat := namespaceMap_ w !! wdtNamespace.
Definition createNamespaceController (wdtNamespace : string) (w : WdtResourceController) : nat * WdtResourceController :=
  let p := nextController w in
  (p, w <| heap := <[p := WdtNamespaceController_make (options_ w) wdtNamespace]> (heap w) |>
        <| nextController := S p |> <| namespaceMap_ := <[wdtNamespace := p]> (namespaceMap_ w) |>).

(** A section under the lock of the controller at [p]; a dangling pointer is
    undefined. *)
Definition atController {A} (p : nat) (f : WdtNamespaceController -> A * WdtNamespaceController) (w : WdtResourceController)
    : option (A * WdtResourceController) :=
  let* c := heap w !! p in
  let '(a, c) := f c in
  Some (a, w <| heap := <[p := c]> (heap w) |>).
Definition uncount (role : Role) (n : Z) (w : WdtResourceController) : WdtResourceController :=
  w <| base := addNum role (- n) (base w) |>.

Definition hasQuotaInternal (role : Role) (controller : option nat) (w : WdtResourceController) : bool :=
  negb (exceeded (count role (base w)))
  && match controller ≫= (fun p => heap w !! p) with Some c => ns_hasQuota role c | None => true end.
Definition hasSenderQuotaInternal := hasQuotaInternal SENDERS.
Definition hasReceiverQuotaInternal := hasQuotaInternal RECEIVERS.
Definition hasSenderQuota (wdtNamespace : string) (w : WdtResourceController) : bool :=
  hasSenderQuotaInternal (getNamespaceController wdtNamespace w) w.
Definition hasReceiverQuota (wdtNamespace : string) (w : WdtResourceController) : bool :=
  hasReceiverQuotaInternal (getNamespaceController wdtNamespace w) w.

(** The first section of a creation: find or make the controller and count the
    new object. *)
Definition reserve (role : Role) (wdtNamespace : string) (w : WdtResourceController) : (ErrorCode + nat) * WdtResourceController :=
  let made :=
    match getNamespaceController wdtNamespace w with
    | Some p => Some (p, w)
    | None => if strictRegistration_ w then None else Some (createNamespaceController wdtNamespace w)
    end in
  match made with
  | None => (inl NOT_FOUND, w)
  | Some (p, w) =>
      if negb (hasQuotaInternal role (Some p) w) then (inl QUOTA_EXCEEDED, w)
      else (inr p, w <| base := addNum role 1 (base w) |>)
  end.
(** The next two: the rates of the throttler, and the object in the controller. *)
Definition createAt (rnd : Q -> Q) (now : Z) (role : Role) (p : nat) (identifier : string) (request : WdtTransferRequest)
    (w : WdtResourceController) : option (ErrorCode * option Object * WdtResourceController) :=
  let w := w <| throttler_ := setThrottlerRates rnd now (getThrottlerOptions rnd (options_ w)) (throttler_ w) |> in
  let* (code, object, w) := atController p (ns_create role (nextObject w) request identifier) w in
  Some (code, object, w <| nextObject := S (nextObject w) |>).
Definition createObject (rnd : Q -> Q) (now : Z) (role : Role) (wdtNamespace identifier : string) (request : WdtTransferRequest)
    (w : WdtResourceController) : option (ErrorCode * option Object * WdtResourceController) :=
  match reserve role wdtNamespace w with
  | (inl code, w) => Some (code, None, w)
  | (inr p, w) =>
      let* (code, object, w) := createAt rnd now role p identifier request w in
      Some (code, object, if bool_decide (code = OK) then w else uncount role 1 w)
  end.
Definition createSender rnd now := createObject rnd now SENDERS.
Definition createReceiver rnd now := createObject rnd now RECEIVERS.

(** [f] releases objects in a controller; they are uncounted afterwards. *)
Definition releaseObject (role : Role) (wdtNamespace identifier : string) (w : WdtResourceController)
    : option (ErrorCode * WdtResourceController) :=
  match getNamespaceController wdtNamespace w with
  | None => Some (ERROR, w)
  | Some p =>
      let* (code, w) := atController p (ns_release role identifier) w in
      Some (if bool_decide (code = OK) then (OK, uncount role 1 w) else (ERROR, w))
  end.
Definition releaseSender := releaseObject SENDERS.
Definition releaseReceiver := releaseObject RECEIVERS.
Definition releaseAll (role : Role) (wdtNamespace : string) (w : WdtResourceController) : option (ErrorCode * WdtResourceController) :=
  match getNamespaceController wdtNamespace w with
  | None => Some (ERROR, w)
  | Some p =>
      let* (n, w) := atController p (ns_releaseAll role) w in
      Some (OK, if 0 <? n then uncount role n w else w)
  end.
Definition releaseAllSenders := releaseAll SENDERS.
Definition releaseAllReceivers := releaseAll RECEIVERS.
Definition releaseStale (role : Role) (stale : Object -> bool) (wdtNamespace : string) (w : WdtResourceController)
    : option (ErrorCode * list string * WdtResourceController) :=
  match getNamespaceController wdtNamespace w with
  | None => Some (NOT_FOUND, [], w)
  | Some p =>
      let* (erasedIds, w) := atController p (ns_releaseStale role stale) w in
      Some (OK, erasedIds, if 0 <? Zlen erasedIds then uncount role (Zlen erasedIds) w else w)
  end.
Definition releaseStaleSenders := releaseStale SENDERS.
Definition releaseStaleReceivers := releaseStale RECEIVERS.

(** The controller of a name space, if there is one. *)
Definition find (wdtNamespace : string) (w : WdtResourceController) : option WdtNamespaceController :=
  let* p := getNamespaceController wdtNamespace w in heap w !! p.
Definition getObject (role : Role) (wdtNamespace identifier : string) (w : WdtResourceController) : option Object :=
  let* c := find wdtNamespace w in ns_get role identifier c.
Definition getSender := getObject SENDERS.
Definition getReceiver := getObject RECEIVERS.
Definition getAllObjects (role : Role) (wdtNamespace : string) (w : WdtResourceController) : list Object :=
  default [] (ns_getAll role <$> find wdtNamespace w).
Definition getAllSenders := getAllObjects SENDERS.
Definition getAllReceivers := getAllObjects RECEIVERS.
Definition getAllSendersIds (wdtNamespace : string) (w : WdtResourceController) : list string :=
  default [] (getSendersIds <$> find wdtNamespace w).

Definition registerWdtNamespace (wdtNamespace : string) (w : WdtResourceController) : WdtResourceController :=
  match getNamespaceController wdtNamespace w with
  | Some _ => w
  | None => (createNamespaceController wdtNamespace w).2
  end.
(** The first section of [deRegisterWdtNamespace]. *)
Definition unmap (wdtNamespace : string) (w : WdtResourceController) : option nat * WdtResourceController :=
  (namespaceMap_ w !! wdtNamespace, w <| namespaceMap_ := delete wdtNamespace (namespaceMap_ w) |>).
(** The wait for the other users of the controller changes nothing. *)
Definition deRegisterWdtNamespace (wdtNamespace : string) (w : WdtResourceController) : option (ErrorCode * WdtResourceController) :=
  match unmap wdtNamespace w with
  | (None, _) => Some (ERROR, w)
  | (Some p, w) =>
      let* (numSenders, w) := atController p (ns_releaseAll SENDERS) w in
      let* (numReceivers, w) := atController p (ns_releaseAll RECEIVERS) w in
      Some (OK, uncount RECEIVERS numReceivers (uncount SENDERS numSenders w))
  end.

Definition updateMaxLimitOf (role : Role) (wdtNamespace : string) (maxNum : Z) (w : WdtResourceController) : option WdtResourceController :=
  match getNamespaceController wdtNamespace w with
  | None => Some w
  | Some p => let* (_, w) := atController p (fun c => (tt, c <| ns_base := updateMaxLimit role maxNum (ns_base c) |>)) w in Some w
  end.
Definition requireRegistration (strict : bool) (w : WdtResourceController) : WdtResourceController := w <| strictRegistration_ := strict |>.
Definition getCounts (w : WdtResourceController) : Z * Z * Z :=
  (wrapS 32 (Z.of_nat (size (namespaceMap_ w))), wrapS 32 (num_ (senderCount (base w))), wrapS 32 (num_ (receiverCount (base w)))).

(** The loop of [shutdown] over the map. *)
Fixpoint shutdown_loop (l : list (string * nat)) (w : WdtResourceController) : option WdtResourceController :=
  match l with
  | [] => Some w
  | (_, p) :: l =>
      let* (numSenders, w) := atController p (ns_releaseAll SENDERS) w in
      let w := uncount SENDERS numSenders w in
      let* (numReceivers, w) := atController p (ns_releaseAll RECEIVERS) w in
      shutdown_loop l (uncount RECEIVERS numReceivers w)
  end.
Definition shutdown (w : WdtResourceController) : option WdtResourceController :=
  let* w := shutdown_loop (map_to_list (namespaceMap_ w)) w in
  let w := w <| namespaceMap_ := ∅ |> in
  check num_ (receiverCount (base w)) =? 0 ;;
  check num_ (senderCount (base w)) =? 0 ;;
  Some w.
