(* ===== verification/ResourceControllerProps.v ===== *)
(** The resource controller used by many threads: what is counted, that quotas
    hold, and when shutting down succeeds. *)
From stdpp Require Import gmap strings.
From Stdlib Require Import QArith.
From S2P Require Import Prelude ErrorCodes Uri Throttler ResourceController.

(** ** Operations that have begun

    What a thread still has to do after a section under a lock; the parameters
    are the pointer it holds and what it has to uncount. *)
Inductive Pending :=
  | PCreate (role : Role) (p : nat) (identifier : string) (request : WdtTransferRequest)
  | PRelease (role : Role) (p : nat) (identifier : string)
  | PReleaseAll (role : Role) (p : nat)
  | PReleaseStale (role : Role) (p : nat)
  | PLimit (role : Role) (p : nat) (maxNum : Z)
  | PDeregister (p : nat)
  | PDeregisterReceivers (p : nat) (numSenders : Z)
  | PUncount (numSenders numReceivers : Z).
Definition pointer (q : Pending) : option nat :=
  match q with
  | PCreate _ p _ _ | PRelease _ p _ | PReleaseAll _ p | PReleaseStale _ p | PLimit _ p _ | PDeregister p
  | PDeregisterReceivers p _ => Some p
  | PUncount _ _ => None
  end.
Definition to_uncount (role : Role) (n : Z) : Pending :=
  match role with SENDERS => PUncount n 0 | RECEIVERS => PUncount 0 n end.

Section system.
Context (rnd : Q -> Q).

(** The next section of an operation; [stale] and [now] are what it observes. *)
Definition resolve (now : Z) (stale : Object -> bool) (q : Pending) (w : WdtResourceController)
    : option (WdtResourceController * list Pending) :=
  match q with
  | PCreate role p identifier request =>
      let* (code, _, w) := createAt rnd now role p identifier request w in
      Some (w, if bool_decide (code = OK) then [] else [to_uncount role 1])
  | PRelease role p identifier =>
      let* (code, w) := atController p (ns_release role identifier) w in
      Some (w, if bool_decide (code = OK) then [to_uncount role 1] else [])
  | PReleaseAll role p => let* (n, w) := atController p (ns_releaseAll role) w in Some (w, [to_uncount role n])
  | PReleaseStale role p =>
      let* (ids, w) := atController p (ns_releaseStale role stale) w in Some (w, [to_uncount role (Zlen ids)])
  | PLimit role p maxNum =>
      let* (_, w) := atController p (fun c => (tt, c <| ns_base := updateMaxLimit role maxNum (ns_base c) |>)) w in Some (w, [])
  | PDeregister p => let* (n, w) := atController p (ns_releaseAll SENDERS) w in Some (w, [PDeregisterReceivers p n])
  | PDeregisterReceivers p numSenders =>
      let* (n, w) := atController p (ns_releaseAll RECEIVERS) w in Some (w, [PUncount numSenders n])
  | PUncount numSenders numReceivers => Some (uncount RECEIVERS numReceivers (uncount SENDERS numSenders w), [])
  end.

(** Operations that look a controller up and go on with it. *)
Definition follows_lookup (q : Pending) (p : nat) : Prop :=
  match q with
  | PRelease _ p' _ | PReleaseAll _ p' | PReleaseStale _ p' | PLimit _ p' _ => p' = p
  | _ => False
  end.

Definition System : Type := WdtResourceController * list Pending.
Inductive step : System -> System -> Prop :=
  | step_reserve w l role wdtNamespace identifier request p w' :
      reserve role wdtNamespace w = (inr p, w') -> step (w, l) (w', PCreate role p identifier request :: l)
  | step_rejected w l role wdtNamespace code w' :
      reserve role wdtNamespace w = (inl code, w') -> step (w, l) (w', l)
  | step_lookup w l wdtNamespace p q :
      getNamespaceController wdtNamespace w = Some p -> follows_lookup q p -> step (w, l) (w, q :: l)
  | step_unmap w l wdtNamespace p w' :
      unmap wdtNamespace w = (Some p, w') -> step (w, l) (w', PDeregister p :: l)
  | step_register w l wdtNamespace : step (w, l) (registerWdtNamespace wdtNamespace w, l)
  | step_limit w l role maxNum : step (w, l) (w <| base := updateMaxLimit role maxNum (base w) |>, l)
  | step_strict w l strict : step (w, l) (requireRegistration strict w, l)
  | step_resolve w l1 q l2 now stale w' qs :
      resolve now stale q w = Some (w', qs) -> step (w, l1 ++ q :: l2) (w', l1 ++ qs ++ l2).

Inductive reachable (options : ControllerOptions) (throttler : Throttler) : System -> Prop :=
  | reachable_start : reachable options throttler (WdtResourceController_make options throttler, [])
  | reachable_step s s' : reachable options throttler s -> step s s' -> reachable options throttler s'.

(** ** Counting *)

Definition held (role : Role) (c : WdtNamespaceController) : Z := Z.of_nat (size (objects role c)).
Definition total (role : Role) (h : gmap nat WdtNamespaceController) : Z := map_fold (fun _ c n => held role c + n) 0 h.
Definition weight (role : Role) (q : Pending) : Z :=
  match q with
  | PCreate r _ _ _ => if bool_decide (r = role) then 1 else 0
  | PDeregisterReceivers _ n => match role with SENDERS => n | RECEIVERS => 0 end
  | PUncount s r => match role with SENDERS => s | RECEIVERS => r end
  | _ => 0
  end.

Lemma total_insert role h p c : h !! p = None -> total role (<[p := c]> h) = held role c + total role h.
Proof. intros Hp. unfold total. rewrite map_fold_insert_L; [done| |done]. intros. lia. Qed.
Lemma total_update role h p c c' :
  h !! p = Some c -> total role (<[p := c']> h) = total role h - held role c + held role c'.
Proof.
  intros Hp. rewrite <- insert_delete_eq. rewrite total_insert by apply lookup_delete_eq.
  rewrite <- (insert_delete_id h p c Hp) at 2. rewrite total_insert by apply lookup_delete_eq. lia.
Qed.
Lemma total_nonneg role h : 0 <= total role h.
Proof. unfold total. apply (map_fold_weak_ind (fun n _ => 0 <= n)); [done|]. intros. unfold held. lia. Qed.

(** A controller of a name space counts its own objects. *)
Definition consistent (c : WdtNamespaceController) : Prop := forall role, num_ (count role (ns_base c)) = held role c.

Record accounted (s : System) : Prop := {
  acc_consistent : forall p c, heap s.1 !! p = Some c -> consistent c;
  acc_total : forall role, num_ (count role (base s.1)) = total role (heap s.1) + Zsum (weight role <$> s.2);
  acc_mapped : forall wdtNamespace p, namespaceMap_ s.1 !! wdtNamespace = Some p -> is_Some (heap s.1 !! p);
  acc_pointers : Forall (fun q => forall p, pointer q = Some p -> is_Some (heap s.1 !! p)) s.2;
  acc_weights : Forall (fun q => forall role, 0 <= weight role q) s.2;
  acc_fresh : forall p, is_Some (heap s.1 !! p) -> (p < nextController s.1)%nat;
  acc_injective : forall n1 n2 p, namespaceMap_ s.1 !! n1 = Some p -> namespaceMap_ s.1 !! n2 = Some p -> n1 = n2
}.

(** Sections in a controller of a name space. *)
Lemma objects_set role role' m c :
  objects role' (set_objects role m c) = if decide (role = role') then m else objects role' c.
Proof. by destruct role, role'. Qed.
Lemma objects_base role b c : objects role (c <| ns_base := b |>) = objects role c.
Proof. by destruct role. Qed.
Lemma base_set_objects role m c : ns_base (set_objects role m c) = ns_base c.
Proof. by destruct role. Qed.
Lemma count_set role role' x b : count role' (set_count role x b) = if decide (role = role') then x else count role' b.
Proof. by destruct role, role'. Qed.
Lemma count_add role role' n b :
  num_ (count role' (addNum role n b)) = num_ (count role' b) + (if decide (role = role') then n else 0).
Proof. unfold addNum. rewrite count_set. case_decide; [by subst|lia]. Qed.
Lemma max_add role role' n b : maxNum_ (count role' (addNum role n b)) = maxNum_ (count role' b).
Proof. unfold addNum. rewrite count_set. by case_decide; subst. Qed.

(** What a section does to the objects, when it keeps the count. *)
Definition changes (role : Role) (n : Z) (c c' : WdtNamespaceController) : Prop :=
  consistent c' /\ forall role', held role' c' = held role' c + (if decide (role = role') then n else 0).

Lemma changes_by role m n c :
  consistent c -> Z.of_nat (size m) = held role c + n ->
  changes role n c (set_objects role m c <| ns_base := addNum role n (ns_base (set_objects role m c)) |>).
Proof.
  intros Hc Hm. split; intros role'; unfold held; rewrite objects_base, objects_set; simpl; rewrite ?count_add, ?base_set_objects, ?Hc;
    unfold held in *; case_decide; subst; lia.
Qed.
Lemma changes_refl role c : consistent c -> changes role 0 c c.
Proof. intros Hc. split; [done|]. intros role'. case_decide; lia. Qed.

Lemma size_delete (m : gmap string Object) i o : m !! i = Some o -> Z.of_nat (size (delete i m)) = Z.of_nat (size m) - 1.
Proof.
  intros Hi. rewrite <- (insert_delete_id m i o Hi) at 2. rewrite map_size_insert_None by apply lookup_delete_eq. lia.
Qed.
Lemma ns_create_changes role fresh request identifier c code object c' :
  consistent c -> ns_create role fresh request identifier c = (code, object, c') ->
  changes role (if bool_decide (code = OK) then 1 else 0) c c'.
Proof.
  intros Hc. unfold ns_create. destruct (objects role c !! identifier) eqn:E.
  { intros [= <- <- <-]. by apply changes_refl. }
  destruct (negb _); intros [= <- <- <-]; [by apply changes_refl|].
  apply changes_by; [done|]. rewrite map_size_insert_None by done. unfold held. lia.
Qed.
Lemma ns_release_changes role identifier c code c' :
  consistent c -> ns_release role identifier c = (code, c') -> changes role (if bool_decide (code = OK) then -1 else 0) c c'.
Proof.
  intros Hc. unfold ns_release. destruct (objects role c !! identifier) eqn:E; intros [= <- <-]; [|by apply changes_refl].
  apply changes_by; [done|]. unfold held.
  rewrite (size_delete _ _ o) by done. lia.
Qed.
Lemma ns_releaseAll_changes role c n c' :
  consistent c -> ns_releaseAll role c = (n, c') -> 0 <= n /\ changes role (- n) c c' /\ objects role c' = ∅.
Proof.
  intros Hc. unfold ns_releaseAll. intros [= <- <-]. split; [lia|]. split; [|by destruct role].
  split; intros role'; unfold held; rewrite objects_base, objects_set; simpl; rewrite ?count_set, ?base_set_objects;
    unfold held in *; case_decide; subst; simpl; rewrite ?map_size_empty, ?Hc; unfold held; lia.
Qed.
Lemma releaseStale_loop_changes role stale l c ids c' :
  consistent c -> NoDup l.*1 -> (forall i o, (i, o) ∈ l -> objects role c !! i = Some o) ->
  releaseStale_loop role stale l c = (ids, c') -> changes role (- Zlen ids) c c'.
Proof.
  revert c ids c'. induction l as [|[i o] l IH]; intros c ids c' Hc Hnd Hin; cbn [releaseStale_loop].
  { intros [= <- <-]. by apply (changes_refl role). }
  inversion Hnd as [|? ? Hi Hnd']; subst. destruct (stale o).
  - set (c1 := _ <| ns_base := _ |>). destruct (releaseStale_loop role stale l c1) as [ids1 c2] eqn:E. intros [= <- <-].
    assert (changes role (-1) c c1) as [Hc1 Hh1].
    { apply changes_by; [done|]. unfold held.
      rewrite (size_delete _ _ o) by (apply Hin; left). lia. }
    apply IH in E as [Hc2 Hh2]; [|done..|].
    2:{ intros i' o' Hi'. unfold c1. rewrite objects_base, objects_set, decide_True by done. rewrite lookup_delete_ne.
      - apply Hin. by right.
      - intros <-. apply Hi. apply list_elem_of_fmap. by exists (i, o'). }
    split; [done|]. intros role'. rewrite Hh2, Hh1. case_decide; simpl; lia.
  - apply IH; [done..|]. intros i' o' Hi'. apply Hin. by right.
Qed.
Lemma ns_releaseStale_changes role stale c ids c' :
  consistent c -> ns_releaseStale role stale c = (ids, c') -> changes role (- Zlen ids) c c'.
Proof.
  intros Hc. apply releaseStale_loop_changes; [done|apply NoDup_fst_map_to_list|]. intros i o. apply elem_of_map_to_list.
Qed.

(** A section at a pointer keeps the rest. *)
Lemma atController_some {A} p (f : WdtNamespaceController -> A * WdtNamespaceController) w :
  is_Some (heap w !! p) -> is_Some (atController p f w).
Proof. intros [c Hc]. unfold atController. rewrite Hc. by destruct (f c). Qed.
Lemma atController_inv {A} p (f : WdtNamespaceController -> A * WdtNamespaceController) w a w' :
  atController p f w = Some (a, w') ->
  exists c c', heap w !! p = Some c /\ f c = (a, c') /\ w' = w <| heap := <[p := c']> (heap w) |>.
Proof.
  unfold atController. destruct (heap w !! p) as [c|] eqn:E; [|done]. destruct (f c) as [a' c'] eqn:Ef. intros [= <- <-].
  by exists c, c'.
Qed.
Lemma accounted_at role n w l p c c' qs :
  accounted (w, l) -> heap w !! p = Some c -> changes role n c c' ->
  (forall role', Zsum (weight role' <$> qs) = Zsum (weight role' <$> l) - if decide (role = role') then n else 0) ->
  Forall (fun q => forall p', pointer q = Some p' -> is_Some (heap w !! p')) qs ->
  Forall (fun q => forall role, 0 <= weight role q) qs ->
  accounted (w <| heap := <[p := c']> (heap w) |>, qs).
Proof.
  intros [A1 A2 A3 A4 A5 A6 A7] Hp [Hc Hh] Hw Hptr Hpos. simpl in *.
  assert (forall p', is_Some (<[p := c']> (heap w) !! p') <-> is_Some (heap w !! p')) as Hdom.
  { intros p'. destruct (decide (p = p')) as [<-|Hne]; [|by rewrite lookup_insert_ne]. rewrite lookup_insert_eq, Hp. by split; eexists. }
  split; simpl.
  - intros p' c0. destruct (decide (p = p')) as [<-|Hne]; [rewrite lookup_insert_eq; by intros [= <-]|].
    rewrite lookup_insert_ne by done. apply A1.
  - intros role'. rewrite (total_update _ _ _ c) by done. rewrite Hh, Hw, A2. case_decide; lia.
  - intros ns p' Hn. apply Hdom. eauto.
  - eapply Forall_impl; [exact Hptr|]. intros q Hq p' Hp'. apply Hdom. eauto.
  - done.
  - intros p' Hp'. apply A6. by apply Hdom.
  - done.
Qed.

(** ** The invariant *)

Lemma accounted_start options throttler : accounted (WdtResourceController_make options throttler, []).
Proof.
  split; simpl; try done; [by intros []|by constructor..|]. by intros p [c Hc].
Qed.
Lemma accounted_new w l wdtNamespace p w' :
  accounted (w, l) -> getNamespaceController wdtNamespace w = None ->
  createNamespaceController wdtNamespace w = (p, w') -> accounted (w', l) /\ is_Some (heap w' !! p).
Proof.
  intros [A1 A2 A3 A4 A5 A6 A7] Hn. unfold createNamespaceController. intros [= <- <-]. simpl in *.
  assert (heap w !! nextController w = None) as Hf.
  { destruct (heap w !! nextController w) eqn:E; [|done]. specialize (A6 (nextController w)). rewrite E in A6.
    specialize (A6 ltac:(eauto)). lia. }
  assert (forall p', is_Some (heap w !! p') -> is_Some (<[nextController w := WdtNamespaceController_make (options_ w) wdtNamespace]> (heap w) !! p')) as Hdom.
  { intros p' Hp'. by apply lookup_insert_is_Some; destruct (decide (nextController w = p')); [left|right]. }
  split; [|by rewrite lookup_insert_eq]. split; simpl.
  - intros p c. rewrite lookup_insert_Some. intros [[_ <-]|[_ Hc]]; [|by eapply A1]. intros role. by destruct role.
  - intros role. rewrite total_insert by done. rewrite A2. assert (held role (WdtNamespaceController_make (options_ w) wdtNamespace) = 0) as ->
      by (by destruct role). lia.
  - intros ns p. rewrite lookup_insert_Some. intros [[_ <-]|[_ Hp]]; [by rewrite lookup_insert_eq|]. eauto.
  - eapply Forall_impl; [exact A4|]. intros q Hq p Hp. eauto.
  - done.
  - intros p. rewrite lookup_insert_is_Some. intros [<-|[_ Hp]]; [lia|]. apply A6 in Hp. lia.
  - intros n1 n2 p. rewrite !lookup_insert_Some. intros [[<- <-]|[H1 Hp1]] [[<- E]|[H2 Hp2]]; try done; [..|by eapply A7].
    + apply A3 in Hp2. rewrite Hf in Hp2. by destruct Hp2.
    + subst. apply A3 in Hp1. rewrite Hf in Hp1. by destruct Hp1.
Qed.

Lemma Zsum_weight role q l : Zsum (weight role <$> q :: l) = weight role q + Zsum (weight role <$> l).
Proof. done. Qed.
Lemma accounted_reserve w l role wdtNamespace r w' :
  accounted (w, l) -> reserve role wdtNamespace w = (r, w') ->
  match r with
  | inl _ => accounted (w', l)
  | inr p => forall identifier request, accounted (w', PCreate role p identifier request :: l)
  end.
Proof.
  intros A. unfold reserve.
  set (made := match getNamespaceController wdtNamespace w with Some p => Some (p, w) | None => _ end).
  assert (match made with None => True | Some (p, w1) => accounted (w1, l) /\ is_Some (heap w1 !! p) end) as Hmade.
  { unfold made. destruct (getNamespaceController wdtNamespace w) as [p|] eqn:E; [split; [done|]; exact (acc_mapped _ A _ _ E)|].
    destruct (strictRegistration_ w); [done|]. destruct (createNamespaceController wdtNamespace w) as [p w1] eqn:E1.
    by eapply accounted_new. }
  destruct made as [[p w1]|]; [|by intros [= <- <-]]. destruct Hmade as [[A1 A2 A3 A4 A5 A6 A7] Hp].
  destruct (negb _); intros [= <- <-]; [by split|]. intros identifier request. split; cbn [fst snd] in *; try done.
  - intros role'. rewrite Zsum_weight. simpl. rewrite count_add, A2. case_bool_decide; case_decide; done || lia.
  - constructor; [|done]. by intros p' [= <-].
  - constructor; [|done]. intros role'. simpl. case_bool_decide; lia.
Qed.

Lemma weight_to_uncount role role' n : weight role' (to_uncount role n) = if decide (role = role') then n else 0.
Proof. by destruct role, role'. Qed.

(** The order of the operations that have begun does not matter. *)
Lemma accounted_perm w l l' : l ≡ₚ l' -> accounted (w, l) -> accounted (w, l').
Proof.
  intros Hp [A1 A2 A3 A4 A5 A6 A7]. split; simpl in *; try done; [|by rewrite <- Hp..].
  intros role. rewrite A2. by rewrite (Zsum_permutation _ _ (fmap_Permutation _ _ _ Hp)).
Qed.

(** Nor do the throttler, the options and the names of objects. *)
Lemma accounted_eq w w' l :
  base w' = base w -> heap w' = heap w -> namespaceMap_ w' = namespaceMap_ w -> nextController w' = nextController w ->
  accounted (w, l) -> accounted (w', l).
Proof. intros E1 E2 E3 E4 []. by split; cbn [fst snd] in *; rewrite ?E1, ?E2, ?E3, ?E4. Qed.

(** A section that changes [n] objects and leaves [qs] to do. *)
Lemma accounted_section role n q w l p c c' qs :
  accounted (w, q :: l) -> heap w !! p = Some c -> changes role n c c' ->
  (forall role', Zsum (weight role' <$> qs) = weight role' q - if decide (role = role') then n else 0) ->
  Forall (fun q => forall p', pointer q = Some p' -> p' = p) qs -> Forall (fun q => forall role, 0 <= weight role q) qs ->
  accounted (w <| heap := <[p := c']> (heap w) |>, qs ++ l).
Proof.
  intros A Hp Hch Hw Hptr Hpos. pose proof (acc_pointers _ A) as B1. pose proof (acc_weights _ A) as B2. simpl in B1, B2.
  apply Forall_cons in B1 as [_ B1], B2 as [_ B2]. eapply accounted_at; [done..| | |].
  - intros role'. rewrite fmap_app, Zsum_app, Hw, Zsum_weight. lia.
  - apply Forall_app. split; [|done]. eapply Forall_impl; [exact Hptr|]. intros q' Hq p' Hp'. rewrite (Hq _ Hp'), Hp. eauto.
  - by apply Forall_app.
Qed.

Lemma createAt_inv now role p identifier request w code object w' :
  createAt rnd now role p identifier request w = Some (code, object, w') ->
  exists c c', heap w !! p = Some c /\ ns_create role (nextObject w) request identifier c = (code, object, c')
    /\ base w' = base w /\ heap w' = <[p := c']> (heap w) /\ namespaceMap_ w' = namespaceMap_ w
    /\ nextController w' = nextController w /\ strictRegistration_ w' = strictRegistration_ w.
Proof.
  unfold createAt. destruct (atController _ _ _) as [[[code1 o1] w1]|] eqn:E; [|done]. intros [= <- <- <-].
  apply atController_inv in E as (c & c' & Hc & Hf & ->). by exists c, c'.
Qed.
Local Ltac weights :=
  intros; repeat match goal with r : Role |- _ => destruct r end; unfold Zsum; simpl; lia.
Local Ltac section_side :=
  repeat match goal with r : Role |- _ => destruct r end;
  repeat (constructor; [intros; repeat match goal with r : Role |- _ => destruct r end; simpl in *; simplify_eq; done || lia|]); constructor.
Lemma accounted_resolve now stale q w l w' qs :
  accounted (w, q :: l) -> resolve now stale q w = Some (w', qs) -> accounted (w', qs ++ l).
Proof.
  intros A. assert (forall p c, heap w !! p = Some c -> consistent c) as Hcons by apply (acc_consistent _ A).
  assert (forall role, 0 <= weight role q) as Hq by (pose proof (acc_weights _ A) as B; by apply Forall_cons in B as [B _]).
  destruct q as [role p identifier request|role p identifier|role p|role p|role p maxNum|p|p n|ns nr]; cbn [resolve];
    [|destruct (atController _ _ _) as [[a w1]|] eqn:E; [|done]; intros [= <- <-];
      apply atController_inv in E as (c & c' & Hc & Hf & ->)..|].
  - destruct (createAt rnd now role p identifier request w) as [[[code object] w1]|] eqn:E; [|done]. intros [= <- <-].
    apply createAt_inv in E as (c & c' & Hc & Hf & E1 & E2 & E3 & E4 & _).
    apply ns_create_changes in Hf; [|eauto].
    apply (accounted_eq (w <| heap := <[p := c']> (heap w) |>)); [done..|].
    eapply accounted_section; [done..| | |]; [|destruct (bool_decide _); section_side..].
    intros role'. destruct (bool_decide (code = OK)); weights.
  - apply ns_release_changes in Hf; [|eauto]. eapply accounted_section; [done..| | |]; [|destruct (bool_decide _); section_side..].
    intros role'. destruct (bool_decide (a = OK)); weights.
  - apply ns_releaseAll_changes in Hf as (Hn & Hf & _); [|eauto].
    eapply accounted_section; [done..| | |]; [weights|section_side..].
  - apply ns_releaseStale_changes in Hf; [|eauto]. eapply accounted_section; [done..| | |]; [weights|section_side..].
  - injection Hf as <- <-. eapply (accounted_section SENDERS 0); [done..| | | |]; [|weights|section_side..].
    split; intros role'; simpl; rewrite ?objects_base.
    + unfold updateMaxLimit. rewrite count_set. unfold held. rewrite objects_base. specialize (Hcons _ _ Hc role').
      unfold held in Hcons. case_decide; subst; simpl; done.
    + unfold held. rewrite objects_base. case_decide; lia.
  - apply ns_releaseAll_changes in Hf as (Hn & Hf & _); [|eauto].
    eapply accounted_section; [done..| | |]; [weights|section_side..].
  - apply ns_releaseAll_changes in Hf as (Hn & Hf & _); [|eauto]. pose proof (Hq SENDERS) as Hs. simpl in Hs.
    eapply accounted_section; [done..| | |]; [weights|section_side..].
  - intros [= <- <-]. destruct A as [A1 A2 A3 A4 A5 A6 A7]. cbn [fst snd] in *. apply Forall_cons in A4 as [_ A4], A5 as [_ A5].
    split; cbn [fst snd app]; try done. intros role. specialize (A2 role). rewrite Zsum_weight in A2.
    destruct role; simpl in *; lia.
Qed.

Lemma accounted_register w l wdtNamespace : accounted (w, l) -> accounted (registerWdtNamespace wdtNamespace w, l).
Proof.
  intros A. unfold registerWdtNamespace. destruct (getNamespaceController wdtNamespace w) eqn:E; [done|].
  destruct (createNamespaceController wdtNamespace w) as [p w'] eqn:E'. by eapply accounted_new in E' as [? _].
Qed.
Lemma accounted_unmap w l wdtNamespace p w' :
  accounted (w, l) -> unmap wdtNamespace w = (Some p, w') -> accounted (w', PDeregister p :: l).
Proof.
  intros [A1 A2 A3 A4 A5 A6 A7]. unfold unmap. intros [= Hp <-]. split; cbn [fst snd] in *; try done.
  - intros ns p'. simpl. rewrite lookup_delete_Some. intros [_ Hn]. eauto.
  - constructor; [|done]. intros p' [= <-]. simpl. eauto.
  - constructor; [|done]. by intros [].
  - intros n1 n2 p'. simpl. rewrite !lookup_delete_Some. intros [_ H1] [_ H2]. eauto.
Qed.
Lemma accounted_pend w l q p :
  accounted (w, l) -> is_Some (heap w !! p) -> follows_lookup q p -> accounted (w, q :: l).
Proof.
  intros [A1 A2 A3 A4 A5 A6 A7] Hp Hq. destruct q; simpl in Hq; subst; try done;
    (split; cbn [fst snd] in *;
      [done|intros role'; rewrite Zsum_weight, A2; simpl; lia|done|by constructor; [intros ? [= <-]|]
      |by constructor; [intros []|]|done|done]).
Qed.
Lemma accounted_step s s' : accounted s -> step s s' -> accounted s'.
Proof.
  intros A. destruct 1 as [w l role ns id req p w' E|w l role ns code w' E|w l ns p q E Hq|w l ns p w' E|w l ns|w l role mx|w l b|w l1 q l2 now stale w' qs E].
  - exact (accounted_reserve _ _ _ _ _ _ A E id req).
  - exact (accounted_reserve _ _ _ _ _ _ A E).
  - eapply accounted_pend; [done| |done]. exact (acc_mapped _ A _ _ E).
  - by eapply accounted_unmap.
  - by apply accounted_register.
  - destruct A as [A1 A2 A3 A4 A5 A6 A7]. split; cbn [fst snd] in *; try done. intros role'. simpl.
    unfold updateMaxLimit. rewrite count_set. rewrite <- A2. by case_decide; subst.
  - by eapply accounted_eq; [..|exact A].
  - apply (accounted_perm _ (qs ++ l1 ++ l2)); [apply Permutation_app_swap_app|]. eapply accounted_resolve; [|exact E].
    apply (accounted_perm _ (l1 ++ q :: l2)); [|exact A]. symmetry. apply Permutation_middle.
Qed.
Lemma accounted_reachable options throttler s : reachable options throttler s -> accounted s.
Proof. induction 1; [apply accounted_start|by eapply accounted_step]. Qed.


(** ** Quotas *)

(** A count that grows stays within its limit, if there is one. *)
Definition fits (c c' : Count) : Prop := num_ c' <= num_ c \/ maxNum_ c' <= 0 \/ num_ c' <= maxNum_ c'.
Lemma fits_add role role' b : exceeded (count role b) = false -> fits (count role' b) (count role' (addNum role 1 b)).
Proof.
  unfold exceeded, fits. rewrite andb_false_iff, Z.leb_gt, Z.ltb_ge, count_add, max_add. case_decide; subst; lia.
Qed.
Lemma fits_changes role n c c' role' :
  consistent c -> changes role n c c' -> n <= 0 -> fits (count role' (ns_base c)) (count role' (ns_base c')).
Proof. intros Hc [Hc' Hh] Hn. left. rewrite Hc, Hc', Hh. case_decide; lia. Qed.
Definition all_fit (w w' : WdtResourceController) : Prop :=
  (forall role, fits (count role (base w)) (count role (base w')))
  /\ forall p c c' role, heap w !! p = Some c -> heap w' !! p = Some c' -> fits (count role (ns_base c)) (count role (ns_base c')).
Lemma all_fit_same w w' : (forall role, fits (count role (base w)) (count role (base w'))) -> heap w' = heap w -> all_fit w w'.
Proof. intros Hb Hh. split; [done|]. intros p c c' role. rewrite Hh. intros -> [= <-]. left. lia. Qed.
Lemma all_fit_at w w' p c c' :
  base w' = base w -> heap w !! p = Some c -> heap w' = <[p := c']> (heap w) ->
  (forall role, fits (count role (ns_base c)) (count role (ns_base c'))) -> all_fit w w'.
Proof.
  intros Hb Hp Hh Hf. split; [intros role; rewrite Hb; left; lia|]. intros p' c0 c0' role H0. rewrite Hh.
  destruct (decide (p = p')) as [<-|Hne]; [rewrite lookup_insert_eq; intros [= <-]; by simplify_eq|].
  rewrite lookup_insert_ne by done. rewrite H0. intros [= <-]. left. lia.
Qed.

Lemma ns_create_fits role fresh request identifier c code object c' role' :
  ns_create role fresh request identifier c = (code, object, c') -> fits (count role' (ns_base c)) (count role' (ns_base c')).
Proof.
  unfold ns_create. destruct (objects role c !! identifier); [intros [= <- <- <-]; left; lia|].
  destruct (negb (ns_hasQuota role c)) eqn:E; intros [= <- <- <-]; [left; lia|]. simpl. rewrite base_set_objects.
  unfold ns_hasQuota in E. rewrite negb_involutive in E. by apply fits_add.
Qed.
Lemma reserve_fits w l role wdtNamespace r w' : accounted (w, l) -> reserve role wdtNamespace w = (r, w') -> all_fit w w'.
Proof.
  intros A. unfold reserve. destruct (getNamespaceController wdtNamespace w) as [p|] eqn:E.
  - destruct (negb (hasQuotaInternal role (Some p) w)) eqn:Eq; intros [= <- <-]; apply all_fit_same; try done; intros role'; [left; lia|].
    apply negb_false_iff, andb_true_iff in Eq as [Eq _]. apply negb_true_iff in Eq. by apply fits_add.
  - destruct (strictRegistration_ w); [intros [= <- <-]; apply all_fit_same; [left; lia|done]|]. simpl.
    assert (forall b, (forall role', fits (count role' (base w)) (count role' b)) ->
      all_fit w ((createNamespaceController wdtNamespace w).2 <| base := b |>)) as Hnew.
    { intros b Hb. split; [done|]. intros p c c' role' Hc. simpl. rewrite lookup_insert_ne; [rewrite Hc; intros [= <-]; left; lia|].
      intros <-. pose proof (acc_fresh _ A (nextController w)) as Hf. simpl in Hf. rewrite Hc in Hf. specialize (Hf ltac:(eauto)). lia. }
    destruct (negb (hasQuotaInternal _ _ _)) eqn:Eq; intros [= <- <-].
    + apply (Hnew (base w)). intros role'. left. lia.
    + apply (Hnew (addNum role 1 (base w))). intros role'.
      apply negb_false_iff, andb_true_iff in Eq as [Eq _]. apply negb_true_iff in Eq. by apply fits_add.
Qed.
Lemma resolve_fits now stale q w l w' qs :
  accounted (w, q :: l) -> resolve now stale q w = Some (w', qs) -> all_fit w w'.
Proof.
  intros A E. assert (forall p c, heap w !! p = Some c -> consistent c) as Hcons by apply (acc_consistent _ A).
  assert (forall role, 0 <= weight role q) as Hq by (pose proof (acc_weights _ A) as B; by apply Forall_cons in B as [B _]).
  destruct q as [role p identifier request|role p identifier|role p|role p|role p maxNum|p|p n|ns nr]; cbn [resolve] in E.
  1: { destruct (createAt rnd now role p identifier request w) as [[[code object] w1]|] eqn:E'; [|done]. injection E as <- <-.
       apply createAt_inv in E' as (c & c' & Hc & Hf & E1 & E2 & _). eapply all_fit_at; [done..|]. intros role'.
       by eapply ns_create_fits. }
  7: { injection E as <- <-. apply all_fit_same; [|done]. intros role. left. specialize (Hq role). destruct role; simpl in *; lia. }
  all: destruct (atController _ _ _) as [[a w1]|] eqn:E'; [|done]; injection E as <- <-;
    apply atController_inv in E' as (c & c' & Hc & Hf & ->); eapply all_fit_at; [done..|]; intros role'.
  - apply ns_release_changes in Hf; [|eauto]. eapply fits_changes; [eauto|done|by destruct (bool_decide _)].
  - apply ns_releaseAll_changes in Hf as (Hn & Hf & _); [|eauto]. eapply fits_changes; [eauto|done|lia].
  - apply ns_releaseStale_changes in Hf; [|eauto]. eapply fits_changes; [eauto|done|lia].
  - injection Hf as <- <-. left. simpl. unfold updateMaxLimit. rewrite count_set. case_decide; subst; simpl; lia.
  - apply ns_releaseAll_changes in Hf as (Hn & Hf & _); [|eauto]. eapply fits_changes; [eauto|done|lia].
  - apply ns_releaseAll_changes in Hf as (Hn & Hf & _); [|eauto]. eapply fits_changes; [eauto|done|lia].
Qed.

(** C16: Quotas hold under concurrency: a step that raises a count, globally or
    in a name space, raises it at most to the limit in force, if there is one.
    The check and the reservation are under one lock, so two threads cannot
    both take the last place. *)
Theorem quota_respected options throttler w l w' l' :
  reachable options throttler (w, l) -> step (w, l) (w', l') ->
  (forall role, fits (count role (base w)) (count role (base w')))
  /\ (forall p c c' role, heap w !! p = Some c -> heap w' !! p = Some c' ->
       fits (count role (ns_base c)) (count role (ns_base c'))).
Proof.
  intros A%accounted_reachable Hs. change (all_fit w w').
  assert (forall role, fits (count role (base w)) (count role (base w))) as Hr by (left; lia).
  remember (w, l) as s eqn:Es. remember (w', l') as s' eqn:Es'.
  destruct Hs as [? ? ? ? ? ? ? ? E|? ? ? ? ? ? E| |? ? ? ? ? E|? ? ns|? ? role mx| |w0 l1 q l2 now stale ? ? E]; simplify_eq.
  - by eapply reserve_fits.
  - by eapply reserve_fits.
  - by apply all_fit_same.
  - injection E as _ <-. by apply all_fit_same.
  - unfold registerWdtNamespace. destruct (getNamespaceController ns w) eqn:E; [by apply all_fit_same|].
    split; [done|]. intros p c c' role Hc. simpl. rewrite lookup_insert_ne; [rewrite Hc; intros [= <-]; left; lia|].
    intros <-. pose proof (acc_fresh _ A (nextController w)) as Hf. simpl in Hf. rewrite Hc in Hf. specialize (Hf ltac:(eauto)). lia.
  - apply all_fit_same; [|done]. intros role'. left. simpl. unfold updateMaxLimit. rewrite count_set. case_decide; subst; simpl; lia.
  - by apply all_fit_same.
  - eapply resolve_fits; [|exact E]. apply (accounted_perm _ (l1 ++ q :: l2)); [|exact A]. symmetry. apply Permutation_middle.
Qed.

(** ** Shutting down *)

(** Every controller that is not in the map is empty. *)
Definition covered (w : WdtResourceController) : Prop :=
  forall p c, heap w !! p = Some c -> (exists n, namespaceMap_ w !! n = Some p) \/ forall role, objects role c = ∅.

Lemma accounted_uncount role n w l : accounted (w, to_uncount role n :: l) -> accounted (uncount role n w, l).
Proof.
  intros [A1 A2 A3 A4 A5 A6 A7]. cbn [fst snd] in *. apply Forall_cons in A4 as [_ A4], A5 as [_ A5]. split; cbn [fst snd]; try done.
  intros role'. specialize (A2 role'). rewrite Zsum_weight in A2. destruct role, role'; simpl in *; lia.
Qed.
Lemma releaseAll_at w role p n w' :
  accounted (w, []) -> atController p (ns_releaseAll role) w = Some (n, w') -> accounted (uncount role n w', []).
Proof.
  intros A E. assert (accounted (w, [PReleaseAll role p])) as A1.
  { eapply (accounted_pend _ _ _ p); [done| |done]. apply atController_inv in E as (c & c' & Hc & _). eauto. }
  eapply (accounted_resolve 0 (fun _ => false)) in A1; [|cbn [resolve]; rewrite E; reflexivity].
  by apply accounted_uncount.
Qed.

(** The loop empties the controllers it visits, and no others. *)
Lemma shutdown_loop_empties l w :
  accounted (w, []) -> Forall (fun e => is_Some (heap w !! e.2)) l ->
  exists w', shutdown_loop l w = Some w' /\ accounted (w', []) /\ namespaceMap_ w' = namespaceMap_ w
    /\ forall p c', heap w' !! p = Some c' ->
         (forall role, objects role c' = ∅) \/ p ∉ l.*2 /\ heap w !! p = Some c'.
Proof.
  revert w. induction l as [|[name p] l IH]; intros w A Hl; cbn [shutdown_loop].
  { exists w. split_and!; [done..|]. intros p c' Hc. right. split; [apply not_elem_of_nil|done]. }
  apply Forall_cons in Hl as [Hp Hl]. simpl in Hp.
  destruct (atController_some p (ns_releaseAll SENDERS) w Hp) as [[ns w1] E1]. rewrite E1.
  pose proof (releaseAll_at _ _ _ _ _ A E1) as A1. apply atController_inv in E1 as (c & c1 & Hc & Hf1 & ->).
  set (w1 := uncount SENDERS ns _) in *.
  assert (heap w1 = <[p := c1]> (heap w)) as Hh1 by done.
  destruct (atController_some p (ns_releaseAll RECEIVERS) w1) as [[nr w2] E2]; [rewrite Hh1, lookup_insert_eq; eauto|]. rewrite E2.
  pose proof (releaseAll_at _ _ _ _ _ A1 E2) as A2. apply atController_inv in E2 as (c1' & c2 & Hc1 & Hf2 & ->).
  rewrite Hh1, lookup_insert_eq in Hc1. injection Hc1 as <-. set (w2 := uncount RECEIVERS nr _) in *.
  assert (heap w2 = <[p := c2]> (heap w)) as Hh2 by (unfold w2; simpl; by rewrite insert_insert_eq).
  destruct (IH w2 A2) as (w' & -> & A' & Hm & Hh).
  { eapply Forall_impl; [exact Hl|]. intros e He. rewrite Hh2. apply lookup_insert_is_Some. destruct (decide (p = e.2)); auto. }
  exists w'. split_and!; [done..|]. intros p' c' Hc'. destruct (Hh _ _ Hc') as [?|[Hn Hc2]]; [by left|]. rewrite Hh2 in Hc2.
  destruct (decide (p = p')) as [<-|Hne].
  - left. rewrite lookup_insert_eq in Hc2. injection Hc2 as <-. injection Hf1 as <- <-. injection Hf2 as <- <-. by intros [].
  - right. rewrite lookup_insert_ne in Hc2 by done. split; [|done]. cbn. rewrite not_elem_of_cons. auto.
Qed.
Lemma total_empty role h : (forall p c, h !! p = Some c -> objects role c = ∅) -> total role h = 0.
Proof.
  unfold total. intros Hh. revert Hh.
  apply (map_fold_weak_ind (fun n h => (forall p c, h !! p = Some c -> objects role c = ∅) -> n = 0)); [done|].
  intros p c h' n Hp IH Hh. rewrite IH.
  - unfold held. rewrite (Hh p c) by apply lookup_insert_eq. by rewrite map_size_empty.
  - intros p' c' Hp'. apply (Hh p'). rewrite lookup_insert_ne; [done|]. by intros ->; rewrite Hp in Hp'.
Qed.
Lemma shutdown_lemma w :
  accounted (w, []) -> covered w ->
  exists w', shutdown w = Some w' /\ forall role, num_ (count role (base w')) = 0 /\ total role (heap w') = 0.
Proof.
  intros A Hcov. unfold shutdown. destruct (shutdown_loop_empties (map_to_list (namespaceMap_ w)) w A) as (w1 & -> & A1 & Hm & Hh).
  { apply Forall_forall. intros [name p] Hin%elem_of_map_to_list. exact (acc_mapped _ A _ _ Hin). }
  assert (forall role, total role (heap w1) = 0) as Ht.
  { intros role. apply total_empty. intros p c Hc. destruct (Hh _ _ Hc) as [?|[Hn Hc0]]; [done|].
    destruct (Hcov _ _ Hc0) as [[name Hname]|]; [|done]. destruct Hn. apply list_elem_of_fmap. exists (name, p). split; [done|].
    by apply elem_of_map_to_list. }
  assert (forall role, num_ (count role (base w1)) = 0) as Hz.
  { intros role. pose proof (acc_total _ A1 role) as Hw. simpl in Hw. rewrite Ht in Hw. exact Hw. }
  pose proof (Hz SENDERS) as Hs. pose proof (Hz RECEIVERS) as Hr. simpl in *. rewrite Hs, Hr. simpl. eauto.
Qed.

(** Operations that run one after another. *)
Inductive seq_step (w : WdtResourceController) : WdtResourceController -> Prop :=
  | seq_create now role wdtNamespace identifier request code object w' :
      createObject rnd now role wdtNamespace identifier request w = Some (code, object, w') -> seq_step w w'
  | seq_release role wdtNamespace identifier code w' : releaseObject role wdtNamespace identifier w = Some (code, w') -> seq_step w w'
  | seq_releaseAll role wdtNamespace code w' : releaseAll role wdtNamespace w = Some (code, w') -> seq_step w w'
  | seq_releaseStale role stale wdtNamespace code ids w' :
      releaseStale role stale wdtNamespace w = Some (code, ids, w') -> seq_step w w'
  | seq_register wdtNamespace : seq_step w (registerWdtNamespace wdtNamespace w)
  | seq_deregister wdtNamespace code w' : deRegisterWdtNamespace wdtNamespace w = Some (code, w') -> seq_step w w'
  | seq_limit role maxNum : seq_step w (w <| base := updateMaxLimit role maxNum (base w) |>)
  | seq_limitOf role wdtNamespace maxNum w' : updateMaxLimitOf role wdtNamespace maxNum w = Some w' -> seq_step w w'
  | seq_strict strict : seq_step w (requireRegistration strict w).
Inductive seq_reachable (options : ControllerOptions) (throttler : Throttler) : WdtResourceController -> Prop :=
  | seq_start : seq_reachable options throttler (WdtResourceController_make options throttler)
  | seq_next w w' : seq_reachable options throttler w -> seq_step w w' -> seq_reachable options throttler w'.

Definition tidy (w : WdtResourceController) : Prop := accounted (w, []) /\ covered w.
Lemma covered_eq w w' : heap w' = heap w -> namespaceMap_ w' = namespaceMap_ w -> covered w -> covered w'.
Proof. unfold covered. by intros -> ->. Qed.
Lemma covered_at w w' name p c' :
  covered w -> namespaceMap_ w !! name = Some p -> heap w' = <[p := c']> (heap w) -> namespaceMap_ w' = namespaceMap_ w -> covered w'.
Proof.
  unfold covered. intros Hc Hn -> ->. intros p0 c0. destruct (decide (p = p0)) as [<-|Hne]; [by left; exists name|].
  rewrite lookup_insert_ne by done. apply Hc.
Qed.
Lemma covered_new w name w' p : covered w -> getNamespaceController name w = None -> createNamespaceController name w = (p, w') -> covered w'.
Proof.
  intros Hc Hn. unfold createNamespaceController. intros [= <- <-]. intros p c. simpl. rewrite lookup_insert_Some.
  intros [[<- _]|[Hne Hp]]; [left; exists name; by rewrite lookup_insert_eq|].
  destruct (Hc _ _ Hp) as [[n Hmap]|]; [|by right]. left. exists n. rewrite lookup_insert_ne; [done|]. intros <-.
  unfold getNamespaceController in Hn. by rewrite Hmap in Hn.
Qed.
Lemma covered_reserve w role name r w' :
  covered w -> reserve role name w = (r, w') ->
  covered w' /\ match r with inr p => namespaceMap_ w' !! name = Some p | _ => True end.
Proof.
  intros Hc. unfold reserve. destruct (getNamespaceController name w) as [p|] eqn:E.
  { destruct (negb _); intros [= <- <-]; by split. }
  destruct (strictRegistration_ w); [by intros [= <- <-]|].
  destruct (createNamespaceController name w) as [p w1] eqn:E1. pose proof (covered_new _ _ _ _ Hc E E1) as H1.
  assert (namespaceMap_ w1 !! name = Some p) by (injection E1 as <- <-; apply lookup_insert_eq).
  destruct (negb _); intros [= <- <-]; by split.
Qed.

(** An operation in a controller that is in the map. *)
Lemma tidy_lookup w name p q stale w' qs :
  tidy w -> getNamespaceController name w = Some p -> follows_lookup q p -> resolve 0 stale q w = Some (w', qs) ->
  accounted (w', qs) /\ covered w'.
Proof.
  intros [A Hc] Hn Hq E. split.
  - rewrite <- (app_nil_r qs). eapply accounted_resolve; [|exact E]. eapply accounted_pend; [done|exact (acc_mapped _ A _ _ Hn)|done].
  - assert (forall B (f : WdtNamespaceController -> B * WdtNamespaceController) b w1, atController p f w = Some (b, w1) -> covered w1) as Hat.
    { intros B f b w1 E1. apply atController_inv in E1 as (c & c' & Hp & Hf & ->). by eapply covered_at. }
    destruct q; simpl in Hq; subst; try done; cbn [resolve] in E; (destruct (atController _ _ _) as [[b w1]|] eqn:E1; [|done]);
      injection E as <- <-; eauto.
Qed.
Lemma tidy_uncount w role n : accounted (w, [to_uncount role n]) /\ covered w -> tidy (uncount role n w).
Proof. intros [A Hc]. split; [by apply accounted_uncount|]. by eapply covered_eq; [..|exact Hc]. Qed.
Lemma uncount_0 role w : tidy (uncount role 0 w) -> tidy w.
Proof.
  intros [A Hc]. split; [|by eapply covered_eq; [..|exact Hc]]. eapply accounted_eq; [..|exact A]; try done.
  unfold uncount, addNum. destruct w as [[nm [? ?] [? ?]] ? ? ? ? ? ? ?]. destruct role; simpl; by rewrite Z.add_0_r.
Qed.
Lemma tidy_create now role name identifier request w code object w' :
  tidy w -> createObject rnd now role name identifier request w = Some (code, object, w') -> tidy w'.
Proof.
  intros [A Hc]. unfold createObject. destruct (reserve role name w) as [[e|p] w1] eqn:E.
  { intros [= <- <- <-]. split; [exact (accounted_reserve _ _ _ _ _ _ A E)|by eapply covered_reserve in E as [? _]]. }
  pose proof (accounted_reserve _ _ _ _ _ _ A E identifier request) as A1. destruct (covered_reserve _ _ _ _ _ Hc E) as [Hc1 Hp].
  destruct (createAt _ _ _ _ _ _ w1) as [[[e o] w2]|] eqn:E2; [|done]. intros [= <- <- <-].
  eapply (accounted_resolve now (fun _ => false)) in A1; [|cbn [resolve]; rewrite E2; reflexivity].
  apply createAt_inv in E2 as (c & c' & Hpc & _ & _ & Hh & Hm & _).
  pose proof (covered_at _ _ _ _ _ Hc1 Hp Hh Hm) as Hc2.
  destruct (bool_decide (e = OK)); [by split|]. by apply tidy_uncount.
Qed.
Lemma tidy_deregister name w code w' : tidy w -> deRegisterWdtNamespace name w = Some (code, w') -> tidy w'.
Proof.
  intros [A Hc]. unfold deRegisterWdtNamespace. destruct (unmap name w) as [[p|] w1] eqn:E; [|by intros [= <- <-]].
  pose proof (accounted_unmap _ _ _ _ _ A E) as A1. injection E as Hn <-.
  destruct (atController p (ns_releaseAll SENDERS) _) as [[ns w2]|] eqn:E2; [|done].
  destruct (atController p (ns_releaseAll RECEIVERS) w2) as [[nr w3]|] eqn:E3; [|done]. intros [= <- <-].
  eapply (accounted_resolve 0 (fun _ => false)) in A1; [|cbn [resolve]; rewrite E2; reflexivity].
  eapply (accounted_resolve 0 (fun _ => false)) in A1; [|cbn [resolve]; rewrite E3; reflexivity].
  eapply (accounted_resolve 0 (fun _ => false)) in A1; [|reflexivity]. split; [exact A1|].
  apply atController_inv in E2 as (c & c1 & Hc0 & Hf1 & ->). apply atController_inv in E3 as (c1' & c2 & Hc1 & Hf2 & ->).
  simpl in Hc1. rewrite lookup_insert_eq in Hc1. injection Hc1 as <-.
  intros p' c'. simpl. rewrite insert_insert_eq. destruct (decide (p = p')) as [<-|Hne].
  - rewrite lookup_insert_eq. intros [= <-]. right. injection Hf1 as <- <-. injection Hf2 as <- <-. by intros [].
  - rewrite lookup_insert_ne by done. intros Hp'. destruct (Hc _ _ Hp') as [[n Hmap]|]; [|by right].
    left. exists n. rewrite lookup_delete_ne; [done|]. intros <-. by simplify_eq.
Qed.
Lemma tidy_seq w w' : tidy w -> seq_step w w' -> tidy w'.
Proof.
  intros T. destruct 1 as [now role name id req code o w' E|role name id code w' E|role name code w' E|role stale name code ids w' E|name|name code w' E|role mx|role name mx w' E|b].
  - by eapply tidy_create.
  - unfold releaseObject in E. destruct (getNamespaceController name w) as [p|] eqn:En; [|by injection E as <- <-].
    destruct (atController _ _ _) as [[c1 w1]|] eqn:E1; [|done].
    assert (resolve 0 (fun _ => false) (PRelease role p id) w = Some (w1, if bool_decide (c1 = OK) then [to_uncount role 1] else [])) as Er
      by (cbn [resolve]; by rewrite E1).
    eapply tidy_lookup in Er; [|done..]. destruct (bool_decide (c1 = OK)); injection E as <- <-; [by apply tidy_uncount|exact Er].
  - unfold releaseAll in E. destruct (getNamespaceController name w) as [p|] eqn:En; [|by injection E as <- <-].
    destruct (atController _ _ _) as [[n w1]|] eqn:E1; [|done]. injection E as <- <-.
    assert (resolve 0 (fun _ => false) (PReleaseAll role p) w = Some (w1, [to_uncount role n])) as Er by (cbn [resolve]; by rewrite E1).
    eapply tidy_lookup in Er; [|done..]. destruct (Z.ltb_spec 0 n); [by apply tidy_uncount|].
    apply atController_inv in E1 as (c & c' & _ & Hf & _). injection Hf as Hn _.
    assert (n = 0) as -> by lia. apply (uncount_0 role). by apply tidy_uncount.
  - unfold releaseStale in E. destruct (getNamespaceController name w) as [p|] eqn:En; [|by injection E as <- <- <-].
    destruct (atController _ _ _) as [[n w1]|] eqn:E1; [|done]. injection E as <- <- <-.
    assert (resolve 0 stale (PReleaseStale role p) w = Some (w1, [to_uncount role (Zlen n)])) as Er by (cbn [resolve]; by rewrite E1).
    eapply tidy_lookup in Er; [|done..]. destruct (Z.ltb_spec 0 (Zlen n)); [by apply tidy_uncount|].
    assert (Zlen n = 0) as Hz by lia. rewrite Hz in Er. apply (uncount_0 role). by apply tidy_uncount.
  - unfold registerWdtNamespace. destruct (getNamespaceController name w) eqn:En; [done|]. destruct T as [A Hc].
    destruct (createNamespaceController name w) as [p w1] eqn:E1. split; [by eapply accounted_new in E1 as [? _]|by eapply covered_new].
  - by eapply tidy_deregister.
  - destruct T as [A Hc]. split; [exact (accounted_step _ _ A (step_limit _ _ _ _))|]. by eapply covered_eq; [..|exact Hc].
  - unfold updateMaxLimitOf in E. destruct (getNamespaceController name w) as [p|] eqn:En; [|by injection E as <-].
    destruct (atController _ _ _) as [[n w1]|] eqn:E1; [|done]. injection E as <-.
    assert (resolve 0 (fun _ => false) (PLimit role p mx) w = Some (w1, [])) as Er by (cbn [resolve]; by rewrite E1).
    by eapply tidy_lookup in Er.
  - destruct T as [A Hc]. split; [by eapply accounted_eq; [..|exact A]|by eapply covered_eq; [..|exact Hc]].
Qed.

(** When operations do not overlap, the destructor of the controller never
    fails its checks: whatever was created, released and deregistered before,
    shutting down releases every object and leaves both counts at zero. *)
Theorem shutdown_succeeds options throttler w :
  seq_reachable options throttler w ->
  exists w', shutdown w = Some w' /\ forall role, num_ (count role (base w')) = 0 /\ total role (heap w') = 0.
Proof.
  intros Hr. assert (tidy w) as [A Hc].
  { induction Hr as [|w w' _ IH Hs]; [|by eapply tidy_seq]. split; [apply accounted_start|]. intros p c Hp. done. }
  by apply shutdown_lemma.
Qed.

(** ** Creating and finding *)

Lemma getObject_at w w' l role' name name' id p c' :
  accounted (w, l) -> namespaceMap_ w !! name = Some p ->
  heap w' = <[p := c']> (heap w) -> namespaceMap_ w' = namespaceMap_ w ->
  getObject role' name' id w' = if decide (name = name') then objects role' c' !! id else getObject role' name' id w.
Proof.
  intros A Hn Hh Hm. unfold getObject, find, getNamespaceController. rewrite Hh, Hm.
  case_decide as E; [subst; rewrite Hn, lookup_insert_eq; done|].
  destruct (namespaceMap_ w !! name') as [p'|] eqn:E'; [|done]. rewrite lookup_insert_ne; [done|].
  intros ->. by destruct E; eapply (acc_injective _ A).
Qed.
Lemma reserve_getObject w role name r w' role' name' id :
  accounted (w, []) -> reserve role name w = (r, w') -> getObject role' name' id w' = getObject role' name' id w.
Proof.
  intros A. unfold reserve. destruct (getNamespaceController name w) as [p|] eqn:E; [by destruct (negb _); intros [= <- <-]|].
  destruct (strictRegistration_ w); [by intros [= <- <-]|].
  assert (getObject role' name' id (createNamespaceController name w).2 = getObject role' name' id w) as Hn.
  { unfold getObject, find, getNamespaceController in *. simpl. destruct (decide (name = name')) as [<-|Hne].
    - rewrite E, !lookup_insert_eq. by destruct role'.
    - rewrite lookup_insert_ne by done. destruct (namespaceMap_ w !! name') as [p'|] eqn:E'; [|done]. rewrite lookup_insert_ne; [done|].
      intros <-. pose proof (acc_mapped _ A _ _ E') as Hp. apply (acc_fresh _ A) in Hp. simpl in Hp. lia. }
  simpl. destruct (negb _); intros [= <- <-]; exact Hn.
Qed.

Lemma reserve_err w role name e w' :
  reserve role name w = (inl e, w') -> e <> OK /\ e <> ALREADY_EXISTS /\ base w' = base w.
Proof.
  unfold reserve. destruct (getNamespaceController name w); [|destruct (strictRegistration_ w); simpl];
    try destruct (negb _); intros [= <- <-]; done.
Qed.
Lemma reserve_ok w role name p w' :
  reserve role name w = (inr p, w') ->
  nextObject w' = nextObject w /\ namespaceMap_ w' !! name = Some p
  /\ forall role', num_ (count role' (base w')) = num_ (count role' (base w)) + if decide (role = role') then 1 else 0.
Proof.
  unfold reserve. destruct (getNamespaceController name w) as [p0|] eqn:En; [|destruct (strictRegistration_ w); [done|]; simpl];
    destruct (negb _); intros [= <- <-]; (split_and!; [done| |intros role'; apply count_add]); [done|apply lookup_insert_eq].
Qed.

(** Creating an object always returns.  With [OK] the object is new, and it
    is what the identifier finds afterwards; with [ALREADY_EXISTS] it is the one
    that was there; an error leaves both counts as they were; and nothing else
    that can be found changes. *)
Theorem create_and_find now role name identifier request w :
  accounted (w, []) ->
  exists code object w', createObject rnd now role name identifier request w = Some (code, object, w')
  /\ (code = OK -> getObject role name identifier w = None /\ object = Some (mkObject (nextObject w) request)
                  /\ getObject role name identifier w' = object)
  /\ (code = ALREADY_EXISTS -> object = getObject role name identifier w /\ is_Some object)
  /\ (code <> OK -> forall role', num_ (count role' (base w')) = num_ (count role' (base w)))
  /\ (forall role' name' id', (role', name', id') <> (role, name, identifier) \/ code <> OK ->
       getObject role' name' id' w' = getObject role' name' id' w).
Proof.
  intros A. unfold createObject. destruct (reserve role name w) as [[e|p] w1] eqn:E.
  { destruct (reserve_err _ _ _ _ _ E) as (He & He' & Hb).
    eexists _, _, _. split; [reflexivity|]. split_and!; [done..|by rewrite Hb|]. intros role' name' id' _. by eapply reserve_getObject. }
  destruct (reserve_ok _ _ _ _ _ E) as (Ho & Hn & Hb).
  pose proof (accounted_reserve _ _ _ _ _ _ A E identifier request) as A1.
  pose proof (acc_mapped _ A1 _ _ Hn) as [c Hc]. simpl in Hc.
  unfold createAt, atController. simpl. rewrite Hc, Ho. destruct (ns_create role (nextObject w) request identifier c) as [[e o] c'] eqn:Ec.
  eexists _, _, _. split; [reflexivity|].
  set (w2 := if bool_decide (e = OK) then _ else _).
  assert (heap w2 = <[p := c']> (heap w1) /\ namespaceMap_ w2 = namespaceMap_ w1) as [Hh Hm] by (unfold w2; by destruct (bool_decide _)).
  assert (forall role' name' id', getObject role' name' id' w2
    = if decide (name = name') then objects role' c' !! id' else getObject role' name' id' w) as Hget.
  { intros role' name' id'. rewrite <- (reserve_getObject w role name _ w1 role' name' id' A E).
    by eapply getObject_at. }
  assert (forall role' id', getObject role' name id' w = objects role' c !! id') as Hold.
  { intros role' id'. rewrite <- (reserve_getObject w role name _ w1 role' name id' A E).
    unfold getObject, find, getNamespaceController. by rewrite Hn, Hc. }
  revert Ec. unfold ns_create. destruct (objects role c !! identifier) as [o0|] eqn:Eo.
  - intros [= <- <- <-]. split_and!; [done|intros _; by rewrite Hold, Eo| |].
    + intros _ role'. simpl. rewrite count_add, Hb. case_decide; lia.
    + intros role' name' id' _. rewrite Hget. case_decide; [by subst; rewrite Hold|done].
  - destruct (negb _); intros [= <- <- <-].
    + split_and!; [done..| |].
      * intros _ role'. simpl. rewrite count_add, Hb. case_decide; lia.
      * intros role' name' id' _. rewrite Hget. case_decide; [by subst; rewrite Hold|done].
    + split_and!; [|done..|].
      * intros _. rewrite Hold, Hget, decide_True, objects_base, objects_set, decide_True by done.
        by rewrite lookup_insert_eq.
      * intros role' name' id' [Hne|]; [|done]. rewrite Hget. case_decide as Ed; [|done]. subst name'.
        rewrite objects_base, objects_set, Hold. case_decide as Er; [|done]. subst role'.
        rewrite lookup_insert_ne; [done|]. by intros ->.
Qed.
End system.

(** ** The resource controller by example: the witnesses of
    [ResourceControllerProps], and what happens when removing a name space
    overlaps with the creation of a sender in it. *)
Definition ex_options : ControllerOptions :=
  mkControllerOptions (fun _ => 3) (fun r => match r with SENDERS => 2 | RECEIVERS => 1 end) 0 0 0 0 1.
Definition ex_controller : WdtResourceController := WdtResourceController_make ex_options (ex_throttler 0 0 0).
Definition ex_req : WdtTransferRequest := WdtTransferRequest_default.

(** The operations of one thread, and a trace of their codes. *)
Definition ex_create (role : Role) (name identifier : string) (x : list ErrorCode * WdtResourceController)
    : list ErrorCode * WdtResourceController :=
  match createObject exact 0 role name identifier ex_req x.2 with
  | Some (code, _, w) => (x.1 ++ [code], w)
  | None => (x.1 ++ [ERROR], x.2)
  end.
Definition ex_two : list ErrorCode * WdtResourceController :=
  ex_create RECEIVERS "b" "y" (ex_create RECEIVERS "b" "x" (ex_create SENDERS "a" "3" (ex_create SENDERS "a" "2"
    (ex_create SENDERS "a" "1" (ex_create SENDERS "a" "1" ([], ex_controller)))))).
Example ex_codes : ex_two.1 = [OK; ALREADY_EXISTS; OK; QUOTA_EXCEEDED; OK; QUOTA_EXCEEDED] /\ getCounts ex_two.2 = (2, 2, 1).
Proof. by vm_compute. Qed.

Lemma ex_create_seq role name identifier codes w :
  seq_reachable exact ex_options (ex_throttler 0 0 0) w ->
  seq_reachable exact ex_options (ex_throttler 0 0 0) (ex_create role name identifier (codes, w)).2.
Proof.
  intros Hw. unfold ex_create. simpl. destruct (createObject _ _ _ _ _ _ w) as [[[code o] w']|] eqn:E; [|done].
  eapply seq_next; [exact Hw|]. by eapply seq_create.
Qed.
Lemma ex_two_reachable : seq_reachable exact ex_options (ex_throttler 0 0 0) ex_two.2.
Proof.
  unfold ex_two. do 6 (match goal with |- context [ex_create ?r ?n ?i ?x] => rewrite (surjective_pairing x); apply ex_create_seq end).
  apply seq_start.
Qed.
Lemma shutdown_succeeds_witness :
  seq_reachable exact ex_options (ex_throttler 0 0 0) ex_two.2
  /\ exists w', shutdown ex_two.2 = Some w' /\ forall role, num_ (count role (base w')) = 0 /\ total role (heap w') = 0.
Proof. split; [apply ex_two_reachable|]. exact (shutdown_succeeds exact _ _ _ ex_two_reachable). Defined.

Lemma create_and_find_witness :
  accounted (ex_controller, []) /\ exists code object w', createObject exact 0 SENDERS "a" "1" ex_req ex_controller = Some (code, object, w')
    /\ (code = OK -> getObject SENDERS "a" "1" w' = object).
Proof.
  split; [apply accounted_start|].
  destruct (create_and_find exact 0 SENDERS "a" "1" ex_req ex_controller (accounted_start _ _)) as (code & o & w' & E & Hok & _).
  exists code, o, w'. split; [exact E|]. intros Hc. by apply Hok.
Defined.

(** ** A creation that overlaps with the removal of its name space *)

Definition ex_registered : WdtResourceController := registerWdtNamespace "a" ex_controller.
Definition ex_reserved : WdtResourceController := (reserve SENDERS "a" ex_registered).2.
Definition ex_unmapped : WdtResourceController := (unmap "a" ex_reserved).2.
Definition ex_after (q : Pending) (w : WdtResourceController) : WdtResourceController :=
  default w (option_map fst (resolve exact 0 (fun _ => false) q w)).
Definition ex_removed : WdtResourceController :=
  ex_after (PUncount 0 0) (ex_after (PDeregisterReceivers 0 0) (ex_after (PDeregister 0) ex_unmapped)).
Definition ex_race : WdtResourceController := ex_after (PCreate SENDERS 0 "1" ex_req) ex_removed.

Lemma ex_reserved_reachable :
  reachable exact ex_options (ex_throttler 0 0 0) (ex_registered, [])
  /\ step exact (ex_registered, []) (ex_reserved, [PCreate SENDERS 0 "1" ex_req]).
Proof.
  split; [eapply reachable_step; [apply reachable_start|apply (step_register exact _ _ "a")]|].
  eapply (step_reserve exact _ _ SENDERS "a" "1" ex_req 0). by vm_compute.
Qed.
Lemma ex_race_reachable : reachable exact ex_options (ex_throttler 0 0 0) (ex_race, []).
Proof.
  destruct ex_reserved_reachable as [H1 H2]. pose proof (reachable_step _ _ _ _ _ H1 H2) as H3.
  assert (forall q w qs, resolve exact 0 (fun _ => false) q w = Some (ex_after q w, qs) ->
    forall l2, step exact (w, [] ++ q :: l2) (ex_after q w, [] ++ qs ++ l2)) as Hres by (intros; by eapply step_resolve).
  eapply (reachable_step _ _ _ _ (ex_unmapped, [PDeregister 0; PCreate SENDERS 0 "1" ex_req])) in H3;
    [|apply (step_unmap exact _ _ "a"); by vm_compute].
  eapply reachable_step in H3; [|apply (Hres (PDeregister 0) _ [PDeregisterReceivers 0 0]); by vm_compute].
  eapply reachable_step in H3; [|apply (Hres (PDeregisterReceivers 0 0) _ [PUncount 0 0]); by vm_compute].
  eapply reachable_step in H3; [|apply (Hres (PUncount 0 0) _ []); by vm_compute].
  eapply reachable_step in H3; [|apply (Hres (PCreate SENDERS 0 "1" ex_req) _ []); by vm_compute]. exact H3.
Qed.

Lemma quota_respected_witness :
  reachable exact ex_options (ex_throttler 0 0 0) (ex_registered, [])
  /\ fits (count SENDERS (base ex_registered)) (count SENDERS (base ex_reserved)).
Proof.
  destruct ex_reserved_reachable as [H1 H2]. split; [exact H1|]. apply (quota_respected exact _ _ _ _ _ _ H1 H2).
Defined.

(** A sender whose creation overlaps with the removal of its name space is
    put into the controller that has just been emptied: it can no longer be
    found or released, its place in the global count is never given back, and
    the destructor of the resource controller aborts. *)
Theorem overlapping_removal_leaks :
  exists w, reachable exact ex_options (ex_throttler 0 0 0) (w, [])
    /\ num_ (count SENDERS (base w)) = 1 /\ namespaceMap_ w = ∅
    /\ getObject SENDERS "a" "1" w = None /\ shutdown w = None.
Proof. exists ex_race. split; [apply ex_race_reachable|]. by vm_compute. Qed.
