(* ===== verification/Encryption.v ===== *)
(** Encryption of a stream: [AESEncryptor] and [AESDecryptor] of
    [util/EncryptionUtils.cpp].

    The calls into OpenSSL are the class [Openssl]; its laws say what the manual
    says of a cipher in CTR and GCM mode: encryption of a stream does not depend
    on how it is cut into updates, decryption with the same key and vector
    undoes it, and a tag is accepted when it is that of the stream. *)
From S2P Require Import Prelude ErrorCodes Protocol Uri.

(** [EVP_*] on a context; [None] is a status other than 1.  [EVP_EncryptFinal] and
    [EVP_DecryptFinal] also give the length they report. *)
Class Openssl (Ctx : Type) := {
  EVP_EncryptInit : EncryptionType -> list Z -> list Z -> option Ctx;
  EVP_DecryptInit : EncryptionType -> list Z -> list Z -> option Ctx;
  EVP_EncryptUpdate : list Z -> Ctx -> option (list Z * Ctx);
  EVP_DecryptUpdate : list Z -> Ctx -> option (list Z * Ctx);
  EVP_EncryptFinal : Ctx -> option (Z * Ctx);
  EVP_DecryptFinal : Ctx -> option (Z * Ctx);
  EVP_get_tag : Ctx -> option (list Z);
  EVP_set_tag : list Z -> Ctx -> Ctx;
  EVP_copy : Ctx -> option Ctx
}.

(** ** Laws

    [cipher t key iv seen bs] is the encryption of [bs] in a stream that has
    encrypted [seen] before, [tag_of] the tag of a stream. *)
Class OpensslLaws (Ctx : Type) `{Openssl Ctx} := {
  cipher : EncryptionType -> list Z -> list Z -> list Z -> list Z -> list Z;
  tag_of : EncryptionType -> list Z -> list Z -> list Z -> list Z;
  encrypting : Ctx -> EncryptionType -> list Z -> list Z -> list Z -> Prop;
  decrypting : Ctx -> EncryptionType -> list Z -> list Z -> list Z -> Prop;
  cipher_app t key iv seen a b : cipher t key iv seen (a ++ b) = cipher t key iv seen a ++ cipher t key iv (seen ++ a) b;
  cipher_length t key iv seen a : length (cipher t key iv seen a) = length a;
  tag_length key iv seen : length (tag_of ENC_AES128_GCM key iv seen) = Z.to_nat kAESBlockSize;
  EncryptInit_spec t key iv c : EVP_EncryptInit t key iv = Some c -> encrypting c t key iv [];
  DecryptInit_spec t key iv c : EVP_DecryptInit t key iv = Some c -> decrypting c t key iv [];
  EncryptUpdate_spec c t key iv seen bs out c' :
    encrypting c t key iv seen -> EVP_EncryptUpdate bs c = Some (out, c') ->
    out = cipher t key iv seen bs /\ encrypting c' t key iv (seen ++ bs);
  DecryptUpdate_spec c t key iv seen bs out c' :
    decrypting c t key iv seen -> EVP_DecryptUpdate (cipher t key iv seen bs) c = Some (out, c') ->
    out = bs /\ decrypting c' t key iv (seen ++ bs);
  DecryptUpdate_length c t key iv seen bs out c' :
    decrypting c t key iv seen -> EVP_DecryptUpdate bs c = Some (out, c') -> length out = length bs;
  EncryptFinal_spec c t key iv seen n c' : encrypting c t key iv seen -> EVP_EncryptFinal c = Some (n, c') ->
    n = 0 /\ forall tag, EVP_get_tag c' = Some tag -> tag = tag_of t key iv seen;
  set_tag_spec c t key iv seen tag : decrypting c t key iv seen -> decrypting (EVP_set_tag tag c) t key iv seen;
  DecryptFinal_length c t key iv seen n c' : decrypting c t key iv seen -> EVP_DecryptFinal c = Some (n, c') -> n = 0;
  copy_spec c c' : EVP_copy c = Some c' -> c' = c
}.

(** ** Types and keys *)

Definition kEncryptionTypeDescriptions : list (list Z) := [txt "none"; txt "aes128ctr"; txt "aes128gcm"].
Definition encryptionTypeToStr (t : EncryptionType) : list Z :=
  default [] (kEncryptionTypeDescriptions !! Z.to_nat (EncryptionType_value t)).
Definition parseEncryptionType (str : list Z) : EncryptionType :=
  if bool_decide (str = encryptionTypeToStr ENC_AES128_GCM) then ENC_AES128_GCM
  else if bool_decide (str = encryptionTypeToStr ENC_AES128_CTR) then ENC_AES128_CTR
  else ENC_NONE.
(** [random] is the result of [RAND_bytes]. *)
Definition generateEncryptionParams (type : EncryptionType) (random : option (list Z)) : EncryptionParams :=
  if bool_decide (type = ENC_NONE) then EncryptionParams_none
  else from_option (mkEncryptionParams type) EncryptionParams_none random.

Section aes.
Context `{Openssl Ctx}.

(** ** [AESBase]; the type is part of both classes *)

Record AESBase := mkAESBase {
  type_ : EncryptionType;
  evpCtx_ : option Ctx;
  started_ : bool;
  numProcessed_ : Z
}.
#[global] Instance AESBase_settable : Settable AESBase := fun a =>
  mkAESBase (type_ a) (evpCtx_ a) (started_ a) (numProcessed_ a).
Definition AESBase_new : AESBase := mkAESBase ENC_NONE None false 0.
Definition cloneCtx (a : AESBase) : option (option Ctx) :=
  check negb (encryptionTypeToTagLen (type_ a) =? 0) ;;
  let* ctx := evpCtx_ a in
  Some (EVP_copy ctx).
(** [getCipher] knows the two types. *)
Definition getCipher (t : EncryptionType) : bool := negb (bool_decide (t = ENC_NONE)).

(** ** [AESEncryptor] *)

(** [random] is what [RAND_bytes] gives, [None] if it fails; the result has the
    vector that is stored in [ivOut]. *)
Definition encryptor_start (encryptionData : EncryptionParams) (random : option (list Z)) (a : AESBase)
    : option (bool * list Z * AESBase) :=
  check negb (started_ a) ;;
  let a := a <| evpCtx_ := None |> <| type_ := ep_type encryptionData |> in
  let key := ep_data encryptionData in
  if negb (Zlen key =? kAESBlockSize) then Some (false, [], a)
  else
    match random with
    | None => Some (false, replicate (Z.to_nat kAESBlockSize) 0, a)
    | Some iv =>
        if negb (getCipher (type_ a)) then Some (false, iv, a)
        else
          match EVP_EncryptInit (type_ a) key iv with
          | None => Some (false, iv, a)
          | Some ctx => Some (true, iv, a <| evpCtx_ := Some ctx |> <| started_ := true |>)
          end
    end.
(** The result and what is stored in [out]. *)
Definition encrypt (bs : list Z) (a : AESBase) : option (bool * list Z * AESBase) :=
  check started_ a ;;
  let* ctx := evpCtx_ a in
  match EVP_EncryptUpdate bs ctx with
  | None => Some (false, [], a)
  | Some (out, ctx) =>
      check Zlen bs =? Zlen out ;;
      Some (true, out, a <| evpCtx_ := Some ctx |> <| numProcessed_ := numProcessed_ a + Zlen bs |>)
  end.
(** The result and [tagOut]. *)
Definition encryptor_finishInternal (ctx : Ctx) (type : EncryptionType) : option (bool * list Z) :=
  match EVP_EncryptFinal ctx with
  | None => Some (false, [])
  | Some (outLength, ctx) =>
      check outLength =? 0 ;;
      Some (true, if encryptionTypeToTagLen type =? 0 then [] else default [] (EVP_get_tag ctx))
  end.
Definition encryptor_finish (a : AESBase) : option (bool * list Z * AESBase) :=
  if negb (started_ a) then Some (true, [], a)
  else
    let* ctx := evpCtx_ a in
    let* (ok, tag) := encryptor_finishInternal ctx (type_ a) in
    Some (ok, tag, a <| started_ := false |>).
Definition computeCurrentTag (a : AESBase) : option (list Z) :=
  let* cloned := cloneCtx a in
  match cloned with
  | None => Some []
  | Some ctx => let* (_, tag) := encryptor_finishInternal ctx (type_ a) in Some tag
  end.

(** ** [AESDecryptor] *)

Definition decryptor_start (encryptionData : EncryptionParams) (iv : list Z) (a : AESBase) : option (bool * AESBase) :=
  check negb (started_ a) ;;
  let a := a <| evpCtx_ := None |> <| type_ := ep_type encryptionData |> in
  let key := ep_data encryptionData in
  if negb (Zlen key =? kAESBlockSize) then Some (false, a)
  else if negb (Zlen iv =? kAESBlockSize) then Some (false, a)
  else if negb (getCipher (type_ a)) then Some (false, a)
  else
    match EVP_DecryptInit (type_ a) key iv with
    | None => Some (false, a)
    | Some ctx => Some (true, a <| evpCtx_ := Some ctx |> <| started_ := true |>)
    end.
Definition decrypt (bs : list Z) (a : AESBase) : option (bool * list Z * AESBase) :=
  check started_ a ;;
  let* ctx := evpCtx_ a in
  match EVP_DecryptUpdate bs ctx with
  | None => Some (false, [], a)
  | Some (out, ctx) =>
      check Zlen bs =? Zlen out ;;
      Some (true, out, a <| evpCtx_ := Some ctx |> <| numProcessed_ := numProcessed_ a + Zlen bs |>)
  end.
Definition decryptor_finishInternal (ctx : Ctx) (type : EncryptionType) (tag : list Z) : option bool :=
  let tagSize := encryptionTypeToTagLen type in
  if negb (tagSize =? 0) && negb (Zlen tag =? tagSize) then Some false
  else
    let ctx := if tagSize =? 0 then ctx else EVP_set_tag tag ctx in
    match EVP_DecryptFinal ctx with
    | None => Some false
    | Some (outLength, _) => check outLength =? 0 ;; Some true
    end.
Definition verifyTag (tag : list Z) (a : AESBase) : option bool :=
  check bool_decide (type_ a = ENC_AES128_GCM) ;;
  let* cloned := cloneCtx a in
  match cloned with
  | None => Some false
  | Some ctx => decryptor_finishInternal ctx (type_ a) tag
  end.
Definition decryptor_finish (tag : list Z) (a : AESBase) : option (bool * AESBase) :=
  if negb (started_ a) then Some (true, a)
  else
    let* ctx := evpCtx_ a in
    let* ok := decryptor_finishInternal ctx (type_ a) tag in
    Some (ok, a <| started_ := false |>).
End aes.
Arguments AESBase : clear implicits.

(** A type is read back from its description. *)
Lemma parse_description t : parseEncryptionType (encryptionTypeToStr t) = t.
Proof. by destruct t. Qed.
(** A generated key can be used to start encryption. *)
Lemma generated_key_starts `{OpensslLaws Ctx} t key random :
  Zlen key = kAESBlockSize -> t <> ENC_NONE -> is_Some random ->
  exists iv, random = Some iv /\ encryptor_start (generateEncryptionParams t (Some key)) random (@AESBase_new Ctx)
    = match EVP_EncryptInit t key iv with
      | Some c => Some (true, iv, mkAESBase t (Some c) true 0)
      | None => Some (false, iv, mkAESBase t None false 0)
      end.
Proof.
  intros Hl Ht [iv ->]. exists iv. split; [done|]. unfold generateEncryptionParams. rewrite bool_decide_eq_false_2 by done.
  unfold encryptor_start. simpl. rewrite Hl. simpl. unfold getCipher. rewrite bool_decide_eq_false_2 by done. simpl. by case_match.
Qed.

(** ** A stream that is encrypted or decrypted *)

Section props.
Context `{OpensslLaws Ctx}.

Definition encrypts (a : AESBase Ctx) (t : EncryptionType) (key iv seen : list Z) : Prop :=
  started_ a = true /\ type_ a = t /\ numProcessed_ a = Zlen seen /\ exists c, evpCtx_ a = Some c /\ encrypting c t key iv seen.
Definition decrypts (a : AESBase Ctx) (t : EncryptionType) (key iv seen : list Z) : Prop :=
  started_ a = true /\ type_ a = t /\ numProcessed_ a = Zlen seen /\ exists c, evpCtx_ a = Some c /\ decrypting c t key iv seen.

Lemma encryptor_start_spec p random ok iv a' :
  encryptor_start p random AESBase_new = Some (ok, iv, a') -> ok = true ->
  random = Some iv /\ encrypts a' (ep_type p) (ep_data p) iv [] /\ Zlen (ep_data p) = kAESBlockSize /\ ep_type p <> ENC_NONE.
Proof.
  unfold encryptor_start. simpl. intros E ->. repeat (case_hyp E; simplify_eq). bool_to_prop.
  split_and!; try done. split_and!; try done. simpl. eexists. split; [done|]. by eapply EncryptInit_spec.
  unfold getCipher in *. bool_to_prop. done.
Qed.
Lemma encryptor_start_total p random : is_Some (encryptor_start p random (@AESBase_new Ctx)).
Proof. unfold encryptor_start. simpl. repeat case_goal; eauto. Qed.
Lemma decryptor_start_spec p iv ok a' :
  decryptor_start p iv AESBase_new = Some (ok, a') -> ok = true -> decrypts a' (ep_type p) (ep_data p) iv [].
Proof.
  unfold decryptor_start. simpl. intros E ->. repeat (case_hyp E; simplify_eq). split_and!; try done.
  simpl. eexists. split; [done|]. by eapply DecryptInit_spec.
Qed.
Lemma encrypt_spec a t key iv seen bs :
  encrypts a t key iv seen ->
  exists ok out a', encrypt bs a = Some (ok, out, a')
    /\ (ok = true -> out = cipher t key iv seen bs /\ encrypts a' t key iv (seen ++ bs)).
Proof.
  intros (Hs & Ht & Hn & c & Hc & He). unfold encrypt. rewrite Hs, Hc.
  destruct (EVP_EncryptUpdate bs c) as [[out c']|] eqn:E; [|by eexists _, _, _].
  destruct (EncryptUpdate_spec _ _ _ _ _ _ _ _ He E) as [-> He']. rewrite cipher_length, Z.eqb_refl.
  eexists _, _, _. split; [reflexivity|]. intros _. split; [done|]. split_and!; [done..|simpl; rewrite Hn, Zlen_app; lia|eauto].
Qed.
Lemma decrypt_spec a t key iv seen bs :
  decrypts a t key iv seen ->
  exists ok out a', decrypt (cipher t key iv seen bs) a = Some (ok, out, a')
    /\ (ok = true -> out = bs /\ decrypts a' t key iv (seen ++ bs)).
Proof.
  intros (Hs & Ht & Hn & c & Hc & He). unfold decrypt. rewrite Hs, Hc.
  destruct (EVP_DecryptUpdate _ c) as [[out c']|] eqn:E; [|by eexists _, _, _].
  pose proof (DecryptUpdate_length _ _ _ _ _ _ _ _ He E) as Hl.
  destruct (DecryptUpdate_spec _ _ _ _ _ _ _ _ He E) as [-> He']. rewrite Hl, Z.eqb_refl. rewrite cipher_length in Hl.
  eexists _, _, _. split; [reflexivity|]. intros _. split; [done|]. split_and!; [done..| |eauto].
  simpl. rewrite Hn, Zlen_app, cipher_length. lia.
Qed.
Lemma computeCurrentTag_spec a key iv seen :
  encrypts a ENC_AES128_GCM key iv seen ->
  exists tag, computeCurrentTag a = Some tag /\ (tag <> [] -> tag = tag_of ENC_AES128_GCM key iv seen).
Proof.
  intros (Hs & Ht & Hn & c & Hc & He). unfold computeCurrentTag, cloneCtx. rewrite Ht, Hc. simpl.
  destruct (EVP_copy c) as [c1|] eqn:E; [|by eexists]. apply copy_spec in E as ->. unfold encryptor_finishInternal.
  destruct (EVP_EncryptFinal c) as [[n c']|] eqn:E; [|by eexists].
  destruct (EncryptFinal_spec _ _ _ _ _ _ _ He E) as [-> Htag]. simpl. eexists. split; [reflexivity|].
  destruct (EVP_get_tag c') eqn:Eg; simpl; [|done]. intros _. by apply Htag.
Qed.
Lemma decryptor_finishInternal_total c t key iv seen tag :
  decrypting c t key iv seen -> is_Some (decryptor_finishInternal c t tag).
Proof.
  intros He. unfold decryptor_finishInternal. destruct (_ && _); [eauto|]. cbv zeta.
  set (c' := if encryptionTypeToTagLen t =? 0 then c else EVP_set_tag tag c).
  assert (decrypting c' t key iv seen) as He' by (unfold c'; case_match; [done|by apply set_tag_spec]).
  destruct (EVP_DecryptFinal c') as [[n c'']|] eqn:E; [|eauto]. apply (DecryptFinal_length _ _ _ _ _ _ _ He') in E as ->. eauto.
Qed.
Lemma verifyTag_total a key iv seen tag :
  decrypts a ENC_AES128_GCM key iv seen -> is_Some (verifyTag tag a).
Proof.
  intros (Hs & Ht & Hn & c & Hc & He). unfold verifyTag, cloneCtx. rewrite Ht, Hc. simpl.
  destruct (EVP_copy c) as [c1|] eqn:E; [|by eexists]. apply copy_spec in E as ->. by eapply decryptor_finishInternal_total.
Qed.
Lemma decryptor_start_total p iv : is_Some (decryptor_start p iv (@AESBase_new Ctx)).
Proof. unfold decryptor_start. simpl. repeat case_goal; eauto. Qed.
Lemma decryptor_finish_total a t key iv seen tag : decrypts a t key iv seen -> is_Some (decryptor_finish tag a).
Proof.
  intros (Hs & Ht & Hn & c & Hc & He). unfold decryptor_finish. rewrite Hs, Hc, Ht. simpl.
  destruct (decryptor_finishInternal_total c t key iv seen tag He) as [ok ->]. simpl. eauto.
Qed.
Lemma encryptor_finish_total a t key iv seen : encrypts a t key iv seen -> is_Some (encryptor_finish a).
Proof.
  intros (Hs & Ht & Hn & c & Hc & He). unfold encryptor_finish, encryptor_finishInternal. rewrite Hs, Hc, Ht. simpl.
  destruct (EVP_EncryptFinal c) as [[n c']|] eqn:E; [|simpl; eauto]. destruct (EncryptFinal_spec _ _ _ _ _ _ _ He E) as [-> _]. simpl. eauto.
Qed.
End props.
