(* ===== verification/WdtSocket.v ===== *)
(** The sockets of the threads: [WdtSocket] of [util/WdtSocket.cpp].

    A socket turns the plain text of the protocol into what goes over the
    connection: with encryption, the settings first, then the encrypted bytes
    with a tag after every interval and now and then a new initialization
    vector.  The system calls are the class [SocketOs].  A buffer that is read into
    is the list of the bytes stored; encryption in place of the caller's buffer
    is not visible, since no caller uses what it has written again. *)
From S2P Require Import Prelude Serialization ErrorCodes Protocol Uri Socket Encryption StateMonad.

(** [::read] and [::write] with the bytes, and [errno] after a failure;
    [RAND_bytes]; the abort checker; the clock in milliseconds; the callback on a
    verified tag; [::shutdown] and [::close], which say whether they failed. *)
Class SocketOs (W : Type) := {
  sys_read : Z -> W -> Z * list Z * Z * W;
  sys_write : list Z -> W -> Z * Z * W;
  RAND_bytes : W -> option (list Z) * W;
  shouldAbort : W -> bool * W;
  clockMillis : W -> Z * W;
  tagVerified : W -> W;
  sys_shutdown : W -> bool * W;
  sys_close : W -> bool * W;
  (** A bound on how often a call will still have to be tried again. *)
  patience : W -> nat
}.
Definition EINTR : Z := 4.
Definition EAGAIN : Z := 11.

Record SocketOptions := mkSocketOptions {
  read_timeout_millis : Z;
  write_timeout_millis : Z;
  abort_check_interval_millis : Z;
  encryption_tag_interval_bytes : Z;
  has_callback : bool
}.

Record WdtSocket (Ctx W : Type) := mkWdtSocket {
  port_ : Z;
  fd_ : Z;
  encryptionParams_ : EncryptionParams;
  ivChangeInterval_ : Z;
  encryptionSettingsWritten_ : bool;
  encryptionSettingsRead_ : bool;
  encryptor_ : AESBase Ctx;
  decryptor_ : AESBase Ctx;
  buf_ : list Z;
  readTagInterval_ : Z;
  writeTagInterval_ : Z;
  totalRead_ : Z;
  totalWritten_ : Z;
  supportUnencryptedPeer_ : bool;
  readErrorCode_ : ErrorCode;
  writeErrorCode_ : ErrorCode;
  writesFinalized_ : bool;
  readsFinalized_ : bool;
  errno : Z;
  os : W
}.
Arguments mkWdtSocket {Ctx W}.
Arguments port_ {Ctx W}. Arguments fd_ {Ctx W}. Arguments encryptionParams_ {Ctx W}. Arguments ivChangeInterval_ {Ctx W}.
Arguments encryptionSettingsWritten_ {Ctx W}. Arguments encryptionSettingsRead_ {Ctx W}. Arguments encryptor_ {Ctx W}.
Arguments decryptor_ {Ctx W}. Arguments buf_ {Ctx W}. Arguments readTagInterval_ {Ctx W}. Arguments writeTagInterval_ {Ctx W}.
Arguments totalRead_ {Ctx W}. Arguments totalWritten_ {Ctx W}. Arguments supportUnencryptedPeer_ {Ctx W}.
Arguments readErrorCode_ {Ctx W}. Arguments writeErrorCode_ {Ctx W}. Arguments writesFinalized_ {Ctx W}.
Arguments readsFinalized_ {Ctx W}. Arguments errno {Ctx W}. Arguments os {Ctx W}.
#[global] Instance WdtSocket_settable {Ctx W} : Settable (WdtSocket Ctx W) := fun s =>
  mkWdtSocket (port_ s) (fd_ s) (encryptionParams_ s) (ivChangeInterval_ s) (encryptionSettingsWritten_ s)
    (encryptionSettingsRead_ s) (encryptor_ s) (decryptor_ s) (buf_ s) (readTagInterval_ s) (writeTagInterval_ s)
    (totalRead_ s) (totalWritten_ s) (supportUnencryptedPeer_ s) (readErrorCode_ s) (writeErrorCode_ s)
    (writesFinalized_ s) (readsFinalized_ s) (errno s) (os s).

Section socket.
Context `{Host} {Ctx W : Type} `{Openssl Ctx} `{SocketOs W} (o : SocketOptions).
Abbreviation S := (WdtSocket Ctx W).
Abbreviation T := (M S).

Definition onOs {A} (f : W -> A * W) : T A := fun s => let '(a, w) := f (os s) in Some (a, s <| os := w |>).
Definition setReadError (e : ErrorCode) : T unit := modify (fun s => s <| readErrorCode_ := e |>).
Definition setWriteError (e : ErrorCode) : T unit := modify (fun s => s <| writeErrorCode_ := e |>).
(** An operation of the encryptor or the decryptor. *)
Definition onEncryptor {A} (f : AESBase Ctx -> option (A * AESBase Ctx)) : T A := fun s =>
  let* (a, e) := f (encryptor_ s) in Some (a, s <| encryptor_ := e |>).
Definition onDecryptor {A} (f : AESBase Ctx -> option (A * AESBase Ctx)) : T A := fun s =>
  let* (a, e) := f (decryptor_ s) in Some (a, s <| decryptor_ := e |>).
Definition resetEncryptor : T unit := modify (fun s => s <| encryptor_ := AESBase_new |>).
Definition resetDecryptor : T unit := modify (fun s => s <| decryptor_ := AESBase_new |>).

(** ** Input and output *)

(** [io] is one call on what is left: its result, what was read, [errno]. *)
Fixpoint io_loop (rounds : nat) (io : Z -> W -> Z * list Z * Z * W) (startTime numBytes timeoutMs : Z) (tryFull : bool)
    (doneBytes : Z) (data : list Z) : T (Z * list Z) :=
  if negb (doneBytes <? numBytes) then mret (doneBytes, data)
  else
    match rounds with
    | O => abort
    | Datatypes.S rounds =>
        r ← onOs (fun w => let '(ret, bs, e, w) := io doneBytes w in ((ret, bs, e), w));
        let '(ret, bs, e) := r in
        _ ← modify (fun s => if ret <? 0 then s <| errno := e |> else s);
        let doneBytes' := if 0 <? ret then doneBytes + ret else doneBytes in
        let data' := if 0 <? ret then data ++ bs else data in
        if (ret <? 0) && negb (e =? EINTR) && negb (e =? EAGAIN) then
          mret (if 0 <? doneBytes then (doneBytes, data) else (ret, []))
        else if ret =? 0 then mret (doneBytes, data)
        else if (0 <? ret) && negb tryFull then mret (doneBytes', data')
        else
          aborted ← (if 0 <? abort_check_interval_millis o then onOs shouldAbort else mret false);
          if (aborted : bool) then mret (if 0 <? doneBytes' then (doneBytes', data') else (-1, []))
          else
            late ← (if 0 <? timeoutMs then now ← onOs clockMillis; mret (timeoutMs <=? now - startTime) else mret false);
            if (late : bool) then mret (if 0 <? doneBytes' then (doneBytes', data') else (-1, []))
            else io_loop rounds io startTime numBytes timeoutMs tryFull doneBytes' data'
    end.
Definition ioWithAbortCheck (io : Z -> W -> Z * list Z * Z * W) (numBytes timeoutMs : Z) (tryFull : bool) : T (Z * list Z) :=
  startTime ← onOs clockMillis;
  n ← gets (fun s => patience (os s));
  io_loop (Z.to_nat numBytes + n) io startTime numBytes timeoutMs tryFull 0 [].
Definition readWithAbortCheck (nbyte timeoutMs : Z) (tryFull : bool) : T (Z * list Z) :=
  ioWithAbortCheck (fun done w => sys_read (nbyte - done) w) nbyte timeoutMs tryFull.
Definition writeWithAbortCheck (buf : list Z) (timeoutMs : Z) (tryFull : bool) : T Z :=
  r ← ioWithAbortCheck (fun done w => let '(ret, e, w) := sys_write (drop (Z.to_nat done) buf) w in (ret, [], e, w))
        (Zlen buf) timeoutMs tryFull;
  mret r.1.

Definition readInternal (nbyte timeoutMs : Z) (tryFull : bool) : T (Z * list Z) :=
  r ← readWithAbortCheck nbyte timeoutMs tryFull;
  let '(numRead, bs) := r in
  if numRead =? 0 then _ ← setReadError SOCKET_READ_ERROR; mret (0, bs)
  else if numRead <? 0 then
    e ← gets errno;
    _ ← setReadError (if (e =? EAGAIN) || (e =? EINTR) then WDT_TIMEOUT else SOCKET_READ_ERROR);
    mret (numRead, bs)
  else _ ← setReadError OK; mret (numRead, bs).
Fixpoint write_loop (rounds : nat) (buf : list Z) (timeoutMs : Z) (retry : bool) (written : Z) : T Z :=
  if negb (written <? Zlen buf) then mret written
  else
    match rounds with
    | O => abort
    | Datatypes.S rounds =>
        w ← writeWithAbortCheck (drop (Z.to_nat written) buf) timeoutMs true;
        if w <=? 0 then mret written
        else if negb retry then mret (written + w)
        else write_loop rounds buf timeoutMs retry (written + w)
    end.
Definition writeInternal (buf : list Z) (timeoutMs : Z) (retry : bool) : T Z :=
  written ← write_loop (length buf) buf timeoutMs retry 0;
  if negb (written =? Zlen buf) then _ ← setWriteError SOCKET_WRITE_ERROR; mret (-1)
  else mret written.

(** ** Encryption settings *)

Definition encryptionSet : T bool := gets (fun s => isSet (encryptionParams_ s)).
(** Storing at the start of [buf_]. *)
Definition store (bs : list Z) : T unit := modify (fun s => s <| buf_ := bs ++ drop (length bs) (buf_ s) |>).
Definition readEncryptionSettingsOnce (timeoutMs : Z) : T unit :=
  s ← gets id;
  if negb (isSet (encryptionParams_ s)) || encryptionSettingsRead_ s then mret tt
  else
    _ ← wdt_check (negb (bool_decide (ep_data (encryptionParams_ s) = [])));
    r ← readInternal 1 timeoutMs true;
    _ ← store r.2;
    if negb (r.1 =? 1) then mret tt
    else
      c ← gets (fun s => default 0 (head (buf_ s)));
      if negb (c =? ENCRYPTION_CMD) then setReadError UNEXPECTED_CMD_ERROR
      else
        let toRead := kEncryptionCmdLen - 1 in
        r ← readInternal toRead (read_timeout_millis o) true;
        _ ← store r.2;
        if negb (r.1 =? toRead) then setReadError SOCKET_READ_ERROR
        else
          d ← (fun s => let* (ok, e, _) := decodeEncryptionSettings (buf_ s) 0 kEncryptionCmdLen
                          (mkEncryptionSettings 0 [] (readTagInterval_ s)) in
                        Some ((ok, e), s <| readTagInterval_ := es_tagInterval e |>));
          let '(ok, e) := d in
          if negb ok then setReadError PROTOCOL_ERROR
          else if negb (es_type e =? EncryptionType_value (ep_type (encryptionParams_ s))) then setReadError PROTOCOL_ERROR
          else if es_tagInterval e <? 0 then setReadError PROTOCOL_ERROR
          else if (0 <? es_tagInterval e) && (encryptionTypeToTagLen (ep_type (encryptionParams_ s)) =? 0)
               then setReadError PROTOCOL_ERROR
          else
            started ← onDecryptor (decryptor_start (encryptionParams_ s) (es_iv e));
            if negb started then setReadError ENCRYPTION_ERROR
            else modify (fun s => s <| encryptionSettingsRead_ := true |>).
Definition startEncryptor : T (bool * list Z) :=
  params ← gets encryptionParams_;
  random ← onOs RAND_bytes;
  onEncryptor (encryptor_start params random).
Definition writeEncryptionSettingsOnce : T unit :=
  s ← gets id;
  if negb (isSet (encryptionParams_ s)) || encryptionSettingsWritten_ s then mret tt
  else
    _ ← wdt_check (negb (bool_decide (ep_data (encryptionParams_ s) = [])));
    r ← startEncryptor;
    let '(started, iv) := r in
    if negb started then setWriteError ENCRYPTION_ERROR
    else
      bs ← (fun s =>
        let buf := ENCRYPTION_CMD :: tail (buf_ s) in
        let* (_, buf, off) := encodeEncryptionSettings buf 1 (1 + kEncryptionCmdLen)
          (mkEncryptionSettings (EncryptionType_value (ep_type (encryptionParams_ s))) iv (writeTagInterval_ s)) in
        Some (take (Z.to_nat off) buf, s <| buf_ := buf |>));
      written ← writeInternal bs (write_timeout_millis o) false;
      if negb (written =? Zlen bs) then mret tt
      else modify (fun s => s <| encryptionSettingsWritten_ := true |>).

(** ** Tags and vectors *)

Definition checkAndChangeDecryptionIv (tag : list Z) : T bool :=
  s ← gets id;
  if ivChangeInterval_ s =? 0 then mret true
  else if numProcessed_ (decryptor_ s) + readTagInterval_ s <=? ivChangeInterval_ s then mret true
  else
    r ← readInternal kAESBlockSize (read_timeout_millis o) true;
    let '(numRead, iv) := r in
    if negb (numRead =? kAESBlockSize) then mret false
    else
      finished ← onDecryptor (decryptor_finish tag);
      if negb finished then mret false
      else
        _ ← resetDecryptor;
        params ← gets encryptionParams_;
        onDecryptor (decryptor_start params iv).
(** Empty if it cannot be read. *)
Definition readEncryptionTag : T (list Z) :=
  params ← gets encryptionParams_;
  let toRead := encryptionTypeToTagLen (ep_type params) in
  r ← readInternal toRead (read_timeout_millis o) true;
  if negb (r.1 =? toRead) then _ ← setReadError ENCRYPTION_ERROR; mret [] else mret r.2.
Definition computeNextTagOffset (totalProcessed tagInterval : Z) : Z :=
  if totalProcessed =? 0 then tagInterval
  else
    let nextTagOffset := tagInterval - Z.rem totalProcessed tagInterval in
    if nextTagOffset =? tagInterval then 0 else nextTagOffset.

(** ** Reading *)

Definition readAndDecrypt (nbyte timeoutMs : Z) (tryFull : bool) : T (Z * list Z) :=
  _ ← wdt_check (0 <? nbyte);
  encrypted ← encryptionSet;
  _ ← wdt_check encrypted;
  r ← readInternal nbyte timeoutMs tryFull;
  let '(numRead, bs) := r in
  if numRead <=? 0 then mret (numRead, bs)
  else
    d ← onDecryptor (decrypt bs);
    let '(ok, plain) := d in
    if negb ok then _ ← setReadError ENCRYPTION_ERROR; mret (-1, [])
    else mret (numRead, plain).
Definition addRead (n : Z) : T unit := modify (fun s => s <| totalRead_ := totalRead_ s + n |>).
(** Up to the tag: an early result, or the bytes in front of the tag. *)
Definition readToTag (nextTagOffset timeoutMs : Z) (tryFull : bool) : T (Z * list Z + list Z) :=
  if 0 <? nextTagOffset then
    r ← readAndDecrypt nextTagOffset timeoutMs tryFull;
    let '(ret, bs) := r in
    if ret <=? 0 then mret (inl (ret, bs))
    else
      _ ← addRead ret;
      if ret <? nextTagOffset then mret (inl (ret, bs))
      else _ ← wdt_check (nextTagOffset =? ret); mret (inr bs)
  else mret (inr []).
(** The tag, its verification, and the vector behind it; [false] is an error. *)
Definition passTag : T bool :=
  tag ← readEncryptionTag;
  if bool_decide (tag = []) then mret false
  else
    verified ← onDecryptor (fun a => let* ok := verifyTag tag a in Some (ok, a));
    if negb verified then _ ← setReadError ENCRYPTION_ERROR; mret false
    else
      _ ← (if has_callback o then onOs (fun w => (tt, tagVerified w)) else mret tt);
      changed ← checkAndChangeDecryptionIv tag;
      if negb changed then _ ← setReadError ENCRYPTION_ERROR; mret false else mret true.
Definition readRest (front : list Z) (nbyte timeoutMs : Z) (tryFull : bool) : T (Z * list Z) :=
  r ← readAndDecrypt (nbyte - Zlen front) timeoutMs tryFull;
  let '(ret, bs) := r in
  if ret <=? 0 then mret (if 0 <? Zlen front then (Zlen front, front) else (ret, []))
  else _ ← addRead ret; mret (Zlen front + ret, front ++ bs).
Definition readAndDecryptWithTag (nbyte timeoutMs : Z) (tryFull : bool) : T (Z * list Z) :=
  interval ← gets readTagInterval_;
  _ ← wdt_check (0 <? interval);
  _ ← wdt_check (nbyte <=? interval);
  total ← gets totalRead_;
  let nextTagOffset := computeNextTagOffset total interval in
  if nextTagOffset <? nbyte then
    front ← readToTag nextTagOffset timeoutMs tryFull;
    match front with
    | inl r => mret r
    | inr front =>
        total ← gets totalRead_;
        _ ← wdt_check (Z.rem total interval =? 0);
        ok ← passTag;
        if negb ok then mret (-1, []) else readRest front nbyte timeoutMs tryFull
    end
  else readRest [] nbyte timeoutMs tryFull.
Fixpoint read_loop (rounds : nat) (nbyte timeoutMs : Z) (tryFull : bool) (numRead : Z) (data : list Z) : T (Z * list Z) :=
  if negb (numRead <? nbyte) then mret (numRead, data)
  else
    match rounds with
    | O => abort
    | Datatypes.S rounds =>
        interval ← gets readTagInterval_;
        let toRead := Z.min (nbyte - numRead) interval in
        r ← readAndDecryptWithTag toRead timeoutMs tryFull;
        let '(ret, bs) := r in
        if ret <=? 0 then mret (if 0 <? numRead then (numRead, data) else (ret, []))
        else if ret <? toRead then mret (numRead + ret, data ++ bs)
        else read_loop rounds nbyte timeoutMs tryFull (numRead + ret) (data ++ bs)
    end.
(** What is left to do once the settings are read; [front] is the byte of a peer
    that does not encrypt. *)
Definition readData (front : list Z) (nbyte timeoutMs : Z) (tryFull : bool) : T (Z * list Z) :=
  encrypted ← encryptionSet;
  if negb encrypted then
    r ← readInternal (nbyte - Zlen front) timeoutMs tryFull;
    let '(ret, bs) := r in
    if 0 <=? ret then mret (Zlen front + ret, front ++ bs)
    else mret (if 0 <? Zlen front then (Zlen front, front) else (-1, []))
  else
    _ ← wdt_check (Zlen front =? 0);
    interval ← gets readTagInterval_;
    if interval <=? 0 then readAndDecrypt nbyte timeoutMs tryFull
    else read_loop (Z.to_nat nbyte) nbyte timeoutMs tryFull 0 [].
Definition readWithTimeout (nbyte timeoutMs : Z) (tryFull : bool) : T (Z * list Z) :=
  _ ← wdt_check (0 <? nbyte);
  e ← gets readErrorCode_;
  if negb (bool_decide (e = OK)) && negb (bool_decide (e = WDT_TIMEOUT)) then mret (-1, [])
  else
    _ ← setReadError OK;
    _ ← readEncryptionSettingsOnce timeoutMs;
    s ← gets id;
    if supportUnencryptedPeer_ s && bool_decide (readErrorCode_ s = UNEXPECTED_CMD_ERROR) then
      _ ← modify (fun s => s <| readErrorCode_ := OK |> <| encryptionParams_ := EncryptionParams_none |>);
      readData (take 1 (buf_ s)) nbyte timeoutMs tryFull
    else if negb (bool_decide (readErrorCode_ s = OK)) then mret (-1, [])
    else readData [] nbyte timeoutMs tryFull.
Definition read (nbyte : Z) (tryFull : bool) : T (Z * list Z) := readWithTimeout nbyte (read_timeout_millis o) tryFull.

(** ** Writing *)

Definition encryptAndWrite (buf : list Z) (timeoutMs : Z) (retry : bool) : T Z :=
  _ ← wdt_check (0 <? Zlen buf);
  encrypted ← encryptionSet;
  _ ← wdt_check encrypted;
  r ← onEncryptor (encrypt buf);
  let '(ok, out) := r in
  if negb ok then _ ← setWriteError ENCRYPTION_ERROR; mret (-1)
  else
    written ← writeInternal out timeoutMs retry;
    _ ← (if negb (written =? Zlen buf) then setWriteError SOCKET_WRITE_ERROR else mret tt);
    mret written.
Definition checkAndChangeEncryptionIv : T bool :=
  s ← gets id;
  if ivChangeInterval_ s =? 0 then mret true
  else if numProcessed_ (encryptor_ s) + writeTagInterval_ s <=? ivChangeInterval_ s then mret true
  else
    _ ← resetEncryptor;
    r ← startEncryptor;
    let '(started, iv) := r in
    if negb started then mret false
    else
      _ ← wdt_check (kAESBlockSize =? Zlen iv);
      written ← writeInternal iv (write_timeout_millis o) false;
      mret (written =? kAESBlockSize).
Definition writeEncryptionTag : T bool :=
  tag ← onEncryptor (fun a => let* tag := computeCurrentTag a in Some (tag, a));
  if bool_decide (tag = []) then _ ← setWriteError ENCRYPTION_ERROR; mret false
  else
    written ← writeInternal tag (write_timeout_millis o) false;
    mret (written =? Zlen tag).
Definition addWritten (n : Z) : T unit := modify (fun s => s <| totalWritten_ := totalWritten_ s + n |>).
(** Up to the tag and behind it: [None] is an error, else how much was written. *)
Definition writeToTag (buf : list Z) (nextTagOffset timeoutMs : Z) (retry : bool) : T (option Z) :=
  if 0 <? nextTagOffset then
    ret ← encryptAndWrite (take (Z.to_nat nextTagOffset) buf) timeoutMs retry;
    if negb (ret =? nextTagOffset) then mret None
    else _ ← addWritten ret; mret (Some ret)
  else mret (Some 0).
Definition putTag : T bool :=
  tagged ← writeEncryptionTag;
  if negb tagged then mret false
  else
    changed ← checkAndChangeEncryptionIv;
    if negb changed then _ ← setWriteError ENCRYPTION_ERROR; mret false else mret true.
Definition writeRest (buf : list Z) (written timeoutMs : Z) (retry : bool) : T Z :=
  let remainingWrite := Zlen buf - written in
  ret ← encryptAndWrite (drop (Z.to_nat written) buf) timeoutMs retry;
  if negb (ret =? remainingWrite) then mret (-1)
  else _ ← addWritten ret; mret (Zlen buf).
Definition encryptAndWriteWithTag (buf : list Z) (timeoutMs : Z) (retry : bool) : T Z :=
  interval ← gets writeTagInterval_;
  _ ← wdt_check (0 <? interval);
  _ ← wdt_check (Zlen buf <=? interval);
  total ← gets totalWritten_;
  let nextTagOffset := computeNextTagOffset total interval in
  if nextTagOffset <? Zlen buf then
    front ← writeToTag buf nextTagOffset timeoutMs retry;
    match front with
    | None => mret (-1)
    | Some written =>
        total ← gets totalWritten_;
        _ ← wdt_check (Z.rem total interval =? 0);
        ok ← putTag;
        if negb ok then mret (-1) else writeRest buf written timeoutMs retry
    end
  else writeRest buf 0 timeoutMs retry.
Fixpoint tagged_loop (rounds : nat) (buf : list Z) (timeoutMs : Z) (retry : bool) (written : Z) : T Z :=
  if negb (written <? Zlen buf) then mret written
  else
    match rounds with
    | O => abort
    | Datatypes.S rounds =>
        interval ← gets writeTagInterval_;
        let toWrite := Z.min (Zlen buf - written) interval in
        ret ← encryptAndWriteWithTag (take (Z.to_nat toWrite) (drop (Z.to_nat written) buf)) timeoutMs retry;
        if negb (ret =? toWrite) then mret (-1)
        else tagged_loop rounds buf timeoutMs retry (written + ret)
    end.
(** What is left to do once the settings are written. *)
Definition writeData (buf : list Z) (retry : bool) : T Z :=
  encrypted ← encryptionSet;
  if negb encrypted then writeInternal buf (write_timeout_millis o) retry
  else
    interval ← gets writeTagInterval_;
    if interval <=? 0 then encryptAndWrite buf (write_timeout_millis o) retry
    else tagged_loop (length buf) buf (write_timeout_millis o) retry 0.
Definition write (buf : list Z) (retry : bool) : T Z :=
  _ ← wdt_check (0 <? Zlen buf);
  e ← gets writeErrorCode_;
  if negb (bool_decide (e = OK)) then mret (-1)
  else
    _ ← writeEncryptionSettingsOnce;
    e ← gets writeErrorCode_;
    if negb (bool_decide (e = OK)) then mret (-1) else writeData buf retry.

(** ** The end of a connection *)

Definition finalizeReads (doTagIOs : bool) : T ErrorCode :=
  params ← gets encryptionParams_;
  let toRead := encryptionTypeToTagLen (ep_type params) in
  t ← (if negb (toRead =? 0) && doTagIOs then
         tag ← readEncryptionTag;
         mret (tag, if bool_decide (tag = []) then ENCRYPTION_ERROR else OK)
       else mret ([], OK));
  let '(tag, code) := t in
  finished ← onDecryptor (decryptor_finish tag);
  _ ← modify (fun s => s <| readsFinalized_ := true |>);
  mret (if negb finished then ENCRYPTION_ERROR else code).
Definition finalizeWrites (doTagIOs : bool) : T ErrorCode :=
  r ← onEncryptor encryptor_finish;
  let '(finished, tag) := r in
  let code := if negb finished then ENCRYPTION_ERROR else OK in
  code ← (if negb (bool_decide (tag = [])) && doTagIOs then
            written ← writeInternal tag (write_timeout_millis o) false;
            mret (if negb (written =? Zlen tag) then ENCRYPTION_ERROR else code)
          else mret code);
  _ ← modify (fun s => s <| writesFinalized_ := true |>);
  mret code.
Definition expectEndOfStream : T ErrorCode := finalizeReads true.
Definition shutdownWrites : T ErrorCode :=
  code ← finalizeWrites true;
  failed ← onOs sys_shutdown;
  mret (if failed && bool_decide (code = OK) then ERROR else code).
Definition getNonRetryableErrCode (s : S) : ErrorCode :=
  let r := readErrorCode_ s in
  let w := writeErrorCode_ s in
  let errCode :=
    if negb (bool_decide (r ∈ [OK; SOCKET_READ_ERROR; WDT_TIMEOUT; ENCRYPTION_ERROR])) then getMoreInterestingError OK r else OK in
  if negb (bool_decide (w ∈ [OK; SOCKET_WRITE_ERROR; ENCRYPTION_ERROR])) then getMoreInterestingError errCode w else errCode.
Definition closeConnectionInternal (doTagIOs : bool) : T ErrorCode :=
  s ← gets id;
  if fd_ s <? 0 then mret OK
  else
    let errorCode := getNonRetryableErrCode s in
    errorCode ← (if negb (writesFinalized_ s) then c ← finalizeWrites doTagIOs; mret (getMoreInterestingError errorCode c)
                 else mret errorCode);
    errorCode ← (if negb (readsFinalized_ s) then c ← finalizeReads doTagIOs; mret (getMoreInterestingError errorCode c)
                 else mret errorCode);
    failed ← onOs sys_close;
    _ ← modify (fun s => s <| fd_ := -1 |> <| readErrorCode_ := OK |> <| writeErrorCode_ := OK |>
           <| encryptionSettingsRead_ := false |> <| encryptionSettingsWritten_ := false |>
           <| writesFinalized_ := false |> <| readsFinalized_ := false |> <| totalRead_ := 0 |> <| totalWritten_ := 0 |>
           <| encryptor_ := AESBase_new |> <| decryptor_ := AESBase_new |>);
    mret (if (failed : bool) then getMoreInterestingError ERROR errorCode else errorCode).
Definition closeConnection : T ErrorCode := closeConnectionInternal true.
Definition closeNoCheck : T unit := _ ← closeConnectionInternal false; mret tt.

(** ** Construction *)

Definition WdtSocket_make (port : Z) (encryptionParams : EncryptionParams) (ivChangeInterval : Z) (buf : list Z) (w : W) : S :=
  mkWdtSocket port (-1) encryptionParams ivChangeInterval false false AESBase_new AESBase_new buf 0
    (if encryptionTypeToTagLen (ep_type encryptionParams) =? 0 then 0 else encryption_tag_interval_bytes o)
    0 0 false OK OK false false 0 w.
Definition disableIvChange (s : S) : S := s <| ivChangeInterval_ := 0 |>.
Definition enableUnencryptedPeerSupport (s : S) : S := s <| supportUnencryptedPeer_ := true |>.
Definition getEffectiveTimeout (networkTimeout : Z) : Z :=
  let abortInterval := abort_check_interval_millis o in
  if abortInterval <=? 0 then networkTimeout
  else if networkTimeout <=? 0 then abortInterval
  else Z.min networkTimeout abortInterval.
End socket.
