(* ===== verification/SocketIo.v ===== *)
(** Input and output of a socket: what one read or write of [WdtSocket] does to
    the connection, whatever the system calls do; and that a socket without
    encryption is a connection as the threads assume ([Socket]). *)
From S2P Require Import Prelude Serialization ErrorCodes Protocol Uri Socket Encryption StateMonad WdtSocket.

(** ** Laws of the system calls

    [wire_in] are the bytes that will still be read, [wire_out] those that were
    written.  A call that has to be tried again uses up some patience, and
    nothing gives it back: no thread is interrupted for ever. *)
Definition quiet {W} (wire_in wire_out : W -> list Z) (patience : W -> nat) (w w' : W) : Prop :=
  wire_in w' = wire_in w /\ wire_out w' = wire_out w /\ (patience w' <= patience w)%nat.
Definition again (r e : Z) : Prop := r < 0 /\ (e = EINTR \/ e = EAGAIN).
Class SocketOsLaws (W : Type) `{SocketOs W} := {
  wire_in : W -> list Z;
  wire_out : W -> list Z;
  sys_read_spec n w r bs e w' : 0 < n -> sys_read n w = (r, bs, e, w') ->
    wire_out w' = wire_out w /\ (patience w' <= patience w)%nat /\ (again r e -> (patience w' < patience w)%nat)
    /\ (r <= 0 /\ wire_in w' = wire_in w \/ 0 < r <= n /\ Zlen bs = r /\ wire_in w = bs ++ wire_in w');
  sys_write_spec bs w r e w' : bs <> [] -> sys_write bs w = (r, e, w') ->
    wire_in w' = wire_in w /\ (patience w' <= patience w)%nat /\ (again r e -> (patience w' < patience w)%nat)
    /\ r <= Zlen bs /\ wire_out w' = wire_out w ++ take (Z.to_nat r) bs;
  RAND_spec w r w' : RAND_bytes w = (r, w') ->
    quiet wire_in wire_out patience w w' /\ forall iv, r = Some iv -> Zlen iv = kAESBlockSize;
  shouldAbort_spec w b w' : shouldAbort w = (b, w') -> quiet wire_in wire_out patience w w';
  clockMillis_spec w t w' : clockMillis w = (t, w') -> quiet wire_in wire_out patience w w';
  tagVerified_spec w : quiet wire_in wire_out patience w (tagVerified w)
}.

Section io.
Context `{Host} {Ctx W : Type} `{Openssl Ctx} `{SocketOsLaws W} (o : SocketOptions).
Abbreviation S := (WdtSocket Ctx W).
Abbreviation T := (M S).
Implicit Types (s : S).

(** A change of the connection and of [errno] only. *)
Definition moved (s s' : S) : Prop := exists e w, s' = s <| errno := e |> <| os := w |>.
Lemma moved_refl s : moved s s.
Proof. exists (errno s), (os s). by destruct s. Qed.
Lemma moved_trans s1 s2 s3 : moved s1 s2 -> moved s2 s3 -> moved s1 s3.
Proof. intros (e & w & ->) (e' & w' & ->). by exists e', w'. Qed.
Lemma moved_os s w : moved s (s <| os := w |>).
Proof. exists (errno s), w. by destruct s. Qed.

Lemma wp_onOs {A} (f : W -> A * W) Q s : wp (onOs f) Q s <-> Q (f (os s)).1 (s <| os := (f (os s)).2 |>).
Proof. unfold wp, onOs. by destruct (f (os s)). Qed.

(** [more] goes over the connection, and nothing in the other direction. *)
Definition receives (more : list Z) (w w' : W) : Prop :=
  wire_in w = more ++ wire_in w' /\ wire_out w' = wire_out w /\ (patience w' <= patience w)%nat.
Definition sends (more : list Z) (w w' : W) : Prop :=
  wire_out w' = wire_out w ++ more /\ wire_in w' = wire_in w /\ (patience w' <= patience w)%nat.
Lemma receives_nil w w' : quiet wire_in wire_out patience w w' -> receives [] w w'.
Proof. by intros (E1 & E2 & E3). Qed.
Lemma sends_nil w w' : quiet wire_in wire_out patience w w' -> sends [] w w'.
Proof. intros (E1 & E2 & E3). split_and!; [by rewrite app_nil_r|done..]. Qed.
Lemma receives_trans a b w1 w2 w3 : receives a w1 w2 -> receives b w2 w3 -> receives (a ++ b) w1 w3.
Proof. intros (E1 & E2 & E3) (E4 & E5 & E6). split_and!; [by rewrite E1, E4, app_assoc|by rewrite E5|lia]. Qed.
Lemma sends_trans a b w1 w2 w3 : sends a w1 w2 -> sends b w2 w3 -> sends (a ++ b) w1 w3.
Proof. intros (E1 & E2 & E3) (E4 & E5 & E6). split_and!; [by rewrite E4, E1, app_assoc|by rewrite E5|lia]. Qed.

(** ** The loop around a system call

    In either direction: [flows more] is [receives more] or [sends more],
    [bytes_of done r bs] are the bytes of a call that returns [r] and stores [bs],
    [kept] is what of them ends up in the result, and [good] says which bytes they
    are. *)
Section loop.
Context (io : Z -> W -> Z * list Z * Z * W) (numBytes : Z) (bytes_of : Z -> Z -> list Z -> list Z)
  (flows : list Z -> W -> W -> Prop) (kept : list Z -> list Z) (good : Z -> list Z -> Prop).
Hypothesis kept_nil : kept [] = [].
Hypothesis kept_app : forall a b, kept (a ++ b) = kept a ++ kept b.
Hypothesis good_nil : forall d, good d [].
Hypothesis good_app : forall d a b, 0 <= d -> good d a -> good (d + Zlen a) b -> good d (a ++ b).
Hypothesis flows_nil : forall w w', quiet wire_in wire_out patience w w' -> flows [] w w'.
Hypothesis flows_trans : forall a b w1 w2 w3, flows a w1 w2 -> flows b w2 w3 -> flows (a ++ b) w1 w3.
Hypothesis flows_patience : forall a w w', flows a w w' -> (patience w' <= patience w)%nat.
Hypothesis io_spec : forall done w r bs e w', 0 <= done < numBytes -> io done w = (r, bs, e, w') ->
  (again r e -> (patience w' < patience w)%nat) /\ r <= numBytes - done
  /\ (r <= 0 -> flows [] w w')
  /\ (0 < r -> flows (bytes_of done r bs) w w' /\ Zlen (bytes_of done r bs) = r /\ kept (bytes_of done r bs) = bs
              /\ good done (bytes_of done r bs)).

(** How a loop that has already done [done] bytes ends. *)
Definition ends (done : Z) (data : list Z) (s : S) (r : Z * list Z) (s' : S) : Prop :=
  moved s s' /\ exists more, flows more (os s) (os s') /\ good done more
    /\ (r.1 < 0 /\ r.2 = [] /\ more = [] /\ done = 0
        \/ r.1 = done + Zlen more /\ r.1 <= numBytes /\ r.2 = data ++ kept more).
Lemma ends_now done data s s1 :
  moved s s1 -> flows [] (os s) (os s1) -> 0 <= done <= numBytes -> ends done data s (done, data) s1.
Proof using kept_nil good_nil.
  intros Hm Hf Hd. split; [done|]. exists []. split; [done|]. split; [done|]. right. simpl. rewrite kept_nil, app_nil_r. lia || split_and!; lia || done.
Qed.
Lemma ends_after done data s s1 more r s' :
  moved s s1 -> flows more (os s) (os s1) -> 0 <= done -> (more = [] \/ 0 < Zlen more) ->
  good done more -> ends (done + Zlen more) (data ++ kept more) s1 r s' -> ends done data s r s'.
Proof using kept_app flows_trans good_app.
  intros Hm Hf Hd Hmore Hg (Hm' & more' & Hf' & Hg' & Hr). split; [by eapply moved_trans|]. exists (more ++ more'). split; [eauto|].
  split; [auto|].
  destruct Hr as [(Hn & Hr & -> & Hz)|(Hr & Hle & Hdata)].
  - left. destruct Hmore as [->|Hpos]; [|lia]. split_and!; try done. change (Zlen []) with 0 in Hz. lia.
  - right. rewrite Zlen_app, kept_app, app_assoc. split_and!; [lia|lia|done].
Qed.
Lemma io_loop_spec rounds startTime timeoutMs tryFull d0 data s :
  0 <= d0 <= numBytes -> (d0 = 0 -> data = []) ->
  (Z.to_nat (numBytes - d0) + patience (os s) <= rounds)%nat ->
  wp (io_loop o rounds io startTime numBytes timeoutMs tryFull d0 data) (ends d0 data s) s.
Proof using All.
  revert d0 data s. induction rounds as [|rounds IH]; intros d0 data s Hd Hdata Hn; cbn [io_loop];
    (destruct (Z.ltb_spec d0 numBytes); cbn [negb];
      [|rewrite wp_ret; apply ends_now; [apply moved_refl|apply flows_nil; done|done]]); [lia|].
  rewrite wp_bind, wp_onOs. destruct (io d0 (os s)) as [[[r bs] e] w'] eqn:E. cbn [fst snd].
  apply io_spec in E as (Hagain & Hle & Hzero & Hpos); [|lia]. rewrite wp_bind, wp_modify.
  set (s1 := if r <? 0 then _ else _).
  assert (moved s s1 /\ os s1 = w') as [Hm Hw].
  { unfold s1. destruct (r <? 0); [split; [exists e, w'|]; by destruct s|split; [apply moved_os|done]]. }
  assert (exists more, flows more (os s) (os s1) /\ (more = [] \/ 0 < Zlen more) /\ (0 < r -> more <> []) /\ (r <= 0 -> more = [])
    /\ (if 0 <? r then d0 + r else d0) = d0 + Zlen more /\ (if 0 <? r then data ++ bs else data) = data ++ kept more
    /\ d0 + Zlen more <= numBytes /\ good d0 more) as (more & Hf & Hmore & Hp & Hz & -> & -> & Hmax & Hg).
  { rewrite Hw. destruct (Z.ltb_spec 0 r) as [Hr|Hr].
    - destruct (Hpos Hr) as (Hf & Hl & Hk & Hg). exists (bytes_of d0 r bs). rewrite Hk. split_and!; try done; [right; lia| |lia|lia|lia].
      intros _ Hnil. rewrite Hnil in Hl. change (Zlen []) with 0 in Hl. lia.
    - exists []. rewrite kept_nil, app_nil_r. change (Zlen []) with 0.
      split_and!; [by apply Hzero|by left|lia|done|lia|done|lia|done]. }
  destruct ((r <? 0) && negb (e =? EINTR) && negb (e =? EAGAIN)) eqn:Ebad.
  { rewrite wp_ret. bool_to_prop. destruct Ebad as [[Hr _] _]. rewrite (Hz ltac:(lia)) in Hf.
    destruct (Z.ltb_spec 0 d0); [by apply ends_now|]. split; [done|]. exists []. split; [done|]. split; [done|]. left. split_and!; [done..|lia]. }
  destruct (Z.eqb_spec r 0) as [->|Hr0].
  { rewrite wp_ret. rewrite (Hz ltac:(lia)) in Hf. by apply ends_now. }
  eapply wp_mono; [intros a s' Hend; apply (ends_after d0 data s s1 more); [done|done|lia|done|done|exact Hend]|].
  assert (forall s2 data2, moved s1 s2 -> flows [] (os s1) (os s2) -> data2 = data ++ kept more ->
    ends (d0 + Zlen more) data2 s1 (if 0 <? d0 + Zlen more then (d0 + Zlen more, data2) else (-1, [])) s2) as Hstop.
  { intros s2 data2 Hm2 Hf2 ->. destruct (Z.ltb_spec 0 (d0 + Zlen more)); [apply ends_now; [done|done|lia]|].
    split; [done|]. exists []. split; [done|]. split; [done|]. left. split_and!; [done..|lia]. }
  destruct ((0 <? r) && negb tryFull) eqn:Efull.
  { rewrite wp_ret. apply ends_now; [apply moved_refl|by apply flows_nil|lia]. }
  rewrite wp_bind. eapply (wp_mono _ (fun _ s2 => moved s1 s2 /\ quiet wire_in wire_out patience (os s1) (os s2))).
  2:{ destruct (0 <? abort_check_interval_millis o); [|rewrite wp_ret; split; [apply moved_refl|done]].
      rewrite wp_onOs. destruct (shouldAbort (os s1)) as [b w2] eqn:Ea. split; [apply moved_os|]. by apply shouldAbort_spec in Ea. }
  intros aborted s2 [Hm2 Hq2]. destruct aborted; [rewrite wp_ret; apply Hstop; auto|].
  rewrite wp_bind. eapply (wp_mono _ (fun _ s3 => moved s2 s3 /\ quiet wire_in wire_out patience (os s2) (os s3))).
  2:{ destruct (0 <? timeoutMs); [|rewrite wp_ret; split; [apply moved_refl|done]].
      rewrite wp_bind, wp_onOs, wp_ret. destruct (clockMillis (os s2)) as [b w2'] eqn:Ea. split; [apply moved_os|]. by apply clockMillis_spec in Ea. }
  intros late s3 [Hm3 Hq3].
  assert (moved s1 s3) as Hm13 by (by eapply moved_trans). assert (flows [] (os s1) (os s3)) as Hf13.
  { change [] with ([] ++ [] : list Z). eauto. }
  destruct late; [rewrite wp_ret; by apply Hstop|].
  eapply wp_mono; [|apply IH; [lia| |]].
  - intros a s'. intros Hend. apply (ends_after _ _ s1 s3 []); [done..|lia|by left|done|]. simpl. rewrite Z.add_0_r, kept_nil, app_nil_r. exact Hend.
  - intros Hz'. assert (d0 = 0) as -> by lia. rewrite Hdata by done. destruct Hmore as [->|]; [by rewrite kept_nil|lia].
  - pose proof (flows_patience _ _ _ Hf). pose proof (flows_patience _ _ _ Hf13).
    destruct (Z.lt_ge_cases 0 r) as [Hr|Hr].
    + assert (0 < Zlen more) by (destruct Hmore as [->|]; [by destruct (Hp Hr)|done]). lia.
    + rewrite (Hz Hr). change (Zlen []) with 0. assert (again r e) as Hag.
      { split; [lia|]. apply andb_false_iff in Ebad as [Eb|Eb]; [apply andb_false_iff in Eb as [Eb|Eb]|]; bool_to_prop; auto. lia. }
      apply Hagain in Hag. rewrite Hw in *. lia.
Qed.
End loop.

(** ** [readInternal] and [writeInternal] *)

Definition moved_reading (s s' : S) : Prop := exists s1, moved s s1 /\ s' = s1 <| readErrorCode_ := readErrorCode_ s' |>.
Definition moved_writing (s s' : S) : Prop := exists s1, moved s s1 /\ s' = s1 <| writeErrorCode_ := writeErrorCode_ s' |>.

Lemma readWithAbortCheck_spec nbyte timeoutMs tryFull s :
  0 <= nbyte ->
  wp (readWithAbortCheck o nbyte timeoutMs tryFull)
    (fun r s' => moved s s' /\ exists more, receives more (os s) (os s')
       /\ (r.1 <= 0 /\ r.2 = [] /\ more = [] \/ 0 < r.1 <= nbyte /\ r.2 = more /\ Zlen more = r.1)) s.
Proof.
  intros Hn. unfold readWithAbortCheck, ioWithAbortCheck. rewrite wp_bind, wp_onOs.
  destruct (clockMillis (os s)) as [t w] eqn:Ec. apply clockMillis_spec in Ec. cbn [fst snd].
  rewrite wp_bind, wp_gets. set (s1 := s <| os := w |>).
  eapply wp_mono; [|apply (io_loop_spec _ nbyte (fun _ _ bs => bs) receives id (fun _ _ => True)); try done].
  - intros r s' (Hm & more & Hf & _ & Hr). split; [eapply moved_trans; [apply moved_os|exact Hm]|]. exists more. split.
    { change more with ([] ++ more). eapply receives_trans; [apply receives_nil, Ec|exact Hf]. }
    simpl in Hr. destruct Hr as [(Hneg & Hr2 & -> & _)|(Hr1 & Hle & Hr2)]; [left; split_and!; [lia|done..]|].
    destruct (decide (more = [])) as [->|Hne]; [left; simpl in *; split_and!; [lia|done..]|right].
    assert (0 < Zlen more) by (destruct more; [done|simpl; lia]). split_and!; [lia|lia|done|lia].
  - intros. by apply receives_nil.
  - intros. by eapply receives_trans.
  - by intros a w0 w' (_ & _ & ?).
  - intros d w0 r bs e w' Hd Hr. apply sys_read_spec in Hr as (Ho & Hp & Ha & Hcase); [|lia]. split_and!; [done|lia| |].
    + intros Hr. destruct Hcase as [[_ Hi]|]; [|lia]. by split_and!.
    + intros Hr. destruct Hcase as [|(_ & Hl & Hi)]; [lia|]. by split_and!.
  - simpl. rewrite Z.sub_0_r. lia.
Qed.
Lemma writeWithAbortCheck_spec buf timeoutMs s :
  wp (writeWithAbortCheck o buf timeoutMs true)
    (fun r s' => moved s s' /\ r <= Zlen buf /\ sends (take (Z.to_nat r) buf) (os s) (os s')) s.
Proof.
  unfold writeWithAbortCheck, ioWithAbortCheck. rewrite wp_bind, wp_bind, wp_onOs.
  destruct (clockMillis (os s)) as [t w] eqn:Ec. apply clockMillis_spec in Ec. cbn [fst snd].
  rewrite wp_bind, wp_gets. set (s1 := s <| os := w |>).
  eapply wp_mono; [|apply (io_loop_spec _ (Zlen buf) (fun d r _ => take (Z.to_nat r) (drop (Z.to_nat d) buf)) sends (fun _ => [])
    (fun d m => m = take (length m) (drop (Z.to_nat d) buf))); try done].
  - intros r s' (Hm & more & Hf & Hg & Hr). rewrite wp_ret. split; [eapply moved_trans; [apply moved_os|exact Hm]|].
    assert (sends more (os s) (os s')) as Hs.
    { change more with ([] ++ more). eapply sends_trans; [apply sends_nil, Ec|exact Hf]. }
    simpl in Hg. rewrite drop_0 in Hg. destruct Hr as [(Hneg & _ & -> & _)|(Hr1 & Hle & _)].
    + split; [lia|]. replace (Z.to_nat r.1) with O by lia. exact Hs.
    + split; [lia|]. replace (Z.to_nat r.1) with (length more) by lia. by rewrite <- Hg.
  - intros d a b Hd Ha Hb. rewrite Ha at 1. rewrite Hb at 1. rewrite length_app.
    replace (Z.to_nat (d + Zlen a)) with (Z.to_nat d + length a)%nat by lia.
    rewrite <- drop_drop. apply take_take_drop.
  - intros. by apply sends_nil.
  - intros. by eapply sends_trans.
  - by intros a w0 w' (_ & _ & ?).
  - intros d w0 r bs e w' Hd. destruct (sys_write _ w0) as [[r0 e0] w0'] eqn:Ew. intros [= <- <- <- <-].
    apply sys_write_spec in Ew as (Hi & Hp & Ha & Hl & Ho).
    2:{ intros Hnil. apply (f_equal length) in Hnil. rewrite length_drop in Hnil. simpl in Hnil. lia. }
    rewrite length_drop in Hl. split_and!; [done|lia| |].
    + intros Hr. replace (Z.to_nat r0) with O in Ho by lia. by split_and!.
    + intros Hr. split; [by split_and!|]. rewrite length_take, length_drop. split; [lia|]. split; [done|]. f_equal. lia.
  - lia.
  - simpl. rewrite Z.sub_0_r. lia.
Qed.

Lemma readInternal_spec nbyte timeoutMs tryFull s :
  0 <= nbyte ->
  wp (readInternal o nbyte timeoutMs tryFull)
    (fun r s' => moved_reading s s' /\ exists more, receives more (os s) (os s')
       /\ (r.1 <= 0 /\ r.2 = [] /\ more = [] /\ (readErrorCode_ s' = SOCKET_READ_ERROR \/ readErrorCode_ s' = WDT_TIMEOUT)
           \/ 0 < r.1 <= nbyte /\ r.2 = more /\ Zlen more = r.1 /\ readErrorCode_ s' = OK)) s.
Proof.
  intros Hn. unfold readInternal. rewrite wp_bind. eapply wp_mono; [|by apply readWithAbortCheck_spec].
  intros [r bs] s1 (Hm & more & Hf & Hr). simpl in Hr. destruct (Z.eqb_spec r 0) as [->|Hz].
  { unfold setReadError. rewrite wp_bind, wp_modify, wp_ret. split; [by exists s1|]. exists more. split; [done|].
    left. destruct Hr as [(_ & -> & ->)|]; [|lia]. simpl. split_and!; [lia|done..|by left]. }
  destruct (Z.ltb_spec r 0).
  - unfold setReadError. rewrite wp_bind, wp_gets, wp_bind, wp_modify, wp_ret. split; [by exists s1|]. exists more. split; [done|].
    left. destruct Hr as [(_ & -> & ->)|]; [|lia]. simpl. split_and!; [lia|done..|]. destruct (_ || _); auto.
  - unfold setReadError. rewrite wp_bind, wp_modify, wp_ret. split; [by exists s1|]. exists more. split; [done|].
    right. destruct Hr as [|(? & -> & ?)]; [lia|]. simpl. split_and!; lia || done.
Qed.

Lemma socket_write_loop_spec rounds buf timeoutMs retry written s :
  0 <= written <= Zlen buf -> (Z.to_nat (Zlen buf - written) <= rounds)%nat ->
  wp (write_loop o rounds buf timeoutMs retry written)
    (fun r s' => moved s s' /\ written <= r <= Zlen buf
       /\ sends (take (Z.to_nat (r - written)) (drop (Z.to_nat written) buf)) (os s) (os s')) s.
Proof.
  assert (forall w1 s1, 0 <= w1 <= Zlen buf -> sends (take (Z.to_nat (w1 - w1)) (drop (Z.to_nat w1) buf)) (os s1) (os s1)) as Hstop.
  { intros w1 s1 _. rewrite Z.sub_diag. by apply sends_nil. }
  revert written s. induction rounds as [|rounds IH]; intros written s Hw Hr; cbn [write_loop];
    (destruct (Z.ltb_spec written (Zlen buf)); cbn [negb]; [|rewrite wp_ret; split; [apply moved_refl|split; [lia|by apply Hstop]]]); [lia|].
  rewrite wp_bind. eapply wp_mono; [|apply writeWithAbortCheck_spec]. intros w s1 (Hm & Hle & Hs). rewrite length_drop in Hle.
  destruct (Z.leb_spec w 0).
  { rewrite wp_ret. split; [done|]. split; [lia|]. rewrite Z.sub_diag. replace (Z.to_nat w) with O in Hs by lia. exact Hs. }
  destruct (negb retry).
  { rewrite wp_ret. split; [done|]. split; [lia|]. by replace (written + w - written) with w by lia. }
  eapply wp_mono; [|apply IH; lia]. intros r s2 (Hm2 & Hr2 & Hs2). split; [by eapply moved_trans|]. split; [lia|].
  pose proof (sends_trans _ _ _ _ _ Hs Hs2) as Hss.
  replace (Z.to_nat (written + w)) with (Z.to_nat written + Z.to_nat w)%nat in Hss by lia. rewrite <- drop_drop in Hss.
  rewrite take_take_drop in Hss. by replace (Z.to_nat (r - written)) with (Z.to_nat w + Z.to_nat (r - (written + w)))%nat by lia.
Qed.
Lemma writeInternal_spec buf timeoutMs retry s :
  wp (writeInternal o buf timeoutMs retry)
    (fun r s' => moved_writing s s' /\ exists k, sends (take k buf) (os s) (os s')
       /\ (r = Zlen buf /\ take k buf = buf /\ writeErrorCode_ s' = writeErrorCode_ s
           \/ r = -1 /\ writeErrorCode_ s' = SOCKET_WRITE_ERROR)) s.
Proof.
  unfold writeInternal. rewrite wp_bind. eapply wp_mono; [|apply socket_write_loop_spec; lia].
  intros r s1 (Hm & Hr & Hs). rewrite Z.sub_0_r, drop_0 in Hs. destruct (Z.eqb_spec r (Zlen buf)) as [->|Hne]; cbn [negb].
  - rewrite wp_ret. split; [exists s1; split; [done|by destruct s1]|]. eexists. split; [exact Hs|]. left.
    rewrite Nat2Z.id, firstn_all. split_and!; [done..|]. destruct Hm as (e & w & ->). done.
  - unfold setWriteError. rewrite wp_bind, wp_modify, wp_ret. split; [by exists s1|]. eexists. split; [exact Hs|]. by right.
Qed.

(** ** A socket without encryption *)

Definition unencrypted (s : S) : Prop := isSet (encryptionParams_ s) = false.
Lemma moved_params s s' : moved s s' -> encryptionParams_ s' = encryptionParams_ s.
Proof. by intros (e & w & ->). Qed.
Lemma moved_reading_params s s' : moved_reading s s' -> encryptionParams_ s' = encryptionParams_ s.
Proof. intros (s1 & Hm & ->). by rewrite <- (moved_params _ _ Hm). Qed.
Lemma moved_writing_params s s' : moved_writing s s' -> encryptionParams_ s' = encryptionParams_ s.
Proof. intros (s1 & Hm & ->). by rewrite <- (moved_params _ _ Hm). Qed.

Lemma unencrypted_read nbyte timeoutMs tryFull s :
  unencrypted s -> 0 < nbyte ->
  wp (readWithTimeout o nbyte timeoutMs tryFull)
    (fun r s' => unencrypted s' /\ exists more, receives more (os s) (os s')
       /\ (r.1 <= 0 /\ r.2 = [] /\ more = [] \/ 0 < r.1 <= nbyte /\ r.2 = more /\ Zlen more = r.1)) s.
Proof.
  intros Hu Hn. unfold readWithTimeout. rewrite wp_bind, wp_check. split; [by apply Z.ltb_lt|]. rewrite wp_bind, wp_gets.
  destruct (_ && _).
  { rewrite wp_ret. split; [done|]. exists []. split; [by apply receives_nil|]. left. by split_and!. }
  unfold setReadError. rewrite wp_bind, wp_modify. unfold readEncryptionSettingsOnce. rewrite !wp_bind, wp_gets. unfold unencrypted in Hu.
  change (isSet (encryptionParams_ (id (s <| readErrorCode_ := OK |>)))) with (isSet (encryptionParams_ s)). rewrite Hu. cbn [negb orb].
  rewrite wp_ret, wp_bind, wp_gets.
  set (s1 := s <| readErrorCode_ := OK |>). change (readErrorCode_ (id s1)) with OK.
  rewrite (bool_decide_eq_false_2 (OK = UNEXPECTED_CMD_ERROR)), (bool_decide_eq_true_2 (OK = OK)) by done.
  rewrite andb_false_r. cbn [negb]. unfold readData, encryptionSet. rewrite wp_bind, wp_gets.
  change (encryptionParams_ s1) with (encryptionParams_ s). rewrite Hu. cbn [negb]. change (Zlen []) with 0. rewrite Z.sub_0_r, wp_bind.
  eapply wp_mono; [|apply readInternal_spec; lia]. intros [r bs] s' (Hm & more & Hf & Hr).
  assert (unencrypted s') as Hu' by (unfold unencrypted; by rewrite (moved_reading_params _ _ Hm)).
  simpl in Hr. destruct (Z.leb_spec 0 r); rewrite wp_ret; (split; [done|]); exists more; (split; [exact Hf|]).
  - simpl. destruct Hr as [(? & -> & -> & _)|(? & -> & ? & _)]; [left; by split_and!|right; split_and!; lia || done].
  - simpl. left. destruct Hr as [(? & -> & -> & _)|]; [by split_and!|lia].
Qed.
Lemma unencrypted_write buf retry s :
  unencrypted s -> buf <> [] ->
  wp (write o buf retry)
    (fun r s' => unencrypted s' /\ exists k, sends (take k buf) (os s) (os s') /\ (r = Zlen buf /\ take k buf = buf \/ r = -1)) s.
Proof.
  intros Hu Hn. unfold write. rewrite wp_bind, wp_check. split; [apply Z.ltb_lt; destruct buf; [done|simpl; lia]|].
  rewrite wp_bind, wp_gets. destruct (negb _).
  { rewrite wp_ret. split; [done|]. exists O. split; [by apply sends_nil|by right]. }
  unfold writeEncryptionSettingsOnce. rewrite !wp_bind, wp_gets. unfold unencrypted in Hu.
  change (encryptionParams_ (id s)) with (encryptionParams_ s). rewrite Hu. cbn [negb orb]. rewrite wp_ret, wp_bind, wp_gets. destruct (negb _).
  { rewrite wp_ret. split; [done|]. exists O. split; [by apply sends_nil|by right]. }
  unfold writeData, encryptionSet. rewrite wp_bind, wp_gets, Hu. cbn [negb].
  eapply wp_mono; [|apply writeInternal_spec]. intros r s' (Hm & k & Hs & Hr).
  split; [unfold unencrypted; by rewrite (moved_writing_params _ _ Hm)|]. exists k. split; [done|]. naive_solver.
Qed.

(** C20: Without encryption, whatever the system calls return, a read and a write
    of a socket end, and do to the connection what the threads rely on: a
    positive result of a read is the number of bytes that were next on the
    connection, at most what was asked for, and otherwise nothing was taken
    from it; a write puts a prefix of its bytes on the connection, all of them
    if it reports success. *)
Theorem unencrypted_socket s nbyte timeoutMs tryFull buf retry :
  unencrypted s -> 0 < nbyte -> buf <> [] ->
  wp (readWithTimeout o nbyte timeoutMs tryFull)
    (fun r s' => unencrypted s' /\ exists more, receives more (os s) (os s')
       /\ (r.1 <= 0 /\ r.2 = [] /\ more = [] \/ 0 < r.1 <= nbyte /\ r.2 = more /\ Zlen more = r.1)) s
  /\ wp (write o buf retry)
      (fun r s' => unencrypted s' /\ exists k, sends (take k buf) (os s) (os s') /\ (r = Zlen buf /\ take k buf = buf \/ r = -1)) s.
Proof. intros Hu Hn Hb. split; [by apply unencrypted_read|by apply unencrypted_write]. Qed.

(** ** The instance

    A socket without encryption is a connection in the sense of [Socket].  A call
    with nothing to read or write, which the code stops with a check, is an
    error here. *)
Record PlainSocket := mkPlainSocket { plain : S; plain_unencrypted : unencrypted plain }.
Definition keep_plain (p : PlainSocket) (s : S) : PlainSocket :=
  match Bool.bool_dec (isSet (encryptionParams_ s)) false with left Hs => mkPlainSocket s Hs | right _ => p end.
Lemma keep_plain_os p s : unencrypted s -> os (plain (keep_plain p s)) = os s.
Proof. intros Hs. unfold keep_plain. by destruct (Bool.bool_dec _ _). Qed.
Context (retry : bool) (abort_code : W -> ErrorCode * W) (heart_beat : W -> bool * W).
Hypothesis abort_code_quiet : forall w e w', abort_code w = (e, w') -> quiet wire_in wire_out patience w w'.
Hypothesis heart_beat_quiet : forall w e w', heart_beat w = (e, w') -> quiet wire_in wire_out patience w w'.

#[local] Instance Plain_socket : Socket PlainSocket := {
  sock_write bs p := match write o bs retry (plain p) with Some (r, s) => (r, keep_plain p s) | None => (-1, p) end;
  sock_read n tryFull p :=
    match read o n tryFull (plain p) with Some (r, bs, s) => (r, bs, keep_plain p s) | None => (-1, [], p) end;
  abortCode p := let '(e, w) := abort_code (os (plain p)) in (e, keep_plain p (plain p <| os := w |>));
  heartBeatDue p := let '(b, w) := heart_beat (os (plain p)) in (b, keep_plain p (plain p <| os := w |>))
}.
Definition Plain_laws : SocketLaws PlainSocket.
Proof using abort_code_quiet heart_beat_quiet.
  refine {| outgoing p := wire_out (os (plain p)); incoming p := wire_in (os (plain p)) |}.
  - intros bs p n p' E. simpl in E. destruct (decide (bs = [])) as [->|Hne].
    { injection E as <- <-. split; [done|]. exists O. by rewrite app_nil_r. }
    pose proof (unencrypted_write bs retry (plain p) (plain_unencrypted p) Hne) as Hw. unfold wp in Hw.
    destruct (write o bs retry (plain p)) as [[r s]|]; [|done]. injection E as <- <-.
    destruct Hw as (Hu & k & (Ho & Hi & _) & Hr). rewrite keep_plain_os by done. split; [done|].
    destruct Hr as [[-> Hk]| ->]; [exists (length bs); by rewrite Ho, Hk, firstn_all|]. exists k. split; [done|]. lia.
  - intros m tryFull p n bs p' Hm E. simpl in E. destruct (decide (m = 0)) as [->|Hne].
    { injection E as <- <- <-. split; [done|]. left. by split_and!. }
    pose proof (unencrypted_read m (read_timeout_millis o) tryFull (plain p) (plain_unencrypted p) ltac:(lia)) as Hr. unfold wp in Hr.
    unfold read in E. destruct (readWithTimeout _ _ _ _ _) as [[[r bs'] s]|]; [|done]. injection E as <- <- <-.
    destruct Hr as (Hu & more & (Hi & Ho & _) & Hr). rewrite keep_plain_os by done. simpl in Hr. split; [done|].
    destruct Hr as [(? & -> & ->)|(? & -> & ?)]; [left|right]; split_and!; lia || done.
  - intros p e p' E. simpl in E. destruct (abort_code (os (plain p))) as [e' w'] eqn:Ea. injection E as <- <-.
    apply abort_code_quiet in Ea as (Hi & Ho & _). rewrite keep_plain_os by apply p. done.
  - intros p b p' E. simpl in E. destruct (heart_beat (os (plain p))) as [b' w'] eqn:Ea. injection E as <- <-.
    apply heart_beat_quiet in Ea as (Hi & Ho & _). rewrite keep_plain_os by apply p. done.
Defined.
End io.
