(* ===== verification/SocketStream.v ===== *)
(** The encrypted stream: what a socket puts on the connection for the bytes it
    is given, as a reference definition byte by byte, and that writing in pieces
    of any size produces it. *)
From S2P Require Import Prelude Serialization ErrorCodes Protocol ProtocolProps Uri Socket Encryption StateMonad WdtSocket SocketIo.

(** ** The stream

    The state of one direction: the vector in use, what was encrypted with it,
    and the number of bytes since the start. *)
Record Stream := mkStream { st_iv : list Z; st_seen : list Z; st_total : Z }.
Definition extend (st : Stream) (bs : list Z) : Stream := mkStream (st_iv st) (st_seen st ++ bs) (st_total st + Zlen bs).
Lemma extend_app st a b : extend st (a ++ b) = extend (extend st a) b.
Proof. unfold extend. simpl. rewrite app_assoc, Zlen_app. f_equal. lia. Qed.

Section stream.
Context `{OpensslLaws Ctx} (t : EncryptionType) (key : list Z) (interval ivInterval : Z).

(** Whether a tag is due before the next byte, and a new vector behind it. *)
Definition due_at (total : Z) : bool := (0 <? interval) && (0 <? total) && (Z.rem total interval =? 0).
Definition tag_due (st : Stream) : bool := due_at (st_total st).
Definition iv_due (st : Stream) : bool := negb (ivInterval =? 0) && (ivInterval <? Zlen (st_seen st) + interval).
Definition enc (st : Stream) (bs : list Z) : list Z := cipher t key (st_iv st) (st_seen st) bs.
Definition tag (st : Stream) : list Z := tag_of t key (st_iv st) (st_seen st).

(** What goes in front of a byte. *)
Inductive opens (st : Stream) : list Z -> Stream -> Prop :=
  | opens_data : tag_due st = false -> opens st [] st
  | opens_tag : tag_due st = true -> iv_due st = false -> opens st (tag st) st
  | opens_iv iv : tag_due st = true -> iv_due st = true -> Zlen iv = kAESBlockSize ->
      opens st (tag st ++ iv) (mkStream iv [] (st_total st)).
(** [frames st plain wire st']: the bytes [plain] make [wire]. *)
Inductive frames : Stream -> list Z -> list Z -> Stream -> Prop :=
  | frames_nil st : frames st [] [] st
  | frames_cons st pre st1 b bs w st2 :
      opens st pre st1 -> frames (extend st1 [b]) bs w st2 -> frames st (b :: bs) (pre ++ enc st1 [b] ++ w) st2.

Lemma enc_app st a b : enc st (a ++ b) = enc st a ++ enc (extend st a) b.
Proof. unfold enc. apply cipher_app. Qed.
Lemma enc_nil st : enc st [] = [].
Proof. apply length_zero_iff_nil. unfold enc. by rewrite cipher_length. Qed.
Lemma frames_app st a w st1 b w' st2 : frames st a w st1 -> frames st1 b w' st2 -> frames st (a ++ b) (w ++ w') st2.
Proof. induction 1; intros Hb; [done|]. rewrite <- !app_assoc. econstructor; eauto. Qed.

(** No tag is due inside the next [n] bytes; one may be due in front of them. *)
Definition clear (n : Z) (st : Stream) : Prop := forall i, 1 <= i < n -> due_at (st_total st + i) = false.
(** As [frames], the first byte without what goes in front of it. *)
Inductive body : Stream -> list Z -> list Z -> Stream -> Prop :=
  | body_nil st : body st [] [] st
  | body_cons st b bs w st2 : frames (extend st [b]) bs w st2 -> body st (b :: bs) (enc st [b] ++ w) st2.

Lemma extend_nil st : extend st [] = st.
Proof. unfold extend. rewrite app_nil_r, Z.add_0_r. by destruct st. Qed.
Lemma clear_step n st b : clear n st -> 1 < n -> tag_due (extend st [b]) = false /\ clear (n - 1) (extend st [b]).
Proof.
  intros Hc Hn. split.
  - apply (Hc 1). lia.
  - intros i Hi. cbn [extend st_total]. replace (st_total st + Zlen [b] + i) with (st_total st + (1 + i)) by (simpl; lia). apply Hc. lia.
Qed.
Lemma clear_mono n m st : clear n st -> m <= n -> clear m st.
Proof. intros Hc Hm i Hi. apply Hc. lia. Qed.
Lemma body_frames st plain w st2 : tag_due st = false -> body st plain w st2 -> frames st plain w st2.
Proof.
  intros Hd Hb. inversion Hb as [|? b bs w' ? Hf]; subst; [constructor|].
  change (enc st [b] ++ w') with ([] ++ enc st [b] ++ w'). econstructor; [by constructor|done].
Qed.
Lemma frames_body st plain w st2 : tag_due st = false -> frames st plain w st2 -> body st plain w st2.
Proof.
  intros Hd Hf. inversion Hf as [|? pre st1 b bs w' ? Hop Hf']; subst; [constructor|].
  inversion Hop; subst; [|congruence..]. by constructor.
Qed.
Lemma frames_opens st plain w st2 : frames st plain w st2 -> plain <> [] ->
  exists pre st1 w1, opens st pre st1 /\ w = pre ++ w1 /\ body st1 plain w1 st2.
Proof. intros [|? ? ? ? ? ? ? Hop Hf]; [done|]. intros _. eexists _, _, _. split; [done|]. split; [done|]. by constructor. Qed.

(** Bytes without a tag between them are encrypted in one go. *)
Lemma body_data bs st : clear (Zlen bs) st -> body st bs (enc st bs) (extend st bs).
Proof.
  revert st. induction bs as [|b bs IH]; intros st Hc; [rewrite enc_nil, extend_nil; constructor|].
  change (b :: bs) with ([b] ++ bs). rewrite enc_app, extend_app. simpl app at 1. constructor.
  destruct bs as [|b' bs]; [rewrite enc_nil, extend_nil; constructor|].
  destruct (clear_step _ _ b Hc) as [Hd Hc']; [simpl; lia|].
  apply body_frames; [done|]. apply IH. rewrite Zlen_cons in Hc'. by replace (1 + Zlen (b' :: bs) - 1) with (Zlen (b' :: bs)) in Hc' by lia.
Qed.
Lemma frames_data st pre st1 bs : opens st pre st1 -> bs <> [] -> clear (Zlen bs) st -> frames st bs (pre ++ enc st1 bs) (extend st1 bs).
Proof.
  intros Hop Hne Hc. assert (clear (Zlen bs) st1) as Hc1 by (by destruct Hop). apply body_data in Hc1. inversion Hc1; subst; [done|].
  by econstructor.
Qed.
(** And what is read from them is a piece of the plain text. *)
Lemma body_split more rest n st plain st2 :
  body st plain (more ++ rest) st2 -> clear n st -> more <> [] -> Zlen more <= n ->
  exists a b, plain = a ++ b /\ more = enc st a /\ frames (extend st a) b rest st2.
Proof.
  revert n st plain. induction more as [|x more IH]; intros n st plain Hb Hc Hcons Hn; [done|].
  inversion Hb as [|? b bs w ? Hf]; subst. clear Hcons.
  assert (length (enc st [b]) = 1%nat) as Hl by (unfold enc; by rewrite cipher_length).
  destruct (enc st [b]) as [|y [|]] eqn:Ey; try done. simpl in *. simplify_eq. destruct (decide (more = [])) as [->|Hne].
  { exists [b], bs. split_and!; [done|by rewrite Ey|done]. }
  destruct (clear_step _ _ b Hc) as [Hd Hc']; [destruct more; [done|simpl in *; lia]|].
  apply (frames_body _ _ _ _ Hd) in Hf.
  destruct (IH _ _ _ Hf Hc' Hne ltac:(lia)) as (a & b' & -> & -> & Hrest). exists (b :: a), b'. split_and!; [done| |].
  - change (b :: a) with ([b] ++ a). by rewrite enc_app, Ey.
  - change (b :: a) with ([b] ++ a). by rewrite extend_app.
Qed.
(** Every text can be framed. *)
Lemma opens_total st : exists pre st1, opens st pre st1.
Proof.
  destruct (tag_due st) eqn:Ht; [|eexists _, _; by constructor].
  destruct (iv_due st) eqn:Hi; [|eexists _, _; by constructor 2].
  eexists _, _. apply (opens_iv _ (replicate (Z.to_nat kAESBlockSize) 0)); [done..|]. by rewrite length_replicate.
Qed.
Lemma frames_total bs st : exists w st', frames st bs w st'.
Proof.
  revert st. induction bs as [|b bs IH]; intros st; [eexists _, _; constructor|].
  destruct (opens_total st) as (pre & st1 & Hop). destruct (IH (extend st1 [b])) as (w & st' & Hf). eexists _, _. by econstructor.
Qed.

(** ** Where the tags are *)

Lemma nextTag_bounds total : 0 <= total -> 0 < interval -> 0 <= computeNextTagOffset total interval <= interval.
Proof.
  intros Ht Hi. unfold computeNextTagOffset. rewrite Z.rem_mod_nonneg by lia. pose proof (Z.mod_pos_bound total interval Hi).
  repeat case_match; lia.
Qed.
Lemma nextTag_zero total : 0 <= total -> 0 < interval -> computeNextTagOffset total interval = 0 <-> due_at total = true.
Proof.
  intros Ht Hi. unfold computeNextTagOffset, due_at. rewrite Z.rem_mod_nonneg by lia. pose proof (Z.mod_pos_bound total interval Hi).
  destruct (Z.eqb_spec total 0) as [->|].
  { simpl. rewrite andb_false_r. split; [lia|done]. }
  rewrite !andb_true_iff, !Z.ltb_lt, Z.eqb_eq. case_match; bool_to_prop; lia.
Qed.
Lemma due_mod total : 0 <= total -> due_at total = true <-> 0 < interval /\ 0 < total /\ total mod interval = 0.
Proof.
  intros Ht. unfold due_at. rewrite !andb_true_iff, !Z.ltb_lt, Z.eqb_eq. split; intros [[? ?] ?] || intros (? & ? & ?);
    rewrite Z.rem_mod_nonneg in * by lia; tauto.
Qed.
(** Up to the next tag. *)
Lemma nextTag_clear total i : 0 <= total -> 0 < interval -> 0 <= i < computeNextTagOffset total interval -> due_at (total + i) = false.
Proof.
  intros Ht Hi Hr. apply not_true_iff_false. intros Hd. apply due_mod in Hd as (_ & Hp & Hm); [|lia].
  unfold computeNextTagOffset in Hr. rewrite Z.rem_mod_nonneg in Hr by lia. pose proof (Z.mod_pos_bound total interval Hi).
  destruct (Z.eqb_spec total 0) as [->|]; [rewrite Z.mod_small in Hm; lia|].
  case_match; bool_to_prop; [lia|]. rewrite Z.add_mod, (Z.mod_small i) in Hm by lia. 
  rewrite Z.mod_small in Hm by lia. lia.
Qed.
Lemma nextTag_due total : 0 <= total -> 0 < interval -> due_at (total + computeNextTagOffset total interval) = true.
Proof.
  intros Ht Hi. apply due_mod; [pose proof (nextTag_bounds total Ht Hi); lia|]. unfold computeNextTagOffset. rewrite Z.rem_mod_nonneg by lia.
  pose proof (Z.mod_pos_bound total interval Hi). destruct (Z.eqb_spec total 0) as [->|].
  { split_and!; [lia|lia|]. by rewrite Z.mod_same by lia. }
  case_match; bool_to_prop; [split_and!; [lia|lia|]; rewrite Z.add_0_r; lia|]. split_and!; [lia|lia|].
  rewrite Z.add_mod, Zminus_mod, Z.mod_same, Z.mod_mod by lia. rewrite Z.sub_0_l. 
  rewrite <- Z.add_mod_idemp_l by lia. rewrite <- Z.add_mod by lia.
  replace (total mod interval + - (total mod interval)) with 0 by lia. apply Z.mod_0_l. lia.
Qed.
(** Behind a tag. *)
Lemma due_clear st : due_at (st_total st) = true -> 0 <= st_total st -> clear interval st.
Proof.
  intros Hd Ht i Hi. apply due_mod in Hd as (Hp & _ & Hm); [|lia]. apply not_true_iff_false. intros Hd.
  apply due_mod in Hd as (_ & _ & Hm'); [|lia]. rewrite Z.add_mod, Hm, Z.add_0_l, Z.mod_mod, Z.mod_small in Hm' by lia. lia.
Qed.
End stream.
