(* ===== verification/SocketWriter.v ===== *)
(** Writing to an encrypted socket: whatever pieces the bytes are written in, what
    goes over the connection are their frames ([SocketStream]). *)
From S2P Require Import Prelude Serialization ErrorCodes Protocol ProtocolProps Uri Socket Encryption StateMonad WdtSocket SocketIo SocketStream.

Section writer.
Context `{Host} {Ctx W : Type} `{OpensslLaws Ctx} `{SocketOsLaws W} (o : SocketOptions).
Abbreviation S := (WdtSocket Ctx W).
Abbreviation T := (M S).
Implicit Types (s : S).
Context (t : EncryptionType) (key : list Z) (interval ivInterval : Z).
Abbreviation enc := (SocketStream.enc t key).
Abbreviation opens := (SocketStream.opens t key interval ivInterval).
Abbreviation frames := (SocketStream.frames t key interval ivInterval).
Implicit Types (st : Stream).

(** The socket is set to encrypt, has not failed, and its encryptor is where the
    stream is; the count of the bytes matters only with tags. *)
Definition encrypting_at st s : Prop :=
  encryptionParams_ s = mkEncryptionParams t key /\ t <> ENC_NONE /\ encryptionSettingsWritten_ s = true
  /\ encrypts (encryptor_ s) t key (st_iv st) (st_seen st) /\ writeTagInterval_ s = interval
  /\ ivChangeInterval_ s = ivInterval /\ writeErrorCode_ s = OK /\ (0 < interval -> t = ENC_AES128_GCM).
Definition writer st s : Prop := encrypting_at st s /\ 0 <= st_total st /\ (0 < interval -> totalWritten_ s = st_total st).
(** [w] is sent and the socket is then [good], or a part of it and the socket
    has failed. *)
Definition puts (w : list Z) (good : S -> Prop) (ok : Prop) s s' : Prop :=
  exists sent, sent `prefix_of` w /\ sends sent (os s) (os s')
    /\ (ok /\ sent = w /\ good s' \/ ~ ok /\ writeErrorCode_ s' <> OK).

Lemma moved_writing_encrypting st s s' :
  moved_writing s s' -> writeErrorCode_ s' = OK -> encrypting_at st s -> encrypting_at st s'.
Proof. intros (s1 & (e & w & ->) & ->) Hok (? & ? & ? & ? & ? & ? & ? & ?). by split_and!. Qed.
Lemma moved_writing_total s s' : moved_writing s s' -> totalWritten_ s' = totalWritten_ s.
Proof. by intros (s1 & (e & w & ->) & ->). Qed.
Lemma wp_onEncryptor {A} (f : AESBase Ctx -> option (A * AESBase Ctx)) Q s :
  wp (onEncryptor f) Q s <-> exists a e, f (encryptor_ s) = Some (a, e) /\ Q a (s <| encryptor_ := e |>).
Proof. unfold wp, onEncryptor. destruct (f (encryptor_ s)) as [[a e]|]; naive_solver. Qed.

Lemma encryptAndWrite_spec st buf timeoutMs retry s :
  encrypting_at st s -> buf <> [] ->
  wp (encryptAndWrite o buf timeoutMs retry)
    (fun r s' => (r = Zlen buf \/ r = -1)
       /\ puts (enc st buf) (fun s' => encrypting_at (extend st buf) s' /\ totalWritten_ s' = totalWritten_ s) (r = Zlen buf) s s') s.
Proof.
  intros He Hne. destruct He as (Hp & Ht & Hw & Henc & Hi & Hv & Hok & Htag). unfold encryptAndWrite, encryptionSet.
  assert (0 < Zlen buf) as Hpos by (destruct buf; [done|simpl; lia]).
  rewrite wp_bind, wp_check. split; [by apply Z.ltb_lt|]. rewrite wp_bind, wp_gets, wp_bind, wp_check, Hp. split; [unfold isSet; by rewrite bool_decide_eq_false_2|].
  rewrite wp_bind, wp_onEncryptor. destruct (encrypt_spec _ _ _ _ _ buf Henc) as (ok & out & a' & E & Hspec).
  exists (ok, out), a'. split; [done|]. destruct ok; cbn [negb].
  2:{ unfold setWriteError. rewrite wp_bind, wp_modify, wp_ret. split; [by right|]. exists []. split; [apply prefix_nil|].
      split; [by apply sends_nil|]. right. split; [lia|done]. }
  destruct (Hspec eq_refl) as [-> Hen']. clear Hspec. rewrite wp_bind. set (s1 := s <| encryptor_ := a' |>).
  eapply wp_mono; [|apply writeInternal_spec]. intros r s' (Hm & k & Hs & Hr). rewrite wp_bind, cipher_length in *.
  change (os s1) with (os s) in Hs. change (writeErrorCode_ s1) with (writeErrorCode_ s) in Hr. rewrite Hok in Hr.
  assert (take k (enc st buf) `prefix_of` enc st buf) as Hpre by (eexists; symmetry; apply take_drop).
  destruct Hr as [(-> & Hall & Herr)|(-> & Herr)].
  - rewrite Z.eqb_refl. cbn [negb]. rewrite !wp_ret. split; [by left|]. exists (take k (enc st buf)). split_and!; [done..|]. left. split; [done|].
    split; [done|]. split; [|by rewrite (moved_writing_total _ _ Hm)]. apply (moved_writing_encrypting _ s1); [done..|].
    split_and!; done.
  - destruct (Z.eqb_spec (-1) (Zlen buf)); [lia|]. unfold setWriteError. cbn [negb]. rewrite wp_modify, wp_ret. split; [by right|].
    exists (take k (enc st buf)). split_and!; [done..|]. right. split; [lia|done].
Qed.

(** ** A tag *)

(** In GCM a tag has sixteen bytes, so an empty one is always a failure. *)
Lemma writeEncryptionTag_spec st s :
  encrypting_at st s -> t = ENC_AES128_GCM ->
  wp (writeEncryptionTag o)
    (fun ok s' => puts (tag t key st) (fun s' => encrypting_at st s' /\ totalWritten_ s' = totalWritten_ s) (ok = true) s s') s.
Proof.
  intros He Ht. pose proof He as (Hp & _ & Hw & Henc & Hi & Hv & Hok & Htag). unfold writeEncryptionTag.
  rewrite wp_bind, wp_onEncryptor. rewrite Ht in Henc. destruct (computeCurrentTag_spec _ _ _ _ Henc) as (tg & -> & Htg).
  exists tg, (encryptor_ s). split; [done|]. set (s1 := s <| encryptor_ := encryptor_ s |>). case_bool_decide as Hnil.
  { unfold setWriteError. rewrite wp_bind, wp_modify, wp_ret. exists []. split; [apply prefix_nil|]. split; [by apply sends_nil|]. by right. }
  rewrite (Htg Hnil) in *. clear Htg Hnil tg. rewrite wp_bind. eapply wp_mono; [|apply writeInternal_spec].
  intros r s' (Hm & k & Hs & Hr). rewrite wp_ret. change (writeErrorCode_ s1) with (writeErrorCode_ s) in Hr. rewrite Hok in Hr.
  unfold tag. rewrite Ht. exists (take k (tag_of ENC_AES128_GCM key (st_iv st) (st_seen st))).
  split; [eexists; symmetry; apply take_drop|]. split; [done|].
  destruct Hr as [(-> & Hall & Herr)|(-> & Herr)].
  - rewrite Z.eqb_refl. left. split; [done|]. split; [done|]. split; [|by rewrite (moved_writing_total _ _ Hm)].
    apply (moved_writing_encrypting _ s1); [done..|]. by destruct s.
  - destruct (Z.eqb_spec (-1) (Zlen (tag_of ENC_AES128_GCM key (st_iv st) (st_seen st)))); [lia|]. right. by rewrite Herr.
Qed.
(** A new encryptor with a vector of its own. *)
Lemma startEncryptor_spec s :
  encryptionParams_ s = mkEncryptionParams t key -> encryptor_ s = AESBase_new ->
  wp startEncryptor (fun r s' => exists w e, s' = s <| os := w |> <| encryptor_ := e |> /\ quiet wire_in wire_out patience (os s) w
    /\ (r.1 = true -> encrypts e t key r.2 [] /\ Zlen r.2 = kAESBlockSize)) s.
Proof.
  intros Hp He. unfold startEncryptor. rewrite wp_bind, wp_gets, Hp, wp_bind, wp_onOs, wp_onEncryptor.
  destruct (RAND_bytes (os s)) as [random w] eqn:Er. apply RAND_spec in Er as [Hq Hlen]. simpl. rewrite He.
  destruct (encryptor_start_total (mkEncryptionParams t key) random) as [[[ok iv] a] E]. exists (ok, iv), a. split; [done|].
  exists w, a. split; [done|]. split; [done|]. simpl. intros ->. apply encryptor_start_spec in E as (-> & ? & _); [|done]. eauto.
Qed.
Lemma checkAndChangeEncryptionIv_spec st s :
  encrypting_at st s ->
  wp (checkAndChangeEncryptionIv o)
    (fun ok s' => iv_due interval ivInterval st = false /\ ok = true /\ s' = s
       \/ iv_due interval ivInterval st = true /\ exists iv sent, Zlen iv = kAESBlockSize /\ sent `prefix_of` iv /\ sends sent (os s) (os s')
          /\ (ok = true /\ sent = iv /\ encrypting_at (mkStream iv [] (st_total st)) s' /\ totalWritten_ s' = totalWritten_ s \/ ok = false)) s.
Proof.
  intros (Hp & Ht & Hw & Henc & Hi & Hv & Hok & Htag). unfold checkAndChangeEncryptionIv. rewrite wp_bind, wp_gets. unfold id.
  rewrite Hi, Hv. pose proof Henc as (_ & _ & Hn & _). rewrite Hn. unfold iv_due.
  destruct (ivInterval =? 0); [rewrite wp_ret; by left|]. cbn [negb andb]. rewrite Z.leb_antisym.
  destruct (ivInterval <? Zlen (st_seen st) + interval); cbn [negb]; [|rewrite wp_ret; by left].
  unfold resetEncryptor. rewrite wp_bind, wp_modify, wp_bind. eapply wp_mono; [|by apply startEncryptor_spec].
  intros [ok iv] s' (w & e & -> & Hq & Hspec). simpl in Hspec. destruct ok; cbn [negb].
  2:{ rewrite wp_ret. right. split; [done|]. exists (replicate (Z.to_nat kAESBlockSize) 0), [].
      split_and!; [by rewrite length_replicate|apply prefix_nil|by apply sends_nil|by right]. }
  destruct (Hspec eq_refl) as [Hen Hl]. rewrite wp_bind, wp_check. split; [by rewrite Hl|]. set (s1 := s <| encryptor_ := _ |> <| os := _ |> <| encryptor_ := _ |>).
  rewrite wp_bind. eapply wp_mono; [|apply writeInternal_spec]. intros r s' (Hm & k & Hs & Hr). rewrite wp_ret. right. split; [done|].
  exists iv, (take k iv). split; [done|]. split; [eexists; symmetry; apply take_drop|].
  split; [change (take k iv) with ([] ++ take k iv); eapply sends_trans; [by apply sends_nil|exact Hs]|].
  destruct Hr as [(-> & Hall & Herr)|(-> & Herr)]; [left|by right]. rewrite Hl. split_and!; [done..| |].
  - apply (moved_writing_encrypting _ s1); [done|by rewrite Herr|]. by split_and!.
  - by rewrite (moved_writing_total _ _ Hm).
Qed.
Lemma putTag_spec st s :
  encrypting_at st s -> tag_due interval st = true ->
  wp (putTag o) (fun ok s' => exists pre st1, opens st pre st1
    /\ puts pre (fun s' => encrypting_at st1 s' /\ totalWritten_ s' = totalWritten_ s) (ok = true) s s') s.
Proof.
  intros He Hd. assert (t = ENC_AES128_GCM) as Ht.
  { destruct He as (_ & _ & _ & _ & _ & _ & _ & Ht). apply Ht. unfold tag_due, due_at in Hd. bool_to_prop. tauto. }
  unfold putTag. rewrite wp_bind. eapply wp_mono; [|by apply (writeEncryptionTag_spec st)].
  intros ok s1 (sent & Hpre & Hs & Hr). destruct ok; cbn [negb].
  2:{ rewrite wp_ret. destruct Hr as [(? & _)|[_ Herr]]; [done|].
      assert (exists pre st1, opens st pre st1 /\ tag t key st `prefix_of` pre) as (pre & st1 & Hop & Hpp).
      { destruct (opens_total t key interval ivInterval st) as (pre & st1 & Hop). exists pre, st1. split; [done|].
        destruct Hop; [congruence|done|by eexists]. }
      exists pre, st1. split; [done|]. exists sent. split; [by etrans|]. split; [done|]. by right. }
  destruct Hr as [(_ & -> & He1 & Htot)|[? _]]; [|done]. clear Hpre. rewrite wp_bind.
  eapply wp_mono; [|by apply (checkAndChangeEncryptionIv_spec st)].
  intros ok s2 [(Hdue & -> & ->)|(Hdue & iv & sent & Hl & Hpre & Hs2 & Hr)].
  { cbn [negb]. rewrite wp_ret. exists (tag t key st), st. split; [by constructor 2|]. exists (tag t key st).
    split; [done|]. split; [done|]. by left. }
  assert (sends (tag t key st ++ sent) (os s) (os s2)) as Hss by (by eapply sends_trans).
  assert (opens st (tag t key st ++ iv) (mkStream iv [] (st_total st))) as Hop by (by constructor 3).
  destruct ok; cbn [negb].
  - destruct Hr as [(_ & -> & ? & ?)|?]; [|done]. rewrite wp_ret. eexists _, _. split; [done|]. eexists. split; [|split; [done|]]; [done|].
    left. split_and!; [done..|congruence].
  - unfold setWriteError. rewrite wp_bind, wp_modify, wp_ret. eexists _, _. split; [done|]. exists (tag t key st ++ sent).
    split; [by apply prefix_app|]. split; [done|]. by right.
Qed.

(** ** Bytes *)

(** What a write of [bs] does: all their frames are sent, or a part of them. *)
Definition wrote st (bs : list Z) (ok : Prop) s s' : Prop :=
  exists w st', frames st bs w st' /\ puts w (writer st') ok s s'.
Lemma wrote_after st st1 a w b ok s s1 s' :
  frames st a w st1 -> sends w (os s) (os s1) -> wrote st1 b ok s1 s' -> wrote st (a ++ b) ok s s'.
Proof.
  intros Hf Hs (w' & st' & Hf' & sent & Hpre & Hs' & Hr). exists (w ++ w'), st'. split; [by eapply frames_app|].
  exists (w ++ sent). split; [by apply prefix_app|]. split; [by eapply sends_trans|]. destruct Hr as [(? & -> & ?)|?]; auto.
Qed.
Lemma wrote_part st st1 a w b (ok : Prop) sent s s' :
  frames st a w st1 -> sent `prefix_of` w -> sends sent (os s) (os s') -> ~ ok -> writeErrorCode_ s' <> OK -> wrote st (a ++ b) ok s s'.
Proof.
  intros Hf Hpre Hs Hno Herr. destruct (frames_total t key interval ivInterval b st1) as (w' & st' & Hf').
  exists (w ++ w'), st'. split; [by eapply frames_app|]. exists sent. split; [by apply prefix_app_r|]. auto.
Qed.
Lemma frames_clear st bs : tag_due interval st = false -> clear interval (Zlen bs) st -> frames st bs (enc st bs) (extend st bs).
Proof.
  intros Hd Hc. destruct (decide (bs = [])) as [->|Hne]; [rewrite enc_nil, extend_nil; constructor|].
  change (enc st bs) with ([] ++ enc st bs). apply frames_data; [by constructor|done..].
Qed.
Lemma frames_to_tag st bs :
  0 < interval -> 0 <= st_total st -> Zlen bs <= computeNextTagOffset (st_total st) interval -> frames st bs (enc st bs) (extend st bs).
Proof.
  intros Hi Ht Hn. destruct (decide (bs = [])) as [->|Hne]; [rewrite enc_nil, extend_nil; constructor|].
  assert (0 < Zlen bs) by (destruct bs; [done|simpl; lia]). apply frames_clear.
  - unfold tag_due. rewrite <- (Z.add_0_r (st_total st)). apply nextTag_clear; lia.
  - intros i Hr. apply nextTag_clear; lia.
Qed.

Lemma writeRest_spec st buf written timeoutMs retry s :
  encrypting_at st s -> 0 <= st_total st -> 0 <= written < Zlen buf ->
  totalWritten_ s = st_total st ->
  wp (writeRest o buf written timeoutMs retry)
    (fun r s' => (r = Zlen buf \/ r = -1)
       /\ puts (enc st (drop (Z.to_nat written) buf)) (writer (extend st (drop (Z.to_nat written) buf))) (r = Zlen buf) s s') s.
Proof.
  intros He Ht Hw Htot. unfold writeRest. rewrite wp_bind. set (b := drop (Z.to_nat written) buf).
  assert (Zlen b = Zlen buf - written) as Hl by (unfold b; rewrite length_drop; lia).
  eapply wp_mono; [|apply (encryptAndWrite_spec st); [done|intros Hn; rewrite Hn in Hl; change (Zlen []) with 0 in Hl; lia]].
  intros r s' (Hr & sent & Hpre & Hs & Hcase). rewrite Hl in *. destruct Hcase as [(-> & -> & He' & Ht')|[Hno Herr]].
  - rewrite Z.eqb_refl. cbn [negb]. unfold addWritten. rewrite wp_bind, wp_modify, wp_ret. split; [by left|]. exists (enc st b).
    split_and!; [done|by destruct Hs|]. left. split_and!; [done..|]. split; [exact He'|]. simpl. split; [lia|]. intros _. rewrite Ht', Htot. lia.
  - destruct (Z.eqb_spec r (Zlen buf - written)); [done|]. cbn [negb]. rewrite wp_ret. split; [by right|]. exists sent.
    split_and!; [done..|]. right. split; [lia|done].
Qed.
Lemma writeToTag_spec st buf n timeoutMs retry s :
  writer st s -> 0 < interval -> 0 <= n <= Zlen buf ->
  wp (writeToTag o buf n timeoutMs retry)
    (fun r s' => (r = Some n \/ r = None)
       /\ puts (enc st (take (Z.to_nat n) buf)) (writer (extend st (take (Z.to_nat n) buf))) (r = Some n) s s') s.
Proof.
  intros [He [Ht Htot]] Hi Hn. unfold writeToTag. destruct (Z.ltb_spec 0 n).
  2:{ assert (n = 0) as -> by lia. rewrite wp_ret. split; [by left|]. rewrite enc_nil, extend_nil. exists [].
      split; [done|]. split; [by apply sends_nil|]. left. by split_and!. }
  set (a := take (Z.to_nat n) buf). assert (Zlen a = n) as Hl by (unfold a; rewrite length_take; lia).
  rewrite wp_bind. eapply wp_mono; [|apply (encryptAndWrite_spec st); [done|intros Hnil; rewrite Hnil in Hl; change (Zlen []) with 0 in Hl; lia]].
  intros r s' (Hr & sent & Hpre & Hs & Hcase). rewrite Hl in *. destruct Hcase as [(-> & -> & He' & Ht')|[Hno Herr]].
  - rewrite Z.eqb_refl. cbn [negb]. unfold addWritten. rewrite wp_bind, wp_modify, wp_ret. split; [by left|]. exists (enc st a).
    split_and!; [done|by destruct Hs|]. left. split_and!; [done..|]. split; [exact He'|]. simpl. split; [lia|]. intros _. rewrite Ht', Htot by done. lia.
  - destruct (Z.eqb_spec r n); [done|]. cbn [negb]. rewrite wp_ret. split; [by right|]. exists sent.
    split_and!; [done..|]. by right.
Qed.
Lemma encryptAndWriteWithTag_spec st buf timeoutMs retry s :
  writer st s -> 0 < interval -> buf <> [] -> Zlen buf <= interval ->
  wp (encryptAndWriteWithTag o buf timeoutMs retry) (fun r s' => (r = Zlen buf \/ r = -1) /\ wrote st buf (r = Zlen buf) s s') s.
Proof.
  intros Hwr Hi Hne Hle. pose proof Hwr as [(_ & _ & _ & _ & Hint & _) [Ht Htot]]. unfold encryptAndWriteWithTag.
  assert (0 < Zlen buf) as Hpos by (destruct buf; [done|simpl; lia]).
  rewrite wp_bind, wp_gets, Hint, wp_bind, wp_check. split; [by apply Z.ltb_lt|]. rewrite wp_bind, wp_check. split; [by apply Z.leb_le|].
  rewrite wp_bind, wp_gets, Htot by done. pose proof (nextTag_bounds interval (st_total st) Ht Hi) as Hb.
  set (off := computeNextTagOffset (st_total st) interval) in *. destruct (Z.ltb_spec off (Zlen buf)) as [Hlt|Hge].
  2:{ eapply wp_mono; [|apply (writeRest_spec st); [apply Hwr|done|lia|auto]]. intros r s' [Hr Hp]. split; [done|].
      rewrite drop_0 in Hp. eexists _, _. split; [|exact Hp]. by apply frames_to_tag. }
  assert (frames st (take (Z.to_nat off) buf) (enc st (take (Z.to_nat off) buf)) (extend st (take (Z.to_nat off) buf))) as Hfa.
  { apply frames_to_tag; [done..|]. rewrite length_take. fold off. lia. }
  rewrite wp_bind. eapply wp_mono; [|apply (writeToTag_spec st); [done..|lia]]. intros r s1 (Hr & sent & Hpre & Hs & Hcase).
  destruct Hr as [-> | ->].
  2:{ rewrite wp_ret. split; [by right|]. destruct Hcase as [(? & _)|[_ Herr]]; [done|]. rewrite <- (take_drop (Z.to_nat off) buf).
      eapply wrote_part; [exact Hfa|exact Hpre|exact Hs|rewrite take_drop; lia|done]. }
  destruct Hcase as [(_ & -> & Hwr1)|[? _]]; [|done]. set (st1 := extend st (take (Z.to_nat off) buf)) in *.
  assert (tag_due interval st1 = true) as Hdue.
  { unfold tag_due, st1. cbn [extend st_total]. rewrite length_take. replace (Zlen buf) with (Z.of_nat (length buf)) in * by done.
    replace (Z.of_nat (Z.to_nat off `min` length buf)) with off by lia. by apply nextTag_due. }
  pose proof Hwr1 as [He1 [Ht1 Htot1]].
  rewrite wp_bind, wp_gets, wp_bind, wp_check, Htot1 by done.
  split; [unfold tag_due, due_at in Hdue; by apply andb_true_iff in Hdue as [_ ?]|].
  rewrite wp_bind. eapply wp_mono; [|by apply (putTag_spec st1)]. intros ok s2 (pre & st2 & Hop & sent & Hpre2 & Hs2 & Hcase).
  assert (frames st1 (drop (Z.to_nat off) buf) (pre ++ enc st2 (drop (Z.to_nat off) buf)) (extend st2 (drop (Z.to_nat off) buf))) as Hfb.
  { apply frames_data; [done| |].
    - intros Hn. apply (f_equal length) in Hn. rewrite length_drop in Hn. simpl in Hn. lia.
    - eapply clear_mono; [by apply due_clear|]. rewrite length_drop. lia. }
  assert (wrote st buf = wrote st (take (Z.to_nat off) buf ++ drop (Z.to_nat off) buf)) as Hsplit by (by rewrite take_drop).
  destruct ok; cbn [negb].
  2:{ rewrite wp_ret. split; [by right|]. destruct Hcase as [(? & _)|[_ Herr]]; [done|].
      rewrite Hsplit. eapply wrote_after; [exact Hfa|exact Hs|]. rewrite <- (app_nil_r (drop _ _)). eapply wrote_part; [exact Hfb| |exact Hs2|lia|done].
      by apply prefix_app_r. }
  destruct Hcase as [(_ & -> & He2 & Htot2)|[? _]]; [|done].
  assert (st_total st2 = st_total st1) as Est by (by destruct Hop).
  eapply wp_mono; [|apply (writeRest_spec st2); [done|lia|lia|rewrite Htot2, Est; auto]]. intros r s3 (Hr & sent & Hpre3 & Hs3 & Hcase).
  split; [done|]. rewrite Hsplit. eapply wrote_after; [exact Hfa|exact Hs|]. eexists _, _. split; [exact Hfb|]. exists (pre ++ sent).
  split; [by apply prefix_app|]. split; [by eapply sends_trans|]. destruct Hcase as [(-> & -> & ?)|?]; auto.
Qed.

Lemma tagged_loop_spec rounds buf timeoutMs retry written st s :
  writer st s -> 0 < interval -> 0 <= written <= Zlen buf -> (Z.to_nat (Zlen buf - written) <= rounds)%nat ->
  wp (tagged_loop o rounds buf timeoutMs retry written)
    (fun r s' => (r = Zlen buf \/ r = -1) /\ wrote st (drop (Z.to_nat written) buf) (r = Zlen buf) s s') s.
Proof.
  revert written st s. induction rounds as [|rounds IH]; intros written st s Hwr Hi Hw Hn; cbn [tagged_loop];
    (destruct (Z.ltb_spec written (Zlen buf)) as [Hlt|Hge]; cbn [negb];
      [|rewrite wp_ret; assert (written = Zlen buf) as -> by lia; split; [by left|]; rewrite Nat2Z.id, drop_all;
        exists [], st; split; [constructor|]; exists []; split; [done|]; split; [by apply sends_nil|]; by left]); [lia|].
  pose proof Hwr as [(_ & _ & _ & _ & Hint & _) _]. rewrite wp_bind, wp_gets, Hint. set (n := Z.min (Zlen buf - written) interval).
  set (b := drop (Z.to_nat written) buf). assert (Zlen b = Zlen buf - written) as Hb by (unfold b; rewrite length_drop; lia).
  assert (Zlen (take (Z.to_nat n) b) = n) as Hl by (rewrite length_take; lia).
  rewrite wp_bind. eapply wp_mono; [|apply (encryptAndWriteWithTag_spec st); [done|done| |lia]].
  2:{ intros Hnil. rewrite Hnil in Hl. change (Zlen []) with 0 in Hl. lia. }
  intros r s1 (Hr & w & st1 & Hf & sent & Hpre & Hs & Hcase). rewrite Hl in *. 
  assert (b = take (Z.to_nat n) b ++ drop (Z.to_nat n) b) as Hsplit by (by rewrite take_drop).
  destruct Hcase as [(-> & -> & Hwr1)|[Hno Herr]].
  - rewrite Z.eqb_refl. cbn [negb]. eapply wp_mono; [|apply (IH _ st1); [done|done|lia|lia]]. intros r s2 [Hr2 Hw2]. split; [done|].
    rewrite Hsplit. eapply wrote_after; [done|done|]. unfold b. rewrite drop_drop.
    by replace (Z.to_nat written + Z.to_nat n)%nat with (Z.to_nat (written + n)) by lia.
  - destruct (Z.eqb_spec r n); [done|]. cbn [negb]. rewrite wp_ret. split; [by right|]. rewrite Hsplit. eapply wrote_part; [done..|lia|done].
Qed.
Lemma writeData_spec st buf retry s :
  writer st s -> buf <> [] ->
  wp (writeData o buf retry) (fun r s' => (r = Zlen buf \/ r = -1) /\ wrote st buf (r = Zlen buf) s s') s.
Proof.
  intros Hwr Hne. pose proof Hwr as [He [Ht _]]. pose proof He as (Hp & Hset & Hwritten & _ & Hint & _ & Hok & _).
  unfold writeData, encryptionSet. rewrite wp_bind, wp_gets, Hp. unfold isSet. simpl. rewrite bool_decide_eq_false_2 by done. cbn [negb].
  rewrite wp_bind, wp_gets, Hint. destruct (Z.leb_spec interval 0).
  - eapply wp_mono; [|by apply (encryptAndWrite_spec st)]. intros r s' (Hr & sent & Hpre & Hs & Hcase). split; [done|].
    exists (enc st buf), (extend st buf). split.
    { apply frames_clear; [|intros i _]; unfold tag_due, due_at; by replace (0 <? interval) with false by (symmetry; apply Z.ltb_ge; lia). }
    exists sent. split_and!; [done..|]. destruct Hcase as [(? & ? & He' & _)|?]; [left|by right]. split_and!; [done..|].
    split; [done|]. simpl. split; [lia|]. lia.
  - eapply wp_mono; [|apply (tagged_loop_spec _ _ _ _ 0 st); [done|done|lia|lia]]. intros r s'. by rewrite drop_0.
Qed.

(** ** The first write *)

(** The settings in front of everything. *)
Definition opening (iv : list Z) : list Z :=
  ENCRYPTION_CMD :: encryptionBytes (mkEncryptionSettings (EncryptionType_value t) iv interval).
(** A socket that has written nothing yet. *)
Definition fresh_writer s : Prop :=
  encryptionParams_ s = mkEncryptionParams t key /\ t <> ENC_NONE /\ key <> [] /\ encryptionSettingsWritten_ s = false
  /\ encryptor_ s = AESBase_new /\ writeTagInterval_ s = interval /\ ivChangeInterval_ s = ivInterval
  /\ writeErrorCode_ s = OK /\ (0 < interval -> t = ENC_AES128_GCM) /\ totalWritten_ s = 0
  /\ Zlen (buf_ s) = kEncryptionCmdLen /\ nonneg32 interval.
Definition started iv : Stream := mkStream iv [] 0.

Lemma encodeVarU64_small dest sz pos v :
  0 <= pos < sz -> 0 <= v < 128 -> encodeVarU64 dest sz pos v = (true, <[Z.to_nat pos := v]> dest, pos + 1).
Proof.
  intros Hp Hv. unfold encodeVarU64. destruct (Z.ltb_spec pos 0); [lia|].
  assert (forall left, encodeVarU64_loop (Datatypes.S left) dest pos sz 0 v = (true, dest, pos, 1, v)) as ->.
  { intros left. simpl. by destruct (Z.leb_spec 128 v); [lia|]. }
  cbn [negb]. destruct (Z.leb_spec sz pos); [lia|]. rewrite wrapU_small by (unfold inU; lia). done.
Qed.
(** The bound the code gives is one more than the buffer holds; the settings fit
    the buffer, so it makes no difference. *)
Lemma opening_encoded dest iv :
  t <> ENC_NONE -> nonneg32 interval -> Zlen iv = kAESBlockSize -> Zlen dest = kEncryptionCmdLen ->
  exists buf, encodeEncryptionSettings (ENCRYPTION_CMD :: tail dest) 1 (1 + kEncryptionCmdLen)
      (mkEncryptionSettings (EncryptionType_value t) iv interval) = Some (true, buf, kEncryptionCmdLen)
    /\ take (Z.to_nat kEncryptionCmdLen) buf = opening iv.
Proof.
  intros Ht Hi Hl Hd. set (e := mkEncryptionSettings _ _ _). set (dest' := ENCRYPTION_CMD :: tail dest).
  assert (Zlen dest' = kEncryptionCmdLen) as Hd'.
  { unfold dest'. destruct dest; [done|]. by rewrite Zlen_cons in *. }
  assert (wf_encryption e) as Hwf.
  { split; [by destruct t|]. simpl. rewrite Hl. split; [done|exact Hi]. }
  assert (Zlen (encryptionBytes e) = kEncryptionCmdLen - 1) as Hbytes.
  { unfold encryptionBytes, stringBytes, e. simpl es_iv. rewrite Hl, !Zlen_app, Zlen_fixedBytes, Hl by done. by destruct t. }
  exists (list_inserts 1 (encryptionBytes e) dest'). split.
  - transitivity (encodeEncryptionSettings dest' 1 kEncryptionCmdLen e).
    + assert (0 <= EncryptionType_value t < 128) as Hv by (by destruct t).
      unfold encodeEncryptionSettings, enc_and, encI64C, encStr, encFixed, encodeVarI64C, encodeString, encodeIntFixedLength. simpl es_type. simpl es_iv.
      rewrite wrapU_small by (unfold inU; lia). destruct (Z.leb_spec 0 (EncryptionType_value t)); [|lia]. rewrite Hl. simpl.
      rewrite !encodeVarU64_small by done. simpl.
      done.
    + rewrite (Encodes_fits kEncryptionCmdLen _ _ _ _ (encodeEncryptionSettings_encodes kEncryptionCmdLen e Hwf)) by (rewrite ?Hbytes; lia || done).
      by rewrite Hbytes.
  - unfold opening. fold e.
    assert (length (encryptionBytes e) = 22%nat) as Hb by (change (kEncryptionCmdLen - 1) with 22 in Hbytes; lia).
    assert (length dest' = 23%nat) as Hl' by (change kEncryptionCmdLen with 23 in Hd'; lia). change (Z.to_nat kEncryptionCmdLen) with 23%nat.
    rewrite <- Hl', <- (length_inserts dest' 1 (encryptionBytes e)), firstn_all. unfold dest' in *. rewrite list_inserts_cons.
    simpl in Hl'. rewrite <- (app_nil_r (tail dest)), list_inserts_0_r by lia. by rewrite app_nil_r.
Qed.
Lemma writeEncryptionSettingsOnce_spec s :
  fresh_writer s ->
  wp (writeEncryptionSettingsOnce o)
    (fun _ s' => exists iv, Zlen iv = kAESBlockSize /\ puts (opening iv) (writer (started iv)) (writeErrorCode_ s' = OK) s s') s.
Proof.
  intros (Hp & Ht & Hk & Hw & He & Hint & Hv & Hok & Hgcm & Htot & Hbuf & Hi). unfold writeEncryptionSettingsOnce.
  rewrite wp_bind, wp_gets. unfold id. rewrite Hw, Hp. unfold isSet. simpl. rewrite (bool_decide_eq_false_2 (t = ENC_NONE)) by done. cbn [negb orb].
  rewrite wp_bind, wp_check, bool_decide_eq_false_2 by done. split; [done|]. rewrite wp_bind.
  eapply wp_mono; [|by apply startEncryptor_spec]. intros [ok iv] s1 (w & e & -> & Hq & Hspec). simpl in Hspec. destruct ok; cbn [negb].
  2:{ unfold setWriteError. rewrite wp_modify. exists (replicate (Z.to_nat kAESBlockSize) 0). split; [by rewrite length_replicate|].
      exists []. split; [apply prefix_nil|]. split; [by apply sends_nil|]. by right. }
  destruct (Hspec eq_refl) as [Hen Hl]. clear Hspec. destruct (opening_encoded (buf_ s) iv Ht Hi Hl Hbuf) as (buf & Eenc & Htake).
  rewrite wp_bind. unfold wp at 1. set (s0 := s <| os := w |> <| encryptor_ := e |>). change (buf_ s0) with (buf_ s).
  change (writeTagInterval_ s0) with (writeTagInterval_ s). change (encryptionParams_ s0) with (encryptionParams_ s).
  rewrite Hint, Hp. simpl ep_type. rewrite Eenc. rewrite Htake. clear Eenc Htake.
  set (s1 := s0 <| buf_ := buf |>). fold s1.
  rewrite wp_bind. eapply wp_mono; [|apply writeInternal_spec]. intros r s2 (Hm & k & Hs & Hr).
  change (writeErrorCode_ s1) with (writeErrorCode_ s) in Hr. rewrite Hok in Hr.
  assert (sends (take k (opening iv)) (os s) (os s2)) as Hs'.
  { change (take k (opening iv)) with ([] ++ take k (opening iv)). eapply sends_trans; [by apply sends_nil|exact Hs]. }
  assert (take k (opening iv) `prefix_of` opening iv) as Hpre by (eexists; symmetry; apply take_drop).
  destruct Hr as [(-> & Hall & Herr)|(-> & Herr)].
  - rewrite Z.eqb_refl. cbn [negb]. rewrite wp_modify. exists iv. split; [done|]. exists (take k (opening iv)). split_and!; [done|done|].
    left. split_and!; [done..|]. destruct Hm as (s3 & (e' & w' & ->) & ->).
    split; [|split; [simpl; lia|simpl; auto]]. split_and!; done.
  - destruct (Z.eqb_spec (-1) (Zlen (opening iv))); [lia|]. cbn [negb]. rewrite wp_ret. exists iv. split; [done|]. exists (take k (opening iv)).
    split_and!; [done..|]. right. by rewrite Herr.
Qed.

Lemma write_spec st buf retry s :
  writer st s -> buf <> [] ->
  wp (write o buf retry) (fun r s' => (r = Zlen buf \/ r = -1) /\ wrote st buf (r = Zlen buf) s s') s.
Proof.
  intros Hwr Hne. pose proof Hwr as [(Hp & Hset & Hwritten & _ & Hint & _ & Hok & _) _].
  assert (0 < Zlen buf) as Hpos by (destruct buf; [done|simpl; lia]).
  unfold write. rewrite wp_bind, wp_check. split; [by apply Z.ltb_lt|]. rewrite wp_bind, wp_gets, Hok.
  rewrite (bool_decide_eq_true_2 (OK = OK)) by done. cbn [negb]. unfold writeEncryptionSettingsOnce. rewrite !wp_bind, wp_gets. unfold id.
  rewrite Hwritten, orb_true_r, wp_ret, wp_bind, wp_gets, Hok, (bool_decide_eq_true_2 (OK = OK)) by done. by apply writeData_spec.
Qed.
(** What the first write does, and any number of writes after it. *)
Definition wrote_first (bs : list Z) (ok : Prop) s s' : Prop :=
  exists iv w st', Zlen iv = kAESBlockSize /\ frames (started iv) bs w st' /\ puts (opening iv ++ w) (writer st') ok s s'.
Lemma first_write_spec buf retry s :
  fresh_writer s -> buf <> [] ->
  wp (write o buf retry) (fun r s' => (r = Zlen buf \/ r = -1) /\ wrote_first buf (r = Zlen buf) s s') s.
Proof.
  intros Hfr Hne. pose proof Hfr as (_ & _ & _ & _ & _ & _ & _ & Hok & _).
  assert (0 < Zlen buf) as Hpos by (destruct buf; [done|simpl; lia]).
  unfold write. rewrite wp_bind, wp_check. split; [by apply Z.ltb_lt|]. rewrite wp_bind, wp_gets, Hok.
  rewrite (bool_decide_eq_true_2 (OK = OK)) by done. cbn [negb]. rewrite wp_bind.
  eapply wp_mono; [|by apply writeEncryptionSettingsOnce_spec]. intros _ s1 (iv & Hl & sent & Hpre & Hs & Hcase). rewrite wp_bind, wp_gets.
  case_bool_decide as Hok1; cbn [negb].
  - destruct Hcase as [(_ & -> & Hwr)|[? _]]; [|done]. eapply wp_mono; [|by apply (writeData_spec (started iv))].
    intros r s2 (Hr & w & st' & Hf & sent & Hpre2 & Hs2 & Hcase). split; [done|]. exists iv, w, st'. split_and!; [done..|].
    exists (opening iv ++ sent). split; [by apply prefix_app|]. split; [by eapply sends_trans|]. destruct Hcase as [(? & -> & ?)|?]; auto.
  - rewrite wp_ret. split; [by right|]. destruct (frames_total t key interval ivInterval buf (started iv)) as (w & st' & Hf).
    exists iv, w, st'. split_and!; [done..|]. exists sent. split; [by apply prefix_app_r|]. split; [done|]. right. split; [lia|done].
Qed.

(** Writing one buffer after the other, until one fails. *)
Fixpoint write_all (bufs : list (list Z)) (retry : bool) : T bool :=
  match bufs with
  | [] => mret true
  | buf :: bufs => r ← write o buf retry; if r =? Zlen buf then write_all bufs retry else mret false
  end.
Lemma write_all_spec bufs retry st s :
  writer st s -> Forall (fun b => b <> []) bufs ->
  wp (write_all bufs retry) (fun ok s' => wrote st (concat bufs) (ok = true) s s') s.
Proof.
  intros Hwr Hall. revert st s Hwr. induction Hall as [|buf bufs Hne _ IH]; intros st s Hwr; cbn [write_all concat].
  { rewrite wp_ret. exists [], st. split; [constructor|]. exists []. split; [done|]. split; [by apply sends_nil|]. by left. }
  rewrite wp_bind. eapply wp_mono; [|by apply (write_spec st)]. intros r s1 (Hr & w & st1 & Hf & sent & Hpre & Hs & Hcase).
  destruct Hcase as [(-> & -> & Hwr1)|[Hno Herr]].
  - rewrite Z.eqb_refl. eapply wp_mono; [|by apply (IH st1)]. intros ok s2 Hw. by eapply wrote_after.
  - destruct (Z.eqb_spec r (Zlen buf)); [done|]. rewrite wp_ret. by eapply wrote_part.
Qed.

Lemma first_writes_spec buf bufs retry s :
  fresh_writer s -> Forall (fun b => b <> []) (buf :: bufs) ->
  wp (write_all (buf :: bufs) retry) (fun ok s' => wrote_first (concat (buf :: bufs)) (ok = true) s s') s.
Proof.
  intros Hfr Hall. apply Forall_cons in Hall as [Hne Hall]. cbn [write_all concat]. rewrite wp_bind.
  eapply wp_mono; [|by apply first_write_spec]. intros r s1 (Hr & iv & w & st1 & Hl & Hf & sent & Hpre & Hs & Hcase).
  destruct Hcase as [(-> & -> & Hwr1)|[Hno Herr]].
  - rewrite Z.eqb_refl. eapply wp_mono; [|by apply (write_all_spec _ _ st1)].
    intros ok s2 (w2 & st2 & Hf2 & sent & Hpre2 & Hs2 & Hcase). exists iv, (w ++ w2), st2. split_and!; [done|by eapply frames_app|].
    exists ((opening iv ++ w) ++ sent). rewrite app_assoc. split; [by apply prefix_app|]. split; [by eapply sends_trans|].
    destruct Hcase as [(? & -> & ?)|?]; auto.
  - destruct (Z.eqb_spec r (Zlen buf)); [done|]. rewrite wp_ret.
    destruct (frames_total t key interval ivInterval (concat bufs) st1) as (w2 & st2 & Hf2). exists iv, (w ++ w2), st2.
    split_and!; [done|by eapply frames_app|]. exists sent. rewrite app_assoc. split; [by apply prefix_app_r|]. split; [done|]. by right.
Qed.

(** Writing on an encrypted socket: however the bytes are cut into writes
    and whatever the system calls and the cipher do, every write ends; if all
    succeed, the settings with the vector that was chosen and the frames of all
    the bytes went over the connection, tags and new vectors at the places the
    other side expects them; if one fails, a beginning of that did, and the
    socket remembers the failure. *)
Theorem encrypted_writes buf bufs retry s :
  fresh_writer s -> Forall (fun b => b <> []) (buf :: bufs) ->
  wp (write_all (buf :: bufs) retry) (fun ok s' => wrote_first (concat (buf :: bufs)) (ok = true) s s') s.
Proof. apply first_writes_spec. Qed.
End writer.
