(* ===== verification/SocketReader.v ===== *)
(** Reading from an encrypted socket: what a read delivers is the next piece of
    the text that was framed ([SocketStream]), and where the socket stands
    afterwards. *)
From S2P Require Import Prelude Serialization ErrorCodes Protocol ProtocolProps Uri Socket Encryption StateMonad WdtSocket SocketIo SocketStream SocketWriter.

Section reader.
Context `{Host} {Ctx W : Type} `{OpensslLaws Ctx} `{SocketOsLaws W} (o : SocketOptions).
Abbreviation S := (WdtSocket Ctx W).
Abbreviation T := (M S).
Implicit Types (s : S).
Context (t : EncryptionType) (key : list Z) (interval ivInterval : Z).
Abbreviation enc := (SocketStream.enc t key).
Abbreviation opens := (SocketStream.opens t key interval ivInterval).
Abbreviation frames := (SocketStream.frames t key interval ivInterval).
Abbreviation body := (SocketStream.body t key interval ivInterval).
Implicit Types (st : Stream).

Definition decrypting_at st s : Prop :=
  encryptionParams_ s = mkEncryptionParams t key /\ t <> ENC_NONE /\ encryptionSettingsRead_ s = true
  /\ decrypts (decryptor_ s) t key (st_iv st) (st_seen st) /\ readTagInterval_ s = interval
  /\ ivChangeInterval_ s = ivInterval /\ (0 < interval -> t = ENC_AES128_GCM).
Definition reader st s : Prop := decrypting_at st s /\ 0 <= st_total st /\ (0 < interval -> totalRead_ s = st_total st).
(** The socket has not failed, and did not time out just behind a tag. *)
Definition in_step s : bool :=
  bool_decide (readErrorCode_ s = OK) || bool_decide (readErrorCode_ s = WDT_TIMEOUT) && negb (due_at interval (totalRead_ s)).

(** The bytes [lost] never arrive. *)
Section piece.
Context (lost : list Z) (st2 : Stream).
Definition rest s : list Z := wire_in (os s) ++ lost.

(** What a read of at most [n] bytes gives when [plain] is to come. *)
Definition got (plain : list Z) (n : Z) (r : Z * list Z) s : Prop :=
  exists later, plain = r.2 ++ later /\ Zlen r.2 <= n /\ (0 < r.1 -> r.1 = Zlen r.2) /\ (r.1 <= 0 -> r.2 = [] /\ readErrorCode_ s <> OK)
    /\ (r.1 = n -> readErrorCode_ s = OK)
    /\ (in_step s = true -> exists st, reader st s /\ frames st later (rest s) st2).

Lemma moved_reading_decrypting st s s' : moved_reading s s' -> decrypting_at st s -> decrypting_at st s'.
Proof. intros (s1 & (e & w & ->) & ->) (? & ? & ? & ? & ? & ? & ?). by split_and!. Qed.
Lemma moved_reading_total s s' : moved_reading s s' -> totalRead_ s' = totalRead_ s.
Proof. by intros (s1 & (e & w & ->) & ->). Qed.
Lemma wp_onDecryptor {A} (f : AESBase Ctx -> option (A * AESBase Ctx)) Q s :
  wp (onDecryptor f) Q s <-> exists a e, f (decryptor_ s) = Some (a, e) /\ Q a (s <| decryptor_ := e |>).
Proof. unfold wp, onDecryptor. destruct (f (decryptor_ s)) as [[a e]|]; naive_solver. Qed.

Lemma readAndDecrypt_spec st plain n timeoutMs tryFull s :
  decrypting_at st s -> body st plain (rest s) st2 -> clear interval n st -> 0 < n ->
  wp (readAndDecrypt o n timeoutMs tryFull)
    (fun r s' => totalRead_ s' = totalRead_ s
       /\ (r.1 <= 0 /\ r.2 = [] /\ readErrorCode_ s' <> OK
             /\ (readErrorCode_ s' = WDT_TIMEOUT -> decrypting_at st s' /\ body st plain (rest s') st2)
           \/ 0 < r.1 <= n /\ Zlen r.2 = r.1 /\ readErrorCode_ s' = OK
             /\ exists later, plain = r.2 ++ later /\ decrypting_at (extend st r.2) s' /\ frames (extend st r.2) later (rest s') st2)) s.
Proof.
  intros Hd Hbody Hc Hn. pose proof Hd as (Hp & Ht & _ & Hdec & _). unfold readAndDecrypt, encryptionSet.
  rewrite wp_bind, wp_check. split; [by apply Z.ltb_lt|]. rewrite wp_bind, wp_gets, wp_bind, wp_check, Hp. split; [unfold isSet; by rewrite bool_decide_eq_false_2|].
  rewrite wp_bind. eapply wp_mono; [|apply readInternal_spec; lia]. intros [r bs] s1 (Hm & more & (Hin & _ & _) & Hr). simpl in Hr.
  pose proof (moved_reading_total _ _ Hm) as Ht1. pose proof (moved_reading_decrypting st _ _ Hm Hd) as Hd1.
  destruct (Z.leb_spec r 0).
  { rewrite wp_ret. split; [done|]. left. destruct Hr as [(_ & -> & -> & Herr)|]; [|lia]. simpl.
    split_and!; [lia|done|by destruct Herr as [-> | ->]|]. intros _. split; [done|]. unfold rest in *. by rewrite Hin in Hbody. }
  destruct Hr as [|(Hrn & -> & Hl & Hok)]; [lia|].
  assert (exists a later, plain = a ++ later /\ more = enc st a /\ frames (extend st a) later (rest s1) st2) as (a & later & -> & -> & Hf).
  { unfold rest in *. rewrite Hin, <- app_assoc in Hbody. eapply body_split; [done|done| |lia]. intros ->. change (Zlen []) with 0 in Hl. lia. }
  assert (Zlen a = r) as Hla by (rewrite <- Hl; unfold SocketStream.enc; by rewrite cipher_length).
  pose proof Hd1 as (_ & _ & _ & Hdec1 & _). destruct (decrypt_spec _ _ _ _ _ a Hdec1) as (ok & out & a' & E & Hspec).
  rewrite wp_bind, wp_onDecryptor. exists (ok, out), a'. split; [exact E|]. destruct ok; cbn [negb].
  - destruct (Hspec eq_refl) as [-> Hdec']. rewrite wp_ret. split; [done|]. right. split_and!; [simpl; lia..|done|].
    exists later. split; [done|]. split; [|done]. destruct Hd1 as (? & ? & ? & _ & ? & ? & ?). by split_and!.
  - unfold setReadError. rewrite wp_bind, wp_modify, wp_ret. split; [done|]. left. by split_and!.
Qed.

(** ** A tag *)

Lemma frames_nonempty st plain w : frames st plain w st2 -> w <> [] -> plain <> [].
Proof. by intros [] Hw. Qed.
Lemma readEncryptionTag_spec st plain s :
  decrypting_at st s -> t = ENC_AES128_GCM -> tag_due interval st = true -> frames st plain (rest s) st2 ->
  wp (readEncryptionTag o)
    (fun tg s' => tg = [] /\ readErrorCode_ s' = ENCRYPTION_ERROR
       \/ tg = tag t key st /\ tg <> [] /\ readErrorCode_ s' = OK /\ decrypting_at st s' /\ totalRead_ s' = totalRead_ s
          /\ exists pre st1, opens st (tg ++ pre) st1 /\ exists w1, rest s' = pre ++ w1 /\ body st1 plain w1 st2) s.
Proof.
  intros Hd Ht Hdue Hf. pose proof Hd as (Hp & _). unfold readEncryptionTag. rewrite wp_bind, wp_gets, Hp. simpl ep_type.
  assert (encryptionTypeToTagLen t = kAESBlockSize) as -> by (by rewrite Ht). rewrite wp_bind.
  eapply wp_mono; [|apply readInternal_spec; done]. intros [r bs] s1 (Hm & more & (Hin & _ & _) & Hr). simpl in Hr. simpl fst. simpl snd.
  destruct (Z.eqb_spec r kAESBlockSize) as [->|Hne]; cbn [negb].
  2:{ unfold setReadError. rewrite wp_bind, wp_modify, wp_ret. by left. }
  rewrite wp_ret. right. destruct Hr as [(? & _)|(_ & -> & Hl & Hok)]; [done|].
  assert (rest s = more ++ rest s1) as Er by (unfold rest; by rewrite Hin, <- app_assoc). rewrite Er in Hf.
  assert (more <> []) as Hmne by (by intros ->).
  destruct (frames_opens _ _ _ _ _ _ _ _ Hf) as (pre & st1 & w1 & Hop & Ew & Hbody).
  { eapply frames_nonempty; [done|]. by destruct more. }
  assert (length (tag t key st) = 16%nat) as Htl by (unfold tag; by rewrite Ht, tag_length).
  assert (exists pre', pre = tag t key st ++ pre') as [pre' ->].
  { destruct Hop; [congruence|exists []; by rewrite app_nil_r|by eexists]. }
  rewrite <- app_assoc in Ew. apply app_inj_1 in Ew as [-> Ew]; [|rewrite Htl; change kAESBlockSize with 16 in Hl; lia].
  split_and!; [done..|by eapply moved_reading_decrypting|by rewrite (moved_reading_total _ _ Hm)|]. by exists pre', st1; split; [|exists w1].
Qed.
Lemma checkAndChangeDecryptionIv_spec st st1 pre w1 plain tg s :
  decrypting_at st s -> t = ENC_AES128_GCM -> tag_due interval st = true -> opens st (tag t key st ++ pre) st1 -> rest s = pre ++ w1 ->
  body st1 plain w1 st2 -> readErrorCode_ s = OK ->
  wp (checkAndChangeDecryptionIv o tg)
    (fun ok s' => ok = true -> readErrorCode_ s' = OK /\ decrypting_at st1 s' /\ totalRead_ s' = totalRead_ s /\ body st1 plain (rest s') st2) s.
Proof.
  intros Hd Ht Hdue Hop Hrest Hbody Hok. pose proof Hd as (Hp & Hset & Hread & Hdec & Hi & Hv & Hgcm).
  unfold checkAndChangeDecryptionIv. rewrite wp_bind, wp_gets. unfold id. rewrite Hi, Hv. pose proof Hdec as (_ & _ & Hn & _). rewrite Hn.
  assert (iv_due interval ivInterval st = negb (ivInterval =? 0) && negb (Zlen (st_seen st) + interval <=? ivInterval)) as Hiv.
  { unfold iv_due. by rewrite Z.leb_antisym, negb_involutive. }
  inversion Hop as [? E1 E2|? Hiv' E1|iv ? Hiv' Hl E1]; subst.
  - congruence.
  - rewrite <- (app_nil_r (tag _ key st1)) in E1 at 1. apply app_inv_head in E1 as <-. rewrite Hiv in Hiv'.
    destruct (ivInterval =? 0); [rewrite wp_ret; by rewrite Hrest|]. simpl in Hiv'. apply negb_false_iff in Hiv' as ->.
    rewrite wp_ret. by rewrite Hrest.
  - apply app_inv_head in E1 as ->. rewrite Hiv in Hiv'. apply andb_true_iff in Hiv' as [Hz Hle]. apply negb_true_iff in Hz as ->.
    apply negb_true_iff in Hle as ->. rewrite wp_bind. eapply wp_mono; [|apply readInternal_spec; done].
    intros [r bs] s1 (Hm & more & (Hin & _ & _) & Hr). simpl in Hr. destruct (Z.eqb_spec r kAESBlockSize) as [->|Hne]; cbn [negb]; [|by rewrite wp_ret].
    destruct Hr as [(? & _)|(_ & -> & Hlm & Hok1)]; [done|].
    assert (rest s = more ++ rest s1) as Er by (unfold rest; by rewrite Hin, <- app_assoc). rewrite Er in Hrest.
    apply app_inj_1 in Hrest as [-> Hw]; [|lia]. rewrite <- Hw in Hbody.
    pose proof (moved_reading_decrypting st _ _ Hm Hd) as (Hp1 & _ & Hread1 & Hdec1 & Hi1 & Hv1 & _).
    rewrite wp_bind, wp_onDecryptor. destruct (decryptor_finish_total _ _ _ _ _ tg Hdec1) as [[fin a] E]. exists fin, a. split; [done|].
    destruct fin; cbn [negb]; [|by rewrite wp_ret]. unfold resetDecryptor. rewrite wp_bind, wp_modify, wp_bind, wp_gets, wp_onDecryptor.
    simpl. rewrite Hp1. destruct (decryptor_start_total (mkEncryptionParams t key) pre) as [[ok a2] E2].
    exists ok, a2. split; [done|]. intros ->. apply decryptor_start_spec in E2; [|done]. 
    split_and!; [done|by split_and!|by rewrite <- (moved_reading_total _ _ Hm)|exact Hbody].
Qed.
Lemma passTag_spec st plain s :
  decrypting_at st s -> t = ENC_AES128_GCM -> tag_due interval st = true -> frames st plain (rest s) st2 ->
  wp (passTag o)
    (fun ok s' => ok = false /\ readErrorCode_ s' = ENCRYPTION_ERROR
       \/ ok = true /\ exists pre st1, opens st pre st1 /\ decrypting_at st1 s' /\ totalRead_ s' = totalRead_ s /\ body st1 plain (rest s') st2) s.
Proof.
  intros Hd Ht Hdue Hf. unfold passTag. rewrite wp_bind. eapply wp_mono; [|by apply (readEncryptionTag_spec st plain)].
  intros tg s1 [[-> Herr]|(Htg & Hne & Hok1 & Hd1 & Ht1 & pre & st1 & Hop & w1 & Hrest & Hbody)].
  { rewrite bool_decide_eq_true_2 by done. rewrite wp_ret. by left. }
  rewrite bool_decide_eq_false_2, wp_bind, wp_onDecryptor by done. pose proof Hd1 as (_ & _ & _ & Hdec & _). rewrite Ht in Hdec.
  destruct (verifyTag_total _ _ _ _ tg Hdec) as [ok E]. rewrite E. exists ok, (decryptor_ s1). split; [done|]. destruct ok; cbn [negb].
  2:{ unfold setReadError. rewrite wp_bind, wp_modify, wp_ret. by left. }
  set (s2 := s1 <| decryptor_ := decryptor_ s1 |>). assert (s2 = s1) as -> by (by destruct s1). rewrite wp_bind.
  eapply (wp_mono _ (fun _ s' => exists w, s' = s1 <| os := w |> /\ quiet wire_in wire_out patience (os s1) w)).
  2:{ destruct (has_callback o); [rewrite wp_onOs; eexists; split; [done|]; apply tagVerified_spec|].
      rewrite wp_ret. exists (os s1). split; [by destruct s1|done]. }
  intros _ s3 (w & -> & Hin & _). rewrite wp_bind. subst tg.
  eapply wp_mono; [|eapply (checkAndChangeDecryptionIv_spec st st1 pre w1 plain); try done; unfold rest in *; simpl; by rewrite Hin].
  intros ok s4 Hs4. destruct ok; cbn [negb].
  - rewrite wp_ret. right. destruct (Hs4 eq_refl) as (_ & Hd4 & Ht4 & Hb4). split; [done|]. eexists _, st1. split_and!; [done..| |done].
    by rewrite Ht4.
  - unfold setReadError. rewrite wp_bind, wp_modify, wp_ret. by left.
Qed.

(** ** Bytes *)

Lemma in_step_timeout s : readErrorCode_ s <> OK -> in_step s = true -> readErrorCode_ s = WDT_TIMEOUT /\ due_at interval (totalRead_ s) = false.
Proof.
  unfold in_step. intros Hne Hs. rewrite bool_decide_eq_false_2 in Hs by done. simpl in Hs.
  apply andb_true_iff in Hs as [?%bool_decide_eq_true ?%negb_true_iff]. done.
Qed.
Lemma got_failed plain n r s : plain = r.2 ++ plain -> 0 < n -> r.1 <= 0 -> r.2 = [] -> readErrorCode_ s <> OK ->
  (readErrorCode_ s = WDT_TIMEOUT -> due_at interval (totalRead_ s) = false -> exists st, reader st s /\ frames st plain (rest s) st2) -> got plain n r s.
Proof.
  intros Hp Hn Hr Hnil Herr Hin. exists plain. split; [done|]. rewrite Hnil. split_and!; [simpl; lia|lia|done|lia|].
  intros Hs. apply in_step_timeout in Hs as [? ?]; auto.
Qed.
Lemma got_error plain n r s : 0 < n -> r.1 <= 0 -> r.2 = [] -> readErrorCode_ s <> OK -> readErrorCode_ s <> WDT_TIMEOUT -> got plain n r s.
Proof. intros Hn Hr Hnil Hok Hto. apply got_failed; [by rewrite Hnil|done..|]. intros ?. done. Qed.

Lemma readRest_spec st front plain n timeoutMs tryFull s :
  decrypting_at st s -> 0 <= st_total st -> totalRead_ s = st_total st -> body st plain (rest s) st2 ->
  clear interval (n - Zlen front) st -> Zlen front < n ->
  wp (readRest o front n timeoutMs tryFull) (got (front ++ plain) n) s.
Proof.
  intros Hd Ht Htot Hb Hc Hn. unfold readRest. rewrite wp_bind.
  eapply wp_mono; [|apply (readAndDecrypt_spec st plain); [done..|lia]]. intros [r bs] s1 [Ht1 Hr]. simpl in Hr.
  destruct Hr as [(Hr & -> & Herr & Hto)|(Hr & Hl & Hok & later & -> & Hd1 & Hf)].
  - destruct (Z.leb_spec r 0); [|lia]. rewrite wp_ret.
    assert (readErrorCode_ s1 = WDT_TIMEOUT -> due_at interval (totalRead_ s1) = false -> exists st, reader st s1 /\ frames st plain (rest s1) st2) as Hin.
    { intros Hto' Hdue. destruct (Hto Hto') as [Hd1 Hb1]. exists st. split; [split_and!; [done..|by rewrite Ht1]|].
      apply body_frames; [|done]. unfold tag_due. by rewrite <- Htot, <- Ht1. }
    destruct (Z.ltb_spec 0 (Zlen front)).
    + exists plain. simpl. split_and!; [done|lia|done|lia|lia|]. intros Hs. apply in_step_timeout in Hs as [? ?]; auto.
    + assert (front = []) as -> by (destruct front; [done|simpl in *; lia]). apply got_failed; simpl; [done|simpl in *; lia|lia|done..].
  - destruct (Z.leb_spec r 0); [lia|]. unfold addRead. rewrite wp_bind, wp_modify, wp_ret. exists later. simpl.
    split_and!; [by rewrite app_assoc|rewrite Zlen_app; lia|rewrite Zlen_app; lia|lia|done|]. intros _. exists (extend st bs). split; [|exact Hf].
    split; [exact Hd1|]. simpl. split; [lia|]. intros _. rewrite Ht1, Htot. lia.
Qed.
Lemma readToTag_spec st plain off n timeoutMs tryFull s :
  reader st s -> 0 < interval -> off = computeNextTagOffset (st_total st) interval -> off < n -> frames st plain (rest s) st2 ->
  wp (readToTag o off timeoutMs tryFull)
    (fun r s' => match r with
       | inl r => got plain n r s'
       | inr front => Zlen front = off /\ exists later, plain = front ++ later /\ reader (extend st front) s'
           /\ frames (extend st front) later (rest s') st2
       end) s.
Proof.
  intros [Hd [Ht Htot]] Hi Hoff Hn Hf. pose proof (nextTag_bounds interval (st_total st) Ht Hi) as Hb. rewrite <- Hoff in Hb.
  unfold readToTag. destruct (Z.ltb_spec 0 off).
  2:{ rewrite wp_ret. split; [simpl; lia|]. exists plain. rewrite extend_nil. by split_and!. }
  assert (tag_due interval st = false) as Hdue.
  { unfold tag_due. rewrite <- (Z.add_0_r (st_total st)). apply nextTag_clear; lia. }
  rewrite wp_bind. eapply wp_mono; [|apply (readAndDecrypt_spec st plain); [done|by apply frames_body| |done]].
  2:{ intros i Hr. apply nextTag_clear; lia. }
  intros [r bs] s1 [Ht1 Hr]. simpl in Hr. destruct Hr as [(Hr & -> & Herr & Hto)|(Hr & Hl & Hok & later & -> & Hd1 & Hf1)].
  - destruct (Z.leb_spec r 0); [|lia]. rewrite wp_ret. apply got_failed; simpl; [done|lia|lia|done..|]. intros Hto' _.
    destruct (Hto Hto') as [Hd1 Hb1]. exists st. split; [|by apply body_frames]. split_and!; [done..|]. intros _. rewrite Ht1. auto.
  - destruct (Z.leb_spec r 0); [lia|]. unfold addRead. rewrite wp_bind, wp_modify. set (s2 := s1 <| totalRead_ := _ |>).
    assert (reader (extend st bs) s2) as Hr2.
    { split; [exact Hd1|]. simpl. split; [lia|]. intros _. rewrite Ht1, Htot by done. lia. }
    destruct (Z.ltb_spec r off).
    + rewrite wp_ret. exists later. simpl. split_and!; [done|lia|done|lia|lia|]. intros _. by exists (extend st bs).
    + rewrite wp_bind, wp_check. split; [apply Z.eqb_eq; lia|]. rewrite wp_ret. split; [lia|]. by exists later.
Qed.
Lemma readAndDecryptWithTag_spec st plain n timeoutMs tryFull s :
  reader st s -> 0 < interval -> 0 < n <= interval -> frames st plain (rest s) st2 ->
  wp (readAndDecryptWithTag o n timeoutMs tryFull) (got plain n) s.
Proof.
  intros Hrd Hi Hn Hf. pose proof Hrd as [(_ & _ & _ & _ & Hint & _ & Hgcm) [Ht Htot]]. unfold readAndDecryptWithTag.
  rewrite wp_bind, wp_gets, Hint, wp_bind, wp_check. split; [by apply Z.ltb_lt|]. rewrite wp_bind, wp_check. split; [apply Z.leb_le; lia|].
  rewrite wp_bind, wp_gets, Htot by done. pose proof (nextTag_bounds interval (st_total st) Ht Hi) as Hb.
  destruct (Z.ltb_spec (computeNextTagOffset (st_total st) interval) n) as [Hlt|Hge].
  2:{ assert (tag_due interval st = false) as Hdue.
      { unfold tag_due. rewrite <- (Z.add_0_r (st_total st)). apply nextTag_clear; lia. }
      eapply wp_mono; [|apply (readRest_spec st [] plain); [apply Hrd|done|auto|by apply frames_body| |simpl; lia]]; [done|].
      intros i Hr. apply nextTag_clear; simpl in *; lia. }
  rewrite wp_bind. eapply wp_mono; [|by eapply (readToTag_spec st plain _ n)]. intros [r|front] s1; [by rewrite wp_ret|].
  intros (Hl & later & -> & Hrd1 & Hf1). set (st1 := extend st front) in *.
  assert (tag_due interval st1 = true) as Hdue.
  { unfold tag_due, st1. cbn [extend st_total]. rewrite Hl. by apply nextTag_due. }
  pose proof Hrd1 as [Hd1 [Ht1 Htot1]]. rewrite wp_bind, wp_gets, wp_bind, wp_check, Htot1 by done.
  split; [unfold tag_due, due_at in Hdue; by apply andb_true_iff in Hdue as [_ ?]|].
  rewrite wp_bind. eapply wp_mono; [|apply (passTag_spec st1 later); auto].
  intros ok s2 [[-> Herr]|(-> & pre & st3 & Hop & Hd3 & Htot3 & Hb3)]; cbn [negb].
  { rewrite wp_ret. apply got_error; simpl; [lia..|done|by rewrite Herr|by rewrite Herr]. }
  assert (st_total st3 = st_total st1) as Est by (by destruct Hop).
  eapply wp_mono; [|apply (readRest_spec st3 front later); [done|lia|rewrite Htot3, Est; auto|done| |lia]]; [done|].
  eapply clear_mono; [apply due_clear; [rewrite Est; exact Hdue|lia]|]. lia.
Qed.
Lemma got_more data plain n m r s :
  got plain m r s -> Zlen data + m <= n -> 0 < r.1 -> (Zlen data + r.1 = n -> r.1 = m) -> got (data ++ plain) n (Zlen data + r.1, data ++ r.2) s.
Proof.
  intros (later & -> & Hle & Hr & _ & Hfull & Hin) Hn Hpos Hm. exists later. simpl. rewrite Zlen_app. specialize (Hr Hpos).
  split_and!; [by rewrite app_assoc|lia|lia|lia|auto|done].
Qed.
Lemma read_loop_spec rounds n timeoutMs tryFull data plain st s :
  reader st s -> 0 < interval -> frames st plain (rest s) st2 -> readErrorCode_ s = OK -> 0 < n -> Zlen data <= n ->
  (Z.to_nat (n - Zlen data) <= rounds)%nat ->
  wp (read_loop o rounds n timeoutMs tryFull (Zlen data) data) (got (data ++ plain) n) s.
Proof.
  revert data plain st s. induction rounds as [|rounds IH]; intros data plain st s Hrd Hi Hf Hok Hn Hle Hrounds; cbn [read_loop];
    (destruct (Z.ltb_spec (Zlen data) n) as [Hlt|Hge]; cbn [negb];
      [|rewrite wp_ret; exists plain; simpl; split_and!; [done|lia|done|lia|done|by exists st]]); [lia|].
  pose proof Hrd as [(_ & _ & _ & _ & Hint & _) _]. rewrite wp_bind, wp_gets, Hint. set (m := Z.min (n - Zlen data) interval).
  rewrite wp_bind. eapply wp_mono; [|apply (readAndDecryptWithTag_spec st plain); [done|done|lia|done]].
  intros [r bs] s1 Hgot. pose proof Hgot as (later & Hp & Hl & Hr & Hneg & Hfull & Hin). simpl in *.
  destruct (Z.leb_spec r 0).
  { destruct (Hneg ltac:(done)) as [-> Herr]. simpl in Hp. subst later. rewrite wp_ret. destruct (Z.ltb_spec 0 (Zlen data)).
    - exists plain. simpl. split_and!; [done|lia|done|lia|lia|done].
    - assert (data = []) as -> by (destruct data; [done|simpl in *; lia]). exists plain. simpl. split_and!; [done|lia|lia|done|lia|done]. }
  destruct (Z.ltb_spec r m).
  { rewrite wp_ret. apply (got_more data plain n m (r, bs)); [done|lia|done|simpl; lia]. }
  assert (r = m) as -> by (specialize (Hr ltac:(lia)); lia). specialize (Hfull eq_refl).
  destruct Hin as (st1 & Hrd1 & Hf1); [unfold in_step; by rewrite bool_decide_eq_true_2|].
  rewrite Hp, app_assoc. replace (Zlen data + m) with (Zlen (data ++ bs)) by (rewrite Zlen_app; lia).
  eapply IH; [done..|rewrite Zlen_app; lia|rewrite Zlen_app; lia].
Qed.
Lemma readData_spec st plain n timeoutMs tryFull s :
  reader st s -> frames st plain (rest s) st2 -> readErrorCode_ s = OK -> 0 < n ->
  wp (readData o [] n timeoutMs tryFull) (got plain n) s.
Proof.
  intros Hrd Hf Hok Hn. pose proof Hrd as [Hd [Ht Htot]]. pose proof Hd as (Hp & Hset & _ & _ & Hint & _). unfold readData, encryptionSet.
  rewrite wp_bind, wp_gets, Hp. unfold isSet. simpl. rewrite bool_decide_eq_false_2 by done. cbn [negb].
  rewrite wp_bind, wp_check. split; [done|]. rewrite wp_bind, wp_gets, Hint. destruct (Z.leb_spec interval 0) as [Hz|Hi].
  - assert (forall k, due_at interval k = false) as Hnever.
    { intros k. unfold due_at. by replace (0 <? interval) with false by (symmetry; apply Z.ltb_ge; lia). }
    eapply wp_mono; [|apply (readAndDecrypt_spec st plain); [done|by apply frames_body; [apply Hnever|]|intros i _; apply Hnever|done]].
    intros [r bs] s1 [Ht1 Hr]. simpl in Hr. destruct Hr as [(Hr & -> & Herr & Hto)|(Hr & Hl & Hok1 & later & -> & Hd1 & Hf1)].
    + apply got_failed; simpl; [done..|]. intros Hto' _. destruct (Hto Hto') as [Hd1 Hb1]. exists st. split; [split_and!; [done..|lia]|].
      by apply body_frames; [apply Hnever|].
    + exists later. simpl. split_and!; [done|lia|done|lia|done|]. intros _. exists (extend st bs). split; [|done].
      split; [done|]. simpl. split; lia.
  - apply (read_loop_spec _ _ _ _ [] plain st); try done; simpl; lia.
Qed.

(** ** The first read *)

Abbreviation opening := (SocketWriter.opening t interval).
Definition fresh_reader s : Prop :=
  encryptionParams_ s = mkEncryptionParams t key /\ t <> ENC_NONE /\ key <> [] /\ encryptionSettingsRead_ s = false
  /\ decryptor_ s = AESBase_new /\ ivChangeInterval_ s = ivInterval /\ (0 < interval -> t = ENC_AES128_GCM) /\ totalRead_ s = 0
  /\ Zlen (buf_ s) = kEncryptionCmdLen /\ nonneg32 interval.
(** The socket is to deliver [plain]. *)
Definition awaits (plain : list Z) s : Prop :=
  (exists st, reader st s /\ frames st plain (rest s) st2)
  \/ fresh_reader s /\ exists iv w, Zlen iv = kAESBlockSize /\ rest s = opening iv ++ w /\ frames (started iv) plain w st2.

Lemma opening_decoded iv buf e0 :
  t <> ENC_NONE -> nonneg32 interval -> Zlen iv = kAESBlockSize -> Zlen buf = kEncryptionCmdLen ->
  take (Z.to_nat (kEncryptionCmdLen - 1)) buf = tail (opening iv) ->
  exists off, decodeEncryptionSettings buf 0 kEncryptionCmdLen e0
    = Some (true, mkEncryptionSettings (EncryptionType_value t) iv interval, off).
Proof.
  intros Ht Hi Hl Hb Htake. unfold SocketWriter.opening in Htake. simpl tail in Htake. set (e := mkEncryptionSettings _ _ _) in *.
  assert (wf_encryption e) as Hwf by (split; [by destruct t|split; [simpl; by rewrite Hl|exact Hi]]).
  unfold decodeEncryptionSettings, run_decoder, makeByteRange. rewrite Hb. simpl.
  unfold slice. rewrite <- (take_drop (Z.to_nat (kEncryptionCmdLen - 1)) buf), Htake.
  change (Z.to_nat 0) with O. rewrite drop_0, firstn_all2.
  2:{ rewrite length_app, <- Htake, <- length_app, take_drop. lia. }
  rewrite (encryption_body_reads e Hwf). by eexists.
Qed.
Lemma store_length bs s : (length bs <= length (buf_ s))%nat -> Zlen (bs ++ drop (length bs) (buf_ s)) = Zlen (buf_ s).
Proof. rewrite length_app, length_drop. lia. Qed.
Lemma readEncryptionSettingsOnce_spec iv w timeoutMs s :
  fresh_reader s -> Zlen iv = kAESBlockSize -> rest s = opening iv ++ w ->
  wp (readEncryptionSettingsOnce o timeoutMs)
    (fun _ s' => readErrorCode_ s' = OK /\ reader (started iv) s' /\ rest s' = w
       \/ readErrorCode_ s' = WDT_TIMEOUT /\ fresh_reader s' /\ rest s' = rest s
       \/ readErrorCode_ s' ∈ [SOCKET_READ_ERROR; ENCRYPTION_ERROR]) s.
Proof.
  intros Hfr Hl Hrest. pose proof Hfr as (Hp & Ht & Hk & Hread & Hd & Hv & Hgcm & Htot & Hbuf & Hi). unfold readEncryptionSettingsOnce.
  rewrite wp_bind, wp_gets. unfold id. rewrite Hread, Hp. unfold isSet. simpl. rewrite (bool_decide_eq_false_2 (t = ENC_NONE)) by done. cbn [negb orb].
  rewrite wp_bind, wp_check, (bool_decide_eq_false_2 (key = [])) by done. split; [done|]. rewrite wp_bind.
  eapply wp_mono; [|apply readInternal_spec; done]. intros [r bs] s1 (Hm & more & (Hin & _ & _) & Hr). simpl in Hr.
  assert (rest s = more ++ rest s1) as Er by (unfold rest; by rewrite Hin, <- app_assoc). destruct Hm as (s1' & (e1 & w1 & ->) & Hs1).
  unfold store. simpl fst. simpl snd. rewrite wp_bind, wp_modify. destruct Hr as [(Hr & -> & -> & Herr)|(Hr & -> & Hlm & Hok1)].
  { destruct (Z.eqb_spec r 1); [lia|]. cbn [negb]. rewrite wp_ret. right. destruct Herr as [Herr|Herr]; [right; simpl; rewrite Herr; set_solver|left].
    split; [done|]. split; [|by rewrite Er]. rewrite Hs1. by split_and!. }
  assert (r = 1) as -> by lia. cbn [negb Z.eqb Pos.eqb]. rewrite Hrest in Er. destruct more as [|c [|]]; simpl in Hlm; try lia. simpl in Er. injection Er as <- Er.
  assert (length (buf_ s1) = 23%nat) as Hb1 by (rewrite Hs1; change kEncryptionCmdLen with 23 in Hbuf; simpl; lia).
  rewrite wp_bind, wp_gets. simpl head. cbn [default from_option id]. rewrite Z.eqb_refl. cbn [negb]. set (s2 := s1 <| buf_ := _ |>). rewrite wp_bind.
  eapply wp_mono; [|apply readInternal_spec; done]. intros [r bs] s3 (Hm & more & (Hin3 & _ & _) & Hr3). simpl in Hr3.
  assert (rest s2 = more ++ rest s3) as Er3 by (unfold rest; by rewrite Hin3, <- app_assoc). change (rest s2) with (rest s1) in Er3.
  destruct Hm as (s3' & (e3 & w3 & ->) & Hs3). simpl fst. simpl snd. rewrite wp_bind, wp_modify.
  destruct (Z.eqb_spec r (kEncryptionCmdLen - 1)) as [->|Hne]; cbn [negb].
  2:{ unfold setReadError. rewrite wp_modify. right. right. simpl. set_solver. }
  destruct Hr3 as [(? & _)|(_ & -> & Hlm3 & Hok3)]; [done|].
  assert (length (encryptionBytes (mkEncryptionSettings (EncryptionType_value t) iv interval)) = 22%nat) as Hlen.
  { assert (Zlen (encryptionBytes (mkEncryptionSettings (EncryptionType_value t) iv interval)) = 22) as Hz; [|lia].
    unfold encryptionBytes, stringBytes. simpl es_iv. rewrite Hl, !Zlen_app, Zlen_fixedBytes, Hl by done. by destruct t. }
  assert (more = encryptionBytes (mkEncryptionSettings (EncryptionType_value t) iv interval) /\ rest s3 = w) as [Hmore Hw].
  { rewrite Er3 in Er. symmetry in Er. apply app_inj_1 in Er as [? ?]; [done|]. change (kEncryptionCmdLen - 1) with 22 in Hlm3. lia. }
  set (s4 := s3 <| buf_ := _ |>). assert (Zlen (buf_ s4) = kEncryptionCmdLen) as Hb4.
  { unfold s4. simpl. rewrite store_length; rewrite Hs3; unfold s2; simpl; rewrite length_drop, Hb1; [done|rewrite Hmore, Hlen; lia]. }
  destruct (opening_decoded iv (buf_ s4) (mkEncryptionSettings 0 [] (readTagInterval_ s4)) Ht Hi Hl Hb4) as [off Edec].
  { unfold s4. simpl buf_. rewrite Hmore. apply take_app_length'. exact (eq_sym Hlen). }
  rewrite wp_bind. unfold wp at 1. rewrite Edec. simpl es_type. rewrite Z.eqb_refl. cbn [negb].
  simpl es_tagInterval. destruct Hi as [Hi0 Hi1]. destruct (Z.ltb_spec interval 0); [lia|].
  assert ((0 <? interval) && (encryptionTypeToTagLen t =? 0) = false) as ->.
  { destruct (Z.ltb_spec 0 interval); [|done]. rewrite Hgcm by done. done. }
  simpl es_iv. rewrite wp_bind, wp_onDecryptor. set (s5 := s4 <| readTagInterval_ := interval |>).
  assert (decryptor_ s5 = AESBase_new) as -> by (unfold s5, s4; simpl; rewrite Hs3; unfold s2; simpl; rewrite Hs1; exact Hd).
  destruct (decryptor_start_total (mkEncryptionParams t key) iv) as [[ok a] E]. exists ok, a. split; [done|]. destruct ok; cbn [negb].
  2:{ unfold setReadError. rewrite wp_modify. right. right. simpl. set_solver. }
  apply decryptor_start_spec in E; [|done]. rewrite wp_modify. left. split_and!; [done| |exact Hw]. unfold s5, s4.
  rewrite Hs3. unfold s2. rewrite Hs1. split; [by split_and!|]. simpl. split; [lia|done].
Qed.

(** ** Any read *)

Definition readable s : Prop := readErrorCode_ s = OK \/ readErrorCode_ s = WDT_TIMEOUT.
Definition delivers (plain : list Z) (n : Z) (r : Z * list Z) s : Prop :=
  exists later, plain = r.2 ++ later /\ Zlen r.2 <= n /\ (0 < r.1 -> r.1 = Zlen r.2) /\ (r.1 <= 0 -> r.2 = [] /\ readErrorCode_ s <> OK)
    /\ (in_step s = true -> awaits later s).
Lemma got_delivers plain n r s : got plain n r s -> delivers plain n r s.
Proof. intros (later & ? & ? & ? & ? & _ & Hin). exists later. split_and!; try done. intros Hs. left. auto. Qed.
Lemma in_step_readable s : in_step s = true -> readable s.
Proof.
  unfold in_step. destruct (decide (readErrorCode_ s = OK)) as [|Hne]; [by left|].
  intros Hs. right. by destruct (in_step_timeout s Hne Hs).
Qed.
Lemma reading_step (plain : list Z) n timeoutMs tryFull s :
  awaits plain s -> readable s -> 0 < n -> wp (readWithTimeout o n timeoutMs tryFull) (delivers plain n) s.
Proof.
  intros Haw Hrd Hn. unfold readWithTimeout. rewrite wp_bind, wp_check. split; [by apply Z.ltb_lt|]. rewrite wp_bind, wp_gets.
  assert (negb (bool_decide (readErrorCode_ s = OK)) && negb (bool_decide (readErrorCode_ s = WDT_TIMEOUT)) = false) as ->.
  { destruct Hrd as [-> | ->]; done. }
  unfold setReadError. rewrite wp_bind, wp_modify. set (s1 := s <| readErrorCode_ := OK |>). rewrite wp_bind.
  destruct Haw as [(st & Hr & Hf)|(Hfr & iv & w & Hl & Hrest & Hf)].
  - unfold readEncryptionSettingsOnce. rewrite !wp_bind, wp_gets. unfold id. pose proof Hr as [(_ & _ & Hset & _) _].
    change (encryptionSettingsRead_ s1) with (encryptionSettingsRead_ s). rewrite Hset, orb_true_r, wp_ret, wp_bind, wp_gets.
    change (readErrorCode_ s1) with OK. rewrite andb_false_r, bool_decide_eq_true_2 by done. cbn [negb].
    eapply wp_mono; [intros r s'; apply got_delivers|]. by apply (readData_spec st).
  - eapply wp_mono; [|by apply (readEncryptionSettingsOnce_spec iv w)]. intros [] s2 Hs2. rewrite wp_bind, wp_gets. unfold id.
    destruct Hs2 as [(Hok & Hr & Hw)|[(Hto & Hfr2 & Hrest2)|Herr]].
    + rewrite Hok, andb_false_r, bool_decide_eq_true_2 by done. cbn [negb].
      eapply wp_mono; [intros r s'; apply got_delivers|]. apply (readData_spec (started iv)); [done|by rewrite Hw|done..].
    + rewrite Hto, andb_false_r, bool_decide_eq_false_2 by done. cbn [negb]. rewrite wp_ret. exists plain. simpl.
      split_and!; [done|lia|lia|by rewrite Hto|]. intros _. right. split; [done|]. exists iv, w. rewrite Hrest2. by split_and!.
    + assert (readErrorCode_ s2 <> OK /\ readErrorCode_ s2 <> UNEXPECTED_CMD_ERROR /\ readErrorCode_ s2 <> WDT_TIMEOUT) as (Hne & Hne2 & Hne3).
      { rewrite !elem_of_cons in Herr. destruct Herr as [-> |[-> |Herr]]; [done..|]. by apply elem_of_nil in Herr. }
      rewrite (bool_decide_eq_false_2 (readErrorCode_ s2 = UNEXPECTED_CMD_ERROR)), andb_false_r, bool_decide_eq_false_2 by done. cbn [negb].
      rewrite wp_ret. exists plain. simpl. split_and!; [done|lia|lia|done|]. intros Hs. by destruct (in_step_readable _ Hs).
Qed.

(** Reading on as long as the socket is in step; what was read. *)
Fixpoint read_all (ns : list Z) (tryFull : bool) (data : list Z) : T (list Z) :=
  match ns with
  | [] => mret data
  | n :: ns =>
      r ← read o n tryFull;
      ok ← gets in_step;
      if (ok : bool) then read_all ns tryFull (data ++ r.2) else mret (data ++ r.2)
  end.
Lemma read_all_spec ns tryFull data plain s :
  awaits plain s -> readable s -> Forall (fun n => 0 < n) ns ->
  wp (read_all ns tryFull data) (fun data' _ => data' `prefix_of` data ++ plain) s.
Proof.
  intros Haw Hrd Hns. revert data plain s Haw Hrd. induction Hns as [|n ns Hn _ IH]; intros data plain s Haw Hrd; cbn [read_all].
  { rewrite wp_ret. by eexists. }
  rewrite wp_bind. unfold read. eapply wp_mono; [|by apply (reading_step plain)]. intros r s1 (later & -> & _ & _ & _ & Hin).
  rewrite wp_bind, wp_gets, app_assoc. destruct (in_step s1) eqn:Hs; [|rewrite wp_ret; by eexists].
  apply IH; [auto|by apply in_step_readable].
Qed.
End piece.

(** Reading on an encrypted socket that has been sent the frames of [plain],
    or a beginning of them: whatever the system calls and the cipher do, a read
    ends; what it delivers is the beginning of [plain], of the length it
    reports; when it reports none, nothing was delivered and an error is
    recorded; and unless the socket has failed, or timed out right behind a
    tag, the rest of [plain] is what the next reads deliver. *)
Theorem encrypted_read lost st2 plain n timeoutMs tryFull s :
  awaits lost st2 plain s -> readable s -> 0 < n -> wp (readWithTimeout o n timeoutMs tryFull) (delivers lost st2 plain n) s.
Proof. intros Haw Hrd Hn. by apply reading_step. Qed.

(** C19: The encrypted channel is transparent: if one side writes [bufs], cut and
    delayed in any way, and any part of what went over the connection reaches
    the other side, which reads pieces of any size as long as it is in step,
    then what is read is a beginning of what was written. *)
Theorem encrypted_channel buf bufs retry s :
  fresh_writer t key interval ivInterval s -> Forall (fun b => b <> []) (buf :: bufs) ->
  wp (write_all o (buf :: bufs) retry)
    (fun _ s' => exists sent, wire_out (os s') = wire_out (os s) ++ sent
       /\ forall sr ns tryFull, fresh_reader sr -> readErrorCode_ sr = OK -> Forall (fun n => 0 < n) ns -> wire_in (os sr) `prefix_of` sent ->
          wp (read_all ns tryFull []) (fun data _ => data `prefix_of` concat (buf :: bufs)) sr) s.
Proof.
  intros Hfr Hall. eapply wp_mono; [|by apply (first_writes_spec o t key interval ivInterval)].
  intros ok s' (iv & w & st' & Hl & Hf & sent & [unsent Hsent] & (Hout & _ & _) & _). exists sent. split; [done|].
  intros sr ns tryFull Hrd Hok Hns [late Hlate].
  apply (read_all_spec (late ++ unsent) st' _ _ []); [|by left|done]. right. split; [done|]. exists iv, w.
  split_and!; [done| |done]. unfold rest. by rewrite app_assoc, <- Hlate, Hsent.
Qed.
End reader.
