(* ===== verification/SocketClose.v ===== *)
(** Closing a socket: whatever happened on the connection, the socket is ready for
    the next one. *)
From S2P Require Import Prelude Serialization ErrorCodes Protocol ProtocolProps Uri Socket Encryption StateMonad WdtSocket SocketIo SocketStream SocketWriter SocketReader.

Section close.
Context `{Host} {Ctx W : Type} `{OpensslLaws Ctx} `{SocketOsLaws W} (o : SocketOptions).
Abbreviation S := (WdtSocket Ctx W).
Implicit Types (s : S).

(** What was started is a stream. *)
Definition sound_writer s : Prop := started_ (encryptor_ s) = true -> exists t key iv seen, encrypts (encryptor_ s) t key iv seen.
Definition sound_reader s : Prop := started_ (decryptor_ s) = true -> exists t key iv seen, decrypts (decryptor_ s) t key iv seen.
(** What closing leaves alone. *)
Definition settings s : EncryptionParams * Z * Z * Z * bool * Z :=
  (encryptionParams_ s, ivChangeInterval_ s, writeTagInterval_ s, Zlen (buf_ s), supportUnencryptedPeer_ s, port_ s).

Lemma encryptor_finish_any (a : AESBase Ctx) :
  (started_ a = true -> exists t key iv seen, encrypts a t key iv seen) -> is_Some (encryptor_finish a).
Proof.
  intros Ha. destruct (started_ a) eqn:Es.
  - destruct (Ha eq_refl) as (t & key & iv & seen & He). by eapply encryptor_finish_total.
  - unfold encryptor_finish. rewrite Es. eauto.
Qed.
Lemma decryptor_finish_any tag (a : AESBase Ctx) :
  (started_ a = true -> exists t key iv seen, decrypts a t key iv seen) -> is_Some (decryptor_finish tag a).
Proof.
  intros Ha. destruct (started_ a) eqn:Es.
  - destruct (Ha eq_refl) as (t & key & iv & seen & He). by eapply decryptor_finish_total.
  - unfold decryptor_finish. rewrite Es. eauto.
Qed.

Lemma finalizeWrites_spec doTagIOs s :
  sound_writer s ->
  wp (finalizeWrites o doTagIOs) (fun _ s' => settings s' = settings s /\ decryptor_ s' = decryptor_ s) s.
Proof.
  intros He. unfold finalizeWrites. rewrite wp_bind, wp_onEncryptor. destruct (encryptor_finish_any _ He) as [[[ok tag] a] E].
  exists (ok, tag), a. split; [done|]. rewrite wp_bind. set (s1 := s <| encryptor_ := a |>).
  eapply (wp_mono _ (fun _ s2 => moved_writing s1 s2)).
  - intros code s2 (s3 & (e & w & ->) & ->). rewrite wp_bind, wp_modify, wp_ret. done.
  - destruct (_ && _).
    + rewrite wp_bind. eapply wp_mono; [|apply writeInternal_spec]. intros r s2 (Hm & _). by rewrite wp_ret.
    + rewrite wp_ret. exists s1. split; [apply moved_refl|by destruct s1].
Qed.
Lemma finalizeReads_spec doTagIOs s :
  sound_reader s -> wp (finalizeReads o doTagIOs) (fun _ s' => settings s' = settings s) s.
Proof.
  intros Hd. unfold finalizeReads. rewrite wp_bind, wp_gets, wp_bind.
  eapply (wp_mono _ (fun _ s1 => settings s1 = settings s /\ decryptor_ s1 = decryptor_ s)).
  - intros [tag code] s1 [Hset Hdec]. rewrite wp_bind, wp_onDecryptor, Hdec. destruct (decryptor_finish_any tag _ Hd) as [[ok a] E].
    exists ok, a. split; [done|]. rewrite wp_bind, wp_modify, wp_ret. exact Hset.
  - destruct (_ && _); [|by rewrite wp_ret]. unfold readEncryptionTag. rewrite !wp_bind, wp_gets, wp_bind.
    eapply wp_mono; [|apply readInternal_spec; unfold encryptionTypeToTagLen; by case_match]. intros r s1 ((s2 & (e & w & ->) & ->) & _).
    destruct (negb _); [unfold setReadError; rewrite wp_bind, wp_modify|]; by rewrite !wp_ret.
Qed.

(** Closing a connection never fails a check, whatever was read, written or
    left unfinished on it; afterwards the socket is closed, has no error, and
    keeps its parameters: if it encrypts, it starts the next connection as a
    socket that has written and read nothing. *)
Theorem closed_socket_starts_afresh doTagIOs t key interval ivInterval s :
  0 <= fd_ s -> sound_writer s -> sound_reader s -> encryptionParams_ s = mkEncryptionParams t key -> t <> ENC_NONE -> key <> [] ->
  writeTagInterval_ s = interval -> ivChangeInterval_ s = ivInterval -> (0 < interval -> t = ENC_AES128_GCM) ->
  Zlen (buf_ s) = kEncryptionCmdLen -> nonneg32 interval ->
  wp (closeConnectionInternal o doTagIOs)
    (fun _ s' => fd_ s' = -1 /\ readErrorCode_ s' = OK
       /\ fresh_writer t key interval ivInterval s' /\ fresh_reader t key interval ivInterval s') s.
Proof.
  intros Hfd Hsw Hsr Hp Ht Hk Hi Hv Hgcm Hb Hn. unfold closeConnectionInternal. rewrite wp_bind, wp_gets. unfold id.
  destruct (Z.ltb_spec (fd_ s) 0); [lia|]. rewrite wp_bind.
  eapply (wp_mono _ (fun _ s1 => settings s1 = settings s /\ decryptor_ s1 = decryptor_ s)).
  2:{ destruct (negb (writesFinalized_ s)); [|by rewrite wp_ret]. rewrite wp_bind. eapply wp_mono; [|by apply finalizeWrites_spec].
      intros c s1 Hs1. by rewrite wp_ret. }
  intros code s1 [Hset1 Hdec1]. rewrite wp_bind. eapply (wp_mono _ (fun _ s2 => settings s2 = settings s)).
  2:{ destruct (negb (readsFinalized_ s)); [|by rewrite wp_ret]. rewrite wp_bind.
      eapply wp_mono; [|apply finalizeReads_spec; unfold sound_reader; by rewrite Hdec1]. intros c s2 Hs2. rewrite wp_ret. congruence. }
  intros code' s2 Hset2. rewrite wp_bind, wp_onOs, wp_bind, wp_modify, wp_ret. unfold settings in Hset2.
  injection Hset2 as E1 E2 E3 E4 _ _. split; [done|]. split; [done|]. split; split_and!; simpl; congruence || done || lia.
Qed.
End close.
