(* ===== verification/SocketExamples.v ===== *)
(** Encrypted sockets by example: a cipher and system calls that satisfy the laws,
    the witnesses of the theorems of [SocketIo], [SocketWriter],
    [SocketReader] and [SocketClose], a read that times out behind a tag, and
    peers that do not encrypt. *)
From S2P Require Import Prelude Serialization ErrorCodes Protocol ProtocolProps Uri Socket Encryption StateMonad WdtSocket SocketIo SocketStream SocketWriter SocketReader SocketClose.

(** ** A cipher

    A key stream that depends on the vector and the place in the stream; the tag
    is made of the number and the sum of the bytes. *)
Record ToyCtx := mkToyCtx { toy_type : EncryptionType; toy_key : list Z; toy_iv : list Z; toy_seen : list Z; toy_tag : list Z }.
Definition toy_stream (key iv : list Z) (i : Z) : Z := (i + default 0 (head key) + default 0 (head iv)) mod 256.
Definition toy_cipher (key iv : list Z) (n : nat) (bs : list Z) : list Z :=
  imap (fun i b => Z.lxor b (toy_stream key iv (Z.of_nat (n + i)))) bs.
Definition toy_tag_of (seen : list Z) : list Z := replicate 15 (Zlen seen mod 256) ++ [foldr Z.add 0 seen mod 256].
Definition toy_start (t : EncryptionType) (key iv : list Z) : option ToyCtx := Some (mkToyCtx t key iv [] []).
Definition toy_update (plain : list Z) (c : ToyCtx) : ToyCtx :=
  mkToyCtx (toy_type c) (toy_key c) (toy_iv c) (toy_seen c ++ plain) (toy_tag c).
Definition toy_out (bs : list Z) (c : ToyCtx) : list Z := toy_cipher (toy_key c) (toy_iv c) (length (toy_seen c)) bs.
Definition toy_final (c : ToyCtx) : option (Z * ToyCtx) :=
  if bool_decide (toy_type c = ENC_AES128_GCM) && negb (bool_decide (toy_tag c = toy_tag_of (toy_seen c))) then None else Some (0, c).
#[global] Instance Toy_openssl : Openssl ToyCtx := {|
  EVP_EncryptInit := toy_start; EVP_DecryptInit := toy_start;
  EVP_EncryptUpdate bs c := Some (toy_out bs c, toy_update bs c);
  EVP_DecryptUpdate bs c := Some (toy_out bs c, toy_update (toy_out bs c) c);
  EVP_EncryptFinal c := Some (0, c); EVP_DecryptFinal := toy_final;
  EVP_get_tag c := Some (toy_tag_of (toy_seen c));
  EVP_set_tag tag c := mkToyCtx (toy_type c) (toy_key c) (toy_iv c) (toy_seen c) tag;
  EVP_copy c := Some c |}.

Definition toy_at (c : ToyCtx) (t : EncryptionType) (key iv seen : list Z) : Prop :=
  toy_type c = t /\ toy_key c = key /\ toy_iv c = iv /\ toy_seen c = seen.
Lemma toy_cipher_length key iv n bs : length (toy_cipher key iv n bs) = length bs.
Proof. apply length_imap. Qed.
Lemma toy_cipher_app key iv n a b : toy_cipher key iv n (a ++ b) = toy_cipher key iv n a ++ toy_cipher key iv (n + length a) b.
Proof.
  unfold toy_cipher. rewrite imap_app. f_equal. apply imap_ext. intros i x _. unfold compose. by rewrite Nat.add_assoc.
Qed.
Lemma toy_cipher_twice key iv n bs : toy_cipher key iv n (toy_cipher key iv n bs) = bs.
Proof.
  revert n. induction bs as [|b bs IH]; intros n; [done|]. change (b :: bs) with ([b] ++ bs).
  rewrite !toy_cipher_app, toy_cipher_length, IH. simpl. f_equal. by rewrite Z.lxor_assoc, Z.lxor_nilpotent, Z.lxor_0_r.
Qed.
#[global] Instance Toy_openssl_laws : OpensslLaws ToyCtx.
Proof.
  refine {| cipher _ key iv seen := toy_cipher key iv (length seen); tag_of _ _ _ := toy_tag_of;
            encrypting := toy_at; decrypting := toy_at |}.
  - intros. rewrite toy_cipher_app. by rewrite length_app.
  - intros. apply toy_cipher_length.
  - done.
  - intros t key iv c [= <-]. done.
  - intros t key iv c [= <-]. done.
  - intros c t key iv seen bs out c' (<- & <- & <- & <-) [= <- <-]. done.
  - intros c t key iv seen bs out c' (<- & <- & <- & <-) [= <- <-]. unfold toy_out. rewrite toy_cipher_twice. done.
  - intros c t key iv seen bs out c' _ [= <- <-]. apply toy_cipher_length.
  - intros c t key iv seen n c' (<- & <- & <- & <-) [= <- <-]. split; [done|]. by intros tag [= <-].
  - by intros c t key iv seen tag (<- & <- & <- & <-).
  - intros c t key iv seen n c' _ E. simpl in E. unfold toy_final in E. case_match; [done|]. by injection E as <- _.
  - by intros c c' [= <-].
Defined.

(** ** A connection

    [arrivals] are the pieces that arrive; [None] is a time-out of the system
    call, after which the clock has gone on by a second. *)
Record Wire := mkWire { arrivals : list (option (list Z)); written_ : list Z; clock_ : Z }.
Definition wire_read (n : Z) (w : Wire) : Z * list Z * Z * Wire :=
  match arrivals w with
  | [] => (0, [], 0, w)
  | None :: l => (-1, [], EAGAIN, mkWire l (written_ w) (clock_ w + 1000))
  | Some c :: l =>
      let bs := take (Z.to_nat n) c in
      let left := drop (Z.to_nat n) c in
      (Zlen bs, bs, 0, mkWire (if bool_decide (left = []) then l else Some left :: l) (written_ w) (clock_ w))
  end.
Definition stalls (l : list (option (list Z))) : nat := length (filter (fun c => c = None) l).
#[global] Instance Wire_os : SocketOs Wire := {|
  sys_read := wire_read;
  sys_write bs w := (Zlen bs, 0, mkWire (arrivals w) (written_ w ++ bs) (clock_ w));
  RAND_bytes w := (Some (replicate 16 (clock_ w)), w);
  shouldAbort w := (false, w); clockMillis w := (clock_ w, w); tagVerified w := w;
  sys_shutdown w := (false, w); sys_close w := (false, w);
  patience w := stalls (arrivals w) |}.
Definition arriving (l : list (option (list Z))) : list Z := concat (default [] <$> l).
#[global] Instance Wire_os_laws : SocketOsLaws Wire.
Proof.
  refine {| wire_in w := arriving (arrivals w); wire_out := written_ |}.
  - intros n w r bs e w' Hn E. simpl in E. unfold wire_read in E. simpl. destruct (arrivals w) as [|[c|] l] eqn:Ea; injection E as <- <- <- <-.
    + rewrite Ea. split_and!; [done..|by intros []|]. by left.
    + assert (arriving (if bool_decide (drop (Z.to_nat n) c = []) then l else Some (drop (Z.to_nat n) c) :: l)
        = drop (Z.to_nat n) c ++ arriving l) as Hl by (case_bool_decide as Hd; [by rewrite Hd|done]).
      assert (stalls (if bool_decide (drop (Z.to_nat n) c = []) then l else Some (drop (Z.to_nat n) c) :: l) = stalls l) as Hs
        by (by case_bool_decide). rewrite length_take. simpl. rewrite Hs.
      split_and!; [done|done|intros [? _]; lia|]. unfold arriving in *. simpl. rewrite Hl, app_assoc, take_drop.
      destruct (decide (c = [])) as [->|Hne]; [left; rewrite drop_nil; simpl; split; [lia|done]|right].
      assert (0 < Zlen c) by (destruct c; [done|simpl; lia]). split_and!; lia || done.
    + simpl. unfold stalls, again. simpl. split_and!; [done|lia|lia|]. by left.
  - intros bs w r e w' _ [= <- <- <-]. simpl. unfold again. split_and!; [done|done|lia|lia|by rewrite Nat2Z.id, firstn_all].
  - intros w r w' [= <- <-]. split; [done|]. intros iv [= <-]. done.
  - by intros w b w' [= <- <-].
  - by intros w b w' [= <- <-].
  - done.
Defined.

(** ** A connection with a tag after every four bytes, a new vector after every eight *)

#[local] Existing Instance littleHost.
Definition ex_options : SocketOptions := mkSocketOptions 1000 1000 0 4 false.
Definition ex_key : list Z := replicate 16 9.
Definition ex_socket (w : Wire) : WdtSocket ToyCtx Wire :=
  WdtSocket_make ex_options 22356 (mkEncryptionParams ENC_AES128_GCM ex_key) 8 (replicate 23 0) w.
Definition ex_text : list (list Z) := [[1; 2; 3]; [4; 5; 6; 7; 8; 9; 10]; [11; 12]].
(** What is sent for some buffers: the settings, 23 bytes, then the frames. *)
Definition ex_sent (bufs : list (list Z)) : list Z :=
  from_option (fun r => written_ (os r.2)) [] (write_all ex_options bufs true (ex_socket (mkWire [] [] 7))).
Definition ex_read (arriving : list (option (list Z))) (ns : list Z) : option (list Z) :=
  fst <$> read_all ex_options 4 ns true [] (ex_socket (mkWire arriving [] 0)).

Lemma ex_fresh_writer w : fresh_writer ENC_AES128_GCM ex_key 4 8 (ex_socket w).
Proof. by split_and!. Qed.
Lemma ex_fresh_reader w : fresh_reader ENC_AES128_GCM ex_key 4 8 (ex_socket w).
Proof. by split_and!. Qed.
(** 23 bytes of settings, 12 of text, two tags and a vector. *)
Example ex_sent_length : Zlen (ex_sent ex_text) = 23 + 12 + 2 * 16 + 16.
Proof. vm_compute. done. Qed.
Example ex_read_back : ex_read [Some (take 31 (ex_sent ex_text)); Some (drop 31 (ex_sent ex_text))] [5; 1; 6] = Some (concat ex_text).
Proof. vm_compute. done. Qed.
(** A time-out in front of a tag or between bytes does no harm. *)
Example ex_timeout_between :
  ex_read [None; Some (take 25 (ex_sent ex_text)); None; Some (drop 25 (ex_sent ex_text))] [5; 5; 5; 5] = Some (concat ex_text).
Proof. vm_compute. done. Qed.

(** A time-out right behind a tag: the tag has been taken from the connection, but
    the count of the bytes still says that it is to come, so the next read takes
    the next sixteen bytes for the tag and the connection is lost. *)
Definition ex_stalled : list (option (list Z)) :=
  [Some (take (23 + 4 + 16) (ex_sent [replicate 40 1])); None; Some (drop (23 + 4 + 16) (ex_sent [replicate 40 1]))].
Theorem timeout_behind_tag_loses_connection :
  exists s1 s2, read ex_options 40 true (ex_socket (mkWire ex_stalled [] 0)) = Some ((4, replicate 4 1), s1)
    /\ readErrorCode_ s1 = WDT_TIMEOUT /\ in_step 4 s1 = false
    /\ read ex_options 36 true s1 = Some ((-1, []), s2) /\ readErrorCode_ s2 = ENCRYPTION_ERROR.
Proof. eexists _, _. split; [vm_compute; reflexivity|]. split; [done|]. split; [done|]. split; [vm_compute; reflexivity|]. done. Qed.

(** ** A peer that does not encrypt *)

Definition ex_tolerant (arriving : list (option (list Z))) : WdtSocket ToyCtx Wire :=
  enableUnencryptedPeerSupport (ex_socket (mkWire arriving [] 0)) <| fd_ := 3 |>.
(** The command it starts with is delivered as data, and what follows it. *)
Example ex_unencrypted_peer :
  fst <$> read ex_options 3 true (ex_tolerant [Some [70; 1; 2; 3]]) = Some (3, [70; 1; 2]).
Proof. vm_compute. done. Qed.
(** If the first read is for one byte, it is delivered, but the read of the
    remaining none is taken for the end of the connection. *)
Theorem unencrypted_single_byte_fails :
  exists s1 s2, read ex_options 1 true (ex_tolerant [Some [70; 1; 2; 3]]) = Some ((1, [70]), s1)
    /\ readErrorCode_ s1 = SOCKET_READ_ERROR /\ read ex_options 1 true s1 = Some ((-1, []), s2).
Proof. eexists _, _. split; [vm_compute; reflexivity|]. split; [done|]. vm_compute. done. Qed.
(** Encryption is then off for the socket, also for its later connections. *)
Theorem unencrypted_peer_is_remembered :
  exists s1 c s2, read ex_options 3 true (ex_tolerant [Some [70; 1; 2; 3]]) = Some ((3, [70; 1; 2]), s1)
    /\ closeConnection ex_options s1 = Some (c, s2) /\ fd_ s2 = -1 /\ isSet (encryptionParams_ s2) = false.
Proof. eexists _, _, _. split; [vm_compute; reflexivity|]. split; [vm_compute; reflexivity|]. done. Qed.

(** ** Witnesses *)

Lemma unencrypted_socket_witness :
  let s := WdtSocket_make (Ctx := ToyCtx) ex_options 22356 EncryptionParams_none 0 [] (mkWire [Some [1; 2; 3]] [] 0) in
  wp (readWithTimeout ex_options 2 1000 true)
    (fun r s' => unencrypted s' /\ exists more, receives more (os s) (os s')
       /\ (r.1 <= 0 /\ r.2 = [] /\ more = [] \/ 0 < r.1 <= 2 /\ r.2 = more /\ Zlen more = r.1)) s
  /\ wp (write ex_options [4; 5] true)
      (fun r s' => unencrypted s' /\ exists k, sends (take k [4; 5]) (os s) (os s') /\ (r = 2 /\ take k [4; 5] = [4; 5] \/ r = -1)) s.
Proof. intros s. by apply (unencrypted_socket ex_options s 2 1000 true [4; 5] true). Defined.
Lemma encrypted_writes_witness :
  wp (write_all ex_options ex_text true)
    (fun ok s' => wrote_first ENC_AES128_GCM ex_key 4 8 (concat ex_text) (ok = true) (ex_socket (mkWire [] [] 7)) s')
    (ex_socket (mkWire [] [] 7)).
Proof.
  apply (encrypted_writes ex_options ENC_AES128_GCM ex_key 4 8 [1; 2; 3] [[4; 5; 6; 7; 8; 9; 10]; [11; 12]] true).
  - apply ex_fresh_writer.
  - by repeat constructor.
Defined.
(** Nothing arrives but the settings and the first byte of a text of one byte. *)
Lemma encrypted_read_witness :
  let st := mkStream (replicate 16 7) [] 0 in
  let s := ex_socket (mkWire [Some (opening ENC_AES128_GCM 4 (replicate 16 7) ++ enc ENC_AES128_GCM ex_key st [5])] [] 0) in
  wp (readWithTimeout ex_options 3 1000 true) (delivers ENC_AES128_GCM ex_key 4 8 [] (extend st [5]) [5] 3) s.
Proof.
  intros st s. apply (encrypted_read ex_options ENC_AES128_GCM ex_key 4 8 [] (extend st [5]) [5] 3 1000 true s); [|by left|lia].
  right. split; [apply ex_fresh_reader|]. exists (replicate 16 7), (enc ENC_AES128_GCM ex_key st [5]). split; [done|]. split; [by vm_compute|].
  change (enc ENC_AES128_GCM ex_key st [5]) with ([] ++ enc ENC_AES128_GCM ex_key st [5] ++ []).
  eapply frames_cons; [by apply opens_data|apply frames_nil].
Defined.
Lemma encrypted_channel_witness :
  wp (write_all ex_options ex_text true)
    (fun _ s' => exists sent, wire_out (os s') = wire_out (os (ex_socket (mkWire [] [] 7))) ++ sent
       /\ forall sr ns tryFull, fresh_reader ENC_AES128_GCM ex_key 4 8 sr -> readErrorCode_ sr = OK -> Forall (fun n => 0 < n) ns ->
          wire_in (os sr) `prefix_of` sent ->
          wp (read_all ex_options 4 ns tryFull []) (fun data _ => data `prefix_of` concat ex_text) sr) (ex_socket (mkWire [] [] 7)).
Proof.
  unfold ex_text. apply (encrypted_channel ex_options ENC_AES128_GCM ex_key 4 8 [1; 2; 3] [[4; 5; 6; 7; 8; 9; 10]; [11; 12]] true).
  - apply ex_fresh_writer.
  - by repeat constructor.
Defined.
(** A connection that is closed after a write. *)
Lemma closed_socket_starts_afresh_witness :
  let s := ex_socket (mkWire [] [] 7) <| fd_ := 3 |> in
  exists r s1, write ex_options [1; 2; 3; 4; 5] true s = Some (r, s1) /\ r = 5
    /\ wp (closeConnectionInternal ex_options true)
         (fun _ s' => fd_ s' = -1 /\ readErrorCode_ s' = OK
            /\ fresh_writer ENC_AES128_GCM ex_key 4 8 s' /\ fresh_reader ENC_AES128_GCM ex_key 4 8 s') s1.
Proof.
  intros s. eexists _, _. split; [vm_compute; reflexivity|]. split; [done|].
  apply (closed_socket_starts_afresh ex_options true ENC_AES128_GCM ex_key 4 8); try done.
  intros _. eexists _, _, _, _. split; [done|]. split; [reflexivity|]. simpl. split; [|by eexists]. done.
Defined.
