(* ===== verification/AwdtText.v ===== *)
(** The desktop program, its strings: what [desktop/awdt.cpp] does with text.

    Strings are lists of bytes.  An exception is [inl] of its message; the
    functions of the standard library that throw give [None].  The functions of
    OpenSSL are the class [Crypto]. *)
From Stdlib Require Import Ascii Decimal DecimalString DecimalZ DecimalFacts.
From S2P Require Import Prelude ErrorCodes Protocol Uri.

(** [std::to_string] of a number. *)
Definition to_string (n : Z) : list Z := txt (NilZero.string_of_int (Z.to_int n)).

(** ** Numbers in text: [strtol] as [std::stoi] and [std::stoll] use it *)

Definition isspace (c : Z) : bool := (c =? 32) || ((9 <=? c) && (c <=? 13)).
Definition isdigit (c : Z) : bool := (chr "0" <=? c) && (c <=? chr "9").
Definition isxdigit (c : Z) : bool :=
  isdigit c || ((chr "a" <=? c) && (c <=? chr "f")) || ((chr "A" <=? c) && (c <=? chr "F")).
(** The value of a digit in the base, 10 or 16. *)
Definition digit (base c : Z) : option Z :=
  if isdigit c then Some (c - chr "0")
  else if base =? 10 then None
  else if (chr "a" <=? c) && (c <=? chr "f") then Some (c - chr "a" + 10)
  else if (chr "A" <=? c) && (c <=? chr "F") then Some (c - chr "A" + 10)
  else None.
Fixpoint digits (base : Z) (s : list Z) (v : Z) : Z :=
  match s with
  | c :: s => match digit base c with Some d => digits base s (v * base + d) | None => v end
  | [] => v
  end.
Fixpoint skip_spaces (s : list Z) : list Z :=
  match s with c :: s' => if isspace c then skip_spaces s' else s | [] => [] end.
(** In base 16 a leading [0x] is skipped if a digit follows. *)
Definition skip_0x (base : Z) (s : list Z) : list Z :=
  match s with
  | z :: x :: d :: s' =>
      if (base =? 16) && (z =? chr "0") && ((x =? chr "x") || (x =? chr "X")) && isxdigit d then d :: s' else s
  | _ => s
  end.
Definition strtol (base : Z) (s : list Z) : option Z :=
  let s := skip_spaces s in
  let '(sign, s) :=
    match s with
    | c :: s' => if c =? chr "-" then (-1, s') else if c =? chr "+" then (1, s') else (1, s)
    | [] => (1, s)
    end in
  let s := skip_0x base s in
  match s with
  | c :: _ => let* _ := digit base c in Some (sign * digits base s 0)
  | [] => None
  end.
Definition stoi_base (base : Z) (s : list Z) : option Z :=
  let* v := strtol base s in check bool_decide (inS 32 v) ;; Some v.
Definition stoi (s : list Z) : option Z := stoi_base 10 s.
Definition stoll (s : list Z) : option Z := let* v := strtol 10 s in check bool_decide (inS 64 v) ;; Some v.

(** ** Encoding *)

Definition hexDigit (v : Z) : Z := if v <? 10 then chr "0" + v else chr "a" + v - 10.
Definition toHex (bytes : list Z) : list Z := concat ((fun c => [hexDigit (Z.shiftr c 4); hexDigit (Z.land c 15)]) <$> bytes).
Fixpoint fromHex (hex : list Z) : option (list Z) :=
  match hex with
  | a :: b :: hex =>
      let* v := stoi_base 16 [a; b] in
      let* out := fromHex hex in
      Some (wrapU 8 v :: out)
  | _ => Some []
  end.

(** [EVP_EncodeBlock] and [EVP_DecodeBlock] ([None] is a negative result),
    [EVP_Digest] with SHA-256 and [RAND_bytes] ([None] is a failure), and keys:
    generation, [i2d_PUBKEY], [d2i_PUBKEY] with the test that it is a point of
    P-256, and the derivation of a secret. *)
Class Crypto (Key PubKey : Type) := {
  EncodeBlock : list Z -> list Z;
  DecodeBlock : list Z -> option (list Z);
  Digest_sha256 : list Z -> option (list Z);
  public : Key -> PubKey;
  i2d_PUBKEY : PubKey -> list Z;
  d2i_P256 : list Z -> option PubKey;
  derive : Key -> PubKey -> option (list Z)
}.

(** ** Exceptions *)

Definition throw {A} (msg : string) : list Z + A := inl (txt msg).

Section encoding.
Context `{Crypto Key PubKey}.

Definition base64Encode (bytes : list Z) : list Z := EncodeBlock bytes.
(** The number of trailing [=]. *)
Fixpoint trailing (c : Z) (s : list Z) : nat :=
  match s with
  | [] => O
  | x :: s' => if forallb (Z.eqb c) s then length s else trailing c s'
  end.
(** [text.size() - text.find_last_not_of('=') - 1] is the padding, also when
    there is nothing else, for then [find_last_not_of] is the largest number;
    [resize] throws if the difference is negative. *)
Definition base64Decode (text : list Z) : list Z + list Z :=
  if bool_decide (text = []) || negb (Zlen text mod 4 =? 0) then throw "bad base64"
  else
    match DecodeBlock text with
    | None => throw "bad base64"
    | Some out =>
        let padding := trailing (chr "=") text in
        if (length out <? padding)%nat then throw "length_error" else inr (take (length out - padding) out)
    end.
Definition sha256 (data : list Z) : list Z + list Z :=
  match Digest_sha256 data with Some md => inr md | None => throw "sha256 failed" end.
Definition parseP256PublicKey (der : list Z) : list Z + PubKey :=
  match d2i_P256 der with Some k => inr k | None => throw "bad public key" end.
Definition ecdh (mine : Key) (theirs : PubKey) : list Z + list Z :=
  match derive mine theirs with Some s => inr s | None => throw "key agreement failed" end.
End encoding.

(** ** Lines, words and parameters *)

(** [in >> w] until it fails: the words between white space.  [w] is the word
    under way, in reverse. *)
Fixpoint split_words (s w : list Z) : list (list Z) :=
  match s with
  | [] => if bool_decide (w = []) then [] else [rev w]
  | c :: s => if isspace c then (if bool_decide (w = []) then [] else [rev w]) ++ split_words s [] else split_words s (c :: w)
  end.
Definition words (s : list Z) : list (list Z) := split_words s [].
(** [std::getline] with a delimiter until it fails: nothing behind the last
    delimiter is no piece. *)
Fixpoint getlines (d : Z) (s w : list Z) : list (list Z) :=
  match s with
  | [] => if bool_decide (w = []) then [] else [rev w]
  | c :: s => if c =? d then rev w :: getlines d s [] else getlines d s (c :: w)
  end.
Definition tolower (c : Z) : Z := if (chr "A" <=? c) && (c <=? chr "Z") then c + 32 else c.
(** [strncasecmp(p, "enc=", 4) == 0] *)
Definition starts_enc (p : list Z) : bool := bool_decide ((tolower <$> take 4 p) = txt "enc=").
(** [join ", "] of strings *)
Fixpoint join (d : list Z) (l : list (list Z)) : list Z :=
  match l with [] => [] | [s] => s | s :: l => s ++ d ++ join d l end.

Definition urlWithoutKey (url : list Z) : list Z :=
  match break (Z.eqb (chr "?")) url with
  | (_, []) => url
  | (front, _ :: params) =>
      let kept := base.filter (fun p => p <> [] /\ starts_enc p = false) (getlines (chr "&") params []) in
      front ++ [chr "?"] ++ join [chr "&"] kept
  end.

(** The words of a message; the last one may contain spaces. *)
Fixpoint messageWords_loop (count : nat) (msg : list Z) : list (list Z) :=
  match count with
  | S (S _ as count') =>
      match break (Z.eqb 32) msg with
      | (w, _ :: rest) => w :: messageWords_loop count' rest
      | (_, []) => [msg]
      end
  | _ => [msg]
  end.
Definition messageWords (msg : list Z) (count : nat) : list (list Z) := messageWords_loop count msg.

(** ** JSON *)

Definition jsonChar (c : Z) : list Z :=
  if (c =? 34) || (c =? 92) then [92; c]
  else if c <? 32 then txt "\u00" ++ [hexDigit (Z.shiftr c 4); hexDigit (Z.land c 15)]
  else [c].
Definition jsonString (s : list Z) : list Z := [34] ++ concat (jsonChar <$> s) ++ [34].

(** ** Links

    The expression
    [^(?:awdt|http)://(\[[0-9a-fA-F:.]+\]|[^:/\[\]]+):(\d{1,5})/([0-9a-fA-F]{32})/?$]
    has at most one way to match: each part ends where its class of characters
    does. *)
Fixpoint span (p : Z -> bool) (s : list Z) : list Z * list Z :=
  match s with
  | c :: s' => if p c then let '(a, b) := span p s' in (c :: a, b) else ([], s)
  | [] => ([], [])
  end.
Definition strip_prefix (p s : list Z) : option (list Z) :=
  if bool_decide (take (length p) s = p) then Some (drop (length p) s) else None.
Definition linkHost (s : list Z) : option (list Z * list Z) :=
  match s with
  | c :: s' =>
      if c =? chr "[" then
        let '(h, rest) := span (fun c => isxdigit c || (c =? chr ":") || (c =? chr ".")) s' in
        check negb (bool_decide (h = [])) ;;
        let* rest := strip_prefix (txt "]") rest in
        Some (h, rest)
      else
        let '(h, rest) := span (fun c => negb ((c =? chr ":") || (c =? chr "/") || (c =? chr "[") || (c =? chr "]"))) s in
        check negb (bool_decide (h = [])) ;;
        Some (h, rest)
  | [] => None
  end.
Definition isKey (s : list Z) : bool := (Zlen s =? 32) && forallb isxdigit s.
(** The host without brackets, the port and the key, as text. *)
Definition matchLink (link : list Z) : option (list Z * list Z * list Z) :=
  let* s := match strip_prefix (txt "awdt://") link with Some s => Some s | None => strip_prefix (txt "http://") link end in
  let* (host, s) := linkHost s in
  let* s := strip_prefix (txt ":") s in
  let '(port, s) := span isdigit s in
  check (1 <=? Zlen port) && (Zlen port <=? 5) ;;
  let* s := strip_prefix (txt "/") s in
  let '(key, s) := span isxdigit s in
  check Zlen key =? 32 ;;
  check bool_decide (s = []) || bool_decide (s = txt "/") ;;
  Some (host, port, key).
