(* ===== verification/AwdtHub.v ===== *)
(** The hub of the desktop program: the devices seen on the network, the UDP
    messages that change them, and the page that lists them ([Hub], [udpLoop] and
    [hubHttp] of [desktop/awdt.cpp]).

    Times are nanoseconds of the steady clock.  What is sent and received are
    arguments and results; the mutex makes each operation of the hub one step. *)
From Stdlib Require Import Ascii.
From S2P Require Import Prelude ErrorCodes Protocol Uri AwdtText.

Definition kProtocol : list Z := txt "AWDT/1".
Definition kDefaultPort : Z := 22355.
Definition kDefaultHubPort : Z := 22350.

(** ** [Hub] *)

Record Device := mkDevice {
  dev_name : list Z;
  dev_address : list Z;
  kind : list Z;
  sharePort : Z;
  shareKey : list Z;
  dev_autoAccept : bool;
  receives : bool;
  seen : Z
}.
#[global] Instance Device_settable : Settable Device := fun d =>
  mkDevice (dev_name d) (dev_address d) (kind d) (sharePort d) (shareKey d) (dev_autoAccept d) (receives d) (seen d).
Definition Hub : Type := list (list Z * Device).
Fixpoint map_erase {V} (k : list Z) (l : list (list Z * V)) : list (list Z * V) :=
  match l with
  | [] => []
  | (k', v) :: l => match str_compare k k' with Eq => l | _ => (k', v) :: map_erase k l end
  end.
Definition phoneKey (address : list Z) : list Z := txt "phone " ++ address.
Definition computerKey (address : list Z) : list Z := txt "computer " ++ address.

Definition phone (address name : list Z) (sharePort : Z) (shareKey : list Z) (now : Z) (devices : Hub) : Hub :=
  let devices := map_erase (computerKey address) devices in
  let receives := from_option receives false (map_get (phoneKey address) devices) in
  map_set (phoneKey address) (mkDevice name address (txt "phone") sharePort shareKey false receives now) devices.
Definition computer (address name : list Z) (autoAccept : bool) (now : Z) (devices : Hub) : Hub :=
  match map_get (phoneKey address) devices with
  | Some p => map_set (phoneKey address) (p <| receives := true |>) devices
  | None => map_set (computerKey address) (mkDevice name address (txt "computer") 0 [] autoAccept false now) devices
  end.

Definition kSecond : Z := 1000000000.
Definition ttl (d : Device) : Z := (if bool_decide (kind d = txt "phone") then 12 else 35) * kSecond.
Definition expired (now : Z) (d : Device) : bool := ttl d <? now - seen d.
Definition quoted (key : string) : list Z := [34] ++ txt key ++ [34].
Definition json_bool (b : bool) : list Z := txt (if b then "true" else "false").
Definition shareLink (d : Device) : list Z :=
  txt "http://" ++ dev_address d ++ txt ":" ++ to_string (sharePort d) ++ txt "/" ++ shareKey d ++ txt "/".
Definition deviceJson (d : Device) : list Z :=
  txt "{" ++ quoted "name" ++ txt ":" ++ jsonString (dev_name d)
  ++ txt "," ++ quoted "address" ++ txt ":" ++ jsonString (dev_address d)
  ++ txt "," ++ quoted "kind" ++ txt ":" ++ jsonString (kind d)
  ++ (if bool_decide (kind d = txt "phone") then
        txt "," ++ quoted "share" ++ txt ":" ++ (if 0 <? sharePort d then jsonString (shareLink d) else txt "null")
        ++ txt "," ++ quoted "receives" ++ txt ":" ++ json_bool (receives d)
      else txt "," ++ quoted "autoAccept" ++ txt ":" ++ json_bool (dev_autoAccept d))
  ++ txt "}".
(** The loop over the devices: what is written, and the devices that stay. *)
Fixpoint json_loop (now : Z) (first : bool) (devices : Hub) : list Z * Hub :=
  match devices with
  | [] => ([], [])
  | (k, d) :: devices =>
      if expired now d then json_loop now first devices
      else
        let '(out, rest) := json_loop now false devices in
        ((if first then [] else txt ",") ++ deviceJson d ++ out, (k, d) :: rest)
  end.
Definition json (hubName : list Z) (now : Z) (devices : Hub) : list Z * Hub :=
  let '(out, devices) := json_loop now true devices in
  (txt "{" ++ quoted "hub" ++ txt ":" ++ jsonString hubName ++ txt "," ++ quoted "devices" ++ txt ":[" ++ out ++ txt "]}", devices).

(** ** UDP *)

Record ReceiveConfig := mkReceiveConfig {
  folder : list (list Z);
  autoAccept : bool;
  config_name : list Z;
  config_port : Z;
  hubPort : Z
}.
Definition reply (config : ReceiveConfig) : list Z :=
  kProtocol ++ txt " HERE " ++ to_string (config_port config) ++ txt " " ++ txt (if autoAccept config then "1" else "0")
  ++ txt " " ++ config_name config.
Fixpoint trim_front (s : list Z) : list Z :=
  match s with c :: s' => if (c =? 10) || (c =? 13) then trim_front s' else s | [] => [] end.
Definition trim_end (s : list Z) : list Z := rev (trim_front (rev s)).
(** One message: the answer that is sent, and the hub, if there is one.
    [addresses] are those of this computer. *)
Definition udpMessage (config : ReceiveConfig) (addresses : list (list Z)) (now : Z) (address msg : list Z) (hub : option Hub)
    : option (list Z) * option Hub :=
  if bool_decide (msg = []) then (None, hub)
  else
    match messageWords (trim_end msg) 5 with
    | tag :: verb :: args =>
        if negb (bool_decide (tag = kProtocol)) then (None, hub)
        else if bool_decide (verb = txt "DISCOVER") then (Some (reply config), hub)
        else
          match hub with
          | None => (None, hub)
          | Some h =>
              match args with
              | [a; b; name] =>
                  if bool_decide (verb = txt "HERE") then
                    if bool_decide (address ∈ addresses) then (None, hub)
                    else (None, Some (computer address name (bool_decide (b = txt "1")) now h))
                  else if bool_decide (verb = txt "ANNOUNCE") then
                    match stoi a with
                    | None => (None, hub)
                    | Some port =>
                        let sharing := (0 <? port) && (port <? 65536) && isKey b in
                        (None, Some (phone address name (if sharing then port else 0) (if sharing then b else []) now h))
                    end
                  else (None, hub)
              | _ => (None, hub)
              end
          end
    | _ => (None, hub)
    end.

(** Every ten seconds the hub asks the addresses for broadcasts, each once and in
    the order of a [std::set]. *)
Definition discoveryTargets (broadcasts : list (list Z)) : list (list Z) :=
  fst <$> foldl (fun m a => if bool_decide (a = []) then m else map_set a tt m) [(txt "255.255.255.255", tt)] broadcasts.

(** ** The page *)

Definition crlf : list Z := [13; 10].
Definition httpRespond (status : Z) (reason : string) (type body : list Z) : list Z :=
  txt "HTTP/1.1 " ++ to_string status ++ txt " " ++ txt reason
  ++ crlf ++ txt "Content-Type: " ++ type
  ++ crlf ++ txt "Content-Length: " ++ to_string (Zlen body)
  ++ crlf ++ txt "Cache-Control: no-store"
  ++ crlf ++ txt "X-Content-Type-Options: nosniff"
  ++ crlf ++ txt "Referrer-Policy: no-referrer"
  ++ crlf ++ txt "Content-Security-Policy: default-src 'none'; script-src 'self'; style-src 'self'; img-src 'self' data:; connect-src 'self' http:; frame-ancestors 'none'"
  ++ crlf ++ txt "Connection: close" ++ crlf ++ crlf ++ body.
(** What is in front of the first occurrence of a string, all if there is none. *)
Fixpoint before_str (p s : list Z) : list Z :=
  match s with
  | [] => []
  | c :: s' => if bool_decide (take (length p) s = p) then [] else c :: before_str p s'
  end.
Fixpoint occurs (p s : list Z) : bool :=
  bool_decide (take (length p) s = p) || match s with [] => false | _ :: s' => occurs p s' end.
(** [chunks] are the results of [recv] until it gives none. *)
Fixpoint readRequest (chunks : list (list Z)) (request : list Z) : list Z :=
  if negb (occurs (crlf ++ crlf) request) && (Zlen request <? 16384) then
    match chunks with
    | [] => request
    | c :: chunks => readRequest chunks (request ++ c)
    end
  else request.
Definition ends_with (p s : list Z) : bool := (length p <? length s)%nat && bool_decide (drop (length s - length p) s = p).
Definition fileType (name : list Z) : list Z :=
  if ends_with (txt ".html") name then txt "text/html; charset=utf-8"
  else if ends_with (txt ".js") name then txt "text/javascript; charset=utf-8"
  else txt "text/css; charset=utf-8".
(** The file of the path; of two with the same name the last one. *)
Definition findFile (files : list (list Z * list Z)) (path : list Z) : option (list Z * list Z) :=
  foldl (fun r f => if bool_decide (path = txt "/" ++ f.1) then Some f else r) None files.
(** [files] are [kHubFiles], which the build makes from [desktop/hub]. *)
Definition hubHttp (files : list (list Z * list Z)) (hubName : list Z) (now : Z) (chunks : list (list Z)) (hub : Hub)
    : list Z * Hub :=
  let request := readRequest chunks [] in
  let line := words (before_str crlf request) in
  let method := default [] (line !! 0%nat) in
  let target := default [] (line !! 1%nat) in
  let path := (break (Z.eqb (chr "?")) target).1 in
  if negb (bool_decide (method = txt "GET")) && negb (bool_decide (method = txt "HEAD")) then
    (httpRespond 405 "Method Not Allowed" (txt "text/plain") (txt "Method not allowed"), hub)
  else if bool_decide (path = txt "/devices.json") then
    let '(body, hub) := json hubName now hub in
    (httpRespond 200 "OK" (txt "application/json") body, hub)
  else
    let path := if bool_decide (path = txt "/") then txt "/index.html" else path in
    match findFile files path with
    | None => (httpRespond 404 "Not Found" (txt "text/plain") (txt "Not found"), hub)
    | Some (name, data) => (httpRespond 200 "OK" (fileType name) data, hub)
    end.
