(* ===== verification/AwdtPush.v ===== *)
(** The desktop program, receiving: the line protocol over a connection, the
    staging folder and the two commands ([Connection], [moveReceived],
    [startReceiver], [handlePush], [cmdGet] and the options of [main] of
    [desktop/awdt.cpp]).

    A function that may throw returns a sum; the state is the buffer of the one
    connection, the file system and the rest of the world.  What is printed on
    the terminal is left out. *)
From Stdlib Require Import Ascii.
From stdpp Require Import gmap.
From S2P Require Import Prelude ErrorCodes Protocol Uri StateMonad AwdtText AwdtHub.

Definition kWdtStartPort : Z := 22356.
Definition kWdtNumPorts : Z := 3.
Definition kReceiverHost : list Z := txt "receiver".
Definition kMbToB : Z := 1024 * 1024.

(** ** The file system

    A path is its components.  [Dangling] is a symbolic link to nothing; other
    links are what they lead to. *)
Abbreviation Path := (list (list Z)).
Inductive Node := Dir | File (data : list Z) | Dangling.
Abbreviation Fs := (gmap Path Node).
Definition fs_exists (p : Path) (fs : Fs) : bool :=
  match fs !! p with Some Dangling | None => false | Some _ => true end.
Definition is_regular_file (p : Path) (fs : Fs) : bool := match fs !! p with Some (File _) => true | _ => false end.
Fixpoint create_dirs (made rest : Path) (fs : Fs) : list Z + Fs :=
  match rest with
  | [] => inr fs
  | c :: rest =>
      let p := made ++ [c] in
      match fs !! p with
      | Some Dir => create_dirs p rest fs
      | Some _ => throw "cannot create directories"
      | None => create_dirs p rest (<[p := Dir]> fs)
      end
  end.
Definition create_directories (p : Path) (fs : Fs) : list Z + Fs := create_dirs [] p fs.
(** A file takes the place of a file or a link, not of a folder. *)
Definition rename (from to : Path) (fs : Fs) : list Z + Fs :=
  match fs !! from, fs !! to with
  | Some n, Some Dir => throw "cannot rename"
  | Some n, _ => inr (<[to := n]> (delete from fs))
  | None, _ => throw "cannot rename"
  end.
Definition remove_all (p : Path) (fs : Fs) : Fs := base.filter (fun e => ~ p `prefix_of` e.1) fs.

(** [stem] and [extension] of a file name: the extension starts at the last dot,
    unless that is the first character. *)
Fixpoint last_dot (i : nat) (name : list Z) : option nat :=
  match name with
  | [] => None
  | c :: name => match last_dot (S i) name with Some j => Some j | None => if c =? chr "." then Some i else None end
  end.
Definition dot (name : list Z) : nat :=
  if bool_decide (name = txt "..") then length name
  else match last_dot 0 name with Some (S i) => S i | _ => length name end.
Definition stem (name : list Z) : list Z := take (dot name) name.
Definition extension (name : list Z) : list Z := drop (dot name) name.

(** The first name of [target], [stem (1)ext], ... that is free. *)
Definition numbered (parent : Path) (st ext : list Z) (i : Z) : Path :=
  parent ++ [st ++ txt " (" ++ to_string i ++ txt ")" ++ ext].
Fixpoint freeTarget (rounds : nat) (i : Z) (parent : Path) (st ext : list Z) (target : Path) (fs : Fs) : option Path :=
  if fs_exists target fs then
    match rounds with
    | O => None
    | S rounds => freeTarget rounds (i + 1) parent st ext (numbered parent st ext i) fs
    end
  else Some target.
(** One entry of the staging folder, by its path in there; the result has the
    path it was saved to, if it was. *)
Definition moveEntry (staging dest rel : Path) (fs : Fs) : option (list Z + (option Path * Fs)) :=
  let name := default [] (last rel) in
  if negb (is_regular_file (staging ++ rel) fs) || bool_decide (name = txt ".wdt.log") then Some (inr (None, fs))
  else
    let parent := dest ++ removelast rel in
    match create_directories parent fs with
    | inl e => Some (inl e)
    | inr fs =>
        let* target := freeTarget (S (size fs)) 1 parent (stem name) (extension name) (parent ++ [name]) fs in
        match rename (staging ++ rel) target fs with
        | inl e => Some (inl e)
        | inr fs => Some (inr (Some target, fs))
        end
    end.
Fixpoint moveLoop (staging dest : Path) (entries : list Path) (fs : Fs) : option ((list Z + list Path) * Fs) :=
  match entries with
  | [] => Some (inr [], fs)
  | rel :: entries =>
      let* r := moveEntry staging dest rel fs in
      match r with
      | inl e => Some (inl e, fs)
      | inr (saved, fs) =>
          let* (r, fs) := moveLoop staging dest entries fs in
          Some (match r with inl e => inl e | inr l => inr (from_option (fun p => [p]) [] saved ++ l) end, fs)
      end
  end.
(** [entries] is what the iterator over the staging folder gives, in any order. *)
Definition moveReceived (staging dest : Path) (entries : list Path) (fs : Fs) : option ((list Z + list Path) * Fs) :=
  let* (r, fs) := moveLoop staging dest entries fs in
  Some (r, match r with inr _ => remove_all staging fs | inl _ => fs end).

(** ** The world *)

(** [send] and [recv] on the connection, with whether [errno] is [EAGAIN];
    [RAND_bytes]; a new key; the question to the user; [connectTo]; a receiver:
    [init] with static ports or not, [transferAsync], and [finish], which puts
    files in the staging folder; and the order of a folder. *)
Class AwdtOs (Key W : Type) := {
  net_send : list Z -> W -> Z * W;
  net_recv : W -> Z * list Z * bool * W;
  random : Z -> W -> option (list Z) * W;
  keygen : W -> option Key * W;
  ask : list Z -> Z -> list Z -> W -> bool * W;
  connectTo : list Z -> Z -> W -> option (list Z) * W;
  receiver_init : bool -> WdtTransferRequest -> W -> WdtTransferRequest * W;
  transferAsync : W -> ErrorCode * W;
  receiver_finish : Path -> Fs -> W -> ErrorCode * Fs * W;
  folder_entries : Path -> Fs -> W -> list Path * W
}.

Record Awdt (W : Type) := mkAwdt { buf_ : list Z; files : Fs; env : W }.
Arguments mkAwdt {W}. Arguments buf_ {W}. Arguments files {W}. Arguments env {W}.
#[global] Instance Awdt_settable {W} : Settable (Awdt W) := fun a => mkAwdt (buf_ a) (files a) (env a).

Section awdt.
Context `{Folly} {Key PubKey W : Type} `{Crypto Key PubKey} `{AwdtOs Key W}.
Context (to_str : Z -> string) (hash : list Z -> list Z) (iv_change_interval_mb : Z).
Abbreviation T := (M (Awdt W)).

Definition fails {A} (msg : list Z) : T (list Z + A) := mret (inl msg).
Definition throws {A} (msg : string) : T (list Z + A) := mret (throw msg).
Definition returns {A} (a : A) : T (list Z + A) := mret (inr a).
(** Going on unless an exception was thrown. *)
Definition ebind {A B} (m : T (list Z + A)) (k : A -> T (list Z + B)) : T (list Z + B) :=
  r ← m; match r with inl e => mret (inl e) | inr a => k a end.
Local Notation "x ⇐ m ; k" := (ebind m (fun x => k)) (at level 20, m at level 100, k at level 200, right associativity).
Definition onEnv {A} (f : W -> A * W) : T A := fun a => let '(x, w) := f (env a) in Some (x, a <| env := w |>).
(** An operation on the file system that may throw. *)
Definition onFs (f : Fs -> list Z + Fs) : T (list Z + unit) := fun a =>
  match f (files a) with inl e => Some (inl e, a) | inr fs => Some (inr tt, a <| files := fs |>) end.

(** ** [Connection] *)

Fixpoint send_loop (rounds : nat) (line : list Z) : T (list Z + unit) :=
  if bool_decide (line = []) then returns tt
  else
    match rounds with
    | O => abort
    | S rounds =>
        n ← onEnv (net_send line);
        if n <=? 0 then throws "connection lost" else send_loop rounds (drop (Z.to_nat n) line)
    end.
Definition send (words : list Z) : T (list Z + unit) :=
  let line := kProtocol ++ txt " " ++ words ++ [10] in
  send_loop (length line) line.
(** Up to the end of a line; every round adds a byte, and the buffer may not grow
    over 8192. *)
Fixpoint recv_line (rounds : nat) : T (list Z + list Z) :=
  b ← gets buf_;
  match break (Z.eqb 10) b with
  | (line, _ :: rest) => _ ← modify (fun a => a <| buf_ := rest |>); returns line
  | (_, []) =>
      if 8192 <? Zlen b then throws "message too long"
      else
        match rounds with
        | O => abort
        | S rounds =>
            r ← onEnv (fun w => let '(n, bs, again, w) := net_recv w in ((n, bs, again), w));
            let '(n, bs, again) := r in
            if n =? 0 then throws "connection closed"
            else if n <? 0 then throws (if (again : bool) then "timed out" else "connection lost")
            else _ ← modify (fun a => a <| buf_ := buf_ a ++ bs |>); recv_line rounds
        end
  end.
Definition drop_cr (line : list Z) : list Z := if bool_decide (last line = Some 13) then removelast line else line.
Definition checkWords (expected line : list Z) : list Z + list (list Z) :=
  match words line with
  | tag :: verb :: args =>
      if negb (bool_decide (tag = kProtocol)) then inl (txt "not a WDT app: " ++ line)
      else if bool_decide (verb = txt "ERROR") then
        let msg := join (txt " ") args in
        inl (if bool_decide (msg = []) then txt "refused" else msg)
      else if negb (bool_decide (verb = expected)) then inl (txt "expected " ++ expected ++ txt ", got " ++ verb)
      else inr args
  | _ => inl (txt "not a WDT app: " ++ line)
  end.
Definition receive (expected : list Z) : T (list Z + list (list Z)) :=
  line ⇐ recv_line (Z.to_nat 8193);
  mret (checkWords expected (drop_cr line)).

(** ** Receiving *)

Definition path_string (p : Path) : list Z := concat ((fun c => chr "/" :: c) <$> p).
Definition startRequest (dir : Path) (key : list Z) : WdtTransferRequest :=
  WdtTransferRequest_ports kWdtStartPort kWdtNumPorts (path_string dir)
    <| hostName := kReceiverHost |> <| encryptionData := mkEncryptionParams ENC_AES128_GCM key |>
    <| ivChangeInterval := iv_change_interval_mb * kMbToB |>.
Fixpoint start_loop (staticPorts : list bool) (dir : Path) (key : list Z) : T (list Z + list Z) :=
  match staticPorts with
  | [] => throws "can't listen for the transfer"
  | static :: staticPorts =>
      ready ← onEnv (receiver_init static (startRequest dir key));
      if negb (bool_decide (errorCode ready = OK)) && negb (bool_decide (errorCode ready = FEWER_PORTS))
      then start_loop staticPorts dir key
      else
        url ← (fun a => let* url := genWdtUrlWithSecret to_str hash ready in Some (url, a));
        code ← onEnv transferAsync;
        if negb (bool_decide (code = OK)) then throws "can't start receiving" else returns url
  end.
Definition startReceiver (dir : Path) (key : list Z) : T (list Z + list Z) := start_loop [true; false] dir key.
Definition finishReceive (staging dest : Path) : T (list Z + bool) :=
  code ← (fun a => let '(code, fs, w) := receiver_finish staging (files a) (env a) in Some (code, a <| files := fs |> <| env := w |>));
  if negb (bool_decide (code = OK)) then
    _ ← modify (fun a => a <| files := remove_all staging (files a) |>); returns false
  else
    saved ⇐ (fun a => let '(entries, w) := folder_entries staging (files a) (env a) in
                      let* (r, fs) := moveReceived staging dest entries (files a) in
                      Some (r, a <| files := fs |> <| env := w |>));
    returns true.
Definition randomBytes (n : Z) : T (list Z + list Z) :=
  r ← onEnv (random n); match r with Some bs => returns bs | None => throws "no randomness" end.
Definition newStaging (dest : Path) : T (list Z + Path) :=
  r ⇐ randomBytes 4;
  let staging := dest ++ [txt ".awdt-incoming-" ++ toHex r] in
  _ ⇐ onFs (create_directories staging);
  returns staging.
(** The receiver of a transfer; when it cannot be started the staging folder is
    removed, [onError] is done and the exception goes on. *)
Definition startIn (staging : Path) (key : list Z) (onError : list Z -> T (list Z + unit)) : T (list Z + list Z) :=
  r ← startReceiver staging key;
  match r with
  | inr url => returns url
  | inl e =>
      _ ← modify (fun a => a <| files := remove_all staging (files a) |>);
      _ ⇐ onError e;
      fails e
  end.

(** [false]: the user declined, or the transfer failed. *)
Definition senderName (from : list Z) (names : list (list Z)) : list Z :=
  if bool_decide (names = []) then from else join (txt " ") names ++ txt " (" ++ from ++ txt ")".
Definition pushKey (mine : Key) (theirs : PubKey) (theirDer myDer : list Z) : list Z + list Z :=
  match ecdh mine theirs with
  | inl e => inl e
  | inr secret =>
      match sha256 (txt "awdt-push" ++ secret ++ theirDer ++ myDer) with
      | inl e => inl e
      | inr md => inr (take 16 md)
      end
  end.
Definition handlePush (from : list Z) (config : ReceiveConfig) : T (list Z + bool) :=
  push ⇐ receive (txt "PUSH");
  match push with
  | pub :: files :: size :: names =>
      theirDer ⇐ mret (base64Decode pub);
      theirs ⇐ mret (parseP256PublicKey theirDer);
      bytes ⇐ mret (match stoll size with Some n => inr n | None => throw "stoll" end);
      let sender := senderName from names in
      accepted ← (if autoAccept config then mret true else onEnv (ask files bytes sender));
      if negb accepted then _ ⇐ send (txt "ERROR declined by the receiver"); returns false
      else
        k ← onEnv keygen;
        mine ⇐ mret (match k with Some k => inr k | None => throw "key generation failed" end);
        let myDer := i2d_PUBKEY (public mine) in
        key ⇐ mret (pushKey mine theirs theirDer myDer);
        staging ⇐ newStaging (folder config);
        url ⇐ startIn staging key (fun e => send (txt "ERROR " ++ e));
        _ ⇐ send (txt "ACCEPT " ++ base64Encode myDer ++ txt " " ++ urlWithoutKey url);
        finishReceive staging (folder config)
  | _ => throws "bad request"
  end.

(** ** [awdt get] *)

Definition cmdGet (linkText : list Z) (folder : Path) : T (list Z + bool) :=
  match matchLink linkText with
  | None => throws "not a valid link (http://<host>:<port>/<32 hex digits>)"
  | Some (host, portText, keyText) =>
      port ⇐ mret (match stoi portText with Some n => inr n | None => throw "stoi" end);
      key ⇐ mret (match fromHex keyText with Some k => inr k | None => throw "stoi" end);
      failed ← onEnv (connectTo host port);
      match failed with
      | Some e => fails e
      | None =>
          proof ⇐ mret (sha256 (txt "awdt-proof" ++ key));
          _ ⇐ send (txt "HELLO " ++ toHex proof);
          offer ⇐ receive (txt "OFFER");
          _ ⇐ mret (match offer with
                    | _ :: size :: _ => match stoll size with Some n => inr tt | None => throw "stoll" end
                    | _ => inr tt
                    end);
          staging ⇐ newStaging folder;
          url ⇐ startIn staging key (fun _ => returns tt);
          _ ⇐ send (txt "RECEIVER " ++ urlWithoutKey url);
          finishReceive staging folder
      end
  end.
End awdt.

(** ** The options of [main] *)

Record Options := mkOptions {
  opt_verbose : bool; opt_autoAccept : bool; opt_name : list Z; opt_port : Z; opt_hubPort : Z; positional : list (list Z)
}.
#[global] Instance Options_settable : Settable Options := fun o =>
  mkOptions (opt_verbose o) (opt_autoAccept o) (opt_name o) (opt_port o) (opt_hubPort o) (positional o).
Inductive Command :=
  | Help | Version | Usage | Failed (msg : list Z)
  | Receive (config : ReceiveConfig)
  | Get (link : list Z) (folder : Path).
Definition isOpt (a : list Z) (names : list string) : bool := bool_decide (a ∈ (txt <$> names)).
(** The loop over the arguments: the command it ends in, or the options. *)
Fixpoint parseArgs (args : list (list Z)) (o : Options) : Command + Options :=
  match args with
  | [] => inr o
  | a :: args =>
      if isOpt a ["-h"%string; "--help"%string] then inl Help
      else if isOpt a ["--version"%string] then inl Version
      else if isOpt a ["-v"%string; "--verbose"%string] then parseArgs args (o <| opt_verbose := true |>)
      else if isOpt a ["--auto-accept"%string; "-y"%string] then parseArgs args (o <| opt_autoAccept := true |>)
      else if isOpt a ["--hub"%string] then
        parseArgs args (o <| opt_hubPort := if opt_hubPort o =? 0 then kDefaultHubPort else opt_hubPort o |>)
      else
        match args, isOpt a ["--name"%string; "--port"%string; "--hub-port"%string] with
        | v :: args, true =>
            if isOpt a ["--name"%string] then parseArgs args (o <| opt_name := v |>)
            else
              match stoi v with
              | None => inl (Failed (txt "stoi"))
              | Some n =>
                  if isOpt a ["--port"%string] then parseArgs args (o <| opt_port := n |>)
                  else parseArgs args (o <| opt_hubPort := n |>)
              end
        | _, _ =>
            if bool_decide (head a = Some (chr "-")) then inl (Failed (txt "unknown option " ++ a))
            else parseArgs args (o <| positional := positional o ++ [a] |>)
        end
  end.
Definition replace_newlines (s : list Z) : list Z := (fun c => if c =? 10 then 32 else c) <$> s.
(** [prepare] stands for [prepareFolder]: the components of the folder, which is
    made if it does not exist, or an exception. *)
Definition main (prepare : list Z -> list Z + Path) (hostName : list Z) (args : list (list Z)) : Command :=
  match parseArgs args (mkOptions false false hostName kDefaultPort 0 []) with
  | inl c => c
  | inr o =>
      let name := replace_newlines (opt_name o) in
      let get link folder := match prepare folder with inl e => Failed e | inr p => Get link p end in
      match positional o with
      | [cmd; arg] =>
          if bool_decide (cmd = txt "receive") then
            match prepare arg with
            | inl e => Failed e
            | inr p => Receive (mkReceiveConfig p (opt_autoAccept o) name (opt_port o) (opt_hubPort o))
            end
          else if bool_decide (cmd = txt "get") then get arg (txt ".")
          else Usage
      | [cmd; link; arg] => if bool_decide (cmd = txt "get") then get link arg else Usage
      | _ => Usage
      end
  end.
