(* ===== verification/AwdtTextProps.v ===== *)
(** Properties of the text functions of the desktop program: numbers,
    hexadecimal and base64 text are read back, words and messages are split
    where they were joined, and a JSON string is read back whatever it holds. *)
From Stdlib Require Import Ascii Decimal DecimalString DecimalZ DecimalFacts.
From S2P Require Import Prelude ErrorCodes Protocol Uri UriProps AwdtText.

(** ** Numbers *)

Lemma txt_cons c s : txt (String.String c s) = Z.of_nat (Ascii.nat_of_ascii c) :: txt s.
Proof. done. Qed.
Lemma digits_acc d acc : Z.pos (Pos.of_uint_acc d acc) = digits 10 (txt (NilEmpty.string_of_uint d)) (Z.pos acc).
Proof.
  revert acc. induction d as [|d IH|d IH|d IH|d IH|d IH|d IH|d IH|d IH|d IH|d IH]; intros acc; [done|..];
    cbn [Pos.of_uint_acc NilEmpty.string_of_uint]; rewrite IH, txt_cons; cbn [digits];
    match goal with |- context [digit 10 ?x] => let v := eval vm_compute in (digit 10 x) in change (digit 10 x) with v end; f_equal; lia.
Qed.
Lemma digits_uint d : Z.of_N (Pos.of_uint d) = digits 10 (txt (NilEmpty.string_of_uint d)) 0.
Proof.
  induction d as [|d IH|d _|d _|d _|d _|d _|d _|d _|d _|d _]; [done|exact IH|..];
    cbn [Pos.of_uint Z.of_N NilEmpty.string_of_uint]; rewrite digits_acc, txt_cons; done.
Qed.
Definition alldigits (s : list Z) : Prop := Forall (fun c => isdigit c = true) s.
Lemma alldigits_uint d : alldigits (txt (NilEmpty.string_of_uint d)).
Proof. induction d; [constructor|..]; cbn [NilEmpty.string_of_uint]; rewrite txt_cons; by constructor. Qed.
Lemma uint_text d : exists c s, txt (NilZero.string_of_uint d) = c :: s /\ alldigits (c :: s) /\ digits 10 (c :: s) 0 = Z.of_N (Pos.of_uint d).
Proof.
  rewrite digits_uint. pose proof (alldigits_uint d) as Hd.
  destruct d; [by exists 48, []; repeat constructor|..]; cbn [NilZero.string_of_uint NilEmpty.string_of_uint] in *; rewrite txt_cons in *; eauto.
Qed.
Lemma isdigit_plain c : isdigit c = true -> isspace c = false /\ (c =? chr "-") = false /\ (c =? chr "+") = false /\ is_Some (digit 10 c).
Proof.
  intros Hc. unfold digit. rewrite Hc. unfold isdigit, isspace in *. rewrite andb_true_iff, !Z.leb_le in Hc. change (chr "0") with 48 in *.
  change (chr "9") with 57 in *. change (chr "-") with 45. change (chr "+") with 43.
  split_and!; [|apply Z.eqb_neq; lia..|eauto]. rewrite orb_false_iff, andb_false_iff. split; [apply Z.eqb_neq; lia|right; apply Z.leb_gt; lia].
Qed.
Lemma skip_0x_10 s : skip_0x 10 s = s.
Proof. destruct s as [|? [|? [|? ?]]]; done. Qed.
Lemma strtol_to_string n : strtol 10 (to_string n) = Some n.
Proof.
  unfold to_string. destruct (Z.to_int n) as [d|d] eqn:E; apply (f_equal Z.of_int) in E; rewrite DecimalZ.of_to in E; subst n.
  - cbn [NilZero.string_of_int]. destruct (uint_text d) as (c & s & -> & Hd & Hv). apply Forall_cons in Hd as [Hc _].
    destruct (isdigit_plain c Hc) as (Hs & Hm & Hp & [v Hdig]). unfold strtol. cbn [skip_spaces]. rewrite Hs, Hm, Hp, skip_0x_10, Hdig.
    cbn [mbind option_bind]. rewrite Hv. f_equal. cbn [Z.of_int]. unfold Z.of_uint. lia.
  - cbn [NilZero.string_of_int]. rewrite txt_cons. destruct (uint_text d) as (c & s & -> & Hd & Hv). apply Forall_cons in Hd as [Hc _].
    destruct (isdigit_plain c Hc) as (_ & _ & _ & [v Hdig]). unfold strtol. cbn [skip_spaces].
    change (isspace (Z.of_nat (Ascii.nat_of_ascii "-"))) with false. cbn iota. change (Z.of_nat (Ascii.nat_of_ascii "-") =? chr "-") with true.
    cbn iota. rewrite skip_0x_10, Hdig. cbn [mbind option_bind]. rewrite Hv. f_equal.
Qed.
Lemma to_string_inj n m : to_string n = to_string m -> n = m.
Proof. intros E. apply (f_equal (strtol 10)) in E. rewrite !strtol_to_string in E. congruence. Qed.
Lemma stoi_to_string n : inS 32 n -> stoi (to_string n) = Some n.
Proof. intros Hn. unfold stoi, stoi_base. rewrite strtol_to_string. cbn [mbind option_bind]. by rewrite bool_decide_eq_true_2. Qed.
Lemma stoll_to_string n : inS 64 n -> stoll (to_string n) = Some n.
Proof. intros Hn. unfold stoll. rewrite strtol_to_string. cbn [mbind option_bind]. by rewrite bool_decide_eq_true_2. Qed.
Lemma to_string_nonneg n : 0 <= n -> to_string n <> [] /\ alldigits (to_string n).
Proof.
  intros Hn. unfold to_string. assert (exists d, Z.to_int n = Decimal.Pos d) as [d ->].
  { destruct n; [by eexists|by eexists|lia]. }
  cbn [NilZero.string_of_int]. destruct (uint_text d) as (c & s & -> & Hd & _). done.
Qed.

(** ** Hexadecimal *)

Definition hex_byte_ok (c : Z) : bool :=
  bool_decide (stoi_base 16 [hexDigit (Z.shiftr c 4); hexDigit (Z.land c 15)] = Some c)
  && isxdigit (hexDigit (Z.shiftr c 4)) && isxdigit (hexDigit (Z.land c 15)).
Lemma hex_byte c : is_byte c ->
  stoi_base 16 [hexDigit (Z.shiftr c 4); hexDigit (Z.land c 15)] = Some c
  /\ isxdigit (hexDigit (Z.shiftr c 4)) = true /\ isxdigit (hexDigit (Z.land c 15)) = true.
Proof.
  intros Hc. assert (hex_byte_ok c = true) as Hh by (by apply (byte_forall hex_byte_ok); [vm_compute|]).
  unfold hex_byte_ok in Hh. rewrite !andb_true_iff, bool_decide_eq_true in Hh. naive_solver.
Qed.
Lemma hex_roundtrip bs : Forall is_byte bs -> fromHex (toHex bs) = Some bs.
Proof.
  induction 1 as [|c bs Hc Hbs IH]; [done|]. unfold toHex. cbn [fmap list_fmap concat app fromHex]. destruct (hex_byte c Hc) as (-> & _ & _).
  cbn [mbind option_bind]. unfold toHex in IH. rewrite IH. cbn [mbind option_bind]. rewrite wrapU_small; [done|]. exact Hc.
Qed.
Lemma toHex_digits bs : Forall is_byte bs -> Forall (fun c => isxdigit c = true) (toHex bs) /\ length (toHex bs) = (2 * length bs)%nat.
Proof.
  induction 1 as [|c bs Hc Hbs [IH1 IH2]]; [done|]. unfold toHex in *. cbn [fmap list_fmap concat app length]. destruct (hex_byte c Hc) as (_ & ? & ?).
  split; [by repeat constructor|]. rewrite IH2. lia.
Qed.

(** ** Words *)

Definition plain_word (w : list Z) : Prop := w <> [] /\ Forall (fun c => isspace c = false) w.
Lemma split_words_plain w s acc : Forall (fun c => isspace c = false) w -> split_words (w ++ s) acc = split_words s (rev w ++ acc).
Proof. intros Hw. revert acc. induction Hw as [|c w Hc Hw IH]; intros acc; [done|]. simpl. rewrite Hc, IH. by rewrite <- app_assoc. Qed.
Lemma split_words_end w : w <> [] -> split_words [] (rev w) = [w].
Proof.
  intros Hw. simpl. rewrite bool_decide_eq_false_2, rev_involutive; [done|]. intros E. apply Hw.
  by rewrite <- (rev_involutive w), E.
Qed.
Lemma words_join ws : Forall plain_word ws -> words (join (txt " ") ws) = ws.
Proof.
  unfold words. induction 1 as [|w ws [Hne Hw] Hws IH]; [done|]. destruct ws as [|w' ws].
  - cbn [join]. rewrite <- (app_nil_r w) at 1. rewrite split_words_plain, app_nil_r by done. by apply split_words_end.
  - change (join (txt " ") (w :: w' :: ws)) with (w ++ 32 :: join (txt " ") (w' :: ws)).
    rewrite split_words_plain by done. rewrite app_nil_r. cbn [split_words].
    change (isspace 32) with true. cbn iota. rewrite IH. rewrite bool_decide_eq_false_2, rev_involutive; [done|].
    intros E. apply Hne. by rewrite <- (rev_involutive w), E.
Qed.

(** ** Digits of a key *)

Lemma isxdigit_plain c : isxdigit c = true -> isspace c = false /\ (c =? chr "-") = false /\ (c =? chr "+") = false
  /\ exists v, digit 16 c = Some v /\ 0 <= v < 16.
Proof.
  intros Hc. assert (is_byte c) as Hb.
  { unfold isxdigit, isdigit in Hc. rewrite !orb_true_iff, !andb_true_iff, !Z.leb_le in Hc.
    change (chr "0") with 48 in Hc. change (chr "9") with 57 in Hc. change (chr "a") with 97 in Hc. change (chr "f") with 102 in Hc.
    change (chr "A") with 65 in Hc. change (chr "F") with 70 in Hc. unfold is_byte. lia. }
  set (P c := negb (isxdigit c) || (negb (isspace c) && negb (c =? chr "-") && negb (c =? chr "+")
    && match digit 16 c with Some v => (0 <=? v) && (v <? 16) | None => false end)).
  assert (P c = true) as HP by (by apply byte_forall; [vm_compute|]). unfold P in HP. rewrite Hc in HP. cbn [negb orb] in HP.
  rewrite !andb_true_iff, !negb_true_iff in HP. destruct HP as (((? & ?) & ?) & Hd). split_and!; [done..|].
  destruct (digit 16 c) as [v|]; [|done]. exists v. rewrite andb_true_iff, Z.leb_le, Z.ltb_lt in Hd. done.
Qed.
Lemma hex_pair a b : isxdigit a = true -> isxdigit b = true -> exists v, stoi_base 16 [a; b] = Some v /\ 0 <= v < 256.
Proof.
  intros Ha Hb. destruct (isxdigit_plain a Ha) as (Hs & Hm & Hp & x & Hx & ?). destruct (isxdigit_plain b Hb) as (_ & _ & _ & y & Hy & ?).
  exists (x * 16 + y). split; [|lia]. unfold stoi_base, strtol. cbn [skip_spaces]. rewrite Hs, Hm, Hp. cbn [skip_0x]. rewrite Hx. cbn [mbind option_bind].
  cbn [digits]. rewrite Hx, Hy. rewrite bool_decide_eq_true_2; [f_equal; lia|]. unfold inS. lia.
Qed.
Lemma fromHex_digits n s : length s = (2 * n)%nat -> Forall (fun c => isxdigit c = true) s ->
  exists bs, fromHex s = Some bs /\ length bs = n /\ Forall is_byte bs.
Proof.
  revert s. induction n as [|n IH]; intros s Hl Hs; [destruct s; [by exists []|done]|].
  destruct s as [|a [|b s]]; [simpl in Hl; lia..|]. rewrite !Forall_cons in Hs. destruct Hs as (Ha & Hb & Hs).
  destruct (hex_pair a b Ha Hb) as (v & Hv & ?). destruct (IH s) as (bs & Hbs & Hn & Hby); [simpl in Hl; lia|done|].
  exists (wrapU 8 v :: bs). cbn [fromHex]. rewrite Hv. cbn [mbind option_bind]. rewrite Hbs. split; [done|]. split; [simpl; lia|].
  constructor; [apply is_byte_wrapU|done].
Qed.

(** ** Parts of a link *)

Lemma span_some p a c b : Forall (fun c => p c = true) a -> p c = false -> span p (a ++ c :: b) = (a, c :: b).
Proof. intros Ha Hc. induction Ha as [|x a Hx Ha IH]; cbn [span app]; [by rewrite Hc|by rewrite Hx, IH]. Qed.
Lemma break_parts p s : let '(a, b) := break p s in s = a ++ b.
Proof. induction s as [|c s IH]; [done|]. simpl. destruct (p c); [done|]. destruct (break p s). by rewrite IH. Qed.

(** ** JSON

    JSON as a reference: values, a reader of compact JSON texts, and the values
    that the texts of the hub page stand for.

    The reader follows RFC 8259 without white space and numbers, which the hub
    never writes; [\u] escapes are read below 128, where a code point is a
    byte. *)
Inductive Json := JNull | JBool (b : bool) | JString (s : list Z) | JArray (l : list Json) | JObject (l : list (list Z * Json)).

(** ** Reading *)

Definition hexVal (c : Z) : option Z := digit 16 c.
(** The rest of a string behind its opening quote. *)
Fixpoint read_string (s : list Z) : option (list Z * list Z) :=
  match s with
  | [] => None
  | c :: s =>
      if c =? 34 then Some ([], s)
      else if c <? 32 then None
      else if c =? 92 then
        match s with
        | e :: s =>
            if (e =? 34) || (e =? 92) || (e =? chr "/") then let* (r, s) := read_string s in Some (e :: r, s)
            else if e =? chr "u" then
              match s with
              | a :: b :: x :: y :: s =>
                  let* a := hexVal a in let* b := hexVal b in let* x := hexVal x in let* y := hexVal y in
                  let v := ((a * 16 + b) * 16 + x) * 16 + y in
                  check v <? 128 ;;
                  let* (r, s) := read_string s in Some (v :: r, s)
              | _ => None
              end
            else None
        | [] => None
        end
      else let* (r, s) := read_string s in Some (c :: r, s)
  end.
Fixpoint read_value (fuel : nat) (s : list Z) : option (Json * list Z) :=
  match fuel with
  | O => None
  | S fuel =>
      match s with
      | [] => None
      | c :: s' =>
          if c =? 34 then let* (r, s) := read_string s' in Some (JString r, s)
          else if c =? chr "[" then
            match strip_prefix (txt "]") s' with
            | Some s => Some (JArray [], s)
            | None => let* (l, s) := read_items fuel s' in Some (JArray l, s)
            end
          else if c =? chr "{" then
            match strip_prefix (txt "}") s' with
            | Some s => Some (JObject [], s)
            | None => let* (l, s) := read_members fuel s' in Some (JObject l, s)
            end
          else
            match strip_prefix (txt "null") s, strip_prefix (txt "true") s, strip_prefix (txt "false") s with
            | Some s, _, _ => Some (JNull, s)
            | _, Some s, _ => Some (JBool true, s)
            | _, _, Some s => Some (JBool false, s)
            | _, _, _ => None
            end
      end
  end
with read_items (fuel : nat) (s : list Z) : option (list Json * list Z) :=
  match fuel with
  | O => None
  | S fuel =>
      let* (v, s) := read_value fuel s in
      match strip_prefix (txt "]") s with
      | Some s => Some ([v], s)
      | None => let* s := strip_prefix (txt ",") s in let* (l, s) := read_items fuel s in Some (v :: l, s)
      end
  end
with read_members (fuel : nat) (s : list Z) : option (list (list Z * Json) * list Z) :=
  match fuel with
  | O => None
  | S fuel =>
      let* s := strip_prefix [34] s in
      let* (k, s) := read_string s in
      let* s := strip_prefix (txt ":") s in
      let* (v, s) := read_value fuel s in
      match strip_prefix (txt "}") s with
      | Some s => Some ([(k, v)], s)
      | None => let* s := strip_prefix (txt ",") s in let* (l, s) := read_members fuel s in Some ((k, v) :: l, s)
      end
  end.
(** A whole text. *)
Definition read_json (s : list Z) : option Json :=
  let* (v, rest) := read_value (length s) s in
  check bool_decide (rest = []) ;; Some v.

(** ** Writing *)

Fixpoint render (j : Json) : list Z :=
  match j with
  | JNull => txt "null"
  | JBool b => txt (if b then "true" else "false")
  | JString s => jsonString s
  | JArray l => txt "[" ++ join (txt ",") (List.map render l) ++ txt "]"
  | JObject l => txt "{" ++ join (txt ",") (List.map (fun m => jsonString m.1 ++ txt ":" ++ render m.2) l) ++ txt "}"
  end.
Fixpoint weight (j : Json) : nat :=
  match j with
  | JNull | JBool _ | JString _ => 1
  | JArray l => S (list_sum (List.map (fun j => S (weight j)) l))
  | JObject l => S (list_sum (List.map (fun m => S (weight m.2)) l))
  end.
(** The strings in it are bytes. *)
Fixpoint bytes_in (j : Json) : Prop :=
  match j with
  | JNull | JBool _ => True
  | JString s => Forall is_byte s
  | JArray l => fold_right (fun j P => bytes_in j /\ P) True l
  | JObject l => fold_right (fun m P => Forall is_byte m.1 /\ bytes_in m.2 /\ P) True l
  end.

Lemma read_char c s : is_byte c -> read_string (jsonChar c ++ s) = let* (r, s) := read_string s in Some (c :: r, s).
Proof.
  intros Hc. unfold jsonChar. destruct ((c =? 34) || (c =? 92)) eqn:E.
  { apply orb_true_iff in E as [E|E]; apply Z.eqb_eq in E as ->; done. }
  apply orb_false_iff in E as [E1 E2]. destruct (c <? 32) eqn:E3.
  - assert (exists a b, hexVal (hexDigit (Z.shiftr c 4)) = Some a /\ hexVal (hexDigit (Z.land c 15)) = Some b /\ a * 16 + b = c) as (a & b & Ha & Hb & Hv).
    { apply Z.ltb_lt in E3. assert (forallb (fun c => match hexVal (hexDigit (Z.shiftr c 4)), hexVal (hexDigit (Z.land c 15)) with
        | Some a, Some b => a * 16 + b =? c | _, _ => false end) (seqZ 0 32) = true) as Hall by done.
      rewrite forallb_forall in Hall. specialize (Hall c ltac:(apply list_elem_of_In, elem_of_seqZ; unfold is_byte in Hc; lia)). simpl in Hall.
      destruct (hexVal (hexDigit (Z.shiftr c 4))) as [a|]; [|done]. destruct (hexVal (hexDigit (Z.land c 15))) as [b|]; [|done].
      apply Z.eqb_eq in Hall. eauto. }
    change (txt "\u00") with [92; 117; 48; 48]. cbn [app read_string]. change (92 =? 34) with false. change (92 <? 32) with false. change (92 =? 92) with true.
    cbn iota. change ((117 =? 34) || (117 =? 92) || (117 =? chr "/")) with false. change (117 =? chr "u") with true. cbn iota.
    change (hexVal 48) with (Some 0). rewrite Ha, Hb. cbn [mbind option_bind]. replace (((0 * 16 + 0) * 16 + a) * 16 + b) with c by lia.
    apply Z.ltb_lt in E3. by replace (c <? 128) with true by (symmetry; apply Z.ltb_lt; lia).
  - cbn [app read_string]. by rewrite E1, E3, E2.
Qed.
Lemma read_jsonString s rest : Forall is_byte s -> read_string (concat (jsonChar <$> s) ++ 34 :: rest) = Some (s, rest).
Proof.
  induction 1 as [|c s Hc Hs IH]; [done|]. rewrite fmap_cons. cbn [concat]. rewrite <- app_assoc, read_char by done. by rewrite IH.
Qed.
Lemma strip_prefix_app p s : strip_prefix p (p ++ s) = Some s.
Proof. unfold strip_prefix. rewrite take_app_length, drop_app_length. by rewrite bool_decide_eq_true_2. Qed.
Lemma strip_prefix_head a p c s : a <> c -> strip_prefix (a :: p) (c :: s) = None.
Proof. intros Hac. unfold strip_prefix. rewrite bool_decide_eq_false_2; [done|]. simpl. intros [= Hc _]. congruence. Qed.
Lemma join_cons d x y l : join d (x :: y :: l) = x ++ d ++ join d (y :: l).
Proof. done. Qed.
Lemma render_head j : exists c s, render j = c :: s /\ c <> chr "]" /\ c <> chr "}".
Proof. destruct j as [|[]| | |]; by eexists _, _. Qed.

Lemma sum_cons {A} (f : A -> nat) x l : list_sum (List.map f (x :: l)) = (f x + list_sum (List.map f l))%nat.
Proof. done. Qed.

(** ** Round trip *)

Lemma render_read fuel :
  (forall j rest, (weight j <= fuel)%nat -> bytes_in j -> read_value fuel (render j ++ rest) = Some (j, rest))
  /\ (forall l rest, l <> [] -> (list_sum (List.map (fun j => S (weight j)) l) <= fuel)%nat -> bytes_in (JArray l) ->
        read_items fuel (join (txt ",") (List.map render l) ++ txt "]" ++ rest) = Some (l, rest))
  /\ (forall l rest, l <> [] -> (list_sum (List.map (fun m => S (weight m.2)) l) <= fuel)%nat -> bytes_in (JObject l) ->
        read_members fuel (join (txt ",") (List.map (fun m => jsonString m.1 ++ txt ":" ++ render m.2) l) ++ txt "}" ++ rest) = Some (l, rest)).
Proof.
  induction fuel as [|fuel (IHv & IHi & IHm)]; split_and!.
  - intros [| | | |] rest Hw; simpl in Hw; lia.
  - intros [|j l] rest Hne Hw; [done|simpl in Hw; lia].
  - intros [|j l] rest Hne Hw; [done|simpl in Hw; lia].
  - intros [|[]|s|l|l] rest Hw Hb; try done.
    + simpl render. unfold jsonString. rewrite <- !app_assoc. cbn [app read_value]. change (34 =? 34) with true. cbn iota.
      by rewrite read_jsonString.
    + cbn [render]. rewrite <- !app_assoc. change (txt "[") with [91]. cbn [app read_value]. change (91 =? 34) with false.
      change (91 =? chr "[") with true. cbn iota. destruct l as [|j l]; [done|].
      assert (strip_prefix (txt "]") (join (txt ",") (List.map render (j :: l)) ++ txt "]" ++ rest) = None) as ->.
      { destruct (render_head j) as (c & s & E & Hc & _). cbn [List.map]. destruct l; [cbn [List.map join]|cbn [List.map]; rewrite join_cons];
          rewrite E; by apply strip_prefix_head. }
      rewrite (IHi (j :: l)); [done|done| |done]. cbn [weight] in Hw. lia.
    + cbn [render]. rewrite <- !app_assoc. change (txt "{") with [123]. cbn [app read_value]. change (123 =? 34) with false.
      change (123 =? chr "[") with false. change (123 =? chr "{") with true. cbn iota. destruct l as [|m l]; [done|].
      assert (strip_prefix (txt "}") (join (txt ",") (List.map (fun m => jsonString m.1 ++ txt ":" ++ render m.2) (m :: l)) ++ txt "}" ++ rest) = None) as ->.
      { cbn [List.map]. destruct l; [cbn [List.map join]|cbn [List.map]; rewrite join_cons]; by apply strip_prefix_head. }
      rewrite (IHm (m :: l)); [done|done| |done]. cbn [weight] in Hw. lia.
  - intros [|j l] rest Hne Hw Hbytes; [done|]. destruct Hbytes as [Hb Hbl]. rewrite sum_cons in Hw. cbn [read_items List.map].
    destruct l as [|j' l].
    + cbn [List.map join]. rewrite IHv by (done || lia). cbn [mbind option_bind]. by rewrite strip_prefix_app.
    + cbn [List.map]. rewrite join_cons, <- !app_assoc, IHv by (done || lia). cbn [mbind option_bind].
      assert (forall s, strip_prefix (txt "]") (txt "," ++ s) = None) as -> by (intros s; by apply strip_prefix_head).
      rewrite strip_prefix_app. cbn [mbind option_bind]. rewrite (IHi (j' :: l)); [done|done|lia|done].
  - intros [|[k j] l] rest Hne Hw Hbytes; [done|]. destruct Hbytes as (Hk & Hb & Hbl). rewrite sum_cons in Hw. cbn [fst snd] in Hw. cbn [read_members List.map fst snd].
    assert (forall s, strip_prefix [34] ((jsonString k ++ txt ":" ++ render j) ++ s)
      = Some (concat (jsonChar <$> k) ++ 34 :: txt ":" ++ render j ++ s)) as Hstrip.
    { intros s. unfold jsonString. rewrite <- !app_assoc. by rewrite strip_prefix_app. }
    destruct l as [|m' l].
    + cbn [List.map join]. rewrite Hstrip. cbn [mbind option_bind]. simpl in Hk. rewrite read_jsonString by done. cbn [mbind option_bind].
      rewrite strip_prefix_app. cbn [mbind option_bind]. rewrite IHv by (done || lia). cbn [mbind option_bind]. by rewrite strip_prefix_app.
    + cbn [List.map]. rewrite join_cons, <- (app_assoc (jsonString k ++ _)), Hstrip. cbn [mbind option_bind]. simpl in Hk.
      rewrite read_jsonString by done. cbn [mbind option_bind]. rewrite strip_prefix_app. cbn [mbind option_bind].
      rewrite <- (app_assoc (txt ",")). rewrite IHv by (done || lia). cbn [mbind option_bind].
      assert (forall s, strip_prefix (txt "}") (txt "," ++ s) = None) as -> by (intros s; by apply strip_prefix_head).
      rewrite strip_prefix_app. cbn [mbind option_bind]. rewrite (IHm (m' :: l)); [done|done|lia|done].
Qed.
(** The length of a text is enough fuel to read it. *)
Lemma weight_length fuel j : (weight j <= fuel -> weight j <= length (render j))%nat.
Proof.
  revert j. induction fuel as [|fuel IH]; intros [|[]|s|l|l] Hw; cbn [weight] in Hw; try lia; cbn [weight render]; try (simpl; lia).
  - rewrite !length_app. change (length (txt "[")) with 1%nat. change (length (txt "]")) with 1%nat.
    assert (list_sum (List.map (fun j => S (weight j)) l) <= S (length (join (txt ",") (List.map render l))))%nat as Hl; [|lia].
    apply le_S_n in Hw. clear -Hw IH. induction l as [|j l IHl]; [simpl; lia|].
    rewrite sum_cons in *.
    specialize (IH j ltac:(lia)). specialize (IHl ltac:(lia)). destruct l as [|j' l]; [simpl in *; lia|].
    cbn [List.map]. rewrite join_cons, !length_app. change (length (txt ",")) with 1%nat. cbn [List.map] in IHl. lia.
  - rewrite !length_app. change (length (txt "{")) with 1%nat. change (length (txt "}")) with 1%nat.
    set (f := fun m : list Z * Json => jsonString m.1 ++ txt ":" ++ render m.2).
    assert (list_sum (List.map (fun m => S (weight m.2)) l) <= S (length (join (txt ",") (List.map f l))))%nat as Hl; [|lia].
    apply le_S_n in Hw. induction l as [|m l IHl]; [simpl; lia|].
    rewrite sum_cons in *.
    specialize (IH m.2 ltac:(lia)). specialize (IHl ltac:(lia)).
    assert (weight m.2 <= length (f m))%nat as Hm by (unfold f; rewrite !length_app; lia).
    destruct l as [|m' l]; [simpl in *; lia|].
    cbn [List.map]. rewrite join_cons, !length_app. change (length (txt ",")) with 1%nat. cbn [List.map] in IHl. lia.
Qed.
Lemma render_read_json j : bytes_in j -> read_json (render j) = Some j.
Proof.
  intros Hb. unfold read_json. pose proof (weight_length (weight j) j ltac:(lia)) as Hw.
  destruct (render_read (length (render j))) as (Hv & _ & _). specialize (Hv j [] Hw Hb). rewrite app_nil_r in Hv.
  rewrite Hv. cbn [mbind option_bind]. by rewrite bool_decide_eq_true_2.
Qed.
