(* ===== verification/AwdtHubProps.v ===== *)
(** Properties of the hub: its devices stay well formed under every message and
    every page, the page is a JSON text that is read back as the live devices
    whatever names they send, and the shares it lists are links that can be
    opened. *)
From Stdlib Require Import Ascii.
From S2P Require Import Prelude ErrorCodes Protocol Uri UriProps AwdtText AwdtTextProps AwdtHub.

(** ** Maps *)

Lemma map_set_elem {V} k (v : V) l e : e ∈ map_set k v l -> e = (k, v) \/ e ∈ l.
Proof.
  induction l as [|[k' v'] l IH]; simpl; [rewrite list_elem_of_singleton; auto|].
  destruct (str_compare k k') eqn:E; rewrite ?elem_of_cons; [intros [|]; auto|auto|intros [|Hin]; [auto|]].
  destruct (IH Hin); auto.
Qed.
Lemma map_erase_sublist {V} k (l : list (list Z * V)) : map_erase k l `sublist_of` l.
Proof.
  induction l as [|[k' v'] l IH]; [done|]. cbn [map_erase]. destruct (str_compare k k'); [by apply sublist_cons|by apply sublist_skip..].
Qed.
Lemma sublist_ordered {V} (l l' : list (list Z * V)) : l `sublist_of` l' -> ordered_map l' -> ordered_map l.
Proof.
  unfold ordered_map. induction 1 as [|x l l' Hs IH|x l l' Hs IH]; intros Ho; [done|..]; inversion Ho as [|? ? Ho' Hf]; subst; [|auto].
  constructor; [auto|]. rewrite Forall_forall in *. intros y Hy. apply Hf. by eapply elem_of_sublist.
Qed.
Lemma map_get_below {V} k (l : list (list Z * V)) : Forall (fun e => str_compare k e.1 = Lt) l -> map_get k l = None.
Proof. induction 1 as [|[k0 v0] l Hb Hl IH]; [done|]. simpl in *. by rewrite Hb. Qed.
Lemma map_get_erase {V} k k' (l : list (list Z * V)) :
  ordered_map l -> map_get k (map_erase k' l) = if decide (k' = k) then None else map_get k l.
Proof.
  unfold ordered_map. induction 1 as [|[k0 v0] l Hl IH Hh]; [simpl; by case_decide|]. cbn [map_erase].
  destruct (str_compare k' k0) eqn:E; cbn [map_get].
  - apply str_compare_eq in E as ->. case_decide as Hk; [subst; by apply map_get_below|].
    destruct (str_compare k k0) eqn:E2; try done. by apply str_compare_eq in E2 as ->.
  - rewrite IH. case_decide as Hk; [subst; by rewrite E|done].
  - rewrite IH. case_decide as Hk; [subst; by rewrite E|done].
Qed.
Lemma map_get_elem {V} (l : list (list Z * V)) k v : ordered_map l -> map_get k l = Some v <-> (k, v) ∈ l.
Proof.
  unfold ordered_map. induction 1 as [|[k0 v0] l Hl IH Hh]; cbn [map_get]; [rewrite elem_of_nil; done|]. rewrite elem_of_cons.
  rewrite Forall_forall in Hh. split.
  - destruct (str_compare k k0) eqn:E; [apply str_compare_eq in E as ->; intros [= ->]; auto|rewrite IH; auto..].
  - intros [[= -> ->]|Hin]; [by rewrite str_compare_refl|]. pose proof (Hh _ Hin) as Hb. unfold before in Hb. simpl in Hb.
    rewrite str_compare_antisym, Hb. simpl. by apply IH.
Qed.

(** ** Well-formed devices *)

Definition wf_device (k : list Z) (d : Device) : Prop :=
  (kind d = txt "phone" /\ k = phoneKey (dev_address d) \/ kind d = txt "computer" /\ k = computerKey (dev_address d) /\ sharePort d = 0)
  /\ (0 < sharePort d -> sharePort d < 65536 /\ isKey (shareKey d) = true)
  /\ Forall is_byte (dev_name d) /\ Forall is_byte (dev_address d) /\ Forall is_byte (shareKey d).
Definition wf_hub (h : Hub) : Prop :=
  ordered_map h /\ Forall (fun e => wf_device e.1 e.2) h
  /\ forall a, map_get (phoneKey a) h = None \/ map_get (computerKey a) h = None.

Lemma phone_computer a b : phoneKey a <> computerKey b.
Proof. done. Qed.
Lemma phoneKey_inj a b : phoneKey a = phoneKey b -> a = b.
Proof. apply app_inv_head. Qed.
Lemma computerKey_inj a b : computerKey a = computerKey b -> a = b.
Proof. apply app_inv_head. Qed.

Lemma phone_wf address name port key now h :
  wf_hub h -> Forall is_byte address -> Forall is_byte name -> Forall is_byte key ->
  (0 < port -> port < 65536 /\ isKey key = true) -> wf_hub (phone address name port key now h).
Proof.
  intros (Ho & Hd & Hx) Ha Hn Hk Hp. unfold phone. set (h1 := map_erase _ h).
  assert (ordered_map h1) as Ho1 by (eapply sublist_ordered; [apply map_erase_sublist|done]). split_and!.
  - by apply map_set_ordered.
  - apply Forall_forall. intros [k d] [[= -> ->]|Hin]%map_set_elem.
    + split_and!; simpl; auto.
    + rewrite Forall_forall in Hd. apply Hd. eapply elem_of_sublist; [exact Hin|]. apply map_erase_sublist.
  - intros a. unfold h1. rewrite !map_get_set, !map_get_erase by done.
    rewrite (decide_False (P := phoneKey address = computerKey a)) by apply phone_computer.
    destruct (decide (phoneKey address = phoneKey a)) as [E|E].
    + right. apply phoneKey_inj in E as ->. by rewrite decide_True.
    + rewrite (decide_False (P := computerKey address = phoneKey a)) by (intros E'; by apply (phone_computer a address)).
      destruct (Hx a); [by left|]. right. by case_decide.
Qed.
Lemma computer_wf address name auto now h :
  wf_hub h -> Forall is_byte address -> Forall is_byte name -> wf_hub (computer address name auto now h).
Proof.
  intros (Ho & Hd & Hx) Ha Hn. unfold computer. destruct (map_get (phoneKey address) h) as [p|] eqn:E; split_and!.
  - by apply map_set_ordered.
  - apply Forall_forall. intros [k d] [[= -> ->]|Hin]%map_set_elem; [|rewrite Forall_forall in Hd; by apply Hd].
    apply map_get_elem in E; [|done]. rewrite Forall_forall in Hd. destruct (Hd _ E) as (Hk & ? & ? & ? & ?). by split_and!.
  - intros a. rewrite !map_get_set, (decide_False (P := phoneKey address = computerKey a)) by apply phone_computer.
    case_decide as Hk; [|apply Hx]. apply phoneKey_inj in Hk as ->. right. destruct (Hx a); congruence.
  - by apply map_set_ordered.
  - apply Forall_forall. intros [k d] [[= -> ->]|Hin]%map_set_elem; [|rewrite Forall_forall in Hd; by apply Hd].
    split_and!; simpl; auto; lia.
  - intros a. rewrite !map_get_set. rewrite (decide_False (P := computerKey address = phoneKey a)) by (intros E'; by apply (phone_computer a address)).
    case_decide as Hk; [|apply Hx]. apply computerKey_inj in Hk as ->. by left.
Qed.

(** ** The page *)

Definition deviceValue (d : Device) : Json :=
  JObject ([(txt "name", JString (dev_name d)); (txt "address", JString (dev_address d)); (txt "kind", JString (kind d))]
    ++ if bool_decide (kind d = txt "phone")
       then [(txt "share", if 0 <? sharePort d then JString (shareLink d) else JNull); (txt "receives", JBool (receives d))]
       else [(txt "autoAccept", JBool (dev_autoAccept d))]).
Definition hubValue (hubName : list Z) (h : Hub) : Json :=
  JObject [(txt "hub", JString hubName); (txt "devices", JArray (List.map (fun e => deviceValue e.2) h))].
Definition live (now : Z) (h : list (list Z * Device)) : list (list Z * Device) := base.filter (fun e => expired now e.2 = false) h.

Lemma deviceJson_render d : deviceJson d = render (deviceValue d).
Proof.
  unfold deviceJson, deviceValue. cbn [render]. destruct (bool_decide (kind d = txt "phone")); cbn [app List.map join fst snd render].
  - rewrite <- !app_assoc. do 13 f_equal. destruct (0 <? sharePort d); cbn [render]; by rewrite <- ?app_assoc.
  - by rewrite <- !app_assoc.
Qed.
Lemma json_loop_spec now first h :
  json_loop now first h
  = ((if first || bool_decide (live now h = []) then [] else txt ",") ++ join (txt ",") (List.map (fun e => deviceJson e.2) (live now h)), live now h).
Proof.
  unfold live. revert first. induction h as [|[k d] h IH]; intros first; [by destruct first|]. cbn [json_loop].
  destruct (expired now d) eqn:E; [rewrite filter_cons_False by (simpl; congruence); apply IH|].
  rewrite filter_cons_True by done. rewrite IH, (bool_decide_eq_false_2 (_ :: _ = [])), orb_false_r by done. cbn [orb fst snd List.map]. f_equal. f_equal.
  destruct (base.filter (fun e => expired now e.2 = false) h) as [|e l]; [by rewrite !app_nil_r|].
  rewrite bool_decide_eq_false_2 by done. cbn [List.map]. by rewrite join_cons.
Qed.
Lemma json_spec hubName now h : json hubName now h = (render (hubValue hubName (live now h)), live now h).
Proof.
  unfold json. rewrite json_loop_spec. cbn [orb app]. f_equal. unfold hubValue. cbn [render List.map join fst snd]. rewrite <- !app_assoc.
  rewrite map_map. rewrite (map_ext (fun e => deviceJson e.2) (fun e => render (deviceValue e.2))) by (intros e; apply deviceJson_render).
  done.
Qed.
Lemma txt_bytes s : Forall is_byte (txt s).
Proof. unfold txt. induction s as [|c s IH]; constructor; [|done]. unfold is_byte. pose proof (Ascii.nat_ascii_bounded c). lia. Qed.
Lemma shareLink_bytes k d : wf_device k d -> Forall is_byte (shareLink d).
Proof.
  intros (_ & _ & _ & Ha & Hk). unfold shareLink, to_string. by repeat (apply Forall_app; split; [apply txt_bytes || done|]); try apply txt_bytes.
Qed.
Lemma deviceValue_bytes k d : wf_device k d -> bytes_in (deviceValue d).
Proof.
  intros Hwf. pose proof (shareLink_bytes _ _ Hwf) as Hs. destruct Hwf as (Hk & _ & Hn & Ha & _).
  assert (Forall is_byte (kind d)) by (destruct Hk as [[-> _]|[-> _]]; apply txt_bytes).
  unfold deviceValue. cbn [bytes_in app fold_right fst snd]. repeat (split; [apply txt_bytes || done|]).
  destruct (bool_decide (kind d = txt "phone")); cbn [fold_right fst snd bytes_in]; [|split_and!; [apply txt_bytes|done..]].
  split_and!; [apply txt_bytes| |apply txt_bytes|done..]. by destruct (0 <? sharePort d).
Qed.
Lemma live_wf now h : wf_hub h -> wf_hub (live now h).
Proof.
  intros (Ho & Hd & Hx). assert (live now h `sublist_of` h) as Hs by apply sublist_filter.
  assert (ordered_map (live now h)) as Ho' by (by eapply sublist_ordered). split_and!; [done|rewrite Forall_forall in *; intros e He; apply Hd; by eapply elem_of_sublist|].
  intros a. destruct (Hx a) as [E|E]; [left|right]; apply eq_None_not_Some; intros [d Hg]; apply map_get_elem in Hg; try done;
    (eapply elem_of_sublist in Hg; [|exact Hs]); apply map_get_elem in Hg; [congruence|done|congruence|done].
Qed.
Lemma hubValue_bytes hubName h : wf_hub h -> Forall is_byte hubName -> bytes_in (hubValue hubName h).
Proof.
  intros (_ & Hd & _) Hn. unfold hubValue. cbn [bytes_in fold_right fst snd]. split_and!; [apply txt_bytes|done|apply txt_bytes| |done].
  induction Hd as [|[k d] h Hd Hds IH]; [done|]. cbn [List.map fold_right]. split; [|done]. by eapply deviceValue_bytes.
Qed.

(** ** Messages *)

Lemma messageWords_bytes count msg : Forall is_byte msg -> Forall (Forall is_byte) (messageWords_loop count msg).
Proof.
  revert msg. induction count as [|[|count] IH]; intros msg Hm; [by repeat constructor..|]. cbn [messageWords_loop].
  pose proof (break_parts (Z.eqb 32) msg) as Hb. destruct (break (Z.eqb 32) msg) as [w [|c rest]]; [by repeat constructor|].
  subst msg. apply Forall_app in Hm as [Hw Hr]. apply Forall_cons in Hr as [_ Hr]. constructor; [done|]. by apply IH.
Qed.
Lemma trim_front_bytes s : Forall is_byte s -> Forall is_byte (trim_front s).
Proof. induction 1 as [|c s Hc Hs IH]; [done|]. simpl. destruct ((c =? 10) || (c =? 13)); [done|by constructor]. Qed.
Lemma trim_end_bytes s : Forall is_byte s -> Forall is_byte (trim_end s).
Proof. intros Hs. unfold trim_end. by apply Forall_rev, trim_front_bytes, Forall_rev. Qed.
Lemma udpMessage_wf config addresses now address msg h h' r :
  wf_hub h -> Forall is_byte address -> Forall is_byte msg ->
  udpMessage config addresses now address msg (Some h) = (r, Some h') -> wf_hub h'.
Proof.
  intros Hwf Ha Hm. unfold udpMessage. case_bool_decide; [by intros [= _ <-]|].
  pose proof (messageWords_bytes 5 (trim_end msg) (trim_end_bytes _ Hm)) as Hw. unfold messageWords.
  destruct (messageWords_loop 5 (trim_end msg)) as [|tag [|verb args]]; [by intros [= _ <-]..|]. rewrite !Forall_cons in Hw. destruct Hw as (_ & _ & Hw).
  case_bool_decide; cbn [negb]; [|by intros [= _ <-]]. case_bool_decide; [by intros [= _ <-]|].
  destruct args as [|a [|b [|name [|]]]]; try (by intros [= _ <-]). rewrite !Forall_cons in Hw. destruct Hw as (_ & Hb & Hn & _).
  case_bool_decide; [case_bool_decide; intros [= _ <-]; [done|by apply computer_wf]|]. case_bool_decide; [|by intros [= _ <-]].
  destruct (stoi a) as [port|]; [|by intros [= _ <-]]. intros [= _ <-]. destruct (_ && _) eqn:E; apply phone_wf; try done.
  rewrite !andb_true_iff, !Z.ltb_lt in E. naive_solver.
Qed.

(** What happens to the hub, from the start: messages and requests for pages. *)
Inductive HubEvent := Message (now : Z) (address msg : list Z) | Request (now : Z) (chunks : list (list Z)).
Definition hubStep (config : ReceiveConfig) (addresses : list (list Z)) (pages : list (list Z * list Z)) (h : Hub) (e : HubEvent) : Hub :=
  match e with
  | Message now address msg => default h (udpMessage config addresses now address msg (Some h)).2
  | Request now chunks => (hubHttp pages (config_name config) now chunks h).2
  end.
Definition hubRun config addresses pages : list HubEvent -> Hub := foldl (hubStep config addresses pages) [].
Definition event_bytes (e : HubEvent) : Prop :=
  match e with Message _ address msg => Forall is_byte address /\ Forall is_byte msg | Request _ _ => True end.

Lemma hubHttp_hub pages hubName now chunks h : (hubHttp pages hubName now chunks h).2 = h \/ (hubHttp pages hubName now chunks h).2 = live now h.
Proof.
  unfold hubHttp. destruct (negb _ && negb _); [by left|]. case_bool_decide; [rewrite json_spec; by right|].
  destruct (findFile _ _) as [[? ?]|]; by left.
Qed.
Lemma hubStep_wf config addresses pages h e : wf_hub h -> event_bytes e -> wf_hub (hubStep config addresses pages h e).
Proof.
  intros Hwf He. destruct e as [now address msg|now chunks]; cbn [hubStep].
  - destruct He as [Ha Hm]. destruct (udpMessage _ _ _ _ _ _) as [r [h'|]] eqn:E; [exact (udpMessage_wf _ _ _ _ _ _ _ _ Hwf Ha Hm E)|done].
  - destruct (hubHttp_hub pages (config_name config) now chunks h) as [-> | ->]; [done|by apply live_wf].
Qed.
Lemma hubRun_wf config addresses pages evs : Forall event_bytes evs -> wf_hub (hubRun config addresses pages evs).
Proof.
  intros He. unfold hubRun. assert (wf_hub []) as H0 by (split_and!; [constructor|constructor|intros ?; by left]). revert H0.
  generalize ([] : Hub). induction He as [|e evs He Hes IH]; intros h Hh; [done|]. simpl. by apply IH, hubStep_wf.
Qed.
Lemma wf_hub_addresses h : wf_hub h -> NoDup (dev_address ∘ snd <$> h).
Proof.
  intros (Ho & Hd & Hx). assert (forall e e', e ∈ h -> e' ∈ h -> dev_address e.2 = dev_address e'.2 -> e.1 = e'.1) as Hinj.
  { rewrite Forall_forall in Hd. intros [k d] [k' d'] He He' E. simpl in *. destruct (Hd _ He) as (Hk & _), (Hd _ He') as (Hk' & _). simpl in *.
    apply map_get_elem in He, He'; try done. destruct Hk as [[_ ->]|(_ & -> & _)], Hk' as [[_ ->]|(_ & -> & _)]; try congruence; exfalso.
    - destruct (Hx (dev_address d)); congruence.
    - destruct (Hx (dev_address d')); congruence. }
  clear Hd Hx. unfold ordered_map in Ho. induction Ho as [|e h Ho IH Hh]; [constructor|]. rewrite fmap_cons. constructor.
  - intros (e' & Heq & Hin)%list_elem_of_fmap. rewrite Forall_forall in Hh. specialize (Hh e' Hin). unfold before in Hh.
    assert (e.1 = e'.1) as E by (apply Hinj; [by left|by right|done]). by rewrite E, str_compare_refl in Hh.
  - apply IH. intros e1 e2 H1 H2. apply Hinj; by right.
Qed.

(** ** Links *)

(** A host name or an IPv4 address, as the hub has them. *)
Definition plain_host (h : list Z) : Prop :=
  h <> [] /\ Forall (fun c => negb ((c =? chr ":") || (c =? chr "/") || (c =? chr "[") || (c =? chr "]")) = true) h.
Lemma isKey_spec s : isKey s = true <-> length s = 32%nat /\ Forall (fun c => isxdigit c = true) s.
Proof. 
  unfold isKey, Zlen. rewrite andb_true_iff, Z.eqb_eq, forallb_forall, Forall_forall. setoid_rewrite <- list_elem_of_In.
  enough (Z.of_nat (length s) = 32 <-> length s = 32%nat) as -> by done. split; lia.
Qed.
Lemma linkHost_plain h rest : plain_host h -> linkHost (h ++ txt ":" ++ rest) = Some (h, txt ":" ++ rest).
Proof.
  intros [Hne Hh]. destruct h as [|c h]; [done|]. unfold linkHost. cbn [app]. assert ((c =? chr "[") = false) as ->.
  { apply Forall_cons in Hh as [Hc _]. destruct (c =? chr "["); [|done]. rewrite orb_true_r in Hc. done. }
  change (c :: h ++ txt ":" ++ rest) with ((c :: h) ++ chr ":" :: rest). rewrite span_some by done. rewrite bool_decide_eq_false_2 by done. done.
Qed.
Fixpoint upto (p : Z -> bool) (k : nat) (z : Z) : bool := match k with O => true | S k => p z && upto p k (z + 1) end.
Lemma upto_spec p k z n : upto p k z = true -> z <= n < z + Z.of_nat k -> p n = true.
Proof.
  revert z. induction k as [|k IH]; intros z Hu Hn; [lia|]. cbn [upto] in Hu. apply andb_true_iff in Hu as [Hz Hu].
  destruct (decide (n = z)) as [->|]; [done|]. apply (IH (z + 1)); [done|lia].
Qed.
Lemma to_string_port n : 0 < n < 65536 -> (length (to_string n) <= 5)%nat.
Proof.
  intros Hn. apply Nat.leb_le. apply (upto_spec (fun n => length (to_string n) <=? 5)%nat (Z.to_nat 65536) 0); [by vm_compute|lia].
Qed.
Lemma matchLink_plain h port key :
  plain_host h -> 0 < port < 65536 -> isKey key = true ->
  matchLink (txt "http://" ++ h ++ txt ":" ++ to_string port ++ txt "/" ++ key ++ txt "/") = Some (h, to_string port, key).
Proof.
  intros Hh Hp [Hl Hk]%isKey_spec. unfold matchLink. assert (forall s, strip_prefix (txt "awdt://") (txt "http://" ++ s) = None) as -> by done.
  rewrite strip_prefix_app. cbn [mbind option_bind]. rewrite linkHost_plain by done. cbn [mbind option_bind]. rewrite strip_prefix_app. cbn [mbind option_bind].
  destruct (to_string_nonneg port ltac:(lia)) as [Hne Hd]. pose proof (to_string_port port Hp) as H5.
  change (txt "/" ++ key ++ txt "/") with (chr "/" :: key ++ txt "/"). rewrite span_some by done.
  replace ((1 <=? Zlen (to_string port)) && (Zlen (to_string port) <=? 5)) with true.
  2: { symmetry. rewrite andb_true_iff, !Z.leb_le. unfold Zlen. destruct (to_string port); [done|simpl in *; lia]. }
  change (chr "/" :: key ++ txt "/") with (txt "/" ++ key ++ chr "/" :: []). rewrite strip_prefix_app. cbn [mbind option_bind].
  rewrite span_some by done. unfold Zlen. rewrite Hl. done.
Qed.
Lemma shareLink_opens k d : wf_device k d -> 0 < sharePort d -> plain_host (dev_address d) ->
  matchLink (shareLink d) = Some (dev_address d, to_string (sharePort d), shareKey d)
  /\ stoi (to_string (sharePort d)) = Some (sharePort d)
  /\ exists key, fromHex (shareKey d) = Some key /\ length key = 16%nat.
Proof.
  intros (_ & Hs & _) Hp Hh. destruct (Hs Hp) as [Hlt Hk]. split_and!; [by apply matchLink_plain|apply stoi_to_string; unfold inS; lia|].
  apply isKey_spec in Hk as [Hl Hx]. destruct (fromHex_digits 16 (shareKey d)) as (key & ? & ? & _); eauto.
Qed.

(** C27: After any messages and requests the map of the hub is well formed: its keys
    are in order, each is made of the kind and the address of its device, no
    address is both a phone and a computer, a port that is shared is a port and
    has a key of 32 hexadecimal digits, and every string is bytes. *)
Theorem hub_well_formed config addresses pages evs :
  Forall event_bytes evs -> wf_hub (hubRun config addresses pages evs).
Proof. apply hubRun_wf. Qed.

(** C26: The page of the hub, whatever messages and requests came before (the bytes in
    them are bytes): a JSON text that is read back as exactly the devices heard
    of in their time to live, with the names they sent, no address twice, the
    other devices forgotten; and a share on the page is a link that [awdt get]
    takes apart into the address, a port and a key of 16 bytes. *)
Theorem hub_page config addresses pages evs now :
  Forall event_bytes evs -> Forall is_byte (config_name config) ->
  let h := hubRun config addresses pages evs in
  exists page, json (config_name config) now h = (page, live now h)
    /\ read_json page = Some (hubValue (config_name config) (live now h))
    /\ NoDup (dev_address ∘ snd <$> live now h)
    /\ forall k d, (k, d) ∈ live now h -> 0 < sharePort d -> plain_host (dev_address d) ->
         matchLink (shareLink d) = Some (dev_address d, to_string (sharePort d), shareKey d)
         /\ stoi (to_string (sharePort d)) = Some (sharePort d)
         /\ exists key, fromHex (shareKey d) = Some key /\ length key = 16%nat.
Proof.
  intros He Hn h. pose proof (live_wf now h (hubRun_wf _ _ _ _ He)) as Hwf. eexists. rewrite json_spec. split_and!; [done|..].
  - by apply render_read_json, hubValue_bytes.
  - by apply wf_hub_addresses.
  - intros k d Hin. destruct Hwf as (_ & Hd & _). rewrite Forall_forall in Hd. apply (shareLink_opens k). exact (Hd _ Hin).
Qed.
