(* ===== verification/AwdtPushProps.v ===== *)
(** Properties of receiving in the desktop program: the files of a transfer end
    up in the folder of the user without taking the place of anything. *)
From Stdlib Require Import Ascii.
From stdpp Require Import gmap.
From S2P Require Import Prelude ErrorCodes Protocol Uri StateMonad AwdtText AwdtTextProps AwdtHub AwdtPush.

(** ** Folders *)

Lemma create_dirs_spec made rest fs fs' p :
  create_dirs made rest fs = inr fs' ->
  fs' !! p = fs !! p \/ (fs !! p = None /\ fs' !! p = Some Dir /\ made `prefix_of` p /\ p `prefix_of` made ++ rest).
Proof.
  revert made fs. induction rest as [|c rest IH]; intros made fs Hc; cbn [create_dirs] in Hc; [simplify_eq; by left|].
  replace (made ++ c :: rest) with ((made ++ [c]) ++ rest) by (by rewrite <- app_assoc).
  assert (made `prefix_of` made ++ [c]) as Hpre by (by exists [c]).
  destruct (fs !! (made ++ [c])) as [[| |]|] eqn:E; try done.
  - destruct (IH _ _ Hc) as [|(? & ? & ? & ?)]; [by left|]. right. split_and!; try done. by etrans.
  - destruct (IH _ _ Hc) as [Heq|(Hn & Hd & ? & ?)].
    + rewrite Heq. destruct (decide (p = made ++ [c])) as [->|Hp]; [|left; by rewrite lookup_insert_ne].
      right. rewrite lookup_insert_eq. split_and!; try done. by exists rest.
    + right. split_and!; [|done|by etrans|done]. destruct (decide (p = made ++ [c])) as [->|Hp]; [by rewrite lookup_insert_eq in Hn|].
      by rewrite lookup_insert_ne in Hn.
Qed.

Definition ready (fs : Fs) (folder : Path) : Prop := forall p, p <> [] -> p `prefix_of` folder -> fs !! p = Some Dir.
Lemma create_dirs_ready made rest fs : ready fs (made ++ rest) -> create_dirs made rest fs = inr fs.
Proof.
  revert made. induction rest as [|c rest IH]; intros made Hr; [done|]. cbn [create_dirs]. rewrite cons_middle, app_assoc in Hr.
  rewrite (Hr (made ++ [c])) by ((by destruct made) || (by exists rest)). by apply IH.
Qed.

(** ** A free name *)

Lemma numbered_inj parent st ext i j : numbered parent st ext i = numbered parent st ext j -> i = j.
Proof. unfold numbered. intros E. simplify_list_eq. apply to_string_inj. by simplify_list_eq. Qed.
Lemma freeTarget_none rounds i parent st ext target fs :
  freeTarget rounds i parent st ext target fs = None ->
  forall j, i <= j < i + Z.of_nat rounds -> fs_exists (numbered parent st ext j) fs = true.
Proof.
  revert i target. induction rounds as [|rounds IH]; intros i target Hf j Hj; [lia|]. cbn [freeTarget] in Hf.
  destruct (fs_exists target fs); [|done]. destruct (decide (j = i)) as [->|]; [|apply (IH _ _ Hf); lia].
  destruct rounds; cbn [freeTarget] in Hf; by destruct (fs_exists (numbered parent st ext i) fs).
Qed.
Lemma fs_exists_dom p fs : fs_exists p fs = true -> p ∈ dom fs.
Proof. unfold fs_exists. rewrite elem_of_dom. destruct (fs !! p); [eauto|done]. Qed.
(** One round more than there are names finds one that is free. *)
Lemma freeTarget_total parent st ext target fs : is_Some (freeTarget (S (size fs)) 1 parent st ext target fs).
Proof.
  apply not_eq_None_Some. intros Hn. pose proof (freeTarget_none _ _ _ _ _ _ _ Hn) as Hall.
  set (l := numbered parent st ext <$> seqZ 1 (Z.of_nat (S (size fs)))).
  assert (size (list_to_set l : gset Path) <= size (dom fs))%nat as Hle.
  { apply subseteq_size. intros p. rewrite elem_of_list_to_set. intros (j & -> & Hj)%list_elem_of_fmap. apply fs_exists_dom, Hall.
    rewrite elem_of_seqZ in Hj. lia. }
  rewrite size_list_to_set in Hle.
  - unfold l in Hle. rewrite length_fmap, length_seqZ, size_dom in Hle. lia.
  - apply NoDup_fmap_2; [intros ? ?; apply numbered_inj|apply NoDup_seqZ].
Qed.
Lemma freeTarget_free rounds i parent st ext target fs t :
  freeTarget rounds i parent st ext target fs = Some t ->
  fs_exists t fs = false /\ (t = target \/ exists j, i <= j /\ t = numbered parent st ext j).
Proof.
  revert i target. induction rounds as [|rounds IH]; intros i target Hf; cbn [freeTarget] in Hf;
    destruct (fs_exists target fs) eqn:E; try done; [by simplify_eq; auto| |by simplify_eq; auto].
  destruct (IH _ _ Hf) as [? [->|(j & ? & ->)]]; (split; [done|]); right; [by exists i|exists j; split; [lia|done]].
Qed.

(** ** Moving what was received *)

Section moving.
Context (dest : Path) (s : list Z).
Let staging : Path := dest ++ [s].

Definition fileName (rel : Path) : list Z := default [] (last rel).
Definition kept (fs : Fs) (rel : Path) : bool := is_regular_file (staging ++ rel) fs && negb (bool_decide (fileName rel = txt ".wdt.log")).
(** The same place in the folder, or with a number in the name. *)
Definition saved_as (rel t : Path) : Prop :=
  t = dest ++ rel \/ exists j, 1 <= j /\ t = numbered (dest ++ removelast rel) (stem (fileName rel)) (extension (fileName rel)) j.
Definition outside (p : Path) : Prop := ~ staging `prefix_of` p.

Lemma prefix_head (l : Path) : staging `prefix_of` dest ++ l -> head l = Some s.
Proof. intros [k Hk]. unfold staging in Hk. rewrite <- app_assoc in Hk. by apply app_inv_head in Hk as ->. Qed.
Lemma path_parts rel : rel <> [] -> rel = removelast rel ++ [fileName rel].
Proof.
  intros Hne. unfold fileName. destruct (exists_last Hne) as (l & x & ->). rewrite last_snoc. simpl. by rewrite removelast_last.
Qed.
Lemma saved_as_shape rel t : rel <> [] -> saved_as rel t -> exists x, t = dest ++ removelast rel ++ [x].
Proof.
  intros Hne [->|(j & _ & ->)]; [exists (fileName rel); by rewrite <- path_parts|]. unfold numbered. eexists. symmetry. apply app_assoc.
Qed.
Lemma saved_outside fs rel t :
  rel <> [] -> head rel <> Some s -> fs !! staging = Some Dir -> fs_exists t fs = false -> saved_as rel t -> outside t.
Proof.
  intros Hne Hs Hd Ht Hsv Hpre. destruct (saved_as_shape _ _ Hne Hsv) as (x & ->). pose proof (prefix_head _ Hpre) as Hh.
  rewrite (path_parts rel Hne) in Hs. destruct (removelast rel) as [|c l]; [|done]. injection Hh as ->.
  change (dest ++ [] ++ [s]) with staging in Ht. unfold fs_exists in Ht. by rewrite Hd in Ht.
Qed.
Lemma parent_outside rel p : rel <> [] -> head rel <> Some s -> p `prefix_of` dest ++ removelast rel -> outside p.
Proof.
  intros Hne Hs Hp Hpre. assert (staging `prefix_of` dest ++ removelast rel) as Hh%prefix_head by (by etrans).
  rewrite (path_parts rel Hne) in Hs. by destruct (removelast rel).
Qed.

Lemma moveEntry_spec rel fs :
  fs !! staging = Some Dir -> rel <> [] -> head rel <> Some s ->
  (kept fs rel = false /\ moveEntry staging dest rel fs = Some (inr (None, fs)))
  \/ (kept fs rel = true /\ exists e, moveEntry staging dest rel fs = Some (inl e) /\ create_directories (dest ++ removelast rel) fs = inl e)
  \/ (kept fs rel = true /\ exists t fs', moveEntry staging dest rel fs = Some (inr (Some t, fs'))
      /\ saved_as rel t /\ outside t /\ fs_exists t fs = false /\ fs' !! t = fs !! (staging ++ rel)
      /\ forall p, p <> t -> p <> staging ++ rel -> fs' !! p = fs !! p \/ (outside p /\ fs !! p = None /\ fs' !! p = Some Dir)).
Proof.
  intros Hd Hne Hs. unfold moveEntry, kept. fold (fileName rel). destruct (is_regular_file (staging ++ rel) fs) eqn:Hr; cbn [negb orb andb]; [|by left].
  case_bool_decide as Hlog; cbn [negb]; [by left|]. right. destruct (create_directories (dest ++ removelast rel) fs) as [e|fs1] eqn:Hc; [left; eauto|right].
  split; [done|]. pose proof (fun p => create_dirs_spec _ _ _ _ p Hc) as Hcd.
  destruct (freeTarget_total (dest ++ removelast rel) (stem (fileName rel)) (extension (fileName rel)) ((dest ++ removelast rel) ++ [fileName rel]) fs1) as [t Ht].
  rewrite Ht. cbn [mbind option_bind]. destruct (freeTarget_free _ _ _ _ _ _ _ _ Ht) as [Hfree Hshape].
  assert (saved_as rel t) as Hsv.
  { unfold saved_as. rewrite <- app_assoc, <- path_parts in Hshape by done. naive_solver. }
  assert (fs_exists t fs = false) as Hft.
  { unfold fs_exists in *. destruct (Hcd t) as [E|(-> & _)]; [by rewrite <- E|done]. }
  assert (outside t) as Hout by (by eapply saved_outside).
  assert (fs1 !! (staging ++ rel) = fs !! (staging ++ rel)) as Hsame.
  { destruct (Hcd (staging ++ rel)) as [|(Hn & _)]; [done|]. unfold is_regular_file in Hr. by rewrite Hn in Hr. }
  assert (t <> staging ++ rel) as Hneq by (intros ->; apply Hout; by exists rel).
  unfold is_regular_file in Hr. destruct (fs !! (staging ++ rel)) as [[|data|]|] eqn:Hf; try done.
  unfold rename. rewrite Hsame. assert (fs1 !! t <> Some Dir) as Hnd by (intros E; unfold fs_exists in Hfree; by rewrite E in Hfree).
  exists t, (<[t:=File data]> (delete (staging ++ rel) fs1)). split; [by destruct (fs1 !! t) as [[]|]|]. rewrite lookup_insert_eq. split_and!; try done.
  intros p Hp1 Hp2. rewrite lookup_insert_ne, lookup_delete_ne by done. destruct (Hcd p) as [|(? & ? & _ & Hpre)]; [by left|]. right.
  split_and!; try done. by apply (parent_outside rel).
Qed.

(** What a move of one entry leaves as it is. *)
Definition placed (fs fs' : Fs) (rel t : Path) : Prop :=
  saved_as rel t /\ outside t /\ fs_exists t fs = false /\ fs' !! t = fs !! (staging ++ rel).
Definition unchanged (fs fs' : Fs) (saved : list Path) : Prop :=
  forall p, outside p -> p ∉ saved -> fs' !! p = fs !! p \/ (fs !! p = None /\ fs' !! p = Some Dir).
Definition preserved (fs fs' : Fs) : Prop := forall p, outside p -> fs_exists p fs = true -> fs' !! p = fs !! p.
Definition moved (fs fs' : Fs) (entries : list Path) (r : list Z + list Path) : Prop :=
  match r with
  | inr saved => NoDup saved /\ Forall2 (placed fs fs') (base.filter (fun rel => kept fs rel = true) entries) saved /\ unchanged fs fs' saved
  | inl _ => forall rel, rel ∈ entries -> kept fs rel = true ->
      fs' !! (staging ++ rel) = fs !! (staging ++ rel)
      \/ exists t, saved_as rel t /\ outside t /\ fs' !! t = fs !! (staging ++ rel)
  end.

Lemma kept_file fs rel : kept fs rel = true -> exists data, fs !! (staging ++ rel) = Some (File data).
Proof.
  unfold kept, is_regular_file. rewrite andb_true_iff. intros [Hr _]. destruct (fs !! (staging ++ rel)) as [[]|]; try done. eauto.
Qed.
Lemma kept_ext fs fs' rel : fs' !! (staging ++ rel) = fs !! (staging ++ rel) -> kept fs' rel = kept fs rel.
Proof. unfold kept, is_regular_file. by intros ->. Qed.
Lemma outside_staging rel : ~ outside (staging ++ rel).
Proof. intros Ho. apply Ho. by exists rel. Qed.
Lemma exists_ext p fs fs' : fs' !! p = fs !! p -> fs_exists p fs' = fs_exists p fs.
Proof. unfold fs_exists. by intros ->. Qed.

Lemma kept_filter fs fs' (entries : list Path) :
  (forall rel, rel ∈ entries -> fs' !! (staging ++ rel) = fs !! (staging ++ rel)) ->
  base.filter (fun rel => kept fs' rel = true) entries = base.filter (fun rel => kept fs rel = true) entries.
Proof.
  induction entries as [|rel entries IH]; intros Hs; [done|]. rewrite !filter_cons, (kept_ext fs) by (apply Hs; by left).
  rewrite IH by (intros rel' Hin; apply Hs; by right). done.
Qed.
Lemma Forall2_impl_in {A B} (P Q : A -> B -> Prop) l k : Forall2 P l k -> (forall x y, x ∈ l -> P x y -> Q x y) -> Forall2 Q l k.
Proof.
  induction 1 as [|x y l k HP Hlk IH]; intros Himp; constructor; [apply Himp; [by left|done]|]. apply IH. intros ? ? ?. apply Himp. by right.
Qed.

(** One file moved, then the others. *)
Lemma moved_cons fs fs1 fs' rel t entries r :
  rel ∉ entries -> kept fs rel = true -> placed fs fs1 rel t ->
  (forall p, p <> t -> p <> staging ++ rel -> fs1 !! p = fs !! p \/ (outside p /\ fs !! p = None /\ fs1 !! p = Some Dir)) ->
  preserved fs1 fs' -> moved fs1 fs' entries r ->
  preserved fs fs' /\ moved fs fs' (rel :: entries) (match r with inl e => inl e | inr l => inr (t :: l) end).
Proof.
  intros Hnin Hk (Hsv & Hout & Hfree & Ht) Hrest Hpres Hm. destruct (kept_file _ _ Hk) as [data Hdata].
  assert (forall rel', rel' <> rel -> fs1 !! (staging ++ rel') = fs !! (staging ++ rel')) as Hst.
  { intros rel' Hr. destruct (Hrest (staging ++ rel')) as [|(Ho & _)]; [|intros E; by apply app_inv_head in E|done|by apply outside_staging in Ho].
    intros <-. by apply outside_staging in Hout. }
  assert (preserved fs fs1) as Hp1.
  { intros p Ho He. destruct (Hrest p) as [|(_ & Hn & _)]; [congruence|intros ->; by apply outside_staging in Ho|done|].
    unfold fs_exists in He. by rewrite Hn in He. }
  assert (fs' !! t = fs !! (staging ++ rel)) as Ht'.
  { rewrite <- Ht. apply Hpres; [done|]. unfold fs_exists. by rewrite Ht, Hdata. }
  assert (forall rel', rel' ∈ entries -> rel' <> rel) as Hne by (intros rel' Hin ->; done).
  split; [intros p Ho He; rewrite <- (Hp1 p Ho He); apply Hpres; [done|]; by rewrite (exists_ext p fs) by (by apply Hp1)|].
  destruct r as [e|saved]; cbn [moved] in *.
  - intros rel' [->|Hin]%elem_of_cons Hk'; [right; eauto|]. rewrite <- (Hst rel') by auto. apply Hm; [done|]. by rewrite (kept_ext fs) by auto.
  - destruct Hm as (Hnd & Hf & Hu). rewrite filter_cons_True by done.
    rewrite (kept_filter fs) in Hf by auto.
    assert (t ∉ saved) as Htn.
    { intros (i & Hi)%list_elem_of_lookup. destruct (Forall2_lookup_r _ _ _ _ _ Hf Hi) as (rel' & _ & (_ & _ & He & _)).
      unfold fs_exists in He. by rewrite Ht, Hdata in He. }
    split_and!; [by constructor|constructor; [done|]|].
    + apply (Forall2_impl_in _ _ _ _ Hf). intros rel' t' [_ Hin]%list_elem_of_filter (? & Ho & He & Heq). split_and!; try done.
      * destruct (fs_exists t' fs) eqn:E; [|done]. by rewrite (exists_ext t' fs), E in He by (by apply Hp1).
      * rewrite Heq. auto.
    + intros p Ho [Hpt Hps]%not_elem_of_cons. destruct (Hrest p Hpt) as [E|(_ & Hn & Hd)]; [intros ->; by apply outside_staging in Ho|..].
      * rewrite <- E. by apply Hu.
      * right. destruct (Hu p Ho Hps) as [E|[E _]]; [by rewrite E|congruence].
Qed.
Lemma moveLoop_spec entries fs :
  fs !! staging = Some Dir -> NoDup entries -> Forall (fun rel => rel <> [] /\ head rel <> Some s) entries ->
  exists r fs', moveLoop staging dest entries fs = Some (r, fs') /\ preserved fs fs' /\ moved fs fs' entries r
    /\ (Forall (fun rel => ready fs (dest ++ removelast rel)) entries -> exists saved, r = inr saved).
Proof.
  revert fs. induction entries as [|rel entries IH]; intros fs Hd Hnd Hall.
  { exists (inr []), fs. split_and!; [done|by intros p| |eauto]. split_and!; [constructor|constructor|by left]. }
  apply NoDup_cons in Hnd as [Hnin Hnd]. apply Forall_cons in Hall as [[Hne Hs] Hall]. cbn [moveLoop].
  destruct (moveEntry_spec rel fs Hd Hne Hs) as [[Hk ->]|[[Hk (e & -> & Hc)]|[Hk (t & fs1 & -> & Hsv & Hout & Hfree & Ht & Hrest)]]]; cbn [mbind option_bind].
  - destruct (IH fs Hd Hnd Hall) as (r & fs' & -> & Hp & Hm & Hok). cbn [mbind option_bind]. eexists _, _. split; [done|]. split; [done|]. split.
    2: { intros [_ Hrd]%Forall_cons. destruct (Hok Hrd) as [saved ->]. eauto. }
    destruct r as [e|saved]; cbn [moved from_option app] in *; [|by rewrite filter_cons_False by congruence].
    intros rel' [->|Hin]%elem_of_cons Hk'; [congruence|auto].
  - eexists _, _. split; [done|]. split; [by intros p|]. split; [intros rel' _ _; by left|]. intros [Hrd _]%Forall_cons.
    unfold create_directories in Hc. by rewrite create_dirs_ready in Hc.
  - assert (fs1 !! staging = Some Dir) as Hd1.
    { destruct (Hrest staging) as [E|(Ho & _)]; [| |by rewrite E|].
      - intros <-. by apply Hout.
      - intros E. symmetry in E. rewrite <- (app_nil_r staging) in E at 2. by apply app_inv_head in E.
      - exfalso. by apply Ho. }
    destruct (IH fs1 Hd1 Hnd Hall) as (r & fs' & -> & Hp & Hm & Hok). cbn [mbind option_bind]. eexists _, _. split; [done|].
    assert (placed fs fs1 rel t) as Hpl by done. apply and_assoc. split; [by eapply moved_cons|].
    intros [_ Hrd]%Forall_cons. destruct Hok as [saved ->]; [|eauto]. rewrite Forall_forall in *. intros rel' Hin p Hp0 Hpre.
    destruct (Hall _ Hin). assert (outside p) as Ho by (by eapply parent_outside). assert (fs !! p = Some Dir) as Hdir by (by apply (Hrd _ Hin)).
    destruct (Hrest p) as [->|(_ & _ & ->)]; [|by intros ->; apply outside_staging in Ho|done..].
    intros ->. unfold fs_exists in Hfree. by rewrite Hdir in Hfree.
Qed.
End moving.

