(* ===== verification/AwdtPhone.v ===== *)
(** The phone's side of a push: how the Android app makes the URL of its sender
    from the one that the desktop program sent without the key ([senderUrl] of
    [Share.kt]), and the key of a push ([run] of [Nearby.kt]).

    Texts are ASCII. *)
From Stdlib Require Import Ascii.
From S2P Require Import Prelude ErrorCodes Protocol Uri AwdtText.

(** [split('&')] *)
Fixpoint pieces (d : Z) (s w : list Z) : list (list Z) :=
  match s with
  | [] => [rev w]
  | c :: s => if c =? d then rev w :: pieces d s [] else pieces d s (c :: w)
  end.
(** The expression of a receiver's URL: [wdt://receiver], a port [(:\d{1,5})?],
    a question mark and the parameters, any characters but ends of lines.  The
    groups are the port with its colon and the parameters. *)
Definition matchReceiver (url : list Z) : option (list Z * list Z) :=
  let* s := strip_prefix (txt "wdt://receiver") url in
  let* (port, s) :=
    match strip_prefix (txt ":") s with
    | None => Some ([], s)
    | Some s =>
        let '(port, s) := span isdigit s in
        check (1 <=? Zlen port) && (Zlen port <=? 5) ;;
        Some (txt ":" ++ port, s)
    end in
  let* params := strip_prefix (txt "?") s in
  check forallb (fun c => negb ((c =? 10) || (c =? 13))) params ;;
  Some (port, params).
(** [None]: the exception for an unexpected URL. *)
Definition senderUrl (receiverUrl host key : list Z) : option (list Z) :=
  let* (port, params) := matchReceiver receiverUrl in
  let params := base.filter (fun p => p <> [] /\ starts_enc p = false) (pieces (chr "&") params []) in
  let h := if bool_decide (chr ":" ∈ host) then txt "[" ++ host ++ txt "]" else host in
  Some (txt "wdt://" ++ h ++ port ++ txt "?" ++ join (txt "&") (params ++ [txt "Enc=2:" ++ toHex key])).

(** The key of a push, on the phone. *)
Definition senderKey `{Crypto Key PubKey} (mine : Key) (theirs : PubKey) (myDer theirDer : list Z) : option (list Z) :=
  let* secret := derive mine theirs in
  let* md := Digest_sha256 (txt "awdt-push" ++ secret ++ myDer ++ theirDer) in
  Some (take 16 md).
