(* ===== verification/AwdtUrlProps.v ===== *)
(** Properties of the URL of a push: the desktop program sends it without the
    key, and with its own key the phone makes the sender's URL of it. *)
From Stdlib Require Import Ascii.
From S2P Require Import Prelude ErrorCodes Protocol Uri UriProps AwdtText AwdtTextProps AwdtHub AwdtHubProps AwdtPhone.

(** ** Maps *)

Lemma map_get_filter {V} (P : list Z * V -> Prop) `{!forall e, Decision (P e)} k l :
  ordered_map l -> map_get k (base.filter P l) = let* v := map_get k l in if decide (P (k, v)) then Some v else None.
Proof.
  intros Ho. assert (ordered_map (base.filter P l)) as Hf by (eapply sublist_ordered; [apply sublist_filter|done]).
  apply option_eq. intros v. rewrite map_get_elem, list_elem_of_filter by done. rewrite <- map_get_elem by done.
  destruct (map_get k l) as [v'|]; cbn [mbind option_bind]; [|naive_solver]. case_decide; naive_solver.
Qed.
Lemma ordered_map_ext {V} (l l' : list (list Z * V)) :
  ordered_map l -> ordered_map l' -> (forall k, map_get k l = map_get k l') -> l = l'.
Proof.
  unfold ordered_map. intros Ho. revert l'. induction Ho as [|[k v] l Ho IH Hh]; intros l' Ho' Hget.
  - destruct l' as [|[k v] l']; [done|]. specialize (Hget k). simpl in Hget. by rewrite str_compare_refl in Hget.
  - destruct Ho' as [|[k' v'] l' Ho' Hh']; [specialize (Hget k); simpl in Hget; by rewrite str_compare_refl in Hget|].
    assert (map_get k l = None /\ map_get k' l' = None) as [Hn Hn'] by (split; apply map_get_below; done).
    pose proof (Hget k) as H1. pose proof (Hget k') as H2. simpl in H1, H2. rewrite str_compare_refl in H1, H2.
    assert (k = k') as <-.
    { destruct (str_compare k k') eqn:E; [by apply str_compare_eq|exfalso..].
      - rewrite map_get_below in H1; [done|]. eapply Forall_impl; [exact Hh'|]. intros e He. by eapply str_compare_trans.
      - rewrite str_compare_antisym, E in H2. simpl in H2. rewrite map_get_below in H2; [done|]. eapply Forall_impl; [exact Hh|]. intros e He.
        eapply str_compare_trans; [|exact He]. simpl. by rewrite str_compare_antisym, E. }
    rewrite str_compare_refl in H1. injection H1 as ->. f_equal. apply IH; [done|]. intros j. pose proof (Hget j) as Hj. simpl in Hj.
    destruct (str_compare j k) eqn:E; [|done..]. apply str_compare_eq in E as ->. by rewrite Hn, Hn'.
Qed.

Lemma filter_keeps {A} (P : A -> Prop) `{!forall x, Decision (P x)} l : Forall P l -> base.filter P l = l.
Proof. induction 1 as [|x l Hx Hl IH]; [done|]. by rewrite filter_cons_True, IH. Qed.

(** ** Parameters as text *)

Definition paramText (e : list Z * list Z) : list Z := e.1 ++ [chr "="] ++ default [] (escape e.2).
Definition encKey (k : list Z) : bool := bool_decide ((tolower <$> k) = txt "enc").
(** A character of a URL. *)
Definition spaceless (s : list Z) : Prop := Forall (fun c => isspace c = false) s.

Lemma paramText_plain e : wf_param e -> chr "&" ∉ paramText e /\ paramText e <> [].
Proof.
  intros (Hk & Ha & _ & Hb). unfold paramText. destruct (escape_spec _ Hb) as (ev & -> & _ & Hev & _). split.
  - rewrite !not_elem_of_app, list_elem_of_singleton. done.
  - by destruct e.1.
Qed.
Lemma paramsUrl_join p l :
  l <> [] -> Forall wf_param l -> Forall (fun e => e.2 <> []) l -> paramsUrl p l = Some (p :: join [chr "&"] (paramText <$> l)).
Proof.
  intros Hne Hwf Hv. revert p Hne. induction l as [|[k v] l IH]; intros p Hne; [done|].
  apply Forall_cons in Hwf as [(_ & _ & _ & Hb) Hwf], Hv as [Hvne Hv]. simpl in Hb, Hvne. cbn [paramsUrl]. rewrite bool_decide_eq_false_2 by done.
  destruct (escape_spec _ Hb) as (ev & Hev & _). rewrite Hev. cbn [mbind option_bind].
  assert (paramText (k, v) = k ++ [chr "="] ++ ev) as Ht by (unfold paramText; cbn [fst snd]; by rewrite Hev).
  rewrite fmap_cons, Ht. destruct l as [|e l].
  - cbn [paramsUrl mbind option_bind]. by rewrite app_nil_r.
  - rewrite IH by done. cbn [mbind option_bind]. rewrite fmap_cons, join_cons. rewrite <- !app_assoc. done.
Qed.

Lemma getlines_plain d w s acc : d ∉ w -> getlines d (w ++ s) acc = getlines d s (rev w ++ acc).
Proof.
  revert acc. induction w as [|c w IH]; intros acc Hd; [done|]. apply not_elem_of_cons in Hd as [Hc Hw]. cbn [app getlines].
  rewrite (proj2 (Z.eqb_neq c d)) by done. rewrite IH by done. simpl. by rewrite <- app_assoc.
Qed.
Lemma getlines_join d ps : Forall (fun p => d ∉ p /\ p <> []) ps -> getlines d (join [d] ps) [] = ps.
Proof.
  induction 1 as [|p ps [Hd Hne] Hps IH]; [done|]. destruct ps as [|q ps].
  - cbn [join]. rewrite <- (app_nil_r p) at 1. rewrite getlines_plain, app_nil_r by done. cbn [getlines].
    rewrite bool_decide_eq_false_2, rev_involutive; [done|]. intros E. apply Hne. by rewrite <- (rev_involutive p), E.
  - rewrite join_cons, getlines_plain, app_nil_r by done. cbn [app getlines]. rewrite Z.eqb_refl, rev_involutive. by f_equal.
Qed.
Lemma pieces_plain d w s acc : d ∉ w -> pieces d (w ++ s) acc = pieces d s (rev w ++ acc).
Proof.
  revert acc. induction w as [|c w IH]; intros acc Hd; [done|]. apply not_elem_of_cons in Hd as [Hc Hw]. cbn [app pieces].
  rewrite (proj2 (Z.eqb_neq c d)) by done. rewrite IH by done. simpl. by rewrite <- app_assoc.
Qed.
Lemma pieces_join d ps : ps <> [] -> Forall (fun p => d ∉ p /\ p <> []) ps -> pieces d (join [d] ps) [] = ps.
Proof.
  intros Hn Hps. revert Hn. induction Hps as [|p ps [Hd _] Hps IH]; intros Hn; [done|]. destruct ps as [|q ps].
  - cbn [join]. rewrite <- (app_nil_r p) at 1. rewrite pieces_plain, app_nil_r by done. cbn [pieces]. by rewrite rev_involutive.
  - rewrite join_cons, pieces_plain, app_nil_r by done. cbn [app pieces]. rewrite Z.eqb_refl, rev_involutive. f_equal. by apply IH.
Qed.

Lemma tolower_eq c : tolower c = chr "=" <-> c = chr "=".
Proof.
  unfold tolower. change (chr "A") with 65. change (chr "Z") with 90. change (chr "=") with 61.
  destruct ((65 <=? c) && (c <=? 90)) eqn:E; [|done]. rewrite andb_true_iff, !Z.leb_le in E. lia.
Qed.
Lemma starts_enc_text e : wf_param e -> starts_enc (paramText e) = encKey e.1.
Proof.
  intros (_ & _ & Heq & _). unfold starts_enc, encKey, paramText. generalize (default [] (escape e.2)). intros v.
  change (txt "enc=") with (txt "enc" ++ [chr "="]). destruct e.1 as [|a [|b [|c [|d k]]]]; cbn [take app fmap list_fmap].
  - rewrite !bool_decide_eq_false_2; [done|done|]. intros E. by apply (f_equal (lookup 0%nat)) in E.
  - rewrite !bool_decide_eq_false_2; [done|done|]. intros E. by apply (f_equal (lookup 1%nat)) in E.
  - rewrite !bool_decide_eq_false_2; [done|done|]. intros E. by apply (f_equal (lookup 2%nat)) in E.
  - apply bool_decide_ext. change (tolower (chr "=")) with (chr "="). change (txt "enc" ++ [chr "="]) with [101; 110; 99; chr "="].
    change (txt "enc") with [101; 110; 99]. split; [by intros [= -> -> ->]|]. by intros [= -> -> ->].
  - rewrite !bool_decide_eq_false_2; [done|done|]. intros E. change (txt "enc" ++ [chr "="]) with [101; 110; 99; chr "="] in E.
    injection E as _ _ _ Hd. apply tolower_eq in Hd as ->. set_solver.
Qed.
Lemma filter_texts l : Forall wf_param l ->
  base.filter (fun p => p <> [] /\ starts_enc p = false) (paramText <$> l) = paramText <$> base.filter (fun e => encKey e.1 = false) l.
Proof.
  induction 1 as [|e l He Hl IH]; [done|]. rewrite fmap_cons, !filter_cons, (starts_enc_text e He), IH.
  destruct (paramText_plain e He) as [_ Hne]. destruct (encKey e.1); [rewrite !decide_False by naive_solver; done|].
  rewrite !decide_True by done. done.
Qed.

(** ** Characters of a URL *)

Definition hex_plain (c : Z) : bool :=
  bool_decide (hexByte c = Some [hexDigit (Z.shiftr c 4); hexDigit (Z.land c 15)])
  && unreserved (hexDigit (Z.shiftr c 4)) && unreserved (hexDigit (Z.land c 15)).
Lemma hexByte_digits c : is_byte c -> hexByte c = Some [hexDigit (Z.shiftr c 4); hexDigit (Z.land c 15)]
  /\ unreserved (hexDigit (Z.shiftr c 4)) = true /\ unreserved (hexDigit (Z.land c 15)) = true.
Proof.
  intros Hc. assert (hex_plain c = true) as Hh by (by apply (byte_forall hex_plain); [vm_compute|]).
  unfold hex_plain in Hh. rewrite !andb_true_iff, bool_decide_eq_true in Hh. naive_solver.
Qed.
Lemma unreserved_spaceless c : is_byte c -> unreserved c = true -> isspace c = false.
Proof.
  intros Hc Hu. assert (negb (unreserved c) || negb (isspace c) = true) as Hh
    by (by apply (byte_forall (fun c => negb (unreserved c) || negb (isspace c))); [vm_compute|]).
  rewrite Hu in Hh. by destruct (isspace c).
Qed.
Lemma hexDigit_byte c : is_byte c -> is_byte (hexDigit (Z.shiftr c 4)) /\ is_byte (hexDigit (Z.land c 15)).
Proof.
  intros Hc. destruct (hexByte_digits c Hc) as (E & _). destruct (hexByte_ok c Hc) as (m & l & E' & _ & _ & _ & _ & _ & Hb).
  rewrite E in E'. injection E' as -> ->. rewrite !Forall_cons in Hb. naive_solver.
Qed.
Lemma escape_spaceless s : Forall is_byte s -> exists e, escape s = Some e /\ spaceless e.
Proof.
  induction 1 as [|c s Hc Hs (e & IH1 & IH2)]; [exists []; split; [done|constructor]|]. cbn [escape]. rewrite IH1. destruct (unreserved c) eqn:Eu; cbn [mbind option_bind].
  - eexists. split; [done|]. constructor; [by apply unreserved_spaceless|done].
  - destruct (hexByte_digits c Hc) as (-> & H1 & H2). destruct (hexDigit_byte c Hc). cbn [mbind option_bind]. eexists. split; [done|].
    repeat (constructor; [done || by apply unreserved_spaceless|]). done.
Qed.
Lemma escape_unreserved s : Forall (fun c => unreserved c = true) s -> escape s = Some s.
Proof. induction 1 as [|c s Hc Hs IH]; [done|]. cbn [escape]. by rewrite Hc, IH. Qed.
Lemma hexString_toHex bs : Forall is_byte bs -> hexString bs = Some (toHex bs) /\ Forall (fun c => unreserved c = true) (toHex bs).
Proof.
  induction 1 as [|c bs Hc Hbs [IH1 IH2]]; [done|]. destruct (hexByte_digits c Hc) as (E & H1 & H2). cbn [hexString]. rewrite E, IH1. split; [done|].
  unfold toHex in *. cbn [fmap list_fmap concat app]. by repeat constructor.
Qed.
Lemma paramText_spaceless e : wf_param e -> spaceless e.1 -> spaceless (paramText e).
Proof.
  intros (_ & _ & _ & Hb) Hk. unfold paramText, spaceless. destruct (escape_spaceless _ Hb) as (ev & -> & Hev).
  apply Forall_app. split; [done|]. by constructor.
Qed.
Lemma join_spaceless d l : spaceless d -> Forall spaceless l -> spaceless (join d l).
Proof.
  intros Hd. induction 1 as [|s l Hs Hl IH]; [constructor|]. destruct l; [done|]. rewrite join_cons.
  unfold spaceless in *. by rewrite !Forall_app.
Qed.

(** ** The URL of a request *)

Section url.
Context `{FollyLaws}.

(** The parameters but that of the encryption. *)
Definition openUri (r : WdtTransferRequest) : WdtUri := setQueryParam TLS_PARAM (str_bool (tls r)) (serializePorts r (plainUri r)).
Lemma openUri_none hash r : requestUri hash false false (r <| encryptionData := EncryptionParams_none |>) = Some (openUri r).
Proof. done. Qed.
Lemma openUri_keys r (P : list Z -> Prop) :
  Forall P [TRANSFER_ID_PARAM; NAMESPACE_PARAM; DEST_IDENTIFIER_PARAM; RECEIVER_PROTOCOL_VERSION_PARAM; IV_CHANGE_INTERVAL_PARAM;
            DOWNLOAD_RESUMPTION_PARAM; PORTS_PARAM; NUM_PORTS_PARAM; TLS_PARAM] ->
  Forall (fun e => P e.1) (queryParams_ (openUri r)).
Proof.
  rewrite !Forall_cons. intros (? & ? & ? & ? & ? & ? & ? & ? & ? & _).
  assert (forall k v u, P k -> Forall (fun e => P e.1) (queryParams_ u) -> Forall (fun e => P e.1) (queryParams_ (setQueryParam k v u))) as Hset.
  { intros k v u Hk Hu. rewrite Forall_forall in *. by intros e [->|He]%map_set_elem; [|apply Hu]. }
  assert (Forall (fun e => P e.1) (queryParams_ (plainUri r))) as Hp.
  { unfold plainUri. destruct (downloadResumptionEnabled r); repeat (apply Hset; [done|]); constructor. }
  unfold openUri. apply Hset; [done|]. unfold serializePorts. destruct (ports r) as [|p ps]; [done|]. by destruct (hasHoles p ps); apply Hset.
Qed.
Lemma openUri_wf r : wf_request r -> wf_uri (openUri r).
Proof.
  intros Hr. apply setQueryParam_wf; [apply param_key; [done|apply str_bool_bytes]|]. apply serializePorts_wf; [apply Hr|by apply plainUri_wf].
Qed.
Lemma openUri_shown r : wf_request r -> shown (queryParams_ (openUri r)) <> [].
Proof.
  intros Hr E. destruct (openUri_wf r Hr) as (_ & _ & Ho & _).
  assert (map_get TLS_PARAM (shown (queryParams_ (openUri r))) = Some (str_bool (tls r))) as Hg; [|by rewrite E in Hg].
  unfold shown. rewrite map_get_filter by done. unfold openUri. cbn. rewrite map_get_set, decide_True by done. cbn.
  rewrite decide_True; [done|]. apply str_bool_digits.
Qed.

Lemma enc_stripped r s :
  wf_request r -> Forall is_byte s ->
  base.filter (fun e => encKey e.1 = false) (shown (queryParams_ (setQueryParam TLS_PARAM (str_bool (tls r))
    (setQueryParam ENCRYPTION_PARAM s (serializePorts r (plainUri r)))))) = shown (queryParams_ (openUri r)).
Proof.
  intros Hr Hs. destruct (openUri_wf r Hr) as (_ & _ & Ho & _).
  assert (ordered_map (queryParams_ (serializePorts r (plainUri r)))) as Hb by (apply serializePorts_wf; [apply Hr|by apply plainUri_wf]).
  assert (Forall (fun e => encKey e.1 = false) (queryParams_ (openUri r))) as Hk by (apply (openUri_keys r (fun k => encKey k = false)); repeat constructor).
  set (m := queryParams_ (setQueryParam TLS_PARAM _ _)). assert (ordered_map m) as Hm by (by do 2 apply map_set_ordered).
  apply ordered_map_ext; [eapply sublist_ordered; [apply sublist_filter|by apply shown_ordered]|by apply shown_ordered|].
  intros k. unfold shown. rewrite !map_get_filter by (done || by apply shown_ordered).
  destruct (map_get k (queryParams_ (openUri r))) as [v|] eqn:E.
  - apply map_get_elem in E as Hin; [|done]. rewrite Forall_forall in Hk. specialize (Hk _ Hin). simpl in Hk.
    assert (map_get k m = Some v) as ->.
    { rewrite <- E. unfold m, openUri. cbn. rewrite !map_get_set. repeat case_decide; try done. subst k. done. }
    cbn. case_decide; cbn; [|done]. by rewrite decide_True.
  - assert (encKey k = true \/ map_get k m = None) as [Hek| ->]; [|..|done].
    { unfold m, openUri in *. cbn in *. rewrite !map_get_set in *. repeat case_decide; try done; [subst k; by left|by right]. }
    destruct (map_get k m) as [v|]; cbn [mbind option_bind]; [|done]. case_decide; cbn [mbind option_bind]; [|done]. rewrite decide_False; [done|]. simpl. congruence.
Qed.
Definition textUrl (host : list Z) (port : Z) (l : QueryParams) : list Z :=
  frontUrl host port ++ chr "?" :: join [chr "&"] (paramText <$> l).
Lemma shown_wf l : Forall wf_param l -> Forall wf_param (shown l) /\ Forall (fun e => e.2 <> []) (shown l).
Proof.
  intros Hw. split; rewrite Forall_forall in *; intros x [Hx Hin]%list_elem_of_filter; [auto|exact Hx].
Qed.
Lemma generateUrl_text u :
  wf_uri u -> shown (queryParams_ u) <> [] -> generateUrl u = Some (textUrl (hostName_ u) (port_ u) (shown (queryParams_ u))).
Proof.
  intros (_ & _ & _ & Hw) Hne. destruct (shown_wf _ Hw). rewrite generateUrl_front, paramsUrl_shown, paramsUrl_join by done. done.
Qed.
Lemma front_no_question port : Forall (fun c => (chr "?" =? c) = false) (frontUrl (txt "receiver") port).
Proof.
  unfold frontUrl. repeat (apply Forall_app; split); [repeat constructor|repeat constructor|]. destruct (0 <? port); [|constructor].
  constructor; [done|]. destruct (str_int_digits port) as [_ Hd]. eapply Forall_impl; [exact Hd|]. intros c [->|[_ Hc]]; [done|].
  apply Z.eqb_neq. change (chr "9") with 57 in Hc. change (chr "?") with 63. lia.
Qed.
Lemma urlWithoutKey_text port l :
  Forall wf_param l -> urlWithoutKey (textUrl (txt "receiver") port l) = textUrl (txt "receiver") port (base.filter (fun e => encKey e.1 = false) l).
Proof.
  intros Hw. unfold urlWithoutKey, textUrl. rewrite break_some by (done || apply front_no_question).
  rewrite getlines_join by (apply Forall_fmap; eapply Forall_impl; [exact Hw|]; apply paramText_plain). by rewrite filter_texts.
Qed.
Lemma front_open r s : let base := serializePorts r (plainUri r) in
  hostName_ (setQueryParam TLS_PARAM (str_bool (tls r)) (setQueryParam ENCRYPTION_PARAM s base)) = hostName_ (openUri r)
  /\ port_ (setQueryParam TLS_PARAM (str_bool (tls r)) (setQueryParam ENCRYPTION_PARAM s base)) = port_ (openUri r).
Proof. done. Qed.
Lemma openUri_host r : hostName_ (openUri r) = hostName r.
Proof. unfold openUri. simpl. rewrite serializePorts_host. unfold plainUri. by destruct (downloadResumptionEnabled r). Qed.

(** Without the key it is the URL of the same request without encryption. *)
Lemma url_without_key to_str hash r :
  wf_request r -> hostName r = txt "receiver" -> isSet (encryptionData r) = true ->
  exists url, genWdtUrlWithSecret to_str hash r = Some url
    /\ urlWithoutKey url = textUrl (txt "receiver") (port_ (openUri r)) (shown (queryParams_ (openUri r)))
    /\ genWdtUrlWithSecret to_str hash (r <| encryptionData := EncryptionParams_none |>) = Some (urlWithoutKey url).
Proof.
  intros Hr Hh Hs. pose proof Hr as (He & _ & _ & _ & _ & _ & _ & _ & _ & _ & Henc).
  destruct (encryption_roundtrip _ Henc Hs) as (s & Es & _ & Hb & _).
  set (u := setQueryParam TLS_PARAM (str_bool (tls r)) (setQueryParam ENCRYPTION_PARAM s (serializePorts r (plainUri r)))).
  assert (requestUri hash false false r = Some u) as Hu.
  { change (requestUri hash false false r) with (let* e := (if isSet (encryptionData r) then let* s := getUrlSafeString (encryptionData r) in
      Some (setQueryParam ENCRYPTION_PARAM s (serializePorts r (plainUri r))) else Some (serializePorts r (plainUri r))) in
      Some (setQueryParam TLS_PARAM (str_bool (tls r)) e)). by rewrite Hs, Es. }
  assert (wf_uri u) as Wu.
  { apply setQueryParam_wf; [apply param_key; [done|apply str_bool_bytes]|]. apply setQueryParam_wf; [by apply param_key|].
    apply serializePorts_wf; [apply Hr|by apply plainUri_wf]. }
  pose proof (enc_stripped r s Hr Hb) as Hstrip. pose proof (openUri_shown r Hr) as Hne. pose proof (openUri_wf r Hr) as Wo.
  assert (shown (queryParams_ u) <> []) as Hnu by (intros E; apply Hne; rewrite <- Hstrip; fold u; by rewrite E).
  assert (hostName_ (openUri r) = txt "receiver") as Hho by (by rewrite openUri_host).
  assert (urlWithoutKey (textUrl (hostName_ u) (port_ u) (shown (queryParams_ u)))
    = textUrl (txt "receiver") (port_ (openUri r)) (shown (queryParams_ (openUri r)))) as Hurl.
  { destruct (front_open r s) as [Eh Ep]. fold u in Eh, Ep. rewrite Eh, Ep, Hho, urlWithoutKey_text by (apply shown_wf, Wu).
    f_equal. exact Hstrip. }
  eexists. split; [|split; [exact Hurl|]].
  - unfold genWdtUrlWithSecret, generateUrlInternal. rewrite bool_decide_eq_true_2, Hu by done. cbn [negb mbind option_bind].
    by apply generateUrl_text.
  - rewrite Hurl. unfold genWdtUrlWithSecret, generateUrlInternal. rewrite openUri_none, bool_decide_eq_true_2 by done. cbn [negb mbind option_bind].
    rewrite <- Hho. by apply generateUrl_text.
Qed.
End url.

(** ** The sender's URL *)

Section sender.
Context `{FollyLaws}.
(** [folly::to<std::string>] of a number is decimal. *)
Context (str_int_decimal : forall n, 0 <= n -> str_int n = to_string n).

Lemma textUrl_make host port l :
  wf_host host -> inS 32 port -> l <> [] -> Forall wf_param l -> Forall (fun e => e.2 <> []) l ->
  WdtUri_make (textUrl host port l)
  = Some (mkWdtUri (foldl (fun m e => map_set e.1 e.2 m) [] l) host (if 0 <? port then port else -1) OK).
Proof using H0.
  intros Hh Hp Hne Hw Hv. unfold WdtUri_make, uri_assign, textUrl. rewrite process_url by eauto. cbv zeta.
  destruct (parseParams_shown l (chr "?") Hw Hv) as [[-> _]|(body & _ & E & _ & Hparse)]; [done|].
  rewrite paramsUrl_join in E by done. injection E as E. rewrite E, Hparse by done. cbn [mbind option_bind]. rewrite foldl_setQueryParam. done.
Qed.
Lemma texts_no_newline l :
  Forall wf_param l -> Forall (fun e => spaceless e.1) l ->
  forallb (fun c => negb ((c =? 10) || (c =? 13))) (join [chr "&"] (paramText <$> l)) = true.
Proof.
  intros Hw Hs. assert (spaceless (join [chr "&"] (paramText <$> l))) as Hj.
  { apply join_spaceless; [by constructor|]. apply Forall_fmap. rewrite Forall_forall in *. intros e He. apply paramText_spaceless; auto. }
  apply forallb_forall. intros c Hc. unfold spaceless in Hj. rewrite Forall_forall in Hj. specialize (Hj c (proj2 (list_elem_of_In _ _) Hc)).
  destruct (c =? 10) eqn:E1; [apply Z.eqb_eq in E1 as ->; done|]. destruct (c =? 13) eqn:E2; [apply Z.eqb_eq in E2 as ->; done|]. done.
Qed.
Lemma matchReceiver_text port l :
  port < 65536 -> Forall wf_param l -> Forall (fun e => spaceless e.1) l ->
  matchReceiver (textUrl (txt "receiver") port l)
  = Some (if 0 <? port then txt ":" ++ to_string port else [], join [chr "&"] (paramText <$> l)).
Proof using str_int_decimal.
  intros Hp Hw Hs. unfold matchReceiver, textUrl, frontUrl. change (hostUrl (txt "receiver")) with (txt "receiver").
  rewrite app_assoc. change (WDT_URL_PREFIX ++ txt "receiver") with (txt "wdt://receiver"). rewrite <- app_assoc, strip_prefix_app. cbn [mbind option_bind].
  pose proof (texts_no_newline l Hw Hs) as Hnl. destruct (Z.ltb_spec 0 port) as [Hpos|].
  - rewrite str_int_decimal by lia. rewrite <- app_assoc. change [chr ":"] with (txt ":"). rewrite strip_prefix_app.
    destruct (to_string_nonneg port ltac:(lia)) as [Hne Hd]. pose proof (to_string_port port ltac:(lia)) as H5.
    rewrite span_some by done.
    replace ((1 <=? Zlen (to_string port)) && (Zlen (to_string port) <=? 5)) with true.
    2: { symmetry. rewrite andb_true_iff, !Z.leb_le. unfold Zlen. destruct (to_string port); [done|simpl in *; lia]. }
    cbn [mbind option_bind]. change (chr "?" :: join [chr "&"] (paramText <$> l)) with (txt "?" ++ join [chr "&"] (paramText <$> l)).
    rewrite strip_prefix_app. cbn [mbind option_bind]. by rewrite Hnl.
  - cbn [app]. assert (forall s, strip_prefix (txt ":") (chr "?" :: s) = None) as -> by done. cbn [mbind option_bind].
    change (chr "?" :: join [chr "&"] (paramText <$> l)) with (txt "?" ++ join [chr "&"] (paramText <$> l)).
    rewrite strip_prefix_app. cbn [mbind option_bind]. by rewrite Hnl.
Qed.
Lemma senderUrl_text port l host key :
  port < 65536 -> l <> [] -> Forall wf_param l -> Forall (fun e => spaceless e.1) l -> Forall (fun e => encKey e.1 = false) l -> Forall is_byte key ->
  senderUrl (textUrl (txt "receiver") port l) host key
  = Some (textUrl host port (l ++ [(ENCRYPTION_PARAM, txt "2:" ++ toHex key)])).
Proof using str_int_decimal.
  intros Hp Hne Hw Hs He Hk. unfold senderUrl. rewrite matchReceiver_text by done. cbn [mbind option_bind].
  rewrite pieces_join; [|by destruct l|apply Forall_fmap; eapply Forall_impl; [exact Hw|]; apply paramText_plain].
  rewrite filter_texts by done. rewrite filter_keeps by done.
  unfold textUrl. rewrite fmap_app. f_equal. unfold frontUrl, hostUrl. rewrite <- !app_assoc. f_equal. f_equal.
  destruct (hexString_toHex key Hk) as [_ Hu].
  assert (paramText (ENCRYPTION_PARAM, txt "2:" ++ toHex key) = txt "Enc=2:" ++ toHex key) as Ht.
  { unfold paramText. rewrite escape_unreserved; [done|]. by repeat constructor. }
  rewrite fmap_cons, fmap_nil, Ht. destruct (Z.ltb_spec 0 port); [by rewrite str_int_decimal by lia|done].
Qed.

Lemma openUri_port r : Forall (fun p => p < 65536) (ports r) -> port_ (openUri r) < 65536.
Proof.
  intros Hp. unfold openUri. simpl. assert (port_ (plainUri r) = -1) as Hd by (unfold plainUri; by destruct (downloadResumptionEnabled r)).
  unfold serializePorts. destruct (ports r) as [|p ps]; [lia|]. apply Forall_cons in Hp as [Hp _]. destruct (hasHoles p ps); simpl; lia.
Qed.
Lemma wf_request_none r : wf_request r -> wf_request (r <| encryptionData := EncryptionParams_none |>).
Proof. unfold wf_request. simpl. intuition. split; [constructor|done]. Qed.
Lemma openUri_describes r : wf_request r -> describes (r <| encryptionData := EncryptionParams_none |>) (readable (openUri r)).
Proof.
  intros Hr%wf_request_none. destruct (requestUri_spec id _ Hr) as (u & Hu & Wu & Du). rewrite openUri_none in Hu. injection Hu as <-.
  by apply describes_readable.
Qed.
Lemma describes_key r u host key s :
  describes (r <| encryptionData := EncryptionParams_none |>) u -> encryptionData r = mkEncryptionParams ENC_AES128_GCM key ->
  s <> [] -> unserialize s = (OK, encryptionData r) ->
  describes (r <| hostName := host |>) (setQueryParam ENCRYPTION_PARAM s (setHostName host u)).
Proof.
  intros Hd He Hs Hun. unfold describes in *. rewrite !getQueryParam_set.
  repeat first [rewrite decide_True by done | rewrite decide_False by done]. rewrite !getQueryParam_host. simpl in *.
  destruct Hd as (_ & ? & ? & ? & ? & ? & ? & ? & ? & _ & ?). rewrite He in *. by split_and!.
Qed.
Lemma sender_request to_str hash r host key :
  wf_request r -> hostName r = txt "receiver" -> Forall (fun p => p < 65536) (ports r) ->
  encryptionData r = mkEncryptionParams ENC_AES128_GCM key -> wf_host host ->
  exists url url', genWdtUrlWithSecret to_str hash r = Some url
    /\ genWdtUrlWithSecret to_str hash (r <| encryptionData := EncryptionParams_none |>) = Some (urlWithoutKey url)
    /\ senderUrl (urlWithoutKey url) host key = Some url'
    /\ WdtTransferRequest_make url' = Some (r <| hostName := host |> <| directory := [] |>).
Proof using H0 str_int_decimal.
  intros Hr Hh Hp He Hhost. destruct (url_without_key to_str hash r Hr Hh) as (url & Hurl & Htext & Hnone); [by rewrite He|].
  pose proof Hr as (_ & _ & _ & _ & _ & _ & _ & _ & _ & _ & Henc). assert (Forall is_byte key) as Hk by (rewrite He in Henc; apply Henc).
  destruct (encryption_roundtrip _ Henc) as (s & Es & Hsne & Hsb & Hun); [by rewrite He|].
  assert (s = txt "2:" ++ toHex key) as ->.
  { rewrite He in Es. unfold getUrlSafeString in Es. cbn [ep_type ep_data] in Es. rewrite (proj1 (hexString_toHex key Hk)) in Es.
    cbn [mbind option_bind] in Es. injection Es as <-. done. }
  pose proof (openUri_wf r Hr) as (Wh & Wp & Wo & Ww). destruct (shown_wf _ Ww) as [Sw Sv]. set (l := shown (queryParams_ (openUri r))) in *.
  assert (forall P, Forall (fun e => P e.1) (queryParams_ (openUri r)) -> Forall (fun e => P e.1) l) as Hsub.
  { intros P HP. unfold l, shown. rewrite Forall_forall in *. intros e [_ Hin]%list_elem_of_filter. auto. }
  exists url, (textUrl host (port_ (openUri r)) (l ++ [(ENCRYPTION_PARAM, txt "2:" ++ toHex key)])). split_and!; [done|done|..].
  - rewrite Htext. apply senderUrl_text; [by apply openUri_port|by apply openUri_shown|done|..|done].
    + apply Hsub, openUri_keys. repeat constructor.
    + apply (Hsub (fun k => encKey k = false)), (openUri_keys r (fun k => encKey k = false)). repeat constructor.
  - eapply (request_read _ (r <| hostName := host |>)).
    + unfold wf_request in *. simpl. intuition.
    + apply textUrl_make; [done|done|by destruct l|..]; apply Forall_app; (split; [done|]); constructor; try done. by apply param_key.
    + done.
    + rewrite foldl_app. cbn [foldl]. rewrite (foldl_map_set l []) by (by apply shown_ordered). cbn [app fst snd].
      by apply (describes_key r (readable (openUri r)) host key); [apply openUri_describes|..].
Qed.
End sender.
