(* ===== verification/AwdtSession.v ===== *)
(** Properties of the conversation of the desktop program and the phone: a
    message arrives as the words that were sent, however the network cuts it,
    and at the end of a push both have the same key and the sender has the
    receiver's request. *)
From Stdlib Require Import Ascii.
From stdpp Require Import gmap.
From S2P Require Import Prelude ErrorCodes Protocol Uri UriProps StateMonad AwdtText AwdtTextProps AwdtHub AwdtHubProps AwdtPush AwdtPhone AwdtUrlProps.

(** ** Lines *)

Section lines.
Context {Key W : Type} `{AwdtOs Key W} (incoming sent : W -> list Z).
(** [send] takes some bytes from the front of what it is given or fails;
    [recv] gives the next bytes of the peer, and fails only behind the last one
    if the connection is [reliable]. *)
Context (send_law : forall line w, line <> [] ->
  let '(n, w') := net_send line w in n <= 0 \/ (n <= Zlen line /\ sent w' = sent w ++ take (Z.to_nat n) line)).
Context (recv_law : forall w,
  let '(n, bs, again, w') := net_recv w in n <= 0 \/ (0 < n /\ n = Zlen bs /\ incoming w = bs ++ incoming w')).
Definition reliable : Prop := forall w, incoming w <> [] -> 0 < (net_recv w).1.1.1.
Definition stream (a : Awdt W) : list Z := buf_ a ++ incoming (env a).

Lemma send_loop_spec rounds line a :
  (length line <= rounds)%nat ->
  exists r a', send_loop rounds line a = Some (r, a') /\ buf_ a' = buf_ a /\ files a' = files a
    /\ (r = throw "connection lost" \/ r = inr tt /\ sent (env a') = sent (env a) ++ line).
Proof using send_law.
  revert line a. induction rounds as [|rounds IH]; intros line a Hl.
  { destruct line; [|simpl in Hl; lia]. eexists _, a. split_and!; [done..|]. right. by rewrite app_nil_r. }
  cbn [send_loop]. case_bool_decide as Hne; [subst; eexists _, a; split_and!; [done..|]; right; by rewrite app_nil_r|].
  pose proof (send_law line (env a) Hne) as Hs. unfold onEnv, mbind, M_bind. destruct (net_send line (env a)) as [n w'] eqn:E.
  destruct (Z.leb_spec n 0) as [Hn|Hn]; [by eexists _, _; split_and!; [done|..]; auto|]. destruct Hs as [|[Hn2 Hs]]; [lia|].
  destruct (IH (drop (Z.to_nat n) line) (a <| env := w' |>)) as (r & a' & Hr & Hb & Hf & Hres).
  { rewrite length_drop. lia. }
  exists r, a'. split_and!; [exact Hr|done|done|]. destruct Hres as [?|[? Hs']]; [by left|right]. split; [done|].
  rewrite Hs'. simpl. rewrite Hs, <- app_assoc. by rewrite take_drop.
Qed.

Lemma break_eq p l a c b : break p l = (a, c :: b) -> l = a ++ c :: b /\ p c = true /\ Forall (fun x => p x = false) a.
Proof.
  revert a. induction l as [|x l IH]; intros a Hb; [done|]. cbn [break] in Hb. destruct (p x) eqn:E; [by simplify_eq|].
  destruct (break p l) as [a' b'] eqn:Eb. injection Hb as <- ->. destruct (IH a' eq_refl) as (-> & ? & ?). split_and!; [done..|]. by constructor.
Qed.
Lemma break_nil p l a : break p l = (a, []) -> l = a /\ Forall (fun x => p x = false) a.
Proof.
  revert a. induction l as [|x l IH]; intros a Hb; [injection Hb as <-; split; [done|constructor]|]. cbn [break] in Hb. destruct (p x) eqn:E; [done|].
  destruct (break p l) as [a' b'] eqn:Eb. injection Hb as <- ->. destruct (IH a' eq_refl) as (-> & ?). split; [done|]. by constructor.
Qed.

Lemma no_newline (l : list Z) : Forall (fun x => (10 =? x) = false) l -> 10 ∉ l.
Proof. intros Hf Hin. rewrite Forall_forall in Hf. by apply Hf in Hin. Qed.
(** A buffer without the end of a line is a part of the first line. *)
Lemma newline_behind (b s line rest : list Z) :
  10 ∉ b -> b ++ s = line ++ 10 :: rest -> (length b <= length line)%nat /\ s <> [].
Proof.
  intros Hb E. assert (length b <= length line)%nat as Hl.
  { destruct (decide (length b <= length line)%nat) as [|Hgt]; [done|]. exfalso. apply Hb.
    apply (list_elem_of_lookup_2 _ (length line)). rewrite <- (lookup_app_l b s) by lia. rewrite E. by apply list_lookup_middle. }
  split; [done|]. intros ->. rewrite app_nil_r in E. apply (f_equal length) in E. rewrite length_app in E. simpl in E. lia.
Qed.

Definition line_result (a : Awdt W) (r : list Z + list Z) (a' : Awdt W) : Prop :=
  match r with
  | inr line => 10 ∉ line /\ stream a = line ++ 10 :: stream a'
  | inl _ => reliable -> forall line rest, 10 ∉ line -> Zlen line <= 8192 -> stream a <> line ++ 10 :: rest
  end.
Lemma recv_line_found rounds a line c rest :
  break (Z.eqb 10) (buf_ a) = (line, c :: rest) ->
  exists r a', recv_line rounds a = Some (r, a') /\ files a' = files a /\ line_result a r a'.
Proof.
  intros E. exists (inr line), (a <| buf_ := rest |>). split; [destruct rounds; cbn [recv_line]; unfold gets, mbind, M_bind; by rewrite E|].
  apply break_eq in E as (Hb & Hc & Hf). split; [done|]. split; [by apply no_newline|]. unfold stream. rewrite Hb. simpl.
  apply Z.eqb_eq in Hc as <-. by rewrite <- app_assoc.
Qed.
Lemma recv_line_long rounds a line :
  break (Z.eqb 10) (buf_ a) = (line, []) -> 8192 < Zlen (buf_ a) ->
  exists r a', recv_line rounds a = Some (r, a') /\ files a' = files a /\ line_result a r a'.
Proof.
  intros E Hlong. exists (throw "message too long"), a. split.
  { destruct rounds; cbn [recv_line]; unfold gets, mbind, M_bind; by rewrite E, (proj2 (Z.ltb_lt _ _) Hlong). }
  split; [done|]. intros _ l rest Hl Hle Heq. apply break_nil in E as [<- Hf]. apply newline_behind in Heq as [Hlen _]; [|by apply no_newline].
  apply Nat2Z.inj_le in Hlen. lia.
Qed.
(** It ends, with the next line of the stream or an exception. *)
Lemma recv_line_spec rounds a :
  8193 <= Z.of_nat rounds + Zlen (buf_ a) ->
  exists r a', recv_line rounds a = Some (r, a') /\ files a' = files a /\ line_result a r a'.
Proof using recv_law.
  revert a. induction rounds as [|rounds IH]; intros a Hr; destruct (break (Z.eqb 10) (buf_ a)) as [line [|c rest]] eqn:E;
    try (by eapply recv_line_found); [apply (recv_line_long _ _ _ E); simpl in Hr; lia|].
  destruct (decide (8192 < Zlen (buf_ a))) as [Hlong|Hshort]; [by eapply recv_line_long|].
  cbn [recv_line]. unfold gets, mbind, M_bind, onEnv. rewrite E, (proj2 (Z.ltb_ge _ _)) by lia. apply break_nil in E as [<- Hf].
  pose proof (recv_law (env a)) as Hlaw. pose proof (fun Hrel : reliable => Hrel (env a)) as Hrel. destruct (net_recv (env a)) as [[[n bs] again] w'] eqn:En.
  destruct Hlaw as [Hn|(Hn & Hlen & Hin)].
  - assert (reliable -> forall l rest, 10 ∉ l -> Zlen l <= 8192 -> stream a <> l ++ 10 :: rest) as Hno.
    { intros Hre l rest Hl _ Heq. apply newline_behind in Heq as [_ Hne]; [|by apply no_newline]. specialize (Hrel Hre Hne). simpl in Hrel. lia. }
    destruct (Z.eqb_spec n 0); [by eexists _, _|]. rewrite (proj2 (Z.ltb_lt n 0)) by lia. by eexists _, _.
  - rewrite (proj2 (Z.eqb_neq n 0)), (proj2 (Z.ltb_ge n 0)) by lia. unfold modify.
    destruct (IH (a <| env := w' |> <| buf_ := buf_ a ++ bs |>)) as (r & a' & E & Hfiles & Hres); [simpl; rewrite Zlen_app; lia|].
    exists r, a'. split; [exact E|]. split; [done|]. unfold line_result, stream in *. simpl in Hres. rewrite Hin, app_assoc. exact Hres.
Qed.

(** ** Messages *)

Lemma line_unique (x : Z) a b a' b' : x ∉ a -> x ∉ a' -> a ++ x :: b = a' ++ x :: b' -> a = a' /\ b = b'.
Proof.
  intros Ha. revert a'. induction a as [|c a IH]; intros [|c' a'] Ha' E; simplify_eq/=; [done|set_solver..|].
  destruct (IH ltac:(set_solver) a') as [-> ->]; [set_solver|done|done].
Qed.

Lemma join_no x ws : x <> 32 -> isspace x = true -> Forall plain_word ws -> x ∉ join (txt " ") ws.
Proof.
  intros Hx Hs. induction 1 as [|w ws [_ Hw] Hws IH]; [apply not_elem_of_nil|].
  assert (x ∉ w) as Hxw by (intros Hin; rewrite Forall_forall in Hw; apply Hw in Hin; congruence).
  destruct ws as [|w' ws]; [done|]. rewrite join_cons, !not_elem_of_app. split_and!; [done| |done]. by apply not_elem_of_cons; split; [|apply not_elem_of_nil].
Qed.
Lemma drop_cr_id line : 13 ∉ line -> drop_cr line = line.
Proof.
  intros H13. unfold drop_cr. rewrite bool_decide_eq_false_2; [done|]. intros E. apply H13. by apply last_Some_elem_of.
Qed.
Lemma checkWords_message verb args :
  Forall plain_word (verb :: args) -> verb <> txt "ERROR" ->
  checkWords verb (drop_cr (join (txt " ") (kProtocol :: verb :: args))) = inr args.
Proof.
  intros Hw Hv. assert (Forall plain_word (kProtocol :: verb :: args)) as Hall.
  { constructor; [|done]. split; [done|]. repeat constructor. }
  unfold checkWords. rewrite drop_cr_id by (by apply join_no). rewrite words_join by done.
  rewrite (bool_decide_eq_true_2 (kProtocol = kProtocol)), (bool_decide_eq_false_2 (verb = _)), (bool_decide_eq_true_2 (verb = verb)) by done. done.
Qed.

(** C25: A message is sent as one line or the connection is lost; whoever has the
    line at the front of what arrives, in whatever pieces, and no line longer
    than 8192 bytes, receives the words that were sent and nothing of what
    follows; and receiving ends whatever arrives. *)
Theorem message_delivered verb args a :
  Forall plain_word (verb :: args) -> verb <> txt "ERROR" -> reliable ->
  let line := join (txt " ") (kProtocol :: verb :: args) in
  Zlen line <= 8192 ->
  (exists r a', send (join (txt " ") (verb :: args)) a = Some (r, a') /\ files a' = files a
     /\ (r = throw "connection lost" \/ r = inr tt /\ sent (env a') = sent (env a) ++ line ++ [10]))
  /\ (forall b rest, stream b = line ++ 10 :: rest ->
        exists b', receive verb b = Some (inr args, b') /\ files b' = files b /\ stream b' = rest)
  /\ (forall expected b, is_Some (receive expected b)).
Proof using send_law recv_law.
  intros Hw Hv Hrel line Hlen. split_and!.
  - unfold send. destruct (send_loop_spec (length (line ++ [10])) (line ++ [10]) a) as (r & a' & E & _ & Hf & Hres); [done|].
    exists r, a'. assert (kProtocol ++ txt " " ++ join (txt " ") (verb :: args) ++ [10] = line ++ [10]) as -> by done. done.
  - intros b rest Hs. unfold receive, ebind, mbind, M_bind. destruct (recv_line_spec (Z.to_nat 8193) b) as (r & b' & -> & Hf & Hres); [lia|].
    assert (10 ∉ line) as Hnl.
    { apply join_no; [done..|]. constructor; [|done]. split; [done|]. repeat constructor. }
    destruct r as [e|line']; cbn [line_result] in Hres; [by destruct (Hres Hrel line rest Hnl Hlen)|]. destruct Hres as [Hn' E].
    rewrite Hs in E. apply line_unique in E as [<- ->]; try done. exists b'. split_and!; [|done|done].
    unfold line. by rewrite checkWords_message.
  - intros expected b. unfold receive, ebind, mbind, M_bind. destruct (recv_line_spec (Z.to_nat 8193) b) as (r & b' & -> & _); [lia|].
    by destruct r.
Qed.
End lines.

(** ** A push *)

(** What [awdt.cpp] relies on of OpenSSL and of the phone's cryptography: the two
    halves of a key agreement give the same secret, the DER form of a public key
    is read back, and base64 text has whole groups of four, with padding for as
    many bytes as [EVP_DecodeBlock] adds. *)
Class CryptoLaws (Key PubKey : Type) `{Crypto Key PubKey} : Prop := {
  derive_sym (a b : Key) : derive a (public b) = derive b (public a);
  der_read (k : Key) : d2i_P256 (i2d_PUBKEY (public k)) = Some (public k) /\ i2d_PUBKEY (public k) <> [];
  block_read bytes : bytes <> [] -> EncodeBlock bytes <> [] /\ Zlen (EncodeBlock bytes) mod 4 = 0
    /\ DecodeBlock (EncodeBlock bytes) = Some (bytes ++ replicate (trailing (chr "=") (EncodeBlock bytes)) 0)
}.

Section push.
Context `{FollyLaws} {Key PubKey : Type} `{CryptoLaws Key PubKey}.
Context (str_int_decimal : forall n, 0 <= n -> str_int n = to_string n).

Lemma base64_roundtrip bytes : bytes <> [] -> base64Decode (base64Encode bytes) = inr bytes.
Proof.
  intros Hb. destruct (block_read bytes Hb) as (Hne & Hmod & Hd). unfold base64Decode, base64Encode.
  rewrite bool_decide_eq_false_2, Hmod, Hd by done. cbn [orb negb Z.eqb]. rewrite length_app, length_replicate.
  rewrite (proj2 (Nat.ltb_ge _ _)) by lia. f_equal.
  replace (length bytes + trailing (chr "=") (EncodeBlock bytes) - trailing (chr "=") (EncodeBlock bytes))%nat with (length bytes) by lia.
  apply take_app_length.
Qed.
Lemma push_key_agreed (phone desktop : Key) theirDer myDer key :
  pushKey desktop (public phone) theirDer myDer = inr key <-> senderKey phone (public desktop) theirDer myDer = Some key.
Proof.
  unfold pushKey, senderKey, ecdh, sha256. rewrite (derive_sym desktop phone).
  destruct (derive phone (public desktop)) as [secret|]; cbn [mbind option_bind]; [|done].
  destruct (Digest_sha256 _); cbn [mbind option_bind]; [|done]. split; by intros [= <-].
Qed.

(** C23: A push, from the keys to the request of the sender: the public key in the
    message is read back by the desktop program, the phone derives the key that
    the desktop program encrypts with, the URL that goes over the network is that
    of the same request without encryption, so nothing of the key is in it, and
    what the phone makes of it and the key is read by its sender as the
    receiver's request, on the host that the phone connected to. *)
Theorem push_request to_str hash (phone desktop : Key) host key r :
  let phoneDer := i2d_PUBKEY (public phone) in
  let desktopDer := i2d_PUBKEY (public desktop) in
  pushKey desktop (public phone) phoneDer desktopDer = inr key ->
  wf_request r -> hostName r = kReceiverHost -> Forall (fun p => p < 65536) (ports r) ->
  encryptionData r = mkEncryptionParams ENC_AES128_GCM key -> wf_host host ->
  base64Decode (base64Encode phoneDer) = inr phoneDer /\ parseP256PublicKey phoneDer = inr (public phone)
  /\ senderKey phone (public desktop) phoneDer desktopDer = Some key
  /\ exists url url', genWdtUrlWithSecret to_str hash r = Some url
     /\ genWdtUrlWithSecret to_str hash (r <| encryptionData := EncryptionParams_none |>) = Some (urlWithoutKey url)
     /\ senderUrl (urlWithoutKey url) host key = Some url'
     /\ WdtTransferRequest_make url' = Some (r <| hostName := host |> <| directory := [] |>).
Proof using All.
  intros phoneDer desktopDer Hkey Hr Hh Hp He Hhost. destruct (der_read phone) as [Hder Hne]. split_and!.
  - by apply base64_roundtrip.
  - unfold parseP256PublicKey, phoneDer. by rewrite Hder.
  - by apply push_key_agreed.
  - by apply sender_request.
Qed.
End push.
