(* ===== verification/AwdtExamples.v ===== *)
(** The desktop program by example: a network, a cryptography and a receiver that
    satisfy the laws, the witnesses of the theorems on the hub, on moving and
    on a push, a whole push, and three ways in which a transfer goes wrong. *)
From Stdlib Require Import Ascii.
From stdpp Require Import gmap.
From S2P Require Import Prelude ErrorCodes Protocol Uri UriProps UriExamples StateMonad AwdtText AwdtTextProps AwdtHub AwdtHubProps AwdtPush AwdtPushProps AwdtPhone AwdtUrlProps AwdtSession.

(** ** Instances *)

(** Keys that are multiplied, base64 with a byte in each group, a digest that
    adds. *)
Fixpoint toy_groups (s : list Z) : list Z := match s with c :: _ :: _ :: _ :: s => c :: toy_groups s | _ => [] end.
#[global] Instance Toy_crypto : Crypto Z Z := {|
  EncodeBlock bytes := concat ((fun c => [c; 65; 65; 65]) <$> bytes);
  DecodeBlock s := Some (toy_groups s);
  Digest_sha256 s := Some ((fun i => wrapU 8 (foldr Z.add i s)) <$> seqZ 0 32);
  public k := k; i2d_PUBKEY k := [k]; d2i_P256 der := head der; derive a b := Some [wrapU 8 (a * b)] |}.
Lemma toy_groups_read bytes : toy_groups (EncodeBlock bytes) = bytes.
Proof. induction bytes as [|c bytes IH]; [done|]. change (c :: toy_groups (EncodeBlock bytes) = c :: bytes). by rewrite IH. Qed.
Lemma trailing_snoc c s x : x <> c -> trailing c (s ++ [x]) = O.
Proof.
  intros Hx. induction s as [|y s IH]; cbn [app trailing]; [simpl; by rewrite (proj2 (Z.eqb_neq c x)) by auto|].
  rewrite IH. case_match eqn:E; [|done]. rewrite forallb_forall in E. specialize (E x). rewrite Z.eqb_eq in E.
  destruct Hx. symmetry. apply E. right. apply in_or_app. right. by left.
Qed.
Lemma toy_encode_cons c bytes : EncodeBlock (c :: bytes) = [c; 65; 65; 65] ++ EncodeBlock bytes.
Proof. done. Qed.
Lemma toy_encode_last bytes : bytes <> [] -> exists s, EncodeBlock bytes = s ++ [65].
Proof.
  induction bytes as [|c [|x bytes] IH]; intros Hne; [done|by exists [c; 65; 65]|]. destruct (IH ltac:(done)) as [s E].
  exists ([c; 65; 65; 65] ++ s). by rewrite toy_encode_cons, E.
Qed.
Lemma toy_encode_length bytes : Zlen (EncodeBlock bytes) = 4 * Zlen bytes.
Proof. induction bytes as [|c bytes IH]; [done|]. rewrite toy_encode_cons, Zlen_app, IH, !Zlen_cons, Zlen_nil. lia. Qed.
#[global] Instance Toy_crypto_laws : CryptoLaws Z Z.
Proof.
  split; [simpl; intros; by rewrite Z.mul_comm|done|]. intros bytes Hne. destruct (toy_encode_last bytes Hne) as [s E]. split_and!.
  - rewrite E. by destruct s.
  - rewrite toy_encode_length, Z.mul_comm. by apply Z_mod_mult.
  - rewrite E at 2. rewrite trailing_snoc by done. change (DecodeBlock (EncodeBlock bytes)) with (Some (toy_groups (EncodeBlock bytes))).
    rewrite toy_groups_read. by rewrite app_nil_r.
Defined.

(** One byte arrives at a time, two are taken; the receiver gets a file [note.txt]
    and one in a folder. *)
Record ToyNet := mkToyNet { net_in : list Z; net_out : list Z }.
Definition toy_send (line : list Z) (w : ToyNet) : Z * ToyNet :=
  (Z.min 2 (Zlen line), mkToyNet (net_in w) (net_out w ++ take (Z.to_nat (Z.min 2 (Zlen line))) line)).
Definition toy_recv (w : ToyNet) : Z * list Z * bool * ToyNet :=
  match net_in w with [] => (0, [], false, w) | c :: s => (1, [c], false, mkToyNet s (net_out w)) end.
Definition toy_entries : list Path := [[txt "note.txt"]; [txt "a"; txt "b"]; [txt ".wdt.log"]].
Definition toy_received (staging : Path) (fs : Fs) : Fs :=
  <[staging ++ [txt "note.txt"] := File [1]]> (<[staging ++ [txt "a"] := Dir]>
    (<[staging ++ [txt "a"; txt "b"] := File [2]]> (<[staging ++ [txt ".wdt.log"] := File [3]]> fs))).
Definition toy_os (code : ErrorCode) : AwdtOs Z ToyNet := {|
  net_send := toy_send; net_recv := toy_recv; random n w := (Some (replicate (Z.to_nat n) 171), w); keygen w := (Some 7, w);
  ask _ _ _ w := (true, w); connectTo _ _ w := (None, w);
  receiver_init _ r w := (r <| transferId := txt "t" |> <| errorCode := code |>, w); transferAsync w := (OK, w);
  receiver_finish staging fs w := (OK, toy_received staging fs, w); folder_entries _ _ w := (toy_entries, w) |}.

Definition ex_folder : Path := [txt "home"; txt "in"].
Definition ex_fs : Fs := <[[txt "home"] := Dir]> (<[ex_folder := Dir]> (<[ex_folder ++ [txt "note.txt"] := File [9]]> ∅)).
Definition ex_config : ReceiveConfig := mkReceiveConfig ex_folder true (txt "pc") kDefaultPort 0.
Definition ex_push : list Z := txt "AWDT/1 PUSH " ++ base64Encode (H := Toy_crypto) [66] ++ txt " 2 2 My phone" ++ [10].

(** A whole push: the answer has the key of this computer and a URL without the
    secret, and the files are in the folder, beside the one that had the name. *)
Example push_session :
  match handlePush (H1 := toy_os OK) (fun _ => "") no_hash 0 (txt "10.0.0.2") ex_config (mkAwdt [] ex_fs (mkToyNet ex_push [])) with
  | Some (inr true, a) =>
    net_out (env a) = txt "AWDT/1 ACCEPT " ++ [7; 65; 65; 65]
       ++ txt " wdt://receiver:22356?id=t&iv_change_int=0&num_ports=3&recpv=32&tls=0" ++ [10]
    /\ files a !! (ex_folder ++ [txt "note.txt"]) = Some (File [9])
    /\ files a !! (ex_folder ++ [txt "note (1).txt"]) = Some (File [1])
    /\ files a !! (ex_folder ++ [txt "a"; txt "b"]) = Some (File [2])
    /\ files a !! (ex_folder ++ [txt ".awdt-incoming-abababab"]) = None
  | _ => False
  end.
Proof. vm_compute. auto 10. Qed.

(** ** Ways to go wrong *)

(** Some of the ports could be bound: [startReceiver] goes on, but the URL of a
    request with an error is the name of the error, and what the phone is sent
    it cannot use. *)
Example fewer_ports_no_url :
  (forall a, exists a', startReceiver (H1 := toy_os FEWER_PORTS) (fun _ => "") no_hash 0 ex_folder [1] a = Some (inr (txt "FEWER_PORTS"), a'))
  /\ senderUrl (urlWithoutKey (txt "FEWER_PORTS")) (txt "10.0.0.1") [1] = None.
Proof. split; [intros a; eexists; vm_compute; reflexivity|done]. Qed.

(** The name that a file is given may be that of a folder of the same transfer:
    moving ends with an exception, and the file that is left is in the hidden
    folder. *)
Definition ex_clash : Fs :=
  <[[txt "d"] := Dir]> (<[[txt "d"; txt "x"] := File [9]]> (<[[txt "d"; txt ".s"] := Dir]> (<[[txt "d"; txt ".s"; txt "x"] := File [1]]>
    (<[[txt "d"; txt ".s"; txt "x (1)"] := Dir]> (<[[txt "d"; txt ".s"; txt "x (1)"; txt "y"] := File [2]]> ∅))))).
Example numbered_name_blocks_folder :
  match moveReceived [txt "d"; txt ".s"] [txt "d"] [[txt "x"]; [txt "x (1)"; txt "y"]] ex_clash with
  | Some (inl e, fs) =>
      fs !! [txt "d"; txt "x (1)"] = Some (File [1]) /\ fs !! [txt "d"; txt ".s"; txt "x (1)"; txt "y"] = Some (File [2])
  | _ => False
  end.
Proof. vm_compute. auto. Qed.

(** A file that is called like the log is not saved. *)
Example log_file_not_saved :
  match moveReceived [txt "d"; txt ".s"] [txt "d"] [[txt "a"; txt ".wdt.log"]]
      (<[[txt "d"; txt ".s"; txt "a"; txt ".wdt.log"] := File [1]]> ex_clash) with
  | Some (inr [], fs) => fs !! [txt "d"; txt "a"; txt ".wdt.log"] = None /\ fs !! [txt "d"; txt ".s"; txt "a"; txt ".wdt.log"] = None
  | _ => False
  end.
Proof. vm_compute. auto. Qed.

(** ** Witnesses *)

Definition ex_key : list Z := txt "0123456789abcdef0123456789ABCDEF".
Definition ex_events : list HubEvent := [
  Message 0 (txt "10.0.0.7") (txt "AWDT/1 HERE 22355 1 other pc" ++ [10]);
  Message kSecond (txt "10.0.0.2") (txt "AWDT/1 ANNOUNCE 4000 " ++ ex_key ++ txt " my " ++ [34] ++ txt "phone" ++ [34]);
  Request (2 * kSecond) [txt "GET /devices.json HTTP/1.1" ++ crlf ++ crlf];
  Message (3 * kSecond) (txt "10.0.0.2") (txt "AWDT/1 HERE 22355 0 my phone")].
Lemma ex_events_bytes : Forall event_bytes ex_events.
Proof. repeat constructor; apply (bool_decide_unpack _); by vm_compute. Qed.
Lemma hub_well_formed_witness : Forall event_bytes ex_events /\ wf_hub (hubRun ex_config [] [] ex_events).
Proof. split; [exact ex_events_bytes|]. apply (hub_well_formed ex_config [] [] ex_events ex_events_bytes). Defined.
Lemma hub_page_witness :
  Forall event_bytes ex_events
  /\ (let h := hubRun ex_config [] [] ex_events in
      exists page, json (config_name ex_config) (4 * kSecond) h = (page, live (4 * kSecond) h)
        /\ read_json page = Some (hubValue (config_name ex_config) (live (4 * kSecond) h))
        /\ NoDup (dev_address ∘ snd <$> live (4 * kSecond) h)
        /\ forall k d, (k, d) ∈ live (4 * kSecond) h -> 0 < sharePort d -> plain_host (dev_address d) ->
             matchLink (shareLink d) = Some (dev_address d, to_string (sharePort d), shareKey d)
             /\ stoi (to_string (sharePort d)) = Some (sharePort d)
             /\ exists key, fromHex (shareKey d) = Some key /\ length key = 16%nat)
  /\ (dev_address ∘ snd <$> live (4 * kSecond) (hubRun ex_config [] [] ex_events)) = [txt "10.0.0.7"; txt "10.0.0.2"]
  /\ (dev_address ∘ snd <$> live (30 * kSecond) (hubRun ex_config [] [] ex_events)) = [txt "10.0.0.7"].
Proof.
  pose proof ex_events_bytes as He. split; [exact He|]. split; [apply (hub_page ex_config [] [] ex_events (4 * kSecond) He); apply txt_bytes|]. split; by vm_compute.
Defined.


Lemma message_delivered_witness :
  Forall plain_word [txt "PUSH"; txt "k"; txt "2"]
  /\ (exists r a', send (H1 := toy_os OK) (txt "PUSH k 2") (mkAwdt [] ∅ (mkToyNet [] [])) = Some (r, a') /\ files a' = ∅
        /\ (r = throw "connection lost" \/ r = inr tt /\ net_out (env a') = [] ++ txt "AWDT/1 PUSH k 2" ++ [10]))
  /\ exists b', receive (H1 := toy_os OK) (txt "PUSH") (mkAwdt (txt "AWDT/1 PU") ∅ (mkToyNet (txt "SH k 2" ++ [10] ++ txt "more") [])) = Some (inr [txt "k"; txt "2"], b')
        /\ files b' = ∅ /\ stream net_in b' = txt "more".
Proof.
  assert (Forall plain_word [txt "PUSH"; txt "k"; txt "2"]) as Hw by (by repeat (constructor; [split; [done|by repeat constructor]|]); constructor).
  split; [exact Hw|].
  destruct (message_delivered (H := toy_os OK) net_in net_out) with (verb := txt "PUSH") (args := [txt "k"; txt "2"])
    (a := mkAwdt [] (∅ : Fs) (mkToyNet [] [])) as (Hs & Hr & _).
  - intros line w Hne. right. split; [lia|done].
  - intros w. cbn. unfold toy_recv. destruct (net_in w); [by left|by right].
  - exact Hw.
  - done.
  - intros w Hne. cbn. unfold toy_recv. destruct (net_in w); [done|cbn; lia].
  - by vm_compute.
  - split; [exact Hs|]. apply Hr. by vm_compute.
Defined.

Definition ex_ready (key : list Z) : WdtTransferRequest :=
  startRequest 16 ex_folder key <| transferId := txt "a b" |>.
Lemma ex_ready_wf key : Forall is_byte key -> key <> [] -> wf_request (ex_ready key).
Proof.
  intros Hk Hne. split_and!; try done.
  - split_and!; [done|apply (bool_decide_unpack _); by vm_compute|]. simpl. split; [|done]. apply (bool_decide_unpack _). by vm_compute.
  - apply txt_bytes.
  - by repeat constructor.
Qed.
Lemma push_request_witness :
  exists key, pushKey (H0 := Toy_crypto) 7 66 [66] [7] = inr key /\ length key = 16%nat
  /\ base64Decode (H := Toy_crypto) (base64Encode [66]) = inr [66] /\ parseP256PublicKey (H := Toy_crypto) [66] = inr 66
  /\ senderKey (H := Toy_crypto) 66 7 [66] [7] = Some key
  /\ exists url url', genWdtUrlWithSecret (fun _ => "") no_hash (ex_ready key) = Some url
     /\ genWdtUrlWithSecret (fun _ => "") no_hash (ex_ready key <| encryptionData := EncryptionParams_none |>) = Some (urlWithoutKey url)
     /\ senderUrl (urlWithoutKey url) (txt "10.0.0.1") key = Some url'
     /\ WdtTransferRequest_make url' = Some (ex_ready key <| hostName := txt "10.0.0.1" |> <| directory := [] |>).
Proof.
  set (k := (fun i => wrapU 8 (foldr Z.add i (txt "awdt-push" ++ [wrapU 8 (7 * 66)] ++ [66] ++ [7]))) <$> seqZ 0 16).
  assert (pushKey (H0 := Toy_crypto) 7 66 [66] [7] = inr k) as Hk by (by vm_compute).
  exists k. split; [exact Hk|]. split; [done|].
  assert (forall n, 0 <= n -> str_int n = to_string n) as Hdec by done.
  apply (push_request Hdec (fun _ => "") no_hash 66 7 (txt "10.0.0.1") k (ex_ready k) Hk).
  - apply ex_ready_wf; [|done]. apply (bool_decide_unpack _). by vm_compute.
  - done.
  - repeat constructor.
  - done.
  - split_and!; [done|apply (bool_decide_unpack _); by vm_compute|]. simpl. split; [|done]. apply (bool_decide_unpack _). by vm_compute.
Defined.
