(* ===== verification/Counters.v ===== *)
(** Counters and histograms: [Counter], [Histogram] and the thread-local,
    double-buffered versions of them of [util/Stats.h] and [util/Stats.cpp].

    Doubles are as in [Throttler]; the sums are not bounded.  What is printed is
    left out. *)
From Stdlib Require Import QArith Qround Lqa.
From stdpp Require Import gmap.
From S2P Require Import Prelude Throttler.

Definition INT32_MAX : Z := 2 ^ 31 - 1.
Definition INT32_MIN : Z := - 2 ^ 31.

(** ** [Counter] *)

Record Counter := mkCounter {
  count_ : Z;
  realMin_ : Z;
  min_ : Z;
  max_ : Z;
  sum_ : Z;
  sumOfSquares_ : Z
}.
#[global] Instance Counter_settable : Settable Counter := fun c =>
  mkCounter (count_ c) (realMin_ c) (min_ c) (max_ c) (sum_ c) (sumOfSquares_ c).
Definition Counter_new : Counter := mkCounter 0 0 0 0 0 0.

Definition Counter_record (v : Z) (c : Counter) : Counter :=
  let newCount := count_ c + 1 in
  let c := c <| count_ := newCount |> <| sum_ := sum_ c + v |> in
  let c := if newCount =? 1 then c <| realMin_ := v |> <| min_ := v |> <| max_ := v |> else c in
  let c := if negb (v =? 0) && ((min_ c =? 0) || (v <? min_ c)) then c <| min_ := v |> else c in
  let c := if v <? realMin_ c then c <| realMin_ := v |> else c in
  let c := if max_ c <? v then c <| max_ := v |> else c in
  let v2 := if (INT32_MAX <? v) || (v <? INT32_MIN) then 0 else v * v in
  c <| sumOfSquares_ := sumOfSquares_ c + v2 |>.
(** [a.merge(c)] *)
Definition Counter_merge (c a : Counter) : Counter :=
  let a := a <| count_ := count_ a + count_ c |> in
  let a := if negb (min_ c =? 0) && (min_ c <? min_ a) then a <| min_ := min_ c |> else a in
  let a := if max_ a <? max_ c then a <| max_ := max_ c |> else a in
  a <| sum_ := sum_ a + sum_ c |> <| sumOfSquares_ := sumOfSquares_ a + sumOfSquares_ c |>.
(** [realMin_] is left. *)
Definition Counter_reset (c : Counter) : Counter :=
  c <| count_ := 0 |> <| min_ := 0 |> <| max_ := 0 |> <| sum_ := 0 |> <| sumOfSquares_ := 0 |>.
(** [None] is [NAN]. *)
Definition getAverage (rnd : Q -> Q) (c : Counter) : option Q :=
  if count_ c =? 0 then None else Some (ddiv rnd (of_int rnd (sum_ c)) (of_int rnd (count_ c))).
(** The variance, of which [getStdDev] is the square root. *)
Definition getVariance (rnd : Q -> Q) (c : Counter) : Q :=
  if count_ c <? 1 then 0
  else if (INT32_MAX <? sum_ c) || (sum_ c <? INT32_MIN) || (sumOfSquares_ c - Z.quot (sum_ c * sum_ c) (count_ c) <? 0) then 0
  else ddiv rnd (dsub rnd (of_int rnd (sumOfSquares_ c)) (of_int rnd (Z.quot (sum_ c * sum_ c) (count_ c)))) (of_int rnd (count_ c)).

(** ** [Histogram] *)

Definition kHistogramBuckets : list Z := [
  1; 2; 3; 4; 5; 6; 7; 8; 9; 10; 11; 12; 14; 16; 18; 20; 25; 30; 35; 40; 45; 50; 60; 70; 80; 90; 100;
  120; 140; 160; 180; 200; 250; 300; 350; 400; 450; 500; 600; 700; 800; 900; 1000;
  2000; 3000; 4000; 5000; 7500; 10000; 20000; 30000; 40000; 50000; 75000; 100000].
Definition kLastIndex : Z := Zlen kHistogramBuckets.
Definition kFirstValue : Z := nth 0 kHistogramBuckets 0.
Definition kLastValue : Z := nth (Z.to_nat (kLastIndex - 1)) kHistogramBuckets 0.

(** The table from values to slots: [n] entries from [i] on, and the slot that is
    reached; [None] is a read behind the buckets. *)
Fixpoint lookup_loop (n : nat) (i idx : Z) : option (list Z * Z) :=
  match n with
  | O => Some ([], idx)
  | S n =>
      let* b := kHistogramBuckets !! Z.to_nat idx in
      let idx := if b <=? i then idx + 1 else idx in
      let* (l, last) := lookup_loop n (i + 1) idx in
      Some (idx :: l, last)
  end.
Definition checked (r : option (list Z * Z)) : option (list Z) :=
  let* (res, idx) := r in
  check idx =? kLastIndex - 1 ;;
  Some res.
Definition initHistLookup : option (list Z) := checked (lookup_loop (Z.to_nat kLastValue) 0 0).

Record Histogram := mkHistogram {
  hcounter : Counter;
  hdata_ : list Z;
  divider_ : Z;
  offset_ : Z
}.
#[global] Instance Histogram_settable : Settable Histogram := fun h => mkHistogram (hcounter h) (hdata_ h) (divider_ h) (offset_ h).
Definition Histogram_new (scale offset : Z) : Histogram :=
  mkHistogram Counter_new (replicate (Z.to_nat (kLastIndex + 1)) 0) scale offset.

Section histogram.
Context (kVal2Bucket : list Z).

(** The value in units of the divider; the 32-bit division is taken when it is
    enough. *)
Definition scaled (value : Z) (h : Histogram) : Z :=
  let scaledVal := value - offset_ h in
  if Z.shiftr scaledVal 31 =? 0 then Z.quot (wrapS 32 scaledVal) (divider_ h) else Z.quot scaledVal (divider_ h).
Definition slot (scaledVal : Z) : option Z :=
  if kLastValue <=? scaledVal then Some kLastIndex
  else if kFirstValue <=? scaledVal then kVal2Bucket !! Z.to_nat scaledVal
  else Some 0.
(** [None]: a division by 0, or an index out of range. *)
Definition Histogram_record (value : Z) (h : Histogram) : option Histogram :=
  check negb (divider_ h =? 0) ;;
  let* idx := slot (scaled value h) in
  let* n := hdata_ h !! Z.to_nat idx in
  Some (h <| hcounter := Counter_record value (hcounter h) |> <| hdata_ := <[Z.to_nat idx := n + 1]> (hdata_ h) |>).
Definition Histogram_merge (h a : Histogram) : Histogram :=
  a <| hcounter := Counter_merge (hcounter h) (hcounter a) |> <| hdata_ := zip_with Z.add (hdata_ a) (hdata_ h) |>.
Definition Histogram_reset (h : Histogram) : Histogram :=
  h <| hcounter := Counter_reset (hcounter h) |> <| hdata_ := replicate (length (hdata_ h)) 0 |>.
End histogram.

(** ** Percentiles *)

Section percentile.
Context (rnd : Q -> Q).

(** The loop over the buckets with their counts: whether the target was found,
    [cur], [perc], and [prev] and [prevPerc]. *)
Fixpoint perc_loop (h : Histogram) (percentile : Q) (bs : list (Z * Z)) (total cur : Z) (perc : Q) (prev : Z) (prevPerc : Q)
    : bool * Z * Q * Z * Q :=
  match bs with
  | [] => (false, cur, perc, prev, prevPerc)
  | (b, n) :: bs =>
      let cur := b * divider_ h + offset_ h in
      let total := total + n in
      let perc := ddiv rnd (dmul rnd 100 (of_int rnd total)) (of_int rnd (count_ (hcounter h))) in
      if max_ (hcounter h) <? cur then (false, cur, perc, prev, prevPerc)
      else if Qle_bool percentile perc then (true, cur, perc, prev, prevPerc)
      else perc_loop h percentile bs total cur perc cur perc
  end.
Definition calcPercentile (percentile : Q) (h : Histogram) : Q :=
  let c := hcounter h in
  if Qle_bool 100 percentile then of_int rnd (max_ c)
  else if Qle_bool percentile 0 then of_int rnd (realMin_ c)
  else
    let '(found, cur, perc, prev, prevPerc) :=
      perc_loop h percentile (zip kHistogramBuckets (hdata_ h)) 0 (offset_ h) 0 0 0 in
    let '(cur, perc) := if found then (cur, perc) else (max_ c, 100%Q) in
    let prev := if prev <? realMin_ c then realMin_ c else prev in
    dadd rnd (of_int rnd prev) (ddiv rnd (dmul rnd (dsub rnd percentile prevPerc) (of_int rnd (cur - prev))) (dsub rnd perc prevPerc)).
End percentile.

(** ** Thread-local counters

    What [ThreadLocalSwapableNode] needs of a counter. *)
Class CounterLike (C : Type) := {
  c_new : C;
  c_record : Z -> C -> C;
  c_merge : C -> C -> C;
  c_reset : C -> C
}.

(** [held] are the [Hold2]s of the threads, two counters each; [pending] is the
    index that a thread in [record] has read; [current] is the thread whose
    counter the reader has merged and not reset yet; [result] is what has been
    handed out. *)
Record Node (C : Type) := mkNode {
  ptr_ : bool;
  held : gmap nat (C * C);
  pending : gmap nat bool;
  aggregated_ : C;
  current : option nat;
  result : C
}.
Arguments mkNode {C}. Arguments ptr_ {C}. Arguments held {C}. Arguments pending {C}. Arguments aggregated_ {C}.
Arguments current {C}. Arguments result {C}.
#[global] Instance Node_settable {C} : Settable (Node C) := fun n =>
  mkNode (ptr_ n) (held n) (pending n) (aggregated_ n) (current n) (result n).

Section node.
Context {C : Type} `{CounterLike C}.

Definition Node_new : Node C := mkNode false ∅ ∅ c_new None c_new.
Definition hold_get (idx : bool) (p : C * C) : C := if idx then p.2 else p.1.
Definition hold_set (idx : bool) (f : C -> C) (p : C * C) : C * C := if idx then (p.1, f p.2) else (f p.1, p.2).

(** A thread gets its active counter, and later records in it; the thread ends;
    the reader swaps, merges and resets the counters one by one, and hands the
    sum out. *)
Inductive NodeEvent :=
  | GetActiveCounter (t : nat)
  | Record (t : nat) (v : Z)
  | ThreadExit (t : nat)
  | Swap
  | MergeOne (t : nat)
  | ResetOne
  | Collect.
Definition node_step (e : NodeEvent) (n : Node C) : option (Node C) :=
  match e with
  | GetActiveCounter t =>
      check bool_decide (pending n !! t = None) ;;
      Some (n <| held := match held n !! t with Some _ => held n | None => <[t := (c_new, c_new)]> (held n) end |>
              <| pending := <[t := ptr_ n]> (pending n) |>)
  | Record t v =>
      let* idx := pending n !! t in
      let* p := held n !! t in
      Some (n <| held := <[t := hold_set idx (c_record v) p]> (held n) |> <| pending := delete t (pending n) |>)
  | ThreadExit t =>
      check bool_decide (pending n !! t = None) && bool_decide (current n = None) ;;
      let* p := held n !! t in
      Some (n <| held := delete t (held n) |> <| aggregated_ := c_merge p.2 (c_merge p.1 (aggregated_ n)) |>)
  | Swap => check bool_decide (current n = None) ;; Some (n <| ptr_ := negb (ptr_ n) |>)
  | MergeOne t =>
      check bool_decide (current n = None) ;;
      let* p := held n !! t in
      Some (n <| aggregated_ := c_merge (hold_get (negb (ptr_ n)) p) (aggregated_ n) |> <| current := Some t |>)
  | ResetOne =>
      let* t := current n in
      let* p := held n !! t in
      Some (n <| held := <[t := hold_set (negb (ptr_ n)) c_reset p]> (held n) |> <| current := None |>)
  | Collect =>
      check bool_decide (current n = None) ;;
      Some (n <| result := c_merge (aggregated_ n) (result n) |> <| aggregated_ := c_reset (aggregated_ n) |>)
  end.
Fixpoint node_run (es : list NodeEvent) (n : Node C) : option (Node C) :=
  match es with [] => Some n | e :: es => let* n := node_step e n in node_run es n end.
End node.
#[global] Instance Counter_like : CounterLike Counter := {|
  c_new := Counter_new; c_record := Counter_record; c_merge := Counter_merge; c_reset := Counter_reset |}.
