(* ===== verification/CountersProps.v ===== *)
(** Properties of the counters: a histogram counts each value in the slot of its
    interval, merging adds up, percentiles lie between the extremes, and the
    double-buffered counters count every value once if no thread is in [record]
    with the old counter when it is read. *)
From Stdlib Require Import QArith Qround Lqa Psatz.
From stdpp Require Import gmap.
From S2P Require Import Prelude Throttler Counters.

(** ** The table of slots *)

(** How many buckets begin at or below a value. *)
Definition below (v : Z) : Z := Zlen (base.filter (fun b => b <= v) kHistogramBuckets).

Lemma buckets_sorted : StronglySorted Z.lt kHistogramBuckets.
Proof. unfold kHistogramBuckets. repeat constructor. Qed.
Lemma filter_keeps_le v (l : list Z) : Forall (fun x => x <= v) l -> base.filter (fun x => x <= v) l = l.
Proof. induction 1 as [|y l Hy Hl IH]; [done|]. by rewrite filter_cons_True, IH. Qed.
Lemma filter_above v (l : list Z) : Forall (fun x => v < x) l -> base.filter (fun x => x <= v) l = [].
Proof. induction 1 as [|y l Hy Hl IH]; [done|]. by rewrite filter_cons_False by lia. Qed.
Lemma below_split v : exists a b, kHistogramBuckets = a ++ b /\ base.filter (fun x => x <= v) kHistogramBuckets = a
  /\ Forall (fun x => x <= v) a /\ Forall (fun x => v < x) b /\ StronglySorted Z.lt b.
Proof.
  pose proof buckets_sorted as Hs. induction Hs as [|x l Hs IH Hx]; [exists [], []; split_and!; constructor|].
  destruct (decide (x <= v)) as [Hle|Hgt].
  - destruct IH as (a & b & -> & Ha & Hfa & Hfb & Hb). exists (x :: a), b. rewrite filter_cons_True, Ha by done. split_and!; try done. by constructor.
  - assert (Forall (fun y => v < y) (x :: l)) as Hl by (constructor; [lia|]; eapply Forall_impl; [exact Hx|]; simpl; lia).
    exists [], (x :: l). split_and!; [done|by apply filter_above|constructor|done|by constructor].
Qed.
Lemma below_step i b : kHistogramBuckets !! Z.to_nat (below (i - 1)) = Some b ->
  below i = (if b <=? i then below (i - 1) + 1 else below (i - 1)).
Proof.
  unfold below. destruct (below_split (i - 1)) as (a & c & E & -> & Ha & Hc & Hs). rewrite Nat2Z.id, E, lookup_app_r, Nat.sub_diag by done.
  destruct c as [|x c]; [done|]. intros [= ->]. apply Forall_cons in Hc as [Hb Hc]. inversion Hs as [|? ? Hs' Hx]; subst.
  rewrite filter_app, (filter_keeps_le i a) by (eapply Forall_impl; [exact Ha|]; simpl; lia).
  destruct (Z.leb_spec b i).
  - rewrite filter_cons_True, filter_above by (done || (eapply Forall_impl; [exact Hx|]; simpl; lia)). rewrite Zlen_app, Zlen_cons, Zlen_nil. lia.
  - rewrite filter_above, app_nil_r by (constructor; [done|]; eapply Forall_impl; [exact Hx|]; simpl; lia). done.
Qed.
Lemma below_range v : 0 <= below v <= kLastIndex /\ (v < kLastValue -> below v < kLastIndex).
Proof.
  unfold below, kLastIndex. destruct (below_split v) as (a & b & E & -> & Ha & _). split; [rewrite E, Zlen_app; lia|]. intros Hv.
  destruct b as [|x b]; [|rewrite E, Zlen_app, Zlen_cons; lia]. exfalso. rewrite app_nil_r in E.
  rewrite Forall_forall in Ha. specialize (Ha kLastValue). enough (kLastValue <= v) by lia. apply Ha. rewrite <- E.
  apply (list_elem_of_lookup_2 _ 54). done.
Qed.
Lemma lookup_loop_spec n i : 0 <= i -> i + Z.of_nat n <= kLastValue ->
  lookup_loop n i (below (i - 1)) = Some (below <$> seqZ i (Z.of_nat n), below (i + Z.of_nat n - 1)).
Proof.
  revert i. induction n as [|n IH]; intros i Hi Hn; [simpl; do 3 f_equal; lia|]. cbn [lookup_loop].
  destruct (below_range (i - 1)) as [Hr Hlt]. specialize (Hlt ltac:(lia)). unfold kLastIndex in Hlt.
  destruct (lookup_lt_is_Some_2 kHistogramBuckets (Z.to_nat (below (i - 1)))) as [b Hb]; [lia|]. rewrite Hb. cbn [mbind option_bind].
  rewrite <- (below_step i b Hb). replace (below i) with (below (i + 1 - 1)) at 1 by (f_equal; lia). rewrite IH by lia. cbn [mbind option_bind].
  rewrite (seqZ_cons i) by lia. rewrite fmap_cons. replace (Z.pred (Z.of_nat (S n))) with (Z.of_nat n) by lia.
  replace (Z.succ i) with (i + 1) by lia. do 2 f_equal. f_equal. lia.
Qed.
Lemma initHistLookup_spec : initHistLookup = Some (below <$> seqZ 0 kLastValue).
Proof.
  unfold initHistLookup. change 0 with (below (0 - 1)) at 2.
  rewrite lookup_loop_spec by (rewrite ?Z2Nat.id by done; lia). rewrite Z2Nat.id by done. done.
Qed.
#[global] Opaque initHistLookup.

(** ** Recording *)

(** The reference: the slot of a value is the number of intervals, scaled and
    moved, that begin at or below it. *)
Definition slotOf (div off v : Z) : Z := Zlen (base.filter (fun b => b * div + off <= v) kHistogramBuckets).
Definition counted (div off : Z) (vs : list Z) : list Z :=
  (fun i => Zlen (base.filter (fun v => slotOf div off v = i) vs)) <$> seqZ 0 (kLastIndex + 1).

Lemma scaled_quot v h : scaled v h = Z.quot (v - offset_ h) (divider_ h).
Proof.
  unfold scaled. destruct (Z.eqb_spec (Z.shiftr (v - offset_ h) 31) 0) as [E|]; [|done].
  rewrite Z.shiftr_div_pow2 in E by lia. rewrite wrapS_small; [done|lia|]. unfold inS.
  pose proof (Z.mod_pos_bound (v - offset_ h) (2 ^ 31) ltac:(lia)). pose proof (Z.div_mod (v - offset_ h) (2 ^ 31) ltac:(lia)). lia.
Qed.
Lemma quot_ge b x d : 0 < d -> 1 <= b -> b <= Z.quot x d <-> b * d <= x.
Proof.
  intros Hd Hb. destruct (decide (0 <= x)) as [Hx|Hx].
  - rewrite Z.quot_div_nonneg by lia. split; [intros Hq; pose proof (Z.mul_div_le x d ltac:(lia)); nia|intros Hq; by apply Z.div_le_lower_bound; lia].
  - split; [|nia]. intros Hq. exfalso. pose proof (Z.quot_opp_l x d ltac:(lia)) as Ho. pose proof (Z.quot_pos (-x) d ltac:(lia) Hd). lia.
Qed.
Lemma filter_iff_in {A} (P Q : A -> Prop) `{!forall x, Decision (P x), !forall x, Decision (Q x)} l :
  Forall (fun x => P x <-> Q x) l -> base.filter P l = base.filter Q l.
Proof. induction 1 as [|x l Hx Hl IH]; [done|]. rewrite !filter_cons, IH. destruct (decide (P x)), (decide (Q x)); naive_solver. Qed.
Lemma below_slotOf div off v : 0 < div -> below (Z.quot (v - off) div) = slotOf div off v.
Proof.
  intros Hd. unfold below, slotOf. do 2 f_equal. apply filter_iff_in. apply Forall_forall. intros b Hb.
  assert (1 <= b) as H1. { assert (Forall (Z.le 1) kHistogramBuckets) as Hf by (by repeat constructor). rewrite Forall_forall in Hf. by apply Hf. }
  rewrite quot_ge by done. lia.
Qed.
Lemma table_lookup m s : 0 <= s < m -> (below <$> seqZ 0 m) !! Z.to_nat s = Some (below s).
Proof. intros Hs. rewrite list_lookup_fmap, lookup_seqZ_lt by lia. simpl. do 2 f_equal. lia. Qed.
Lemma slot_spec table s : initHistLookup = Some table -> slot table s = Some (below s).
Proof.
  intros Ht. rewrite initHistLookup_spec in Ht. apply (inj Some) in Ht. rewrite <- Ht. unfold slot.
  destruct (Z.leb_spec kLastValue s) as [Hge|Hlt].
  - f_equal. unfold below. rewrite filter_keeps_le; [done|]. assert (Forall (fun b => b <= kLastValue) kHistogramBuckets) as Hf by (by repeat constructor).
    eapply Forall_impl; [exact Hf|]. simpl. lia.
  - destruct (Z.leb_spec kFirstValue s) as [Hs|Hs].
    + apply table_lookup. change kFirstValue with 1 in Hs. lia.
    + f_equal. unfold below. rewrite filter_above; [done|]. assert (Forall (Z.le 1) kHistogramBuckets) as Hf by (by repeat constructor).
      eapply Forall_impl; [exact Hf|]. simpl. change kFirstValue with 1 in Hs. lia.
Qed.

Definition extremes (vs : list Z) (c : Counter) : Prop :=
  vs <> [] -> (realMin_ c ∈ vs /\ Forall (Z.le (realMin_ c)) vs) /\ (max_ c ∈ vs /\ Forall (fun v => v <= max_ c) vs).
(** What the fields of a counter say of the values it has seen. *)
Definition counter_of (vs : list Z) (c : Counter) : Prop :=
  count_ c = Zlen vs /\ sum_ c = foldr Z.add 0 vs /\ extremes vs c.
Lemma foldr_add_snoc (vs : list Z) v : foldr Z.add 0 (vs ++ [v]) = foldr Z.add 0 vs + v.
Proof. induction vs as [|x vs IH]; simpl; [lia|]. rewrite IH. lia. Qed.
Lemma record_counter vs v c : counter_of vs c -> counter_of (vs ++ [v]) (Counter_record v c).
Proof.
  intros (Hc & Hs & He). unfold counter_of, extremes. set (c1 := c <| count_ := count_ c + 1 |> <| sum_ := sum_ c + v |>).
  set (c2 := if count_ c + 1 =? 1 then c1 <| realMin_ := v |> <| min_ := v |> <| max_ := v |> else c1).
  assert (count_ (Counter_record v c) = count_ c + 1 /\ sum_ (Counter_record v c) = sum_ c + v
    /\ realMin_ (Counter_record v c) = Z.min v (realMin_ c2) /\ max_ (Counter_record v c) = Z.max v (max_ c2)) as (-> & -> & Hmin & Hmax).
  { unfold Counter_record. fold c1. fold c2. assert (count_ c2 = count_ c + 1 /\ sum_ c2 = sum_ c + v) as [<- <-] by (unfold c2; by case_match).
    clearbody c2. destruct (negb (v =? 0) && _); simpl;
    destruct (Z.ltb_spec v (realMin_ c2)); simpl; (destruct (Z.ltb_spec (max_ c2) v); simpl; split_and!; lia). }
  split_and!; [rewrite Zlen_app, Zlen_cons, Zlen_nil; lia|rewrite foldr_add_snoc; lia|]. intros _. rewrite Hmin, Hmax. unfold c2. destruct vs as [|x vs].
  - rewrite Hc. simpl. rewrite Z.min_id, Z.max_id. split; (split; [by left|by repeat constructor]).
  - rewrite (proj2 (Z.eqb_neq (count_ c + 1) 1)) by (rewrite Hc, Zlen_cons; lia). simpl realMin_. simpl max_. destruct (He ltac:(done)) as [[M1 M2] [X1 X2]].
    rewrite !Forall_app. split; (split; [|split; [|constructor; [lia|done]]]).
    + destruct (Z.min_spec v (realMin_ c)) as [[_ ->]|[_ ->]]; [|by apply elem_of_app; left]. apply elem_of_app. right. by left.
    + eapply Forall_impl; [exact M2|]. simpl. lia.
    + destruct (Z.max_spec v (max_ c)) as [[_ ->]|[_ ->]]; [by apply elem_of_app; left|]. apply elem_of_app. right. by left.
    + eapply Forall_impl; [exact X2|]. simpl. lia.
Qed.

Lemma slotOf_range div off v : 0 <= slotOf div off v <= kLastIndex.
Proof.
  unfold slotOf, kLastIndex. pose proof (length_filter (fun b => b * div + off <= v) kHistogramBuckets). lia.
Qed.
Lemma counted_lookup div off vs (i : nat) : Z.of_nat i <= kLastIndex ->
  counted div off vs !! i = Some (Zlen (base.filter (fun v => slotOf div off v = Z.of_nat i) vs)).
Proof. intros Hi. unfold counted. rewrite list_lookup_fmap, lookup_seqZ_lt by lia. simpl. by rewrite Z.add_0_l. Qed.
Lemma counted_length div off vs : length (counted div off vs) = Z.to_nat (kLastIndex + 1).
Proof. unfold counted. by rewrite length_fmap, length_seqZ. Qed.
Lemma counted_ext div off vs l :
  length l = Z.to_nat (kLastIndex + 1) ->
  (forall i : nat, Z.of_nat i <= kLastIndex -> l !! i = Some (Zlen (base.filter (fun v => slotOf div off v = Z.of_nat i) vs))) ->
  l = counted div off vs.
Proof.
  intros Hl Hi. apply list_eq. intros i. destruct (decide (Z.of_nat i <= kLastIndex)) as [Hle|Hgt]; [by rewrite Hi, counted_lookup|].
  rewrite !lookup_ge_None_2; [done|rewrite counted_length; lia|lia].
Qed.
Lemma counted_snoc div off vs v : counted div off (vs ++ [v])
  = <[Z.to_nat (slotOf div off v) := Zlen (base.filter (fun x => slotOf div off x = slotOf div off v) vs) + 1]> (counted div off vs).
Proof.
  symmetry. apply counted_ext; [by rewrite length_insert, counted_length|]. intros i Hi. pose proof (slotOf_range div off v) as Hr.
  rewrite filter_app, Zlen_app. destruct (decide (Z.of_nat i = slotOf div off v)) as [E|E].
  - replace (Z.to_nat (slotOf div off v)) with i by lia. rewrite list_lookup_insert_eq by (rewrite counted_length; lia).
    rewrite filter_cons_True by done. rewrite filter_nil, E, Zlen_cons, Zlen_nil. f_equal; lia.
  - rewrite list_lookup_insert_ne, counted_lookup by lia. rewrite filter_cons_False by done. rewrite filter_nil, Zlen_nil. f_equal; lia.
Qed.

(** The histogram of the values. *)
Definition histogram_of (div off : Z) (vs : list Z) (h : Histogram) : Prop :=
  counter_of vs (hcounter h) /\ hdata_ h = counted div off vs /\ divider_ h = div /\ offset_ h = off.
Fixpoint record_all (table vs : list Z) (h : Histogram) : option Histogram :=
  match vs with [] => Some h | v :: vs => let* h := Histogram_record table v h in record_all table vs h end.

Lemma record_histogram table div off vs v h :
  initHistLookup = Some table -> 0 < div -> histogram_of div off vs h ->
  exists h', Histogram_record table v h = Some h' /\ histogram_of div off (vs ++ [v]) h'.
Proof.
  intros Ht Hd (Hc & Hh & Ediv & Eoff). unfold Histogram_record. rewrite (proj2 (Z.eqb_neq (divider_ h) 0)) by lia. cbn [negb].
  rewrite (slot_spec table _ Ht), scaled_quot, Ediv, Eoff, below_slotOf by done. cbn [mbind option_bind]. pose proof (slotOf_range div off v).
  rewrite Hh, counted_lookup by lia. cbn [mbind option_bind]. eexists. split; [done|]. split_and!; simpl; [by apply record_counter| |done..].
  rewrite counted_snoc. by rewrite Z2Nat.id by lia.
Qed.
Lemma record_all_spec table div off vs seen h :
  initHistLookup = Some table -> 0 < div -> histogram_of div off seen h ->
  exists h', record_all table vs h = Some h' /\ histogram_of div off (seen ++ vs) h'.
Proof.
  intros Ht Hd. revert seen h. induction vs as [|v vs IH]; intros seen h Hh; [exists h; rewrite app_nil_r; split; [reflexivity|exact Hh]|]. cbn [record_all].
  destruct (record_histogram table div off seen v h Ht Hd Hh) as (h1 & -> & Hh1). cbn [mbind option_bind].
  destruct (IH _ _ Hh1) as (h' & -> & Hh'). exists h'. split; [reflexivity|]. rewrite <- app_assoc in Hh'. exact Hh'.
Qed.
Lemma counted_nil div off : counted div off [] = replicate (Z.to_nat (kLastIndex + 1)) 0.
Proof. done. Qed.
Lemma new_histogram div off : histogram_of div off [] (Histogram_new div off).
Proof. split_and!; done. Qed.


(** ** Merging *)

Lemma foldr_add_app (a b : list Z) : foldr Z.add 0 (a ++ b) = foldr Z.add 0 a + foldr Z.add 0 b.
Proof. induction a as [|x a IH]; simpl; [done|]. rewrite IH. lia. Qed.
Lemma counted_app div off a b : counted div off (a ++ b) = zip_with Z.add (counted div off a) (counted div off b).
Proof.
  symmetry. apply counted_ext; [rewrite length_zip_with, !counted_length; lia|]. intros i Hi.
  rewrite lookup_zip_with, !counted_lookup by done. cbn [mbind option_bind]. by rewrite filter_app, Zlen_app.
Qed.
(** Merging two histograms of the same scale and offset gives the number, the
    sum and the slots of all their values, and the greatest one if both have
    values; of the minima nothing is claimed. *)
Theorem merge_adds_up div off a b h1 h2 :
  histogram_of div off a h1 -> histogram_of div off b h2 ->
  let m := Histogram_merge h2 h1 in
  count_ (hcounter m) = Zlen (a ++ b) /\ sum_ (hcounter m) = foldr Z.add 0 (a ++ b) /\ hdata_ m = counted div off (a ++ b)
  /\ sumOfSquares_ (hcounter m) = sumOfSquares_ (hcounter h1) + sumOfSquares_ (hcounter h2)
  /\ (a <> [] -> b <> [] -> max_ (hcounter m) ∈ a ++ b /\ Forall (fun v => v <= max_ (hcounter m)) (a ++ b)).
Proof.
  intros ((C1 & S1 & E1) & D1 & _) ((C2 & S2 & E2) & D2 & _) m. 
  assert (hcounter m = Counter_merge (hcounter h2) (hcounter h1) /\ hdata_ m = zip_with Z.add (hdata_ h1) (hdata_ h2)) as [-> ->] by done.
  rewrite counted_app, D1, D2.
  assert (forall c x : Counter, count_ (Counter_merge c x) = count_ x + count_ c /\ sum_ (Counter_merge c x) = sum_ x + sum_ c
    /\ sumOfSquares_ (Counter_merge c x) = sumOfSquares_ x + sumOfSquares_ c /\ max_ (Counter_merge c x) = Z.max (max_ x) (max_ c)) as Hm.
  { intros c x. unfold Counter_merge. destruct (negb (min_ c =? 0) && _); simpl; destruct (Z.ltb_spec (max_ x) (max_ c)); simpl; split_and!; lia. }
  destruct (Hm (hcounter h2) (hcounter h1)) as (-> & -> & -> & ->). split_and!; [rewrite Zlen_app; lia|rewrite foldr_add_app; lia|done|done|].
  intros Ha Hb. destruct (E1 Ha) as [_ [M1 B1]], (E2 Hb) as [_ [M2 B2]]. rewrite elem_of_app, Forall_app. split_and!.
  - destruct (Z.max_spec (max_ (hcounter h1)) (max_ (hcounter h2))) as [[_ ->]|[_ ->]]; auto.
  - eapply Forall_impl; [exact B1|]. simpl. lia.
  - eapply Forall_impl; [exact B2|]. simpl. lia.
Qed.

(** ** Percentiles *)

Lemma below_ge k b s : kHistogramBuckets !! k = Some b -> b <= s -> Z.of_nat k < below s.
Proof.
  intros Hk Hb. unfold below. destruct (below_split s) as (a & c & E & -> & _ & Hc & _).
  destruct (decide (k < length a)%nat) as [|Hge]; [lia|]. rewrite E, lookup_app_r in Hk by lia.
  rewrite Forall_lookup in Hc. specialize (Hc _ _ Hk). simpl in Hc. lia.
Qed.
Lemma slotOf_below div off k b v : 0 < div -> kHistogramBuckets !! k = Some b -> slotOf div off v <= Z.of_nat k -> v < b * div + off.
Proof.
  intros Hd Hk Hs. destruct (decide (v < b * div + off)) as [|Hge]; [done|]. exfalso. rewrite <- below_slotOf in Hs by done.
  assert (1 <= b) as H1.
  { assert (Forall (Z.le 1) kHistogramBuckets) as Hf by (by repeat constructor). rewrite Forall_lookup in Hf. exact (Hf _ _ Hk). }
  pose proof (below_ge k b (Z.quot (v - off) div) Hk (proj2 (quot_ge b (v - off) div Hd H1) ltac:(lia))). lia.
Qed.

Section percentile_bounds.
Context (div off : Z) (vs : list Z) (h : Histogram) (p : Q).
Context (Hdiv : 0 < div) (Hh : histogram_of div off vs h) (Hne : vs <> []) (Hmax : 0 <= max_ (hcounter h)) (Hp : (0 < p < 100)%Q).

Lemma vs_bounds v : v ∈ vs -> realMin_ (hcounter h) <= v <= max_ (hcounter h).
Proof.
  destruct Hh as ((_ & _ & He) & _). destruct (He Hne) as [[_ Hmin] [_ Hx]]. rewrite Forall_forall in Hmin, Hx. intros Hv. split; auto.
Qed.
Lemma counted_slot k b n : zip kHistogramBuckets (hdata_ h) !! k = Some (b, n) ->
  kHistogramBuckets !! k = Some b /\ n = Zlen (base.filter (fun v => slotOf div off v = Z.of_nat k) vs).
Proof.
  destruct Hh as (_ & -> & _). intros Hk. rewrite lookup_zip_with_Some in Hk. destruct Hk as (x & y & [= -> ->] & Hb & Hn). split; [done|].
  apply lookup_lt_Some in Hb as Hl. rewrite counted_lookup in Hn by (unfold kLastIndex; lia). congruence.
Qed.
(** What holds before each round, and what holds behind the loop. *)
Lemma perc_loop_spec k bs total cur perc prev prevPerc :
  bs = drop k (zip kHistogramBuckets (hdata_ h)) -> 0 <= total -> (0 < total -> exists v, v ∈ vs /\ slotOf div off v < Z.of_nat k) ->
  prev <= max_ (hcounter h) -> (prevPerc < p)%Q ->
  let '(found, cur, perc, prev, prevPerc) := perc_loop exact h p bs total cur perc prev prevPerc in
  prev <= max_ (hcounter h) /\ (prevPerc < p)%Q
  /\ (found = true -> realMin_ (hcounter h) <= cur <= max_ (hcounter h) /\ (p <= perc)%Q).
Proof.
  remember (zip kHistogramBuckets (hdata_ h)) as z eqn:Ez.
  revert k total cur perc prev prevPerc. induction bs as [|[b n] bs IH]; intros k total cur perc prev prevPerc Hbs Ht Hex Hprev Hpp; [done|].
  cbn [perc_loop]. assert (z !! k = Some (b, n)) as Hk.
  { rewrite <- (Nat.add_0_r k), <- lookup_drop, <- Hbs. done. }
  destruct (counted_slot k b n ltac:(by rewrite <- Ez)) as [Hb Hn]. clear Ez. subst n. pose proof Hh as (_ & _ & -> & ->). set (cur' := b * div + off). set (total' := total + _).
  set (perc' := ddiv _ _ _). destruct (Z.ltb_spec (max_ (hcounter h)) cur') as [|Hcur]; [done|].
  assert (0 <= total') as Ht' by (unfold total'; lia).
  assert (0 < total' -> exists v, v ∈ vs /\ slotOf div off v < Z.of_nat (S k)) as Hex'.
  { intros Hpos. destruct (base.filter (fun v => slotOf div off v = Z.of_nat k) vs) as [|v l] eqn:E.
    - destruct Hex as (v & Hv & Hs); [unfold total' in Hpos; simpl in Hpos; lia|]. exists v. split; [done|lia].
    - assert (v ∈ base.filter (fun v => slotOf div off v = Z.of_nat k) vs) as Hin by (rewrite E; by left).
      apply list_elem_of_filter in Hin as [Hs Hin]. exists v. split; [done|lia]. }
  destruct (Qle_bool p perc') eqn:Ep.
  - apply Qle_bool_iff in Ep. split; [done|]. split; [done|]. intros _. split; [|done]. destruct (decide (0 < total')) as [Hpos|Hz].
    + destruct (Hex' Hpos) as (v & Hv & Hs). pose proof (slotOf_below div off k b v Hdiv Hb ltac:(lia)). pose proof (vs_bounds v Hv). unfold cur'. lia.
    + exfalso. assert (total' = 0) as E by lia. assert (perc' == 0)%Q as E0; [|lra]. unfold perc', ddiv, dmul, of_int, exact. rewrite E.
      unfold Qdiv. change (inject_Z 0) with 0%Q. lra.
  - apply (IH (S k)); try done.
    + by rewrite (drop_S _ _ _ Hk) in Hbs; injection Hbs as <-.
    + destruct (Qlt_le_dec perc' p) as [|Hle]; [done|]. apply Qle_bool_iff in Hle. congruence.
Qed.
Lemma convex (a c t : Q) : (0 <= t <= 1)%Q -> forall lo hi, (lo <= a <= hi)%Q -> (lo <= c <= hi)%Q -> (lo <= a + t * (c - a) <= hi)%Q.
Proof. intros Ht lo hi Ha Hc. split; nra. Qed.
Lemma percentile_between :
  (inject_Z (realMin_ (hcounter h)) <= calcPercentile exact p h <= inject_Z (max_ (hcounter h)))%Q.
Proof using All.
  unfold calcPercentile. assert (Qle_bool 100 p = false /\ Qle_bool p 0 = false) as [-> ->].
  { split; apply not_true_is_false; rewrite Qle_bool_iff; lra. }
  pose proof (perc_loop_spec 0 _ 0 (offset_ h) 0 0 0 eq_refl ltac:(lia) ltac:(lia) Hmax ltac:(lra)) as Hl. rewrite drop_0 in Hl.
  destruct (perc_loop _ _ _ _ _ _ _ _ _) as [[[[found cur] perc] prev] prevPerc]. destruct Hl as (Hprev & Hpp & Hf).
  assert (realMin_ (hcounter h) <= max_ (hcounter h)) as Hmm.
  { pose proof Hh as ((_ & _ & He) & _). destruct (He Hne) as [[Hin _] _]. pose proof (vs_bounds _ Hin). lia. }
  set (pr := if prev <? realMin_ (hcounter h) then realMin_ (hcounter h) else prev).
  assert (realMin_ (hcounter h) <= pr <= max_ (hcounter h)) as Hpr by (unfold pr; destruct (Z.ltb_spec prev (realMin_ (hcounter h))); lia).
  set (cp := if found then _ else _). assert (realMin_ (hcounter h) <= cp.1 <= max_ (hcounter h) /\ (p <= cp.2)%Q) as [Hc Hperc].
  { unfold cp. destruct found; [by apply Hf|]. simpl. split; [lia|lra]. }
  destruct cp as [cur' perc']. simpl in Hc, Hperc. unfold dadd, ddiv, dmul, dsub, of_int, exact.
  assert (inject_Z pr + (p - prevPerc) * inject_Z (cur' - pr) / (perc' - prevPerc)
    == inject_Z pr + (p - prevPerc) / (perc' - prevPerc) * (inject_Z cur' - inject_Z pr))%Q as ->.
  { unfold Z.sub. rewrite inject_Z_plus, inject_Z_opp. field. lra. }
  apply convex; rewrite <- ?Zle_Qle; try done. split.
  - apply Qle_shift_div_l; lra.
  - apply Qle_shift_div_r; lra.
Qed.
End percentile_bounds.

(** A percentile of recorded values, of which one is not negative, lies between
    the least and the greatest of them, in exact arithmetic. *)
Theorem percentile_in_range div off vs table h p :
  initHistLookup = Some table -> record_all table vs (Histogram_new div off) = Some h ->
  0 < div -> Exists (Z.le 0) vs -> (0 < p < 100)%Q ->
  exists lo hi, lo ∈ vs /\ hi ∈ vs /\ Forall (fun v => lo <= v <= hi) vs
    /\ (inject_Z lo <= calcPercentile exact p h <= inject_Z hi)%Q.
Proof.
  intros Ht Hr Hd Hex Hp. destruct (record_all_spec table div off vs [] _ Ht Hd (new_histogram div off)) as (h' & Hr' & Hh).
  rewrite Hr in Hr'. apply (inj Some) in Hr'. subst h'. cbn [app] in Hh. apply Exists_exists in Hex as (v & Hv & Hpos).
  assert (vs <> []) as Hne by (intros ->; by apply elem_of_nil in Hv). pose proof Hh as ((_ & _ & He) & _).
  destruct (He Hne) as [[Hlo Hmin] [Hhi Hmax]]. exists (realMin_ (hcounter h)), (max_ (hcounter h)). split; [exact Hlo|]. split; [exact Hhi|]. split.
  - rewrite Forall_forall in *. intros x Hx. split; auto.
  - apply (percentile_between div off vs); [done|done|done| |done]. rewrite Forall_forall in Hmax. specialize (Hmax v Hv). simpl in Hmax. lia.
Qed.

(** ** Thread-local counters *)

(** A quantity that adds up: the number of values, their sum, a slot. *)
Class Additive {C} `{CounterLike C} (M : C -> Z) (f : Z -> Z) : Prop := {
  M_new : M c_new = 0;
  M_record v c : M (c_record v c) = M c + f v;
  M_merge c a : M (c_merge c a) = M a + M c;
  M_reset c : M (c_reset c) = 0
}.

Section accounting.
Context {C : Type} `{CounterLike C} (M : C -> Z) (f : Z -> Z) `{!Additive M f}.

Definition both (p : C * C) : Z := M p.1 + M p.2.
Definition held_sum (m : gmap nat (C * C)) : Z := map_fold (fun _ p acc => both p + acc) 0 m.
Lemma held_sum_delete m t p : m !! t = Some p -> held_sum m = both p + held_sum (delete t m).
Proof. intros Hm. unfold held_sum. rewrite (map_fold_delete_L _ _ t p) by (done || (intros; lia)). done. Qed.
Lemma held_sum_new m t p : m !! t = None -> held_sum (<[t := p]> m) = both p + held_sum m.
Proof. intros Hm. unfold held_sum. rewrite map_fold_insert_L by (done || (intros; lia)). done. Qed.
Lemma held_sum_update m t p q : m !! t = Some p -> held_sum (<[t := q]> m) = held_sum m - both p + both q.
Proof.
  intros Hm. rewrite (held_sum_delete m t p Hm). rewrite <- insert_delete_eq, held_sum_new by apply lookup_delete_eq. lia.
Qed.
Lemma both_set idx (g : C -> C) (p : C * C) : both (hold_set idx g p) = both p - M (hold_get idx p) + M (g (hold_get idx p)).
Proof. unfold both. destruct idx; simpl; lia. Qed.

(** The values that were recorded, and what of them the node has: the counter
    that is merged and not reset counts once. *)
Definition recorded_sum (es : list NodeEvent) : Z := foldr Z.add 0 ((fun e => match e with Record _ v => f v | _ => 0 end) <$> es).
Definition merging (n : Node C) : Z :=
  match current n with Some t => from_option (fun p => M (hold_get (negb (ptr_ n)) p)) 0 (held n !! t) | None => 0 end.
Definition accounted (n : Node C) : Z := M (result n) + M (aggregated_ n) + held_sum (held n) - merging n.
(** When a counter is read, its thread is not about to record in it. *)
Definition prompt_step (e : NodeEvent) (n : Node C) : Prop :=
  match e with MergeOne t => pending n !! t <> Some (negb (ptr_ n)) | _ => True end.
Fixpoint prompt (es : list NodeEvent) (n : Node C) : Prop :=
  match es with [] => True | e :: es => prompt_step e n /\ forall n', node_step e n = Some n' -> prompt es n' end.
Fixpoint promptb (es : list NodeEvent) (n : Node C) : bool :=
  match es with
  | [] => true
  | e :: es =>
      match e with MergeOne t => negb (bool_decide (pending n !! t = Some (negb (ptr_ n)))) | _ => true end
      && match node_step e n with Some n => promptb es n | None => true end
  end.
Lemma promptb_ok es n : promptb es n = true -> prompt es n.
Proof.
  revert n. induction es as [|e es IH]; intros n Hp; [done|]. cbn [promptb prompt] in *. apply andb_true_iff in Hp as [H1 H2]. split.
  - destruct e; try done. by apply negb_true_iff, bool_decide_eq_false in H1.
  - intros n' E. rewrite E in H2. by apply IH.
Qed.
Definition node_ok (n : Node C) : Prop := forall t, current n = Some t -> is_Some (held n !! t) /\ pending n !! t <> Some (negb (ptr_ n)).

Lemma hold_get_other idx (g : C -> C) (p : C * C) : hold_get (negb idx) (hold_set idx g p) = hold_get (negb idx) p.
Proof. by destruct idx. Qed.
Lemma pending_other (n : Node C) t idx : pending n !! t = Some idx -> pending n !! t <> Some (negb (ptr_ n)) -> negb (ptr_ n) = negb idx.
Proof. intros -> Hne. destruct idx, (ptr_ n); done. Qed.

Lemma get_ok t n n' : node_step (GetActiveCounter t) n = Some n' -> node_ok n -> node_ok n' /\ accounted n' = accounted n.
Proof using Additive0.
  cbn [node_step]. case_bool_decide as Hp; [|done]. intros [= <-] Hok. unfold accounted, merging, node_ok in *. simpl. split.
  - intros t' Hc. destruct (Hok t' Hc) as [Hs Hn]. split.
    + destruct (held n !! t) eqn:E; [done|]. destruct (decide (t' = t)) as [->|]; [rewrite lookup_insert_eq; eauto|by rewrite lookup_insert_ne].
    + destruct (decide (t' = t)) as [->|]; [rewrite lookup_insert_eq; intros [= E]; by destruct (ptr_ n)|by rewrite lookup_insert_ne].
  - destruct (held n !! t) eqn:E; [done|]. rewrite held_sum_new by done. unfold both. simpl. rewrite M_new.
    destruct (current n) as [t'|] eqn:Ec; [|lia]. destruct (Hok t' eq_refl) as [[p Hs] _].
    rewrite lookup_insert_ne by congruence. lia.
Qed.
Lemma record_ok t v n n' : node_step (Record t v) n = Some n' -> node_ok n -> node_ok n' /\ accounted n' = accounted n + f v.
Proof using Additive0.
  cbn [node_step]. destruct (pending n !! t) as [idx|] eqn:Ep; [|done]. cbn [mbind option_bind].
  destruct (held n !! t) as [p|] eqn:Eh; [|done]. cbn [mbind option_bind]. intros [= <-] Hok. unfold accounted, merging, node_ok in *. simpl. split.
  - intros t' Hc. destruct (Hok t' Hc) as [Hs Hn]. split.
    + destruct (decide (t' = t)) as [->|]; [rewrite lookup_insert_eq; eauto|by rewrite lookup_insert_ne].
    + destruct (decide (t' = t)) as [->|]; [by rewrite lookup_delete_eq|by rewrite lookup_delete_ne].
  - rewrite (held_sum_update _ _ p) by done. rewrite both_set, M_record. destruct (current n) as [t'|] eqn:Ec; [|lia].
    destruct (decide (t' = t)) as [->|]; [|rewrite lookup_insert_ne by done; lia]. destruct (Hok t eq_refl) as [_ Hn].
    rewrite lookup_insert_eq, Eh. simpl. rewrite (pending_other n t idx) by done. rewrite hold_get_other. lia.
Qed.
Lemma reset_ok n n' : node_step ResetOne n = Some n' -> node_ok n -> node_ok n' /\ accounted n' = accounted n.
Proof using Additive0.
  cbn [node_step]. destruct (current n) as [t|] eqn:Ec; [|done]. cbn [mbind option_bind]. destruct (held n !! t) as [p|] eqn:Eh; [|done].
  cbn [mbind option_bind]. intros [= <-] _. unfold accounted, merging, node_ok. simpl. rewrite Ec. split; [done|].
  rewrite (held_sum_update _ _ p) by done. rewrite both_set, M_reset, Eh. simpl. lia.
Qed.
Lemma node_step_ok e n n' :
  node_step e n = Some n' -> node_ok n -> prompt_step e n ->
  node_ok n' /\ accounted n' = accounted n + match e with Record _ v => f v | _ => 0 end.
Proof using Additive0.
  intros Hs Hok Hp. destruct e as [t|t v|t| |t| |].
  - rewrite Z.add_0_r. by eapply get_ok.
  - by eapply record_ok.
  - cbn [node_step] in Hs. destruct (bool_decide (pending n !! t = None) && bool_decide (current n = None)) eqn:E; [|done]. bool_to_prop.
    destruct E as [_ Ec]. destruct (held n !! t) as [p|] eqn:Eh; [|done]. cbn [mbind option_bind] in Hs. injection Hs as <-.
    unfold node_ok, accounted, merging. simpl. rewrite Ec. split; [done|]. rewrite (held_sum_delete _ _ _ Eh), !M_merge. unfold both. lia.
  - cbn [node_step] in Hs. case_bool_decide as Ec; [|done]. injection Hs as <-. unfold node_ok, accounted, merging. simpl. rewrite Ec. split; [done|lia].
  - cbn [node_step] in Hs. case_bool_decide as Ec; [|done]. destruct (held n !! t) as [p|] eqn:Eh; [|done]. cbn [mbind option_bind] in Hs. injection Hs as <-.
    unfold node_ok, accounted, merging. simpl. rewrite Ec. split; [intros t' [= <-]; by rewrite Eh|]. rewrite Eh, M_merge. simpl. lia.
  - rewrite Z.add_0_r. by eapply reset_ok.
  - cbn [node_step] in Hs. case_bool_decide as Ec; [|done]. injection Hs as <-. unfold node_ok, accounted, merging. simpl. rewrite Ec. split; [done|].
    rewrite M_merge, M_reset. lia.
Qed.

(** Under every interleaving of threads that record, come and go with the reader
    that swaps, merges and resets, in which no counter is read while its
    thread is about to record in it, every value is in exactly one place: in
    what was handed out, in the aggregate, or in a counter of a thread. *)
Theorem every_value_counted_once es n :
  node_run es Node_new = Some n -> prompt es Node_new -> current n = None ->
  M (result n) + M (aggregated_ n) + held_sum (held n) = recorded_sum es.
Proof using Additive0.
  intros Hr Hp Hc. assert (accounted n = recorded_sum es) as <-; [|unfold accounted, merging; rewrite Hc; lia].
  assert (accounted Node_new = 0) as H0 by (unfold accounted; simpl; rewrite M_new; done).
  assert (node_ok Node_new) as Hok by done. rewrite <- (Z.add_0_l (recorded_sum es)), <- H0. clear H0 Hc.
  revert Hr Hp Hok. generalize (Node_new : Node C). induction es as [|e es IH]; intros n0 Hr Hp Hok; [simpl in Hr; injection Hr as <-; unfold recorded_sum; simpl; lia|].
  cbn [node_run] in Hr. destruct (node_step e n0) as [n1|] eqn:E; [|done]. cbn [mbind option_bind] in Hr. destruct Hp as [Hp Hps].
  destruct (node_step_ok e n0 n1 E Hok Hp) as [Hok1 Ha]. rewrite (IH n1 Hr (Hps n1 E) Hok1), Ha. unfold recorded_sum. rewrite fmap_cons. cbn [foldr]. lia.
Qed.
End accounting.

#[global] Instance count_additive : Additive (C := Counter) count_ (fun _ => 1).
Proof.
  split; [done| | |done].
  - intros v c. cbn. unfold Counter_record. repeat case_match; done.
  - intros c a. cbn. unfold Counter_merge. repeat case_match; done.
Qed.
#[global] Instance sum_additive : Additive (C := Counter) sum_ id.
Proof.
  split; [done| | |done].
  - intros v c. cbn. unfold Counter_record. repeat case_match; done.
  - intros c a. cbn. unfold Counter_merge. repeat case_match; done.
Qed.

(** ** Examples *)

Definition ex_values : list Z := [3; 0; 12; 250].
Lemma merge_adds_up_witness : exists h1 h2, histogram_of 1 0 [3] h1 /\ histogram_of 1 0 [7; 1] h2
  /\ (let m := Histogram_merge h2 h1 in
      count_ (hcounter m) = Zlen ([3] ++ [7; 1]) /\ sum_ (hcounter m) = foldr Z.add 0 ([3] ++ [7; 1]) /\ hdata_ m = counted 1 0 ([3] ++ [7; 1])
      /\ sumOfSquares_ (hcounter m) = sumOfSquares_ (hcounter h1) + sumOfSquares_ (hcounter h2)
      /\ ([3] <> [] -> [7; 1] <> [] -> max_ (hcounter m) ∈ [3] ++ [7; 1] /\ Forall (fun v => v <= max_ (hcounter m)) ([3] ++ [7; 1]))).
Proof.
  destruct (record_all_spec _ 1 0 [3] [] _ initHistLookup_spec ltac:(lia) (new_histogram 1 0)) as (h1 & _ & H1).
  destruct (record_all_spec _ 1 0 [7; 1] [] _ initHistLookup_spec ltac:(lia) (new_histogram 1 0)) as (h2 & _ & H2).
  exists h1, h2. split; [exact H1|]. split; [exact H2|]. apply (merge_adds_up 1 0 [3] [7; 1] h1 h2 H1 H2).
Defined.
Lemma percentile_in_range_witness : exists table h, initHistLookup = Some table
  /\ record_all table ex_values (Histogram_new 1 0) = Some h
  /\ exists lo hi, lo ∈ ex_values /\ hi ∈ ex_values /\ Forall (fun v => lo <= v <= hi) ex_values
    /\ (inject_Z lo <= calcPercentile exact 50 h <= inject_Z hi)%Q.
Proof.
  destruct (record_all_spec _ 1 0 ex_values [] _ initHistLookup_spec ltac:(lia) (new_histogram 1 0)) as (h & Hr & _).
  eexists _, h. split; [exact initHistLookup_spec|]. split; [exact Hr|].
  apply (percentile_in_range 1 0 ex_values _ h 50 initHistLookup_spec Hr); [lia|left; lia|split; reflexivity].
Defined.
Definition ex_prompt : list NodeEvent :=
  [GetActiveCounter 0; Record 0 5; GetActiveCounter 1; Swap; MergeOne 0; ResetOne; Record 1 7; Collect; ThreadExit 1; GetActiveCounter 0; Record 0 1].
Definition ex_node : Node Counter := default Node_new (node_run ex_prompt Node_new).
Lemma ex_node_run : node_run ex_prompt Node_new = Some ex_node.
Proof. vm_compute. reflexivity. Qed.
Lemma ex_node_prompt : prompt ex_prompt (Node_new : Node Counter).
Proof. apply promptb_ok. vm_compute. reflexivity. Qed.
Lemma ex_node_current : current ex_node = None.
Proof. vm_compute. reflexivity. Qed.
Lemma every_value_counted_once_witness :
  (node_run ex_prompt Node_new = Some ex_node /\ prompt ex_prompt (Node_new : Node Counter) /\ current ex_node = None)
  /\ sum_ (result ex_node) + sum_ (aggregated_ ex_node) + held_sum sum_ (held ex_node) = recorded_sum id ex_prompt
  /\ recorded_sum id ex_prompt = 13.
Proof.
  split; [exact (conj ex_node_run (conj ex_node_prompt ex_node_current))|]. split; [|vm_compute; reflexivity].
  apply (every_value_counted_once sum_ id ex_prompt ex_node ex_node_run ex_node_prompt ex_node_current).
Defined.

(** Merging into a counter without values, as the aggregate of a node is at
    first, leaves the minima at 0, and the maximum of negative values too;
    recording the same values in it does not. *)
Example merged_extremes_lost :
  let c := Counter_record 9 (Counter_record 5 Counter_new) in
  let d := Counter_record (-5) Counter_new in
  (min_ c = 5 /\ realMin_ c = 5 /\ max_ d = -5)
  /\ min_ (Counter_merge c Counter_new) = 0 /\ realMin_ (Counter_merge c Counter_new) = 0 /\ max_ (Counter_merge d Counter_new) = 0.
Proof. vm_compute. auto. Qed.
(** A thread that got its counter before the swap and records between the merge
    and the reset loses its value. *)
Example late_record_lost :
  match node_run [GetActiveCounter 0; Swap; MergeOne 0; Record 0 5; ResetOne; Collect] (Node_new : Node Counter) with
  | Some n => count_ (result n) = 0 /\ count_ (aggregated_ n) = 0 /\ held_sum count_ (held n) = 0
  | None => False
  end.
Proof. vm_compute. auto. Qed.
