(* ===== verification/PerfStats.v ===== *)
(** Statistics of system calls: [PerfStatReport] of [Reporting.h] and
    [Reporting.cpp], which every thread fills and a transfer adds up and prints.

    Doubles are as in [Throttler].  The warning about a slow call and the text
    around the numbers are left out. *)
From Stdlib Require Import QArith Qround Lqa.
From stdpp Require Import gmap sorting.
From S2P Require Import Prelude Throttler Counters CountersProps.
From Stdlib Require Import Permutation.

Definition kMicroToMilli : Q := 1000.
Definition kNumTypes_ : nat := 15.

(** What is kept of one kind of calls: how many took how many milliseconds, and
    the extremes and the sum in microseconds. *)
Record PerfStat := mkPerfStat {
  perfStats_ : gmap Z Z;
  maxValueMicros_ : Z;
  minValueMicros_ : Z;
  ps_count_ : Z;
  sumMicros_ : Z
}.
#[global] Instance PerfStat_settable : Settable PerfStat := fun s =>
  mkPerfStat (perfStats_ s) (maxValueMicros_ s) (minValueMicros_ s) (ps_count_ s) (sumMicros_ s).
(** The initialiser of the minima has one element: the others are 0. *)
Definition PerfStatReport_new : list PerfStat :=
  mkPerfStat ∅ 0 (2 ^ 63 - 1) 0 0 :: replicate (kNumTypes_ - 1) (mkPerfStat ∅ 0 0 0 0).

Definition map_add (k n : Z) (m : gmap Z Z) : gmap Z Z := <[k := default 0 (m !! k) + n]> m.
Section adding.
Context (rnd : Q -> Q).

(** The division is one of doubles. *)
Definition toMillis (timeInMicros : Z) : Z := trunc (ddiv rnd (of_int rnd timeInMicros) kMicroToMilli).
Definition add_stat (timeInMicros : Z) (s : PerfStat) : PerfStat :=
  s <| perfStats_ := map_add (toMillis timeInMicros) 1 (perfStats_ s) |>
    <| maxValueMicros_ := Z.max (maxValueMicros_ s) timeInMicros |>
    <| minValueMicros_ := Z.min (minValueMicros_ s) timeInMicros |>
    <| ps_count_ := ps_count_ s + 1 |> <| sumMicros_ := sumMicros_ s + timeInMicros |>.
Definition addPerfStat (statType : nat) (timeInMicros : Z) (r : list PerfStat) : list PerfStat := alter (add_stat timeInMicros) statType r.
End adding.

(** [operator+=], for one kind and for the report; the other map is visited in
    any order. *)
Definition plus_stat (s t : PerfStat) : PerfStat :=
  mkPerfStat (foldl (fun m e => map_add e.1 e.2 m) (perfStats_ s) (map_to_list (perfStats_ t)))
    (Z.max (maxValueMicros_ s) (maxValueMicros_ t)) (Z.min (minValueMicros_ s) (minValueMicros_ t))
    (ps_count_ s + ps_count_ t) (sumMicros_ s + sumMicros_ t).
Definition plus_report (r statReport : list PerfStat) : list PerfStat := zip_with plus_stat r statReport.

(** ** Printing *)

Definition numBuckets : nat := S (length kHistogramBuckets).
(** The inner loop: the next bucket that does not end at or below the time; [bs]
    are the ends of the buckets from the index on. *)
Fixpoint next_bucket (bs : list Z) (idx : nat) (time : Z) : nat :=
  match bs with b :: bs => if b <=? time then next_bucket bs (S idx) time else idx | [] => idx end.
(** The outer loop over the times in order, for the buckets and for the targets,
    with the time that is printed for each; [None] is a failed check. *)
Fixpoint times_loop (m : gmap Z Z) (times : list Z) (idx : nat) (runningCount : Z) (buckets : list Z) (targets : list Z)
    : option (list Z * list (list Z)) :=
  match times with
  | [] => Some (buckets, (fun _ => []) <$> targets)
  | time :: times =>
      check 0 <=? time ;;
      let* count := m !! time in
      let idx := next_bucket (drop idx kHistogramBuckets) idx time in
      let* (buckets, printed) :=
        times_loop m times idx (runningCount + count) (alter (Z.add count) idx buckets) targets in
      Some (buckets, zip_with (fun t p => if (runningCount <? t) && (t <=? runningCount + count) then time :: p else p) targets printed)
  end.
Definition sorted_times (m : gmap Z Z) : list Z := merge_sort Z.le (map_to_list m).*1.
Definition percentileCounts (rnd : Q -> Q) (count : Z) : list Z :=
  (fun q => trunc (dmul rnd (of_int rnd count) (rnd q))) <$> [1 # 2; 19 # 20; 99 # 100]%Q.
(** What is printed of one kind: the counts of the buckets, and the times of the
    percentiles. *)
Definition print_stat (rnd : Q -> Q) (s : PerfStat) : option (list Z * list (list Z)) :=
  times_loop (perfStats_ s) (sorted_times (perfStats_ s)) 0 0 (replicate numBuckets 0) (percentileCounts rnd (ps_count_ s)).

(** ** Adding up *)

Section reports.
Context (rnd : Q -> Q).

Definition record_stats (l : list (nat * Z)) (r : list PerfStat) : list PerfStat := foldl (fun r e => addPerfStat rnd e.1 e.2 r) r l.
(** The milliseconds of a kind of calls, as they were added. *)
Definition millis (l : list Z) : list Z := toMillis rnd <$> l.
Definition times_of (l : list Z) : gmap Z Z := foldl (fun m t => map_add t 1 m) ∅ l.
Definition stat_of (min0 : Z) (l : list Z) : PerfStat :=
  mkPerfStat (times_of (millis l)) (foldl Z.max 0 l) (foldl Z.min min0 l) (Zlen l) (foldr Z.add 0 l).
Definition min0 (i : nat) : Z := if decide (i = 0%nat) then 2 ^ 63 - 1 else 0.
Definition of_type (i : nat) (l : list (nat * Z)) : list Z := (base.filter (fun e => e.1 = i) l).*2.
Definition report_of (l : list (nat * Z)) : list PerfStat := (fun i => stat_of (min0 i) (of_type i l)) <$> seq 0 kNumTypes_.

Lemma map_add_lookup k n m j : map_add k n m !! j = if decide (k = j) then Some (default 0 (m !! k) + n) else m !! j.
Proof. unfold map_add. case_decide; [subst; by rewrite lookup_insert_eq|by rewrite lookup_insert_ne]. Qed.
Lemma map_add_comm k n k' n' m : map_add k n (map_add k' n' m) = map_add k' n' (map_add k n m).
Proof.
  apply map_eq. intros j. rewrite !map_add_lookup. repeat case_decide; subst; try done; simpl; try congruence; rewrite ?Z.add_assoc; try done.
  f_equal. lia.
Qed.
Lemma times_of_snoc l t : times_of (l ++ [t]) = map_add t 1 (times_of l).
Proof. unfold times_of. by rewrite foldl_app. Qed.
Lemma add_stat_of m l t : add_stat rnd t (stat_of m l) = stat_of m (l ++ [t]).
Proof.
  assert (millis (l ++ [t]) = millis l ++ [toMillis rnd t]) as E by (unfold millis; by rewrite fmap_app).
  unfold stat_of at 2. rewrite E, times_of_snoc, !foldl_app, Zlen_app, foldr_add_snoc. done.
Qed.
Lemma of_type_snoc i l j t : of_type i (l ++ [(j, t)]) = of_type i l ++ (if decide (j = i) then [t] else []).
Proof.
  unfold of_type. rewrite filter_app, fmap_app. f_equal. case_decide as E; [by rewrite filter_cons_True|by rewrite filter_cons_False].
Qed.
Lemma report_of_lookup l i : (i < kNumTypes_)%nat -> report_of l !! i = Some (stat_of (min0 i) (of_type i l)).
Proof. intros Hi. unfold report_of. rewrite list_lookup_fmap, lookup_seq_lt by done. done. Qed.
Lemma report_of_snoc l i t : addPerfStat rnd i t (report_of l) = report_of (l ++ [(i, t)]).
Proof.
  apply list_eq. intros j. unfold addPerfStat. destruct (decide (j < kNumTypes_)%nat) as [Hj|Hj].
  - rewrite report_of_lookup by done. rewrite of_type_snoc. destruct (decide (i = j)) as [->|Hne].
    + rewrite list_lookup_alter_eq, report_of_lookup by done. simpl. by rewrite add_stat_of.
    + rewrite list_lookup_alter_ne, report_of_lookup by done. by rewrite app_nil_r.
  - assert (forall l, length (report_of l) = kNumTypes_) as Hlen by (intros; unfold report_of; by rewrite length_fmap, length_seq).
    rewrite !lookup_ge_None_2; [done|rewrite Hlen; lia|rewrite length_alter, Hlen; lia].
Qed.
Lemma record_report l l' : record_stats l' (report_of l) = report_of (l ++ l').
Proof.
  unfold record_stats. revert l. induction l' as [|[i t] l' IH]; intros l; [by rewrite app_nil_r|]. cbn [foldl fst snd].
  rewrite report_of_snoc, IH. by rewrite <- app_assoc.
Qed.
Lemma new_report : PerfStatReport_new = report_of [].
Proof. done. Qed.

Lemma foldl_map_add (l : list (Z * Z)) m j :
  NoDup l.*1 ->
  foldl (fun m e => map_add e.1 e.2 m) m l !! j
  = match (list_to_map l : gmap Z Z) !! j with Some n => Some (default 0 (m !! j) + n) | None => m !! j end.
Proof.
  revert m. induction l as [|[k n] l IH]; intros m Hnd; [done|]. rewrite fmap_cons in Hnd. apply NoDup_cons in Hnd as [Hk Hnd].
  cbn [foldl fst snd]. rewrite IH, map_add_lookup by done. cbn [list_to_map foldr]. change (foldr _ _ l) with (list_to_map l : gmap Z Z).
  destruct (decide (k = j)) as [->|Hne].
  - rewrite lookup_insert_eq, (not_elem_of_list_to_map_1 l j Hk). done.
  - rewrite lookup_insert_ne by done. done.
Qed.
Definition occurrences (j : Z) (l : list Z) : Z := Zlen (base.filter (fun x => x = j) l).
Lemma occurrences_snoc j l t : occurrences j (l ++ [t]) = occurrences j l + (if decide (t = j) then 1 else 0).
Proof.
  unfold occurrences. rewrite filter_app, Zlen_app. f_equal. case_decide; [by rewrite filter_cons_True|by rewrite filter_cons_False].
Qed.
Lemma times_of_lookup l j : times_of l !! j = if decide (j ∈ l) then Some (occurrences j l) else None.
Proof.
  induction l as [|t l IH] using rev_ind; [by rewrite decide_False by apply not_elem_of_nil|].
  rewrite times_of_snoc, map_add_lookup, occurrences_snoc. destruct (decide (t = j)) as [->|Hne].
  - rewrite IH. rewrite (decide_True (P := j ∈ l ++ [j])) by (apply elem_of_app; right; by left). f_equal. f_equal. case_decide as Hin; [done|].
    simpl. unfold occurrences. clear IH. induction l as [|x l IH]; [done|]. rewrite filter_cons_False by (intros ->; apply Hin; by left).
    apply IH. intros ?. apply Hin. by right.
  - rewrite IH, Z.add_0_r. destruct (decide (j ∈ l)); [rewrite decide_True by (apply elem_of_app; by left); done|].
    rewrite decide_False; [done|]. rewrite elem_of_app, list_elem_of_singleton. naive_solver.
Qed.
Lemma times_of_plus a b : foldl (fun m e => map_add e.1 e.2 m) (times_of a) (map_to_list (times_of b)) = times_of (a ++ b).
Proof.
  apply map_eq. intros j. rewrite foldl_map_add by apply NoDup_fst_map_to_list. rewrite list_to_map_to_list, !times_of_lookup.
  assert (occurrences j (a ++ b) = occurrences j a + occurrences j b) as -> by (unfold occurrences; by rewrite filter_app, Zlen_app).
  assert (forall l, j ∉ l -> occurrences j l = 0) as Hz.
  { intros l Hl. unfold occurrences. induction l as [|x l IH]; [done|]. apply not_elem_of_cons in Hl as [Hx Hl]. rewrite filter_cons_False by done. auto. }
  destruct (decide (j ∈ b)) as [Hb|Hb], (decide (j ∈ a)) as [Ha|Ha]; simpl.
  - by rewrite decide_True by (apply elem_of_app; auto).
  - rewrite decide_True by (apply elem_of_app; auto). by rewrite (Hz a).
  - rewrite decide_True by (apply elem_of_app; auto). by rewrite (Hz b), Z.add_0_r.
  - rewrite decide_False; [done|]. rewrite elem_of_app. tauto.
Qed.
Lemma foldl_max_app m a b : foldl Z.max m (a ++ b) = Z.max (foldl Z.max m a) (foldl Z.max m b).
Proof.
  rewrite foldl_app. assert (forall x y, foldl Z.max (Z.max x y) b = Z.max x (foldl Z.max y b)) as Hc.
  { induction b as [|z b IH]; intros x y; [done|]. simpl. by rewrite <- Z.max_assoc, IH. }
  assert (m <= foldl Z.max m a) as Hm. { clear Hc. revert m. induction a as [|z a IH]; intros m; simpl; [lia|]. specialize (IH (Z.max m z)). lia. }
  rewrite <- Hc. f_equal. lia.
Qed.
Lemma foldl_min_app m a b : foldl Z.min m (a ++ b) = Z.min (foldl Z.min m a) (foldl Z.min m b).
Proof.
  rewrite foldl_app. assert (forall x y, foldl Z.min (Z.min x y) b = Z.min x (foldl Z.min y b)) as Hc.
  { induction b as [|z b IH]; intros x y; [done|]. simpl. by rewrite <- Z.min_assoc, IH. }
  assert (foldl Z.min m a <= m) as Hm. { clear Hc. revert m. induction a as [|z a IH]; intros m; simpl; [lia|]. specialize (IH (Z.min m z)). lia. }
  rewrite <- Hc. f_equal. lia.
Qed.
Lemma plus_stat_of m a b : plus_stat (stat_of m a) (stat_of m b) = stat_of m (a ++ b).
Proof.
  assert (millis (a ++ b) = millis a ++ millis b) as E by (unfold millis; by rewrite fmap_app).
  unfold stat_of at 3. rewrite E, <- times_of_plus, foldl_max_app, foldl_min_app, Zlen_app, foldr_add_app. done.
Qed.
Lemma plus_report_of a b : plus_report (report_of a) (report_of b) = report_of (a ++ b).
Proof.
  apply list_eq. intros i. unfold plus_report. rewrite lookup_zip_with. destruct (decide (i < kNumTypes_)%nat) as [Hi|Hi].
  - rewrite !report_of_lookup by done. cbn [mbind option_bind]. rewrite plus_stat_of. unfold of_type. by rewrite filter_app, fmap_app.
  - assert (forall l, length (report_of l) = kNumTypes_) as Hlen by (intros; unfold report_of; by rewrite length_fmap, length_seq).
    rewrite !lookup_ge_None_2; [done|rewrite Hlen; lia..].
Qed.
End reports.

(** What the statistics of system calls report: reports that are added up are the
    report of all the calls, and what is printed are the counts of the buckets
    and the percentiles of the sorted times. *)
(** ** The loop over the times *)

Lemma next_bucket_split a b idx time : Forall (fun x => x <= time) a -> Forall (fun x => time < x) b ->
  next_bucket (a ++ b) idx time = (idx + length a)%nat.
Proof.
  intros Ha Hb. revert idx. induction Ha as [|x a Hx Ha IH]; intros idx; simpl.
  - destruct Hb as [|x b Hx Hb]; [by rewrite Nat.add_0_r|]. simpl. destruct (Z.leb_spec x time); [lia|]. by rewrite Nat.add_0_r.
  - destruct (Z.leb_spec x time); [|lia]. rewrite IH. lia.
Qed.
Lemma next_bucket_below idx time : Z.of_nat idx <= below time ->
  next_bucket (drop idx kHistogramBuckets) idx time = Z.to_nat (below time).
Proof.
  unfold below. destruct (below_split time) as (a & b & E & -> & Ha & Hb & _). intros Hi. rewrite E, drop_app_le by lia.
  rewrite next_bucket_split by (done || by apply Forall_drop). rewrite length_drop. lia.
Qed.
Lemma below_mono x y : x <= y -> below x <= below y.
Proof.
  intros Hxy. unfold below. induction kHistogramBuckets as [|b l IH]; [done|]. rewrite !filter_cons.
  repeat case_decide; rewrite ?Zlen_cons; lia.
Qed.

(** The values a map of counts stands for, from the least on. *)
Definition expand (m : gmap Z Z) (times : list Z) : list Z := times ≫= (fun t => replicate (Z.to_nat (default 0 (m !! t))) t).
Definition in_slot (j : nat) (l : list Z) : Z := Zlen (base.filter (fun v => below v = Z.of_nat j) l).
(** What is printed for a target: the value with that rank, when there is one. *)
Definition ranked (l : list Z) (t : Z) : list Z := if decide (0 < t) then option_list (l !! Z.to_nat (t - 1)) else [].

Lemma in_slot_app j a b : in_slot j (a ++ b) = in_slot j a + in_slot j b.
Proof. unfold in_slot. by rewrite filter_app, Zlen_app. Qed.
Lemma in_slot_replicate j n t : in_slot j (replicate n t) = if decide (below t = Z.of_nat j) then Z.of_nat n else 0.
Proof.
  unfold in_slot. induction n as [|n IH]; [by case_decide|]. cbn [replicate]. rewrite filter_cons. case_decide; rewrite ?Zlen_cons, IH; lia.
Qed.
Lemma ranked_app c t l x : 0 <= c -> ranked (replicate (Z.to_nat c) t ++ l) x = if decide (0 < x <= c) then [t] else ranked l (x - c).
Proof.
  intros Hc. unfold ranked. destruct (decide (0 < x <= c)) as [Hx|Hx].
  - rewrite decide_True, lookup_app_l, lookup_replicate_2; rewrite ?length_replicate; by lia || done.
  - destruct (decide (0 < x)) as [H0|H0]; [|by rewrite decide_False by lia]. rewrite decide_True by lia.
    rewrite lookup_app_r, length_replicate by (rewrite length_replicate; lia). do 2 f_equal. lia.
Qed.
Lemma ranked_nil x : ranked [] x = [].
Proof. unfold ranked. by case_decide. Qed.

Lemma times_loop_spec m times idx runningCount buckets targets :
  StronglySorted Z.lt times -> Forall (fun t => Z.of_nat idx <= below t) times -> length buckets = numBuckets ->
  Forall (fun t => 0 <= t /\ exists c, m !! t = Some c /\ 0 <= c) times ->
  exists bs, times_loop m times idx runningCount buckets targets
    = Some (bs, (fun t => ranked (expand m times) (t - runningCount)) <$> targets)
    /\ length bs = numBuckets
    /\ forall j, bs !! j = (fun b => b + in_slot j (expand m times)) <$> buckets !! j.
Proof.
  intros Hs. revert idx runningCount buckets. induction Hs as [|time times Hs IH Hlt]; intros idx runningCount buckets Hidx Hlen Hm.
  { exists buckets. split_and!; [|done|].
    - simpl. do 2 f_equal. apply list_fmap_ext. intros ? t ?. by rewrite ranked_nil.
    - intros j. destruct (buckets !! j); [|done]. unfold in_slot. simpl. by rewrite Z.add_0_r. }
  inversion Hidx as [|? ? Hi Hidx']; subst. inversion Hm as [|? ? [Ht (c & Hc & Hpos)] Hm']; subst. simpl times_loop.
  destruct (Z.leb_spec 0 time); [|lia]. rewrite Hc. cbn [mbind option_bind]. rewrite next_bucket_below by done.
  destruct (IH (Z.to_nat (below time)) (runningCount + c) (alter (Z.add c) (Z.to_nat (below time)) buckets)) as (bs & -> & Hbl & Hbs).
  { rewrite Forall_forall in Hlt |- *. intros t Hin. specialize (Hlt t Hin). pose proof (below_mono time t). pose proof (below_range time). lia. }
  { by rewrite length_alter. } { done. }
  assert (expand m (time :: times) = replicate (Z.to_nat c) time ++ expand m times) as Ex by (unfold expand; cbn [mbind list_bind]; by rewrite Hc).
  exists bs. cbn [mbind option_bind]. split_and!; [|done|].
  - do 2 f_equal. rewrite Ex. clear -Hpos. induction targets as [|t targets IH]; [done|]. rewrite !fmap_cons. cbn [zip_with]. f_equal; [|apply IH].
    rewrite ranked_app by done. replace (t - runningCount - c) with (t - (runningCount + c)) by lia.
    destruct (Z.ltb_spec runningCount t), (Z.leb_spec t (runningCount + c)); simpl; try (rewrite decide_False by lia; done).
    rewrite decide_True by lia. unfold ranked. by rewrite decide_False by lia.
  - intros j. rewrite Hbs, Ex, in_slot_app, in_slot_replicate. destruct (below_range time) as [Hr _].
    destruct (decide (j = Z.to_nat (below time))) as [->|Hne].
    + rewrite list_lookup_alter_eq, decide_True by lia. destruct (buckets !! _); [|done]. simpl. f_equal. lia.
    + rewrite list_lookup_alter_ne, decide_False by lia. destruct (buckets !! j); [|done]. simpl. f_equal.
Qed.

(** ** The map of counts and the sorted list *)

Lemma occurrences_count j l : occurrences j l = Z.of_nat (count_occ Z.eq_dec l j).
Proof.
  unfold occurrences. induction l as [|x l IH]; [done|]. rewrite filter_cons. simpl count_occ.
  destruct (Z.eq_dec x j); case_decide; rewrite ?Zlen_cons, ?IH; lia || done.
Qed.
Lemma count_replicate n t j : count_occ Z.eq_dec (replicate n t) j = if decide (t = j) then n else 0%nat.
Proof. induction n as [|n IH]; simpl; [by case_decide|]. rewrite IH. destruct (Z.eq_dec t j); by case_decide. Qed.
Lemma count_expand m times j : NoDup times ->
  count_occ Z.eq_dec (expand m times) j = if decide (j ∈ times) then Z.to_nat (default 0 (m !! j)) else 0%nat.
Proof.
  induction 1 as [|t times Ht Hnd IH]; [by rewrite decide_False by apply not_elem_of_nil|].
  unfold expand in *. cbn [mbind list_bind]. rewrite count_occ_app, IH, count_replicate.
  destruct (decide (t = j)) as [->|Hne].
  - rewrite (decide_False (P := j ∈ times)) by done. rewrite decide_True by (by left). lia.
  - destruct (decide (j ∈ times)); [by rewrite decide_True by (by right)|]. rewrite decide_False; [done|]. apply not_elem_of_cons. naive_solver.
Qed.
Lemma sorted_times_perm m : sorted_times m ≡ₚ (map_to_list m).*1.
Proof. apply merge_sort_Permutation. Qed.
Lemma sorted_times_NoDup m : NoDup (sorted_times m).
Proof. rewrite sorted_times_perm. apply NoDup_fst_map_to_list. Qed.
Lemma elem_of_sorted_times m t : t ∈ sorted_times m <-> is_Some (m !! t).
Proof.
  rewrite sorted_times_perm, list_elem_of_fmap. split.
  - intros ([k v] & -> & Hin%elem_of_map_to_list). by exists v.
  - intros [v Hv]. exists (t, v). by rewrite elem_of_map_to_list.
Qed.
Lemma sorted_strict (l : list Z) : StronglySorted Z.le l -> NoDup l -> StronglySorted Z.lt l.
Proof.
  induction 1 as [|x l Hs IH Hx]; intros Hnd; constructor; apply NoDup_cons in Hnd as [Hn Hnd]; [by apply IH|].
  rewrite Forall_forall in Hx |- *. intros y Hy. specialize (Hx y Hy). enough (x <> y) by lia. by intros ->.
Qed.
Lemma sorted_times_sorted m : StronglySorted Z.lt (sorted_times m).
Proof. apply sorted_strict; [apply StronglySorted_merge_sort; apply _|apply sorted_times_NoDup]. Qed.
Lemma expand_sorted m times : StronglySorted Z.lt times -> StronglySorted Z.le (expand m times).
Proof.
  induction 1 as [|t times Hs IH Ht]; [constructor|]. unfold expand in *. cbn [mbind list_bind].
  induction (Z.to_nat _) as [|n IHn]; [done|]. cbn [replicate app]. constructor; [done|]. apply Forall_app. split.
  - apply Forall_replicate. lia.
  - apply Forall_forall. intros x (y & Hx & Hy)%list_elem_of_bind. apply elem_of_replicate in Hx as [-> _].
    rewrite Forall_forall in Ht. specialize (Ht _ Hy). lia.
Qed.
Lemma expand_times_of l : expand (times_of l) (sorted_times (times_of l)) = merge_sort Z.le l.
Proof.
  apply (StronglySorted_unique Z.le).
  - apply expand_sorted, sorted_times_sorted.
  - apply StronglySorted_merge_sort; apply _.
  - rewrite merge_sort_Permutation. apply (Permutation_count_occ Z.eq_dec). intros j.
    rewrite count_expand by apply sorted_times_NoDup. pose proof (elem_of_sorted_times (times_of l) j) as He.
    pose proof (times_of_lookup l j) as Hj. pose proof (occurrences_count j l) as Ho. destruct (decide (j ∈ l)) as [Hin|Hin].
    + rewrite decide_True by (apply He; rewrite Hj; by eexists). rewrite Hj. simpl. lia.
    + rewrite decide_False by (rewrite He, Hj; apply is_Some_None). symmetry. apply count_occ_not_In. by rewrite <- list_elem_of_In.
Qed.

(** ** The theorems *)

Lemma in_slot_perm j a b : a ≡ₚ b -> in_slot j a = in_slot j b.
Proof. intros E. unfold in_slot. by rewrite E. Qed.
Lemma in_slot_counted vs (j : nat) : (j < numBuckets)%nat -> counted 1 0 vs !! j = Some (in_slot j vs).
Proof.
  intros Hj. rewrite counted_lookup by (unfold numBuckets in Hj; unfold kLastIndex; lia). unfold in_slot.
  apply (f_equal (fun l => Some (Zlen l))), filter_iff_in, Forall_forall. intros v _. rewrite <- below_slotOf by lia. by rewrite Z.sub_0_r, Z.quot_1_r.
Qed.
Lemma counted_numBuckets vs : length (counted 1 0 vs) = numBuckets.
Proof. rewrite counted_length. unfold kLastIndex, numBuckets. lia. Qed.
Lemma trunc_nonneg q : (0 <= q)%Q -> 0 <= trunc q.
Proof. unfold Qle, trunc. simpl. intros Hq. apply Z.quot_pos; lia. Qed.
Lemma millis_nonneg rnd vs : (forall q, (0 <= q)%Q -> (0 <= rnd q)%Q) -> Forall (Z.le 0) vs -> Forall (Z.le 0) (millis rnd vs).
Proof. 
  intros Hr Hv. apply Forall_fmap. eapply Forall_impl; [exact Hv|]. intros t Ht. cbn. unfold toMillis. apply trunc_nonneg. unfold ddiv, of_int, kMicroToMilli.
  apply Hr, Qle_shift_div_l; [done|]. rewrite Qmult_0_l. apply Hr. by rewrite <- (Zle_Qle 0).
Qed.

Lemma print_stat_of rnd m vs : (forall q, (0 <= q)%Q -> (0 <= rnd q)%Q) -> Forall (Z.le 0) vs ->
  print_stat rnd (stat_of rnd m vs)
  = Some (counted 1 0 (millis rnd vs), ranked (merge_sort Z.le (millis rnd vs)) <$> percentileCounts rnd (Zlen vs)).
Proof.
  intros Hr Hv. unfold print_stat. simpl perfStats_. simpl ps_count_.
  destruct (times_loop_spec (times_of (millis rnd vs)) (sorted_times (times_of (millis rnd vs))) 0 0 (replicate numBuckets 0) (percentileCounts rnd (Zlen vs)))
    as (bs & -> & Hlen & Hbs); [apply sorted_times_sorted| |by rewrite length_replicate| |].
  - apply Forall_forall. intros t _. apply below_range.
  - apply Forall_forall. intros t [c Hc]%elem_of_sorted_times. rewrite times_of_lookup in Hc. case_decide as Hin; simplify_eq.
    pose proof (millis_nonneg rnd vs Hr Hv) as Hm. rewrite Forall_forall in Hm. split; [by apply Hm|]. eexists. rewrite times_of_lookup, decide_True by done.
    split; [done|]. unfold occurrences. lia.
  - rewrite expand_times_of in *. f_equal. f_equal; [|apply list_fmap_ext; intros ? t ?; by rewrite Z.sub_0_r].
    apply list_eq. intros j. rewrite Hbs. destruct (decide (j < numBuckets)%nat) as [Hj|Hj].
    + rewrite in_slot_counted, lookup_replicate_2 by done. simpl. f_equal. by rewrite (in_slot_perm j _ _ (merge_sort_Permutation _ _)).
    + rewrite !lookup_ge_None_2; [done|rewrite counted_numBuckets; lia|rewrite length_replicate; lia].
Qed.

(** The report of a transfer: the reports of its threads, added to a new one. *)
Definition transfer_report (rnd : Q -> Q) (threads : list (list (nat * Z))) : list PerfStat :=
  foldl plus_report PerfStatReport_new ((fun l => record_stats rnd l PerfStatReport_new) <$> threads).
Lemma transfer_report_of rnd threads : transfer_report rnd threads = report_of rnd (concat threads).
Proof.
  unfold transfer_report. rewrite (new_report rnd).
  enough (forall seen, foldl plus_report (report_of rnd seen) ((fun l => record_stats rnd l (report_of rnd [])) <$> threads) = report_of rnd (seen ++ concat threads)) as H
    by exact (H []).
  induction threads as [|l threads IH]; intros seen; [by rewrite app_nil_r|].
  cbn [fmap list_fmap foldl concat]. rewrite record_report, plus_report_of. cbn [app]. rewrite IH. by rewrite app_assoc.
Qed.

Lemma foldl_max_foldr m l : foldl Z.max m l = Z.max m (foldr Z.max 0 l) \/ m < 0.
Proof.
  destruct (decide (m < 0)) as [|Hm]; [by right|left]. assert (0 <= m) as H by lia. clear Hm. revert m H.
  induction l as [|x l IH]; intros m Hm; simpl; [lia|]. rewrite IH by lia. lia.
Qed.

(** C0. The statistics of system calls of a transfer, added up from the reports of
    its threads in which each thread recorded its own calls, say of every kind of
    calls how many there were, their total and their greatest time; and what is
    printed of the kind is, for every bucket of the histogram, the number of calls
    whose milliseconds fall into it and, for each percentile, the time with that
    rank in the sorted list of all times (nothing when the rank rounds to 0). *)
Theorem perf_report_exact rnd threads i :
  (forall q, (0 <= q)%Q -> (0 <= rnd q)%Q) -> (i < kNumTypes_)%nat -> Forall (fun e => 0 <= e.2) (concat threads) ->
  let vs := of_type i (concat threads) in
  exists s, transfer_report rnd threads !! i = Some s
    /\ ps_count_ s = Zlen vs /\ sumMicros_ s = foldr Z.add 0 vs /\ maxValueMicros_ s = foldr Z.max 0 vs
    /\ print_stat rnd s = Some (counted 1 0 (millis rnd vs), ranked (merge_sort Z.le (millis rnd vs)) <$> percentileCounts rnd (Zlen vs)).
Proof.
  intros Hr Hi Hpos vs. exists (stat_of rnd (min0 i) vs). split_and!; [by rewrite transfer_report_of, report_of_lookup|done|done| |].
  - simpl. destruct (foldl_max_foldr 0 vs) as [->|]; [|lia]. apply Z.max_r.
    clear. induction vs; simpl; lia.
  - apply print_stat_of; [done|]. unfold vs, of_type. apply Forall_fmap, Forall_forall. intros e [_ He]%list_elem_of_filter.
    rewrite Forall_forall in Hpos. by apply Hpos.
Qed.

(** ** Examples *)

Definition ex_threads : list (list (nat * Z)) := [[(0%nat, 2500); (1%nat, 900)]; [(0%nat, 7000); (0%nat, 2100); (1%nat, 13000)]].
Lemma perf_report_exact_witness :
  Forall (fun e => 0 <= e.2) (concat ex_threads)
  /\ exists s, transfer_report (fun q => q) ex_threads !! 0%nat = Some s /\ ps_count_ s = 3
       /\ print_stat (fun q => q) s = Some (counted 1 0 [2; 7; 2], [[2]; [2]; [2]]).
Proof.
  assert (Forall (fun e => 0 <= e.2) (concat ex_threads)) as Hpos by (by repeat constructor). split; [exact Hpos|].
  destruct (perf_report_exact (fun q => q) ex_threads 0 (fun q H => H) ltac:(unfold kNumTypes_; lia) Hpos) as (s & Hs & Hc & _ & _ & Hp).
  exists s. split_and!; [exact Hs|exact Hc|exact Hp].
Defined.
(** Only the first minimum starts at the greatest number: the least time of any
    other kind of calls is reported as 0. *)
Example least_time_lost : minValueMicros_ <$> (transfer_report (fun q => q) ex_threads !! 0%nat) = Some 2100
  /\ minValueMicros_ <$> (transfer_report (fun q => q) ex_threads !! 1%nat) = Some 0.
Proof. by vm_compute. Qed.
(** With one call no percentile has a rank, and none is printed. *)
Example one_call_no_percentile :
  (snd <$> print_stat (fun q => q) (stat_of (fun q => q) 0 [5000])) = Some [[]; []; []].
Proof. by vm_compute. Qed.
