(* ===== verification/Lifecycle.v ===== *)
(** The life of a receiver object: [WdtBase.cpp] and [Receiver.cpp], from the
    request through [init], [start] and [finish] to the destructor.

    The threads are [ReceiverThread]'s; what they do between [start] and the join
    in [finish] is the argument [run] of [finish].  The transfer log is the
    [Manager] of [LogManager], on the disk an earlier receiver left.  [None] is a
    failed check.  The progress reports are left out. *)
From stdpp Require Import gmap.
From S2P Require Import Prelude Serialization ErrorCodes StateMonad Chunks Protocol Reporting.
From S2P Require Import LogParser LogManager ThreadsController FileSystem FileCreator ByteSource SourceQueue Explore.
From S2P Require Import Socket ReceiverThread Uri Encryption.

(** ** Data *)

(** A double in the source; its product with an [int] is exact. *)
Definition kMbToB : Z := 1024 * 1024.

Inductive TransferStatus := NOT_STARTED | ONGOING | FINISHED | THREADS_JOINED.
#[global] Instance TransferStatus_eq_dec : EqDecision TransferStatus.
Proof. solve_decision. Defined.

(** What the object uses of [WdtOptions]. *)
Record LifeOptions := mkLifeOptions {
  log_options : LogOptions;
  skip_writes : bool;
  encryption_type : list Z;
  iv_change_interval_mb : Z;
  max_accept_retries : Z;
  listen_retries : Z;
  keep_transfer_log : bool;
  enable_transfer_log_compaction : bool
}.

(** The system: the outcomes of system calls on the log ([LogManager]), the
    directory for the walk ([SourceQueue]), and what [init] asks for. *)
Record LifeEnv := mkLifeEnv {
  le_stat : list Z -> option Z;
  le_fault : nat -> Fault;
  le_now : nat -> Z;
  le_sameInode : nat -> bool;
  le_files : Env;
  le_transferId : list Z;
  le_random : option (list Z);
  le_hostName : option (list Z);
  (** What the constructor of the log leaves in the members it does not set. *)
  le_status : ErrorCode;
  le_config : Z
}.

(** A thread object: its socket, once made, the thread it has started, and its
    statistics. *)
Record LThread (W : Type) := mkLThread {
  lt_index : Z;
  lt_port : Z;
  lt_socket : option W;
  lt_thread : bool;
  lt_stats : TransferStats
}.
Arguments mkLThread {_}. Arguments lt_index {_}. Arguments lt_port {_}. Arguments lt_socket {_}.
Arguments lt_thread {_}. Arguments lt_stats {_}.
#[global] Instance LThread_settable {W} : Settable (LThread W) := fun t =>
  mkLThread (lt_index t) (lt_port t) (lt_socket t) (lt_thread t) (lt_stats t).

(** The members of [WdtBase] and [Receiver]; [store] is the file creator with the
    transfer log and the disk, which [init] makes. *)
Record Life (W F : Type) := mkLife {
  transferRequest_ : WdtTransferRequest;
  buffer_size_ : Z;
  transferStatus_ : TransferStatus;
  abortCode_ : ErrorCode;
  throttler_ : bool;
  threadsController_ : option ThreadsController;
  joinable_ : bool;
  store : option (Store F Manager);
  recoveryId : list Z;
  receivedChunks_ : list FileChunksInfo;
  receiverThreads_ : list (LThread W);
  mode_ : AcceptMode
}.
Arguments mkLife {_ _}. Arguments transferRequest_ {_ _}. Arguments buffer_size_ {_ _}. Arguments transferStatus_ {_ _}.
Arguments abortCode_ {_ _}. Arguments throttler_ {_ _}. Arguments threadsController_ {_ _}. Arguments joinable_ {_ _}.
Arguments store {_ _}. Arguments recoveryId {_ _}. Arguments receivedChunks_ {_ _}.
Arguments receiverThreads_ {_ _}. Arguments mode_ {_ _}.
#[global] Instance Life_settable {W F} : Settable (Life W F) := fun s =>
  mkLife (transferRequest_ s) (buffer_size_ s) (transferStatus_ s) (abortCode_ s) (throttler_ s) (threadsController_ s)
    (joinable_ s) (store s) (recoveryId s) (receivedChunks_ s) (receiverThreads_ s) (mode_ s).

(** ** [WdtBase] *)

Section base.
Context {W F : Type}.
Abbreviation Life := (Life W F).

Definition setTransferStatus (status : TransferStatus) (s : Life) : Life := s <| transferStatus_ := status |>.
Definition isStale (s : Life) : bool :=
  bool_decide (transferStatus_ s = FINISHED) || bool_decide (transferStatus_ s = THREADS_JOINED).
Definition hasStarted (s : Life) : bool := negb (bool_decide (transferStatus_ s = NOT_STARTED)).

Definition onRequest (f : WdtTransferRequest -> WdtTransferRequest) (s : Life) : Life :=
  s <| transferRequest_ := f (transferRequest_ s) |>.
Definition setErrorCode (code : ErrorCode) : Life -> Life := onRequest (fun r => r <| errorCode := code |>).

Definition validateTransferRequest (s : Life) : ErrorCode * Life :=
  let r := transferRequest_ s in
  if negb (bool_decide (errorCode r = OK)) then (errorCode r, s)
  else if bool_decide (directory r = []) || (protocolVersion r <? 0) || bool_decide (ports r = [])
  then (INVALID_REQUEST, setErrorCode INVALID_REQUEST s)
  else (OK, s).
(** [Sender::validateTransferRequest] *)
Definition sender_validateTransferRequest (s : Life) : ErrorCode * Life :=
  let '(code, s) := validateTransferRequest s in
  let code := if bool_decide (code = OK) && bool_decide (hostName (transferRequest_ s) = []) then INVALID_REQUEST else code in
  (code, setErrorCode code s).

Definition life_negotiateProtocol (s : Life) : option Life :=
  let protocol := protocolVersion (transferRequest_ s) in
  check 0 <? protocol ;;
  Some (onRequest (fun r => r <| protocolVersion := negotiateProtocol protocol protocol_version |>) s).

(** [Sender::init] *)
Definition sender_init (s : Life) : option Life :=
  let* s := life_negotiateProtocol s in
  let '(code, s) := sender_validateTransferRequest s in
  if negb (bool_decide (code = OK)) then Some s else Some (setErrorCode OK s).

Definition alignedBufferSize (bufSize : Z) : Z :=
  let bufSize := if bufSize <? kMaxHeader then kMaxHeader else bufSize in
  if negb (Z.rem bufSize kDiskBlockSize =? 0) then
    Z.quot (bufSize + kDiskBlockSize - 1) kDiskBlockSize * kDiskBlockSize
  else bufSize.
Definition checkAndUpdateBufferSize (s : Life) : Life := s <| buffer_size_ := alignedBufferSize (buffer_size_ s) |>.

Definition configureThrottler (s : Life) : option Life := check negb (throttler_ s) ;; Some (s <| throttler_ := true |>).
Definition life_abort (code : ErrorCode) (s : Life) : Life :=
  if bool_decide (code = VERSION_MISMATCH) && negb (bool_decide (abortCode_ s = OK)) then s else s <| abortCode_ := code |>.
End base.

(** ** [Receiver] *)

Section receiver_life.
Context `{Host} {W F : Type} `{ServerSocket W} `{FileSystem F}.
Context (o : LifeOptions) (env : LifeEnv).
(** The socket creator, or the constructor of [ServerSocket]: it is given the port
    and the encryption of the request. *)
Context (makeServerSocket : Z -> WdtTransferRequest -> option W) (fuel : nat).
Abbreviation Life := (Life W F).
Abbreviation lo := (log_options o).

Definition rootOf (s : Life) : list Z := normalizeRootDir (directory (transferRequest_ s)).

(** Operations of the log of the receiver; there is none before [init]. *)
Definition onManager {A} (f : Manager -> option (A * Manager)) (s : Life) : option (A * Life) :=
  let* st := store s in
  let* (a, m) := f (tlog st) in
  Some (a, s <| store := Some (st <| tlog := m |>) |>).
Definition onManager_ (f : Manager -> option Manager) (s : Life) : option Life :=
  let* (_, s) := onManager (fun m => let* m := f m in Some (tt, m)) s in Some s.
Definition log_openLog (s : Life) := onManager (openLog lo (rootOf s) (le_fault env) (le_sameInode env)) s.
Definition log_closeLog (s : Life) := onManager_ (closeLog lo (rootOf s) (le_fault env) (le_sameInode env)) s.
Definition log_writeHeader (s : Life) := onManager_ (writeLogHeader lo (rootOf s) (le_fault env) (le_now env) (le_sameInode env)) s.
Definition log_compact (s : Life) := onManager_ (compactLog lo (le_stat env) (rootOf s) (le_fault env) (le_now env) (le_sameInode env)) s.
Definition log_renameBuggy (s : Life) := onManager_ (renameBuggyLog (rootOf s) (le_fault env)) s.
Definition log_unlink (s : Life) := onManager_ (unlink (rootOf s) (le_fault env)) s.
Definition log_status (s : Life) : option ErrorCode := (fun st => getResumptionStatus (tlog st)) <$> store s.

Definition Receiver_new (request : WdtTransferRequest) (buffer_size : Z) (id : list Z) : Life :=
  mkLife request buffer_size NOT_STARTED OK false None false None id [] [] ACCEPT_WITH_RETRIES.

Definition getTransferConfig : Z :=
  let config := if LogParser.shouldPreallocateFiles lo then 1 else 0 in
  if resume_using_dir_tree lo then Z.lor config (Z.shiftl 1 1) else config.

(** The chunks of the files that are found, the logs left out. *)
Definition existing_file (md : SourceMetaData) : option FileChunksInfo :=
  let* chunk := Interval_make 0 (ByteSource.size md) in
  Some (addChunk chunk (FileChunksInfo_make (seqId md) (relPath md) (ByteSource.size md))).
Definition is_log (md : SourceMetaData) : bool :=
  bool_decide (relPath md = kWdtLogName) || bool_decide (relPath md = kWdtBuggyLogName).
Fixpoint existing_files (l : list SourceMetaData) : option (list FileChunksInfo) :=
  match l with
  | [] => Some []
  | md :: l =>
      if is_log md then existing_files l
      else let* info := existing_file md in let* infos := existing_files l in Some (info :: infos)
  end.
Definition traverseDestinationDir (s : Life) : option (list FileChunksInfo) :=
  let q := DirectorySourceQueue_make (le_files env) (directory (transferRequest_ s)) in
  let* (_, q) := buildQueueSynchronously fuel (le_files env) q in
  existing_files (sharedFileData_ q).

(** [None]: an error in [init]'s checks; [Some false]: an early return. *)
Definition init_log (s : Life) : option (bool * Life) :=
  check negb (skip_writes o) ;;
  check negb (resume_using_dir_tree lo) || negb (LogParser.shouldPreallocateFiles lo) ;;
  let* (errCode, s) := log_openLog s in
  if negb (bool_decide (errCode = OK)) then Some (false, setErrorCode errCode s)
  else
    let* (r, s) := onManager (fun m => let* (code, chunks, m) :=
      parseAndMatch lo (le_stat env) (rootOf s) (le_fault env) (le_now env) (le_sameInode env)
        (recoveryId s) getTransferConfig (receivedChunks_ s) m in Some ((code, chunks), m)) s in
    let s := s <| receivedChunks_ := r.2 |> in
    if bool_decide (r.1 = OK) && resume_using_dir_tree lo then
      check bool_decide (receivedChunks_ s = []) ;;
      let* chunks := traverseDestinationDir s in
      Some (true, s <| receivedChunks_ := receivedChunks_ s ++ chunks |>)
    else Some (true, s).

Definition init_encryption (s : Life) : bool * Life :=
  let encryptionType := parseEncryptionType (encryption_type o) in
  let encrypt := negb (bool_decide (encryptionType = ENC_NONE))
    && (ENCRYPTION_V1_VERSION <=? protocolVersion (transferRequest_ s)) in
  if encrypt then
    let s := if negb (isSet (encryptionData (transferRequest_ s))) then
        onRequest (fun r => r <| encryptionData := generateEncryptionParams encryptionType (le_random env) |>) s
      else s in
    if negb (isSet (encryptionData (transferRequest_ s))) then (false, setErrorCode ENCRYPTION_ERROR s) else (true, s)
  else (true, onRequest (fun r => r <| encryptionData := EncryptionParams_none |>) s).

(** [makeThreads]: the constructor registers the thread. *)
Fixpoint makeThreads (ports : list Z) (index : Z) (c : ThreadsController) : option (list (LThread W) * ThreadsController) :=
  match ports with
  | [] => Some ([], c)
  | p :: ports =>
      let* c := registerThread index c in
      let* (ts, c) := makeThreads ports (index + 1) c in
      Some (mkLThread index p None false TransferStats_default :: ts, c)
  end.

(** [ReceiverThread::init] *)
Fixpoint try_listen (tries : nat) (w : W) : W :=
  match tries with
  | O => w
  | S tries => let '(code, w) := srv_listen w in if bool_decide (code = OK) then w else try_listen tries w
  end.
Definition thread_init (r : WdtTransferRequest) (t : LThread W) : ErrorCode * LThread W :=
  match makeServerSocket (lt_port t) r with
  | None => (ERROR, t)
  | Some w =>
      let w := try_listen (Z.to_nat (listen_retries o)) w in
      let '(code, w) := srv_listen w in
      (if negb (bool_decide (code = OK)) then ERROR else OK, t <| lt_socket := Some w |>)
  end.
(** [getPort] of a thread without a socket reads a null pointer. *)
Fixpoint thread_ports (ts : list (LThread W)) : option (list Z) :=
  match ts with
  | [] => Some []
  | t :: ts => let* w := lt_socket t in let* ps := thread_ports ts in Some (srv_port w :: ps)
  end.
Definition init_threads (s : Life) : option Life :=
  let numThreads := Zlen (ports (transferRequest_ s)) in
  let c := setNumConditions 1 (setNumBarriers 0 (setNumFunnels 1 (ThreadsController_make numThreads))) in
  let* (threads, c) := makeThreads (ports (transferRequest_ s)) 0 c in
  let inits := thread_init (transferRequest_ s) <$> threads in
  let threads := inits.*2 in
  let numSuccessfulInitThreads := Zlen (filter (fun i => i.1 = OK) inits) in
  let code :=
    if negb (numSuccessfulInitThreads =? numThreads) then
      if numSuccessfulInitThreads =? 0 then ERROR else FEWER_PORTS
    else OK in
  let* ps := thread_ports threads in
  let s := s <| threadsController_ := Some c |> <| receiverThreads_ := threads |> in
  let s := onRequest (fun r => r <| ports := ps |>) s in
  let '(code, s) :=
    if bool_decide (hostName (transferRequest_ s) = []) then
      match le_hostName env with
      | Some h => (code, onRequest (fun r => r <| hostName := h |>) s)
      | None => (ERROR, s)
      end
    else (code, s) in
  Some (setErrorCode code s).

(** [disk] is what is found on the disk: whether there is a log, its bytes, and
    the files. *)
Definition Receiver_init (exists_ : bool) (log : LogFile) (files : F) (s : Life) : option Life :=
  let '(code, s) := validateTransferRequest s in
  if negb (bool_decide (code = OK)) then Some s
  else
    let m := Manager_init exists_ log (le_status env) (le_config env) in
    let s := checkAndUpdateBufferSize s in
    let s := if bool_decide (transferId (transferRequest_ s) = []) then
        onRequest (fun r => r <| transferId := le_transferId env |>) s else s in
    let* s := life_negotiateProtocol s in
    let* st := FileCreator_make (directory (transferRequest_ s)) (skip_writes o) m files in
    let s := s <| store := Some st |> in
    let s := onRequest (fun r => r <| downloadResumptionEnabled := enable_download_resumption lo |>) s in
    let* (go, s) := if enable_download_resumption lo then init_log s else Some (true, s) in
    if negb go then Some s
    else
      let '(go, s) := init_encryption s in
      if negb go then Some s
      else
        let s := onRequest (fun r => r <| ivChangeInterval := iv_change_interval_mb o * kMbToB |>) s in
        let s := if max_accept_retries o <=? 0 then s <| mode_ := ACCEPT_FOREVER |> else s in
        init_threads s.

(** ** Threads *)

Definition startThread (t : LThread W) (s : Life) : option (LThread W) :=
  check negb (lt_thread t) ;;
  let* c := threadsController_ s in
  let* state := getState (lt_index t) c in
  check bool_decide (state = RUNNING) ;;
  Some (t <| lt_thread := true |>).
Fixpoint startThreads (ts : list (LThread W)) (s : Life) : option (list (LThread W)) :=
  match ts with
  | [] => Some []
  | t :: ts => let* t := startThread t s in let* ts := startThreads ts s in Some (t :: ts)
  end.
(** [WdtThread::finish] of every thread: they run to their ends and are joined. *)
Definition joinThreads (run : Life -> Life) (s : Life) : Life :=
  let s := if existsb lt_thread (receiverThreads_ s) then run s else s in
  s <| receiverThreads_ := (fun t => t <| lt_thread := false |>) <$> receiverThreads_ s |>.

(** ** Starting *)

(** [start] up to the loop. *)
Definition start_setup (s : Life) : option Life :=
  check bool_decide (transferStatus_ s = NOT_STARTED) ;;
  let* s := if negb (throttler_ s) then configureThrottler s else Some s in
  Some (setTransferStatus ONGOING s).
Definition start_threads (s : Life) : option Life :=
  let* ts := startThreads (receiverThreads_ s) s in Some (s <| receiverThreads_ := ts |>).
Definition transferAsync (s : Life) : option Life :=
  let s := s <| joinable_ := true |> in
  let* s := start_setup s in
  start_threads s.

(** A round of the loop of [start] when the receiver runs forever. *)
Definition reset_thread (t : LThread W) : LThread W := t <| lt_stats := Reporting.reset (lt_stats t) |>.
Definition long_round (run : Life -> Life) (s : Life) : option Life :=
  let* s := start_threads s in
  let s := joinThreads run s in
  let s := s <| receiverThreads_ := reset_thread <$> receiverThreads_ s |> in
  let* c := threadsController_ s in
  Some (setTransferStatus NOT_STARTED (s <| threadsController_ := Some (controller_reset c) |>)).
Fixpoint long_rounds (runs : list (Life -> Life)) (s : Life) : option Life :=
  match runs with [] => Some s | run :: runs => let* s := long_round run s in long_rounds runs s end.
(** [runForever], for as many rounds as there are in [runs]. *)
Definition runForever (runs : list (Life -> Life)) (s : Life) : option Life :=
  check negb (enable_download_resumption lo) ;;
  let* s := start_setup s in
  long_rounds runs s.

(** ** Finishing *)

Definition getTransferReport (s : Life) : TransferReport :=
  let globalStats := foldl addStats TransferStats_default (lt_stats <$> receiverThreads_ s) in
  let report := TransferReport_receiver globalStats in
  if bool_decide (transferStatus_ s = NOT_STARTED) && bool_decide (getErrorCode (summary_ report) = OK)
  then Reporting.setErrorCode ERROR report else report.

Definition fixAndCloseTransferLog (transferSuccess : bool) (s : Life) : option Life :=
  if negb (enable_download_resumption lo) then Some s
  else
    let* status := log_status s in
    let isInconsistentDirectory := bool_decide (status = INCONSISTENT_DIRECTORY) in
    let isInvalidLog := bool_decide (status = INVALID_LOG) in
    let* s := if transferSuccess && isInconsistentDirectory then check resume_using_dir_tree lo ;; log_writeHeader s else Some s in
    let* s := if enable_transfer_log_compaction o && transferSuccess && negb isInvalidLog && keep_transfer_log o
                 && negb (resume_using_dir_tree lo) then log_compact s else Some s in
    let* s := log_closeLog s in
    if negb transferSuccess then Some s
    else
      let* s := if isInvalidLog then log_renameBuggy s else Some s in
      if negb (keep_transfer_log o) then log_unlink s else Some s.

Definition Receiver_finish (run : Life -> Life) (s : Life) : option (TransferReport * Life) :=
  match transferStatus_ s with
  | NOT_STARTED | THREADS_JOINED => Some (getTransferReport s, s)
  | _ =>
      let s := joinThreads run s in
      let s := setTransferStatus THREADS_JOINED s in
      let report := getTransferReport s in
      let* s := fixAndCloseTransferLog (bool_decide (getErrorCode (summary_ report) = OK)) s in
      Some (report, s)
  end.

(** The destructor, with those of the members: the log checks that it is closed. *)
Definition Receiver_destroy (run : Life -> Life) (s : Life) : option unit :=
  let s := if bool_decide (transferStatus_ s = ONGOING) then life_abort ABORTED_BY_APPLICATION s else s in
  let* (_, s) := Receiver_finish run s in
  match store s with Some st => destroy (tlog st) | None => Some tt end.
End receiver_life.
