(* ===== verification/LifecycleLog.v ===== *)
(** The transfer log through the life of two receivers: what the first one logs
    before it fails is what the next one on the same directory starts from. *)
From stdpp Require Import gmap.
From S2P Require Import Prelude Serialization ErrorCodes Chunks Protocol ProtocolProps Reporting.
From S2P Require Import LogEntries LogParser LogParserProps LogReplay LogHistory LogManager LogManagerProps.
From S2P Require Import ThreadsController FileSystem FileCreator Socket ReceiverThread Uri Lifecycle.

(** ** The log of one receiver *)

Section log.
Context `{Host} (options : LogOptions) (stat : list Z -> option Z) (rootDir : list Z).
Context (fault : nat -> Fault) (now : nat -> Z) (sameInode : nat -> bool).
Hypothesis Hnf : forall n, fault n = NoFault.
Hypothesis Hnow : forall n, nonneg64 (now n).
Hypothesis Hinode : forall n, sameInode n = true.
Hypothesis Hroot : rootDir <> [].
Hypothesis Hresume : enable_download_resumption options = true.
Hypothesis Hlog : resume_using_dir_tree options = false.

Lemma call_ok_nf m : call_ok fault m = true.
Proof. unfold call_ok, sys_ok. by rewrite Hnf. Qed.
Lemma root_check : negb (bool_decide (rootDir = [])) = true.
Proof. by rewrite bool_decide_eq_false_2. Qed.

(** A log that is open, at the beginning of its bytes. *)
Definition opened (c : list Z) (status : ErrorCode) (config : Z) (k : nat) : Manager :=
  mkManager 3 [] [] config [] false status false WNone true (mkLogFile c 0 k) None.
Lemma open_new f status config : exists k,
  openLog options rootDir fault sameInode (Manager_init false f status config) = Some (OK, opened [] status config k).
Proof.
  eexists. unfold openLog. rewrite root_check, Hresume. cbn [fd_ Manager_init Z.ltb Z.compare].
  repeat (progress (unfold sys_open, sys_create; rewrite ?call_ok_nf; cbn)). reflexivity.
Qed.
Lemma open_existing f status config : exists k,
  openLog options rootDir fault sameInode (Manager_init true f status config) = Some (OK, opened (content f) status config k).
Proof.
  eexists. unfold openLog. rewrite root_check, Hresume. cbn [fd_ Manager_init Z.ltb Z.compare].
  repeat (progress (unfold sys_open; rewrite ?call_ok_nf; cbn)). reflexivity.
Qed.

(** The manager after its log has been matched. *)
Definition matched (id ip : list Z) (config : Z) (c : list Z) (k : nat) : Manager :=
  mkManager 3 id ip config [] false OK false WNone true (mkLogFile c (Zlen c) k) None.
Lemma match_empty id config status config' k : exists k',
  parseAndMatch options stat rootDir fault now sameInode id config [] (opened [] status config' k)
  = Some (OK, [], matched id [] config [] k').
Proof.
  eexists. unfold parseAndMatch, parseVerifyAndFix. cbn [fd_ opened set_config set_recoveryId Z.ltb Z.compare].
  unfold parseLog. cbn [logFile opened set_config set_recoveryId content length parse_loop]. unfold parse_step, sys_read, granted.
  cbn [ps_file content pos calls]. rewrite Hnf. done.
Qed.
Lemma match_history hd es t status config' k :
  wf_entry (EHeader hd) -> lh_senderIp hd <> [] -> Forall wf_entry es -> valid_history stat rootDir ∅ es -> torn t ->
  exists files k',
    parseAndMatch options stat rootDir fault now sameInode (lh_recoveryId hd) (lh_config hd) []
      (opened (log_bytes (EHeader hd :: es) ++ t) status config' k)
    = Some (OK, files, matched (lh_recoveryId hd) (lh_senderIp hd) (lh_config hd) (log_bytes (EHeader hd :: es)) k')
    /\ (forall c, ECreation c ∈ es -> exists f, f ∈ files /\ seqId_ f = fc_seqId c)
    /\ (forall f, f ∈ files -> exists c sz, ECreation c ∈ es /\ seqId_ f = fc_seqId c
         /\ fileName_ f = fc_fileName c /\ stat (rootDir ++ fc_fileName c) = Some sz /\ fileSize_ f = sz
         /\ forall x, covers (chunks_ f) x <->
              exists b, EBlock b ∈ es /\ bw_seqId b = seqId_ f /\ bw_offset b <= x < bw_offset b + bw_blockSize b).
Proof.
  intros Hhd Hip Hwf Hv Ht.
  destruct (parse_transfer_log _ options stat rootDir hd es t [] fault now k Hnf Hnow Hlog Hhd Hip Hwf Hv Ht) as (files & k' & E & H1 & H2).
  exists files, k'. split; [|done]. unfold parseAndMatch, parseVerifyAndFix. cbn [fd_ opened set_config set_recoveryId Z.ltb Z.compare].
  cbn [logFile opened set_config set_recoveryId recoveryId_ senderIp_]. rewrite E. done.
Qed.

(** ** A session *)

(** What the threads do with the log in a session with a sender that resumes: the
    first one starts the writer and checks the address, one writes the header
    when the chunks are sent, and then entries are added and written. *)
Definition session_log (ip : list Z) (es : list LogEntry) (m m' : Manager) : Prop :=
  exists m1 m2 m3, LogManager.startThread options m = Some (OK, m1)
    /\ verifySenderIp options rootDir fault now sameInode ip m1 = Some (true, m2)
    /\ writeLogHeader options rootDir fault now sameInode m2 = Some m3
    /\ msteps fault now m3 es m'.

Lemma write_header id ip config c k :
  wf_entry (EHeader (mkLogHeader (now k) WLOG_VERSION id ip config)) -> pos (mkLogFile c (Zlen c) k) = Zlen c ->
  writeLogHeader options rootDir fault now sameInode (set_senderIp ip (set_writerThread WWaiting (matched id [] config c k)))
  = Some (mkManager 3 id ip config [] false OK true WWaiting true
      (mkLogFile (c ++ entry_bytes (EHeader (mkLogHeader (now k) WLOG_VERSION id ip config)))
        (Zlen (c ++ entry_bytes (EHeader (mkLogHeader (now k) WLOG_VERSION id ip config)))) (S (S k))) None).
Proof.
  intros Hwf _. unfold writeLogHeader. cbn [fd_ set_senderIp set_writerThread matched Z.ltb Z.compare logFile calls recoveryId_ senderIp_ config_].
  destruct (encode_entry_spec (EHeader (mkLogHeader (now k) WLOG_VERSION id ip config)) stack_buffer Hwf ltac:(done)) as (dest & E & Ht).
  cbn [encode_entry lh_timestamp lh_recoveryId lh_senderIp lh_config] in E. rewrite E. unfold write_log.
  cbn [logFile set_senderIp set_writerThread matched].
  rewrite (sys_write_entry fault Hnf _ dest c k Ht), Z.eqb_refl. done.
Qed.
Lemma writer_write_keep fin es m : fd_ (writer_write fault fin es m) = fd_ m /\ logExists (writer_write fault fin es m) = logExists m
  /\ resumptionStatus_ (writer_write fault fin es m) = resumptionStatus_ m.
Proof. unfold writer_write, writeEntriesToDiskNoLock. case_bool_decide; [done|]. by destruct (sys_write _ _ _ _). Qed.
Lemma keep_msteps m es m' : msteps fault now m es m' ->
  fd_ m' = fd_ m /\ logExists m' = logExists m /\ resumptionStatus_ m' = resumptionStatus_ m.
Proof.
  induction 1 as [m|m1 es1 m2 es2 m3 _ IH Hs]; [done|].
  enough (fd_ m3 = fd_ m2 /\ logExists m3 = logExists m2 /\ resumptionStatus_ m3 = resumptionStatus_ m2) as (-> & -> & ->) by done.
  clear -Hs. destruct Hs as [m _|m fin es _|m op m' E].
  - done.
  - by apply writer_write_keep.
  - assert (forall r, emplace_entry r m = Some m' -> fd_ m' = fd_ m /\ logExists m' = logExists m /\ resumptionStatus_ m' = resumptionStatus_ m) as He.
    { unfold emplace_entry. intros [[size buf]|] Hr; [|done]. cbn [mbind option_bind] in Hr. destruct (0 <=? size); by simplify_eq. }
    destruct op; cbn [run_add] in E; unfold addFileCreationEntry, addBlockWriteEntry, addFileResizeEntry, addFileInvalidationEntry in E;
      case_match; simplify_eq; eauto.
Qed.

(** The header that a session writes. *)
Definition header_of (id ip : list Z) (config : Z) (hd : LogHeader) : Prop :=
  lh_version hd = WLOG_VERSION /\ lh_recoveryId hd = id /\ lh_senderIp hd = ip /\ lh_config hd = config /\ nonneg64 (lh_timestamp hd).

Lemma session_spec id ip config k es m' :
  nonneg64 config -> Zlen id + Zlen ip <= PATH_MAX -> Forall wf_entry es ->
  session_log ip es (matched id [] config [] k) m' ->
  exists hd m3, header_of id ip config hd /\ wf_entry (EHeader hd) /\ started (log_bytes [EHeader hd]) m3
    /\ msteps fault now m3 es m' /\ 0 <= fd_ m' /\ logExists m' = true /\ resumptionStatus_ m' = OK.
Proof.
  intros Hc Hl Hwf (m1 & m2 & m3 & E1 & E2 & E3 & Hs).
  unfold LogManager.startThread in E1. rewrite Hlog in E1. cbn [negb resumptionStatus_ matched] in E1.
  rewrite bool_decide_eq_true_2 in E1 by done. cbn [negb fd_ matched] in E1.
  destruct (0 <=? transfer_log_write_interval_ms options); [|done].
  change (0 <=? 3) with true in E1. injection E1 as <-.
  assert (m2 = set_senderIp ip (set_writerThread WWaiting (matched id [] config [] k))) as ->.
  { unfold verifySenderIp in E2. cbn [fd_ set_writerThread matched senderIp_ Z.ltb Z.compare] in E2.
    rewrite bool_decide_eq_true_2 in E2 by done.
    destruct (disable_sender_verification_during_resumption options); cbn in E2; by simplify_eq. }
  set (hd := mkLogHeader (now k) WLOG_VERSION id ip config).
  assert (wf_entry (EHeader hd)) as Hhd by (split_and!; done || apply Hnow).
  rewrite (write_header id ip config [] k Hhd eq_refl) in E3. apply (inj Some) in E3. fold hd in E3.
  exists hd, m3. pose proof (keep_msteps _ _ _ Hs) as (K1 & K2 & K3). rewrite <- E3 in K1, K2, K3.
  cbn [fd_ logExists resumptionStatus_] in K1, K2, K3.
  split; [split_and!; done || apply Hnow|]. split; [done|]. split; [|split_and!; done || lia].
  rewrite <- E3. change (log_bytes [EHeader hd]) with (entry_bytes (EHeader hd) ++ []). rewrite app_nil_r.
  unfold started. cbn [fd_ headerWritten_ finished_ writerThread_ entries_ logFile content pos app]. split_and!; done.
Qed.

(** ** Closing *)

Lemma close_open m : 0 <= fd_ m -> logExists m = true -> exists m',
  close rootDir fault sameInode m = Some m' /\ fd_ m' = -1 /\ logExists m' = true
  /\ content (logFile m') = content (logFile m) /\ resumptionStatus_ m' = resumptionStatus_ m.
Proof.
  intros Hfd Hex. unfold close, checkLog, LogManager.getFullPath.
  replace (fd_ m <? 0) with false by (symmetry; bool_to_prop; lia). rewrite root_check. repeat (progress (rewrite ?call_ok_nf, ?Hex, ?Hinode; cbn)). eexists. split_and!; done.
Qed.
Lemma shutdown_keep m : fd_ (shutdownThread fault m) = fd_ m /\ logExists (shutdownThread fault m) = logExists m.
Proof.
  assert (forall fin es m, fd_ (writer_write fault fin es m) = fd_ m /\ logExists (writer_write fault fin es m) = logExists m) as Hw.
  { intros fin es m'. by destruct (writer_write_keep fin es m') as (-> & -> & _). }
  unfold shutdownThread, writer_join. destruct (writerThread_ m) eqn:E; try done; cbn [set_finished writerThread_]; rewrite E; cbn zeta.
  - cbn [set_writerThread fd_ logExists]. by rewrite !(proj1 (Hw _ _ _)), !(proj2 (Hw _ _ _)).
  - case_match; cbn [set_writerThread fd_ logExists]; rewrite ?(proj1 (Hw _ _ _)), ?(proj2 (Hw _ _ _)); cbn [writer_take set_entries set_writerThread fd_ logExists];
      rewrite ?(proj1 (Hw _ _ _)), ?(proj2 (Hw _ _ _)); done.
  - done.
Qed.
Lemma close_session base es m3 m' :
  started base m3 -> Forall wf_entry es -> msteps fault now m3 es m' -> 0 <= fd_ m' -> logExists m' = true ->
  exists m'', closeLog options rootDir fault sameInode m' = Some m'' /\ fd_ m'' = -1 /\ logExists m'' = true
    /\ content (logFile m'') = base ++ log_bytes es.
Proof.
  intros Hst Hwf Hs Hfd Hex. unfold closeLog. replace (fd_ m' <? 0) with false by (symmetry; bool_to_prop; lia). rewrite Hlog. cbn [negb].
  pose proof (msteps_running fault now base m3 es m' Hnf Hnow Hwf Hst Hs) as Hrun.
  pose proof (msteps_inv fault now base m3 es m' Hnow Hwf (started_inv base m3 Hst) Hs) as Hinv.
  destruct (shutdownThread_flushes fault base es m' Hnf Hinv Hrun) as [Hc _].
  destruct (shutdown_keep m') as [K1 K2].
  destruct (close_open (shutdownThread fault m')) as (m'' & E & F1 & F2 & F3 & _); [by rewrite K1|by rewrite K2|].
  exists m''. rewrite F3, Hc. done.
Qed.
End log.
