(* ===== verification/LifecycleProps.v ===== *)
(** Correctness of the life of a receiver: what [init] leaves behind, that it can
    then be started, finished and destroyed, and that a transfer that failed is
    resumed by the next receiver from exactly the blocks that were logged. *)
From stdpp Require Import gmap.
From S2P Require Import Prelude Serialization ErrorCodes StateMonad Chunks Protocol ProtocolProps Reporting.
From S2P Require Import LogEntries LogParser LogParserProps LogReplay LogHistory LogManager LogManagerProps.
From S2P Require Import ThreadsController FileSystem FileCreator ByteSource Socket ReceiverThread Uri Encryption Lifecycle LifecycleLog.

(** ** The steps of [init] *)

Section init.
Context `{Host} {W F : Type} `{ServerSocket W} `{FileSystem F}.
Context (o : LifeOptions) (env : LifeEnv) (mk : Z -> WdtTransferRequest -> option W) (fuel : nat).
Abbreviation Life := (Life W F).
Abbreviation lo := (log_options o).

Lemma createDirs_tlog {L} n dir force (s : Store F L) b s' : createDirs n dir force s = Some (b, s') -> tlog s' = tlog s.
Proof.
  revert dir force s b s'. induction n as [|n IH]; intros dir force s b s' E; cbn [createDirs] in E.
  all: destruct (skipWrites_ (creator s)); [by simplify_eq|]; destruct (negb force && dirCreated dir (creator s)); [by simplify_eq|].
  all: destruct (bool_decide (last dir = Some slash)); [|done]; destruct (0 <? _)%nat; cbn [mbind option_bind] in E; try done.
  2: destruct (createDirs n _ _ _) as [[made s1]|] eqn:E1; [|done]; apply IH in E1; rewrite <- E1; cbn [mbind option_bind] in E; destruct made;
     cbn [negb] in E; [|by simplify_eq].
  all: repeat case_match; simplify_eq; done.
Qed.
Lemma FileCreator_make_tlog {L} root skip (m : L) files st : FileCreator_make root skip m files = Some st -> tlog st = m.
Proof.
  unfold FileCreator_make. destruct (negb _); [|done]. unfold createDirRecursively. destruct (createDirs _ _ _ _) as [[b s]|] eqn:E; [|done].
  intros [= <-]. by apply createDirs_tlog in E.
Qed.

(** What the steps of [init] leave alone. *)
Definition keeps_object (s s' : Life) : Prop :=
  recoveryId s' = recoveryId s /\ transferStatus_ s' = transferStatus_ s
  /\ directory (transferRequest_ s') = directory (transferRequest_ s) /\ joinable_ s' = joinable_ s.
Definition keeps_request (s s' : Life) : Prop :=
  ports (transferRequest_ s') = ports (transferRequest_ s)
  /\ protocolVersion (transferRequest_ s') = protocolVersion (transferRequest_ s)
  /\ buffer_size_ s' = buffer_size_ s /\ throttler_ s' = throttler_ s.
Lemma init_threads_keeps (s s' : Life) : init_threads o env mk s = Some s' ->
  store s' = store s /\ receivedChunks_ s' = receivedChunks_ s /\ keeps_object s s'.
Proof.
  unfold init_threads. destruct (makeThreads _ _ _) as [[ts c]|]; [|done]. cbn [mbind option_bind].
  destruct (thread_ports _) as [ps|]; [|done]. cbn [mbind option_bind]. case_match eqn:E. intros [= <-].
  revert E. repeat case_match; intros E; simplify_eq; done.
Qed.
Lemma init_encryption_keeps (s s' : Life) go : init_encryption o env s = (go, s') ->
  store s' = store s /\ receivedChunks_ s' = receivedChunks_ s /\ keeps_object s s' /\ keeps_request s s'
  /\ (if go then isSet (encryptionData (transferRequest_ s'))
        = negb (bool_decide (parseEncryptionType (encryption_type o) = ENC_NONE)) && (ENCRYPTION_V1_VERSION <=? protocolVersion (transferRequest_ s'))
      else errorCode (transferRequest_ s') = ENCRYPTION_ERROR).
Proof.
  unfold init_encryption. destruct (negb _ && _) eqn:Ee; [|intros; simplify_eq; split_and!; try done; symmetry; exact Ee].
  destruct (isSet (encryptionData (transferRequest_ s))) eqn:Es; cbn [negb].
  - rewrite Es. cbn [negb]. intros; simplify_eq. split_and!; try done. rewrite Es. symmetry. exact Ee.
  - simpl encryptionData. destruct (isSet (generateEncryptionParams _ _)) eqn:E2; cbn [negb]; intros; simplify_eq; split_and!; try done. etransitivity; [exact E2|]. symmetry. exact Ee.
Qed.
Lemma init_log_keeps (s s' : Life) go : init_log o env fuel s = Some (go, s') ->
  keeps_object s s' /\ keeps_request s s' /\ (go = false -> errorCode (transferRequest_ s') <> OK).
Proof.
  unfold init_log, log_openLog, onManager. destruct (negb (skip_writes o)); [|done]. destruct (negb _ || _); [|done].
  destruct (store s) as [st|]; [|done]. cbn [mbind option_bind]. destruct (openLog _ _ _ _ _) as [[e m]|]; [|done]. cbn [mbind option_bind].
  case_bool_decide as He; cbn [negb]; [|intros [= <- <-]; split_and!; done].
  simpl store. cbn [mbind option_bind]. destruct (parseAndMatch _ _ _ _ _ _ _ _ _ _) as [[[code chunks] m']|]; [|done]. cbn [mbind option_bind fst snd].
  destruct (bool_decide (code = OK) && _); [|by intros [= <- <-]]. case_bool_decide; [|done].
  destruct (traverseDestinationDir _ _ _); [|done]. by intros [= <- <-].
Qed.

(** An [init] that reports no error has made the store and, with resumption, has
    gone through the log. *)
Lemma Receiver_init_inv ex f files (s s' : Life) :
  Receiver_init o env mk fuel ex f files s = Some s' -> errorCode (transferRequest_ s') = OK ->
  exists st sA sB, tlog st = Manager_init ex f (le_status env) (le_config env) /\ store sA = Some st
    /\ receivedChunks_ sA = receivedChunks_ s /\ keeps_object s sA
    /\ (if enable_download_resumption lo then init_log o env fuel sA = Some (true, sB) else sB = sA)
    /\ store s' = store sB /\ receivedChunks_ s' = receivedChunks_ sB /\ keeps_object s s'
    /\ exists sD, init_threads o env mk sD = Some s' /\ ports (transferRequest_ sD) = ports (transferRequest_ s)
         /\ ports (transferRequest_ s) <> [] /\ throttler_ sD = throttler_ s
         /\ protocolVersion (transferRequest_ sD) = negotiateProtocol (protocolVersion (transferRequest_ s)) protocol_version
         /\ buffer_size_ sD = alignedBufferSize (buffer_size_ s)
         /\ isSet (encryptionData (transferRequest_ sD))
            = negb (bool_decide (parseEncryptionType (encryption_type o) = ENC_NONE))
              && (ENCRYPTION_V1_VERSION <=? protocolVersion (transferRequest_ sD)).
Proof.
  unfold Receiver_init, validateTransferRequest. intros E Hok.
  case_bool_decide as He; cbn [negb] in E; [|rewrite bool_decide_eq_false_2 in E by done; cbn [negb] in E; by simplify_eq].
  destruct (_ || _) eqn:Ev; [by rewrite bool_decide_eq_false_2 in E by done; cbn [negb] in E; simplify_eq|].
  apply orb_false_elim in Ev as [_ Hports%bool_decide_eq_false].
  rewrite bool_decide_eq_true_2 in E by done. cbn [negb] in E.
  match type of E with (let* s := life_negotiateProtocol ?x in _) = _ => set (s1 := x) in E end.
  assert (keeps_object s s1 /\ receivedChunks_ s1 = receivedChunks_ s /\ ports (transferRequest_ s1) = ports (transferRequest_ s)
    /\ protocolVersion (transferRequest_ s1) = protocolVersion (transferRequest_ s) /\ throttler_ s1 = throttler_ s
    /\ buffer_size_ s1 = alignedBufferSize (buffer_size_ s)) as (K1 & R1 & P1 & V1 & T1 & B1) by (unfold s1; by case_bool_decide).
  unfold life_negotiateProtocol in E. destruct (0 <? _); [|done]. cbn [mbind option_bind] in E.
  destruct (FileCreator_make _ _ _ _) as [st|] eqn:Est; [|done]. cbn [mbind option_bind] in E. apply FileCreator_make_tlog in Est.
  match type of E with context [init_log _ _ _ ?x] => set (sA := x) in E end. exists st, sA.
  assert (keeps_object s sA /\ receivedChunks_ sA = receivedChunks_ s /\ ports (transferRequest_ sA) = ports (transferRequest_ s)
    /\ protocolVersion (transferRequest_ sA) = negotiateProtocol (protocolVersion (transferRequest_ s)) protocol_version
    /\ throttler_ sA = throttler_ s /\ buffer_size_ sA = alignedBufferSize (buffer_size_ s)) as (KA & RA & PA & VA & TA & BA)
    by (rewrite <- V1; done).
  assert (store sA = Some st) as SA by done. clearbody sA s1.
  destruct (if enable_download_resumption lo then _ else _) as [[go sB]|] eqn:Elog; [|done]. cbn [mbind option_bind] in E.
  assert (keeps_object sA sB /\ keeps_request sA sB /\ (go = false -> errorCode (transferRequest_ sB) <> OK)
    /\ (go = true -> if enable_download_resumption lo then init_log o env fuel sA = Some (true, sB) else sB = sA)) as (KB & QB & Hgo & HB).
  { destruct (enable_download_resumption lo); [|by simplify_eq]. pose proof (init_log_keeps _ _ _ Elog) as (? & ? & ?).
    split_and!; try done. by intros ->. }
  exists sB. destruct go; cbn [negb] in E; [|simplify_eq; by apply Hgo in Hok].
  destruct (init_encryption o env sB) as [go sC] eqn:Eenc. apply init_encryption_keeps in Eenc as (C1 & C2 & KC & QC & HC).
  destruct go; cbn [negb] in E; [|simplify_eq; by rewrite HC in Hok]. pose proof (init_threads_keeps _ _ E) as (D1 & D2 & KD).
  split_and!; try done; [by apply HB| | | |].
  1: rewrite D1, <- C1. 2: rewrite D2, <- C2. 1, 2: by destruct (max_accept_retries o <=? 0).
  - unfold keeps_object in *. destruct (max_accept_retries o <=? 0); simpl in KD; destruct_and?; split_and!; congruence.
  - eexists. split; [exact E|]. clear E KD. unfold keeps_object, keeps_request in *.
    destruct (max_accept_retries o <=? 0); simpl; destruct_and?; (split_and!; [congruence|done|congruence..|]); exact HC.
Qed.
End init.

(** ** Threads *)

Section threads.
Context {W F : Type} `{ServerSocket W}.
Context (o : LifeOptions) (env : LifeEnv) (mk : Z -> WdtTransferRequest -> option W).
Abbreviation Life := (Life W F).

Lemma registerThread_running i j c c' : registerThread i c = Some c' ->
  getState i c' = Some RUNNING /\ (getState j c = Some RUNNING -> getState j c' = Some RUNNING).
Proof.
  unfold registerThread, getState. destruct (threadStateMap_ c !! i); [|done]. intros [= <-]. simpl.
  split; [by rewrite lookup_insert_eq|]. intros Hj. destruct (decide (i = j)) as [->|]; [by rewrite lookup_insert_eq|by rewrite lookup_insert_ne].
Qed.
Lemma makeThreads_spec ps i c (ts : list (LThread W)) c' : makeThreads ps i c = Some (ts, c') ->
  length ts = length ps /\ (forall j, getState j c = Some RUNNING -> getState j c' = Some RUNNING)
  /\ Forall (fun t => getState (lt_index t) c' = Some RUNNING /\ lt_thread t = false) ts.
Proof.
  revert i c ts c'. induction ps as [|p ps IH]; intros i c ts c' E; cbn [makeThreads] in E; [by simplify_eq|].
  destruct (registerThread i c) as [c1|] eqn:E1; [|done]. cbn [mbind option_bind] in E.
  destruct (makeThreads ps (i + 1) c1) as [[ts1 c2]|] eqn:E2; [|done]. cbn [mbind option_bind] in E. simplify_eq.
  destruct (IH _ _ _ _ E2) as (Hl & Hk & Hf). split_and!; [simpl; by rewrite Hl| |].
  - intros j Hj. apply Hk. by eapply registerThread_running.
  - constructor; [|done]. simpl. split; [|done]. apply Hk. by destruct (registerThread_running i i _ _ E1).
Qed.

(** A thread whose socket listens. *)
Definition listening (t : LThread W) : Prop := exists w0 w, srv_listen w0 = (OK, w) /\ lt_socket t = Some w.
Lemma thread_init_spec r (t : LThread W) code t' : thread_init o mk r t = (code, t') ->
  lt_index t' = lt_index t /\ lt_thread t' = lt_thread t /\ (code = OK -> listening t').
Proof.
  unfold thread_init. destruct (mk _ _) as [w|]; [|intros; by simplify_eq]. destruct (srv_listen _) as [c w'] eqn:E. intros. simplify_eq.
  split_and!; [done|done|]. case_bool_decide; [|done]. subst. intros _. by exists (try_listen (Z.to_nat (listen_retries o)) w), w'.
Qed.
Lemma filter_all {A} (P : A -> Prop) `{!forall x, Decision (P x)} l : length (base.filter P l) = length l -> Forall P l.
Proof.
  induction l as [|x l IH]; [done|]. rewrite filter_cons. case_decide as Hx.
  - intros [= ?]. constructor; auto.
  - intros E. pose proof (length_filter P l). simpl in E. lia.
Qed.
Lemma thread_ports_spec (ts : list (LThread W)) ps : thread_ports ts = Some ps ->
  Forall2 (fun t p => srv_port <$> lt_socket t = Some p) ts ps.
Proof.
  revert ps. induction ts as [|t ts IH]; intros ps E; cbn [thread_ports] in E; [simplify_eq; constructor|].
  destruct (lt_socket t) as [w|] eqn:Ew; [|done]. destruct (thread_ports ts) as [ps1|]; [|done]. cbn [mbind option_bind] in E.
  simplify_eq. constructor; [by rewrite Ew|by apply IH].
Qed.

(** What [init_threads] leaves: threads that are registered and not started and,
    without an error, listen on the ports of the request. *)
Definition registered (s : Life) : Prop :=
  exists c, threadsController_ s = Some c
    /\ Forall (fun t => getState (lt_index t) c = Some RUNNING /\ lt_thread t = false) (receiverThreads_ s).
Lemma init_threads_spec (s s' : Life) : init_threads o env mk s = Some s' ->
  registered s' /\ length (receiverThreads_ s') = length (ports (transferRequest_ s))
  /\ Forall2 (fun t p => srv_port <$> lt_socket t = Some p) (receiverThreads_ s') (ports (transferRequest_ s'))
  /\ (errorCode (transferRequest_ s') = OK -> Forall listening (receiverThreads_ s'))
  /\ encryptionData (transferRequest_ s') = encryptionData (transferRequest_ s)
  /\ protocolVersion (transferRequest_ s') = protocolVersion (transferRequest_ s) /\ buffer_size_ s' = buffer_size_ s
  /\ throttler_ s' = throttler_ s.
Proof.
  unfold init_threads. destruct (makeThreads _ _ _) as [[ts c]|] eqn:Em; [|done]. cbn [mbind option_bind].
  apply makeThreads_spec in Em as (Hl & _ & Hf).
  set (inits := thread_init o mk (transferRequest_ s) <$> ts) in *. set (code := if negb _ then _ else _).
  assert (Forall (fun i => i.1 = OK -> listening i.2) inits) as Hok.
  { unfold inits. apply Forall_fmap, Forall_forall. intros t _. simpl. destruct (thread_init _ _ _ _) as [e t'] eqn:E. by apply thread_init_spec in E as (_ & _ & ?). }
  assert (Forall (fun t => getState (lt_index t) c = Some RUNNING /\ lt_thread t = false) inits.*2) as Hreg.
  { apply Forall_fmap. unfold inits. apply Forall_fmap. eapply Forall_impl; [exact Hf|]. intros t [Ht Hn]. simpl.
    destruct (thread_init _ _ _ _) as [e t'] eqn:E. apply thread_init_spec in E as (E1 & E2 & _). simpl. by rewrite E1, E2. }
  assert (length inits = length (ports (transferRequest_ s))) as Hli by (unfold inits; by rewrite length_fmap).
  assert (code = OK -> Forall listening inits.*2) as Hc.
  { unfold code. destruct (Z.eqb_spec (Zlen (base.filter (fun i => i.1 = OK) inits)) (Zlen (ports (transferRequest_ s)))) as [E|]; cbn [negb];
      [|case_match; done]. intros _. apply Forall_fmap.
    assert (Forall (fun i => i.1 = OK) inits) as Ha by (eapply (filter_all (fun i : ErrorCode * LThread W => i.1 = OK)); lia).
    rewrite Forall_forall in Ha, Hok |- *. intros i Hi. apply Hok; auto. }
  clearbody code. destruct (thread_ports inits.*2) as [ps|] eqn:Ep; [|done]. cbn [mbind option_bind]. apply thread_ports_spec in Ep. simpl hostName.
  assert (length inits.*2 = length (ports (transferRequest_ s))) as Hli2 by (by rewrite length_fmap).
  destruct (bool_decide (hostName (transferRequest_ s) = [])); [destruct (le_hostName env)|]; intros [= <-];
    (split; [exists c; split; [done|exact Hreg]|]); split_and!; done.
Qed.
Lemma startThreads_spec (ts : list (LThread W)) (s : Life) c : threadsController_ s = Some c ->
  Forall (fun t => getState (lt_index t) c = Some RUNNING /\ lt_thread t = false) ts ->
  startThreads ts s = Some ((fun t => t <| lt_thread := true |>) <$> ts).
Proof.
  intros Hc. induction 1 as [|t ts [Ht Hn] _ IH]; [done|]. cbn [startThreads]. unfold startThread. rewrite Hn, Hc. cbn [mbind option_bind negb].
  rewrite Ht. cbn [mbind option_bind]. rewrite bool_decide_eq_true_2 by done. cbn [mbind option_bind]. by rewrite IH.
Qed.
End threads.

(** ** A receiver that is ready *)

Lemma alignedBufferSize_spec b :
  kMaxHeader <= alignedBufferSize b /\ alignedBufferSize b mod kDiskBlockSize = 0
  /\ b <= alignedBufferSize b < Z.max b kMaxHeader + kDiskBlockSize.
Proof.
  unfold alignedBufferSize. set (n := if b <? kMaxHeader then kMaxHeader else b).
  assert (n = Z.max b kMaxHeader) as -> by (unfold n; destruct (Z.ltb_spec b kMaxHeader); lia).
  set (n := Z.max b kMaxHeader). assert (kMaxHeader <= n /\ b <= n /\ 0 < n) as Hn by (unfold n; unfold kMaxHeader, PATH_MAX; lia). clearbody n.
  rewrite Z.rem_mod_nonneg, Z.quot_div_nonneg by (unfold kDiskBlockSize; lia).
  destruct (Z.eqb_spec (n mod kDiskBlockSize) 0) as [E|E]; cbn [negb]; [unfold kDiskBlockSize in *; split_and!; lia|].
  pose proof (Z.div_mod (n + kDiskBlockSize - 1) kDiskBlockSize ltac:(done)).
  pose proof (Z.mod_pos_bound (n + kDiskBlockSize - 1) kDiskBlockSize ltac:(done)).
  rewrite Z.mod_mul by done. unfold kDiskBlockSize in *. lia.
Qed.

Section life.
Context `{Host} {W F : Type} `{ServerSocket W} `{FileSystem F}.
Context (o : LifeOptions) (env : LifeEnv) (mk : Z -> WdtTransferRequest -> option W) (fuel : nat).
Abbreviation Life := (Life W F).
Abbreviation lo := (log_options o).

Lemma transferAsync_ready (s : Life) : registered s -> transferStatus_ s = NOT_STARTED ->
  exists s', transferAsync s = Some s' /\ transferStatus_ s' = ONGOING /\ store s' = store s
    /\ directory (transferRequest_ s') = directory (transferRequest_ s)
    /\ receiverThreads_ s' = (fun t => t <| lt_thread := true |>) <$> receiverThreads_ s.
Proof.
  intros (c & Hc & Hf) Hst. unfold transferAsync, start_setup. simpl transferStatus_. rewrite Hst, bool_decide_eq_true_2 by done.
  simpl throttler_. destruct (throttler_ s) eqn:Et; cbn [negb mbind option_bind];
    unfold configureThrottler; simpl throttler_; rewrite ?Et; cbn [negb mbind option_bind]; unfold start_threads;
    (erewrite startThreads_spec; [|exact Hc|exact Hf]); cbn [mbind option_bind]; eexists; split_and!; done.
Qed.
Lemma init_registered ex f files req b id (s : Life) :
  Receiver_init o env mk fuel ex f files (Receiver_new req b id) = Some s -> errorCode (transferRequest_ s) = OK ->
  registered s /\ transferStatus_ s = NOT_STARTED /\ receiverThreads_ s <> [] /\ directory (transferRequest_ s) = directory req.
Proof.
  intros E Hok. destruct (Receiver_init_inv _ _ _ _ _ _ _ _ _ E Hok) as (st & sA & sB & _ & _ & _ & _ & _ & _ & _ & (_ & Hst & Hd & _) & sD & ED & HP & Hne & _).
  apply init_threads_spec in ED as (Hr & Hl & _). split_and!; [done|by rewrite Hst| |done].
  intros En. rewrite En, HP in Hl. simpl in Hl, Hne. destruct (ports req); [done|discriminate Hl].
Qed.

(** C12: C0. When [init] of a new receiver reports no error, every thread listens on a
    socket and the ports of the request, as many as were asked for, are those of
    the sockets; the request has a key exactly when encryption is on and the
    protocol version supports it; the buffer size is a multiple of the block size
    of disks and holds every header; and the receiver can be started: all its
    threads run. *)
Theorem initialised_receiver_ready ex f files req b id (s : Life) :
  Receiver_init o env mk fuel ex f files (Receiver_new req b id) = Some s -> errorCode (transferRequest_ s) = OK ->
  let r := transferRequest_ s in
  Forall listening (receiverThreads_ s) /\ length (ports r) = length (ports req)
  /\ Forall2 (fun t p => srv_port <$> lt_socket t = Some p) (receiverThreads_ s) (ports r)
  /\ protocolVersion r = negotiateProtocol (protocolVersion req) protocol_version
  /\ isSet (encryptionData r) = negb (bool_decide (parseEncryptionType (encryption_type o) = ENC_NONE))
                                && (ENCRYPTION_V1_VERSION <=? protocolVersion r)
  /\ kMaxHeader <= buffer_size_ s /\ buffer_size_ s mod kDiskBlockSize = 0
  /\ exists s', transferAsync s = Some s' /\ transferStatus_ s' = ONGOING
       /\ Forall (fun t => lt_thread t = true) (receiverThreads_ s').
Proof.
  intros E Hok r. destruct (init_registered _ _ _ _ _ _ _ E Hok) as (Hreg & Hst & _).
  destruct (Receiver_init_inv _ _ _ _ _ _ _ _ _ E Hok) as (st & sA & sB & _ & _ & _ & _ & _ & _ & _ & _ & sD & ED & HP & _ & _ & HV & HB & HE).
  apply init_threads_spec in ED as (_ & Hl & Hp & Hlis & EE & EV & EB & _). specialize (Hlis Hok).
  pose proof (alignedBufferSize_spec b) as (A1 & A2 & _). simpl in HP, HV, HB.
  destruct (transferAsync_ready s Hreg Hst) as (s' & Ea & Hs' & _ & _ & Ht).
  split_and!; [done| |done| | |by rewrite EB, HB|by rewrite EB, HB|].
  - apply Forall2_length in Hp. unfold r. rewrite <- Hp, Hl, HP. done.
  - unfold r. by rewrite EV, HV.
  - unfold r. by rewrite EE, EV, HE.
  - exists s'. split_and!; [done|done|]. rewrite Ht. by apply Forall_fmap, Forall_true.
Qed.
End life.
