(* ===== verification/LifecycleResume.v ===== *)
(** Finishing a receiver and starting again: the report is made once, a receiver
    that runs forever can go on after every transfer, and a transfer that failed
    is resumed. *)
From stdpp Require Import gmap.
From S2P Require Import Prelude Serialization ErrorCodes StateMonad Chunks Protocol ProtocolProps Reporting.
From S2P Require Import LogEntries LogParser LogParserProps LogReplay LogHistory LogManager LogManagerProps.
From S2P Require Import ThreadsController FileSystem FileCreator Socket ReceiverThread Uri Lifecycle LifecycleLog LifecycleProps.

Section finish.
Context `{Host} {W F : Type} `{ServerSocket W} `{FileSystem F}.
Context (o : LifeOptions) (env : LifeEnv).
Abbreviation Life := (Life W F).
Abbreviation lo := (log_options o).

(** ** The report *)

(** States that differ in the store only. *)
Definition same_object (s s' : Life) : Prop :=
  receiverThreads_ s' = receiverThreads_ s /\ transferStatus_ s' = transferStatus_ s /\ transferRequest_ s' = transferRequest_ s.
#[local] Instance same_object_po : PreOrder same_object.
Proof. split; [by intros s|]. intros a b c (? & ? & ?) (? & ? & ?). split_and!; congruence. Qed.
Lemma onManager_same f (s s' : Life) : onManager_ f s = Some s' -> same_object s s'.
Proof.
  unfold onManager_, onManager. destruct (store s) as [st|]; [|done]. cbn [mbind option_bind]. destruct (f (tlog st)); [|done].
  by intros [= <-].
Qed.
Lemma when_same (b : bool) (g : Life -> option Life) (s s' : Life) :
  (forall s s', g s = Some s' -> same_object s s') -> (if b then g s else Some s) = Some s' -> same_object s s'.
Proof. intros Hg. destruct b; [apply Hg|]. by intros [= <-]. Qed.
Lemma fixAndClose_same success (s s' : Life) : fixAndCloseTransferLog o env success s = Some s' -> same_object s s'.
Proof.
  unfold fixAndCloseTransferLog. destruct (negb (enable_download_resumption lo)); [by intros [= <-]|].
  destruct (log_status s) as [status|]; [|done]. cbn [mbind option_bind].
  destruct (if success && _ then _ else _) as [s1|] eqn:E1; [|done]. cbn [mbind option_bind].
  assert (same_object s s1) as SH1.
  { revert E1. apply (when_same _ (fun s => check resume_using_dir_tree lo ;; log_writeHeader o env s)). intros a b. destruct (resume_using_dir_tree lo); [apply onManager_same|done]. }
  destruct (if enable_transfer_log_compaction o && _ && _ && _ && _ then _ else _) as [s2|] eqn:E2; [|done]. cbn [mbind option_bind].
  assert (same_object s1 s2) as SH2 by (revert E2; apply (when_same _ (log_compact o env)); intros ? ?; apply onManager_same).
  destruct (log_closeLog o env s2) as [s3|] eqn:E3; [|done]. cbn [mbind option_bind]. apply onManager_same in E3.
  assert (same_object s s3) as SH3 by (etransitivity; [exact SH1|]; etransitivity; [exact SH2|exact E3]).
  destruct (negb success); [by intros [= <-]|]. destruct (if bool_decide _ then _ else _) as [s4|] eqn:E4; [|done]. cbn [mbind option_bind].
  assert (same_object s3 s4) as SH4 by (revert E4; apply (when_same _ (log_renameBuggy env)); intros ? ?; apply onManager_same).
  intros E5. etransitivity; [exact SH3|]. etransitivity; [exact SH4|].
  revert E5. apply (when_same _ (log_unlink env)). intros ? ?. apply onManager_same.
Qed.

(** C0. Finishing a receiver makes its report once: calling [finish] again, from
    whatever state the first call left, returns the same report and changes
    nothing; and the report of a receiver that was not started is an error. *)
Theorem finish_once run run' (s s' : Life) report :
  Receiver_finish o env run s = Some (report, s') ->
  Receiver_finish o env run' s' = Some (report, s')
  /\ (transferStatus_ s = NOT_STARTED -> s' = s /\ getErrorCode (summary_ report) <> OK)
  /\ (transferStatus_ s <> NOT_STARTED -> transferStatus_ s' = THREADS_JOINED).
Proof.
  assert (forall s1 s2 : Life, same_object s1 s2 -> getTransferReport s2 = getTransferReport s1) as Hrep.
  { intros s1 s2 (Ht & Hst & _). unfold getTransferReport. by rewrite Ht, Hst. }
  assert (forall s : Life, transferStatus_ s = NOT_STARTED -> getErrorCode (summary_ (getTransferReport s)) <> OK) as Herr.
  { intros s1 Hs1. unfold getTransferReport. rewrite Hs1, bool_decide_eq_true_2 by done. cbn [andb]. case_bool_decide as E; [|done].
    unfold Reporting.setErrorCode. simpl. unfold getErrorCode, setLocalErrorCode. simpl. intros [? _]%getMoreInterestingError_OK. done. }
  unfold Receiver_finish at 1. destruct (transferStatus_ s) eqn:Est.
  - intros [= <- <-]. unfold Receiver_finish. rewrite Est. split_and!; try done. intros _. split; [done|]. by apply Herr.
  - destruct (fixAndCloseTransferLog _ _ _ _) as [s2|] eqn:E; [|done]. cbn [mbind option_bind]. intros [= <- <-].
    apply fixAndClose_same in E as Hsame. pose proof Hsame as (_ & Hst & _). simpl in Hst. unfold Receiver_finish. rewrite Hst.
    rewrite (Hrep _ _ Hsame). done.
  - destruct (fixAndCloseTransferLog _ _ _ _) as [s2|] eqn:E; [|done]. cbn [mbind option_bind]. intros [= <- <-].
    apply fixAndClose_same in E as Hsame. pose proof Hsame as (_ & Hst & _). simpl in Hst. unfold Receiver_finish. rewrite Hst.
    rewrite (Hrep _ _ Hsame). done.
  - intros [= <- <-]. unfold Receiver_finish. rewrite Est. done.
Qed.

(** ** Running forever *)

(** What the threads of one transfer leave alone. *)
Definition keeps_threads (run : Life -> Life) : Prop := forall s c, threadsController_ s = Some c ->
  lt_index <$> receiverThreads_ (run s) = lt_index <$> receiverThreads_ s
  /\ exists c', threadsController_ (run s) = Some c' /\ forall i, is_Some (getState i c) -> is_Some (getState i c').

Lemma long_round_ok run (s : Life) : keeps_threads run -> registered s -> exists s', long_round run s = Some s' /\ registered s'
  /\ transferStatus_ s' = NOT_STARTED /\ Forall (fun t => exists st, lt_stats t = Reporting.reset st) (receiverThreads_ s')
  /\ lt_index <$> receiverThreads_ s' = lt_index <$> receiverThreads_ s.
Proof.
  intros Hrun (c & Hc & Hf). unfold long_round, start_threads. erewrite startThreads_spec; [|exact Hc|exact Hf]. cbn [mbind option_bind].
  set (s1 := s <| receiverThreads_ := (fun t : LThread W => t <| lt_thread := true |>) <$> receiverThreads_ s |>).
  assert (threadsController_ s1 = Some c) as Hc1 by done.
  assert (lt_index <$> receiverThreads_ s1 = lt_index <$> receiverThreads_ s) as Hi1 by (unfold s1; simpl; by rewrite <- list_fmap_compose).
  assert (exists s2 c2, joinThreads run s1 = s2 /\ threadsController_ s2 = Some c2 /\ (forall i, is_Some (getState i c) -> is_Some (getState i c2))
    /\ lt_index <$> receiverThreads_ s2 = lt_index <$> receiverThreads_ s1 /\ Forall (fun t => lt_thread t = false) (receiverThreads_ s2))
    as (s2 & c2 & Ej & Hc2 & Hdom & Hi2 & Hth).
  { unfold joinThreads. destruct (existsb lt_thread (receiverThreads_ s1)).
    - destruct (Hrun s1 c Hc1) as (Hi & c' & Hc' & Hd). eexists _, c'. split; [reflexivity|]. simpl.
      split_and!; [done|done|by rewrite <- list_fmap_compose|by apply Forall_fmap, Forall_true].
    - eexists _, c. split; [reflexivity|]. simpl. split_and!; [done|done|by rewrite <- list_fmap_compose|by apply Forall_fmap, Forall_true]. }
  rewrite Ej. simpl. rewrite Hc2. cbn [mbind option_bind]. eexists. split; [reflexivity|]. split_and!.
  - exists (controller_reset c2). split; [done|]. simpl. apply Forall_fmap. rewrite Forall_forall in Hth, Hf |- *. intros t Ht. simpl.
    split; [|by apply Hth]. unfold getState. simpl. rewrite lookup_fmap.
    assert (is_Some (getState (lt_index t) c2)) as [st Hst].
    { apply Hdom. assert (lt_index t ∈ lt_index <$> receiverThreads_ s) as Hin by (rewrite <- Hi1, <- Hi2; by apply list_elem_of_fmap_2).
      apply list_elem_of_fmap in Hin as (t' & -> & Ht'). destruct (Hf t' Ht') as [-> _]. by eexists. }
    unfold getState in Hst. by rewrite Hst.
  - done.
  - simpl. apply Forall_fmap, Forall_true. intros t. simpl. by eexists.
  - simpl. rewrite <- list_fmap_compose. change (fun x => lt_index (reset_thread x)) with (lt_index (W := W)).
    transitivity (lt_index <$> receiverThreads_ s2); [done|]. by rewrite Hi2, Hi1.
Qed.

(** C34: C0. A receiver that runs forever passes its checks for any number of
    transfers, whatever they do to its other members: after each one its threads
    are registered to run again and their statistics have been reset. *)
Theorem runs_forever runs (s : Life) :
  enable_download_resumption lo = false -> registered s -> transferStatus_ s = NOT_STARTED -> Forall keeps_threads runs ->
  exists s', runForever o runs s = Some s' /\ registered s' /\ lt_index <$> receiverThreads_ s' = lt_index <$> receiverThreads_ s
    /\ (runs <> [] -> transferStatus_ s' = NOT_STARTED
          /\ Forall (fun t => exists st, lt_stats t = Reporting.reset st) (receiverThreads_ s')).
Proof.
  intros Hr Hreg Hst Hruns. unfold runForever, start_setup. rewrite Hr, Hst, bool_decide_eq_true_2 by done. cbn [negb].
  assert (exists s1, (if negb (throttler_ s) then configureThrottler s else Some s) = Some s1 /\ registered s1
    /\ receiverThreads_ s1 = receiverThreads_ s) as (s1 & -> & Hreg1 & Ht1).
  { unfold configureThrottler. destruct (throttler_ s); cbn [negb]; by eexists. }
  cbn [mbind option_bind]. rewrite <- Ht1. assert (registered (setTransferStatus ONGOING s1)) as Hreg2 by exact Hreg1.
  change (receiverThreads_ s1) with (receiverThreads_ (setTransferStatus ONGOING s1)). generalize dependent (setTransferStatus ONGOING s1).
  clear Hreg Hst Hreg1 Ht1. induction Hruns as [|run runs Hrun Hruns IH]; intros s2 Hs2; [exists s2; done|]. cbn [long_rounds].
  destruct (long_round_ok run s2 Hrun Hs2) as (s3 & -> & Hs3 & Hst3 & Hres & Hi3). cbn [mbind option_bind].
  destruct (IH s3 Hs3) as (s4 & E4 & Hs4 & Hi4 & Hlast). exists s4. split_and!; [done|done|by rewrite Hi4|].
  intros _. destruct runs as [|r runs]; [cbn [long_rounds] in E4; by simplify_eq|]. by apply Hlast.
Qed.
End finish.

(** ** Resuming *)

Section resume.
Context `{Host} {W F : Type} `{ServerSocket W} `{FileSystem F}.
Context (o : LifeOptions) (fuel : nat).
Abbreviation Life := (Life W F).
Abbreviation lo := (log_options o).
Hypothesis Hresume : enable_download_resumption lo = true.
Hypothesis Hlog : resume_using_dir_tree lo = false.

(** A system on which no call on the log fails. *)
Definition sound_env (env : LifeEnv) : Prop :=
  (forall n, le_fault env n = NoFault) /\ (forall n, nonneg64 (le_now env n)) /\ (forall n, le_sameInode env n = true).

Lemma root_nonempty dir : normalizeRootDir dir <> [].
Proof. unfold normalizeRootDir. case_bool_decide as E; [by intros ->|]. by destruct dir. Qed.
Lemma config_nonneg : nonneg64 (getTransferConfig o).
Proof. unfold getTransferConfig. rewrite Hlog. case_match; done. Qed.

(** The log through [init_log]. *)
Lemma init_log_spec env mk ex f files req b id (s : Life) :
  Receiver_init o env mk fuel ex f files (Receiver_new req b id) = Some s -> errorCode (transferRequest_ s) = OK ->
  forall m1 chunks m2,
  openLog lo (normalizeRootDir (directory req)) (le_fault env) (le_sameInode env) (Manager_init ex f (le_status env) (le_config env)) = Some (OK, m1) ->
  parseAndMatch lo (le_stat env) (normalizeRootDir (directory req)) (le_fault env) (le_now env) (le_sameInode env) id (getTransferConfig o) [] m1
    = Some (OK, chunks, m2) ->
  (exists st, store s = Some st /\ tlog st = m2) /\ receivedChunks_ s = chunks.
Proof.
  intros E Hok m1 chunks m2 E1 E2.
  destruct (Receiver_init_inv _ _ _ _ _ _ _ _ _ E Hok) as (st & sA & sB & Htl & Hst & Hch & (Hid & _ & Hdir & _) & HB & SB & CB & _ & _).
  rewrite Hresume in HB. unfold init_log, log_openLog, onManager, rootOf in HB. rewrite Hdir, Hst in HB. simpl in Hid, Hch, Hdir.
  destruct (negb (skip_writes o)); [|done]. destruct (negb _ || _); [|done]. cbn [mbind option_bind] in HB.
  change (directory (transferRequest_ (Receiver_new req b id))) with (directory req) in HB. rewrite Htl, E1 in HB.
  cbn [mbind option_bind] in HB. rewrite bool_decide_eq_true_2 in HB by done. cbn [negb] in HB. simpl in HB.
  rewrite Hid, Hch, Hdir, E2 in HB. cbn [mbind option_bind fst snd] in HB. rewrite Hlog, andb_false_r in HB. simplify_eq.
  rewrite SB, CB. simpl. split; [|done]. by eexists.
Qed.

(** The threads of a started receiver, in a session of which [es] is logged. *)
Definition runs_session (env : LifeEnv) (root ip : list Z) (es : list LogEntry) (run : Life -> Life) (s : Life) : Prop :=
  directory (transferRequest_ (run s)) = directory (transferRequest_ s)
  /\ (transferStatus_ (run s) = ONGOING \/ transferStatus_ (run s) = FINISHED)
  /\ exists st st', store s = Some st /\ store (run s) = Some st'
       /\ session_log lo root (le_fault env) (le_now env) (le_sameInode env) ip es (tlog st) (tlog st').
(** The report that [finish] makes. *)
Definition final_report (run : Life -> Life) (s : Life) : TransferReport :=
  getTransferReport (setTransferStatus THREADS_JOINED (joinThreads run s)).

(** The first receiver: it can be finished, and the log is closed with the header
    and everything that was logged. *)
Lemma failed_transfer_logged env mk f files req b id ip es run (s s2 : Life) :
  sound_env env -> Zlen id + Zlen ip <= PATH_MAX -> Forall wf_entry es ->
  Receiver_init o env mk fuel false f files (Receiver_new req b id) = Some s -> errorCode (transferRequest_ s) = OK ->
  transferAsync s = Some s2 -> runs_session env (normalizeRootDir (directory req)) ip es run s2 ->
  getErrorCode (summary_ (final_report run s2)) <> OK ->
  exists s3 st hd, Receiver_finish o env run s2 = Some (final_report run s2, s3) /\ store s3 = Some st
    /\ destroy (tlog st) = Some tt /\ logExists (tlog st) = true
    /\ header_of id ip (getTransferConfig o) hd /\ wf_entry (EHeader hd)
    /\ content (logFile (tlog st)) = log_bytes (EHeader hd :: es).
Proof.
  intros (Hnf & Hnow & Hin) Hl Hwf Ei Hok Ea (Hrd & Hrs & st & st' & Hst & Hst' & Hses) Herr.
  pose proof (root_nonempty (directory req)) as Hroot.
  destruct (init_registered _ _ _ _ _ _ _ _ _ _ _ Ei Hok) as (Hreg & Hns & Hne & Hdir).
  destruct (transferAsync_ready s Hreg Hns) as (s2' & Ea' & Hon & Hstore & Hdir2 & Hth). rewrite Ea in Ea'. apply (inj Some) in Ea'. subst s2'.
  destruct (open_new lo _ _ (le_sameInode env) Hnf Hroot Hresume f (le_status env) (le_config env)) as (k & Eo).
  destruct (match_empty lo (le_stat env) (normalizeRootDir (directory req)) _ (le_now env) (le_sameInode env) Hnf id (getTransferConfig o)
    (le_status env) (le_config env) k) as (k' & Ep).
  destruct (init_log_spec env mk false f files req b id s Ei Hok _ _ _ Eo Ep) as [(st0 & Hst0 & Htl) _].
  assert (st0 = st) as -> by congruence. rewrite Htl in Hses.
  destruct (session_spec lo _ _ _ _ Hnf Hnow Hlog id ip (getTransferConfig o) k' es (tlog st') config_nonneg Hl Hwf Hses)
    as (hd & m3 & Hhd & Hwfh & Hstd & Hms & Hfd & Hex & Hstat).
  destruct (close_session lo _ _ _ _ Hnf Hnow Hin Hroot Hlog (log_bytes [EHeader hd]) es m3 (tlog st') Hstd Hwf Hms Hfd Hex) as (m & Em & Hm & Hmex & Hmc).
  unfold Receiver_finish. rewrite Hon. fold (final_report run s2). rewrite bool_decide_eq_false_2 by done.
  unfold fixAndCloseTransferLog. rewrite Hresume. cbn [negb].
  assert (existsb lt_thread (receiverThreads_ s2) = true) as Hex2.
  { rewrite Hth. destruct (receiverThreads_ s); [done|]. done. }
  assert (forall s, store (setTransferStatus THREADS_JOINED (joinThreads run s2)) = s -> s = Some st') as Hj.
  { intros ? <-. unfold joinThreads. by rewrite Hex2. }
  unfold log_status. rewrite (Hj _ eq_refl). cbn [fmap option_fmap option_map mbind option_bind andb]. rewrite andb_false_r. cbn [andb].
  unfold log_closeLog, onManager_, onManager, rootOf. rewrite (Hj _ eq_refl). cbn [mbind option_bind].
  assert (directory (transferRequest_ (setTransferStatus THREADS_JOINED (joinThreads run s2))) = directory req) as ->.
  { unfold joinThreads. rewrite Hex2. simpl. by rewrite Hrd, Hdir2, Hdir. }
  rewrite Em. cbn [mbind option_bind]. eexists _, _, hd. split; [reflexivity|]. split; [reflexivity|]. cbn [tlog]. simpl tlog.
  unfold destroy. rewrite Hm. split_and!; try done. rewrite Hmc. by rewrite <- (log_bytes_app [EHeader hd] es).
Qed.

(** C11: C0. A transfer that fails is resumed.  A receiver with log-based resumption on
    a directory without a log is initialised and started, its threads log [es] in a
    session with a sender at [ip], and the transfer fails.  Then [finish] returns,
    the log is closed, so the receiver can be destroyed, and the next receiver on
    the directory, with the same recovery id and options, is initialised with
    exactly the files that were created and, of each one, exactly the bytes of the
    blocks that were logged. *)
Theorem transfer_resumes env mk f files req b id ip es run (s s2 : Life) :
  sound_env env -> ip <> [] -> Zlen id + Zlen ip <= PATH_MAX -> Forall wf_entry es ->
  Receiver_init o env mk fuel false f files (Receiver_new req b id) = Some s -> errorCode (transferRequest_ s) = OK ->
  transferAsync s = Some s2 -> runs_session env (normalizeRootDir (directory req)) ip es run s2 ->
  getErrorCode (summary_ (final_report run s2)) <> OK ->
  exists s3 st, Receiver_finish o env run s2 = Some (final_report run s2, s3) /\ store s3 = Some st /\ destroy (tlog st) = Some tt
    /\ forall env' mk' files' req' b' (s' : Life),
         sound_env env' -> directory req' = directory req -> valid_history (le_stat env') (normalizeRootDir (directory req)) ∅ es ->
         Receiver_init o env' mk' fuel (logExists (tlog st)) (logFile (tlog st)) files' (Receiver_new req' b' id) = Some s' ->
         errorCode (transferRequest_ s') = OK ->
         (forall c, ECreation c ∈ es -> exists f, f ∈ receivedChunks_ s' /\ seqId_ f = fc_seqId c)
         /\ (forall f, f ∈ receivedChunks_ s' -> exists c, ECreation c ∈ es /\ seqId_ f = fc_seqId c /\ fileName_ f = fc_fileName c
              /\ forall x, covers (chunks_ f) x <->
                   exists b, EBlock b ∈ es /\ bw_seqId b = seqId_ f /\ bw_offset b <= x < bw_offset b + bw_blockSize b).
Proof.
  intros Hs Hip Hl Hwf Ei Hok Ea Hrun Herr.
  destruct (failed_transfer_logged env mk f files req b id ip es run s s2 Hs Hl Hwf Ei Hok Ea Hrun Herr)
    as (s3 & st & hd & E & Hst & Hd & Hex & (_ & Hid & Hhip & Hc & _) & Hwfh & Hcont).
  exists s3, st. split_and!; [done..|]. intros env' mk' files' req' b' s' (Hnf & Hnow & Hin) Hdir Hv Ei' Hok'. rewrite Hex in Ei'.
  pose proof (root_nonempty (directory req')) as Hroot.
  destruct (open_existing lo _ _ (le_sameInode env') Hnf Hroot Hresume (logFile (tlog st)) (le_status env') (le_config env')) as (k & Eo).
  rewrite Hcont, <- (app_nil_r (log_bytes _)) in Eo. rewrite <- Hdir in Hv.
  destruct (match_history lo (le_stat env') (normalizeRootDir (directory req')) _ _ (le_sameInode env') Hnf Hnow Hlog hd es [] (le_status env') (le_config env') k
    Hwfh ltac:(by rewrite Hhip) Hwf Hv ltac:(by left)) as (chunks & k' & Ep & H1' & H2').
  rewrite Hid, Hc in Ep. destruct (init_log_spec env' mk' true _ files' req' b' id s' Ei' Hok' _ _ _ Eo Ep) as [_ ->].
  split; [done|]. intros g Hg. destruct (H2' g Hg) as (c & sz & ? & ? & ? & _ & _ & Hx). by exists c.
Qed.
End resume.
