(* ===== verification/LifecycleExamples.v ===== *)
(** Examples of the life of a receiver, and what they show of its code. *)
From stdpp Require Import gmap.
From S2P Require Import Prelude Serialization ErrorCodes StateMonad Chunks Protocol ProtocolProps Reporting.
From S2P Require Import LogEntries LogParser LogParserProps LogReplay LogHistory LogManager LogManagerProps.
From S2P Require Import ThreadsController FileSystem FileCreator SourceQueue Socket ReceiverThread Uri UriExamples Encryption.
From S2P Require Import Transfer Lifecycle LifecycleLog LifecycleProps LifecycleResume.

(** A socket that is its port; port 9 cannot be bound. *)
#[local] Instance ex_port : ServerSocket Z := {
  srv_listen w := (if w =? 9 then CONN_ERROR else OK, w);
  srv_acceptNextConnection _ _ w := (OK, w);
  srv_closeNoCheck w := w;
  srv_closeAllNoCheck w := w;
  srv_closeConnection w := (OK, w);
  srv_getNonRetryableErrCode _ := OK;
  srv_expectEndOfStream w := (OK, w);
  srv_tagVerified w := (false, w);
  srv_tagLen _ := 0;
  srv_encryptionType _ := 0;
  srv_peerIp _ := [49];
  srv_port w := w;
  srv_disableIvChange w := w
}.
#[local] Existing Instance littleHost.
Definition ex_life_env : LifeEnv :=
  mkLifeEnv ex_stat (fun _ => NoFault) ex_now (fun _ => true) ex_env [49; 50] (Some (replicate 16 7)) (Some [104]) ERROR 0.
Definition ex_life_options (log : LogOptions) : LifeOptions := mkLifeOptions log false (txt "aes128gcm") 1 5 3 true false.
Definition ex_request (ps : list Z) : WdtTransferRequest :=
  WdtTransferRequest_default <| directory := [47; 114] |> <| ports := ps |>.
Definition ex_socket (p : Z) (r : WdtTransferRequest) : option Z := Some p.
Definition ex_mem : Mem := mkMem ∅ ∅ 3.
Definition ex_no_log : LogFile := mkLogFile [] 0 0.
Definition ex_init (log : LogOptions) (ex : bool) (f : LogFile) (ps : list Z) (id : list Z) : option (Life Z Mem) :=
  Receiver_init (ex_life_options log) ex_life_env ex_socket 10 ex f ex_mem (Receiver_new (ex_request ps) 5000 id).
Definition ex_ready : Life Z Mem := Eval vm_compute in default (Receiver_new (ex_request []) 0 []) (ex_init ex_options false ex_no_log [5; 6] [114]).
Lemma ex_ready_init : ex_init ex_options false ex_no_log [5; 6] [114] = Some ex_ready.
Proof. vm_compute. reflexivity. Qed.

Lemma initialised_receiver_ready_witness :
  errorCode (transferRequest_ ex_ready) = OK /\ ports (transferRequest_ ex_ready) = [5; 6]
  /\ exists s', transferAsync ex_ready = Some s' /\ transferStatus_ s' = ONGOING.
Proof.
  destruct (initialised_receiver_ready (ex_life_options ex_options) ex_life_env ex_socket 10 false ex_no_log ex_mem (ex_request [5; 6]) 5000 [114] ex_ready
    ex_ready_init eq_refl) as (_ & _ & _ & _ & _ & _ & _ & s' & E & Hs & _).
  split_and!; [reflexivity|reflexivity|]. exists s'. split; [exact E|exact Hs].
Defined.

(** A session that logs half of a file, and threads that end with an error. *)
Definition ex_session_log (m : Manager) : option Manager :=
  let root := [47; 114; 47] in
  let* (_, m) := LogManager.startThread ex_options m in
  let* (_, m) := verifySenderIp ex_options root (fun _ => NoFault) ex_now (fun _ => true) [49] m in
  let* m := writeLogHeader ex_options root (fun _ => NoFault) ex_now (fun _ => true) m in
  let* m := run_add ex_now (AddFileCreation [97] 3 100) m in
  run_add ex_now (AddBlockWrite 3 0 50) m.
Definition ex_run (s : Life Z Mem) : Life Z Mem :=
  match store s with
  | Some st => match ex_session_log (tlog st) with
               | Some m => s <| store := Some (st <| tlog := m |>) |> <| transferStatus_ := FINISHED |>
               | None => s
               end
  | None => s
  end.
Definition ex_started : Life Z Mem := Eval vm_compute in default ex_ready (transferAsync ex_ready).
Lemma ex_started_eq : transferAsync ex_ready = Some ex_started.
Proof. vm_compute. reflexivity. Qed.
Definition ex_ran : Life Z Mem := Eval vm_compute in ex_run ex_started.
Lemma ex_ran_eq : ex_run ex_started = ex_ran.
Proof. vm_compute. reflexivity. Qed.
Lemma ex_runs_session :
  runs_session (ex_life_options ex_options) ex_life_env [47; 114; 47] [49] ex_added ex_run ex_started.
Proof.
  unfold runs_session. rewrite ex_ran_eq. split; [reflexivity|]. split; [by right|].
  eexists _, _. split; [reflexivity|]. split; [reflexivity|]. eexists _, _, _.
  split; [vm_compute; reflexivity|]. split; [vm_compute; reflexivity|]. split; [vm_compute; reflexivity|].
  change ex_added with (([] ++ [ECreation (mkFileCreation 9 [97] 3 100)]) ++ [EBlock (mkBlockWrite 9 3 0 50)]).
  eapply msteps_step; [eapply msteps_step; [apply msteps_refl|]|].
  - eapply (step_add _ ex_now _ (AddFileCreation [97] 3 100)). vm_compute. reflexivity.
  - eapply (step_add _ ex_now _ (AddBlockWrite 3 0 50)). vm_compute. reflexivity.
Qed.
Lemma ex_sound : sound_env ex_life_env.
Proof. split_and!; [done|exact ex_now_nonneg|done]. Qed.
Lemma ex_added_valid_r : valid_history ex_stat [47; 114; 47] ∅ ex_added.
Proof.
  split; [split; [done|exists 100; split; [done|eval_side]]|]. split; [|done].
  exists (mkFileChunksInfo 3 [97] 100 []). split; [done|]. split; eval_side.
Qed.
Definition ex_finished : option (Life Z Mem) :=
  snd <$> Receiver_finish (ex_life_options ex_options) ex_life_env ex_run ex_started.
Lemma ex_started_failed : getErrorCode (summary_ (final_report ex_run ex_started)) <> OK.
Proof. by vm_compute. Qed.

Lemma transfer_resumes_witness : exists s3 st,
  Receiver_finish (ex_life_options ex_options) ex_life_env ex_run ex_started = Some (final_report ex_run ex_started, s3)
  /\ store s3 = Some st /\ destroy (tlog st) = Some tt
  /\ forall s', ex_init ex_options (logExists (tlog st)) (logFile (tlog st)) [7] [114] = Some s' -> errorCode (transferRequest_ s') = OK ->
       exists f, f ∈ receivedChunks_ s' /\ seqId_ f = 3.
Proof.
  destruct (transfer_resumes (ex_life_options ex_options) 10 eq_refl eq_refl ex_life_env ex_socket ex_no_log ex_mem (ex_request [5; 6]) 5000 [114] [49]
    ex_added ex_run ex_ready ex_started ex_sound ltac:(done) ltac:(vm_compute; discriminate) ex_added_wf ex_ready_init eq_refl ex_started_eq ex_runs_session
    ex_started_failed) as (s3 & st & E & Hst & Hd & Hnext).
  exists s3, st. split; [exact E|]. split; [exact Hst|]. split; [exact Hd|]. intros s' Ei Hok.
  destruct (Hnext ex_life_env ex_socket ex_mem (ex_request [7]) 5000 s' ex_sound eq_refl ex_added_valid_r Ei Hok) as [Hc _].
  destruct (Hc (mkFileCreation 9 [97] 3 100) ltac:(by left)) as (f & Hf & Hs). exists f. split; [exact Hf|exact Hs].
Defined.
(** The second receiver has the chunk of the file. *)
Example second_receiver :
  match ex_finished with
  | Some s => match store s with
              | Some st => receivedChunks_ <$> ex_init ex_options (logExists (tlog st)) (logFile (tlog st)) [7] [114]
              | None => None
              end
  | None => None
  end = Some [mkFileChunksInfo 3 [97] 100 [mkInterval 0 50]].
Proof. vm_compute. reflexivity. Qed.

Lemma finish_once_witness : exists r s',
  Receiver_finish (ex_life_options ex_options) ex_life_env ex_run ex_started = Some (r, s')
  /\ Receiver_finish (ex_life_options ex_options) ex_life_env ex_run s' = Some (r, s').
Proof.
  destruct (Receiver_finish (ex_life_options ex_options) ex_life_env ex_run ex_started) as [[r s']|] eqn:E; [|vm_compute in E; discriminate E].
  exists r, s'. split; [reflexivity|]. exact (proj1 (finish_once _ _ _ ex_run _ _ _ E)).
Defined.

Definition ex_daemon_log : LogOptions := mkLogOptions true false false false false 100.
Definition ex_daemon : Life Z Mem := Eval vm_compute in default ex_ready (ex_init ex_daemon_log false ex_no_log [5; 6] []).
Lemma ex_daemon_registered : registered ex_daemon.
Proof. eexists. split; [reflexivity|]. repeat constructor. Qed.
Lemma runs_forever_witness : exists s',
  runForever (ex_life_options ex_daemon_log) [fun s => s; fun s => s] ex_daemon = Some s' /\ transferStatus_ s' = NOT_STARTED.
Proof.
  destruct (runs_forever (ex_life_options ex_daemon_log) [fun s => s; fun s => s] ex_daemon eq_refl ex_daemon_registered eq_refl) as (s' & E & _ & _ & Hs).
  { repeat constructor; try done; eauto. }
  exists s'. split; [exact E|]. exact (proj1 (Hs ltac:(done))).
Defined.

(** ** What goes wrong *)

(** When no port can be bound, [init] reports an error but leaves the log open, and
    the destructor of a receiver that was not started does not close it: its
    check fails. *)
Example unstarted_receiver_aborts :
  match ex_init ex_options false ex_no_log [9] [114] with
  | Some s => errorCode (transferRequest_ s) = ERROR /\ Receiver_destroy (ex_life_options ex_options) ex_life_env (fun s => s) s = None
  | None => False
  end.
Proof. vm_compute. done. Qed.

(** A URL with protocol version 0 stops the process of the sender; an unsupported
    version is negotiated to 0 and accepted. *)
Definition ex_sender (version : Z) : Life Z Mem :=
  Receiver_new (ex_request [5] <| hostName := [104] |> <| protocolVersion := version |>) 0 [].
Example version_zero_aborts : sender_init (ex_sender 0) = None.
Proof. reflexivity. Qed.
Example unsupported_version_accepted :
  (fun s => (errorCode (transferRequest_ s), protocolVersion (transferRequest_ s))) <$> sender_init (ex_sender 5) = Some (OK, 0).
Proof. vm_compute. reflexivity. Qed.

(** While a receiver runs forever, from its second transfer on its status says
    that it has not started: [finish] returns at once. *)
Example daemon_looks_unstarted :
  match runForever (ex_life_options ex_daemon_log) [fun s => s] ex_daemon with
  | Some s => match start_threads s with
              | Some s => hasStarted s = false /\ existsb lt_thread (receiverThreads_ s) = true
                  /\ match Receiver_finish (ex_life_options ex_daemon_log) ex_life_env (fun s => s) s with
                     | Some (_, s') => existsb lt_thread (receiverThreads_ s') = true
                     | None => False
                     end
              | None => False
              end
  | None => False
  end.
Proof. vm_compute. done. Qed.

(** A log of another recovery id makes the directory inconsistent.  The writer is
    not started, because the status is read before the header resets it, so
    nothing of the session is written when the log is closed. *)
Definition ex_old_log : LogFile := mkLogFile (log_bytes [EHeader (mkLogHeader 5 WLOG_VERSION [120] [49] 1)]) 0 0.
Definition ex_after (s : Life Z Mem) : option (list Z * list (list Z)) :=
  match store s with
  | Some st =>
      let* m := ex_session_log (tlog st) in
      let* m := closeLog ex_options [47; 114; 47] (fun _ => NoFault) (fun _ => true) m in
      Some (content (logFile m), entries_ m)
  | None => None
  end.
Example inconsistent_log_not_written :
  match ex_init ex_options true ex_old_log [5] [114] with
  | Some s => ex_after s = Some (log_bytes [EHeader (mkLogHeader 5 WLOG_VERSION [120] [49] 1); EDirInvalidation 9; EHeader (mkLogHeader 9 WLOG_VERSION [114] [49] 1)],
      [entry_bytes (ECreation (mkFileCreation 9 [97] 3 100)); entry_bytes (EBlock (mkBlockWrite 9 3 0 50))])
  | None => False
  end.
Proof. vm_compute. reflexivity. Qed.

(** When such a transfer has no block and the sender does not ask for chunks, the
    header is not written; if it succeeds, the check in [fixAndCloseTransferLog]
    fails. *)
Example empty_transfer_aborts :
  match ex_init ex_options true ex_old_log [5] [114] with
  | Some s => fixAndCloseTransferLog (ex_life_options ex_options) ex_life_env true s = None
  | None => False
  end.
Proof. vm_compute. reflexivity. Qed.
