(* ===== verification/Connections.v ===== *)
(** Establishing connections: [listen], [acceptNextConnection] and
    [closeAllNoCheck] of [util/ServerSocket.cpp] and [connect] of
    [util/ClientSocket.cpp].

    The system calls are those of the class [Net]; its laws say which
    descriptors are open.  The options of sockets that are only tuned (buffer
    sizes, timeouts, reuse of addresses) and the names of hosts are left out.  A
    connection is closed here with its descriptor; what [closeConnection] does
    with the encryption is in [WdtSocket].  [None] is a failed check, or a loop
    that has not ended within [rounds] rounds. *)
From stdpp Require Import gmap.
From S2P Require Import Prelude ErrorCodes.

(** ** The system *)

(** An element of the list of [getaddrinfo]. *)
Record AddrInfo := mkAddrInfo { ai_family : Z; ai_addr : list Z; ai_port : Z }.
Definition AF_UNSPEC : Z := 0.
Definition AF_INET : Z := 2.
Definition AF_INET6 : Z := 10.

(** Of [connect]: success, [EINPROGRESS], another error. *)
Inductive ConnectResult := Connected | InProgress | ConnectFailed.
(** Of [poll]: the descriptors with [POLLIN] or [POLLOUT]; a timeout or [EINTR];
    another error. *)
Inductive PollResult := Ready (events : list bool) | Again | PollFailed.

Class Net (N : Type) := {
  (** [None] is an error; the hints are the family, 0 for any. *)
  net_getaddrinfo : list Z -> Z -> Z -> N -> option (list AddrInfo) * N;
  (** The port as a number, or an error. *)
  net_getnameinfo : AddrInfo -> N -> option Z;
  net_socket : AddrInfo -> N -> Z * N;
  net_bind : Z -> AddrInfo -> N -> bool * N;
  net_listen : Z -> N -> bool * N;
  net_getsockname : Z -> N -> option Z * N;
  net_close : Z -> N -> N;
  net_accept : Z -> N -> Z * N;
  (** Whether the mode was changed. *)
  net_setNonBlocking : Z -> bool -> N -> bool * N;
  net_connect : Z -> AddrInfo -> N -> ConnectResult * N;
  (** [SO_ERROR], or an error. *)
  net_so_error : Z -> N -> option Z * N;
  net_poll : list Z -> Z -> N -> PollResult * N;
  net_clock : N -> Z * N;
  net_shouldAbort : N -> bool * N
}.

Record NetOptions := mkNetOptions {
  no_ipv6 : bool;
  no_ipv4 : bool;
  no_static_ports : bool;
  no_abort_check_interval_millis : Z;
  no_connect_timeout_millis : Z
}.
(** The family of the hints; IPv4 takes precedence. *)
Definition hints (o : NetOptions) : Z := if no_ipv4 o then AF_INET else if no_ipv6 o then AF_INET6 else AF_UNSPEC.

(** The members of [ServerSocket] and [ClientSocket]: the port and the descriptor
    of the [WdtSocket], the sockets that listen, the one polled last, and for a
    client the destination and the family. *)
Record Conn (N : Type) := mkConn {
  port : Z;
  fd : Z;
  listeningFds_ : list Z;
  lastCheckedPollIndex_ : Z;
  dest_ : list Z;
  family_ : Z;
  net : N
}.
Arguments mkConn {N}. Arguments port {N}. Arguments fd {N}. Arguments listeningFds_ {N}. Arguments lastCheckedPollIndex_ {N}.
Arguments dest_ {N}. Arguments family_ {N}. Arguments net {N}.
#[global] Instance Conn_settable {N} : Settable (Conn N) := fun s =>
  mkConn (port s) (fd s) (listeningFds_ s) (lastCheckedPollIndex_ s) (dest_ s) (family_ s) (net s).

Section connections.
Context {N : Type} `{Net N} (o : NetOptions).
Abbreviation S := (Conn N).

Definition onNet {A} (f : N -> A * N) (s : S) : A * S := let '(a, n) := f (net s) in (a, s <| net := n |>).
Definition closeFd (d : Z) (s : S) : S := s <| net := net_close d (net s) |>.

(** ** [ServerSocket] *)

Definition ServerSocket_new (p : Z) (n : N) : S := mkConn p (-1) [] 0 [] AF_UNSPEC n.

Definition listenInternal (info : AddrInfo) (s : S) : Z * S :=
  let '(listeningFd, s) := onNet (net_socket info) s in
  if listeningFd =? -1 then (-1, s)
  else
    let '(bound, s) := onNet (net_bind listeningFd info) s in
    if negb bound then (-1, closeFd listeningFd s)
    else
      let '(listens, s) := onNet (net_listen listeningFd) s in
      if negb listens then (-1, closeFd listeningFd s) else (listeningFd, s).

Definition getSelectedPortAndNewAddress (listeningFd : Z) (s : S) : option (Z * list AddrInfo) * S :=
  let '(p, s) := onNet (net_getsockname listeningFd) s in
  match p with
  | None => (None, s)
  | Some p =>
      let '(infoList, s) := onNet (net_getaddrinfo [] p (hints o)) s in
      match infoList with
      | None | Some [] => (None, s)
      | Some infos => (Some (p, infos), s)
      end
  end.

(** The loop over the addresses: [p] is the port, 0 until one is selected, and
    [bound] the family for which it was. *)
Fixpoint listen_loop (rounds : nat) (infos : list AddrInfo) (p bound : Z) (s : S) : option S :=
  match infos with
  | [] => Some s
  | info :: rest =>
      match rounds with
      | O => None
      | Datatypes.S rounds =>
          if ai_family info =? bound then listen_loop rounds rest p bound s
          else
            check match net_getnameinfo info (net s) with Some portString => p =? portString | None => true end ;;
            let '(listeningFd, s) := listenInternal info s in
            if listeningFd <? 0 then listen_loop rounds rest p bound s
            else if p =? 0 then
              let '(r, s) := getSelectedPortAndNewAddress listeningFd s in
              match r with
              | None => listen_loop rounds rest p bound (closeFd listeningFd s)
              | Some (selectedPort, newInfos) =>
                  let s := s <| port := selectedPort |> in
                  listen_loop rounds newInfos selectedPort (ai_family info) (s <| listeningFds_ := listeningFds_ s ++ [listeningFd] |>)
              end
            else listen_loop rounds rest p bound (s <| listeningFds_ := listeningFds_ s ++ [listeningFd] |>)
      end
  end.
Definition listen (rounds : nat) (s : S) : option (ErrorCode * S) :=
  if negb (bool_decide (listeningFds_ s = [])) then Some (OK, s)
  else
    let p := if no_static_ports o then port s else 0 in
    let '(infoList, s) := onNet (net_getaddrinfo [] p (hints o)) s in
    match infoList with
    | None => Some (CONN_ERROR, s)
    | Some infos =>
        let* s := listen_loop rounds infos p AF_UNSPEC s in
        Some (if bool_decide (listeningFds_ s = []) then CONN_ERROR_RETRYABLE else OK, s)
    end.

(** The loop around [poll]: the events, or the code to return. *)
Fixpoint accept_poll (rounds : nat) (startTime timeoutMillis : Z) (s : S) : option ((list bool + ErrorCode) * S) :=
  match rounds with
  | O => None
  | Datatypes.S rounds =>
      let '(now, s) := onNet net_clock s in
      let timeElapsed := now - startTime in
      if timeoutMillis <=? timeElapsed then Some (inr CONN_ERROR, s)
      else
        let checkAbort := 0 <? no_abort_check_interval_millis o in
        let '(abort, s) := if checkAbort then onNet net_shouldAbort s else (false, s) in
        if abort then Some (inr ABORT, s)
        else
          let pollTimeout := timeoutMillis - timeElapsed in
          let pollTimeout := if checkAbort then Z.min pollTimeout (no_abort_check_interval_millis o) else pollTimeout in
          let '(r, s) := onNet (net_poll (listeningFds_ s) pollTimeout) s in
          match r with
          | Ready events => Some (inl events, s)
          | Again => accept_poll rounds startTime timeoutMillis s
          | PollFailed => Some (inr CONN_ERROR, s)
          end
  end.
(** Where the search starts, and the search: the first index with an event, from
    [i] on and around, and the index that is left behind. *)
Definition firstIndex (numFds last : Z) (tryCurAddressFirst : bool) : Z :=
  if numFds <=? last then 0 else if negb tryCurAddressFirst then (last + 1) mod numFds else last.
Fixpoint pick (count : nat) (numFds : Z) (events : list bool) (i : Z) : option Z * Z :=
  match count with
  | O => (None, i)
  | Datatypes.S count => if default false (events !! Z.to_nat i) then (Some i, i) else pick count numFds events ((i + 1) mod numFds)
  end.
Definition accept_ready (events : list bool) (tryCurAddressFirst : bool) (s : S) : option (ErrorCode * S) :=
  let numFds := Zlen (listeningFds_ s) in
  let '(found, i) := pick (length (listeningFds_ s)) numFds events (firstIndex numFds (lastCheckedPollIndex_ s) tryCurAddressFirst) in
  let s := s <| lastCheckedPollIndex_ := i |> in
  match found with
  | None => Some (CONN_ERROR, s)
  | Some i =>
      let* listeningFd := listeningFds_ s !! Z.to_nat i in
      let '(newFd, s) := onNet (net_accept listeningFd) s in
      if newFd <? 0 then Some (CONN_ERROR, s) else Some (OK, s <| fd := newFd |>)
  end.
Definition acceptNextConnection (rounds : nat) (timeoutMillis : Z) (tryCurAddressFirst : bool) (s : S) : option (ErrorCode * S) :=
  let* (code, s) := listen rounds s in
  if negb (bool_decide (code = OK)) then Some (code, s)
  else
    check negb (bool_decide (listeningFds_ s = [])) ;;
    check 0 <? timeoutMillis ;;
    let '(startTime, s) := onNet net_clock s in
    let* (r, s) := accept_poll rounds startTime timeoutMillis s in
    match r with
    | inr code => Some (code, s)
    | inl events => accept_ready events tryCurAddressFirst s
    end.

(** [closeNoCheck] of the [WdtSocket]: its descriptor is closed. *)
Definition closeSocket (s : S) : S := if fd s <? 0 then s else closeFd (fd s) s <| fd := -1 |>.
Definition closeAllNoCheck (s : S) : S :=
  let s := closeSocket s in
  let s := foldl (fun s d => if 0 <=? d then closeFd d s else s) s (listeningFds_ s) in
  s <| listeningFds_ := [] |>.

(** ** [ClientSocket] *)

Definition ClientSocket_new (dest : list Z) (p : Z) (n : N) : S := mkConn p (-1) [] 0 dest (hints o) n.

(** The loop around [poll]: [None] to go on, or the code to return. *)
Fixpoint connect_poll (rounds : nat) (startTime : Z) (s : S) : option (option ErrorCode * S) :=
  match rounds with
  | O => None
  | Datatypes.S rounds =>
      let '(abort, s) := onNet net_shouldAbort s in
      if abort then Some (Some ABORT, closeSocket s)
      else
        let '(now, s) := onNet net_clock s in
        let timeElapsed := now - startTime in
        if no_connect_timeout_millis o <=? timeElapsed then Some (Some CONN_ERROR_RETRYABLE, closeSocket s)
        else
          let pollTimeout := Z.min (no_connect_timeout_millis o - timeElapsed) (no_abort_check_interval_millis o) in
          let '(r, s) := onNet (net_poll [fd s] pollTimeout) s in
          match r with
          | Ready _ => Some (None, s)
          | Again => connect_poll rounds startTime s
          | PollFailed => Some (Some CONN_ERROR, closeSocket s)
          end
  end.

(** How an address ends: a code to return, the next address, or connected. *)
Inductive Attempt := Returned (code : ErrorCode) | NextAddress | Made.
(** From [connect] to the check that the attempt succeeded. *)
Definition connect_finish (rounds : nat) (info : AddrInfo) (s : S) : option (Attempt * S) :=
  let '(r, s) := onNet (net_connect (fd s) info) s in
  match r with
  | Connected => Some (Made, s)
  | ConnectFailed => Some (NextAddress, closeSocket s)
  | InProgress =>
      let '(startTime, s) := onNet net_clock s in
      let* (code, s) := connect_poll rounds startTime s in
      match code with
      | Some code => Some (Returned code, s)
      | None =>
          let '(connectResult, s) := onNet (net_so_error (fd s)) s in
          if bool_decide (connectResult = Some 0) then Some (Made, s) else Some (NextAddress, closeSocket s)
      end
  end.
Definition connect_address (rounds : nat) (info : AddrInfo) (s : S) : option (Attempt * S) :=
  let '(newFd, s) := onNet (net_socket info) s in
  if newFd =? -1 then Some (NextAddress, s)
  else
    let s := s <| fd := newFd |> in
    let '(ok, s) := onNet (net_setNonBlocking newFd true) s in
    if negb ok then Some (NextAddress, closeSocket s)
    else
      let* (a, s) := connect_finish rounds info s in
      match a with
      | Made =>
          let '(ok, s) := onNet (net_setNonBlocking (fd s) false) s in
          if negb ok then Some (NextAddress, closeSocket s) else Some (Made, s <| family_ := ai_family info |>)
      | _ => Some (a, s)
      end.
Fixpoint connect_loop (rounds : nat) (infos : list AddrInfo) (s : S) : option (option ErrorCode * S) :=
  match infos with
  | [] => Some (None, s)
  | info :: infos =>
      let* (a, s) := connect_address rounds info s in
      match a with
      | Returned code => Some (Some code, s)
      | NextAddress => connect_loop rounds infos s
      | Made => Some (None, s)
      end
  end.
Definition connect (rounds : nat) (s : S) : option (ErrorCode * S) :=
  check fd s <? 0 ;;
  let '(infoList, s) := onNet (net_getaddrinfo (dest_ s) (port s) (family_ s)) s in
  match infoList with
  | None => Some (CONN_ERROR, s)
  | Some infos =>
      let* (code, s) := connect_loop rounds infos s in
      match code with
      | Some code => Some (code, s)
      | None => if fd s <? 0 then Some (CONN_ERROR_RETRYABLE, s) else Some (OK, s)
      end
  end.
End connections.
