(* ===== verification/ConnectionsProps.v ===== *)
(** What establishing connections guarantees: no descriptor is lost, a client that
    reports success is connected to an address of its destination, and a server
    serves all its addresses. *)
From stdpp Require Import gmap.
From S2P Require Import Prelude ErrorCodes Connections.

(** ** What is assumed of the system

    [opened] are the open descriptors, [tries] bounds how often [poll] will still
    return without an event, [addresses] bounds the lists of [getaddrinfo].
    [linking] and [linked] say that a descriptor is being, and has been, connected
    to an address. *)
Definition quietly {N} (opened : N -> gset Z) (tries : N -> nat) (n n' : N) : Prop :=
  opened n' = opened n /\ (tries n' <= tries n)%nat.
Definition opens {N} (opened : N -> gset Z) (tries : N -> nat) (d : Z) (n n' : N) : Prop :=
  0 <= d /\ d ∉ opened n /\ opened n' = {[d]} ∪ opened n /\ (tries n' <= tries n)%nat.
Class NetLaws (N : Type) `{Net N} := {
  opened : N -> gset Z;
  tries : N -> nat;
  addresses : nat;
  linking : N -> Z -> AddrInfo -> Prop;
  linked : N -> Z -> AddrInfo -> Prop;
  getaddrinfo_spec node p hint n r n' : net_getaddrinfo node p hint n = (r, n') ->
    quietly opened tries n n' /\ forall infos, r = Some infos -> (length infos <= addresses)%nat /\ Forall (fun i => ai_port i = p) infos;
  getnameinfo_spec info n p : net_getnameinfo info n = Some p -> p = ai_port info;
  socket_spec info n d n' : net_socket info n = (d, n') -> d = -1 /\ quietly opened tries n n' \/ opens opened tries d n n';
  bind_spec d info n r n' : net_bind d info n = (r, n') -> quietly opened tries n n';
  listen_spec d n r n' : net_listen d n = (r, n') -> quietly opened tries n n';
  getsockname_spec d n r n' : net_getsockname d n = (r, n') -> quietly opened tries n n' /\ forall p, r = Some p -> 0 < p;
  close_spec d n : opened (net_close d n) = opened n ∖ {[d]} /\ (tries (net_close d n) <= tries n)%nat;
  accept_spec d n r n' : net_accept d n = (r, n') -> r < 0 /\ quietly opened tries n n' \/ opens opened tries r n n';
  nonblocking_spec d b n r n' : net_setNonBlocking d b n = (r, n') ->
    quietly opened tries n n' /\ forall info, linked n d info -> linked n' d info;
  connect_spec d info n r n' : net_connect d info n = (r, n') ->
    quietly opened tries n n' /\ (r = Connected -> linked n' d info) /\ (r = InProgress -> linking n' d info);
  so_error_spec d n r n' : net_so_error d n = (r, n') ->
    quietly opened tries n n' /\ (r = Some 0 -> forall info, linking n d info -> linked n' d info);
  poll_spec ds t n r n' : net_poll ds t n = (r, n') ->
    quietly opened tries n n' /\ (r = Again -> (tries n' < tries n)%nat) /\ forall d info, linking n d info -> linking n' d info;
  clock_spec n t n' : net_clock n = (t, n') -> quietly opened tries n n' /\ forall d info, linking n d info -> linking n' d info;
  shouldAbort_spec n b n' : net_shouldAbort n = (b, n') -> quietly opened tries n n' /\ forall d info, linking n d info -> linking n' d info
}.

Section connections.
Context {N : Type} `{NetLaws N} (o : NetOptions).
Abbreviation S := (Conn N).
Abbreviation fds s := (opened (net s)).
Abbreviation left s := (tries (net s)).

(** ** A client *)

(** The socket has no descriptor, and the others are as they were. *)
Definition unconnected (R : gset Z) (k : nat) (s : S) : Prop := fd s < 0 /\ fds s = R /\ (left s <= k)%nat.
(** It has one more, on its way to an address or connected. *)
Definition holding (R : gset Z) (k : nat) (s : S) : Prop := 0 <= fd s /\ fd s ∉ R /\ fds s = {[fd s]} ∪ R /\ (left s <= k)%nat.

Lemma closeSocket_holding R k s : holding R k s -> unconnected R k (closeSocket s).
Proof.
  intros (Hd & Hn & Hf & Hk). unfold closeSocket. replace (fd s <? 0) with false by (symmetry; bool_to_prop; lia).
  unfold unconnected, closeFd. simpl. destruct (close_spec (fd s) (net s)) as [-> Ht]. split_and!; [lia| |lia]. rewrite Hf. set_solver.
Qed.
Lemma quietly_holding R k s n' : holding R k s -> quietly opened tries (net s) n' -> holding R k (s <| net := n' |>).
Proof. intros (? & ? & Hf & ?) [E ?]. split_and!; simpl; try done; [by rewrite E, Hf|lia]. Qed.

Lemma connect_poll_spec R k rounds startTime info s :
  holding R k s -> linking (net s) (fd s) info -> (left s < rounds)%nat ->
  exists code s', connect_poll o rounds startTime s = Some (code, s')
    /\ match code with
       | None => holding R k s' /\ linking (net s') (fd s') info
       | Some e => e <> OK /\ unconnected R k s'
       end.
Proof.
  revert s. induction rounds as [|rounds IH]; intros s Hh Hl Hr; [lia|]. cbn [connect_poll]. unfold onNet.
  destruct (net_shouldAbort (net s)) as [abort n1] eqn:E1. apply shouldAbort_spec in E1 as [Q1 L1].
  pose proof (quietly_holding _ _ _ _ Hh Q1) as Hh1. destruct Q1 as [_ Q1].
  destruct abort; [eexists _, _; split; [reflexivity|]; split; [done|]; by apply closeSocket_holding|].
  simpl net. destruct (net_clock n1) as [now n2] eqn:E2. apply clock_spec in E2 as [Q2 L2].
  pose proof (quietly_holding _ _ _ _ Hh1 Q2) as Hh2. destruct Q2 as [_ Q2].
  destruct (no_connect_timeout_millis o <=? now - startTime); [eexists _, _; split; [reflexivity|]; split; [done|]; by apply closeSocket_holding|].
  simpl net. simpl fd. destruct (net_poll _ _ n2) as [r n3] eqn:E3. apply poll_spec in E3 as (Q3 & A3 & L3).
  pose proof (quietly_holding _ _ _ _ Hh2 Q3) as Hh3. destruct Q3 as [_ Q3]. simpl in Hh3.
  destruct r as [events| |].
  - eexists _, _. split; [reflexivity|]. split; [done|]. simpl. auto.
  - apply IH; [done|simpl; auto|]. simpl. specialize (A3 eq_refl). lia.
  - eexists _, _. split; [reflexivity|]. split; [done|]. by apply closeSocket_holding.
Qed.

Lemma connect_address_spec R k rounds info s :
  unconnected R k s -> (k < rounds)%nat ->
  exists a s', connect_address o rounds info s = Some (a, s')
    /\ match a with
       | Made => holding R k s' /\ linked (net s') (fd s') info
       | NextAddress => unconnected R k s'
       | Returned e => e <> OK /\ unconnected R k s'
       end.
Proof.
  intros (Hfd & Hf & Hk) Hr. unfold connect_address, onNet. destruct (net_socket info (net s)) as [d n1] eqn:E1.
  destruct (socket_spec _ _ _ _ E1) as [(-> & E & Ht)|(Hd & Hn & E & Ht)].
  { rewrite Z.eqb_refl. eexists _, _. split; [reflexivity|]. split_and!; simpl; [done|congruence|lia]. }
  replace (d =? -1) with false by (symmetry; bool_to_prop; lia).
  set (s1 := s <| net := n1 |> <| fd := d |>). assert (holding R k s1) as Hs1.
  { split_and!; simpl; [done|by rewrite <- Hf|by rewrite E, Hf|lia]. }
  change (net s1) with n1. destruct (net_setNonBlocking d true n1) as [ok n2] eqn:E2. apply nonblocking_spec in E2 as [Q2 _].
  pose proof (quietly_holding _ _ _ _ Hs1 Q2) as Hs2. destruct ok; cbn [negb]; [|eexists _, _; split; [reflexivity|]; by apply closeSocket_holding].
  set (s2 := s1 <| net := n2 |>) in *. clearbody s2.
  assert (exists a s', connect_finish o rounds info s2 = Some (a, s') /\ match a with
    | Made => holding R k s' /\ linked (net s') (fd s') info | NextAddress => unconnected R k s' | Returned e => e <> OK /\ unconnected R k s' end)
    as (a & s3 & -> & Ha); [|cbn [mbind option_bind]].
  { unfold connect_finish, onNet. destruct (net_connect (fd s2) info (net s2)) as [r n3] eqn:E3. apply connect_spec in E3 as (Q3 & C3 & P3).
    pose proof (quietly_holding _ _ _ _ Hs2 Q3) as Hs3. destruct r.
    - eexists _, _. split; [reflexivity|]. split; [done|]. simpl. auto.
    - simpl net. destruct (net_clock n3) as [t n4] eqn:E4. apply clock_spec in E4 as [Q4 L4].
      pose proof (quietly_holding _ _ _ _ Hs3 Q4) as Hs4. set (s4 := s2 <| net := n3 |> <| net := n4 |>) in *.
      destruct (connect_poll_spec R k rounds t info s4 Hs4) as (code & s5 & -> & H5); [simpl; auto|destruct Hs4 as (_ & _ & _ & ?); lia|].
      cbn [mbind option_bind]. destruct code as [e|]; [eexists _, _; split; [reflexivity|]; done|]. destruct H5 as [Hs5 L5].
      destruct (net_so_error (fd s5) (net s5)) as [c n6] eqn:E6. apply so_error_spec in E6 as [Q6 L6].
      pose proof (quietly_holding _ _ _ _ Hs5 Q6) as Hs6. case_bool_decide as Ec.
      + eexists _, _. split; [reflexivity|]. split; [done|]. simpl. auto.
      + eexists _, _. split; [reflexivity|]. by apply closeSocket_holding.
    - eexists _, _. split; [reflexivity|]. by apply closeSocket_holding. }
  destruct a as [e| |]; [eexists _, _; split; [reflexivity|]; done..|]. destruct Ha as [Hs3 Hl].
  destruct (net_setNonBlocking (fd s3) false (net s3)) as [ok n4] eqn:E4. apply nonblocking_spec in E4 as [Q4 L4].
  pose proof (quietly_holding _ _ _ _ Hs3 Q4) as Hs4. destruct ok; cbn [negb]; eexists _, _; (split; [reflexivity|]); [|by apply closeSocket_holding].
  split; [done|]. simpl. auto.
Qed.

Lemma connect_loop_spec R k rounds infos s :
  unconnected R k s -> (k < rounds)%nat ->
  exists code s', connect_loop o rounds infos s = Some (code, s')
    /\ match code with
       | Some e => e <> OK /\ unconnected R k s'
       | None => unconnected R k s' \/ holding R k s' /\ exists info, info ∈ infos /\ linked (net s') (fd s') info
       end.
Proof.
  intros Hs Hr. revert s Hs. induction infos as [|info infos IH]; intros s Hs; [eexists _, _; split; [reflexivity|]; by left|]. cbn [connect_loop].
  destruct (connect_address_spec R k rounds info s Hs Hr) as (a & s1 & -> & Ha). cbn [mbind option_bind]. destruct a as [e| |].
  - eexists _, _. split; [reflexivity|]. done.
  - destruct (IH s1 Ha) as (code & s2 & -> & Hc). eexists _, _. split; [reflexivity|]. destruct code; [done|].
    destruct Hc as [?|(? & i & ? & ?)]; [by left|right]. split; [done|]. exists i. split; [by right|done].
  - eexists _, _. split; [reflexivity|]. right. split; [apply Ha|]. exists info. split; [by left|apply Ha].
Qed.


(** ** A server *)

(** The descriptors of the socket, beside the others [R]. *)
Definition owned (s : S) : gset Z := list_to_set (listeningFds_ s) ∪ (if 0 <=? fd s then {[fd s]} else ∅).
Definition serving (R : gset Z) (k : nat) (s : S) : Prop :=
  fds s = owned s ∪ R /\ owned s ## R /\ Forall (Z.le 0) (listeningFds_ s) /\ (left s <= k)%nat.
Lemma quietly_serving R k s n' : serving R k s -> quietly opened tries (net s) n' -> serving R k (s <| net := n' |>).
Proof. intros (? & ? & ? & ?) [E ?]. split_and!; simpl; try done; [by rewrite E|lia]. Qed.

(** A descriptor that has been opened and is not the socket's yet. *)
Definition spare (R : gset Z) (k : nat) (d : Z) (s : S) : Prop :=
  0 <= d /\ d ∉ owned s ∪ R /\ fds s = {[d]} ∪ (owned s ∪ R) /\ owned s ## R /\ Forall (Z.le 0) (listeningFds_ s) /\ (left s <= k)%nat.
Lemma spare_quietly R k d s n' : spare R k d s -> quietly opened tries (net s) n' -> spare R k d (s <| net := n' |>).
Proof. intros (? & ? & ? & ? & ? & ?) [E ?]. split_and!; simpl; try done; [by rewrite E|lia]. Qed.
Lemma spare_close R k d s : spare R k d s -> serving R k (closeFd d s).
Proof.
  intros (Hd & Hn & Hf & Hdis & Hp & Hk). unfold closeFd. destruct (close_spec d (net s)) as [E Ht]. split_and!; simpl; try done; [|lia].
  rewrite E, Hf. set_solver.
Qed.
Lemma spare_add R k d s : spare R k d s -> serving R k (s <| listeningFds_ := listeningFds_ s ++ [d] |>).
Proof.
  intros (Hd & Hn & Hf & Hdis & Hp & Hk).
  assert (owned (s <| listeningFds_ := listeningFds_ s ++ [d] |>) = {[d]} ∪ owned s) as E.
  { unfold owned. simpl. rewrite list_to_set_app_L. simpl. set_solver. }
  split_and!; simpl; [rewrite E, Hf; set_solver|rewrite E; set_solver| |done]. apply Forall_app. split; [done|]. by constructor.
Qed.
Lemma opened_spare R k d s n' : serving R k s -> opens opened tries d (net s) n' -> spare R k d (s <| net := n' |>).
Proof.
  intros (Hf & ? & ? & ?) (Hd & Hn & E & ?). unfold spare. change (owned (s <| net := n' |>)) with (owned s). rewrite <- Hf.
  split_and!; simpl; try done. lia.
Qed.

Definition same_conn (s s' : S) : Prop := fd s' = fd s /\ lastCheckedPollIndex_ s' = lastCheckedPollIndex_ s.
Ltac same_conn := unfold same_conn in *; simpl in *; destruct_and?; split; congruence.
Lemma listenInternal_spec R k info s d s' : serving R k s -> listenInternal info s = (d, s') ->
  same_conn s s' /\ (if d <? 0 then serving R k s' else spare R k d s').
Proof.
  intros Hs. unfold listenInternal, onNet. destruct (net_socket info (net s)) as [d1 n1] eqn:E1.
  destruct (socket_spec _ _ _ _ E1) as [(-> & Q)|Ho].
  { rewrite Z.eqb_refl. intros [= <- <-]. split; [done|]. simpl. by apply quietly_serving. }
  pose proof (opened_spare _ _ _ _ _ Hs Ho) as Hsp. destruct Ho as [Hd _]. replace (d1 =? -1) with false by (symmetry; bool_to_prop; lia).
  simpl net. destruct (net_bind d1 info n1) as [r2 n2] eqn:E2. apply bind_spec in E2. pose proof (spare_quietly _ _ _ _ _ Hsp E2) as Hsp2.
  destruct r2; cbn [negb]; [|intros [= <- <-]; split; [done|]; simpl; exact (spare_close _ _ _ _ Hsp2)].
  simpl net. destruct (net_listen d1 n2) as [r3 n3] eqn:E3. apply listen_spec in E3. pose proof (spare_quietly _ _ _ _ _ Hsp2 E3) as Hsp3.
  destruct r3; cbn [negb]; intros [= <- <-]; (split; [done|]); [|simpl; exact (spare_close _ _ _ _ Hsp3)].
  replace (d1 <? 0) with false by (symmetry; bool_to_prop; lia). exact Hsp3.
Qed.

(** What the loop leaves, from a state with the same connection. *)
Definition listened (R : gset Z) (k : nat) (s s' : S) : Prop := serving R k s' /\ same_conn s s'.
Lemma listen_loop_fixed R k rounds infos p bound s :
  serving R k s -> p <> 0 -> Forall (fun i => ai_port i = p) infos -> (length infos <= rounds)%nat ->
  exists s', listen_loop o rounds infos p bound s = Some s' /\ listened R k s s'.
Proof.
  intros Hs Hp Hi. revert rounds s Hs. induction Hi as [|info infos Hinfo Hi IH]; intros rounds s Hs Hr; [by destruct rounds; exists s|].
  destruct rounds as [|rounds]; [simpl in Hr; lia|]. cbn [listen_loop]. destruct (ai_family info =? bound); [apply IH; [done|simpl in Hr; lia]|].
  assert (match net_getnameinfo info (net s) with Some portString => p =? portString | None => true end = true) as ->.
  { destruct (net_getnameinfo info (net s)) eqn:E; [|done]. apply getnameinfo_spec in E. bool_to_prop. congruence. }
  destruct (listenInternal info s) as [d s1] eqn:E1. destruct (listenInternal_spec _ _ _ _ _ _ Hs E1) as (Hfd & Hd).
  destruct (d <? 0) eqn:Ed.
  - destruct (IH rounds s1 Hd ltac:(simpl in Hr; lia)) as (s2 & E2 & Hs2 & Hf2). exists s2. split; [done|]. split; [done|same_conn].
  - replace (p =? 0) with false by (symmetry; bool_to_prop; lia).
    destruct (IH rounds _ (spare_add _ _ _ _ Hd) ltac:(simpl in Hr; lia)) as (s2 & E2 & Hs2 & Hf2). exists s2. split; [done|]. split; [done|same_conn].
Qed.
Lemma listen_loop_select R k rounds infos bound s :
  serving R k s -> Forall (fun i => ai_port i = 0) infos -> (length infos + addresses <= rounds)%nat ->
  exists s', listen_loop o rounds infos 0 bound s = Some s' /\ listened R k s s'.
Proof.
  intros Hs Hi. revert rounds s Hs. induction Hi as [|info infos Hinfo Hi IH]; intros rounds s Hs Hr; [by destruct rounds; exists s|].
  destruct rounds as [|rounds]; [simpl in Hr; lia|]. cbn [listen_loop]. destruct (ai_family info =? bound); [apply IH; [done|simpl in Hr; lia]|].
  assert (match net_getnameinfo info (net s) with Some portString => 0 =? portString | None => true end = true) as ->.
  { destruct (net_getnameinfo info (net s)) eqn:E; [|done]. apply getnameinfo_spec in E. bool_to_prop. congruence. }
  destruct (listenInternal info s) as [d s1] eqn:E1. destruct (listenInternal_spec _ _ _ _ _ _ Hs E1) as (Hfd & Hd).
  destruct (d <? 0) eqn:Ed.
  { destruct (IH rounds s1 Hd ltac:(simpl in Hr; lia)) as (s2 & E2 & Hs2 & Hf2). exists s2. split; [done|]. split; [done|same_conn]. }
  rewrite Z.eqb_refl. unfold getSelectedPortAndNewAddress, onNet. destruct (net_getsockname d (net s1)) as [r2 n2] eqn:E2.
  apply getsockname_spec in E2 as [Q2 P2]. pose proof (spare_quietly _ _ _ _ _ Hd Q2) as Hd2.
  assert (forall s0, spare R k d s0 -> same_conn s1 s0 -> exists s', listen_loop o rounds infos 0 bound (closeFd d s0) = Some s' /\ listened R k s s') as Hnext.
  { intros s0 Hs0 Hfd0. destruct (IH rounds (closeFd d s0) (spare_close _ _ _ _ Hs0) ltac:(simpl in Hr; lia)) as (s2 & E & Hs2 & Hf2).
    exists s2. split; [done|]. split; [done|same_conn]. }
  destruct r2 as [p|]; [|apply Hnext; done]. simpl net. destruct (net_getaddrinfo [] p (hints o) n2) as [r3 n3] eqn:E3.
  apply getaddrinfo_spec in E3 as [Q3 I3]. pose proof (spare_quietly _ _ _ _ _ Hd2 Q3) as Hd3.
  destruct r3 as [[|i3 l3]|]; [apply Hnext; done| |apply Hnext; done]. destruct (I3 _ eq_refl) as [Hlen Hports]. specialize (P2 p eq_refl).
  assert (spare R k d (s1 <| net := n2 |> <| net := n3 |> <| port := p |>)) as Hd4 by exact Hd3.
  destruct (listen_loop_fixed R k rounds (i3 :: l3) p (ai_family info) _ (spare_add _ _ _ _ Hd4) ltac:(lia) Hports ltac:(simpl in Hr, Hlen |- *; lia)) as (s4 & E4 & Hs4 & Hf4).
  exists s4. split; [exact E4|]. split; [done|same_conn].
Qed.

Lemma listen_exact R k rounds s : serving R k s -> (2 * addresses <= rounds)%nat ->
  exists code s', listen o rounds s = Some (code, s') /\ listened R k s s' /\ (code = OK <-> listeningFds_ s' <> []).
Proof.
  intros Hs Hr. unfold listen. case_bool_decide as Hl; cbn [negb]; [|eexists _, _; split; [reflexivity|]; split; [split; done|]; done].
  unfold onNet. destruct (net_getaddrinfo _ _ _ _) as [r n1] eqn:E1. apply getaddrinfo_spec in E1 as [Q1 I1].
  pose proof (quietly_serving _ _ _ _ Hs Q1) as Hs1. destruct r as [infos|]; [|eexists _, _; split; [reflexivity|]; split; [split; done|]; simpl; by rewrite Hl].
  destruct (I1 _ eq_refl) as [Hlen Hports].
  assert (exists s', listen_loop o rounds infos (if no_static_ports o then port s else 0) AF_UNSPEC (s <| net := n1 |>) = Some s'
    /\ listened R k (s <| net := n1 |>) s') as (s2 & -> & Hs2 & Hf2).
  { destruct (decide ((if no_static_ports o then port s else 0) = 0)) as [E|E]; [rewrite E in Hports |- *; apply listen_loop_select|apply listen_loop_fixed]; try done; lia. }
  cbn [mbind option_bind]. eexists _, _. split; [reflexivity|]. split; [by split|]. case_bool_decide; done.
Qed.

Lemma accept_poll_spec R k rounds startTime timeoutMillis s :
  serving R k s -> (left s < rounds)%nat ->
  exists r s', accept_poll o rounds startTime timeoutMillis s = Some (r, s') /\ serving R k s' /\ fd s' = fd s
    /\ listeningFds_ s' = listeningFds_ s /\ lastCheckedPollIndex_ s' = lastCheckedPollIndex_ s /\ r <> inr OK.
Proof.
  revert s. induction rounds as [|rounds IH]; intros s Hs Hr; [lia|]. cbn [accept_poll]. unfold onNet.
  destruct (net_clock (net s)) as [now n1] eqn:E1. apply clock_spec in E1 as [Q1 _].
  pose proof (quietly_serving _ _ _ _ Hs Q1) as Hs1. destruct Q1 as [_ Q1].
  destruct (timeoutMillis <=? now - startTime); [eexists _, _; split; [reflexivity|]; done|].
  destruct (if 0 <? no_abort_check_interval_millis o then _ else _) as [abort s2] eqn:E2.
  assert (exists n2, s2 = s <| net := n1 |> <| net := n2 |> /\ quietly opened tries n1 n2) as (n2 & -> & Q2).
  { destruct (0 <? _); [|simplify_eq; exists n1; by split]. simpl net in E2. destruct (net_shouldAbort n1) as [b n2] eqn:E3. simplify_eq.
    apply shouldAbort_spec in E3 as [Q3 _]. by exists n2. }
  pose proof (quietly_serving _ _ _ _ Hs1 Q2) as Hs2. destruct Q2 as [_ Q2]. destruct abort; [eexists _, _; split; [reflexivity|]; done|].
  simpl net. destruct (net_poll _ _ n2) as [r n3] eqn:E3. apply poll_spec in E3 as (Q3 & A3 & _).
  pose proof (quietly_serving _ _ _ _ Hs2 Q3) as Hs3. destruct Q3 as [_ Q3]. destruct r as [events| |]; [eexists _, _; split; [reflexivity|]; done| |eexists _, _; split; [reflexivity|]; done].
  destruct (IH (s <| net := n1 |> <| net := n2 |> <| net := n3 |>)) as (r & s' & -> & ?); [done|simpl; specialize (A3 eq_refl); lia|].
  eexists _, _. split; [reflexivity|]. done.
Qed.

Lemma pick_range count n events i found i' : 0 < n -> 0 <= i < n -> pick count n events i = (found, i') ->
  0 <= i' < n /\ forall j, found = Some j -> 0 <= j < n.
Proof.
  intros Hn. revert i. induction count as [|count IH]; intros i Hi E; cbn [pick] in E; [simplify_eq; done|].
  destruct (default false _); [simplify_eq; split; [done|]; intros j [= ->]; done|]. apply (IH ((i + 1) mod n)); [|done]. apply Z.mod_pos_bound. lia.
Qed.
Lemma firstIndex_range n last b : 0 < n -> 0 <= last -> 0 <= firstIndex n last b < n.
Proof.
  intros Hn Hl. unfold firstIndex. destruct (Z.leb_spec n last); [lia|]. destruct (negb b); [|lia]. apply Z.mod_pos_bound. lia.
Qed.
Lemma accept_ready_spec R k events b s :
  serving R k s -> fd s < 0 -> listeningFds_ s <> [] -> 0 <= lastCheckedPollIndex_ s ->
  exists code s', accept_ready events b s = Some (code, s') /\ serving R k s' /\ 0 <= lastCheckedPollIndex_ s'
    /\ (code = OK <-> 0 <= fd s').
Proof.
  intros Hs Hfd Hne Hl. unfold accept_ready. assert (0 < Zlen (listeningFds_ s)) as Hn by (destruct (listeningFds_ s); [done|rewrite Zlen_cons; lia]).
  destruct (pick _ _ _ _) as [found i] eqn:E.
  destruct (pick_range _ _ _ _ _ _ Hn (firstIndex_range _ _ b Hn Hl) E) as [Hi Hj].
  assert (serving R k (s <| lastCheckedPollIndex_ := i |>)) as Hs1 by exact Hs.
  destruct found as [j|]; [|eexists _, _; split; [reflexivity|]; split_and!; [done|simpl; lia|split; [done|simpl; lia]]].
  specialize (Hj j eq_refl). simpl listeningFds_. destruct (lookup_lt_is_Some_2 (listeningFds_ s) (Z.to_nat j) ltac:(lia)) as [d ->].
  cbn [mbind option_bind]. unfold onNet. simpl net. destruct (net_accept d (net s)) as [r n1] eqn:Ea.
  destruct (accept_spec _ _ _ _ Ea) as [[Hr Q]|Ho].
  - replace (r <? 0) with true by (symmetry; bool_to_prop; lia). eexists _, _. split; [reflexivity|]. split_and!; [|simpl; lia|split; [done|simpl; lia]].
    exact (quietly_serving _ _ _ _ Hs1 Q).
  - pose proof (opened_spare _ _ _ _ _ Hs1 Ho) as (Hd & Hnin & Hf & Hdis & Hp & Hk).
    replace (r <? 0) with false by (symmetry; bool_to_prop; lia). eexists _, _. split; [reflexivity|]. split_and!; [|simpl; lia|done].
    assert (owned (s <| lastCheckedPollIndex_ := i |> <| net := n1 |> <| fd := r |>) = {[r]} ∪ owned s) as Eo.
    { unfold owned. simpl. replace (0 <=? r) with true by (symmetry; bool_to_prop; lia). replace (0 <=? fd s) with false by (symmetry; bool_to_prop; lia). set_solver. }
    change (owned (s <| lastCheckedPollIndex_ := i |> <| net := n1 |>)) with (owned s) in *.
    split_and!; [rewrite Eo; simpl; simpl in Hf; rewrite Hf; set_solver|rewrite Eo; set_solver|done|done].
Qed.

Lemma closeAll_spec R k s : serving R k s -> fds (closeAllNoCheck s) = R.
Proof.
  intros (Hf & Hdis & Hp & _). unfold closeAllNoCheck.
  assert (forall l s, Forall (Z.le 0) l -> fds (foldl (fun s d => if 0 <=? d then closeFd d s else s) s l) = fds s ∖ list_to_set l) as Hclose.
  { clear. induction l as [|d l IH]; intros s Hl; [simpl; set_solver|]. inversion Hl as [|? ? Hd Hl']; subst. cbn [foldl].
    replace (0 <=? d) with true by (symmetry; bool_to_prop; lia). rewrite IH by done. unfold closeFd. simpl. destruct (close_spec d (net s)) as [-> _]. set_solver. }
  simpl. unfold closeSocket, owned in *. destruct (Z.ltb_spec (fd s) 0).
  - rewrite Hclose by done. rewrite Hf. replace (0 <=? fd s) with false in * by (symmetry; bool_to_prop; lia). set_solver.
  - simpl. rewrite Hclose by done. simpl. destruct (close_spec (fd s) (net s)) as [-> _]. rewrite Hf.
    replace (0 <=? fd s) with true in * by (symmetry; bool_to_prop; lia). set_solver.
Qed.

(** C0. [acceptNextConnection] on a server socket without a connection returns, also
    when nobody connects.  The open descriptors are then those of the socket, the
    ones it listens on and the connection, beside the ones that are not its own:
    it has a connection exactly when it reports success, and closing it leaves
    none of its descriptors open. *)
Theorem accept_exact R rounds timeoutMillis b s :
  serving R (left s) s -> fd s < 0 -> 0 <= lastCheckedPollIndex_ s -> 0 < timeoutMillis ->
  (left s < rounds)%nat -> (2 * addresses <= rounds)%nat ->
  exists code s', acceptNextConnection o rounds timeoutMillis b s = Some (code, s') /\ serving R (left s) s'
    /\ 0 <= lastCheckedPollIndex_ s' /\ (code = OK <-> 0 <= fd s') /\ fds (closeAllNoCheck s') = R.
Proof.
  intros Hs Hfd Hl Ht Hr Ha.
  enough (exists code s', acceptNextConnection o rounds timeoutMillis b s = Some (code, s') /\ serving R (left s) s'
    /\ 0 <= lastCheckedPollIndex_ s' /\ (code = OK <-> 0 <= fd s')) as (code & s' & E & Hs' & Hl' & Hc).
  { exists code, s'. split_and!; try done. by apply (closeAll_spec R (left s)). }
  unfold acceptNextConnection. destruct (listen_exact R (left s) rounds s Hs Ha) as (code & s1 & E1 & [Hs1 [Hf1 Hl1]] & Hc1). rewrite E1.
  cbn [mbind option_bind]. case_bool_decide as Eok; cbn [negb].
  - assert (listeningFds_ s1 <> []) as Hne by by apply Hc1. rewrite bool_decide_eq_false_2 by done. cbn [negb].
    replace (0 <? timeoutMillis) with true by (symmetry; bool_to_prop; lia). unfold onNet.
    destruct (net_clock (net s1)) as [t n2] eqn:E2. apply clock_spec in E2 as [Q2 _]. pose proof (quietly_serving _ _ _ _ Hs1 Q2) as Hs2.
    destruct (accept_poll_spec R (left s) rounds t timeoutMillis _ Hs2) as (r & s3 & -> & Hs3 & Hf3 & Hl3 & Hi3 & Hno).
    { destruct Hs2 as (_ & _ & _ & ?). lia. }
    simpl in Hf3, Hl3, Hi3. cbn [mbind option_bind]. destruct r as [events|e].
    + apply accept_ready_spec; [done|lia|congruence|lia].
    + eexists _, _. split; [reflexivity|]. split_and!; [done|lia|split; [by intros ->|lia]].
  - eexists _, _. split; [reflexivity|]. split_and!; [done|lia|split; [done|lia]].
Qed.
End connections.

(** ** Round robin *)

Lemma pick_spec count (n : Z) events i d :
  0 < n -> 0 <= i < n -> 0 <= d < Z.of_nat count -> events !! Z.to_nat ((i + d) mod n) = Some true ->
  exists e, 0 <= e <= d /\ pick count n events i = (Some ((i + e) mod n), (i + e) mod n).
Proof.
  intros Hn. revert i d. induction count as [|count IH]; intros i d Hi Hd He; [lia|]. cbn [pick].
  destruct (default false (events !! Z.to_nat i)) eqn:E.
  - exists 0. rewrite Z.add_0_r, Z.mod_small by done. split; [lia|done].
  - destruct (decide (d = 0)) as [->|Hd0].
    { rewrite Z.add_0_r, Z.mod_small in He by done. by rewrite He in E. }
    destruct (IH ((i + 1) mod n) (d - 1)) as (e & He' & ->); [apply Z.mod_pos_bound; lia|lia| |].
    + rewrite Z.add_mod_idemp_l by lia. by replace (i + 1 + (d - 1)) with (i + d) by lia.
    + exists (e + 1). rewrite Z.add_mod_idemp_l by lia. replace (i + 1 + e) with (i + (e + 1)) by lia. split; [lia|done].
Qed.

(** The addresses that are served in a row of successful polls. *)
Fixpoint served (n : nat) (last : Z) (polls : list (list bool)) : list Z :=
  match polls with
  | [] => []
  | events :: polls =>
      let '(found, last) := pick n (Z.of_nat n) events (firstIndex (Z.of_nat n) last false) in
      option_list found ++ served n last polls
  end.
Lemma served_within n last polls j d :
  0 <= last -> 0 <= d < Z.of_nat n -> (firstIndex (Z.of_nat n) last false + d) mod Z.of_nat n = j ->
  Forall (fun events => events !! Z.to_nat j = Some true) polls -> d < Zlen polls -> j ∈ served n last polls.
Proof.
  intros Hl Hd Hj Hp. revert last d Hl Hd Hj. induction Hp as [|events polls He Hp IH]; intros last d Hl Hd Hj Hlen; [simpl in Hlen; lia|].
  cbn [served]. pose proof (firstIndex_range (Z.of_nat n) last false ltac:(lia) Hl) as Hi. set (i := firstIndex (Z.of_nat n) last false) in *.
  destruct (pick_spec n (Z.of_nat n) events i d ltac:(lia) Hi Hd) as (e & Hed & ->); [by rewrite Hj|].
  destruct (decide (e = d)) as [->|Hne]; [rewrite Hj; apply elem_of_app; left; simpl; by left|]. apply elem_of_app. right.
  pose proof (Z.mod_pos_bound (i + e) (Z.of_nat n) ltac:(lia)) as Hm.
  apply (IH _ (d - e - 1)); [lia|lia| |rewrite Zlen_cons in Hlen; lia].
  unfold firstIndex. replace (Z.of_nat n <=? (i + e) mod Z.of_nat n) with false by (symmetry; bool_to_prop; lia). cbn [negb].
  rewrite Z.add_mod_idemp_l by lia. replace ((i + e) mod Z.of_nat n + 1 + (d - e - 1)) with ((i + e) mod Z.of_nat n + (d - e)) by lia.
  rewrite Z.add_mod_idemp_l by lia. rewrite <- Hj. f_equal. lia.
Qed.


(** ** Examples *)

(** A system in memory: the open descriptors, and how often [poll] still returns
    without an event. *)
Definition Toy : Type := gset nat * nat.
Definition toy_open (n : Toy) : Z * Toy := let d := fresh n.1 in (Z.of_nat d, ({[d]} ∪ n.1, n.2)).
#[local] Instance toy_net : Net Toy := {|
  net_getaddrinfo _ p _ n := (Some [mkAddrInfo AF_INET6 [] p; mkAddrInfo AF_INET [] p], n);
  net_getnameinfo info _ := Some (ai_port info);
  net_socket _ n := toy_open n;
  net_bind _ _ n := (true, n);
  net_listen _ n := (true, n);
  net_getsockname _ n := (Some 5000, n);
  net_close d n := (if 0 <=? d then n.1 ∖ {[Z.to_nat d]} else n.1, n.2);
  net_accept _ n := toy_open n;
  net_setNonBlocking _ _ n := (true, n);
  net_connect _ _ n := (InProgress, n);
  net_so_error _ n := (Some 0, n);
  net_poll ds _ n := match n.2 with O => (Ready ((fun _ => true) <$> ds), n) | Datatypes.S k => (Again, (n.1, k)) end;
  net_clock n := (0, n);
  net_shouldAbort n := (false, n)
|}.
Definition toy_opened (n : Toy) : gset Z := set_map Z.of_nat n.1.
Lemma toy_open_spec n d n' : toy_open n = (d, n') -> opens toy_opened snd d n n'.
Proof.
  unfold toy_open, opens, toy_opened. intros [= <- <-]. simpl. split_and!; [lia| |by rewrite set_map_union_L, set_map_singleton_L|done].
  intros (k & Hk%(inj Z.of_nat) & Hin)%elem_of_map. subst. by apply is_fresh in Hin.
Qed.
#[local] Program Instance toy_laws : NetLaws Toy := {|
  opened := toy_opened; tries := snd; addresses := 2; linking _ _ _ := True; linked _ _ _ := True |}.
Next Obligation. intros node p hint n r n' [= <- <-]. split; [by split|]. intros infos [= <-]. split; [done|]. by repeat constructor. Qed.
Next Obligation. by intros info n p [= <-]. Qed.
Next Obligation. intros info n d n' E. right. by apply toy_open_spec. Qed.
Next Obligation. by intros d info n r n' [= _ <-]. Qed.
Next Obligation. by intros d n r n' [= _ <-]. Qed.
Next Obligation. intros d n r n' [= <- <-]. split; [done|]. by intros p [= <-]. Qed.
Next Obligation.
  intros d n. split; [|done]. unfold toy_opened. simpl. apply set_eq. intros x. rewrite elem_of_difference, !elem_of_map, elem_of_singleton. split.
  - intros (k & -> & Hk). destruct (Z.leb_spec 0 d); [|split; [by exists k|lia]]. apply elem_of_difference in Hk as [Hk Hne].
    split; [by exists k|]. intros <-. apply Hne. by rewrite Nat2Z.id, elem_of_singleton.
  - intros [(k & -> & Hk) Hne]. exists k. split; [done|]. destruct (Z.leb_spec 0 d); [|done]. apply elem_of_difference. split; [done|].
    rewrite elem_of_singleton. intros ->. apply Hne. lia.
Qed.
Next Obligation. intros d n r n' E. right. by apply toy_open_spec. Qed.
Next Obligation. by intros d b n r n' [= _ <-]. Qed.
Next Obligation. by intros d info n r n' [= <- <-]. Qed.
Next Obligation. by intros d n r n' [= <- <-]. Qed.
Next Obligation. intros ds t [X k] r n' E. simpl in E. destruct k as [|k]; simplify_eq; (split; [split; simpl; [done|lia]|]); split; try done; simpl; lia. Qed.
Next Obligation. by intros n t n' [= _ <-]. Qed.
Next Obligation. by intros n b n' [= _ <-]. Qed.

Definition ex_net_options : NetOptions := mkNetOptions false false false 200 1000.
Example connect_succeeds : fst <$> connect ex_net_options 10 (ClientSocket_new ex_net_options [104] 5000 (∅, 3%nat)) = Some OK.
Proof. vm_compute. reflexivity. Qed.
Lemma accept_exact_witness : exists code s', acceptNextConnection ex_net_options 10 1000 false (ServerSocket_new 0 (∅, 3%nat)) = Some (code, s')
  /\ (code = OK <-> 0 <= fd s') /\ toy_opened (net (closeAllNoCheck s')) = ∅.
Proof.
  destruct (accept_exact ex_net_options ∅ 10 1000 false (ServerSocket_new 0 (∅, 3%nat))) as (code & s' & E & _ & _ & Hc & Hcl);
    [split_and!; simpl; try done; constructor|simpl; lia|simpl; lia|lia|simpl; lia|simpl; lia|].
  exists code, s'. split; [exact E|]. split; [exact Hc|exact Hcl].
Defined.
Example accept_succeeds : (fun r => (r.1, listeningFds_ r.2, fd r.2, port r.2)) <$> acceptNextConnection ex_net_options 10 1000 false (ServerSocket_new 0 (∅, 3%nat))
  = Some (OK, [0; 1], 2, 5000).
Proof. vm_compute. reflexivity. Qed.
