(* ===== verification/Wdt.v ===== *)
(** The entry points of the library, [Wdt.cpp]: sending and receiving through the
    resource controller, and the instances of the applications.

    A pointer to a [Sender] or [Receiver] is the number of an [Object] of
    [ResourceController]; the objects themselves are [Life]s in [lives], where
    they stay when the last pointer is gone.  The operations here run one after
    another; what the threads of an object do is the argument [transfer] of
    [wdtSend] and [run] of [wdtReceiveFinish].  [None] is a failed check.  The
    abort checker that is set on an object is left out, and so are the flags of
    the command line, from which the options come. *)
From stdpp Require Import gmap strings.
From Stdlib Require Import QArith.
From S2P Require Import Prelude Serialization ErrorCodes Reporting LogParser LogManager FileSystem ByteSource SourceQueue Socket ReceiverThread Uri Throttler.
From S2P Require Import Lifecycle ResourceController.

(** The members of [Wdt]; the options are those of the controller. *)
Record Wdt (W F : Type) := mkWdt {
  initDone_ : bool;
  appName_ : string;
  resourceController_ : WdtResourceController;
  lives : gmap nat (Life W F)
}.
Arguments mkWdt {_ _}. Arguments initDone_ {_ _}. Arguments appName_ {_ _}. Arguments resourceController_ {_ _}. Arguments lives {_ _}.
#[global] Instance Wdt_settable {W F} : Settable (Wdt W F) := fun w =>
  mkWdt (initDone_ w) (appName_ w) (resourceController_ w) (lives w).

(** A byte string as a key of the maps of the controller. *)
Definition str (l : list Z) : string := String.string_of_list_ascii ((fun c => Ascii.ascii_of_nat (Z.to_nat c)) <$> l).
Definition getSenderIdentifier (req : WdtTransferRequest) : list Z :=
  if bool_decide (destIdentifier req = []) then hostName req else destIdentifier req.

Section wdt.
Context `{Host} {W F : Type} `{ServerSocket W} `{FileSystem F}.
Context (rnd : Q -> Q) (clock : nat -> Z) (buf : Z).
Context (o : LifeOptions) (env : LifeEnv) (makeServerSocket : Z -> WdtTransferRequest -> option W) (fuel : nat).
Abbreviation Life := (Life W F).
Abbreviation Wdt := (Wdt W F).

(** A call of the controller. *)
Definition onController {A} (f : WdtResourceController -> option (A * WdtResourceController)) (w : Wdt) : option (A * Wdt) :=
  let* (a, c) := f (resourceController_ w) in Some (a, w <| resourceController_ := c |>).

(** A new [Sender] or [Receiver] of the controller: it has the throttler of the
    controller and its options, of which [buf] is the buffer size. *)
Definition newObject (req : WdtTransferRequest) : Life := Receiver_new req buf [] <| Lifecycle.throttler_ := true |>.
Definition makeObject (n : nat) (role : Role) (name identifier : string) (req : WdtTransferRequest) (w : Wdt)
    : option (ErrorCode * option Object * Wdt) :=
  let* (code, object, c) := createObject rnd (clock n) role name identifier req (resourceController_ w) in
  let w := w <| resourceController_ := c |> in
  match code, object with
  | OK, Some ob => Some (OK, Some ob, w <| lives := <[object_id ob := newObject req]> (lives w) |>)
  | _, _ => Some (code, object, w)
  end.
(** The object behind a pointer. *)
Definition update (ob : Object) (l : Life) (w : Wdt) : Wdt := w <| lives := <[object_id ob := l]> (lives w) |>.

(** ** Sending *)

Definition createWdtSender (req : WdtTransferRequest) (terminateExistingOne : bool) (w : Wdt)
    : option (ErrorCode * option Object * Wdt) :=
  if negb (bool_decide (errorCode req = OK)) then Some (errorCode req, None, w)
  else
    let name := str (wdtNamespace req) in
    let secondKey := str (getSenderIdentifier req) in
    let* (errCode, senderPtr, w) := makeObject 0 SENDERS name secondKey req w in
    if bool_decide (errCode = ALREADY_EXISTS) && terminateExistingOne then
      let* sender := senderPtr in
      let* l := lives w !! object_id sender in
      if bool_decide (transferId (transferRequest_ l) = transferId req) then Some (ALREADY_EXISTS, senderPtr, w)
      else
        let w := update sender (life_abort ABORTED_BY_APPLICATION l) w in
        let* (_, w) := onController (releaseSender name secondKey) w in
        makeObject 1 SENDERS name secondKey req w
    else Some (errCode, senderPtr, w).

Definition releaseWdtSender (req : WdtTransferRequest) (w : Wdt) : option (ErrorCode * Wdt) :=
  onController (releaseSender (str (wdtNamespace req)) (str (getSenderIdentifier req))) w.

(** [transfer] is [Sender::transfer]: the error code of its report. *)
Definition wdtSend (transfer : Life -> ErrorCode * Life) (req : WdtTransferRequest) (terminateExistingOne : bool) (w : Wdt)
    : option (ErrorCode * Wdt) :=
  let* (errCode, sender, w) := createWdtSender req terminateExistingOne w in
  if negb (bool_decide (errCode = OK)) then Some (errCode, w)
  else
    let* sender := sender in
    let* l := lives w !! object_id sender in
    let* l := sender_init l in
    let w := update sender l w in
    if negb (bool_decide (errorCode (transferRequest_ l) = OK)) then Some (errorCode (transferRequest_ l), w)
    else
      let '(errCode, l) := transfer l in
      let w := update sender l w in
      let* (_, w) := releaseWdtSender req w in
      Some (errCode, w).

(** ** Receiving *)

(** With the request that is assigned; [exists_], [log] and [files] are what is on
    the disk. *)
Definition wdtReceiveStart (exists_ : bool) (log : LogFile) (files : F) (name : list Z) (req : WdtTransferRequest) (identifier : list Z)
    (w : Wdt) : option (ErrorCode * WdtTransferRequest * Wdt) :=
  if negb (bool_decide (errorCode req = OK)) then Some (errorCode req, req, w)
  else
    let* (errCode, receiver, w) := makeObject 0 RECEIVERS (str name) (str identifier) req w in
    if negb (bool_decide (errCode = OK)) then Some (errCode, req <| errorCode := errCode |>, w)
    else
      let* receiver := receiver in
      let* l := lives w !! object_id receiver in
      let* l := Receiver_init o env makeServerSocket fuel exists_ log files l in
      let w := update receiver l w in
      let req := transferRequest_ l in
      if negb (bool_decide (errorCode req = OK)) then Some (errorCode req, req, w)
      else
        let* l := transferAsync l in
        Some (OK, req <| errorCode := OK |>, update receiver l w).

(** The pointer from the controller and the one of this function are the last
    ones: the receiver is destroyed at the end. *)
Definition wdtReceiveFinish (run : Life -> Life) (name identifier : list Z) (w : Wdt) : option (ErrorCode * Wdt) :=
  match getReceiver (str name) (str identifier) (resourceController_ w) with
  | None => Some (NOT_FOUND, w)
  | Some receiver =>
      let* l := lives w !! object_id receiver in
      let* (report, l) := Receiver_finish o env run l in
      let w := update receiver l w in
      let* (_, w) := onController (releaseReceiver (str name) (str identifier)) w in
      let* _ := Receiver_destroy o env run l in
      Some (getErrorCode (summary_ report), w)
  end.

(** ** Instances *)

(** The constructor: the controller with its throttler. *)
Definition Wdt_new (options : ControllerOptions) (throttler : Throttler) : Wdt :=
  mkWdt false "" (WdtResourceController_make options throttler) ∅.
Abbreviation Registry := (gmap string Wdt).

Definition getWdtInternal (app : string) (factory : option Wdt) (s_wdtMap : Registry) : option (Wdt * Registry) :=
  match s_wdtMap !! app with
  | Some w => Some (w, s_wdtMap)
  | None => let* w := factory in Some (w, <[app := w]> s_wdtMap)
  end.
Definition initializeWdtInternal (app : string) (w : Wdt) : ErrorCode * Wdt :=
  if initDone_ w then (ERROR, w)
  else
    let w := w <| appName_ := app |> <| initDone_ := true |> in
    let c := resourceController_ w in
    (OK, w <| resourceController_ :=
      c <| throttler_ := setThrottlerRates rnd (clock 0) (getThrottlerOptions rnd (options_ c)) (throttler_ c) |> |>).
(** [made] is what the constructor makes, if it is called. *)
Definition initializeWdt (app : string) (made : Wdt) (s_wdtMap : Registry) : option Registry :=
  let* (res, s_wdtMap) := getWdtInternal app (Some made) s_wdtMap in
  Some (<[app := (initializeWdtInternal app res).2]> s_wdtMap).
Definition getWdt (app : string) (s_wdtMap : Registry) : option Wdt :=
  let* (res, _) := getWdtInternal app None s_wdtMap in
  check initDone_ res ;; Some res.
Definition releaseWdt (app : string) (s_wdtMap : Registry) : Registry := delete app s_wdtMap.
End wdt.
