(* ===== verification/WdtProps.v ===== *)
(** The entry points of the library: sending leaves nothing in the resource
    controller, receiving is found again, and the instances of the applications. *)
From stdpp Require Import gmap strings.
From Stdlib Require Import QArith.
From S2P Require Import Prelude Serialization ErrorCodes Protocol Reporting LogParser LogManager FileSystem FileCreator ByteSource SourceQueue Socket ReceiverThread Uri Throttler.
From S2P Require Import Lifecycle LifecycleProps LifecycleResume ResourceController ResourceControllerProps Wdt.
From S2P Require Import LogHistory Transfer LifecycleExamples ResourceControllerProps.

Section props.
Context {W F : Type} (rnd : Q -> Q) (clock : nat -> Z) (buf : Z).
Abbreviation Life := (Life W F).
Abbreviation Wdt := (Wdt W F).
Abbreviation found role name identifier w := (getObject role name identifier (resourceController_ w)).

(** Nothing but the object with this key changes. *)
Definition only (role : Role) (name identifier : string) (w w' : Wdt) : Prop :=
  forall role' name' id', (role', name', id') <> (role, name, identifier) -> found role' name' id' w' = found role' name' id' w.
#[global] Instance only_po role name identifier : PreOrder (only role name identifier).
Proof. split; [by intros w|]. intros a b c Hab Hbc role' name' id' Hne. by rewrite Hbc, Hab. Qed.

(** The counts of the controller are right, and no pointer in it dangles. *)
Definition healthy (w : Wdt) : Prop :=
  tidy (resourceController_ w) /\ forall role name identifier ob, found role name identifier w = Some ob -> is_Some (lives w !! object_id ob).

Lemma healthy_update ob l w : healthy w -> healthy (update ob l w).
Proof.
  intros [T Hl]. split; [done|]. intros role name id ob' E. simpl. destruct (decide (object_id ob = object_id ob')) as [->|Hne];
    [rewrite lookup_insert_eq; eauto|rewrite lookup_insert_ne by done; eauto].
Qed.
Lemma only_controller role name id (w w' : Wdt) : resourceController_ w' = resourceController_ w -> only role name id w w'.
Proof. intros E role' name' id' _. by rewrite E. Qed.

Lemma releaseObject_spec role name id c : accounted (c, []) ->
  exists code c', releaseObject role name id c = Some (code, c') /\ getObject role name id c' = None
    /\ forall role' name' id', (role', name', id') <> (role, name, id) -> getObject role' name' id' c' = getObject role' name' id' c.
Proof.
  intros A. unfold releaseObject. destruct (getNamespaceController name c) as [p|] eqn:En.
  2: { eexists _, _. split; [done|]. split; [|done]. unfold getObject, find. by rewrite En. }
  destruct (acc_mapped _ A _ _ En) as [ns Hns]. simpl in Hns. unfold atController. rewrite Hns.
  destruct (ns_release role id ns) as [code ns'] eqn:Er. eexists _, _. split; [apply f_equal, surjective_pairing|].
  set (c1 := (if bool_decide (code = OK) then _ else _).2).
  assert (forall role' name' id', getObject role' name' id' c1 = if decide (name = name') then objects role' ns' !! id' else getObject role' name' id' c) as Hget.
  { intros role' name' id'. eapply getObject_at; [exact A|exact En|..]; unfold c1; by destruct (bool_decide _). }
  assert (forall role' id', getObject role' name id' c = objects role' ns !! id') as Hold.
  { intros. unfold getObject, find. by rewrite En, Hns. }
  assert (forall role' id', objects role' ns' !! id' = if decide (role = role' /\ id = id') then None else objects role' ns !! id') as Hnew.
  { intros role' id'. revert Er. unfold ns_release. destruct (objects role ns !! id) eqn:Eo; intros [= <- <-].
    - rewrite objects_base, objects_set. destruct (decide (role = role')) as [<-|]; [|rewrite decide_False; naive_solver].
      destruct (decide (id = id')) as [<-|]; [rewrite lookup_delete_eq, decide_True; done|rewrite lookup_delete_ne, decide_False; naive_solver].
    - case_decide as Ed; [|done]. by destruct Ed as [<- <-]. }
  split; [rewrite Hget, decide_True, Hnew, decide_True; done|].
  intros role' name' id' Hne. rewrite Hget. case_decide; [|done]. subst. rewrite Hnew, Hold, decide_False; [done|]. naive_solver.
Qed.

Lemma release_spec role name id (w : Wdt) : healthy w ->
  exists code w', onController (releaseObject role name id) w = Some (code, w') /\ healthy w' /\ only role name id w w'
    /\ found role name id w' = None /\ lives w' = lives w.
Proof.
  intros [[A Hc] Hl]. destruct (releaseObject_spec role name id _ A) as (code & c' & E & Hnone & Hother). unfold onController. rewrite E.
  cbn [mbind option_bind]. eexists _, _. split; [done|]. split_and!; [|exact Hother|done|done].
  split; [eapply (tidy_seq rnd); [by split|by eapply seq_release]|]. intros role' name' id' ob. simpl.
  destruct (decide ((role', name', id') = (role, name, id))) as [[= -> -> ->]|Hne]; [by rewrite Hnone|]. rewrite Hother by done. apply Hl.
Qed.

Lemma makeObject_spec n role name id req (w : Wdt) : healthy w ->
  exists code object w', makeObject rnd clock buf n role name id req w = Some (code, object, w') /\ healthy w' /\ only role name id w w'
    /\ ((code = OK /\ found role name id w = None
         /\ exists ob, object = Some ob /\ found role name id w' = Some ob /\ lives w' !! object_id ob = Some (newObject buf req))
        \/ (code <> OK /\ found role name id w' = found role name id w /\ lives w' = lives w
            /\ (code = ALREADY_EXISTS -> object = found role name id w /\ is_Some object))).
Proof.
  intros [T Hl]. pose proof T as [A _].
  destruct (create_and_find rnd (clock n) role name id req _ A) as (code & object & c' & E & Hok & Hex & _ & Hkeep).
  pose proof (tidy_create rnd _ _ _ _ _ _ _ _ _ T E) as T'. unfold makeObject. rewrite E. cbn [mbind option_bind].
  destruct (decide (code = OK)) as [->|Hne].
  - destruct (Hok eq_refl) as (Hnone & -> & Hfound). eexists _, _, _. split; [done|]. split_and!.
    + split; [done|]. intros role' name' id' ob. simpl. destruct (decide ((role', name', id') = (role, name, id))) as [[= -> -> ->]|Hn].
      * rewrite Hfound. intros [= <-]. simpl. rewrite lookup_insert_eq. eauto.
      * rewrite Hkeep by auto. intros Hob. destruct (decide (nextObject (resourceController_ w) = object_id ob)) as [->|];
          [rewrite lookup_insert_eq; eauto|rewrite lookup_insert_ne by done; eauto].
    + intros role' name' id' Hn. simpl. apply Hkeep. auto.
    + left. split_and!; [done..|]. eexists. split_and!; [done|exact Hfound|]. simpl. apply lookup_insert_eq.
  - assert (forall role' name' id', getObject role' name' id' c' = found role' name' id' w) as Hsame by (intros; apply Hkeep; auto).
    exists code, object, (w <| resourceController_ := c' |>). split; [by destruct code|]. split_and!.
    + split; [done|]. intros role' name' id' ob. simpl. rewrite Hsame. apply Hl.
    + intros role' name' id' _. apply Hsame.
    + right. split_and!; [done|apply Hsame|done|exact Hex].
Qed.

(** ** Sending *)

Abbreviation nameOf req := (str (wdtNamespace req)).
Abbreviation keyOf req := (str (getSenderIdentifier req)).

Lemma createWdtSender_spec req terminate (w : Wdt) : healthy w -> errorCode req = OK ->
  exists code object w', createWdtSender rnd clock buf req terminate w = Some (code, object, w') /\ healthy w'
    /\ only SENDERS (nameOf req) (keyOf req) w w'
    /\ ((code = OK /\ exists ob, object = Some ob /\ found SENDERS (nameOf req) (keyOf req) w' = Some ob
                              /\ lives w' !! object_id ob = Some (newObject buf req))
        \/ (code <> OK /\ (found SENDERS (nameOf req) (keyOf req) w' = None
                           \/ found SENDERS (nameOf req) (keyOf req) w' = found SENDERS (nameOf req) (keyOf req) w))).
Proof.
  intros Hw Hok. unfold createWdtSender. rewrite Hok, bool_decide_eq_true_2 by done. cbn [negb].
  destruct (makeObject_spec 0 SENDERS (nameOf req) (keyOf req) req w Hw) as (code & object & w1 & -> & H1 & O1 & Hcase). cbn [mbind option_bind].
  destruct (bool_decide (code = ALREADY_EXISTS) && terminate) eqn:Et.
  2: { exists code, object, w1. split_and!; [done..|]. destruct Hcase as [(? & _ & ?)|(? & ? & _)]; [left|right]; auto. }
  apply andb_prop in Et as [Hc%bool_decide_eq_true _]. subst code. destruct Hcase as [(? & _)|(_ & Hsame & Hlives & Hobject)]; [done|].
  destruct (Hobject eq_refl) as [Hobj [ob Hob]]. rewrite Hob. cbn [mbind option_bind].
  destruct H1 as [T1 L1]. rewrite Hob, <- Hsame in Hobj. destruct (L1 _ _ _ _ (eq_sym Hobj)) as [l Hl]. rewrite Hl. cbn [mbind option_bind].
  case_bool_decide; [exists ALREADY_EXISTS, (Some ob), w1; split_and!; [done|by split|done|]; right; split; [done|by right]|].
  set (w2 := update ob _ w1). assert (healthy w2) as H2 by (apply healthy_update; by split).
  unfold releaseSender. destruct (release_spec SENDERS (nameOf req) (keyOf req) w2 H2) as (rc & w3 & -> & H3 & O3 & Hnone & _). cbn [mbind option_bind].
  destruct (makeObject_spec 1 SENDERS (nameOf req) (keyOf req) req w3 H3) as (code & object' & w4 & -> & H4 & O4 & Hcase).
  exists code, object', w4. split_and!; [done..| |].
  - etransitivity; [exact O1|]. etransitivity; [apply (only_controller _ _ _ w1 w2); done|]. etransitivity; [exact O3|exact O4].
  - destruct Hcase as [(? & _ & ?)|(? & Hs & _)]; [left|right]; [auto|]. split; [done|]. left. by rewrite Hs.
Qed.

(** What [init] of a sender accepts. *)
Definition sendable (req : WdtTransferRequest) : Prop :=
  errorCode req = OK /\ 0 < protocolVersion req /\ directory req <> [] /\ ports req <> [] /\ hostName req <> [].
Definition negotiated (req : WdtTransferRequest) : WdtTransferRequest :=
  req <| protocolVersion := negotiateProtocol (protocolVersion req) protocol_version |> <| errorCode := OK |>.
Lemma negotiate_nonneg a b : 0 < a -> 0 <= b -> 0 <= negotiateProtocol a b.
Proof. intros Ha Hb. unfold negotiateProtocol. repeat case_match; lia. Qed.
Lemma sender_init_sendable (l : Life) : sendable (transferRequest_ l) ->
  exists l', sender_init l = Some l' /\ transferRequest_ l' = negotiated (transferRequest_ l).
Proof.
  intros (Hok & Hv & Hd & Hp & Hh). unfold sender_init, life_negotiateProtocol. rewrite (proj2 (Z.ltb_lt _ _) Hv). cbn [mbind option_bind].
  pose proof (negotiate_nonneg (protocolVersion (transferRequest_ l)) protocol_version Hv ltac:(unfold protocol_version; lia)) as Hn.
  unfold sender_validateTransferRequest, validateTransferRequest, onRequest. simpl. rewrite Hok. simpl.
  rewrite (bool_decide_eq_false_2 (directory _ = [])), (bool_decide_eq_false_2 (ports _ = [])) by done. rewrite (proj2 (Z.ltb_ge _ _) Hn). simpl.
  rewrite (bool_decide_eq_false_2 (hostName _ = [])) by done. simpl. by eexists.
Qed.

(** C17: C0. Sending with a valid request always returns, and leaves nothing behind:
    either a sender was made, initialised with the negotiated request, its
    transfer gave the code that is returned, and no sender is left under the key
    of the request; or none was made, the code is an error, and there is under
    the key what there was, unless that was terminated.  The counts of the
    controller stay right, its pointers valid, and no other sender or receiver
    is touched. *)
Theorem send_leaves_no_sender transfer req terminate (w : Wdt) :
  healthy w -> sendable req ->
  exists code w', wdtSend rnd clock buf transfer req terminate w = Some (code, w') /\ healthy w'
    /\ only SENDERS (nameOf req) (keyOf req) w w'
    /\ ((exists l, transferRequest_ l = negotiated req /\ code = (transfer l).1
                  /\ found SENDERS (nameOf req) (keyOf req) w' = None)
        \/ (code <> OK /\ (found SENDERS (nameOf req) (keyOf req) w' = None
                           \/ found SENDERS (nameOf req) (keyOf req) w' = found SENDERS (nameOf req) (keyOf req) w))).
Proof.
  intros Hw Hreq. pose proof Hreq as [Hok _]. unfold wdtSend.
  destruct (createWdtSender_spec req terminate w Hw Hok) as (code & object & w1 & -> & H1 & O1 & Hcase). cbn [mbind option_bind].
  destruct Hcase as [(-> & ob & -> & _ & Hl)|[Hne Hfound]].
  2: { rewrite bool_decide_eq_false_2 by done. cbn [negb]. exists code, w1. split_and!; [done..|]. by right. }
  rewrite bool_decide_eq_true_2 by done. cbn [negb mbind option_bind]. rewrite Hl. cbn [mbind option_bind].
  destruct (sender_init_sendable (newObject buf req) Hreq) as (l & -> & Hreq'). cbn [mbind option_bind].
  rewrite Hreq', bool_decide_eq_true_2 by done. cbn [negb]. destruct (transfer l) as [code l'] eqn:Et.
  set (w2 := update ob l' (update ob l w1)). assert (healthy w2) as H2 by (by repeat apply healthy_update).
  unfold releaseWdtSender, releaseSender. destruct (release_spec SENDERS (nameOf req) (keyOf req) w2 H2) as (rc & w3 & -> & H3 & O3 & Hnone & _).
  cbn [mbind option_bind]. exists code, w3. split_and!; [done..| |].
  - etransitivity; [exact O1|]. etransitivity; [apply (only_controller _ _ _ w1 w2); done|exact O3].
  - left. exists l. split_and!; [exact Hreq'|by rewrite Et|done].
Qed.
End props.

(** ** Receiving *)

Section receive.
Context `{Host} {W F : Type} `{ServerSocket W} `{FileSystem F}.
Context (rnd : Q -> Q) (clock : nat -> Z) (buf : Z).
Context (o : LifeOptions) (env : LifeEnv) (mk : Z -> WdtTransferRequest -> option W) (fuel : nat).
Abbreviation Life := (Life W F).
Abbreviation Wdt := (Wdt W F).
Abbreviation found role name identifier w := (getObject role name identifier (resourceController_ w)).

Lemma transferAsync_status (l l' : Life) : transferAsync l = Some l' ->
  transferStatus_ l' = ONGOING /\ transferRequest_ l' = transferRequest_ l /\ store l' = store l.
Proof.
  unfold transferAsync, start_setup, start_threads, configureThrottler. simpl. case_bool_decide; [|done].
  destruct (Lifecycle.throttler_ l); simpl; (destruct (startThreads _ _); [|done]); intros [= <-]; done.
Qed.
Lemma finish_joins run (l l' : Life) report : transferStatus_ l = ONGOING -> Receiver_finish o env run l = Some (report, l') ->
  transferStatus_ l' = THREADS_JOINED.
Proof.
  unfold Receiver_finish. intros ->. destruct (fixAndCloseTransferLog _ _ _ _) as [l1|] eqn:E; [|done]. cbn [mbind option_bind]. intros [= _ <-].
  apply fixAndClose_same in E as (_ & -> & _). done.
Qed.

(** The log of the receiver is closed, or there is none. *)
Definition log_closed (l : Life) : Prop := forall st, store l = Some st -> destroy (tlog st) = Some tt.


(** ** Instances *)

(** C0. The instance of an application exists from the first [initializeWdt] to
    [releaseWdt]: in between [getWdt] returns it, initialised, and calling
    [initializeWdt] again changes nothing; outside [getWdt] fails its check.  An
    application never sees what is done for another one. *)
Theorem one_instance_per_application app made (s_wdtMap : gmap string Wdt) :
  initDone_ made = false -> s_wdtMap !! app = None ->
  exists w s1, initializeWdt rnd clock app made s_wdtMap = Some s1 /\ getWdt app s1 = Some w
    /\ initDone_ w = true /\ appName_ w = app /\ lives w = lives made
    /\ (forall made', initializeWdt rnd clock app made' s1 = Some s1)
    /\ getWdt app s_wdtMap = None /\ getWdt app (releaseWdt app s1) = None
    /\ (forall app', app' <> app -> s1 !! app' = s_wdtMap !! app' /\ releaseWdt app s1 !! app' = s_wdtMap !! app').
Proof.
  intros Hmade Hnone. unfold initializeWdt, getWdtInternal. rewrite Hnone. cbn [mbind option_bind].
  unfold initializeWdtInternal at 1 2. rewrite Hmade. cbn [snd]. set (w := made <| appName_ := app |> <| initDone_ := true |> <| resourceController_ := _ |>).
  rewrite insert_insert_eq. exists w, (<[app := w]> s_wdtMap). unfold getWdt, getWdtInternal, releaseWdt. split_and!; try done.
  - by rewrite lookup_insert_eq.
  - intros made'. rewrite lookup_insert_eq. cbn [mbind option_bind]. unfold initializeWdtInternal. simpl. by rewrite insert_insert_eq.
  - by rewrite Hnone.
  - by rewrite lookup_delete_eq.
  - intros app' Hne. by rewrite lookup_delete_ne, lookup_insert_ne.
Qed.
End receive.

(** ** Examples of the entry points, and what stays behind when an object cannot be
    initialised. *)
#[local] Existing Instance ex_port.
#[local] Existing Instance littleHost.

Definition ex_wdt : Wdt Z Mem := Wdt_new ResourceControllerProps.ex_options (ex_throttler 0 0 0).
Lemma ex_wdt_healthy : healthy ex_wdt.
Proof. split; [split; [apply accounted_start|]|]; intros *; by rewrite ?lookup_empty. Qed.
Definition ex_send (host : list Z) (id : list Z) : WdtTransferRequest :=
  WdtTransferRequest_default <| directory := [47] |> <| ports := [5] |> <| protocolVersion := 32 |> <| hostName := host |> <| transferId := id |>.
(** A transfer that succeeds. *)
Definition ex_transfer (l : Life Z Mem) : ErrorCode * Life Z Mem := (OK, l).
Abbreviation ex_wdtSend := (wdtSend exact (fun _ => 0) 4096 ex_transfer).

Lemma send_leaves_no_sender_witness :
  sendable (ex_send [104] [49])
  /\ exists w', ex_wdtSend (ex_send [104] [49]) false ex_wdt = Some (OK, w')
       /\ getObject SENDERS "" "h" (resourceController_ w') = None.
Proof.
  assert (sendable (ex_send [104] [49])) as Hs by (by split_and!). split; [exact Hs|].
  destruct (send_leaves_no_sender exact (fun _ => 0) 4096 ex_transfer (ex_send [104] [49]) false ex_wdt ex_wdt_healthy Hs)
    as (code & w' & E & _ & _ & [(l & _ & Hc & Hn)|[Hne _]]).
  - exists w'. simpl in Hc. rewrite Hc in E. split; [exact E|exact Hn].
  - exfalso. assert (option_map fst (ex_wdtSend (ex_send [104] [49]) false ex_wdt) = Some OK) as E' by (vm_compute; reflexivity).
    rewrite E in E'. injection E' as ->. by apply Hne.
Defined.

(** [init] rejects a request without a directory; the sender stays, and the next
    request for the host is refused, though nothing is being sent, and counted
    against the quota. *)
Example failed_send_stays :
  let bad := ex_send [104] [49] <| directory := [] |> in
  match ex_wdtSend bad false ex_wdt with
  | Some (c1, w1) =>
      c1 = INVALID_REQUEST /\ getCounts (resourceController_ w1) = (1, 1, 0)
      /\ match ex_wdtSend (ex_send [104] [50]) false w1 with
         | Some (c2, _) => c2 = ALREADY_EXISTS
         | None => False
         end
      /\ match ex_wdtSend (ex_send [104] [50]) true w1 with
         | Some (c3, w3) => c3 = OK /\ getCounts (resourceController_ w3) = (1, 0, 0)
         | None => False
         end
  | None => False
  end.
Proof. vm_compute. repeat split. Qed.

(** ** Receiving *)

Definition ex_opts : LifeOptions := ex_life_options LogHistory.ex_options.
Abbreviation ex_receive := (wdtReceiveStart exact (fun _ => 0) 5000 ex_opts ex_life_env ex_socket 10 false ex_no_log ex_mem).
Definition ex_received : Wdt Z Mem :=
  Eval vm_compute in match ex_receive [110] (ex_request [5; 6]) [120] ex_wdt with Some (_, _, w) => w | None => ex_wdt end.


(** A receiver that cannot be initialised stays, too, and holds its place. *)
Example failed_receive_stays :
  match ex_receive [110] (ex_request [9]) [120] ex_wdt with
  | Some (c1, _, w1) =>
      c1 = ERROR /\ getCounts (resourceController_ w1) = (1, 0, 1)
      /\ match ex_receive [110] (ex_request [5]) [120] w1 with
         | Some (c2, _, _) => c2 = QUOTA_EXCEEDED
         | None => False
         end
  | None => False
  end.
Proof. vm_compute. repeat split. Qed.

Lemma one_instance_per_application_witness :
  exists w s1, initializeWdt exact (fun _ => 0) "app" ex_wdt ∅ = Some s1 /\ getWdt "app" s1 = Some w /\ getWdt "app" (releaseWdt "app" s1) = None.
Proof.
  destruct (one_instance_per_application exact (fun _ => 0) "app" ex_wdt ∅ eq_refl (lookup_empty _)) as (w & s1 & E & E1 & _ & _ & _ & _ & _ & E2 & _).
  exists w, s1. split; [exact E|]. split; [exact E1|exact E2].
Defined.
