(* ===== verification/SenderLife.v ===== *)
(** The life of a sender object: [Sender::start], [finish], [transfer],
    [getTransferReport] and the destructor of [Sender.cpp].

    The members of [WdtBase] are those of a [Life]; the queue, the histories and
    the statistics of the threads are the [Sys] of [Transfer], which [start]
    makes.  What the directory thread does until [start] joins it, with
    [two_phases], is the argument [discover], and what all threads do until
    [finish] joins them is [run].  The histories are by port, so the statistics
    of a second thread on the same port have no place here; the theorems are
    about distinct ports.  [None] is a failed check.  The reporter of the
    progress is left out. *)
From stdpp Require Import gmap.
From S2P Require Import Prelude Serialization ErrorCodes Protocol Reporting ByteSource SourceQueue Explore History Transfer.
From S2P Require Import ThreadsController ReceiverThread Uri Lifecycle.

(** What the object uses of [WdtOptions], and the part of the request that says
    which files are sent. *)
Record SenderOptions := mkSenderOptions {
  include_regex : list Z;
  exclude_regex : list Z;
  prune_dir_regex : list Z;
  follow_symlinks : bool;
  block_size_mbytes : Z;
  open_files_during_discovery : Z;
  odirect_reads : bool;
  two_phases : bool;
  sender_resumption : bool;
  delete_extra_files : bool;
  full_reporting : bool
}.
Record SenderFiles := mkSenderFiles {
  fileInfo : list WdtFileInfo;
  fileInfoGenerator : option (list (list WdtFileInfo));
  disableDirectoryTraversal : bool
}.

Record Sender (W F : Type) := mkSender {
  sender_base : Life W F;
  transfer_ : option Sys;
  senderThreads_ : list (LThread W);
  dirThread_ : bool;
  downloadResumptionEnabled_ : bool
}.
Arguments mkSender {_ _}. Arguments sender_base {_ _}. Arguments transfer_ {_ _}. Arguments senderThreads_ {_ _}.
Arguments dirThread_ {_ _}. Arguments downloadResumptionEnabled_ {_ _}.
#[global] Instance Sender_settable {W F} : Settable (Sender W F) := fun s =>
  mkSender (sender_base s) (transfer_ s) (senderThreads_ s) (dirThread_ s) (downloadResumptionEnabled_ s).

Section sender_life.
Context `{Folly} {W F : Type} (env : Env) (o : SenderOptions) (files : SenderFiles).
Abbreviation Life := (Life W F).
Abbreviation Sender := (Sender W F).

Definition Sender_new (b : Life) : Sender := mkSender b None [] false false.

(** ** Starting *)

Definition configureQueue (req : WdtTransferRequest) : DirectorySourceQueue :=
  let q := DirectorySourceQueue_make env (directory req) in
  let q := setIncludePattern (include_regex o) q in
  let q := setExcludePattern (exclude_regex o) q in
  let q := setPruneDirPattern (prune_dir_regex o) q in
  let q := setFollowSymlinks env (follow_symlinks o) q in
  let q := setBlockSizeMbytes (block_size_mbytes o) q in
  let q := setNumClientThreads (Zlen (ports req)) q in
  let q := setOpenFilesDuringDiscovery (open_files_during_discovery o) q in
  let q := setDirectReads (odirect_reads o) q in
  if negb (bool_decide (fileInfo files = [])) || bool_decide (is_Some (fileInfoGenerator files)) || disableDirectoryTraversal files then
    let q := setFileInfo (fileInfo files) q in
    match fileInfoGenerator files with Some gen => setFileInfoGenerator gen q | None => q end
  else q.

(** The constructor of a thread adds its history and names its statistics. *)
Definition newStats (index : Z) : TransferStats := setId (str_int index) TransferStats_default.
Definition addHistories (ts : list (LThread W)) : Controller :=
  foldl (fun c t => addThreadHistory (lt_port t) (newStats (lt_index t)) c) [] ts.

Definition Sender_start (discover : Sys -> Sys) (s : Sender) : option (ErrorCode * Sender) :=
  if negb (bool_decide (transferStatus_ (sender_base s) = NOT_STARTED)) then Some (ALREADY_EXISTS, s)
  else
    let b := setTransferStatus ONGOING (sender_base s) in
    let req := transferRequest_ b in
    let q := configureQueue req in
    let b := checkAndUpdateBufferSize b in
    let resumption := downloadResumptionEnabled req || sender_resumption o in
    let deleteExtraFiles := downloadResumptionEnabled req || delete_extra_files o in
    let* b := if throttler_ b then Some b else configureThrottler b in
    let c := setNumConditions 0 (setNumFunnels 1 (setNumBarriers 1 (ThreadsController_make (Zlen (ports req))))) in
    let* (ts, c) := makeThreads (ports req) 0 c in
    let q := if resumption && deleteExtraFiles && (DELETE_CMD_VERSION <=? protocolVersion req) then enableFileDeletion q else q in
    let σ := mkSys q (addHistories ts) [] [] [] false in
    let σ := if two_phases o then discover σ else σ in
    let b := b <| threadsController_ := Some c |> in
    let* ts := startThreads ts b in
    Some (OK, mkSender b (Some σ) ts (negb (two_phases o)) resumption).

(** ** Finishing *)

Definition getGlobalTransferStats (σ : Sys) : TransferStats := foldl addStats TransferStats_default (thread_stats (threads σ)).
Definition sender_getTransferReport (s : Sender) : TransferReport :=
  let report :=
    match transfer_ s with
    | Some σ => TransferReport_global (getGlobalTransferStats σ) (SourceQueue.totalFileSize_ (queue σ)) (numEntries_ (queue σ)) (initFinished_ (queue σ))
    | None => TransferReport_global TransferStats_default 0 0 false
    end in
  if bool_decide (transferStatus_ (sender_base s) = NOT_STARTED) && bool_decide (getErrorCode (summary_ report) = OK)
  then Reporting.setErrorCode ERROR report else report.

(** The histories and the queue after the report was made. *)
Definition settle (σ : Sys) : option Sys :=
  let allSourcesAcked := existsb (fun s => bool_decide (getErrorCode s = OK)) (thread_stats (threads σ)) in
  let* (_, ths, q) := finishHistories allSourcesAcked (full_reporting o) (threads σ) (queue σ) in
  Some (σ <| threads := ths |> <| queue := (getFailedSourceStats q).2 |>).
Definition Sender_finish (run : Sys -> Sys) (s : Sender) : option (TransferReport * Sender) :=
  match transferStatus_ (sender_base s) with
  | NOT_STARTED | THREADS_JOINED => Some (sender_getTransferReport s, s)
  | _ =>
      let* σ := transfer_ s in
      let σ := run σ in
      let* report := finish (full_reporting o) (threads σ) (queue σ) in
      let* σ := settle σ in
      Some (report, s <| sender_base := setTransferStatus THREADS_JOINED (sender_base s) |> <| transfer_ := Some σ |>
                      <| senderThreads_ := (fun t => t <| lt_thread := false |>) <$> senderThreads_ s |> <| dirThread_ := false |>)
  end.
Definition Sender_transfer (discover run : Sys -> Sys) (s : Sender) : option (TransferReport * Sender) :=
  let* (_, s) := Sender_start discover s in
  Sender_finish run s.
Definition Sender_destroy (run : Sys -> Sys) (s : Sender) : option Sender :=
  let s := if bool_decide (transferStatus_ (sender_base s) = ONGOING)
           then s <| sender_base := life_abort ABORTED_BY_APPLICATION (sender_base s) |> else s in
  let* (_, s) := Sender_finish run s in Some s.
End sender_life.
