(* ===== verification/SenderLifeProps.v ===== *)
(** A sender from its request to its report: what [start] leaves is a state of
    the transfer system, so that the report that [finish] returns is to be
    trusted. *)
From stdpp Require Import gmap.
From S2P Require Import Prelude Serialization ErrorCodes Protocol Reporting ByteSource SourceQueue SourceQueueProps Explore History Transfer.
From S2P Require Import ThreadsController ReceiverThread Uri Lifecycle LifecycleProps SenderLife.
From S2P Require Import UriExamples.

Section props.
Context `{Folly} {W F : Type} (env : Env) (o : SenderOptions) (files : SenderFiles).
Abbreviation Life := (Life W F).
Abbreviation Sender := (Sender W F).

(** ** The threads *)

Lemma makeThreads_total ps i c :
  (forall j, i <= j < i + Zlen ps -> is_Some (threadStateMap_ c !! j)) ->
  exists ts c', makeThreads (W := W) ps i c = Some (ts, c') /\ lt_port <$> ts = ps.
Proof.
  revert i c. induction ps as [|p ps IH]; intros i c Hc; [by eexists _, _|]. rewrite Zlen_cons in Hc. cbn [makeThreads]. unfold registerThread.
  destruct (Hc i) as [st Hst]; [lia|]. rewrite Hst. cbn [mbind option_bind].
  destruct (IH (i + 1) (c <| threadStateMap_ := <[i := RUNNING]> (threadStateMap_ c) |>)) as (ts & c' & -> & Hp).
  - intros j Hj. simpl. rewrite lookup_insert_ne by lia. apply Hc. lia.
  - cbn [mbind option_bind]. eexists _, _. split; [done|]. by rewrite fmap_cons, Hp.
Qed.
Lemma controller_states n (c : ThreadsController) :
  threadStateMap_ c = threadStateMap_ (ThreadsController_make n) -> forall j, 0 <= j < 0 + n -> is_Some (threadStateMap_ c !! j).
Proof.
  intros -> j Hj. simpl. apply elem_of_dom. rewrite dom_list_to_map, elem_of_list_to_set, <- list_fmap_compose.
  apply list_elem_of_fmap. exists j. split; [done|]. apply elem_of_seqZ. lia.
Qed.

Lemma find_history_None p (c : Controller) : p ∉ c.*1 -> find_history p c = None.
Proof.
  intros Hp. unfold find_history. unfold Controller in *. destruct (head (base.filter _ _)) as [e|] eqn:E; [|done]. exfalso.
  apply head_Some_elem_of, list_elem_of_filter in E as [<- He]. destruct Hp. apply list_elem_of_fmap. eauto.
Qed.
Lemma addHistories_spec (ts : list (LThread W)) (c : Controller) : NoDup (lt_port <$> ts) -> (forall p, p ∈ lt_port <$> ts -> p ∉ c.*1) ->
  foldl (fun c t => addThreadHistory (lt_port t) (newStats (lt_index t)) c) c ts
  = c ++ ((fun t => (lt_port t, (ThreadTransferHistory_make (lt_port t), newStats (lt_index t)))) <$> ts).
Proof.
  revert c. induction ts as [|t ts IH]; intros c Hnd Hc; [by rewrite app_nil_r|]. rewrite !fmap_cons in *. apply NoDup_cons in Hnd as [Hn Hnd].
  cbn [foldl]. unfold addThreadHistory at 2. rewrite (find_history_None _ _ (Hc (lt_port t) ltac:(set_solver))).
  rewrite IH; [by rewrite <- app_assoc|done|]. intros p Hp. rewrite fmap_app. simpl. rewrite elem_of_app, list_elem_of_singleton.
  intros [Hin| ->]; [set_solver|done].
Qed.

(** ** The system *)

Lemma configured_queue req : configured env (configureQueue env o files req).
Proof.
  unfold configureQueue. set (q := setDirectReads _ _). assert (configured env q) as Hq.
  { apply conf_direct, conf_open_files, conf_threads, conf_block_size, conf_symlinks, conf_prune, conf_exclude, conf_include, conf_make. }
  clearbody q. destruct (_ || _ || _); [|exact Hq]. destruct (fileInfoGenerator files); [apply conf_generator|]; apply conf_file_info, Hq.
Qed.
(** The steps that name the statistics of the threads. *)
Lemma name_threads q (l1 : Controller) (ts : list (LThread W)) :
  rtc (Transfer.step env)
    (mkSys q (l1 ++ ((fun t => (lt_port t, (ThreadTransferHistory_make (lt_port t), TransferStats_default))) <$> ts)) [] [] [] false)
    (mkSys q (l1 ++ ((fun t => (lt_port t, (ThreadTransferHistory_make (lt_port t), newStats (lt_index t)))) <$> ts)) [] [] [] false).
Proof.
  revert l1. induction ts as [|t ts IH]; intros l1; [apply rtc_refl|]. rewrite !fmap_cons. eapply rtc_l.
  - eapply step_stats; [reflexivity|]. instantiate (1 := newStats (lt_index t)). done.
  - simpl. specialize (IH (l1 ++ [(lt_port t, (ThreadTransferHistory_make (lt_port t), newStats (lt_index t)))])).
    rewrite <- !app_assoc in IH. exact IH.
Qed.
Lemma started_reachable q (ts : list (LThread W)) : configured env q -> NoDup (lt_port <$> ts) -> reachable env (mkSys q (addHistories ts) [] [] [] false).
Proof.
  intros Hq Hnd. unfold addHistories. rewrite addHistories_spec by (done || set_solver). cbn [app].
  eexists. split; [|apply (name_threads q [])]. exists q, (lt_port <$> ts). split; [done|]. split; [|done]. simpl. by rewrite <- list_fmap_compose.
Qed.
Lemma system_rtc σ σ' : reachable env σ -> rtc (Transfer.step env) σ σ' -> reachable env σ'.
Proof. intros (σ0 & Hi & Hr) Hs. exists σ0. split; [done|]. by etransitivity. Qed.
Lemma step_threads σ σ' : Transfer.step env σ σ' -> length (threads σ') = length (threads σ).
Proof.
  destruct 1 as [| | | | | | | | | | | | |??????????????? Hh Hth ??|??????????? Hth ???|???? Hs ? Hg|?????? Hth|????????? Hth ?|?????? Hth|??????? Hth ?];
    simpl; try done; rewrite ?Hth, ?length_app; try done.
  unfold handleGlobalCheckpoint in Hg. destruct (find_history _ _) as [[h ts]|]; [|by simplify_eq].
  destruct (setGlobalCheckpoint _ _ _ _) as [[[[? ?] ?] ?]|]; [|done]. simplify_eq/=. unfold set_history. by rewrite length_fmap.
Qed.
Lemma rtc_threads σ σ' : rtc (Transfer.step env) σ σ' -> length (threads σ') = length (threads σ).
Proof. induction 1 as [|σ1 σ2 σ3 Hs _ IH]; [done|]. by rewrite IH, (step_threads _ _ Hs). Qed.

(** ** Starting *)

Lemma configureQueue_deletes req : deleteFiles_ (configureQueue env o files req) = false.
Proof.
  unfold configureQueue. set (q := setDirectReads _ _). assert (deleteFiles_ q = false) as Hq.
  { unfold q, setFollowSymlinks, DirectorySourceQueue_make, setRootDir. simpl. destruct (bool_decide (directory req = [])); destruct (follow_symlinks o); simpl;
      unfold setRootDir; repeat case_match; done. }
  clearbody q. destruct (_ || _ || _); [|exact Hq]. by destruct (fileInfoGenerator files).
Qed.

Lemma start_spec discover (s : Sender) :
  let req := transferRequest_ (sender_base s) in
  transferStatus_ (sender_base s) = NOT_STARTED -> NoDup (ports req) ->
  exists s1 σ0, Sender_start env o files discover s = Some (OK, s1)
    /\ transfer_ s1 = Some (if two_phases o then discover σ0 else σ0)
    /\ reachable env σ0 /\ (threads σ0).*1 = ports req /\ opening σ0 = [] /\ held σ0 = []
    /\ queue σ0 = (if (downloadResumptionEnabled req || sender_resumption o) && (downloadResumptionEnabled req || delete_extra_files o)
                      && (DELETE_CMD_VERSION <=? protocolVersion req)
                   then enableFileDeletion (configureQueue env o files req) else configureQueue env o files req)
    /\ transferStatus_ (sender_base s1) = ONGOING /\ lt_port <$> senderThreads_ s1 = ports req
    /\ Forall (fun t => lt_thread t = true) (senderThreads_ s1).
Proof.
  intros req Hst Hnd. unfold Sender_start. rewrite Hst, bool_decide_eq_true_2 by done. cbn [negb].
  set (b := checkAndUpdateBufferSize _). assert (exists b', (if throttler_ b then Some b else configureThrottler b) = Some b'
    /\ transferStatus_ b' = ONGOING) as (b' & -> & Hb').
  { unfold configureThrottler. destruct (throttler_ b); eexists; by split. }
  cbn [mbind option_bind]. simpl transferRequest_. fold req.
  set (c := setNumConditions 0 _).
  destruct (makeThreads_total (ports req) 0 c) as (ts & c' & Em & Hp); [apply (controller_states (Zlen (ports req))); done|].
  rewrite Em. cbn [mbind option_bind]. pose proof (makeThreads_spec _ _ _ _ _ Em) as (_ & _ & Hf).
  erewrite startThreads_spec; [|done|exact Hf]. cbn [mbind option_bind]. eexists _, _. split; [reflexivity|]. simpl.
  assert (NoDup (lt_port <$> ts)) as Hnd' by (by rewrite Hp). split_and!; try done.
  - apply started_reachable; [|done]. destruct (_ && _ && _); [apply conf_delete|]; apply configured_queue.
  - unfold addHistories. rewrite addHistories_spec by (done || set_solver). cbn [app]. 
    cbn [threads]. unfold Controller. rewrite <- list_fmap_compose. exact Hp.
  - rewrite <- list_fmap_compose. exact Hp.
  - apply Forall_fmap, Forall_true. done.
Qed.

(** C0. Starting a new sender succeeds: every port of the request gets a thread
    that runs and a history, and the queue has the options of the sender.  Files
    on the other side are deleted only when the transfer resumes, the request or
    the options ask for it, and the protocol version knows the command.  What
    the threads work on is a state of the transfer system, and a second start
    changes nothing. *)
Theorem sender_starts discover (s : Sender) :
  let req := transferRequest_ (sender_base s) in
  transferStatus_ (sender_base s) = NOT_STARTED -> NoDup (ports req) -> (forall σ, rtc (Transfer.step env) σ (discover σ)) ->
  exists s1 σ0 σ, Sender_start env o files discover s = Some (OK, s1) /\ transfer_ s1 = Some σ
    /\ reachable env σ /\ rtc (Transfer.step env) σ0 σ /\ (threads σ0).*1 = ports req
    /\ configured env (queue σ0)
    /\ deleteFiles_ (queue σ0) = (downloadResumptionEnabled req || sender_resumption o) && (downloadResumptionEnabled req || delete_extra_files o)
                                 && (DELETE_CMD_VERSION <=? protocolVersion req)
    /\ lt_port <$> senderThreads_ s1 = ports req /\ Forall (fun t => lt_thread t = true) (senderThreads_ s1)
    /\ Sender_start env o files discover s1 = Some (ALREADY_EXISTS, s1).
Proof.
  intros req Hst Hnd Hd. destruct (start_spec discover s Hst Hnd) as (s1 & σ0 & E & Et & Hr & Hp & _ & _ & Hq & Hs & Hports & Hrun).
  exists s1, σ0, (if two_phases o then discover σ0 else σ0).
  assert (rtc (Transfer.step env) σ0 (if two_phases o then discover σ0 else σ0)) as Hrtc by (destruct (two_phases o); [apply Hd|apply rtc_refl]).
  split_and!; try done.
  - by eapply system_rtc.
  - rewrite Hq. destruct (_ && _ && _); [apply conf_delete|]; apply configured_queue.
  - rewrite Hq. fold req. destruct (_ && _ && _); [done|apply configureQueue_deletes].
  - unfold Sender_start at 1. by rewrite Hs.
Qed.

(** ** Finishing *)

Lemma settle_some (σ : Sys) report : finish (full_reporting o) (threads σ) (queue σ) = Some report -> is_Some (settle o σ).
Proof.
  unfold finish, settle. change (_ <$> threads σ) with (thread_stats (threads σ)). destruct (finishHistories _ _ _ _) as [[[? ?] ?]|]; [|done]. by eexists.
Qed.

(** The threads have stopped, and nothing of theirs is in the way of [finish]. *)
Definition stopped (σ : Sys) : Prop :=
  opening σ = [] /\ held σ = []
  /\ (Exists (fun s => getErrorCode s = OK) (thread_stats (threads σ)) \/ Forall (fun e => unacked_ok e.2.1) (threads σ)).

End props.

(** ** Examples of the life of a sender. *)
Definition ex_sender_options : SenderOptions := mkSenderOptions [] [] [] false 0 0 false false false false true.
Definition ex_sender_files : SenderFiles := mkSenderFiles [] None false.
Definition ex_new_sender : Sender unit unit :=
  Sender_new (Receiver_new (WdtTransferRequest_default <| directory := [47] |> <| ports := [22356] |> <| hostName := [104] |> <| protocolVersion := 32 |>) 4096 []).
Abbreviation ex_start := (Sender_start Transfer.ex_env ex_sender_options ex_sender_files id).

Lemma sender_starts_witness :
  exists s1 σ, ex_start ex_new_sender = Some (OK, s1) /\ transfer_ s1 = Some σ /\ reachable Transfer.ex_env σ
    /\ ex_start s1 = Some (ALREADY_EXISTS, s1).
Proof.
  destruct (sender_starts Transfer.ex_env ex_sender_options ex_sender_files id ex_new_sender eq_refl)
    as (s1 & _ & σ & E & Et & Hr & _ & _ & _ & _ & _ & _ & Ea); [apply NoDup_singleton|intros σ; apply rtc_refl|].
  exists s1, σ. split; [exact E|]. split; [exact Et|]. split; [exact Hr|exact Ea].
Defined.

(** The thread discovers a file of five bytes, takes it, opens it and sends it. *)
Definition ex_create (σ : Sys) : Sys :=
  σ <| queue := from_option snd (queue σ) (createIntoQueue Transfer.ex_env [47; 97] (WdtFileInfo_make [97] 5 false) (queue σ)) |>.
Definition ex_take (σ : Sys) : Sys :=
  match getNextSource_enter (queue σ) with
  | (TryOpen s _, q) => σ <| queue := q |> <| opening := s :: opening σ |> <| started := true |>
  | _ => σ
  end.
Definition ex_open (σ : Sys) : Sys :=
  match opening σ with
  | s :: r => σ <| opening := [] ++ r |> <| held := (open_source Transfer.ex_env s (queue σ)).2 :: held σ |>
                <| queue := getNextSource_opened (queue σ) |>
  | [] => σ
  end.
Definition ex_send (σ : Sys) : Sys :=
  match held σ, threads σ with
  | s :: r, (p, (h, ts)) :: th =>
      match finishBlock s Transfer.ex_stats h ts (queue σ) with
      | Some (_, h', ts', q') => σ <| held := [] ++ r |> <| threads := [] ++ (p, (h', ts')) :: th |> <| queue := q' |>
      | None => σ
      end
  | _, _ => σ
  end.
Definition ex_send_file (σ : Sys) : Sys := ex_send (ex_open (ex_take (ex_create σ))).

Definition ex_system : Sys :=
  Eval vm_compute in match ex_start ex_new_sender with Some (_, s1) => default Transfer.ex_0 (transfer_ s1) | None => Transfer.ex_0 end.
Definition ex_created_system : Sys := Eval vm_compute in ex_create ex_system.
Definition ex_taken_system : Sys := Eval vm_compute in ex_take ex_created_system.
Definition ex_opened_system : Sys := Eval vm_compute in ex_open ex_taken_system.
Definition ex_sent_system : Sys := Eval vm_compute in ex_send ex_opened_system.
Lemma ex_send_file_eq : ex_send_file ex_system = ex_sent_system.
Proof. vm_compute. reflexivity. Qed.
Lemma ex_system_runs : rtc (Transfer.step Transfer.ex_env) ex_system (ex_send_file ex_system).
Proof.
  rewrite ex_send_file_eq. apply (rtc_l _ _ ex_created_system).
  { eapply (step_create _ ex_system [47; 97] (WdtFileInfo_make [97] 5 false)); [simpl; lia|]. vm_compute. reflexivity. }
  apply (rtc_l _ _ ex_taken_system).
  { eapply (step_next _ ex_created_system). left. vm_compute. reflexivity. }
  apply (rtc_l _ _ ex_opened_system).
  { eapply (step_open _ ex_taken_system []); vm_compute; reflexivity. }
  apply (rtc_l _ _ ex_sent_system); [|apply rtc_refl].
  eapply (step_send _ ex_opened_system [] Transfer.ex_source [] Transfer.ex_source Transfer.ex_stats []).
  - vm_compute. reflexivity.
  - vm_compute. reflexivity.
  - repeat split. left. repeat split.
  - vm_compute. discriminate.
  - vm_compute. reflexivity.
Qed.

(** [finish] makes another report when it is called again, though its comment says
    that the existing one is returned: a directory that could not be read is an
    error in the first report and not in the second one. *)
Definition ex_unreadable_directory (σ : Sys) : Sys :=
  σ <| queue := finishInit (queue σ <| failedDirectories_ := failedDirectories_ (queue σ) ++ [[47; 100]] |>) |>.
Example second_finish_differs :
  match ex_start ex_new_sender with
  | Some (_, s1) =>
      match Sender_finish ex_sender_options ex_unreadable_directory s1 with
      | Some (r1, s2) =>
          match Sender_finish ex_sender_options id s2 with
          | Some (r2, _) => getErrorCode (summary_ r1) = BYTE_SOURCE_READ_ERROR /\ getErrorCode (summary_ r2) = OK
          | None => False
          end
      | None => False
      end
  | None => False
  end.
Proof. vm_compute. auto. Qed.
