(* ===== verification/Progress.v ===== *)
(** The progress of a transfer: the loops [Sender::reportProgress] and
    [Receiver::progressTracker] that measure the throughput, and the percentage
    and the bar that [ProgressReporter] shows ([Reporting.cpp]).

    Doubles are rationals that [rnd] rounds, as in [Throttler].  Of the line on
    the terminal only the part up to the bracket behind the bar is modelled;
    the throughputs that follow are printed as they are.  [TerminalProgress] of
    [desktop/awdt.cpp] is a reporter of its own, with the speed of the last five
    seconds and the time that is left. *)
From Stdlib Require Import QArith.
From S2P Require Import Prelude Throttler.

(** ** The throughput *)

Record Tracker := mkTracker {
  lastEffectiveBytes : Z;
  lastUpdateTime : Z;
  intervalsSinceLastUpdate : Z;
  currentThroughput : Q
}.
Definition Tracker_new (now : Z) : Tracker := mkTracker 0 now 0 0.

Section tracker.
Context (rnd : Q -> Q).

(** The number of rounds between two updates; the sender checks both options,
    the receiver returns when they make no sense. *)
Definition throughputUpdateInterval (throughputUpdateIntervalMillis progressReportIntervalMillis : Z) : option Z :=
  check 0 <? progressReportIntervalMillis ;;
  check 0 <=? throughputUpdateIntervalMillis ;;
  Some (Z.quot throughputUpdateIntervalMillis progressReportIntervalMillis).

(** A round of the loop: the bytes of the report and the clock, in nanoseconds. *)
Definition track (interval curEffectiveBytes curTime : Z) (t : Tracker) : Tracker :=
  let intervals := intervalsSinceLastUpdate t + 1 in
  if interval <=? intervals then
    let time := seconds rnd (curTime - lastUpdateTime t) in
    let throughput := ddiv rnd (of_int rnd (curEffectiveBytes - lastEffectiveBytes t)) time in
    mkTracker curEffectiveBytes curTime 0 throughput
  else mkTracker (lastEffectiveBytes t) (lastUpdateTime t) intervals (currentThroughput t).
Definition track_all (interval : Z) (rounds : list (Z * Z)) (t : Tracker) : Tracker :=
  foldl (fun t r => track interval r.1 r.2 t) t rounds.
End tracker.

(** ** The percentage and the bar *)

Definition percentage (effectiveDataBytes totalDiscoveredSize : Z) : Z :=
  if 0 <? totalDiscoveredSize then wrapS 32 (Z.quot (effectiveDataBytes * 100) totalDiscoveredSize) else 0.

(** A number on [std::cout], and [log10], rounded towards 0: 19 digits are
    enough for an [int64_t].  The double logarithm is taken to be right, as it is
    as long as there are fewer than 10^15 files. *)
Fixpoint decimal (fuel : nat) (n : Z) : list Z :=
  match fuel with
  | O => [48 + n]
  | S fuel => if n <? 10 then [48 + n] else decimal fuel (n / 10) ++ [48 + n mod 10]
  end.
Fixpoint log10 (fuel : nat) (n : Z) : Z :=
  match fuel with
  | O => 0
  | S fuel => if n <? 10 then 0 else 1 + log10 fuel (n / 10)
  end.

Definition kEquals : Z := 61.
Definition kGreater : Z := 62.
Definition kSpace : Z := 32.
Definition progressBar (progressWidth scaledProgress : Z) : list Z :=
  replicate (Z.to_nat (scaledProgress - 1)) kEquals
  ++ (if negb (scaledProgress =? 0) && negb (scaledProgress =? progressWidth) then [kGreater] else [])
  ++ replicate (Z.to_nat (progressWidth - scaledProgress - 1)) kSpace.
Definition widthOf (numDiscoveredFiles : Z) (fileDiscoveryFinished : bool) : Z :=
  if negb fileDiscoveryFinished then
    50 - (3 + (if 0 <? numDiscoveredFiles then log10 18 numDiscoveredFiles + 1 else 1))
  else 50.
Definition displayProgress (progress numDiscoveredFiles : Z) (fileDiscoveryFinished : bool) : list Z :=
  let progressWidth := widthOf numDiscoveredFiles fileDiscoveryFinished in
  let scaledProgress := Z.quot (progress * progressWidth) 100 in
  (if negb fileDiscoveryFinished then decimal 18 numDiscoveredFiles ++ [46; 46; 46] else [])
  ++ [91] ++ progressBar progressWidth scaledProgress ++ [93].

(** ** [TerminalProgress] *)

(** The time of a sample, in nanoseconds, and its bytes. *)
Definition kWindow : Z := 5000000000.
Fixpoint dropOld (now : Z) (samples : list (Z * Z)) : list (Z * Z) :=
  match samples with
  | [] => []
  | front :: rest => if (2 <? Zlen samples) && (kWindow <? now - front.1) then dropOld now rest else samples
  end.
Definition addSample (samples : list (Z * Z)) (s : Z * Z) : list (Z * Z) := dropOld s.1 (samples ++ [s]).
(** What a call shows: the percentage, the speed in MB/s, and the seconds that are
    left, of which the last and the first are only shown at times. *)
Definition terminalProgress (rnd : Q -> Q) (bytes total now : Z) (samples : list (Z * Z))
    : option Z * Q * option Z * list (Z * Z) :=
  let samples := addSample samples (now, bytes) in
  let front := default (now, bytes) (head samples) in
  let seconds := seconds rnd (now - front.1) in
  let speed := if Qltb (rnd (1 # 2)) seconds then ddiv rnd (ddiv rnd (of_int rnd (bytes - front.2)) 1000000%Q) seconds else 0%Q in
  if 0 <? total then
    let percent := wrapS 32 (Z.quot (100 * bytes) total) in
    let left :=
      if Qltb (rnd (1 # 20)) speed then Some (trunc (ddiv rnd (ddiv rnd (of_int rnd (total - bytes)) 1000000%Q) speed)) else None in
    (Some percent, speed, left, samples)
  else (None, speed, None, samples).

(** ** What is shown *)

Lemma decimal_length fuel n : Zlen (decimal fuel n) = log10 fuel n + 1.
Proof.
  revert n. induction fuel as [|fuel IH]; intros n; [done|]. cbn [decimal log10]. destruct (n <? 10); [done|].
  rewrite Zlen_app, IH. simpl. lia.
Qed.
Lemma log10_bounds fuel n : 0 <= log10 fuel n <= Z.of_nat fuel.
Proof. revert n. induction fuel as [|fuel IH]; intros n; cbn [log10]; [lia|]. destruct (n <? 10); [lia|]. specialize (IH (n / 10)). lia. Qed.
(** It is the logarithm. *)
Lemma log10_spec fuel n : 0 < n < 10 ^ (Z.of_nat fuel + 1) -> 10 ^ log10 fuel n <= n < 10 ^ (log10 fuel n + 1).
Proof.
  revert n. induction fuel as [|fuel IH]; intros n Hn; cbn [log10]; [simpl; lia|]. destruct (Z.ltb_spec n 10); [simpl; lia|].
  assert (0 < n / 10 < 10 ^ (Z.of_nat fuel + 1)) as Hd.
  { split; [apply Z.div_str_pos; lia|]. apply Z.div_lt_upper_bound; [lia|]. rewrite <- Z.pow_succ_r by lia.
    replace (Z.succ (Z.of_nat fuel + 1)) with (Z.of_nat (S fuel) + 1) by lia. lia. }
  specialize (IH _ Hd). pose proof (log10_bounds fuel (n / 10)). rewrite (Z.add_comm 1), !Z.pow_add_r in * by lia.
  change (10 ^ 1) with 10 in *. pose proof (Z.div_mod n 10 ltac:(lia)). pose proof (Z.mod_pos_bound n 10 ltac:(lia)). nia.
Qed.

(** The bar has one cell less than its width, of which as many are filled as the
    scaled progress says, the last one of the width left out. *)
Lemma progressBar_spec W s : 0 <= s <= W -> 0 < W ->
  Zlen (progressBar W s) = W - 1
  /\ exists full empty, progressBar W s = full ++ empty /\ Zlen full = Z.min s (W - 1) /\ Forall (fun c => c = kEquals \/ c = kGreater) full
       /\ Forall (fun c => c = kSpace) empty.
Proof.
  intros Hs HW. unfold progressBar.
  assert (Zlen (replicate (Z.to_nat (s - 1)) kEquals ++ (if negb (s =? 0) && negb (s =? W) then [kGreater] else [])) = Z.min s (W - 1)) as Hl.
  { rewrite Zlen_app, length_replicate. destruct (Z.eqb_spec s 0), (Z.eqb_spec s W); simpl; lia. }
  split.
  - rewrite app_assoc, Zlen_app, Hl, length_replicate. lia.
  - eexists _, _. split; [apply app_assoc|]. split_and!; [exact Hl| |apply Forall_replicate; done].
    apply Forall_app. split; [apply Forall_replicate; by left|]. destruct (_ && _); [|done]. apply Forall_singleton. by right.
Qed.

(** The percentage of a transfer is one, and rounded down. *)
Lemma percentage_spec e total : 0 <= e <= total -> 0 <= percentage e total <= 100 /\ (0 < total -> percentage e total = e * 100 / total).
Proof.
  intros He. unfold percentage. destruct (Z.ltb_spec 0 total); [|lia]. rewrite Z.quot_div_nonneg by lia.
  assert (0 <= e * 100 / total <= 100) by (split; [apply Z.div_pos; lia|apply Z.div_le_upper_bound; lia]).
  rewrite wrapS_small by (unfold inS; lia). split; [done|]. done.
Qed.
Lemma widthOf_bounds n fin : 28 <= widthOf n fin <= 50.
Proof. unfold widthOf. destruct fin; cbn [negb]; [lia|]. pose proof (log10_bounds 18 n). destruct (0 <? n); lia. Qed.

(** C0. The line of the progress keeps its place on the terminal: while files are
    being discovered and afterwards, whatever their number and the percentage,
    the number, the dots and the bar with its brackets take 51 characters, so
    that the next line covers it, and the filled part of the bar is the
    percentage of its width. *)
Theorem progress_line e total n fin :
  0 <= e <= total -> 0 <= n ->
  let line := displayProgress (percentage e total) n fin in
  let W := widthOf n fin in
  Zlen line = 51
  /\ exists prefix full empty, line = prefix ++ [91] ++ full ++ empty ++ [93]
       /\ Zlen full = Z.min (percentage e total * W / 100) (W - 1)
       /\ Forall (fun c => c = kEquals \/ c = kGreater) full /\ Forall (fun c => c = kSpace) empty.
Proof.
  intros He Hn line W. pose proof (widthOf_bounds n fin) as HW. fold W in HW. destruct (percentage_spec e total He) as [Hp _].
  unfold line, displayProgress. fold W. rewrite Z.quot_div_nonneg by lia. set (s := percentage e total * W / 100).
  assert (0 <= s <= W) as Hs by (unfold s; split; [apply Z.div_pos; lia|apply Z.div_le_upper_bound; nia]).
  destruct (progressBar_spec W s Hs) as (Hl & full & empty & Eb & Hf & Hff & Hfe); [lia|]. split.
  - rewrite !Zlen_app, Hl. unfold W, widthOf. destruct fin; cbn [negb]; [simpl; lia|]. rewrite Zlen_app, decimal_length.
    destruct (Z.ltb_spec 0 n); [simpl; lia|]. replace n with 0 by lia. reflexivity.
  - eexists _, full, empty. rewrite Eb, <- app_assoc. split_and!; done.
Qed.

(** ** The throughput that is shown *)

(** The samples, from the start of the loop on. *)
Definition sample (now : Z) (rounds : list (Z * Z)) (i : Z) : Z * Z := default (0, now) (((0, now) :: rounds) !! Z.to_nat i).
(** The throughput after [n] rounds with an update every [K]: of the last [K]
    rounds that were complete. *)
Definition shown (rnd : Q -> Q) (K : Z) (now : Z) (rounds : list (Z * Z)) : Q :=
  let j := K * (Zlen rounds / K) in
  if j =? 0 then 0
  else ddiv rnd (of_int rnd ((sample now rounds j).1 - (sample now rounds (j - K)).1))
         (seconds rnd ((sample now rounds j).2 - (sample now rounds (j - K)).2)).

Lemma sample_app now l r i : 0 <= i <= Zlen l -> sample now (l ++ [r]) i = sample now l i.
Proof. intros Hi. unfold sample. rewrite app_comm_cons, lookup_app_l; [done|]. simpl. lia. Qed.
Lemma sample_last now l r : sample now (l ++ [r]) (Zlen l + 1) = r.
Proof.
  unfold sample. rewrite app_comm_cons, lookup_app_r by (simpl; lia). simpl length.
  replace (Z.to_nat (Zlen l + 1) - S (length l))%nat with 0%nat by lia. done.
Qed.

Lemma track_all_spec rnd interval now rounds :
  let K := Z.max 1 interval in
  let j := K * (Zlen rounds / K) in
  track_all rnd interval rounds (Tracker_new now)
  = mkTracker (sample now rounds j).1 (sample now rounds j).2 (Zlen rounds mod K) (shown rnd K now rounds).
Proof.
  induction rounds as [|r l IH] using rev_ind; intros K j.
  { unfold j, shown. simpl. rewrite Z.div_0_l, Z.mul_0_r, Z.mod_0_l by lia. done. }
  unfold track_all. rewrite foldl_app. cbn [foldl]. change (foldl _ _ l) with (track_all rnd interval l (Tracker_new now)). rewrite IH. fold K.
  set (n := Zlen l) in *. assert (0 <= n) by (unfold n; lia). assert (Zlen (l ++ [r]) = n + 1) as Hlen by (rewrite Zlen_app; simpl; lia).
  unfold track. cbn [intervalsSinceLastUpdate lastEffectiveBytes lastUpdateTime currentThroughput]. unfold j, shown. rewrite Hlen. fold n.
  pose proof (Z.mod_pos_bound n K ltac:(lia)) as Hm. pose proof (Z.div_mod n K ltac:(lia)) as Hd.
  pose proof (Z.div_pos n K ltac:(lia) ltac:(lia)) as Hp. pose proof (Z.mul_nonneg_nonneg K (n / K) ltac:(lia) Hp) as Hq.
  destruct (Z.leb_spec interval (n mod K + 1)) as [Hu|Hu].
  - assert ((n + 1) / K = n / K + 1) as E1 by (symmetry; apply (Z.div_unique _ _ _ 0); lia).
    assert ((n + 1) mod K = 0) as E2 by (symmetry; apply (Z.mod_unique _ _ (n / K + 1)); lia).
    assert (K * (n / K + 1) = n + 1) as E3 by lia. rewrite E1, E2, E3, sample_last.
    replace (n + 1 =? 0) with false by (symmetry; apply Z.eqb_neq; lia). replace (n + 1 - K) with (K * (n / K)) by lia.
    rewrite sample_app by (fold n; lia). done.
  - assert ((n + 1) / K = n / K) as E1 by (symmetry; apply (Z.div_unique _ _ _ (n mod K + 1)); lia).
    assert ((n + 1) mod K = n mod K + 1) as E2 by (symmetry; apply (Z.mod_unique _ _ (n / K)); lia).
    rewrite E1, E2, sample_app by (fold n; lia). f_equal. destruct (Z.eqb_spec (K * (n / K)) 0); [done|].
    rewrite sample_app; [done|]. fold n. assert (1 <= n / K) by (destruct (decide (n / K = 0)) as [E0|]; [rewrite E0, Z.mul_0_r in *; done|lia]). nia.
Qed.

(** C0. The recent throughput is that of the last full interval: with options that
    pass the checks, after any number of rounds it is the bytes of the rounds of
    the last complete interval over the time they took, and 0 before the first
    one is complete; when the interval of the throughput is shorter than that of
    the reports, it is the one since the last report. *)
Theorem throughput_of_last_interval rnd throughputMillis progressMillis interval now rounds :
  throughputUpdateInterval throughputMillis progressMillis = Some interval ->
  currentThroughput (track_all rnd interval rounds (Tracker_new now))
  = shown rnd (Z.max 1 (throughputMillis / progressMillis)) now rounds.
Proof.
  unfold throughputUpdateInterval. destruct (Z.ltb_spec 0 progressMillis); [|done]. destruct (Z.leb_spec 0 throughputMillis); [|done].
  rewrite Z.quot_div_nonneg by lia. intros [= <-]. by rewrite track_all_spec.
Qed.

(** ** The samples of [TerminalProgress] *)

Lemma dropOld_later now now' l s : now <= now' -> dropOld now' (dropOld now l ++ [s]) = dropOld now' (l ++ [s]).
Proof.
  intros Hle. induction l as [|x l IH]; [done|]. cbn [dropOld]. destruct ((2 <? Zlen (x :: l)) && (kWindow <? now - x.1)) eqn:E; [|done].
  rewrite IH. apply andb_prop in E as [H1%Z.ltb_lt H2%Z.ltb_lt]. cbn [app dropOld].
  replace (2 <? Zlen (x :: l ++ [s])) with true by (symmetry; apply Z.ltb_lt; rewrite app_comm_cons, Zlen_app; simpl in *; lia).
  replace (kWindow <? now' - x.1) with true by (symmetry; apply Z.ltb_lt; lia). done.
Qed.
Lemma dropOld_suffix now l : exists old, l = old ++ dropOld now l /\ Forall (fun s => kWindow < now - s.1) old.
Proof.
  induction l as [|x l (old & E & Hold)]; [by exists []|]. cbn [dropOld]. destruct (_ && _) eqn:Ed; [|by exists []].
  apply andb_prop in Ed as [_ Ho%Z.ltb_lt]. exists (x :: old). split; [simpl; by f_equal|by constructor].
Qed.
Lemma dropOld_front now l x w : dropOld now l = x :: w -> now - x.1 <= kWindow \/ Zlen (x :: w) <= 2.
Proof.
  induction l as [|y l IH]; [done|]. cbn [dropOld]. destruct (_ && _) eqn:Ed; [exact IH|]. intros [= -> ->].
  apply andb_false_iff in Ed as [Hs%Z.ltb_ge|Ho%Z.ltb_ge]; [by right|by left].
Qed.
Lemma samples_closed now l : StronglySorted Z.le (l.*1) -> (forall s, last l = Some s -> now = s.1) -> foldl addSample [] l = dropOld now l.
Proof.
  revert now. induction l as [|s l IH] using rev_ind; intros now Hs Hnow; [done|].
  rewrite last_snoc in Hnow. rewrite (Hnow s eq_refl). rewrite foldl_app. cbn [foldl]. unfold addSample at 1.
  rewrite fmap_app in Hs. destruct (last l) as [s0|] eqn:El.
  - rewrite (IH s0.1); [|by eapply StronglySorted_app_1_l|by intros ? [= <-]]. apply dropOld_later.
    eapply StronglySorted_app_1_elem_of; [exact Hs| |by apply list_elem_of_singleton]. apply list_elem_of_fmap. exists s0. split; [done|].
    by apply last_Some_elem_of.
  - apply last_None in El as ->. done.
Qed.

(** C0. The speed of [TerminalProgress] is that of the last five seconds.  When
    the clock does not go back, the samples that are kept after any number of
    calls are the latest ones: all older ones that were dropped are more than
    five seconds old, and the oldest one that is kept, from which the speed is
    measured, is not, unless it is one of the last two. *)
Theorem recent_samples l x w :
  StronglySorted Z.le (l.*1) -> foldl addSample [] l = x :: w ->
  exists old now, l = old ++ x :: w /\ (fst <$> last l) = Some now
    /\ Forall (fun s => kWindow < now - s.1) old /\ (now - x.1 <= kWindow \/ Zlen (x :: w) <= 2).
Proof.
  intros Hs E. destruct (last l) as [s|] eqn:El; [|apply last_None in El as ->; done].
  rewrite (samples_closed s.1) in E; [|done|by rewrite El; intros ? [= <-]].
  destruct (dropOld_suffix s.1 l) as (old & Eo & Ho). exists old, s.1. rewrite E in Eo. split_and!; [done..|by eapply dropOld_front].
Qed.

(** ** Examples *)

Lemma progress_line_witness : 0 <= 30 <= 90 /\ Zlen (displayProgress (percentage 30 90) 1234 false) = 51.
Proof. split; [lia|]. apply (progress_line 30 90 1234 false); lia. Defined.
Example progress_line_example : displayProgress (percentage 30 90) 1234 false
  = [49; 50; 51; 52; 46; 46; 46; 91] ++ replicate 13 61 ++ [62] ++ replicate 28 32 ++ [93].
Proof. vm_compute. reflexivity. Qed.
Lemma throughput_of_last_interval_witness :
  throughputUpdateInterval 500 200 = Some 2
  /\ currentThroughput (track_all exact 2 [(100, 1000000000); (300, 2000000000); (900, 3000000000)] (Tracker_new 0)) == 150.
Proof.
  split; [reflexivity|]. rewrite (throughput_of_last_interval exact 500 200 2 0 [(100, 1000000000); (300, 2000000000); (900, 3000000000)] eq_refl).
  vm_compute. reflexivity.
Defined.
Lemma recent_samples_witness :
  exists old now, [(0, 10); (3000000000, 20); (7000000000, 50); (9000000000, 90)] = old ++ (7000000000, 50) :: [(9000000000, 90)]
    /\ Forall (fun s => kWindow < now - s.1) old.
Proof.
  destruct (recent_samples [(0, 10); (3000000000, 20); (7000000000, 50); (9000000000, 90)] (7000000000, 50) [(9000000000, 90)])
    as (old & now & E & _ & Ho & _); [|vm_compute; reflexivity|].
  - repeat constructor; vm_compute; discriminate.
  - exists old, now. split; [exact E|exact Ho].
Defined.
Example terminal_example :
  terminalProgress exact 30000000 90000000 2000000000 [(0, 10000000)]
  = (Some 33, ddiv exact (ddiv exact (of_int exact 20000000) 1000000) (seconds exact 2000000000), Some 6, [(0, 10000000); (2000000000, 30000000)]).
Proof. vm_compute. reflexivity. Qed.
