(* ===== verification/Options.v ===== *)
(** The options that depend on each other: [modifyOptions] and the derived options
    of [WdtOptions.cpp].  The others are fields of the records of the components
    that read them.  The block size, a double, is a whole number here. *)
From stdpp Require Import gmap strings.
From S2P Require Import Prelude LogParser Lifecycle.

Record WdtOptions := mkWdtOptions {
  num_ports : Z;
  block_size_mbytes : Z;
  disable_preallocation : bool;
  resume_using_dir_tree : bool;
  enable_download_resumption : bool;
  static_ports : bool
}.
#[global] Instance WdtOptions_settable : Settable WdtOptions := fun o =>
  mkWdtOptions (num_ports o) (block_size_mbytes o) (disable_preallocation o) (resume_using_dir_tree o)
    (enable_download_resumption o) (static_ports o).
Definition WdtOptions_default : WdtOptions := mkWdtOptions 8 16 false false false false.

Definition FLASH_OPTION_TYPE : string := "flash".
Definition DISK_OPTION_TYPE : string := "disk".

(** [CHANGE_IF_NOT_SPECIFIED] *)
Definition changeIfNotSpecified (option : string) (specifiedOptions : gset string) (change : WdtOptions -> WdtOptions) (o : WdtOptions)
    : WdtOptions := if bool_decide (option ∈ specifiedOptions) then o else change o.
Definition modifyOptions (optionType : string) (userSpecifiedOptions : gset string) (o : WdtOptions) : WdtOptions :=
  if bool_decide (optionType = DISK_OPTION_TYPE) then
    let o := changeIfNotSpecified "num_ports" userSpecifiedOptions (fun o => o <| num_ports := 3 |>) o in
    let o := changeIfNotSpecified "block_size_mbytes" userSpecifiedOptions (fun o => o <| block_size_mbytes := -1 |>) o in
    let o := changeIfNotSpecified "disable_preallocation" userSpecifiedOptions (fun o => o <| disable_preallocation := true |>) o in
    changeIfNotSpecified "resume_using_dir_tree" userSpecifiedOptions (fun o => o <| resume_using_dir_tree := true |>) o
  else if bool_decide ("start_port" ∈ userSpecifiedOptions) && negb (static_ports o) then o <| static_ports := true |>
  else o.

(** With [posix_fallocate]. *)
Definition shouldPreallocateFiles (o : WdtOptions) : bool := negb (disable_preallocation o).
Definition isLogBasedResumption (o : WdtOptions) : bool := enable_download_resumption o && negb (resume_using_dir_tree o).
Definition isDirectoryTreeBasedResumption (o : WdtOptions) : bool := enable_download_resumption o && resume_using_dir_tree o.

(** The check of [Receiver::init] on these options. *)
Definition resumable (o : WdtOptions) : bool := negb (resume_using_dir_tree o) || negb (shouldPreallocateFiles o).

(** C0. The options of a type go together and yield to the user: what the user has
    specified keeps its value, applying a type twice is applying it once, exactly
    one way of resumption is chosen when resumption is on, and options that the
    receiver can resume with stay so, and become so with the disk type, unless the
    user has asked for preallocation. *)
Theorem options_yield optionType specified o :
  let o' := modifyOptions optionType specified o in
  ("num_ports" ∈ specified -> num_ports o' = num_ports o)
  /\ ("block_size_mbytes" ∈ specified -> block_size_mbytes o' = block_size_mbytes o)
  /\ ("disable_preallocation" ∈ specified -> disable_preallocation o' = disable_preallocation o)
  /\ ("resume_using_dir_tree" ∈ specified -> resume_using_dir_tree o' = resume_using_dir_tree o)
  /\ modifyOptions optionType specified o' = o'
  /\ xorb (isLogBasedResumption o') (isDirectoryTreeBasedResumption o') = enable_download_resumption o
  /\ (resumable o = true -> ~ ("disable_preallocation" ∈ specified /\ disable_preallocation o = false) -> resumable o' = true)
  /\ (optionType = DISK_OPTION_TYPE -> "disable_preallocation" ∉ specified -> resumable o' = true).
Proof.
  unfold modifyOptions, changeIfNotSpecified, resumable, isLogBasedResumption, isDirectoryTreeBasedResumption, shouldPreallocateFiles.
  destruct o as [n b d r e st]. cbv zeta. case_bool_decide as Ht.
  - repeat case_bool_decide; simpl; split_and!; try done; destruct d, r, e; simpl; try done; intros; exfalso; naive_solver.
  - case_bool_decide; destruct st; simpl; split_and!; try done; destruct d, r, e; simpl; done.
Qed.

(** The disk type returns before it looks at the port: [static_ports] stays off. *)
Example disk_ignores_start_port :
  static_ports (modifyOptions DISK_OPTION_TYPE {["start_port"]} WdtOptions_default) = false
  /\ static_ports (modifyOptions FLASH_OPTION_TYPE {["start_port"]} WdtOptions_default) = true.
Proof. vm_compute. auto. Qed.
(** With the disk type and preallocation asked for, the check of the receiver fails
    when resumption is on. *)
Example disk_with_preallocation : resumable (modifyOptions DISK_OPTION_TYPE {["disable_preallocation"]} WdtOptions_default) = false.
Proof. vm_compute. reflexivity. Qed.
