(* ===== verification/Jni.v ===== *)
(** The bridge to Java, [android/library/wdt/src/main/cpp/wdt_jni.cpp]: options by
    name, and the life of a sender or receiver behind a handle.

    A handle is the [NativeTransfer] it points to; an exception thrown into Java
    is a value.  Left out: the environment of the virtual machine, references,
    class and method ids, the listener of the progress, and logging.  [strtod]
    is an argument: the value when the whole text is a number. *)
From stdpp Require Import gmap strings.
From Stdlib Require Import QArith Ascii.
From S2P Require Import Prelude Serialization ErrorCodes Protocol Reporting LogParser LogManager FileSystem FileCreator ByteSource SourceQueue.
From S2P Require Import Transfer Socket ReceiverThread Uri Encryption Throttler Lifecycle SenderLife AwdtText.

(** ** Options *)

(** The types of the fields of [WdtOptions], and their values. *)
Inductive OptType := TBool | TInt (width : Z) | TDouble | TString.
Inductive OptValue := VBool (b : bool) | VInt (n : Z) | VDouble (q : Q) | VString (s : list Z).
Definition WDT_JNI_OPTIONS : list (string * OptType) :=
  [("dscp", TInt 32); ("skip_writes", TBool); ("ignore_open_errors", TBool); ("two_phases", TBool);
   ("follow_symlinks", TBool); ("start_port", TInt 32); ("num_ports", TInt 32); ("static_ports", TBool);
   ("buffer_size", TInt 32); ("max_retries", TInt 32); ("sleep_millis", TInt 32); ("backlog", TInt 32);
   ("avg_mbytes_per_sec", TDouble); ("max_mbytes_per_sec", TDouble); ("throttler_bucket_limit", TDouble);
   ("throttler_log_time_millis", TInt 64); ("include_regex", TString); ("exclude_regex", TString);
   ("prune_dir_regex", TString); ("max_transfer_retries", TInt 32); ("full_reporting", TBool);
   ("progress_report_interval_millis", TInt 32); ("block_size_mbytes", TDouble); ("accept_timeout_millis", TInt 32);
   ("max_accept_retries", TInt 32); ("accept_window_millis", TInt 32); ("read_timeout_millis", TInt 32);
   ("write_timeout_millis", TInt 32); ("connect_timeout_millis", TInt 32); ("abort_check_interval_millis", TInt 32);
   ("disk_sync_interval_mb", TDouble); ("fsync", TBool); ("throughput_update_interval_millis", TInt 32);
   ("enable_checksum", TBool); ("enable_perf_stat_collection", TBool); ("transfer_log_write_interval_ms", TInt 32);
   ("enable_transfer_log_compaction", TBool); ("enable_download_resumption", TBool); ("keep_transfer_log", TBool);
   ("disable_sender_verification_during_resumption", TBool); ("global_sender_limit", TInt 32);
   ("global_receiver_limit", TInt 32); ("namespace_sender_limit", TInt 32); ("namespace_receiver_limit", TInt 32);
   ("odirect_reads", TBool); ("disable_preallocation", TBool); ("resume_using_dir_tree", TBool);
   ("open_files_during_discovery", TInt 32); ("overwrite", TBool); ("drain_extra_ms", TInt 32);
   ("encryption_type", TString); ("encryption_tag_interval_bytes", TInt 32); ("send_buffer_size", TInt 32);
   ("receive_buffer_size", TInt 32); ("delete_extra_files", TBool); ("skip_fadvise", TBool);
   ("enable_heart_beat", TBool); ("iv_change_interval_mb", TInt 32); ("close_on_exec", TBool)].

(** The number at the beginning of a text in base 10, and the text behind it. *)
Definition strtoll (s : list Z) : option (Z * list Z) :=
  let s := skip_spaces s in
  let '(sign, s) :=
    match s with
    | c :: s' => if c =? chr "-" then (-1, s') else if c =? chr "+" then (1, s') else (1, s)
    | [] => (1, s)
    end in
  match s with
  | c :: _ => let* _ := digit 10 c in Some (sign * digits 10 s 0, (break (fun c => negb (isdigit c)) s).2)
  | [] => None
  end.

(** An exception in Java. *)
Inductive Exception := IllegalArgument (msg : string) | WdtException (code : ErrorCode) (msg : string).
Definition Opts : Type := gmap string OptValue.

Section jni.
Context (strtod : list Z -> option Q).

Definition parseValue (t : OptType) (s : list Z) : option OptValue :=
  match t with
  | TBool =>
      if bool_decide (s = txt "true") || bool_decide (s = txt "1") then Some (VBool true)
      else if bool_decide (s = txt "false") || bool_decide (s = txt "0") then Some (VBool false)
      else None
  | TInt w =>
      let* (v, rest) := strtoll s in
      check bool_decide (inS 64 v) ;;
      check bool_decide (rest = []) ;;
      check bool_decide (inS w v) ;;
      Some (VInt v)
  | TDouble => let* q := strtod s in Some (VDouble q)
  | TString => Some (VString s)
  end.

(** The type of the field with this name. *)
Definition typeOf (name : string) : option OptType := snd <$> find (fun e => bool_decide (e.1 = name)) WDT_JNI_OPTIONS.
(** The loop takes the elements in pairs; one that is left over is not looked at. *)
Fixpoint applyOptions (nameValues : list string) (options : Opts) : option Exception * Opts :=
  match nameValues with
  | name :: value :: rest =>
      match typeOf name with
      | None => (Some (IllegalArgument ("Unknown WDT option: " +:+ name)), options)
      | Some t =>
          match parseValue t (txt value) with
          | None => (Some (IllegalArgument ("Invalid value for WDT option " +:+ name +:+ ": " +:+ value)), options)
          | Some v => applyOptions rest (<[name := v]> options)
          end
      end
  | _ => (None, options)
  end.

(** Fields, as the components read them. *)
Definition getBool (name : string) (o : Opts) : bool := match o !! name with Some (VBool b) => b | _ => false end.
Definition getInt (name : string) (o : Opts) : Z := match o !! name with Some (VInt n) => n | _ => 0 end.
Definition getDouble (name : string) (o : Opts) : Q := match o !! name with Some (VDouble q) => q | _ => 0 end.
Definition getString (name : string) (o : Opts) : list Z := match o !! name with Some (VString s) => s | _ => [] end.
Definition logOptionsOf (o : Opts) : LogOptions :=
  mkLogOptions true (getBool "disable_preallocation" o) (getBool "resume_using_dir_tree" o) (getBool "enable_download_resumption" o)
    (getBool "disable_sender_verification_during_resumption" o) (getInt "transfer_log_write_interval_ms" o).
Definition lifeOptionsOf (o : Opts) : LifeOptions :=
  mkLifeOptions (logOptionsOf o) (getBool "skip_writes" o) (getString "encryption_type" o) (getInt "iv_change_interval_mb" o)
    (getInt "max_accept_retries" o) (getInt "max_retries" o) (getBool "keep_transfer_log" o) (getBool "enable_transfer_log_compaction" o).
Definition senderOptionsOf (o : Opts) : SenderOptions :=
  mkSenderOptions (getString "include_regex" o) (getString "exclude_regex" o) (getString "prune_dir_regex" o) (getBool "follow_symlinks" o)
    (trunc (getDouble "block_size_mbytes" o)) (getInt "open_files_during_discovery" o) (getBool "odirect_reads" o) (getBool "two_phases" o)
    (getBool "enable_download_resumption" o) (getBool "delete_extra_files" o) (getBool "full_reporting" o).

(** ** Transfers *)

Context `{Host} `{Folly} {W F : Type} `{ServerSocket W} `{FileSystem F}.
(** [WdtOptions::get()] *)
Context (defaults : Opts).

Record NativeTransfer (T : Type) := mkNative { abortFlag : bool; nt_options : Opts; wdt : T }.
Arguments mkNative {T}. Arguments abortFlag {T}. Arguments nt_options {T}. Arguments wdt {T}.

Definition receiverCreate (directory : list Z) (options : list string) (host id : list Z) (encryptionKey : option (list Z))
    : Exception + NativeTransfer (Life W F) :=
  match applyOptions options defaults with
  | (Some e, _) => inl e
  | (None, opts) =>
      let req := WdtTransferRequest_ports (getInt "start_port" opts) (getInt "num_ports" opts) directory
        <| hostName := host |> <| transferId := id |> <| ivChangeInterval := getInt "iv_change_interval_mb" opts * Lifecycle.kMbToB |> in
      let made req := inr (mkNative false opts (Receiver_new req (getInt "buffer_size" opts) [])) in
      match encryptionKey with
      | None => made req
      | Some key =>
          let type := parseEncryptionType (getString "encryption_type" opts) in
          if negb (Zlen key =? kAESBlockSize) then inl (IllegalArgument "The encryption key must be 16 bytes")
          else if bool_decide (type = ENC_NONE) then inl (IllegalArgument "An encryption key needs encryption enabled")
          else made (req <| encryptionData := mkEncryptionParams type key |>)
      end
  end.

(** [to_string] and [hash] are those of the URL. *)
Definition receiverStart (to_string : Z -> string) (hash : list Z -> list Z) (env : LifeEnv) (mk : Z -> WdtTransferRequest -> option W)
    (fuel : nat) (exists_ : bool) (log : LogFile) (files : F) (t : NativeTransfer (Life W F))
    : option ((Exception + list Z) * NativeTransfer (Life W F)) :=
  let* l := Receiver_init (lifeOptionsOf (nt_options t)) env mk fuel exists_ log files (wdt t) in
  let augmented := transferRequest_ l in
  let code := errorCode augmented in
  if negb (bool_decide (code = OK)) && negb (bool_decide (code = FEWER_PORTS))
  then Some (inl (WdtException code "Receiver setup failed"), mkNative (abortFlag t) (nt_options t) l)
  else
    let* l := transferAsync l in
    let* url := genWdtUrlWithSecret to_string hash augmented in
    Some (inr url, mkNative (abortFlag t) (nt_options t) l).

(** A name, a size and a descriptor, which is negative when the file is opened by
    its name. *)
Definition fileOf (odirect : bool) (f : list Z * Z * Z) : WdtFileInfo :=
  let '(name, size, fd) := f in if 0 <=? fd then WdtFileInfo_fd fd size name else WdtFileInfo_make name size odirect.
(** [None] is an uncaught exception of the URL. *)
Definition senderCreate (url dir : list Z) (options : list string) (fileList : option (list (list Z * Z * Z)))
    : option (Exception + NativeTransfer (SenderFiles * Sender W F)) :=
  match applyOptions options defaults with
  | (Some e, _) => Some (inl e)
  | (None, opts) =>
      let* req := WdtTransferRequest_make url in
      if negb (bool_decide (errorCode req = OK)) then Some (inl (IllegalArgument "Invalid WDT url"))
      else
        let req := req <| directory := dir |> in
        let files :=
          match fileList with
          | Some l => mkSenderFiles (fileOf (getBool "odirect_reads" opts) <$> l) None true
          | None => mkSenderFiles [] None false
          end in
        Some (inr (mkNative false opts (files, Sender_new (Receiver_new req (getInt "buffer_size" opts) []))))
  end.

(** A [TransferReport] of Java: the code, bytes, files, blocks, and what failed. *)
Record JavaReport := mkJavaReport { jr_code : ErrorCode; jr_bytes : Z; jr_numFiles : Z; jr_numBlocks : Z; jr_failed : list (list Z) }.
Definition makeReport (code : ErrorCode) (report : option TransferReport) : JavaReport :=
  match report with
  | Some r =>
      let summary := summary_ r in
      mkJavaReport code (effectiveDataBytes_ summary) (numFiles_ summary) (Reporting.numBlocks_ summary)
        ((id_ <$> Reporting.failedSourceStats_ r) ++ Reporting.failedDirectories_ r)
  | None => mkJavaReport code 0 0 0 []
  end.

Definition senderTransfer (env : Env) (discover run : Sys -> Sys) (t : NativeTransfer (SenderFiles * Sender W F))
    : option (JavaReport * NativeTransfer (SenderFiles * Sender W F)) :=
  let '(files, s) := wdt t in
  let o := senderOptionsOf (nt_options t) in
  let* b := sender_init (sender_base s) in
  let s := s <| sender_base := b |> in
  let back s := mkNative (abortFlag t) (nt_options t) (files, s) in
  if negb (bool_decide (errorCode (transferRequest_ b) = OK)) then Some (makeReport (errorCode (transferRequest_ b)) None, back s)
  else
    let* (code, s) := Sender_start env o files discover s in
    if negb (bool_decide (code = OK)) then Some (makeReport code None, back s)
    else
      let* (report, s) := Sender_finish o run s in
      Some (makeReport (getErrorCode (summary_ report)) (Some report), back s).

(** ** Both *)

Definition receiverFinish (env : LifeEnv) (run : Life W F -> Life W F) (t : NativeTransfer (Life W F))
    : option (JavaReport * NativeTransfer (Life W F)) :=
  let* (report, l) := Receiver_finish (lifeOptionsOf (nt_options t)) env run (wdt t) in
  Some (makeReport (getErrorCode (summary_ report)) (Some report), mkNative (abortFlag t) (nt_options t) l).
Definition native_abort {T} (t : NativeTransfer T) : NativeTransfer T := mkNative true (nt_options t) (wdt t).
Definition receiverDestroy (env : LifeEnv) (run : Life W F -> Life W F) (t : NativeTransfer (Life W F)) : option unit :=
  Receiver_destroy (lifeOptionsOf (nt_options t)) env run (wdt t).
Definition errorName (to_string : Z -> string) (code : Z) : string := errorCodeToStr to_string code.
End jni.
Arguments mkNative {T}. Arguments abortFlag {T}. Arguments nt_options {T}. Arguments wdt {T}.
